(* ===== verification/_CoqProject ===== *)
-Q . S2P
Prelude.v
GoStrings.v
TrieEncoding.v
TrieNode.v
TrieTracer.v
Trie.v
TrieHash.v
TrieSpec.v
TrieCanon.v
TrieUpdate.v
TrieCorrect.v
TrieInsert.v
TrieDelete.v
TrieMap.v
TrieHashCorrect.v
TrieBinding.v
TrieCommit.v
Instances.v
TrieTheorems.v
TrieListing.v
Binary.v
AccountState.v
AccountTheorems.v
CircuitBreaker.v
Storage.v
BatchStore.v
TrieExport.v
LevelStore.v
BadgerStore.v
BlockNumberState.v
SimpleDB.v
Connections.v
ArgumentEncode.v
Receipts.v
SmartContract.v
Transaction.v
EthTransaction.v
TxInstances.v
TransactionTheorems.v
EthTheorems.v
SmartContractTheorems.v
Message.v
EventHelper.v
RemoteStorage.v
Wire.v
Connection.v
ConnectionTheorems.v
Server.v
ConnectionsRace.v
ReceiptRouter.v
TransactionError.v
BlsKeys.v
ClientProg.v
ClientHandler.v
ClientRequests.v
ClientTransactions.v
TxHelper.v
ClientDiscipline.v
ClientInvariant.v
ClientReceipts.v
ClientInstances.v
ClientTheorems.v
ClientHazards.v
ClientSigned.v
TxHelperTheorems.v
BlockChecker.v
BlockReports.v
BlockCheckerTheorems.v
BlockWatch.v
Compiler.v
VerifyRoot.v
ValidatorCheck.v
LoadGen.v
Utils.v
LogFile.v
Logger.v
LogCleaner.v
FileMerkle.v
FileTransfer.v
FileTransferTheorems.v
