(* ===== verification/Prelude.v ===== *)
(** * Metanode suite: verification development

    The suite is a set of Go programs and libraries around a blockchain node.
    Its own logic is in the packages under [src/pkg]: a Merkle Patricia trie, the
    account and contract states stored in it, transactions with their hashes and
    signatures, receipts kept in a trie over a key-value store, and the network
    layer.  The other directories hold command-line tools and test programs that
    call these packages; of these the block hash checker
    ([src/block/block_hash_checker]), which watches the nodes of a chain for
    differences, the file storage client ([src/file-storage]), which splits
    files into chunks under a Merkle root and moves them to and from storage
    servers, the watchdog of state roots ([src/verify_root]), the checker of
    validators ([src/validator/check_validator_consensus]) and a load generator
    ([src/test_tps/tps_blast_cc]) are modelled.

    ** How the parts interact

    A transaction ([pkg/transaction]) is built or converted from an Ethereum
    transaction, hashed, signed, and checked against the sender's account
    ([pkg/state]).  Accounts and receipts ([pkg/receipt]) are values in a trie
    ([pkg/trie]); the trie's root hash identifies their contents.  A commit turns
    the trie's dirty nodes into a node set, which is written to a [Storage]
    ([pkg/storage]); a trie opened later at the root hash loads its nodes from
    there.  A contract execution leaves a result with event logs
    ([pkg/smart_contract]).

    Nodes talk over TCP ([pkg/network]): a connection writes length-prefixed
    messages and reads them back, each connection with goroutines of its own; the
    socket server takes the requests of all connections to a pool of workers, which
    call a handler; the connection registry and the circuit breaker keep track of
    remote nodes.  The client ([pkg/client-tcp]) sits on this layer: its calls send
    requests under fresh identifiers or build, sign and send transactions; its
    handler, run by the server's workers, gives an answer to the request with the
    same identifier, and receipts to a router that knows which call waits for which
    transaction.

    ** Files

    - [Prelude] (this file): machine integers, outcomes of Go calls ([Ok], [Err],
      [Panic], [NoFuel]), the state-and-error monad [stm] for methods with a
      receiver, [encoding/hex], and go-ethereum's hash and conversions as the
      class [EthLib] with the laws [EthLibLaws].  [Binary]: [math/big] and
      [encoding/binary].  [GoStrings]: the packages [strings],
      [strconv] and [path/filepath].
    - [TrieEncoding] ([trie/node/encoding.go]): key forms.  [TrieNode]
      ([trie/node/*.go]): nodes, flags, marshalling, node sets.  [TrieTracer]
      ([trie/tracer.go]).  [Trie] ([trie/trie.go], [trie_reader.go]): [get],
      [insert], [delete], [resolve], [Get], [Update], [ParallelGet], [GetAll],
      [Count].  [TrieHash] ([hasher.go], [committer.go]): [HashTrie], [Commit],
      [GetRootHash].
    - [TrieSpec]: pure trees, the abstract form of a trie, with well-formedness;
      [TrieCanon]: a map has one well-formed tree; [TrieUpdate]: pure update;
      [TrieCorrect], [TrieInsert], [TrieDelete]: the code's walks compute the pure
      ones, through hash nodes loaded from the database; [TrieMap]: tries and
      finite maps; [TrieHashCorrect], [TrieBinding], [TrieCommit]: hashing and
      committing; [TrieTheorems]: the theorems.  [TrieListing]:
      [GetStorageKeys] and [GetKeyValue]; [TrieExport]: [ExportTrie] and
      [ImportTrie].
    - [AccountState], [AccountTheorems] ([pkg/state], [pkg/common/common.go]).
    - [Storage] ([storage/storage.go], [memorydb.go]): the interface as a class
      with its law, and the in-memory store that satisfies it.
    - [ArgumentEncode] ([smart_contract/argument_encode]): ABI strings.
    - [Receipts] ([pkg/receipt]): proved against the
      [Storage] interface.
    - [BatchStore] ([storage/batchstore.go]): framed files and backup records.  [SimpleDB]
      ([storage/simpledb.go]): a store in a data and an index
      file, and the manager of such stores.  [RemoteStorage]
      ([storage/remote_storage_client.go],
      [remote_storage_service.go]): a store behind a connection, its callers, the
      handler of responses and the service as interleaved steps.
    - [LevelStore] ([storage/leveldb.go]): the databases of a
      manager, with the goroutine that closes one.  [BadgerStore]
      ([storage/badgerdb.go], [badger_db.go]): the two wrappers, the first one step
      by step.  [BlockNumberState] ([storage/block_number_state.go]).
    - [LogFile] ([loggerfile/logger_file.go]), [LogCleaner]
      ([log_cleaner.go]), [Logger] ([logger/logger.go]): log files over system
      calls that may fail, their rotation and removal, and the outputs that lines
      go to.
    - [SmartContract], [SmartContractTheorems] ([pkg/smart_contract]): execution
      results, event logs, update data.
    - [Connections] ([network/connections_manager.go], [common/connection_type.go]),
      [ConnectionsRace]: the same calls step by step, interleaved; and
      [CircuitBreaker] ([network/circuit_breaker.go]).
    - [Message] ([network/message.go], [message_sender.go], [request.go]), [Wire]:
      the framing of the read and write loops, [network/config.go]; [Connection]
      ([network/connection.go]): the goroutine [run] with its commands, the reader
      and the writer of a session, and each public method as a program;
      [ConnectionTheorems].
    - [Server] ([network/server.go], [handler.go]): connection loops, worker pool,
      shutdown, and the request counters.
    - [EventHelper] ([client-tcp/utils/event_helper]): the events of a contract and
      the decoding of their logs.  [Compiler] ([complier/complier.go]): the front end
      of the Solidity compiler.
    - [ReceiptRouter] ([runReceiptRouter] of [client-tcp/client.go]).
      [ClientProg]: the state the client's goroutines share, the monad of their
      steps, and the interleaving semantics.  [ClientHandler]
      ([client-tcp/network/*.go], [command/commands.go]); [ClientRequests]
      ([client_chain.go], the RPC part of [client.go], [config/config.go]);
      [ClientTransactions] (the rest of [client.go],
      [controllers/transaction_controller.go]); [TxHelper]
      ([utils/tx_helper/tx_helper.go]): calls with defaults, status checks and a
      shared nonce cache.  [ClientDiscipline]: the typestate
      of request channels, and that every call obeys it; [ClientInvariant]: it is
      preserved by every step; [ClientReceipts]: a logic of registrations and
      receipts; [ClientInstances]: executable parameters; [ClientTheorems],
      [ClientSigned], [ClientHazards], [TxHelperTheorems]: the theorems.
    - [TransactionError] ([transaction_error.go], [verify_transaction_sign.go]);
      [BlsKeys] ([bls/key_pair.go] and the keys of [bls/bls.go]).
    - [Transaction], [TransactionTheorems] ([transaction.go], [call_data.go],
      [deploy_data.go], [execute_sc_transactions.go], and the wrappers of
      [bls/bls.go]); [EthTransaction], [EthTheorems] ([eth_legacy.go],
      [eth_eip2930.go], [eth_eip1559.go]).
    - [BlockChecker] ([block/block_hash_checker/main.go]): fetching a range of
      blocks from all nodes and comparing them ([checkBatch]); [BlockWatch]: the
      scan, the watch loop and the search for the first difference ([main],
      [watchOnce], [runWatch]); [BlockReports]: the reports on a difference;
      [BlockCheckerTheorems].
    - [VerifyRoot] ([verify_root/main.go]): rounds of the watchdog of state roots.
      [ValidatorCheck] ([validator/check_validator_consensus/main.go]): the committee
      in the log against the validators of the contract.  [LoadGen]
      ([test_tps/tps_blast_cc/main.go], [rpc/client.go]): nonces,
      batches, connections and confirmation of a round.
    - [Utils] ([utils/*.go], [common/utilities.go]): conversions, selectors, ABI
      data, dispatch messages, connection addresses.
    - [FileMerkle], [FileTransfer] ([file-storage/up-down-debug] with
      [config/config.go], [proccessor/quic_client.go], [listener/listener.go] and
      [debug_rust/main.go], and the retries of [file-storage/load-test]): the
      Merkle tree of a file with its proofs; configuration, frames, chunk
      requests, uploads and downloads as interleaved goroutines;
      [FileTransferTheorems].
    - [Instances], [TxInstances]: executable instances of the parameters, with
      proofs of their laws, on which the witnesses are evaluated.

    A definition has the name of the Go function it translates, prefixed by its
    receiver type where two would clash.  A method is a function of its receiver:
    a value when it only reads, [receiver -> receiver] when it mutates and cannot
    fail, [stm receiver result] when it can fail.

    ** What the theorems show

    - Trie: any sequence of reads and updates behaves like a finite map
      ([trie_refines_map]); the root hash is a function of the contents
      ([root_hash_canonical]) and determines them up to an explicit hash collision
      when all keys have one length ([root_hash_binding]); commit and reload give
      the contents of such a trie back ([commit_reload]); parallel reads and map iteration do not depend on the
      schedule; counting and listing are complete; the storage keys of a trie are
      the records it consists of ([storage_keys_exact]); the key encodings
      round-trip.
    - Accounts: all methods that change an account keep it well formed
      ([account_invariant]) and its balances add up ([account_ledger]); a BLS key is
      set once, the log hash binds the history, the encodings round-trip.
    - Transactions: cached hashes always are the hashes of the current message;
      a type-0xFF signature verifies and binds the signed fields; Ethereum
      transactions convert back and forth and keep a valid sender; the checks of
      funds and of the first transaction are characterised exactly.
    - Receipts: what is read is what was written, the root does not depend on
      goroutine or map order, and a commit survives reopening.
    - Execution results and logs: what the protobuf form keeps, and that the
      hash of the logs binds them.  A log whose indexed inputs are of value types
      decodes to the values it was emitted with ([decode_emitted]); the table of events finds an event by its topic
      ([topic_map_finds]).
    - Compiler front end: bytecode that is returned is what the compiler put out for
      the contract asked for ([compile_sound]); versions are totally preordered
      ([version_order]).
    - Registry and breaker: the sharded registry is one map, also under
      interleaved calls ([registry_interleaving]); the state invariant and the
      statistics of the breaker, and which requests its recovery admits
      ([breaker_recovery]).
    - Messages and connections: what is read is what was written, wherever the
      stream breaks ([wire_roundtrip], [wire_limit]); under every interleaving the
      channels of a connection are closed once and in order
      ([connection_invariant]), a session delivers the accepted messages in order
      ([session_wire]), and a disconnection ends all goroutines
      ([disconnect_ends]).
    - Server: every request is accounted for, and a refused one is answered unless
      the answer cannot be sent ([server_requests]); the workers end after [Stop]
      ([stop_workers]).
    - Client: in any interleaving of calls and incoming messages, the request
      channels follow their discipline ([client_typestate]), an answer reaches only
      the request it is for ([answers_own_request]), a worker never waits to deliver
      one ([delivery_never_blocks]), a receipt returned by a call that waits by hash
      is the receipt of its transaction ([receipt_for_own_transaction], with [router_safe] and
      [router_delivers] of the router), and every transaction sent is one that the
      node's signature checks accept ([client_sends_signed]); a helper call returns
      only a successful receipt of the transaction it built ([helper_receipt]).
    - Block hash checker: a batch reports exactly the blocks on which nodes differ or
      that do not follow the block before ([batch_reports]), the anomalies it logs
      are true ([anomalies_sound]); a watch passes only over blocks that were not
      reported ([watch_cursor]), finds a lasting difference ([watch_detects]) and the
      first one ([first_mismatch_found]); a scan is complete ([scan_complete]).
    - File storage: whatever an upload has sent is a piece of the file with the
      siblings on its path in the registered tree, and its goroutines end with every
      chunk taken or given up ([upload_sends_proofs], [merkle_proofs]); the root of
      the tree binds the chunks up to an explicit hash collision ([merkle_binding]);
      a download restores the file in every interleaving of the goroutines
      ([upload_download]), which all end within a bounded number of steps
      ([download_ends]); the receipt of the
      registration is that of the transaction that was signed ([push_receipt]).
    - Log files: a resolved name stays in the log directory ([resolved_in_root]), no
      line that was written is lost before its file is removed, whatever else fails
      ([log_retained]), cleaning keeps the
      newest directories ([clean_keeps_newest]), lines reach the configured outputs
      ([line_delivered]).
    - Watchdog, validator checker, load generator: no block is left out silently
      ([watch_covers]), the verdict on a committee is exact ([verdict_exact]); the
      transactions of a round follow the nonces of their accounts
      ([build_planned]), each goes out on one connection
      ([batch_on_one_connection], [blast_received]), later rounds go on from there
      ([round_advances]), and a round that is reported as
      confirmed found every transaction in a block, up to two transactions with one
      hash ([round_confirmed]).
    - Helpers: conversions round-trip, a dispatch message is attributed to its
      signer ([dispatch_signer]), the time-stamp window is exact within the range
      of [int64] ([timestamp_window]).
    - Errors and keys: the table of error codes is a bijection ([error_table]), a
      BLS-signed transaction verifies ([bls_sign_verify]).
    - Storage and ABI strings: the laws of the in-memory store, the batch files
      with their size limits and torn writes, the string round trip.  The LevelDB
      databases of a manager are one map per path ([level_refines_map]).  A database
      of two files is a map through compactions, reopenings and crashes between
      calls ([simpledb_refines_map]); a store behind a connection is linearizable
      under lost messages, timeouts and errors of the connection
      ([remote_linearizable]), and a call whose messages arrive returns
      ([remote_call_returns]).

    Some theorems state behaviour that callers may not expect, such as an
    insertion that swallows a missing node ([insert_no_error]), a copy that
    drops the BLS key ([account_copy]), a send that panics when it races with
    [Disconnect] ([send_close_race]), an acknowledgement that stops a worker
    ([ack_blocks_worker]), a read that returns the value of another key
    ([get_race]), a deleted key that a crash brings back ([deleted_key_returns]),
    two transactions with one nonce ([helper_nonce_race]), a broken chain that a
    watch does not see ([watch_misses_breaks]), an export that cannot be imported
    ([export_not_importable]), a download of other contents that succeeds
    ([download_unverified]), an upload without workers that never ends
    ([upload_no_workers]), an idle database whose closing never ends
    ([idle_close_never_ends]), a main file that is found and not used
    ([similar_file_dropped]), a rotation after which log lines are lost
    ([rotation_detaches]), a mismatch that is passed over ([mismatch_skipped]), or a
    batch of transactions that is lost and counted ([failed_flush_loses_batch]).

    ** Parameters

    Code outside the repository is a class with the laws the code relies on:
    Keccak-256 and the fixed-size conversions ([EthLib]), the protobuf codecs
    ([MPTProto], [StateProto], [TxProto], [ScProto], [ReceiptProto], [NetProto],
    [ErrorProto], [RemoteProto], and without laws [HandlerProto] and
    [ClientCodec]), gob ([Gob]), secp256k1 ([Secp]), the blst C library ([Blst],
    [BlstKeys]), go-ethereum's transaction type and wallet ([EthTypes],
    [EthWallet]), the ABI encoder ([Abi]), JSON ([Json] and [StorageJson], without
    laws), the ABI decoder ([EventAbi]), LevelDB ([LevelLib]), Badger ([BadgerLib], without laws), the regular
    expressions of the validator checker ([Matchers]), and the store that a remote
    service serves ([Store]).  The network, what nodes answer to the block checker, what the chain and the
    storage servers answer to the file client, timers, random identifiers and the
    order in which a Go map is iterated are arguments of the steps that read them.  No law says that the hash
    is injective: statements that need it exhibit the two strings that collide.

    ** Fuel

    [get], [insert] and [delete] recurse through nodes loaded from the database
    and take fuel: [Get] and [Update] give [2 * length key + 2] for a hex key, since
    two steps at most, one of them the resolution of a hash node, consume a nibble.
    Hashing and committing recurse on the loaded node.  The theorems show that the
    results are never [NoFuel].  The traversals ([Count], [GetAll]) hold for every
    fuel above the tree's height, the listing of storage keys for every fuel above
    the number of nodes; the levels of a Merkle tree of a file are given one step
    per leaf, more than its height; the snapshot loop of the in-memory store is given
    one step more than it has keys; the search of the block checker is given 65
    steps, one more than the bits of its interval, and its loops over batches hold for
    every fuel above the number of batches; the read loop is given one step more than its
    input has bytes, since every turn consumes some.  Loops of goroutines that need
    not end are step relations and need no fuel.

    ** Not modelled

    Locks and atomics of the trie, accounts, receipts and the breaker: each method
    is one step, and goroutines that write disjoint slots are run in an arbitrary
    order.  The goroutines of connections, registry calls, server and client are
    modelled step by step.  Printing and JSON output; what the packages log is not part
    of their models.  Snapshots, statistics and compaction of the LevelDB and Badger
    wrappers, which pass one call on.  Crashes in the middle of a call
    of [SimpleDB], and failures of the operating system under it; the system calls of
    the file loggers may fail.
    The listener's accept loop and the callbacks of the server.  Reading the
    client's configuration file.  Alert texts, CSV and Telegram output of the block
    checker.  The event listener and the command lines of the file client, and its
    upload modes that send chunks as transactions.  Options, statistics and traces of
    the load generator.  Generated code ([pkg/proto], the contract bindings) and the
    vendored blst.  The other tools and test programs, which are scripts that send
    fixed requests to a running chain and print the answers. *)

From Stdlib Require Export ZArith Lia.
From stdpp Require Export base option gmap sets strings numbers list.

(** ** Machine data

    A Go [byte] is a [Z] in [0, 256); a [[]byte] is a [list Z]; [uint64] and
    [int64] values are [Z] with the wrap-around written out. *)

Abbreviation bytes := (list Z).

Declare Scope go_scope.
Delimit Scope go_scope with go.

Definition wrap8 (z : Z) : Z := (z mod 256)%Z.
Definition wrap64 (z : Z) : Z := (z mod 2 ^ 64)%Z.

(** Conversion of a [uint64] bit pattern to the [int64] with the same bits. *)
Definition to_int64 (z : Z) : Z :=
  let w := wrap64 z in if (w <? 2 ^ 63)%Z then w else (w - 2 ^ 64)%Z.

Definition is_byte (z : Z) : Prop := (0 <= z < 256)%Z.
Definition is_bytes (b : bytes) : Prop := Forall is_byte b.

#[export] Instance is_byte_dec z : Decision (is_byte z).
Proof. unfold is_byte. apply _. Defined.
#[export] Instance is_bytes_dec b : Decision (is_bytes b).
Proof. unfold is_bytes. apply _. Defined.

(** ** Outcomes of Go calls

    [Err] is a returned non-nil error, [Panic] a run-time panic (index out of
    range, failed type assertion, explicit panic), [NoFuel] the model's mark
    for a recursion that did not finish within the fuel it was given. *)

Inductive GoError :=
| ErrCommitted
| MissingNodeError (NodeHash Path : bytes)
| KeyNotFound (key : bytes)
| ErrText (msg : string).

Inductive outcome (A : Type) :=
| Ok (a : A)
| Err (e : GoError)
| Panic
| NoFuel.
Arguments Ok {A} a.
Arguments Err {A} e.
Arguments Panic {A}.
Arguments NoFuel {A}.

#[export] Instance GoError_eq_dec : EqDecision GoError.
Proof. solve_decision. Defined.
#[export] Instance outcome_eq_dec {A} `{EqDecision A} : EqDecision (outcome A).
Proof. solve_decision. Defined.

#[export] Instance outcome_ret : MRet outcome := fun A a => Ok a.
#[export] Instance outcome_bind : MBind outcome := fun A B f m =>
  match m with
  | Ok a => f a
  | Err e => Err e
  | Panic => Panic
  | NoFuel => NoFuel
  end.

(** [mapO f l]: the loop that calls [f] on each element and stops at the first
    call that does not return normally. *)
Section mapO.
Context {A B : Type} (f : A -> outcome B).
Fixpoint mapO (l : list A) : outcome (list B) :=
  match l with
  | [] => Ok []
  | x :: l' => y ← f x; ys ← mapO l'; Ok (y :: ys)
  end.
End mapO.

Lemma mapO_Forall2 {A B} (f : A -> outcome B) l r :
  mapO f l = Ok r <-> Forall2 (fun x y => f x = Ok y) l r.
Proof.
  revert r. induction l as [|x l IH]; intros r; simpl.
  - split; [intros [= <-]; constructor | by inversion 1].
  - destruct (f x) as [y| | |] eqn:E; simpl;
      [|split; [discriminate | inversion 1; congruence]..].
    destruct (mapO f l) as [ys| | |] eqn:E'; simpl.
    + split; [intros [= <-]; constructor; [done | by apply IH]|].
      inversion 1; subst. match goal with H : Forall2 _ _ _ |- _ => apply IH in H end. congruence.
    + split; [discriminate|]. inversion 1; subst.
      match goal with H : Forall2 _ _ _ |- _ => apply IH in H end. discriminate.
    + split; [discriminate|]. inversion 1; subst.
      match goal with H : Forall2 _ _ _ |- _ => apply IH in H end. discriminate.
    + split; [discriminate|]. inversion 1; subst.
      match goal with H : Forall2 _ _ _ |- _ => apply IH in H end. discriminate.
Qed.

(** ** State with outcomes

    Code that mutates a receiver [S] and may fail: the state survives a
    returned error, as it does in the program. *)

Definition stm (S A : Type) : Type := S -> outcome A * S.

#[export] Instance stm_ret {S} : MRet (stm S) := fun A a s => (Ok a, s).
#[export] Instance stm_bind {S} : MBind (stm S) := fun A B f m s =>
  match m s with
  | (Ok a, s') => f a s'
  | (Err e, s') => (Err e, s')
  | (Panic, s') => (Panic, s')
  | (NoFuel, s') => (NoFuel, s')
  end.

Definition lift {S A} (o : outcome A) : stm S A := fun s => (o, s).
Definition modify {S} (f : S -> S) : stm S unit := fun s => (Ok tt, f s).

(** [catch m h]: run [m]; when it returns an error, run the handler on the
    state left behind. *)
Definition catch {S A} (m : stm S A) (h : GoError -> stm S A) : stm S A :=
  fun s => match m s with
           | (Err e, s') => h e s'
           | r => r
           end.

Lemma stm_bind_Ok {S A B} (m : stm S A) (f : A -> stm S B) s s' a :
  m s = (Ok a, s') -> (m ≫= f) s = f a s'.
Proof. intros E. unfold mbind, stm_bind. by rewrite E. Qed.

Lemma stm_bind_Err {S A B} (m : stm S A) (f : A -> stm S B) s s' e :
  m s = (Err e, s') -> (m ≫= f) s = (Err e, s').
Proof. intros E. unfold mbind, stm_bind. by rewrite E. Qed.

Lemma lift_Ok {S A B} (a : A) (f : A -> stm S B) s : (lift (Ok a) ≫= f) s = f a s.
Proof. done. Qed.

#[global] Arguments Nat.div : simpl never.
#[global] Arguments Nat.modulo : simpl never.

Create HintDb go.

(** ** [encoding/hex]

    [hex.EncodeToString]: two lower-case ASCII digits for each byte; a Go
    string is its bytes. *)

Definition hexDigit (n : Z) : Z := (if n <? 10 then 48 + n else 87 + n)%Z.

Fixpoint EncodeToString (b : bytes) : bytes :=
  match b with
  | [] => []
  | x :: b' => hexDigit (x / 16) :: hexDigit (x mod 16) :: EncodeToString b'
  end.

Lemma hexDigit_inj a b :
  (0 <= a < 16)%Z -> (0 <= b < 16)%Z -> hexDigit a = hexDigit b -> a = b.
Proof. unfold hexDigit. intros. repeat case_match; lia. Qed.

(** ASCII text, a protobuf string. *)
Definition is_text (b : bytes) : Prop := Forall (fun c => 0 <= c < 128)%Z b.

Lemma EncodeToString_text b : is_bytes b -> is_text (EncodeToString b).
Proof.
  assert (Hd : forall n, (0 <= n < 16)%Z -> (0 <= hexDigit n < 128)%Z).
  { intros n Hn. unfold hexDigit. destruct (n <? 10)%Z; lia. }
  induction 1 as [|x b Hx Hb IH]; [constructor|]. unfold is_byte in Hx. cbn [EncodeToString].
  repeat constructor; try apply IH; apply Hd;
    first [split; [apply Z.div_pos; lia|apply Z.div_lt_upper_bound; lia] | apply Z.mod_pos_bound; lia].
Qed.

Lemma EncodeToString_inj a b :
  Forall (fun z => 0 <= z < 256)%Z a -> Forall (fun z => 0 <= z < 256)%Z b ->
  EncodeToString a = EncodeToString b -> a = b.
Proof.
  intros Ha. revert b. induction Ha as [|x a Hx Ha IH]; intros b Hb; destruct Hb as [|y b Hy Hb];
    simpl; try done.
  intros [= E1 E2 E3].
  assert (Hdiv : forall z, (0 <= z < 256)%Z -> (0 <= z / 16 < 16)%Z).
  { intros. split; [apply Z.div_pos; lia | apply Z.div_lt_upper_bound; lia]. }
  apply hexDigit_inj in E1; [|by apply Hdiv..].
  apply hexDigit_inj in E2; [|apply Z.mod_pos_bound; lia..].
  f_equal; [|by apply IH].
  rewrite (Z.div_mod x 16), (Z.div_mod y 16) by lia. congruence.
Qed.

(** ** Arithmetic shared by the components *)

Lemma wrap8_byte z : is_byte (wrap8 z).
Proof. unfold is_byte, wrap8. pose proof (Z.mod_pos_bound z 256). lia. Qed.

Lemma wrap8_id z : is_byte z -> wrap8 z = z.
Proof. unfold is_byte, wrap8. intros. by rewrite Z.mod_small by lia. Qed.

Lemma wrap64_range z : (0 <= wrap64 z < 2 ^ 64)%Z.
Proof. unfold wrap64. apply Z.mod_pos_bound. lia. Qed.

Lemma wrap64_id z : (0 <= z < 2 ^ 64)%Z -> wrap64 z = z.
Proof. intros. unfold wrap64. by rewrite Z.mod_small by lia. Qed.

Lemma to_int64_id z : (0 <= z < 2 ^ 63)%Z -> to_int64 z = z.
Proof. intros Hz. unfold to_int64. rewrite wrap64_id by lia. by rewrite (proj2 (Z.ltb_lt _ _)) by lia. Qed.

(** ** Maps *)

Definition textKeys {A} (m : gmap bytes A) : Prop := map_Forall (fun k _ => is_text k) m.

Lemma textKeys_list {A} (l : list (bytes * A)) : Forall (fun kv => is_text kv.1) l -> textKeys (list_to_map l : gmap bytes A).
Proof.
  intros Hl k v Hk. apply elem_of_list_to_map_2 in Hk. by apply (proj1 (Forall_forall _ _) Hl) in Hk.
Qed.

(** A map rebuilt from its entries through two inverse translations of keys
    and values. *)
Lemma list_to_map_translate {A B} (f : bytes * A -> bytes * B) (g : bytes * B -> bytes * A) (m : gmap bytes A) :
  (forall k v, m !! k = Some v -> g (f (k, v)) = (k, v)) ->
  (forall k1 v1 k2 v2, m !! k1 = Some v1 -> m !! k2 = Some v2 -> (f (k1, v1)).1 = (f (k2, v2)).1 -> k1 = k2) ->
  (list_to_map (g <$> map_to_list (list_to_map (f <$> map_to_list m) : gmap bytes B)) : gmap bytes A) = m.
Proof.
  intros Hg Hinj.
  assert (Hn : NoDup (f <$> map_to_list m).*1).
  { rewrite <- list_fmap_compose. apply NoDup_fmap_2_strong; [|apply NoDup_map_to_list].
    intros [k1 v1] [k2 v2] H1%elem_of_map_to_list H2%elem_of_map_to_list E.
    assert (k1 = k2) as -> by (by eapply Hinj). congruence. }
  assert (Eg : g <$> (f <$> map_to_list m) = map_to_list m).
  { rewrite <- list_fmap_compose. rewrite <- (list_fmap_id (map_to_list m)) at 2.
    apply list_fmap_ext. intros i [k v] Hi. apply Hg. apply elem_of_map_to_list. by eapply list_elem_of_lookup_2. }
  transitivity (list_to_map (map_to_list m) : gmap bytes A); [|apply list_to_map_to_list].
  symmetry. apply list_to_map_proper; [apply NoDup_fst_map_to_list|].
  rewrite <- Eg at 1. f_equiv. symmetry. by apply map_to_list_to_map.
Qed.

(** ** Fixed-size arrays *)

(** [copy(p[0:n], b)] into a fresh array of [n] bytes. *)
Definition arrayFromBytes (n : nat) (b : bytes) : bytes :=
  take n b ++ replicate (n - length b) 0%Z.

Lemma arrayFromBytes_id n b : length b = n -> arrayFromBytes n b = b.
Proof. intros <-. unfold arrayFromBytes. rewrite Nat.sub_diag, take_ge by lia. by rewrite app_nil_r. Qed.

Lemma length_arrayFromBytes n b : length (arrayFromBytes n b) = n.
Proof. unfold arrayFromBytes. rewrite length_app, length_take, length_replicate. lia. Qed.

(** ** go-ethereum

    The parts of [github.com/ethereum/go-ethereum] the modelled code calls, as
    parameters: [crypto.Keccak256], and the conversions of byte slices to the
    fixed-size arrays [common.Hash] (32 bytes) and [common.Address] (20 bytes),
    [common.FromHex], and [Hex] of an address.
    [EthLibLaws] is what the code relies on: the result sizes, that a slice of
    the right size is taken as it is and no bytes are the zero address, and that
    [FromHex] reads back the output of [hex.EncodeToString] and of [Hex], which
    is ASCII. *)

Class EthLib := {
  Keccak256 : bytes -> bytes;
  BytesToHash : bytes -> bytes;
  BytesToAddress : bytes -> bytes;
  FromHex : bytes -> bytes;
  Hex : bytes -> bytes
}.

Class EthLibLaws `{EthLib} : Prop := {
  Keccak256_len b : length (Keccak256 b) = 32%nat;
  Keccak256_bytes b : is_bytes (Keccak256 b);
  BytesToHash_len b : length (BytesToHash b) = 32%nat;
  BytesToHash_id b : length b = 32%nat -> BytesToHash b = b;
  BytesToAddress_len b : length (BytesToAddress b) = 20%nat;
  BytesToAddress_id b : length b = 20%nat -> BytesToAddress b = b;
  BytesToAddress_nil : BytesToAddress [] = replicate 20 0%Z;
  FromHex_encode b : is_bytes b -> FromHex (EncodeToString b) = b;
  FromHex_Hex a : length a = 20%nat -> is_bytes a -> FromHex (Hex a) = a;
  Hex_text a : length a = 20%nat -> is_bytes a -> is_text (Hex a)
}.

(** The conversions of a slice of bytes are arrays of bytes. *)
Class EthBytesLaws `{EthLib} : Prop := {
  BytesToHash_bytes b : is_bytes b -> is_bytes (BytesToHash b);
  BytesToAddress_bytes b : is_bytes b -> is_bytes (BytesToAddress b)
}.

(** A [common.Address]. *)
Definition is_address (a : bytes) : Prop := length a = 20%nat /\ is_bytes a.

#[export] Instance is_address_dec a : Decision (is_address a).
Proof. unfold is_address. apply _. Defined.

(** [common.HexToAddress] *)
Definition HexToAddress `{EthLib} (s : bytes) : bytes := BytesToAddress (FromHex s).

Lemma HexToAddress_Hex `{EthLibLaws} a : is_address a -> HexToAddress (Hex a) = a.
Proof. intros [La Ba]. unfold HexToAddress. rewrite FromHex_Hex by done. by apply BytesToAddress_id. Qed.

Lemma HexToAddress_encode `{EthLibLaws} a : is_address a -> HexToAddress (EncodeToString a) = a.
Proof. intros [La Ba]. unfold HexToAddress. rewrite FromHex_encode by done. by apply BytesToAddress_id. Qed.

Lemma Hex_inj `{EthLibLaws} a b : is_address a -> is_address b -> Hex a = Hex b -> a = b.
Proof. intros Ha Hb E. by rewrite <- (HexToAddress_Hex a), <- (HexToAddress_Hex b), E. Qed.

(** [common.Hash{}] *)
Definition zeroHash : bytes := replicate 32 0%Z.
Definition zeroAddress : bytes := replicate 20 0%Z.

#[export] Hint Resolve wrap8_byte wrap64_range : go.

(** Updating one element changes a sum by the difference. *)
Lemma sum_with_insert {A} (f : A -> nat) (l : list A) i x y :
  l !! i = Some x -> (sum_list_with f (<[i := y]> l) + f x = sum_list_with f l + f y)%nat.
Proof. revert i. induction l as [|z l IH]; intros [|i]; simpl; intros E; simplify_eq; [lia|]. specialize (IH i E). lia. Qed.
