(* ===== verification/GoStrings.v ===== *)
(** * Strings

    The functions of the packages [strings] and [strconv] that several programs
    use.  Strings are byte strings; of the white space of Unicode only ASCII is
    trimmed. *)

From Stdlib Require Import Ascii.
From S2P Require Import Prelude.

Local Open Scope Z_scope.

(** ** Splitting and trimming *)

Fixpoint splitOn (c : ascii) (s : string) : list string :=
  match s with
  | EmptyString => [""%string]
  | String a s' =>
      if bool_decide (a = c) then ""%string :: splitOn c s'
      else match splitOn c s' with
           | [] => [String a ""]
           | p :: ps => String a p :: ps
           end
  end.

(** [p[:eqIdx]] and [p[eqIdx+1:]] for the first occurrence, if there is one. *)
Fixpoint cutAt (c : ascii) (s : string) : option (string * string) :=
  match s with
  | EmptyString => None
  | String a s' =>
      if bool_decide (a = c) then Some (""%string, s')
      else match cutAt c s' with Some (u, v) => Some (String a u, v) | None => None end
  end.

Definition isSpaceChar (a : ascii) : bool :=
  let n := Ascii.nat_of_ascii a in ((9 <=? n)%nat && (n <=? 13)%nat) || (n =? 32)%nat.

Fixpoint trimLeft (s : string) : string :=
  match s with
  | String a s' => if isSpaceChar a then trimLeft s' else s
  | EmptyString => s
  end.

Fixpoint trimRight (s : string) : string :=
  match s with
  | EmptyString => EmptyString
  | String a s' =>
      match trimRight s' with
      | EmptyString => if isSpaceChar a then EmptyString else String a ""
      | t => String a t
      end
  end.

Definition TrimSpace (s : string) : string := trimRight (trimLeft s).

Fixpoint contains (sub s : string) : bool :=
  String.prefix sub s || match s with EmptyString => false | String _ s' => contains sub s' end.

(** ** Facts *)

(** A string without the character. *)
Fixpoint without (c : ascii) (s : string) : Prop :=
  match s with EmptyString => True | String a s' => a <> c /\ without c s' end.

Fixpoint noSpaces (s : string) : Prop :=
  match s with EmptyString => True | String a s' => isSpaceChar a = false /\ noSpaces s' end.

Lemma without_app c s t : without c (s +:+ t) <-> without c s /\ without c t.
Proof. induction s as [|a s IH]; [cbn; naive_solver|]. change (String a s +:+ t)%string with (String a (s +:+ t)). cbn [without]. rewrite IH. naive_solver. Qed.
Lemma noSpaces_app s t : noSpaces (s +:+ t) <-> noSpaces s /\ noSpaces t.
Proof. induction s as [|a s IH]; [cbn; naive_solver|]. change (String a s +:+ t)%string with (String a (s +:+ t)). cbn [noSpaces]. rewrite IH. naive_solver. Qed.

Lemma trim_noSpaces s : noSpaces s -> TrimSpace s = s.
Proof.
  intros Hs. unfold TrimSpace. assert (El : trimLeft s = s) by (destruct s as [|a s]; [done|]; cbn in *; by destruct Hs as [-> _]).
  rewrite El. clear El. induction s as [|a s IH]; [done|]. cbn in *. destruct Hs as [Ha Hs]. rewrite (IH Hs). destruct s; [by rewrite Ha|done].
Qed.

Lemma splitOn_without c s : without c s -> splitOn c s = [s].
Proof.
  induction s as [|a s IH]; [done|]. cbn. intros [Ha Hs]. rewrite (bool_decide_eq_false_2 _ Ha), (IH Hs). done.
Qed.

Lemma splitOn_app c s t : without c s -> splitOn c (s +:+ String c t) = s :: splitOn c t.
Proof.
  induction s as [|a s IH]; [change ("" +:+ String c t)%string with (String c t); cbn [splitOn cutAt]; by rewrite bool_decide_eq_true_2|]. intros [Ha Hs].
  change (String a s +:+ String c t)%string with (String a (s +:+ String c t)). cbn [splitOn cutAt]. by rewrite (bool_decide_eq_false_2 _ Ha), (IH Hs).
Qed.

Lemma cutAt_app c s t : without c s -> cutAt c (s +:+ String c t) = Some (s, t).
Proof.
  induction s as [|a s IH]; [change ("" +:+ String c t)%string with (String c t); cbn [splitOn cutAt]; by rewrite bool_decide_eq_true_2|]. intros [Ha Hs].
  change (String a s +:+ String c t)%string with (String a (s +:+ String c t)). cbn [splitOn cutAt]. by rewrite (bool_decide_eq_false_2 _ Ha), (IH Hs).
Qed.

(** ** Concatenation *)

Local Open Scope string_scope.

Lemma append_assoc' (a b c : string) : (a +:+ b) +:+ c = a +:+ (b +:+ c).
Proof.
  induction a as [|x a IH]; [done|]. change ((String x a +:+ b) +:+ c) with (String x ((a +:+ b) +:+ c)). rewrite IH. done.
Qed.

Lemma append_cancel (a b c : string) : a +:+ b = a +:+ c -> b = c.
Proof.
  induction a as [|x a IH]; [done|]. change (String x a +:+ b) with (String x (a +:+ b)). change (String x a +:+ c) with (String x (a +:+ c)).
  intros [= E]. by apply IH.
Qed.

Lemma append_empty (s : string) : s +:+ "" = s.
Proof. induction s as [|a s IH]; [done|]. change (String a s +:+ "") with (String a (s +:+ "")). by rewrite IH. Qed.

(** The bytes of a string. *)
Definition str (s : string) : bytes := (fun c => Z.of_nat (nat_of_ascii c)) <$> String.list_ascii_of_string s.

(** ** Letter case, on the ASCII letters *)

Definition lowerChar (a : ascii) : ascii :=
  let n := nat_of_ascii a in if ((65 <=? n) && (n <=? 90))%nat then ascii_of_nat (n + 32) else a.

Fixpoint ToLower (s : string) : string :=
  match s with EmptyString => EmptyString | String a s' => String (lowerChar a) (ToLower s') end.

Definition EqualFold (a b : string) : bool := bool_decide (ToLower a = ToLower b).

(** ** [strconv] *)

Definition decDigit (a : ascii) : option Z :=
  let n := Z.of_nat (nat_of_ascii a) in if ((48 <=? n) && (n <=? 57))%Z then Some (n - 48)%Z else None.

Fixpoint decValue (acc : Z) (s : string) : option Z :=
  match s with
  | EmptyString => Some acc
  | String a s' => d ← decDigit a; decValue (acc * 10 + d)%Z s'
  end.

(** [strconv.ParseUint(s, 10, 64)]: digits only, at least one, and a value that
    fits. *)
Definition parseUintDec (s : string) : option Z :=
  match s with
  | EmptyString => None
  | _ => v ← decValue 0 s; if (v <? 2 ^ 64)%Z then Some v else None
  end.

(** [strconv.Atoi]: an optional sign, then digits. *)
Definition atoi (s : string) : option Z :=
  let signed (neg : bool) (t : string) :=
    v ← (match t with EmptyString => None | _ => decValue 0 t end);
    let z := (if neg then - v else v)%Z in
    if ((- 2 ^ 63 <=? z) && (z <? 2 ^ 63))%Z then Some z else None in
  match s with
  | String "-" t => signed true t
  | String "+" t => signed false t
  | _ => signed false s
  end.

(** * Path names

    The functions of [path/filepath] that the log packages call, on Unix: a
    path is a string whose components are separated by slashes.  [Clean] is the
    lexical normalisation that the other functions are defined with; no function
    here looks at the file system, and the working directory is an argument of
    [Abs]. *)

Local Open Scope list_scope.

Definition slash : ascii := "/"%char.

(** [strings.Join(elems, "/")] *)
Fixpoint joinSlash (elems : list string) : string :=
  match elems with
  | [] => ""
  | [e] => e
  | e :: rest => e +:+ String slash (joinSlash rest)
  end.

Definition IsAbs (path : string) : bool :=
  match path with String a _ => bool_decide (a = slash) | EmptyString => false end.

(** One component of [Clean]: [out] holds the components kept so far, the last
    one first. *)
Definition cleanStep (rooted : bool) (out : list string) (c : string) : list string :=
  if bool_decide (c = "" \/ c = ".")%string then out
  else if bool_decide (c = "..")%string then
    match out with
    | top :: out' => if bool_decide (top = "..")%string then c :: out else out'
    | [] => if rooted then [] else [c]
    end
  else c :: out.

Definition cleanComps (rooted : bool) (cs : list string) : list string := rev (foldl (cleanStep rooted) [] cs).

Definition render (rooted : bool) (cs : list string) : string :=
  if rooted then String slash (joinSlash cs)
  else match cs with [] => "." | _ => joinSlash cs end.

Definition Clean (path : string) : string := render (IsAbs path) (cleanComps (IsAbs path) (splitOn slash path)).

(** The empty elements before the first other one are ignored. *)
Fixpoint Join (elems : list string) : string :=
  match elems with
  | [] => ""
  | e :: rest => if bool_decide (e = "")%string then Join rest else Clean (joinSlash elems)
  end.

(** The last component that is not empty; [/] when there are only slashes. *)
Definition Base (path : string) : string :=
  if bool_decide (path = "")%string then "."
  else default "/"%string (last (filter (fun c => c <> ""%string) (splitOn slash path))).

(** Everything up to the last slash, cleaned. *)
Definition Dir (path : string) : string :=
  let cs := splitOn slash path in
  if (length cs <=? 1)%nat then "." else Clean (joinSlash (take (length cs - 1) cs) +:+ "/").

Definition Abs (wd path : string) : string := if IsAbs path then Clean path else Join [wd; path].

(** The components of a cleaned path; [.] has none. *)
Definition comps (path : string) : list string := filter (fun c => c <> ""%string /\ c <> "."%string) (splitOn slash path).

Fixpoint stripCommon (a b : list string) : list string * list string :=
  match a, b with
  | x :: a', y :: b' => if bool_decide (x = y) then stripCommon a' b' else (a, b)
  | _, _ => (a, b)
  end.

Definition Rel (basepath targpath : string) : outcome string :=
  let base := Clean basepath in let targ := Clean targpath in
  if bool_decide (targ = base) then Ok "."%string
  else if negb (Bool.eqb (IsAbs base) (IsAbs targ)) then Err (ErrText "Rel: can't make path relative")
  else
    let '(b, t) := stripCommon (comps base) (comps targ) in
    match b with
    | c :: _ =>
        if bool_decide (c = "..")%string then Err (ErrText "Rel: can't make path relative")
        else Ok (joinSlash ((const ".."%string <$> b) ++ t))
    | [] => Ok (joinSlash t)
    end.

(** ** Normal paths

    A component that is a name: not empty, not a dot or two, and without a
    slash. *)

Definition isName (c : string) : Prop := c <> ""%string /\ c <> "."%string /\ c <> ".."%string /\ without slash c.

#[export] Instance without_dec c s : Decision (without c s).
Proof. induction s as [|a s IH]; cbn; apply _. Defined.
#[export] Instance isName_dec c : Decision (isName c).
Proof. unfold isName. apply _. Defined.

(** An absolute path of names. *)
Definition absPath (cs : list string) : string := String slash (joinSlash cs).

Lemma splitOn_join cs : cs <> [] -> Forall (without slash) cs -> splitOn slash (joinSlash cs) = cs.
Proof.
  intros Hn. induction cs as [|c cs IH]; [done|]. intros [Hc Hcs]%Forall_cons.
  destruct cs as [|d cs]; [by apply splitOn_without|].
  cbn [joinSlash]. rewrite splitOn_app by done. f_equal. by apply IH.
Qed.

Lemma splitOn_absPath cs : Forall (without slash) cs ->
  splitOn slash (absPath cs) = ""%string :: match cs with [] => [""%string] | _ => cs end.
Proof.
  intros Hcs. unfold absPath. change (String slash (joinSlash cs)) with ("" +:+ String slash (joinSlash cs))%string.
  rewrite splitOn_app by done. destruct cs as [|c cs]; [done|]. by rewrite splitOn_join.
Qed.

Lemma cleanStep_name r out c : isName c -> cleanStep r out c = c :: out.
Proof.
  intros (H1 & H2 & H3 & _). unfold cleanStep.
  rewrite bool_decide_eq_false_2 by (intros [?|?]; done). by rewrite bool_decide_eq_false_2.
Qed.

Lemma foldl_names r cs out : Forall isName cs -> foldl (cleanStep r) out cs = rev cs ++ out.
Proof.
  intros H. revert out. induction H as [|c cs Hc _ IH]; intros out; [done|].
  cbn [foldl rev]. rewrite IH, cleanStep_name by done. by rewrite <- app_assoc.
Qed.

Lemma cleanComps_names r cs : Forall isName cs -> cleanComps r cs = cs.
Proof. intros H. unfold cleanComps. by rewrite foldl_names, app_nil_r, rev_involutive. Qed.

Lemma names_without cs : Forall isName cs -> Forall (without slash) cs.
Proof. intros H. eapply Forall_impl; [exact H|]. by intros c (_ & _ & _ & ?). Qed.

Lemma Clean_absPath cs : Forall isName cs -> Clean (absPath cs) = absPath cs.
Proof.
  intros H. unfold Clean. change (IsAbs (absPath cs)) with true. unfold render.
  rewrite splitOn_absPath by (by apply names_without). unfold absPath. f_equal. f_equal.
  destruct cs as [|c cs]; [done|].
  change (cleanComps true (""%string :: c :: cs)) with (cleanComps true (c :: cs)).
  by rewrite cleanComps_names.
Qed.

Lemma comps_absPath cs : Forall isName cs -> comps (absPath cs) = cs.
Proof.
  intros H. unfold comps. rewrite splitOn_absPath by (by apply names_without).
  rewrite filter_cons_False by naive_solver. destruct cs as [|c cs]; [done|].
  induction H as [|d ds (H1 & H2 & _) _ IH]; [done|].
  rewrite filter_cons_True by done. by f_equal.
Qed.

(** Every rooted path cleans to a path of names. *)
Lemma cleanStep_names out c : without slash c -> Forall isName out -> Forall isName (cleanStep true out c).
Proof.
  intros Hc Ho. unfold cleanStep. case_bool_decide as E1; [done|]. case_bool_decide as E2.
  - destruct out as [|t out]; [constructor|]. case_bool_decide as E3.
    + exfalso. inversion Ho as [|? ? (_ & _ & Ht & _)]; subst. by apply Ht.
    + by inversion Ho.
  - constructor; [|done]. unfold isName. naive_solver.
Qed.

Lemma splitOn_all_without c s : Forall (without c) (splitOn c s).
Proof.
  induction s as [|a s IH]; [by constructor|]. cbn [splitOn]. case_bool_decide as E; [by constructor|].
  destruct (splitOn c s) as [|p ps]; [by repeat constructor|].
  inversion IH; subst. by constructor.
Qed.

Lemma cleanComps_rooted cs : Forall (without slash) cs -> Forall isName (cleanComps true cs).
Proof.
  intros H. unfold cleanComps. apply Forall_rev.
  assert (G : forall out, Forall isName out -> Forall isName (foldl (cleanStep true) out cs)).
  { induction H as [|c cs Hc _ IH]; intros out Ho; [done|]. cbn [foldl]. apply IH. by apply cleanStep_names. }
  apply G. constructor.
Qed.

Lemma Clean_abs path : IsAbs path = true -> exists cs, Clean path = absPath cs /\ Forall isName cs.
Proof.
  intros E. unfold Clean. rewrite E. eexists. split; [done|].
  apply cleanComps_rooted, splitOn_all_without.
Qed.

Lemma Abs_abs wd path : IsAbs wd = true -> exists cs, Abs wd path = absPath cs /\ Forall isName cs.
Proof.
  intros Hw. unfold Abs. destruct (IsAbs path) eqn:E; [by apply Clean_abs|].
  cbn [Join]. rewrite bool_decide_eq_false_2 by (by intros ->). apply Clean_abs.
  by destruct wd as [|a wd].
Qed.
