(* ===== verification/TrieEncoding.v ===== *)
(** * Key encodings of the Merkle Patricia trie

    Models [pkg/trie/node/encoding.go] (and its copy [pkg/common/encoding.go]):
    key bytes, hex nibbles with the terminator 16, and the compact ("hex
    prefix") encoding, with the in-place variant of the compact encoder over a
    mutated buffer.  The theorems give the round trips, that the encoders never
    index out of range, and that the in-place encoder agrees with the
    allocating one on every non-empty key. *)

From S2P Require Import Prelude.

Local Open Scope Z_scope.

(** ** The code *)

Definition HasTerm (s : bytes) : bool :=
  match last s with
  | Some x => x =? 16
  | None => false
  end.

(** The loop of [KeybytesToHex], before the terminator is stored. *)
Fixpoint byteNibbles (str : bytes) : bytes :=
  match str with
  | [] => []
  | b :: rest => b / 16 :: b mod 16 :: byteNibbles rest
  end.

Definition KeybytesToHex (str : bytes) : bytes := byteNibbles str ++ [16].

(** [nibbles[ni]<<4 | nibbles[ni+1]] on bytes. *)
Definition packNibbles (hi lo : Z) : Z := Z.lor (wrap8 (Z.shiftl hi 4)) lo.

(** [decodeNibbles nibbles bytes] fills [bytes]; an odd number of nibbles or a
    buffer that is too short is an index out of range. *)
Fixpoint decodeNibbles (nibbles buf : bytes) : outcome bytes :=
  match nibbles with
  | [] => Ok buf
  | a :: rest =>
      match rest, buf with
      | b :: ns, _ :: bf => r ← decodeNibbles ns bf; Ok (packNibbles a b :: r)
      | _, _ => Panic
      end
  end.

Definition HexToCompact (hex : bytes) : outcome bytes :=
  let terminator := if HasTerm hex then 1 else 0 in
  let hex := if HasTerm hex then take (length hex - 1) hex else hex in
  let buf := replicate (length hex / 2 + 1) 0 in
  let flag := wrap8 (Z.shiftl terminator 5) in
  if Nat.odd (length hex) then
    match hex with
    | n0 :: hex' =>
        r ← decodeNibbles hex' (drop 1 buf);
        Ok (Z.lor (Z.lor flag (Z.shiftl 1 4)) n0 :: r)
    | [] => Panic
    end
  else
    r ← decodeNibbles hex (drop 1 buf); Ok (flag :: r).

(** The loop of [hexToCompactInPlace]: it reads and writes the same buffer. *)
Fixpoint compactLoop (n : nat) (hexLen ni bi : nat) (hex : bytes) : outcome bytes :=
  match n with
  | O => NoFuel
  | S n =>
      if (ni <? hexLen)%nat then
        match hex !! ni, hex !! S ni with
        | Some a, Some b =>
            if (bi <? length hex)%nat
            then compactLoop n hexLen (ni + 2) (bi + 1) (<[bi := packNibbles a b]> hex)
            else Panic
        | _, _ => Panic
        end
      else Ok hex
  end.

Definition hexToCompactInPlace (hex : bytes) : outcome bytes :=
  let term := HasTerm hex in
  let hexLen := if term then (length hex - 1)%nat else length hex in
  let firstByte := if term then Z.shiftl 1 5 else 0 in
  let binLen := (hexLen / 2 + 1)%nat in
  fb ← (if Nat.odd hexLen then
          match hex !! 0%nat with
          | Some n0 => Ok (Z.lor (Z.lor firstByte (Z.shiftl 1 4)) n0)
          | None => Panic
          end
        else Ok firstByte);
  let ni := if Nat.odd hexLen then 1%nat else 0%nat in
  hex' ← compactLoop (S hexLen) hexLen ni 1 hex;
  match hex' with
  | [] => Panic
  | _ :: tl =>
      if (binLen <=? length hex')%nat then Ok (take binLen (fb :: tl)) else Panic
  end.

Definition CompactToHex (compact : bytes) : outcome bytes :=
  match compact with
  | [] => Ok compact
  | _ =>
      let base := KeybytesToHex compact in
      match base with
      | [] => Panic
      | b0 :: _ =>
          let base := if b0 <? 2 then take (length base - 1) base else base in
          let chop := 2 - Z.land b0 1 in
          if chop <=? Z.of_nat (length base)
          then Ok (drop (Z.to_nat chop) base) else Panic
      end
  end.

Definition HexToKeybytes (hex : bytes) : outcome bytes :=
  let hex := if HasTerm hex then take (length hex - 1) hex else hex in
  if Nat.odd (length hex) then Panic
  else decodeNibbles hex (replicate (length hex / 2) 0).

Fixpoint PrefixLen (a b : bytes) : nat :=
  match a, b with
  | x :: a', y :: b' => if x =? y then S (PrefixLen a' b') else 0%nat
  | _, _ => 0%nat
  end.

(** ** Nibble keys *)

Definition is_nibble (z : Z) : Prop := 0 <= z < 16.
Definition nibbles (k : bytes) : Prop := Forall is_nibble k.

(** A hex key: nibbles, with or without the terminator. *)
Definition hexkey (term : bool) (k : bytes) : bytes := k ++ (if term then [16] else []).

#[export] Instance is_nibble_dec z : Decision (is_nibble z).
Proof. unfold is_nibble. apply _. Defined.
#[export] Instance nibbles_dec k : Decision (nibbles k).
Proof. unfold nibbles. apply _. Defined.

(** ** Lemmas *)

Lemma HasTerm_snoc k : HasTerm (k ++ [16]) = true.
Proof. unfold HasTerm. by rewrite last_snoc. Qed.

Lemma HasTerm_nibbles k : nibbles k -> HasTerm k = false.
Proof.
  intros Hk. unfold HasTerm. destruct (last k) as [x|] eqn:E; [|done].
  apply last_Some_elem_of in E.
  unfold nibbles in Hk. rewrite Forall_forall in Hk. specialize (Hk x E). unfold is_nibble in Hk.
  apply Z.eqb_neq. lia.
Qed.

Lemma HasTerm_hexkey term k : nibbles k -> HasTerm (hexkey term k) = term.
Proof.
  intros Hk. destruct term; unfold hexkey.
  - apply HasTerm_snoc.
  - rewrite app_nil_r. by apply HasTerm_nibbles.
Qed.

Lemma strip_hexkey term k :
  nibbles k ->
  (if HasTerm (hexkey term k) then take (length (hexkey term k) - 1) (hexkey term k)
   else hexkey term k) = k.
Proof.
  intros Hk. rewrite HasTerm_hexkey by done. destruct term; unfold hexkey.
  - rewrite length_app. simpl. rewrite Nat.add_sub.
    by rewrite take_app_length.
  - by rewrite app_nil_r.
Qed.

Lemma lor_add_low hi lo : is_nibble lo -> Z.lor (hi * 16) lo = hi * 16 + lo.
Proof.
  intros Hlo. unfold is_nibble in Hlo.
  assert (Hd : Z.land (hi * 16) lo = 0).
  { apply Z.bits_inj'. intros i Hi. rewrite Z.land_spec, Z.bits_0.
    change 16 with (2 ^ 4). rewrite <- Z.shiftl_mul_pow2 by lia.
    destruct (Z.lt_ge_cases i 4).
    - rewrite Z.shiftl_spec_low by lia. done.
    - apply andb_false_iff. right.
      rewrite <- (Z.mod_small lo (2 ^ 4)) by lia. apply Z.mod_pow2_bits_high. lia. }
  pose proof (Z.add_lor_land (hi * 16) lo). lia.
Qed.

Lemma packNibbles_eq a b : is_nibble a -> is_nibble b -> packNibbles a b = a * 16 + b.
Proof.
  intros Ha Hb. unfold packNibbles.
  rewrite Z.shiftl_mul_pow2 by lia. change (2 ^ 4) with 16.
  rewrite wrap8_id by (unfold is_nibble, is_byte in *; lia).
  by apply lor_add_low.
Qed.

Lemma byteNibbles_pack a b :
  is_nibble a -> is_nibble b ->
  packNibbles a b / 16 = a /\ packNibbles a b mod 16 = b.
Proof.
  intros Ha Hb. rewrite packNibbles_eq by done. unfold is_nibble in *.
  split; [rewrite Z.div_add_l, Z.div_small by lia; lia|].
  rewrite Z.add_comm, Z.mod_add, Z.mod_small by lia. lia.
Qed.

Lemma packNibbles_split b : is_byte b -> packNibbles (b / 16) (b mod 16) = b.
Proof.
  intros Hb. unfold is_byte in Hb.
  rewrite packNibbles_eq.
  - pose proof (Z.div_mod b 16). lia.
  - unfold is_nibble. split; [apply Z.div_pos; lia | apply Z.div_lt_upper_bound; lia].
  - unfold is_nibble. apply Z.mod_pos_bound. lia.
Qed.

Lemma byteNibbles_nibbles s : is_bytes s -> nibbles (byteNibbles s).
Proof.
  induction 1 as [|b s Hb Hs IH]; simpl; [constructor|].
  unfold is_byte in Hb.
  constructor; [|constructor; [|done]]; unfold is_nibble.
  - split; [apply Z.div_pos; lia | apply Z.div_lt_upper_bound; lia].
  - apply Z.mod_pos_bound. lia.
Qed.

Lemma length_byteNibbles s : length (byteNibbles s) = (2 * length s)%nat.
Proof. induction s; simpl; lia. Qed.

Lemma length_KeybytesToHex s : length (KeybytesToHex s) = (2 * length s + 1)%nat.
Proof. unfold KeybytesToHex. rewrite length_app, length_byteNibbles. simpl. lia. Qed.

(** Two-step induction over lists, for nibble pairs. *)
Lemma list_pair_ind {A} (P : list A -> Prop) :
  P [] -> (forall a, P [a]) -> (forall a b l, P l -> P (a :: b :: l)) -> forall l, P l.
Proof.
  intros H0 H1 H2. fix IH 1. intros [|a [|b l]].
  - apply H0.
  - apply H1.
  - apply H2, IH.
Qed.

Lemma even_double_length {A} (a b : A) l :
  Nat.odd (length (a :: b :: l)) = Nat.odd (length l).
Proof. done. Qed.

Lemma half_SS n : (S (S n) / 2 = S (n / 2))%nat.
Proof. replace (S (S n)) with (n + 1 * 2)%nat by lia. rewrite Nat.div_add by lia. lia. Qed.

Lemma odd_S_half n :
  Nat.odd (S n) = true -> Nat.odd n = false /\ (S n / 2 = n / 2)%nat.
Proof.
  rewrite Nat.odd_succ. intros He. split; [rewrite <- Nat.negb_even; by rewrite He|].
  apply Nat.even_spec in He as [m ->].
  replace (S (2 * m)) with (1 + m * 2)%nat by lia.
  replace (2 * m)%nat with (0 + m * 2)%nat by lia.
  by rewrite !Nat.div_add by lia.
Qed.

(** Decoding an even number of nibbles into a buffer of half that length
    succeeds, and the bytes written split back into those nibbles. *)
Lemma decodeNibbles_spec ns :
  nibbles ns -> Nat.odd (length ns) = false ->
  forall buf, length buf = (length ns / 2)%nat ->
  exists bs, decodeNibbles ns buf = Ok bs /\ byteNibbles bs = ns /\ length bs = length buf.
Proof.
  induction ns as [|a|a b ns IH] using list_pair_ind; intros Hn Hodd buf Hlen.
  - exists buf. destruct buf; [done|discriminate].
  - discriminate.
  - cbn [length] in Hlen. rewrite half_SS in Hlen. destruct buf as [|x buf]; [discriminate|].
    apply Forall_cons in Hn as [Ha Hn]. apply Forall_cons in Hn as [Hb Hn].
    destruct (IH Hn Hodd buf) as (bs & E & Eb & El); [cbn [length] in Hlen; lia|].
    exists (packNibbles a b :: bs). simpl decodeNibbles. rewrite E. simpl.
    destruct (byteNibbles_pack a b Ha Hb) as [-> ->]. rewrite Eb. split_and!; congruence.
Qed.

Lemma decodeNibbles_byteNibbles s :
  is_bytes s -> forall buf, length buf = length s -> decodeNibbles (byteNibbles s) buf = Ok s.
Proof.
  induction 1 as [|b s Hb Hs IH]; intros buf Hl; destruct buf as [|x buf]; try discriminate.
  - done.
  - simpl in *. rewrite IH by lia. simpl. by rewrite packNibbles_split.
Qed.

(** The first byte of the compact form: flag nibble and low nibble. *)
Definition flagNibble (term odd : bool) : Z :=
  (if term then 2 else 0) + (if odd then 1 else 0).

Lemma flag_byte_odd (term : bool) n0 :
  is_nibble n0 ->
  Z.lor (Z.lor (wrap8 (Z.shiftl (if term then 1 else 0) 5)) (Z.shiftl 1 4)) n0
  = flagNibble term true * 16 + n0.
Proof.
  intros Hn. rewrite <- lor_add_low by done. f_equal. by destruct term.
Qed.

Lemma flag_byte_even (term : bool) :
  wrap8 (Z.shiftl (if term then 1 else 0) 5) = flagNibble term false * 16 + 0.
Proof. by destruct term. Qed.

Lemma split_flag_byte f n0 :
  is_nibble n0 -> (f * 16 + n0) / 16 = f /\ (f * 16 + n0) mod 16 = n0.
Proof.
  intros Hn. unfold is_nibble in Hn. split.
  - rewrite Z.div_add_l, Z.div_small by lia. lia.
  - rewrite Z.add_comm, Z.mod_add, Z.mod_small by lia. lia.
Qed.

(** What [HexToCompact] computes on a hex key. *)
Lemma HexToCompact_spec term k :
  nibbles k ->
  exists n0 bs, HexToCompact (hexkey term k) =
    Ok (flagNibble term (Nat.odd (length k)) * 16 + n0 :: bs) /\
    is_nibble n0 /\
    k = (if Nat.odd (length k) then [n0] else []) ++ byteNibbles bs /\
    length bs = (length k / 2)%nat.
Proof.
  intros Hk. unfold HexToCompact. rewrite strip_hexkey, HasTerm_hexkey by done.
  assert (Hbuf : length (drop 1 (replicate (length k / 2 + 1) 0)) = (length k / 2)%nat).
  { rewrite length_drop, length_replicate. lia. }
  destruct (Nat.odd (length k)) eqn:Ho.
  - destruct k as [|n0 k]; [discriminate|].
    apply Forall_cons in Hk as [Hn Hk]. cbn [length] in *.
    destruct (odd_S_half _ Ho) as [Hodd Hh].
    destruct (decodeNibbles_spec k Hk Hodd _ (eq_trans Hbuf Hh)) as (bs & E & Eb & El).
    exists n0, bs. rewrite E. simpl. rewrite flag_byte_odd by done.
    rewrite Eb. split_and!; [done..|]. rewrite El, Hbuf. done.
  - destruct (decodeNibbles_spec k Hk Ho _ Hbuf) as (bs & E & Eb & El).
    exists 0, bs. rewrite E. simpl. rewrite flag_byte_even.
    rewrite Eb, El, Hbuf. split_and!; done.
Qed.

Lemma take_pred_snoc {A} (l : list A) x : take (length (l ++ [x]) - 1) (l ++ [x]) = l.
Proof. rewrite length_app, Nat.add_sub. by rewrite take_app_length. Qed.

Lemma CompactToHex_flag term odd n0 bs :
  is_nibble n0 ->
  CompactToHex (flagNibble term odd * 16 + n0 :: bs) =
  Ok (hexkey term ((if odd then [n0] else []) ++ byteNibbles bs)).
Proof.
  intros Hn. unfold CompactToHex, KeybytesToHex. cbn [byteNibbles].
  destruct (split_flag_byte (flagNibble term odd) n0 Hn) as [-> ->].
  pose proof (take_pred_snoc (flagNibble term odd :: n0 :: byteNibbles bs) 16) as Ht.
  cbn [app] in *. cbv zeta. rewrite Ht.
  rewrite (proj2 (Z.leb_le _ _)).
  - by destruct term, odd; unfold hexkey; rewrite ?app_nil_r.
  - assert (0 <= Z.land (flagNibble term odd) 1) by (apply Z.land_nonneg; lia).
    destruct (_ <? 2); cbn [length]; lia.
Qed.

(** Encoding a hex key (with or without terminator) to compact form never
    panics, and decoding gives the key back. *)
Lemma compact_roundtrip_aux term k :
  nibbles k ->
  exists c, HexToCompact (hexkey term k) = Ok c /\ CompactToHex c = Ok (hexkey term k) /\
    length c = (length k / 2 + 1)%nat /\ c <> [].
Proof.
  intros Hk. destruct (HexToCompact_spec term k Hk) as (n0 & bs & E & Hn & Ek & El).
  eexists; split_and!; [exact E| |cbn [length]; lia|done].
  rewrite CompactToHex_flag by done. by rewrite <- Ek.
Qed.

(** *** The in-place encoder *)

Fixpoint packPairs (ns : bytes) : bytes :=
  match ns with
  | a :: b :: ns' => packNibbles a b :: packPairs ns'
  | _ => []
  end.

Lemma decodeNibbles_packPairs ns :
  Nat.odd (length ns) = false ->
  forall buf, length buf = (length ns / 2)%nat -> decodeNibbles ns buf = Ok (packPairs ns).
Proof.
  induction ns as [|a|a b ns IH] using list_pair_ind; intros Hodd buf Hlen.
  - by destruct buf.
  - discriminate.
  - cbn [length] in Hlen. rewrite half_SS in Hlen. destruct buf as [|x buf]; [discriminate|].
    simpl. by rewrite IH by (done || (cbn [length] in Hlen; lia)).
Qed.

Lemma length_packPairs ns : length (packPairs ns) = (length ns / 2)%nat.
Proof.
  induction ns as [|a|a b ns IH] using list_pair_ind; [done..|].
  cbn [packPairs length]. by rewrite half_SS, IH.
Qed.

(** Loop invariant of [hexToCompactInPlace]: [ns] are the nibbles still to be
    packed, stored from [ni] on; the writing index never passes the nibbles
    still to be read. *)
Lemma compactLoop_spec ns :
  Nat.odd (length ns) = false ->
  forall n hexLen ni bi hex post,
  drop ni hex = ns ++ post -> hexLen = (ni + length ns)%nat ->
  (ni + length ns <= length hex)%nat ->
  (bi <= S ni)%nat -> (length ns < n)%nat ->
  exists hex', compactLoop n hexLen ni bi hex = Ok hex' /\ length hex' = length hex /\
    take (bi + length ns / 2) hex' = take bi hex ++ packPairs ns.
Proof.
  induction ns as [|a|a b ns IH] using list_pair_ind; intros Hodd n hexLen ni bi hex post Hd Hl Hle Hb Hn.
  - destruct n; [lia|]. exists hex. simpl. rewrite (proj2 (Nat.ltb_ge _ _)) by (simpl in *; lia).
    simpl. rewrite Nat.add_0_r, app_nil_r. done.
  - discriminate.
  - destruct n as [|n]; [lia|]. cbn [length] in *. simpl compactLoop.
    rewrite (proj2 (Nat.ltb_lt _ _)) by lia.
    assert (Ha : hex !! ni = Some a).
    { rewrite <- (Nat.add_0_r ni), <- lookup_drop, Hd. done. }
    assert (Hb' : hex !! S ni = Some b).
    { replace (S ni) with (ni + 1)%nat by lia. rewrite <- lookup_drop, Hd. done. }
    rewrite Ha, Hb'. rewrite (proj2 (Nat.ltb_lt _ _)) by lia.
    destruct (IH Hodd n hexLen (ni + 2)%nat (bi + 1)%nat (<[bi:=packNibbles a b]> hex) post)
      as (hex' & E & El & Et); [| lia | rewrite length_insert; lia | lia | lia |].
    { rewrite drop_insert_lt by lia. rewrite <- drop_drop, Hd. done. }
    exists hex'. rewrite E, El, length_insert. split_and!; [done..|].
    rewrite half_SS. replace (bi + S (length ns / 2))%nat with (bi + 1 + length ns / 2)%nat by lia.
    rewrite Et. rewrite Nat.add_1_r. rewrite (take_S_r _ _ (packNibbles a b)).
    + by rewrite take_insert_ge, <- app_assoc by lia.
    + apply list_lookup_insert_eq. lia.
Qed.

Lemma length_hexkey term k : length (hexkey term k) = (length k + if term then 1 else 0)%nat.
Proof. unfold hexkey. rewrite length_app. by destruct term. Qed.

Lemma length_hexkey_strip (term : bool) k :
  (if term then length (hexkey term k) - 1 else length (hexkey term k))%nat = length k.
Proof. rewrite length_hexkey. destruct term; lia. Qed.

Lemma length_compact_buf n : length (drop 1 (replicate (n / 2 + 1) 0)) = (n / 2)%nat.
Proof. rewrite length_drop, length_replicate. lia. Qed.

(** *** Common prefixes *)

(** [a] and [b] split at [PrefixLen a b] into the common prefix and two rests
    that are empty or start with different nibbles. *)
Lemma PrefixLen_split a b :
  exists p a' b', a = p ++ a' /\ b = p ++ b' /\ PrefixLen a b = length p /\
    match a', b' with x :: _, y :: _ => x <> y | _, _ => True end.
Proof.
  revert b. induction a as [|x a IH]; intros b.
  - exists [], [], b. by destruct b.
  - destruct b as [|y b].
    + exists [], (x :: a), []. done.
    + simpl. destruct (Z.eqb_spec x y) as [->|Hne].
      * destruct (IH b) as (p & a' & b' & -> & -> & -> & Hd).
        exists (y :: p), a', b'. done.
      * exists [], (x :: a), (y :: b). done.
Qed.

Lemma PrefixLen_app p a b : PrefixLen (p ++ a) (p ++ b) = (length p + PrefixLen a b)%nat.
Proof. induction p as [|x p IH]; simpl; [done|]. by rewrite Z.eqb_refl, IH. Qed.

Lemma PrefixLen_prefix p a : PrefixLen (p ++ a) p = length p.
Proof.
  rewrite <- (app_nil_r p) at 2. rewrite PrefixLen_app. destruct a; simpl; lia.
Qed.

(** ** Theorems *)

(** Encoding any hex key, with or without the
    terminator, to the compact form never panics and yields
    [length k / 2 + 1] bytes, and [CompactToHex] returns the key. *)
Theorem compact_roundtrip term k :
  nibbles k ->
  exists c, HexToCompact (hexkey term k) = Ok c /\ CompactToHex c = Ok (hexkey term k) /\
    length c = (length k / 2 + 1)%nat.
Proof.
  intros Hk. destruct (compact_roundtrip_aux term k Hk) as (c & E & Ec & El & _). eauto.
Qed.

Lemma compact_roundtrip_witness :
  nibbles [1; 2; 15] /\
  exists c, HexToCompact (hexkey true [1; 2; 15]) = Ok c /\
    CompactToHex c = Ok (hexkey true [1; 2; 15]) /\ length c = 2%nat.
Proof.
  assert (H : nibbles [1; 2; 15]) by (apply (bool_decide_unpack _); vm_compute; exact I).
  split; [exact H | exact (compact_roundtrip true [1; 2; 15] H)].
Defined.

Lemma hexToCompactInPlace_even term k :
  nibbles k -> hexkey term k <> [] -> Nat.odd (length k) = false ->
  hexToCompactInPlace (hexkey term k) = HexToCompact (hexkey term k).
Proof.
  intros Hk Hne Ho.
  unfold hexToCompactInPlace, HexToCompact.
  rewrite strip_hexkey, HasTerm_hexkey, length_hexkey_strip, Ho by done.
  rewrite decodeNibbles_packPairs by (done || apply length_compact_buf).
  destruct (compactLoop_spec k Ho (S (length k)) (length k) 0 1 (hexkey term k)
              (if term then [16] else []) )
    as (hex' & E & El & Et); [done | lia | rewrite length_hexkey; lia | lia | lia |].
  cbn [mbind outcome_bind]. rewrite E. cbn [mbind outcome_bind]. destruct hex' as [|x hex'].
  { simpl in El. destruct (hexkey term k); [done|discriminate]. }
  rewrite (proj2 (Nat.leb_le _ _)).
  - rewrite Nat.add_1_r. simpl in Et |- *.
    destruct (hexkey term k) as [|y l]; [done|]. simpl in Et. injection Et as -> Et.
    rewrite Et. by destruct term.
  - rewrite El, length_hexkey. destruct k as [|k0 [|k1 k]]; [destruct term; simpl; [lia|done]|done|].
    cbn [length]. pose proof (Nat.Div0.div_le_upper_bound (S (S (length k))) 2 (S (length k))). lia.
Qed.

Lemma hexToCompactInPlace_odd term k :
  nibbles k -> Nat.odd (length k) = true ->
  hexToCompactInPlace (hexkey term k) = HexToCompact (hexkey term k).
Proof.
  intros Hk Ho.
  unfold hexToCompactInPlace, HexToCompact.
  rewrite strip_hexkey, HasTerm_hexkey, length_hexkey_strip, Ho by done.
  destruct k as [|n0 k]; [discriminate|]. cbn [length] in *.
  destruct (odd_S_half _ Ho) as [Hodd Hh].
  rewrite decodeNibbles_packPairs by (done || rewrite length_compact_buf; congruence).
  destruct (compactLoop_spec k Hodd (S (S (length k))) (S (length k)) 1 1 (hexkey term (n0 :: k))
              (if term then [16] else []) )
    as (hex' & E & El & Et); [done | lia | rewrite length_hexkey; simpl; lia | lia | lia |].
  change (hexkey term (n0 :: k) !! 0%nat) with (Some n0). cbn [mbind outcome_bind].
  rewrite E. cbn [mbind outcome_bind]. destruct hex' as [|x hex']; [discriminate|].
  rewrite (proj2 (Nat.leb_le _ _)).
  - rewrite Hh, Nat.add_1_r. simpl in Et |- *. injection Et as -> ->.
    by destruct term.
  - rewrite El, Hh, length_hexkey. cbn [length].
    pose proof (Nat.Div0.div_le_upper_bound (length k) 2 (length k)). lia.
Qed.

(** C39 (equivalence). On every non-empty hex key the in-place encoder,
    which reads and overwrites one buffer, returns what the allocating encoder
    returns. *)
Theorem hexToCompactInPlace_eq term k :
  nibbles k -> hexkey term k <> [] ->
  hexToCompactInPlace (hexkey term k) = HexToCompact (hexkey term k).
Proof.
  intros Hk Hne. destruct (Nat.odd (length k)) eqn:Ho;
    auto using hexToCompactInPlace_even, hexToCompactInPlace_odd.
Qed.

Lemma hexToCompactInPlace_eq_witness :
  hexToCompactInPlace (hexkey true [1; 2; 15; 4]) = Ok [32; 18; 244].
Proof.
  rewrite (hexToCompactInPlace_eq true [1; 2; 15; 4]); [vm_compute; reflexivity| |discriminate].
  apply (bool_decide_unpack _). vm_compute. exact I.
Defined.

Lemma KeybytesToHex_inv s : is_bytes s -> HexToKeybytes (KeybytesToHex s) = Ok s.
Proof.
  intros Hs. pose proof (byteNibbles_nibbles s Hs) as Hn.
  unfold HexToKeybytes. change (KeybytesToHex s) with (hexkey true (byteNibbles s)).
  rewrite strip_hexkey by done. rewrite length_byteNibbles.
  replace (Nat.odd (2 * length s)) with false.
  - apply decodeNibbles_byteNibbles; [done|].
    rewrite length_replicate, Nat.mul_comm. by rewrite Nat.div_mul.
  - symmetry. rewrite <- Nat.negb_even, Nat.even_mul. done.
Qed.

(** Expanding key bytes to hex nibbles and packing them
    again returns the key, for every byte string. *)
Theorem keybytes_roundtrip s : is_bytes s -> HexToKeybytes (KeybytesToHex s) = Ok s.
Proof. apply KeybytesToHex_inv. Qed.

Lemma keybytes_roundtrip_witness : HexToKeybytes (KeybytesToHex [17; 255; 0]) = Ok [17; 255; 0].
Proof.
  apply (keybytes_roundtrip [17; 255; 0]). apply (bool_decide_unpack _). vm_compute. exact I.
Defined.

(** On an empty key the in-place encoder writes to index 0 of an empty buffer,
    while [HexToCompact] returns the flag byte. *)
Example hexToCompactInPlace_empty :
  hexToCompactInPlace [] = Panic /\ HexToCompact [] = Ok [0].
Proof. split; reflexivity. Qed.
