(* ===== verification/TrieNode.v ===== *)
(** * Trie nodes, their encoding and node sets

    Models [pkg/trie/node]: the four node kinds behind the [Node] interface
    ([value_node.go], [hash_node.go], [short_node.go], [full_node.go]), the
    cache flag, [Marshal]/[Unmarshal]/[DecodeNode] over the protobuf messages,
    and the [NodeSet] collected by a commit ([node_set.go]).

    Protobuf is the parameter [MPTProto]: one marshal/unmarshal pair per
    message of [merkle_patricia_trie.proto]. *)

From S2P Require Import Prelude TrieEncoding.

Local Open Scope Z_scope.

(** ** Nodes *)

(** [NodeFlag]: the cached hash (nil or a hash) and the dirty mark. *)
Record NodeFlag := mkFlag { Hash : option bytes; Dirty : bool }.

(** A value of interface type [Node]: nil, or one of the four kinds. *)
Inductive Node :=
| NilNode
| ValueNode (v : bytes)
| HashNode (h : bytes)
| ShortNode (Key : bytes) (Val : Node) (Flags : NodeFlag)
| FullNode (Children : list Node) (Flags : NodeFlag).

Definition TOTAL_CHILD_NODE : nat := 17.

Definition NewFlag : NodeFlag := mkFlag None true.

Definition NilValueNode : Node := ValueNode [].

(** Induction over the children of full nodes. *)
Section Node_ind'.
Context (P : Node -> Prop).
Context (HNil : P NilNode) (HVal : forall v, P (ValueNode v)) (HHash : forall h, P (HashNode h)).
Context (HShort : forall k v f, P v -> P (ShortNode k v f)).
Context (HFull : forall cs f, Forall P cs -> P (FullNode cs f)).
Fixpoint Node_ind' (n : Node) : P n :=
  match n with
  | NilNode => HNil
  | ValueNode v => HVal v
  | HashNode h => HHash h
  | ShortNode k v f => HShort k v f (Node_ind' v)
  | FullNode cs f =>
      HFull cs f ((fix go l : Forall P l :=
        match l with
        | [] => Forall_nil_2 P
        | c :: l' => Forall_cons_2 P c l' (Node_ind' c) (go l')
        end) cs)
  end.
End Node_ind'.

Definition isNil (n : Node) : bool := match n with NilNode => true | _ => false end.

(** [Cache]: a method call on a nil interface is a nil dereference. *)
Definition Cache (n : Node) : outcome (option bytes * bool) :=
  match n with
  | NilNode => Panic
  | ValueNode _ | HashNode _ => Ok (None, true)
  | ShortNode _ _ f | FullNode _ f => Ok (Hash f, Dirty f)
  end.

(** ** Protobuf messages *)

Definition MPTNODE_TYPE_FULL : Z := 0.
Definition MPTNODE_TYPE_SHORT : Z := 1.

Record MPTNode := mkMPTNode { Type_ : Z; Data : bytes }.
Record MPTFullNode := mkMPTFullNode { Nodes_ : list bytes }.
Record MPTShortNode := mkMPTShortNode { Key_ : bytes; Value_ : bytes }.

(** [proto.Marshal] and [proto.Unmarshal] of the three messages. *)
Class MPTProto := {
  marshalMPTNode : MPTNode -> bytes;
  unmarshalMPTNode : bytes -> option MPTNode;
  marshalMPTFullNode : MPTFullNode -> bytes;
  unmarshalMPTFullNode : bytes -> option MPTFullNode;
  marshalMPTShortNode : MPTShortNode -> bytes;
  unmarshalMPTShortNode : bytes -> option MPTShortNode
}.

(** What the code relies on: a marshalled message unmarshals to itself, and
    only a message whose fields all have their default value marshals to no
    bytes. *)
Class MPTProtoLaws `{MPTProto} : Prop := {
  MPTNode_roundtrip m : unmarshalMPTNode (marshalMPTNode m) = Some m;
  MPTFullNode_roundtrip m : unmarshalMPTFullNode (marshalMPTFullNode m) = Some m;
  MPTShortNode_roundtrip m : unmarshalMPTShortNode (marshalMPTShortNode m) = Some m;
  MPTNode_nonempty m : marshalMPTNode m = [] -> Type_ m = 0 /\ Data m = [];
  MPTFullNode_nonempty m : marshalMPTFullNode m = [] -> Nodes_ m = []
}.

(** ** Marshalling *)

Section Marshalling.
Context `{EthLib} `{MPTProto}.

Fixpoint Marshal (n : Node) : outcome bytes :=
  match n with
  | NilNode => Panic
  | ValueNode v => Ok v
  | HashNode h => Ok h
  | ShortNode k v _ =>
      valBuf ← Marshal v;
      Ok (marshalMPTNode (mkMPTNode MPTNODE_TYPE_SHORT
            (marshalMPTShortNode (mkMPTShortNode k valBuf))))
  | FullNode cs _ =>
      bufNodes ← mapO (fun c => match c with
                                | NilNode => Ok zeroHash
                                | _ => Marshal c
                                end) cs;
      Ok (marshalMPTNode (mkMPTNode MPTNODE_TYPE_FULL
            (marshalMPTFullNode (mkMPTFullNode bufNodes))))
  end.

(** [NodeToBytes] drops the error; [Marshal] of these kinds returns none. *)
Definition NodeToBytes (n : Node) : outcome bytes := Marshal n.

Definition ShortNode_Unmarshal (hash : option bytes) (buf : bytes) : outcome Node :=
  match unmarshalMPTShortNode buf with
  | None => Err (ErrText "proto")
  | Some protoSN =>
      key ← CompactToHex (Key_ protoSN);
      let val := if HasTerm key then ValueNode (Value_ protoSN) else HashNode (Value_ protoSN) in
      Ok (ShortNode key val (mkFlag hash false))
  end.

(** The loop of [FullNode.Unmarshal]: a zero hash leaves the child nil, and a
    message with more than 17 entries writes past the array. *)
Fixpoint fullChildren (i : nat) (nodes : list bytes) (children : list Node) : outcome (list Node) :=
  match nodes with
  | [] => Ok children
  | v :: rest =>
      if decide (BytesToHash v = zeroHash) then fullChildren (S i) rest children
      else if (i <? length children)%nat
           then fullChildren (S i) rest (<[i := HashNode v]> children)
           else Panic
  end.

Definition FullNode_Unmarshal (hash : option bytes) (buf : bytes) : outcome Node :=
  match unmarshalMPTFullNode buf with
  | None => Err (ErrText "proto")
  | Some protoFN =>
      cs ← fullChildren 0 (Nodes_ protoFN) (replicate TOTAL_CHILD_NODE NilNode);
      Ok (FullNode cs (mkFlag hash false))
  end.

Definition DecodeNode (hash : option bytes) (buf : bytes) : outcome Node :=
  match unmarshalMPTNode buf with
  | None => Ok (HashNode buf)
  | Some protoNode =>
      if Type_ protoNode =? MPTNODE_TYPE_FULL then
        match FullNode_Unmarshal hash (Data protoNode) with
        | Err _ => Ok (HashNode (Data protoNode))
        | r => r
        end
      else if Type_ protoNode =? MPTNODE_TYPE_SHORT then
        match ShortNode_Unmarshal hash (Data protoNode) with
        | Err _ => Ok (HashNode (Data protoNode))
        | r => r
        end
      else Ok NilNode
  end.
End Marshalling.

(** ** Node sets *)

Record NodeWrapper := mkWrapper { whash : bytes; wblob : bytes }.

#[export] Instance NodeWrapper_eq_dec : EqDecision NodeWrapper.
Proof. solve_decision. Defined.

Definition IsDeleted (n : NodeWrapper) : bool := (length (wblob n) =? 0)%nat.
Definition New (hash blob : bytes) : NodeWrapper := mkWrapper hash blob.
Definition NewDeleted : NodeWrapper := New zeroHash [].
Definition Size (n : NodeWrapper) : nat := length (wblob n) + 32.

Record leaf := mkLeaf { lblob : bytes; lparent : bytes }.

(** [Nodes] is keyed by the hex string of the path. *)
Record NodeSet := mkNodeSet {
  Leaves : list leaf;
  Nodes : gmap bytes NodeWrapper;
  updates : Z;
  deletes : Z
}.

Definition NewNodeSet : NodeSet := mkNodeSet [] ∅ 0 0.

Definition AddNode (path : bytes) (n : NodeWrapper) (set : NodeSet) : NodeSet :=
  mkNodeSet (Leaves set) (<[EncodeToString path := n]> (Nodes set))
    (if IsDeleted n then updates set else updates set + 1)
    (if IsDeleted n then deletes set + 1 else deletes set).

Definition AddLeaf (parent blob : bytes) (set : NodeSet) : NodeSet :=
  mkNodeSet (Leaves set ++ [mkLeaf blob parent]) (Nodes set) (updates set) (deletes set).

(** One turn of the loop of [Merge]. *)
Definition mergeStep (set : NodeSet) (pn : bytes * NodeWrapper) : NodeSet :=
  let '(path, node) := pn in
  let set :=
    match Nodes set !! path with
    | Some prev =>
        if IsDeleted prev
        then mkNodeSet (Leaves set) (Nodes set) (updates set) (deletes set - 1)
        else mkNodeSet (Leaves set) (Nodes set) (updates set - 1) (deletes set)
    | None => set
    end in
  AddNode path node set.

(** [Merge nodes], where [l] is the order in which the map is ranged over. *)
Definition Merge (l : list (bytes * NodeWrapper)) (set : NodeSet) : NodeSet :=
  foldl mergeStep set l.

Definition SizeOf (set : NodeSet) : Z * Z := (updates set, deletes set).

Definition Hashes (set : NodeSet) : list bytes := whash <$> (map_to_list (Nodes set)).*2.
