(* ===== verification/TrieTracer.v ===== *)
(** * The trie tracer

    Models [pkg/trie/tracer.go]: the record of the paths inserted, deleted and
    read since the last commit, and of the hashes of replaced nodes.  The
    [sync.Map]s are finite sets and maps keyed by path; the values of
    [inserts] and [deletes] are [struct{}{}]. *)

From S2P Require Import Prelude.

Record Tracer := mkTracer {
  tinserts : gset bytes;
  tdeletes : gset bytes;
  oldKeys : list (option bytes);
  accessList : gmap bytes bytes
}.

Definition newTracer : Tracer := mkTracer ∅ ∅ [] ∅.

Definition onRead (path val : bytes) (t : Tracer) : Tracer :=
  mkTracer (tinserts t) (tdeletes t) (oldKeys t) (<[path := val]> (accessList t)).

Definition onInsert (path : bytes) (t : Tracer) : Tracer :=
  if decide (path ∈ tdeletes t)
  then mkTracer (tinserts t) (tdeletes t ∖ {[path]}) (oldKeys t) (accessList t)
  else mkTracer ({[path]} ∪ tinserts t) (tdeletes t) (oldKeys t) (accessList t).

Definition onDelete (path : bytes) (t : Tracer) : Tracer :=
  if decide (path ∈ tinserts t)
  then mkTracer (tinserts t ∖ {[path]}) (tdeletes t) (oldKeys t) (accessList t)
  else mkTracer (tinserts t) ({[path]} ∪ tdeletes t) (oldKeys t) (accessList t).

(** [t.oldKeys = append(t.oldKeys, hash)] *)
Definition addOldKey (h : option bytes) (t : Tracer) : Tracer :=
  mkTracer (tinserts t) (tdeletes t) (oldKeys t ++ [h]) (accessList t).

Definition reset (t : Tracer) : Tracer := newTracer.

(** [copy] copies the three maps and starts with no old keys. *)
Definition copy (t : Tracer) : Tracer :=
  mkTracer (tinserts t) (tdeletes t) [] (accessList t).

(** [deletedNodes]: the deleted paths that were read from the database; the
    order of the slice is the order of the map iteration. *)
Definition deletedNodes (t : Tracer) : list bytes :=
  filter (fun p => is_Some (accessList t !! p)) (elements (tdeletes t)).

(** ** Invariant: a path is never recorded both as inserted and as deleted. *)

Definition tracer_ok (t : Tracer) : Prop := tinserts t ## tdeletes t.

Lemma newTracer_ok : tracer_ok newTracer.
Proof. unfold tracer_ok. set_solver. Qed.

Lemma onInsert_ok p t : tracer_ok t -> tracer_ok (onInsert p t).
Proof. unfold tracer_ok, onInsert. case_decide; set_solver. Qed.

Lemma onDelete_ok p t : tracer_ok t -> tracer_ok (onDelete p t).
Proof. unfold tracer_ok, onDelete. case_decide; set_solver. Qed.

Lemma onRead_ok p v t : tracer_ok t -> tracer_ok (onRead p v t).
Proof. done. Qed.

#[export] Hint Resolve newTracer_ok onInsert_ok onDelete_ok onRead_ok : go.

(** One tracer event of an [insert] or [delete]. *)
Inductive event :=
| EInsert (p : bytes)
| EDelete (p : bytes)
| ERead (p v : bytes)
| EOldKey (h : option bytes).

Definition step (t : Tracer) (e : event) : Tracer :=
  match e with
  | EInsert p => onInsert p t
  | EDelete p => onDelete p t
  | ERead p v => onRead p v t
  | EOldKey h => addOldKey h t
  end.

(** Abstract view of one path: 1 recorded as inserted, -1 as deleted, 0
    neither; an insertion adds one up to 1, a deletion subtracts one down to
    -1. *)
Definition status (p : bytes) (t : Tracer) : Z :=
  if decide (p ∈ tinserts t) then 1 else if decide (p ∈ tdeletes t) then -1 else 0.

Definition sat (p : bytes) (z : Z) (e : event) : Z :=
  match e with
  | EInsert q => if decide (p = q) then Z.min (z + 1) 1 else z
  | EDelete q => if decide (p = q) then Z.max (z - 1) (-1) else z
  | _ => z
  end%Z.

Lemma step_ok t e : tracer_ok t -> tracer_ok (step t e).
Proof. destruct e; simpl; auto with go. Qed.

Lemma step_status p t e : tracer_ok t -> status p (step t e) = sat p (status p t) e.
Proof.
  unfold tracer_ok. intros Hd. destruct e as [q|q|q v|h]; simpl; try done.
  - unfold status, onInsert. destruct (decide (p = q)) as [->|Hne];
      repeat case_decide; simpl in *; try done; set_solver.
  - unfold status, onDelete. destruct (decide (p = q)) as [->|Hne];
      repeat case_decide; simpl in *; try done; set_solver.
Qed.

(** Along every run of tracer events the inserted and
    deleted path sets stay disjoint, and what the tracer records of each path
    is the saturating count of its insertions and deletions. *)
Theorem tracer_run_status es t p :
  tracer_ok t ->
  tracer_ok (foldl step t es) /\ status p (foldl step t es) = foldl (sat p) (status p t) es.
Proof.
  revert t. induction es as [|e es IH]; intros t Ht; simpl; [done|].
  rewrite <- step_status by done. apply IH. by apply step_ok.
Qed.

Lemma tracer_run_status_witness :
  tracer_ok (foldl step newTracer [EInsert [1%Z]; EDelete [1%Z]; EDelete [1%Z]]) /\
  status [1%Z] (foldl step newTracer [EInsert [1%Z]; EDelete [1%Z]; EDelete [1%Z]]) = (-1)%Z.
Proof.
  destruct (tracer_run_status [EInsert [1%Z]; EDelete [1%Z]; EDelete [1%Z]] newTracer [1%Z]
              newTracer_ok) as [H1 H2].
  split; [exact H1 | rewrite H2; vm_compute; reflexivity].
Defined.

(** Inserting a path that was just deleted (or the other way round) cancels:
    the tracer keeps neither record. *)
Lemma onInsert_onDelete p t : tracer_ok t -> p ∉ tinserts t -> p ∉ tdeletes t ->
  onInsert p (onDelete p t) = t.
Proof.
  intros Hok Hi Hd. unfold onDelete. rewrite decide_False by done.
  unfold onInsert; simpl. rewrite decide_True by set_solver.
  destruct t; simpl in *. f_equal. set_solver.
Qed.

Lemma onDelete_onInsert p t : tracer_ok t -> p ∉ tinserts t -> p ∉ tdeletes t ->
  onDelete p (onInsert p t) = t.
Proof.
  intros Hok Hi Hd. unfold onInsert. rewrite decide_False by done.
  unfold onDelete; simpl. rewrite decide_True by set_solver.
  destruct t; simpl in *. f_equal. set_solver.
Qed.
