(* ===== verification/Trie.v ===== *)
(** * The Merkle Patricia trie

    Models [pkg/trie/trie.go] with [trie_reader.go] and [errors.go]: lookup,
    insertion and deletion over partially loaded tries, and the operations of
    [MerklePatriciaTrie] built on them.  The receiver's tracer is the state;
    [dbGet] is the [Get] method of the database handed to [New].

    The recursions follow hash nodes into the database, so they are not
    structural: each takes fuel, and returns [NoFuel] when it is used up.
    [Get] and [Update] run with [2 * length key + 2]; that this is enough for
    every well-formed trie is proved in [TrieCorrect]. *)

From S2P Require Import Prelude TrieEncoding TrieNode TrieTracer.

Local Open Scope Z_scope.

(** The known root hash of an empty trie. *)
Definition EmptyRootHash : bytes :=
  [86; 232; 31; 23; 27; 204; 85; 166; 255; 131; 69; 230; 146; 192; 248; 110;
   91; 72; 224; 27; 153; 108; 173; 192; 1; 98; 47; 181; 227; 99; 180; 33].

Record MerklePatriciaTrie := mkTrie {
  root : Node;
  committed : bool;
  tracer : Tracer;
  isHash : bool
}.

Definition setRoot (n : Node) (t : MerklePatriciaTrie) : MerklePatriciaTrie :=
  mkTrie n (committed t) (tracer t) (isHash t).

(** Run a computation on the trie's tracer. *)
Definition onTracer {A} (m : stm Tracer A) : stm MerklePatriciaTrie A := fun t =>
  let '(r, tr) := m (tracer t) in (r, mkTrie (root t) (committed t) tr (isHash t)).

Definition getTrie : stm MerklePatriciaTrie MerklePatriciaTrie := fun t => (Ok t, t).

Section Trie.
Context `{EthLib} `{MPTProto} (dbGet : bytes -> outcome bytes).

(** ** Loading nodes *)

Definition reader_node (path hash : bytes) : outcome bytes :=
  match dbGet hash with
  | Ok blob => if (length blob =? 0)%nat then Err (MissingNodeError hash path) else Ok blob
  | Err _ => Err (MissingNodeError hash path)
  | Panic => Panic
  | NoFuel => NoFuel
  end.

Definition resolveAndTrack (n : bytes) (prefix : bytes) : stm Tracer Node :=
  blob ← lift (reader_node prefix (BytesToHash n));
  modify (onRead prefix blob);;
  lift (DecodeNode (Some n) blob).

Definition resolve (n : Node) (prefix : bytes) : stm Tracer Node :=
  match n with
  | HashNode h => resolveAndTrack h prefix
  | _ => mret n
  end.

Definition hashKey (t : MerklePatriciaTrie) (key : bytes) : bytes :=
  if (length key =? 32)%nat || negb (isHash t) then key else Keccak256 key.

(** ** get *)

(** The value ([None] for nil), the node to keep in place of the argument, and
    whether a hash node was resolved on the way. *)
Fixpoint get (fuel : nat) (origNode : Node) (key : bytes) (pos : nat) :
  stm Tracer (option bytes * Node * bool) :=
  match fuel with
  | O => lift NoFuel
  | S fuel =>
      match origNode with
      | NilNode => mret (None, NilNode, false)
      | ValueNode v => mret (Some v, origNode, false)
      | ShortNode k val fl =>
          if (Z.of_nat (length key) - Z.of_nat pos <? Z.of_nat (length k))
             || negb (bool_decide (k = take (length k) (drop pos key)))
          then mret (None, origNode, false)
          else
            '(value, newnode, didResolve) ← get fuel val key (pos + length k);
            mret (value, if didResolve : bool then ShortNode k newnode fl else origNode,
                  didResolve)
      | FullNode cs fl =>
          match key !! pos with
          | None => lift Panic
          | Some i =>
              match cs !! Z.to_nat i with
              | None => lift Panic
              | Some c =>
                  '(value, newnode, didResolve) ← get fuel c key (pos + 1);
                  mret (value,
                        if didResolve : bool then FullNode (<[Z.to_nat i := newnode]> cs) fl
                        else origNode,
                        didResolve)
              end
          end
      | HashNode h =>
          child ← resolveAndTrack h (take pos key);
          '(value, newnode, _) ← get fuel child key pos;
          mret (value, newnode, true)
      end
  end.

(** ** insert *)

Definition emptyBranch : list Node := replicate TOTAL_CHILD_NODE NilNode.

(** [children[i] = n] on the 17-element array. *)
Definition setChild (i : Z) (n : Node) (cs : list Node) : outcome (list Node) :=
  if (Z.to_nat i <? length cs)%nat then Ok (<[Z.to_nat i := n]> cs) else Panic.

Fixpoint insert (fuel : nat) (n : Node) (prefix key : bytes) (value : Node) :
  stm Tracer (bool * Node) :=
  match fuel with
  | O => lift NoFuel
  | S fuel =>
      match key with
      | [] =>
          match n with
          | ValueNode v =>
              match value with
              | ValueNode w => mret (negb (bool_decide (v = w)), value)
              | _ => lift Panic
              end
          | _ => mret (true, value)
          end
      | k0 :: krest =>
          match n with
          | ShortNode nk nval fl =>
              let matchlen := PrefixLen key nk in
              if (matchlen =? length nk)%nat then
                '(dirty, nn) ← insert fuel nval (prefix ++ take matchlen key) (drop matchlen key) value;
                if negb dirty then mret (false, n)
                else
                  modify (addOldKey (Hash fl));;
                  mret (true, ShortNode nk nn NewFlag)
              else
                match nk !! matchlen, key !! matchlen with
                | Some i, Some j =>
                    '(_, c1) ← insert fuel NilNode (prefix ++ take (S matchlen) nk)
                                 (drop (S matchlen) nk) nval;
                    cs1 ← lift (setChild i c1 emptyBranch);
                    '(_, c2) ← insert fuel NilNode (prefix ++ take (S matchlen) key)
                                 (drop (S matchlen) key) value;
                    cs2 ← lift (setChild j c2 cs1);
                    let branch := FullNode cs2 NewFlag in
                    if (matchlen =? 0)%nat then
                      modify (addOldKey (Hash fl));;
                      mret (true, branch)
                    else
                      modify (onInsert (prefix ++ take matchlen key));;
                      modify (addOldKey (Hash fl));;
                      mret (true, ShortNode (take matchlen key) branch NewFlag)
                | _, _ => lift Panic
                end
          | FullNode cs fl =>
              match cs !! Z.to_nat k0 with
              | None => lift Panic
              | Some c =>
                  '(dirty, nn) ← insert fuel c (prefix ++ [k0]) krest value;
                  if negb dirty then mret (false, n)
                  else
                    modify (addOldKey (Hash fl));;
                    mret (true, FullNode (<[Z.to_nat k0 := nn]> cs) NewFlag)
              end
          | NilNode =>
              modify (onInsert prefix);;
              mret (true, ShortNode key value NewFlag)
          | HashNode h => fun tr =>
              match resolveAndTrack h prefix tr with
              | (Ok rn, tr') =>
                  ('(dirty, nn) ← insert fuel rn prefix key value;
                   if negb dirty then mret (false, rn) else mret (true, nn)) tr'
              | (Err _, tr') => insert fuel NilNode prefix key value tr'
              | (Panic, tr') => (Panic, tr')
              | (NoFuel, tr') => (NoFuel, tr')
              end
          | ValueNode _ => lift Panic
          end
      end
  end.

(** ** delete *)

(** The reduction loop of [delete]: the index of the only non-nil child, -1
    for none, -2 for at least two. *)
Fixpoint remainingPos (i pos : Z) (cs : list Node) : Z :=
  match cs with
  | [] => pos
  | c :: cs' =>
      if isNil c then remainingPos (i + 1) pos cs'
      else if pos =? -1 then remainingPos (i + 1) i cs' else -2
  end.

(** The end of [delete] on a full node that lost a child: the node is replaced
    by a short node when one child is left. *)
Definition reduceFull (prefix : bytes) (cs : list Node) : stm Tracer (bool * Node) :=
  let pos := remainingPos 0 (-1) cs in
  if pos >=? 0 then
    match cs !! Z.to_nat pos with
    | None => lift Panic
    | Some cpos =>
        if negb (pos =? 16) then
          cnode ← resolve cpos (prefix ++ [pos]);
          match cnode with
          | ShortNode ck cval _ =>
              modify (onDelete (prefix ++ [pos]));;
              mret (true, ShortNode (pos :: ck) cval NewFlag)
          | _ => mret (true, ShortNode [pos] cpos NewFlag)
          end
        else mret (true, ShortNode [pos] cpos NewFlag)
    end
  else mret (true, FullNode cs NewFlag).

Fixpoint delete (fuel : nat) (n : Node) (prefix key : bytes) : stm Tracer (bool * Node) :=
  match fuel with
  | O => lift NoFuel
  | S fuel =>
      match n with
      | ShortNode nk nval fl =>
          let matchlen := PrefixLen key nk in
          if (matchlen <? length nk)%nat then mret (false, n)
          else if (matchlen =? length key)%nat then
            modify (onDelete prefix);;
            mret (true, NilNode)
          else
            '(dirty, child) ← delete fuel nval (prefix ++ take (length nk) key) (drop (length nk) key);
            if negb dirty then mret (false, n)
            else
              match child with
              | ShortNode ck cval _ =>
                  modify (onDelete (prefix ++ nk));;
                  mret (true, ShortNode (nk ++ ck) cval NewFlag)
              | _ => mret (true, ShortNode nk child NewFlag)
              end
      | FullNode cs fl =>
          match key with
          | [] => lift Panic
          | k0 :: krest =>
              match cs !! Z.to_nat k0 with
              | None => lift Panic
              | Some c =>
                  '(dirty, nn) ← delete fuel c (prefix ++ [k0]) krest;
                  if negb dirty then mret (false, n)
                  else
                    let cs' := <[Z.to_nat k0 := nn]> cs in
                    if negb (isNil nn) then mret (true, FullNode cs' NewFlag)
                    else
                      reduceFull prefix cs'
              end
          end
      | ValueNode _ => mret (true, NilNode)
      | NilNode => mret (false, NilNode)
      | HashNode h =>
          rn ← resolveAndTrack h prefix;
          '(dirty, nn) ← delete fuel rn prefix key;
          if negb dirty then mret (false, rn) else mret (true, nn)
      end
  end.

(** ** Operations of [MerklePatriciaTrie] *)

Definition fuelFor (k : bytes) : nat := 2 * length k + 2.

Definition NewTrie (rootHash : bytes) (isHash : bool) : outcome MerklePatriciaTrie :=
  let trie := mkTrie NilNode false newTracer isHash in
  if negb (bool_decide (rootHash = zeroHash)) && negb (bool_decide (rootHash = EmptyRootHash)) then
    match resolveAndTrack rootHash [] newTracer with
    | (Ok rootnode, tr) => Ok (mkTrie rootnode false tr isHash)
    | (Err e, _) => Err e
    | (Panic, _) => Panic
    | (NoFuel, _) => NoFuel
    end
  else Ok trie.

Definition CopyTrie (t : MerklePatriciaTrie) : MerklePatriciaTrie :=
  mkTrie (root t) false newTracer (isHash t).

Definition Get (key : bytes) : stm MerklePatriciaTrie (option bytes) :=
  t ← getTrie;
  if committed t then lift (Err ErrCommitted)
  else
    let k := KeybytesToHex (hashKey t key) in
    '(value, _, _) ← onTracer (get (fuelFor k) (root t) k 0);
    mret value.

Definition update (key value : bytes) : stm MerklePatriciaTrie unit :=
  t ← getTrie;
  let k := KeybytesToHex key in
  if negb (length value =? 0)%nat then
    '(_, n) ← onTracer (insert (fuelFor k) (root t) [] k (ValueNode value));
    modify (setRoot n)
  else
    '(_, n) ← onTracer (delete (fuelFor k) (root t) [] k);
    modify (setRoot n).

Definition Update (key value : bytes) : stm MerklePatriciaTrie unit :=
  t ← getTrie;
  if committed t then lift (Err ErrCommitted)
  else update (hashKey t key) value.

(** [ParallelGet]: one goroutine per key; [sched] is the order in which the
    goroutines run.  A goroutine touches the shared tracer only through atomic
    [accessList] stores and writes only its own slots of the two result
    slices. *)
Definition parallelStep (keys : list bytes)
    (st : list (option bytes) * list (option GoError)) (idx : nat) :
    stm MerklePatriciaTrie (list (option bytes) * list (option GoError)) := fun t =>
  match keys !! idx with
  | None => (Ok st, t)
  | Some key =>
      let k := KeybytesToHex (hashKey t key) in
      match onTracer (get (fuelFor k) (root t) k 0) t with
      | (Ok (value, _, _), t') => (Ok (<[idx := value]> st.1, st.2), t')
      | (Err e, t') => (Ok (<[idx := None]> st.1, <[idx := Some e]> st.2), t')
      | (Panic, t') => (Panic, t')
      | (NoFuel, t') => (NoFuel, t')
      end
  end.

Fixpoint parallelRun (keys : list bytes) (sched : list nat)
    (st : list (option bytes) * list (option GoError)) :
    stm MerklePatriciaTrie (list (option bytes) * list (option GoError)) :=
  match sched with
  | [] => mret st
  | idx :: rest => st' ← parallelStep keys st idx; parallelRun keys rest st'
  end.

Definition ParallelGet (sched : list nat) (keys : list bytes) :
    stm MerklePatriciaTrie (list (option bytes)) :=
  t ← getTrie;
  if committed t then lift (Err ErrCommitted)
  else
    '(results, errors) ← parallelRun keys sched
       (replicate (length keys) None, replicate (length keys) None);
    if decide (Forall (fun e => e = None) errors) then mret results
    else lift (Err (ErrText "error occurred during parallel get")).

(** ** Traversals *)

(** The loop over the children of a full node, as [getAll] and
    [countRecursive] run it: the visited state is threaded through. *)
Section visitChildren.
Context {D : Type} (visit : Node -> bytes -> D -> stm Tracer D).
Fixpoint visitChildren (i : Z) (prefix : bytes) (cs : list Node) (data : D) : stm Tracer D :=
  match cs with
  | [] => mret data
  | c :: cs' =>
      if isNil c then visitChildren (i + 1) prefix cs' data
      else
        data' ← visit c (prefix ++ [i]) data;
        visitChildren (i + 1) prefix cs' data'
  end.
End visitChildren.

Definition getAllKey (prefix : bytes) : bytes :=
  EncodeToString (prefix ++ KeybytesToHex (Keccak256 prefix)).

Fixpoint getAll (fuel : nat) (n : Node) (prefix : bytes) (data : gmap bytes bytes) :
  stm Tracer (gmap bytes bytes) :=
  match fuel with
  | O => lift NoFuel
  | S fuel =>
      match n with
      | NilNode => mret data
      | ValueNode v => mret (<[getAllKey prefix := v]> data)
      | ShortNode k val _ => getAll fuel val (prefix ++ k) data
      | FullNode cs _ => visitChildren (fun c p d => getAll fuel c p d) 0 prefix cs data
      | HashNode h =>
          child ← resolveAndTrack h prefix;
          getAll fuel child prefix data
      end
  end.

Definition GetAll (fuel : nat) : stm MerklePatriciaTrie (gmap bytes bytes) :=
  t ← getTrie;
  if committed t then lift (Err ErrCommitted)
  else onTracer (getAll fuel (root t) [] ∅).

Fixpoint countRecursive (fuel : nat) (n : Node) (prefix : bytes) (count : Z) : stm Tracer Z :=
  match fuel with
  | O => lift NoFuel
  | S fuel =>
      match n with
      | NilNode => mret count
      | ValueNode v => mret (count + 1)
      | ShortNode k val _ => countRecursive fuel val (prefix ++ k) count
      | FullNode cs _ => visitChildren (fun c p d => countRecursive fuel c p d) 0 prefix cs count
      | HashNode h =>
          child ← resolveAndTrack h prefix;
          countRecursive fuel child prefix count
      end
  end.

Definition Count (fuel : nat) : stm MerklePatriciaTrie Z :=
  t ← getTrie;
  if committed t then lift (Err ErrCommitted)
  else onTracer (countRecursive fuel (root t) [] 0).
End Trie.
