(* ===== verification/TrieHash.v ===== *)
(** * Hashing and committing the trie

    Models [pkg/trie/hasher.go] (the hasher, sequential and parallel alike:
    the goroutines write disjoint children), [pkg/trie/committer.go] and the
    hashing part of [pkg/trie/trie.go] ([Hash], [Commit], [GetRootHash]).

    The two files serialise an absent child of a full node differently: the
    hasher replaces it by [NilValueNode] (no bytes), the committer leaves it
    nil (32 zero bytes), so the blob stored for a full node is not the string
    whose hash is its key. *)

From S2P Require Import Prelude TrieEncoding TrieNode TrieTracer Trie.

Local Open Scope Z_scope.

Section Hasher.
Context `{EthLib} `{MPTProto}.

(** ** hasher.go *)

Definition hashData (data : bytes) : bytes := Keccak256 data.

Definition shortnodeToHash (n : Node) : outcome Node :=
  b ← Marshal n; Ok (HashNode (hashData b)).

Definition fullnodeToHash (n : Node) : outcome Node :=
  b ← Marshal n; Ok (HashNode (hashData b)).

(** [cached.Flags.Hash = hn] when [hashed] is a hash node, nil otherwise. *)
Definition cachedFlag (hashed : Node) (fl : NodeFlag) : NodeFlag :=
  mkFlag (match hashed with HashNode h => Some h | _ => None end) (Dirty fl).

(** The loop of [hashFullNodeChildren] over the first 16 children; the last
    child is kept as it is in both copies. *)
Section hashChildren.
Context (hash : Node -> outcome (Node * Node)).
Fixpoint hashChildren (i : nat) (cs : list Node) : outcome (list Node * list Node) :=
  match cs with
  | [] => Ok ([], [])
  | c :: cs' =>
      '(col, cac) ← (if (16 <=? i)%nat then Ok (c, c)
                     else match c with
                          | NilNode => Ok (NilValueNode, NilNode)
                          | _ => hash c
                          end);
      '(cols, cacs) ← hashChildren (S i) cs';
      Ok (col :: cols, cac :: cacs)
  end.
End hashChildren.

(** [hash n force]: the collapsed hash node, and the copy of [n] with the hash
    cached; [force] is not used by the code. *)
Fixpoint hash (n : Node) : outcome (Node * Node) :=
  match n with
  | NilNode => Panic
  | ValueNode _ | HashNode _ => Ok (n, n)
  | ShortNode k v fl =>
      match Hash fl with
      | Some h => Ok (HashNode h, n)
      | None =>
          ck ← HexToCompact k;
          '(cv, v') ← match v with
                      | FullNode _ _ | ShortNode _ _ _ => hash v
                      | _ => Ok (v, v)
                      end;
          hashed ← shortnodeToHash (ShortNode ck cv fl);
          Ok (hashed, ShortNode k v' (cachedFlag hashed fl))
      end
  | FullNode cs fl =>
      match Hash fl with
      | Some h => Ok (HashNode h, n)
      | None =>
          '(ccs, cs') ← hashChildren hash 0 cs;
          hashed ← fullnodeToHash (FullNode ccs fl);
          Ok (hashed, FullNode cs' (cachedFlag hashed fl))
      end
  end.

(** [hashRoot] and [Hash]. *)
Definition hashRoot (n : Node) : outcome (Node * Node) :=
  match n with
  | NilNode => Ok (HashNode EmptyRootHash, NilNode)
  | _ => hash n
  end.

Definition HashTrie : stm MerklePatriciaTrie bytes := fun t =>
  match hashRoot (root t) with
  | Ok (HashNode h, cached) => (Ok (BytesToHash h), setRoot cached t)
  | Ok (_, cached) => (Panic, setRoot cached t)
  | Err e => (Err e, t)
  | Panic => (Panic, t)
  | NoFuel => (NoFuel, t)
  end.

(** ** committer.go *)

(** [store]: the committer's node set is the state; [acc] is the tracer's
    access list. *)
Definition store (collectLeaf : bool) (acc : gmap bytes bytes) (path : bytes) (n : Node) :
    stm NodeSet Node :=
  '(hash, _) ← lift (Cache n);
  match hash with
  | None =>
      (if decide (is_Some (acc !! path)) then modify (AddNode path NewDeleted) else mret tt);;
      mret n
  | Some h =>
      let nhash := BytesToHash h in
      blob ← lift (NodeToBytes n);
      modify (AddNode path (New nhash blob));;
      (if collectLeaf then
         match n with
         | ShortNode _ (ValueNode val) _ => modify (AddLeaf nhash val)
         | _ => mret tt
         end
       else mret tt);;
      mret (HashNode h)
  end.

(** The loop of [commitChildren]. *)
Section commitKids.
Context (commit : bytes -> Node -> stm NodeSet Node).
Fixpoint commitKids (path : bytes) (i : Z) (cs : list Node) : stm NodeSet (list Node) :=
  match cs with
  | [] => mret []
  | c :: cs' =>
      c' ← (if i <? 16 then
              match c with
              | NilNode => mret NilNode
              | HashNode h => mret (HashNode h)
              | _ => commit (path ++ [i]) c
              end
            else mret c);
      rest ← commitKids path (i + 1) cs';
      mret (c' :: rest)
  end.
End commitKids.

Fixpoint commit (collectLeaf : bool) (acc : gmap bytes bytes) (path : bytes) (n : Node)
    {struct n} : stm NodeSet Node :=
  match n with
  | NilNode => lift Panic
  | ValueNode _ => lift Panic
  | HashNode h => mret n
  | ShortNode k v fl =>
      match Hash fl, Dirty fl with
      | Some h, false => mret (HashNode h)
      | _, _ =>
          v' ← match v with
               | FullNode _ _ => commit collectLeaf acc (path ++ k) v
               | _ => mret v
               end;
          ck ← lift (HexToCompact k);
          let collapsed := ShortNode ck v' fl in
          hashedNode ← store collectLeaf acc path collapsed;
          mret (match hashedNode with HashNode h => HashNode h | _ => collapsed end)
      end
  | FullNode cs fl =>
      match Hash fl, Dirty fl with
      | Some h, false => mret (HashNode h)
      | _, _ =>
          cs' ← commitKids (fun p c => commit collectLeaf acc p c) path 0 cs;
          let collapsed := FullNode cs' fl in
          hashedNode ← store collectLeaf acc path collapsed;
          mret (match hashedNode with HashNode h => HashNode h | _ => collapsed end)
      end
  end.

(** [committer.Commit] asserts that the root collapses to a hash node. *)
Definition CommitNode (collectLeaf : bool) (acc : gmap bytes bytes) (n : Node) : stm NodeSet bytes :=
  r ← commit collectLeaf acc [] n;
  match r with
  | HashNode h => mret h
  | _ => lift Panic
  end.

Definition addDeleted (paths : list bytes) (s : NodeSet) : NodeSet :=
  foldl (fun s path => AddNode path NewDeleted s) s paths.

(** [Commit]: works on a copy of the trie, so the receiver keeps its root; the
    deferred [reset] clears the receiver's tracer. *)
Definition Commit (collectLeaf : bool) :
    stm MerklePatriciaTrie (bytes * option NodeSet * list (option bytes)) := fun t =>
  let t' := mkTrie (root t) (committed t) (reset (tracer t)) (isHash t) in
  let paths := deletedNodes (tracer t) in
  match root t with
  | NilNode =>
      match paths with
      | [] => (Ok (EmptyRootHash, None, oldKeys (tracer t)), t')
      | _ => (Ok (EmptyRootHash, Some (addDeleted paths NewNodeSet), oldKeys (tracer t)), t')
      end
  | _ =>
      match HashTrie (CopyTrie t) with
      | (Ok rootHash, commitTrie) =>
          match Cache (root commitTrie) with
          | Ok (_, false) => (Ok (rootHash, None, oldKeys (tracer t)), t')
          | Ok (_, true) =>
              match CommitNode collectLeaf (accessList (tracer t)) (root commitTrie)
                      (addDeleted paths NewNodeSet) with
              | (Ok _, nodes) => (Ok (rootHash, Some nodes, oldKeys (tracer t)), t')
              | (Err e, _) => (Err e, t')
              | (Panic, _) => (Panic, t')
              | (NoFuel, _) => (NoFuel, t')
              end
          | Err e => (Err e, t')
          | Panic => (Panic, t')
          | NoFuel => (NoFuel, t')
          end
      | (Err e, _) => (Err e, t')
      | (Panic, _) => (Panic, t')
      | (NoFuel, _) => (NoFuel, t')
      end
  end.

(** ** GetRootHash

    [data] is the map in the order it is ranged over; the database is a fresh
    [MemoryDB], which has no key; errors of [Update] are dropped. *)
Definition emptyDb (key : bytes) : outcome bytes := Err (KeyNotFound key).

Fixpoint updateAll (data : list (bytes * bytes)) : stm MerklePatriciaTrie unit :=
  match data with
  | [] => mret tt
  | (k, v) :: rest =>
      catch (Update emptyDb (FromHex k) v) (fun _ => mret tt);;
      updateAll rest
  end.

Definition GetRootHash (data : list (bytes * bytes)) : outcome bytes :=
  t ← NewTrie emptyDb zeroHash false;
  match (updateAll data;; HashTrie) t with
  | (Ok h, _) => Ok h
  | (Err e, _) => Err e
  | (Panic, _) => Panic
  | (NoFuel, _) => NoFuel
  end.
End Hasher.
