(* ===== verification/TrieSpec.v ===== *)
(** * Abstract tries

    The specification the trie code is proved against: fully loaded trees
    without cache flags ([ptree]), the keys they hold ([plookup]), the canonical
    shape the code maintains ([wfN]), the root hash and the stored blob of a
    tree ([phash], [pblob]), the databases that hold a tree ([stored]), and the
    relation between a node in memory, partly replaced by hash nodes, and the
    tree it stands for ([repr]). *)

From S2P Require Import Prelude TrieEncoding TrieNode TrieTracer Trie TrieHash.

Local Open Scope Z_scope.

Inductive ptree :=
| PNil
| PVal (v : bytes)
| PShort (k : bytes) (t : ptree)
| PFull (ts : list ptree).

#[export] Instance ptree_nil_dec t : Decision (t = PNil).
Proof. destruct t; (by left) || (by right). Defined.

(** ** Keys and lookup *)

(** A complete hex key: nibbles followed by the terminator. *)
Definition vkey (k : bytes) : Prop := exists p, nibbles p /\ k = p ++ [16].

Fixpoint plookup (t : ptree) (k : bytes) : option bytes :=
  match t with
  | PNil => None
  | PVal v => match k with [] => Some v | _ => None end
  | PShort sk t' =>
      if decide (sk = take (length sk) k) then plookup t' (drop (length sk) k) else None
  | PFull ts =>
      match k with
      | [] => None
      | i :: k' =>
          match ((fun c => plookup c) <$> ts) !! Z.to_nat i with
          | Some f => f k'
          | None => None
          end
      end
  end.

(** ** Canonical shape

    Leaves are short nodes whose key ends in the terminator; an extension is a
    non-empty nibble key above a full node; a full node has 17 children, the
    last one a value or nothing, and at least two of them are present. *)
Inductive wfN : ptree -> Prop :=
| wf_leaf p v : nibbles p -> v <> [] -> wfN (PShort (p ++ [16]) (PVal v))
| wf_ext k ts : k <> [] -> nibbles k -> wfN (PFull ts) -> wfN (PShort k (PFull ts))
| wf_full ts :
    length ts = 17%nat ->
    (forall i t, (i < 16)%nat -> ts !! i = Some t -> t <> PNil -> wfN t) ->
    (forall t, ts !! 16%nat = Some t -> t <> PNil -> exists v, v <> [] /\ t = PVal v) ->
    (exists i j ti tj, i <> j /\ ts !! i = Some ti /\ ts !! j = Some tj /\ ti <> PNil /\ tj <> PNil) ->
    wfN (PFull ts).

Definition wf (t : ptree) : Prop := t = PNil \/ wfN t.

(** The shape expected below a path when [k] is what is left of the key. *)
Definition wfat (t : ptree) (k : bytes) : Prop :=
  (k = [] /\ (t = PNil \/ exists v, v <> [] /\ t = PVal v)) \/ (vkey k /\ wf t).

(** No full node holds a value of its own: the shape of a trie all of whose
    keys have one length. *)
Inductive no16 : ptree -> Prop :=
| no16_nil : no16 PNil
| no16_val v : no16 (PVal v)
| no16_short k t : no16 t -> no16 (PShort k t)
| no16_full ts : (forall i t, ts !! i = Some t -> no16 t) -> ts !! 16%nat = Some PNil -> no16 (PFull ts).

Lemma no16_full_inv ts : no16 (PFull ts) ->
  (forall i t, ts !! i = Some t -> no16 t) /\ ts !! 16%nat = Some PNil.
Proof. by inversion 1. Qed.

(** ** Hash and blob of a tree *)

Section Hashes.
Context `{EthLib} `{MPTProto}.

Definition compact (k : bytes) : bytes :=
  match HexToCompact k with Ok c => c | _ => [] end.

Definition shortBlob (k v : bytes) : bytes :=
  marshalMPTNode (mkMPTNode MPTNODE_TYPE_SHORT (marshalMPTShortNode (mkMPTShortNode k v))).

Definition fullBlob (bs : list bytes) : bytes :=
  marshalMPTNode (mkMPTNode MPTNODE_TYPE_FULL (marshalMPTFullNode (mkMPTFullNode bs))).

(** What the [i]-th child contributes to the string the hasher hashes
    ([absent = []]) and to the blob the committer stores ([absent = zeroHash]):
    the last child always uses the zero hash when absent. *)
Definition kidBytes (absent : bytes) (i : nat) (th : ptree * bytes) : bytes :=
  match th.1 with
  | PNil => if (16 <=? i)%nat then zeroHash else absent
  | _ => th.2
  end.

Fixpoint phash (t : ptree) : bytes :=
  match t with
  | PNil => EmptyRootHash
  | PVal v => v
  | PShort k t' => Keccak256 (shortBlob (compact k) (phash t'))
  | PFull ts =>
      Keccak256 (fullBlob (imap (kidBytes []) ((fun c => (c, phash c)) <$> ts)))
  end.

Definition pblob (t : ptree) : bytes :=
  match t with
  | PNil => []
  | PVal v => v
  | PShort k t' => shortBlob (compact k) (phash t')
  | PFull ts => fullBlob (imap (kidBytes zeroHash) ((fun c => (c, phash c)) <$> ts))
  end.

(** ** Databases holding a tree *)

Section Repr.
Context (dbGet : bytes -> outcome bytes).

(** [stored t]: the database maps the hash of every node of [t] to its blob,
    no full node of [t] holds a value, and no node hash is the zero hash. *)
Inductive stored : ptree -> Prop :=
| stored_leaf k v :
    dbGet (phash (PShort k (PVal v))) = Ok (pblob (PShort k (PVal v))) ->
    phash (PShort k (PVal v)) <> zeroHash ->
    stored (PShort k (PVal v))
| stored_ext k ts :
    dbGet (phash (PShort k (PFull ts))) = Ok (pblob (PShort k (PFull ts))) ->
    phash (PShort k (PFull ts)) <> zeroHash ->
    stored (PFull ts) -> stored (PShort k (PFull ts))
| stored_full ts :
    dbGet (phash (PFull ts)) = Ok (pblob (PFull ts)) ->
    phash (PFull ts) <> zeroHash ->
    (forall i t, (i < 16)%nat -> ts !! i = Some t -> t <> PNil -> stored t) ->
    ts !! 16%nat = Some PNil ->
    stored (PFull ts).

(** The cache flag of a node that stands for [t]: without a hash it is dirty,
    a cached hash is the hash of [t], and a clean node is in the database. *)
Definition flag_ok (fl : NodeFlag) (t : ptree) : Prop :=
  match Hash fl with
  | None => Dirty fl = true
  | Some h => h = phash t /\ (Dirty fl = false -> stored t)
  end.

(** A node with a cached hash has children with cached hashes. *)
Definition nodeHashed (n : Node) : Prop :=
  match n with
  | ShortNode _ _ fl | FullNode _ fl => Hash fl <> None
  | _ => True
  end.

Definition kid_hashed (fl : NodeFlag) (n : Node) : Prop :=
  match Hash fl with None => True | Some _ => nodeHashed n end.

Inductive repr : Node -> ptree -> Prop :=
| repr_nil : repr NilNode PNil
| repr_val v : repr (ValueNode v) (PVal v)
| repr_short k n fl t :
    repr n t -> flag_ok fl (PShort k t) -> kid_hashed fl n -> repr (ShortNode k n fl) (PShort k t)
| repr_full cs fl ts :
    length cs = length ts ->
    (forall i c t, cs !! i = Some c -> ts !! i = Some t -> repr c t) ->
    flag_ok fl (PFull ts) ->
    (forall i c, cs !! i = Some c -> kid_hashed fl c) ->
    repr (FullNode cs fl) (PFull ts)
| repr_hash t : stored t -> repr (HashNode (phash t)) t.
End Repr.
End Hashes.

(** ** Lemmas on keys *)

Lemma vkey_not_nil : vkey [] -> False.
Proof. intros (p & _ & E). by destruct p. Qed.

Lemma vkey_cons i k : vkey (i :: k) <-> (i = 16 /\ k = []) \/ (is_nibble i /\ vkey k).
Proof.
  split.
  - intros (p & Hp & E). destruct p as [|x p]; simpl in E; injection E as -> ->; [by left|].
    right. apply Forall_cons in Hp as [Hx Hp]. split; [done|by exists p].
  - intros [[-> ->]|[Hi (p & Hp & ->)]].
    + exists []. split; [constructor|done].
    + exists (i :: p). split; [by constructor|done].
Qed.

Lemma vkey_hex s : is_bytes s -> vkey (KeybytesToHex s).
Proof. intros Hs. exists (byteNibbles s). split; [by apply byteNibbles_nibbles|done]. Qed.

Lemma vkey_app_nibbles p k : nibbles p -> vkey (p ++ k) <-> vkey k.
Proof.
  intros Hp. induction Hp as [|x p Hx Hp IH]; simpl; [done|].
  rewrite vkey_cons. rewrite IH. unfold is_nibble in Hx. split; [|by right].
  intros [[-> _]|[_ ?]]; [lia|done].
Qed.

Lemma vkey_app_term p k : nibbles p -> vkey ((p ++ [16]) ++ k) <-> k = [].
Proof.
  intros Hp. rewrite <- app_assoc. rewrite vkey_app_nibbles by done. simpl.
  rewrite vkey_cons. unfold is_nibble. split; [intros [[_ ?]|[? _]]; [done|lia] | by left].
Qed.

(** A complete key is never a proper prefix of nibbles. *)
Lemma vkey_idx i k : vkey (i :: k) -> (Z.to_nat i < 17)%nat /\ 0 <= i <= 16.
Proof. rewrite vkey_cons. unfold is_nibble. intros [[-> ->]|[? _]]; lia. Qed.

(** ** Lemmas on lookup *)

Lemma plookup_full ts i k :
  plookup (PFull ts) (i :: k) =
  match ts !! Z.to_nat i with Some c => plookup c k | None => None end.
Proof. simpl. rewrite list_lookup_fmap. by destruct (ts !! Z.to_nat i). Qed.

Lemma plookup_short_app sk t k : plookup (PShort sk t) (sk ++ k) = plookup t k.
Proof.
  simpl. rewrite take_app_length, drop_app_length. by rewrite decide_True.
Qed.

Lemma plookup_short_Some sk t k v :
  plookup (PShort sk t) k = Some v -> exists k', k = sk ++ k' /\ plookup t k' = Some v.
Proof.
  simpl. case_decide as E; [|done]. intros Hl.
  exists (drop (length sk) k). split; [|done].
  rewrite E at 1. by rewrite take_drop.
Qed.

Lemma plookup_short_mismatch sk t k :
  (forall k', k <> sk ++ k') -> plookup (PShort sk t) k = None.
Proof.
  intros Hne. destruct (plookup (PShort sk t) k) eqn:E; [|done].
  apply plookup_short_Some in E as (k' & -> & _). by destruct (Hne k').
Qed.

(** ** Shape below a path *)

Lemma wfat_short sk t k : wfN (PShort sk t) -> vkey (sk ++ k) -> wfat t k.
Proof.
  inversion 1; subst; intros Hk.
  - apply vkey_app_term in Hk as ->; [|done]. left. split; [done|]. right; eauto.
  - right. split; [by apply vkey_app_nibbles in Hk|]. by right.
Qed.

Lemma wfat_full ts i k :
  wfN (PFull ts) -> vkey (i :: k) -> exists c, ts !! Z.to_nat i = Some c /\ wfat c k.
Proof.
  inversion 1 as [| |? Hlen Hkids Hval _]; subst. intros Hk.
  pose proof (vkey_idx _ _ Hk) as [Hi _].
  destruct (lookup_lt_is_Some_2 ts (Z.to_nat i)) as [c Hc]; [lia|].
  exists c. split; [done|]. apply vkey_cons in Hk as [[-> ->]|[Hn Hk]].
  - left. split; [done|]. destruct (decide (c = PNil)) as [->|Hne]; [by left|].
    right. by apply Hval.
  - right. split; [done|]. destruct (decide (c = PNil)) as [->|Hne]; [by left|].
    right. eapply Hkids; [|done|done]. unfold is_nibble in Hn. lia.
Qed.

(** Every canonical tree holds a key; a full node holds two with different
    first nibbles. *)
Lemma wfN_nonempty t : wfN t -> exists k v, vkey k /\ plookup t k = Some v.
Proof.
  induction 1 as [p v Hp Hv|k ts Hk Hn Hw (k' & v & Hv & Hl)|ts Hlen Hw IH Hval (i & j & ti & tj & Hij & Hi & Hj & Hti & Htj)].
  - exists (p ++ [16]), v. split; [by exists p|].
    rewrite <- (app_nil_r (p ++ [16])) at 2. by rewrite plookup_short_app.
  - exists (k ++ k'), v. split; [by apply vkey_app_nibbles|]. by rewrite plookup_short_app.
  - pose proof (lookup_lt_Some _ _ _ Hi) as Hlt.
    destruct (decide (i < 16)%nat) as [Hi16|Hi16].
    + destruct (IH i ti Hi16 Hi Hti) as (k & v & Hk & Hl).
      exists (Z.of_nat i :: k), v. split.
      * apply vkey_cons. right. split; [unfold is_nibble; lia|done].
      * rewrite plookup_full, Nat2Z.id, Hi. done.
    + assert (i = 16%nat) as -> by lia. destruct (Hval ti Hi Hti) as (v & Hv & ->).
      exists [16], v. split; [apply vkey_cons; by left|].
      rewrite plookup_full. change (Z.to_nat 16) with 16%nat. by rewrite Hi.
Qed.

Lemma wfN_child_key ts i t :
  wfN (PFull ts) -> ts !! i = Some t -> t <> PNil ->
  exists k v, vkey (Z.of_nat i :: k) /\ plookup (PFull ts) (Z.of_nat i :: k) = Some v.
Proof.
  inversion 1 as [| |? Hlen Hkids Hval _]; subst. intros Hi Hne.
  pose proof (lookup_lt_Some _ _ _ Hi) as Hlt.
  setoid_rewrite plookup_full. rewrite Nat2Z.id, Hi.
  destruct (decide (i < 16)%nat) as [Hi16|Hi16].
  - destruct (wfN_nonempty t) as (k & v & Hk & Hl); [by eapply Hkids|].
    exists k, v. split; [|done]. apply vkey_cons. right. split; [unfold is_nibble; lia|done].
  - assert (i = 16%nat) as -> by lia. destruct (Hval t Hi Hne) as (v & Hv & ->).
    exists [], v. split; [apply vkey_cons; by left|done].
Qed.

Lemma wfN_full_two ts :
  wfN (PFull ts) ->
  exists i j ki kj vi vj, i <> j /\ vkey (i :: ki) /\ vkey (j :: kj) /\
    plookup (PFull ts) (i :: ki) = Some vi /\ plookup (PFull ts) (j :: kj) = Some vj.
Proof.
  intros Hw. inversion Hw as [| |? Hlen Hkids Hval (i & j & ti & tj & Hij & Hi & Hj & Hti & Htj)]; subst.
  destruct (wfN_child_key ts i ti Hw Hi Hti) as (ki & vi & Hki & Hli).
  destruct (wfN_child_key ts j tj Hw Hj Htj) as (kj & vj & Hkj & Hlj).
  exists (Z.of_nat i), (Z.of_nat j), ki, kj, vi, vj. split_and!; [lia|done..].
Qed.
