(* ===== verification/TrieCanon.v ===== *)
(** * The canonical form of a trie

    A canonical tree is determined by the keys it holds: this is what makes
    the root hash a function of the contents, whatever the order of the
    updates that produced the trie. *)

From S2P Require Import Prelude TrieEncoding TrieNode TrieTracer Trie TrieHash TrieSpec.

Local Open Scope Z_scope.

Definition same_keys (t1 t2 : ptree) : Prop := forall k, vkey k -> plookup t1 k = plookup t2 k.

#[export] Instance same_keys_equiv : Equivalence same_keys.
Proof.
  split.
  - by intros t k.
  - intros t1 t2 E k Hk. symmetry. by apply E.
  - intros t1 t2 t3 E1 E2 k Hk. etransitivity; [by apply E1 | by apply E2].
Qed.

Lemma wfN_short_key_nonempty sk t : wfN (PShort sk t) -> sk <> [].
Proof. inversion 1; subst; [|done]. by destruct p. Qed.

Lemma full_short_differ ts sk t :
  wfN (PFull ts) -> wfN (PShort sk t) -> same_keys (PFull ts) (PShort sk t) -> False.
Proof.
  intros Hf Hs E.
  destruct (wfN_full_two ts Hf) as (i & j & ki & kj & vi & vj & Hij & Hi & Hj & Li & Lj).
  rewrite E in Li by done. rewrite E in Lj by done.
  apply plookup_short_Some in Li as (x & Ex & _).
  apply plookup_short_Some in Lj as (y & Ey & _).
  apply wfN_short_key_nonempty in Hs. destruct sk as [|z sk]; [done|].
  simpl in Ex, Ey. congruence.
Qed.

Lemma leaf_ext_differ p v k ts :
  nibbles p -> wfN (PShort k (PFull ts)) ->
  same_keys (PShort (p ++ [16]) (PVal v)) (PShort k (PFull ts)) -> False.
Proof.
  intros Hp Hw E. inversion Hw as [|? ? Hk Hn Hf|]; subst.
  destruct (wfN_full_two ts Hf) as (i & j & ki & kj & vi & vj & Hij & Hi & Hj & Li & Lj).
  assert (Hkey : forall x kx vx, vkey (x :: kx) -> plookup (PFull ts) (x :: kx) = Some vx ->
                 k ++ x :: kx = p ++ [16]).
  { intros x kx vx Hx Lx. specialize (E (k ++ x :: kx)).
    rewrite plookup_short_app, Lx in E.
    destruct (plookup_short_Some _ _ _ _ (E (proj2 (vkey_app_nibbles _ _ Hn) Hx))) as (y & Ey & Hy).
    destruct y; [|done]. by rewrite app_nil_r in Ey. }
  pose proof (Hkey _ _ _ Hi Li) as E1. pose proof (Hkey _ _ _ Hj Lj) as E2.
  rewrite <- E2 in E1. apply app_inv_head in E1. congruence.
Qed.

(** All keys below an extension share exactly the extension's key. *)
Lemma ext_key_prefix k1 ts1 k2 ts2 :
  wfN (PShort k1 (PFull ts1)) -> wfN (PShort k2 (PFull ts2)) ->
  same_keys (PShort k1 (PFull ts1)) (PShort k2 (PFull ts2)) -> exists r, k1 = k2 ++ r.
Proof.
  intros Hw1 Hw2 E.
  inversion Hw1 as [|? ? _ Hn1 Hf1|]; subst. inversion Hw2 as [|? ? _ Hn2 Hf2|]; subst.
  destruct (wfN_full_two ts1 Hf1) as (i & j & ki & kj & vi & vj & Hij & Hi & Hj & Li & Lj).
  assert (Hkey : forall x kx vx, vkey (x :: kx) -> plookup (PFull ts1) (x :: kx) = Some vx ->
                 exists y, k1 ++ x :: kx = k2 ++ y).
  { intros x kx vx Hx Lx.
    assert (L2 : plookup (PShort k2 (PFull ts2)) (k1 ++ x :: kx) = Some vx).
    { rewrite <- E by (by apply vkey_app_nibbles). by rewrite plookup_short_app. }
    apply plookup_short_Some in L2 as (y & Ey & _). by exists y. }
  destruct (Hkey _ _ _ Hi Li) as (yi & Eyi). destruct (Hkey _ _ _ Hj Lj) as (yj & Eyj).
  destruct (PrefixLen_split k1 k2) as (p & a & b & -> & -> & _ & Hd).
  rewrite <- !app_assoc in Eyi, Eyj. apply app_inv_head in Eyi, Eyj.
  destruct b as [|y b].
  - exists a. by rewrite app_nil_r.
  - destruct a as [|x a]; simpl in *; congruence.
Qed.

Lemma ext_key_eq k1 ts1 k2 ts2 :
  wfN (PShort k1 (PFull ts1)) -> wfN (PShort k2 (PFull ts2)) ->
  same_keys (PShort k1 (PFull ts1)) (PShort k2 (PFull ts2)) -> k1 = k2.
Proof.
  intros Hw1 Hw2 E. destruct (ext_key_prefix _ _ _ _ Hw1 Hw2 E) as [r ->].
  destruct (ext_key_prefix _ _ _ _ Hw2 Hw1 (symmetry E)) as [r' Er].
  rewrite <- app_assoc in Er. rewrite <- (app_nil_r k2) in Er at 1. apply app_inv_head in Er.
  symmetry in Er. apply app_nil in Er as [-> ->]. by rewrite app_nil_r.
Qed.

Lemma full_child_same ts1 ts2 i t1 t2 :
  same_keys (PFull ts1) (PFull ts2) -> (i < 16)%nat ->
  ts1 !! i = Some t1 -> ts2 !! i = Some t2 -> same_keys t1 t2.
Proof.
  intros E Hi H1 H2 k Hk. specialize (E (Z.of_nat i :: k)).
  rewrite !plookup_full, Nat2Z.id, H1, H2 in E. apply E.
  apply vkey_cons. right. split; [unfold is_nibble; lia|done].
Qed.

Lemma same_keys_nil t : wf t -> same_keys PNil t -> t = PNil.
Proof.
  intros [->|Hw] E; [done|]. destruct (wfN_nonempty t Hw) as (k & v & Hk & Hl).
  rewrite <- E in Hl by done. done.
Qed.

Lemma wfN_child ts i t :
  wfN (PFull ts) -> (i < 16)%nat -> ts !! i = Some t -> wf t.
Proof.
  inversion 1 as [| |? _ Hkids _ _]; subst. intros Hi Ht.
  destruct (decide (t = PNil)); [by left|]. right. eauto.
Qed.

(** Two canonical trees with the same keys and values are equal. *)
Lemma canonical_eq t1 t2 : wfN t1 -> wfN t2 -> same_keys t1 t2 -> t1 = t2.
Proof.
  intros H1. revert t2.
  induction H1 as [p v Hp Hv|k ts Hk Hn Hf IH|ts Hlen Hw IH Hval Htwo]; intros t2 H2 E.
  - inversion H2 as [p2 v2 Hp2 Hv2|k2 ts2|ts2]; subst.
    + assert (L : plookup (PShort (p2 ++ [16]) (PVal v2)) (p ++ [16]) = Some v).
      { rewrite <- E by (by exists p). rewrite <- (app_nil_r (p ++ [16])) at 2.
        by rewrite plookup_short_app. }
      apply plookup_short_Some in L as (x & Ex & Lx). destruct x; [|done].
      rewrite app_nil_r in Ex. apply app_inj_tail in Ex as [-> _]. simpl in Lx. congruence.
    + exfalso. eapply leaf_ext_differ; [exact Hp|exact H2|exact E].
    + exfalso. eapply full_short_differ; [exact H2| |by symmetry]. by constructor.
  - inversion H2 as [p2 v2 Hp2 Hv2|k2 ts2 Hk2 Hn2 Hf2|ts2]; subst.
    + exfalso. eapply leaf_ext_differ; [exact Hp2| |by symmetry]. by constructor.
    + assert (k = k2) as -> by (apply (ext_key_eq k ts k2 ts2); [by constructor|exact H2|done]).
      f_equal. apply IH; [done|]. intros key Hkey.
      specialize (E (k2 ++ key)). rewrite !plookup_short_app in E.
      apply E. by apply vkey_app_nibbles.
    + exfalso. eapply full_short_differ; [exact H2| |by symmetry]. by constructor.
  - inversion H2 as [p2 v2 Hp2 Hv2|k2 ts2 Hk2 Hn2 Hf2|ts2 Hlen2 Hw2 Hval2 Htwo2]; subst;
      [exfalso; eapply full_short_differ; [|exact H2|exact E]; by constructor..|].
    f_equal. apply list_eq_same_length with (n := 17%nat); [lia|lia|].
    intros i t t' Hi Ht Ht'. destruct (decide (i < 16)%nat) as [Hi16|Hi16].
    + pose proof (full_child_same _ _ _ _ _ E Hi16 Ht Ht') as Ek.
      destruct (decide (t = PNil)) as [->|Hne].
      * symmetry. apply same_keys_nil; [|done]. by eapply wfN_child.
      * destruct (decide (t' = PNil)) as [->|Hne'].
        { apply same_keys_nil; [right; eauto|by symmetry]. }
        eapply IH; eauto.
    + assert (i = 16%nat) as -> by lia. specialize (E [16]).
      rewrite !plookup_full in E. change (Z.to_nat 16) with 16%nat in E. rewrite Ht, Ht' in E.
      specialize (E ltac:(apply vkey_cons; by left)).
      destruct (decide (t = PNil)) as [->|Hne], (decide (t' = PNil)) as [->|Hne']; [done| | |].
      * destruct (Hval2 t' Ht' Hne') as (v & _ & ->). done.
      * destruct (Hval t Ht Hne) as (v & _ & ->). done.
      * destruct (Hval t Ht Hne) as (v & _ & ->), (Hval2 t' Ht' Hne') as (v' & _ & ->).
        simpl in E. congruence.
Qed.

Lemma canonical_eq_wf t1 t2 : wf t1 -> wf t2 -> same_keys t1 t2 -> t1 = t2.
Proof.
  intros [->|H1] H2 E; [symmetry; by apply same_keys_nil|].
  destruct H2 as [->|H2]; [apply same_keys_nil; [by right|by symmetry]|].
  by apply canonical_eq.
Qed.
