(* ===== verification/TrieUpdate.v ===== *)
(** * Point updates of abstract tries

    How the key-value view of a tree changes when a subtree is updated: the
    lemmas shared by the proofs of [insert] and [delete]. *)

From S2P Require Import Prelude TrieEncoding TrieNode TrieTracer Trie TrieHash TrieSpec TrieCanon.

Local Open Scope Z_scope.

(** [t'] holds [o] at [key] and what [t] holds at every other key. *)
Definition upd_spec (t t' : ptree) (key : bytes) (o : option bytes) : Prop :=
  forall k, vkey k -> plookup t' k = if decide (k = key) then o else plookup t k.

(** The same below a path, where nothing may be left of the key. *)
Definition updat (t t' : ptree) (key : bytes) (o : option bytes) : Prop :=
  (key = [] /\ plookup t' [] = o) \/ (vkey key /\ upd_spec t t' key o).

Lemma vkey_app_inv a b : vkey (a ++ b) -> (b = [] /\ vkey a) \/ (nibbles a /\ vkey b).
Proof.
  induction a as [|x a IH]; simpl.
  - intros Hb. right. split; [constructor|done].
  - rewrite vkey_cons. intros [[-> E]|[Hx Hk]].
    + apply app_nil in E as [-> ->]. left. split; [done|]. apply vkey_cons. by left.
    + destruct (IH Hk) as [[-> Ha]|[Ha Hb]].
      * left. split; [done|]. apply vkey_cons. by right.
      * right. split; [by constructor|done].
Qed.

Lemma vkey_app_self a b : vkey a -> vkey (a ++ b) -> b = [].
Proof. intros (p & Hp & ->) Hb. by apply vkey_app_term in Hb. Qed.

Lemma prefix_cases (sk k : bytes) : (exists k1, k = sk ++ k1) \/ (forall k1, k <> sk ++ k1).
Proof.
  destruct (decide (sk = take (length sk) k)) as [E|E].
  - left. exists (drop (length sk) k). rewrite E at 1. by rewrite take_drop.
  - right. intros k1 ->. by rewrite take_app_length in E.
Qed.

Lemma updat_short sk t t' k o :
  vkey (sk ++ k) -> updat t t' k o -> upd_spec (PShort sk t) (PShort sk t') (sk ++ k) o.
Proof.
  intros Hk Hu key Hkey. destruct (prefix_cases sk key) as [(k1 & ->)|Hno].
  - rewrite !plookup_short_app. destruct Hu as [[-> Hu]|[Hvk Hu]].
    + rewrite app_nil_r in Hk. apply vkey_app_self in Hkey as ->; [|done].
      rewrite decide_True by done. done.
    + destruct (vkey_app_inv _ _ Hk) as [[-> _]|[Hn _]]; [by apply vkey_not_nil in Hvk|].
      rewrite vkey_app_nibbles in Hkey by done. rewrite (Hu k1 Hkey).
      destruct (decide (k1 = k)) as [->|Hne]; [by rewrite decide_True|].
      rewrite decide_False; [done|]. intros E. by apply app_inv_head in E.
  - rewrite !plookup_short_mismatch by done. by rewrite decide_False by done.
Qed.

Lemma updat_full ts i t t' k o :
  vkey (i :: k) -> ts !! Z.to_nat i = Some t -> updat t t' k o ->
  upd_spec (PFull ts) (PFull (<[Z.to_nat i := t']> ts)) (i :: k) o.
Proof.
  intros Hk Ht Hu key Hkey.
  destruct key as [|j k1]; [by apply vkey_not_nil in Hkey|]. rewrite !plookup_full.
  destruct (decide (j = i)) as [->|Hne].
  - rewrite list_lookup_insert_eq by (by eapply lookup_lt_Some). rewrite Ht.
    destruct Hu as [[-> Hu]|[Hvk Hu]].
    + assert (i = 16) as ->.
      { apply vkey_cons in Hk as [[-> _]|[_ Hk]]; [done|by apply vkey_not_nil in Hk]. }
      assert (k1 = []) as ->.
      { apply vkey_cons in Hkey as [[_ ->]|[Hn _]]; [done|unfold is_nibble in Hn; lia]. }
      rewrite decide_True by done. done.
    + assert (Hk1 : vkey k1).
      { apply vkey_cons in Hkey as [[-> ->]|[_ ?]]; [|done].
        apply vkey_cons in Hk as [[_ ->]|[Hn _]]; [done|unfold is_nibble in Hn; lia]. }
      rewrite (Hu k1 Hk1). destruct (decide (k1 = k)) as [->|Hne]; [by rewrite decide_True|].
      rewrite decide_False by congruence. done.
  - pose proof (vkey_idx _ _ Hk) as [_ ?]. pose proof (vkey_idx _ _ Hkey) as [_ ?].
    rewrite list_lookup_insert_ne by lia. rewrite decide_False by congruence. done.
Qed.

(** ** Shape of updated full nodes *)

(** What may stand at slot [i] of a full node. *)
Definition slot_ok (i : nat) (t : ptree) : Prop :=
  ((i < 16)%nat /\ wfN t) \/ (i = 16%nat /\ exists v, v <> [] /\ t = PVal v).

Lemma slot_ok_not_nil i t : slot_ok i t -> t <> PNil.
Proof. intros [[_ Hw]|[_ (v & _ & ->)]]; [|done]. by intros ->; inversion Hw. Qed.

Lemma slot_ok_kid ts i t : wfN (PFull ts) -> ts !! i = Some t -> t <> PNil -> slot_ok i t.
Proof.
  inversion 1 as [| |? Hlen Hkids Hval _]; subst. intros Ht Hne.
  pose proof (lookup_lt_Some _ _ _ Ht). destruct (decide (i < 16)%nat); [left; eauto|].
  assert (i = 16%nat) as -> by lia. right. eauto.
Qed.

Lemma wf_full_slots ts :
  length ts = 17%nat ->
  (forall i t, ts !! i = Some t -> t <> PNil -> slot_ok i t) ->
  (exists i j ti tj, i <> j /\ ts !! i = Some ti /\ ts !! j = Some tj /\ ti <> PNil /\ tj <> PNil) ->
  wfN (PFull ts).
Proof.
  intros Hlen Hs Htwo. constructor; [done| | |done].
  - intros i t Hi Ht Hne. destruct (Hs i t Ht Hne) as [[_ ?]|[-> _]]; [done|lia].
  - intros t Ht Hne. destruct (Hs _ t Ht Hne) as [[? _]|[_ ?]]; [lia|done].
Qed.

Lemma wf_full_set ts i t :
  wfN (PFull ts) -> (i < 17)%nat -> slot_ok i t -> wfN (PFull (<[i := t]> ts)).
Proof.
  intros Hw Hi Ht. pose proof Hw as Hw'.
  inversion Hw' as [| |? Hlen _ _ (a & b & ta & tb & Hab & Ha & Hb & Hna & Hnb)]; subst.
  apply wf_full_slots.
  - by rewrite length_insert.
  - intros j u Hj Hne. destruct (decide (i = j)) as [->|Hij].
    + rewrite list_lookup_insert_eq in Hj by lia. by injection Hj as <-.
    + rewrite list_lookup_insert_ne in Hj by done. by eapply slot_ok_kid.
  - assert (Hget : forall j tj, ts !! j = Some tj -> tj <> PNil ->
              exists u, <[i := t]> ts !! j = Some u /\ u <> PNil).
    { intros j tj Hj Hn. destruct (decide (i = j)) as [->|Hij].
      - exists t. rewrite list_lookup_insert_eq by lia. split; [done|by eapply slot_ok_not_nil].
      - exists tj. by rewrite list_lookup_insert_ne. }
    destruct (Hget a ta Ha Hna) as (ua & ? & ?), (Hget b tb Hb Hnb) as (ub & ? & ?).
    exists a, b, ua, ub. done.
Qed.

Lemma slot_ok_wfat i k t :
  vkey (i :: k) -> t <> PNil -> wfat t k -> slot_ok (Z.to_nat i) t.
Proof.
  intros Hk Hne Hw. apply vkey_cons in Hk as [[-> ->]|[Hi Hk]].
  - right. split; [done|]. destruct Hw as [[_ [?|?]]|[Hk _]]; [done|done|by apply vkey_not_nil in Hk].
  - left. unfold is_nibble in Hi. split; [lia|].
    destruct Hw as [[-> _]|[_ [?|?]]]; [by apply vkey_not_nil in Hk|done|done].
Qed.

(** ** Splitting a short node *)

(** A short node over an empty key is its child. *)
Definition mkShort (k : bytes) (t : ptree) : ptree :=
  match k with [] => t | _ => PShort k t end.

Lemma plookup_mkShort k t key : plookup (mkShort k t) key = plookup (PShort k t) key.
Proof. destruct k; [|done]. simpl. by rewrite drop_0. Qed.

Lemma plookup_short_split p q t k :
  plookup (PShort (p ++ q) t) k = plookup (PShort p (PShort q t)) k.
Proof.
  destruct (prefix_cases p k) as [(k1 & ->)|Hno].
  - rewrite plookup_short_app. destruct (prefix_cases q k1) as [(k2 & ->)|Hno].
    + rewrite (app_assoc p q k2), !plookup_short_app. done.
    + rewrite !plookup_short_mismatch; [done|done|].
      intros k2 E. rewrite <- app_assoc in E. apply app_inv_head in E. by apply Hno in E.
  - rewrite !plookup_short_mismatch; [done|done|].
    intros k1 E. rewrite <- app_assoc in E. by apply Hno in E.
Qed.

Lemma plookup_short_cons a ra t k1 :
  plookup (PShort (a :: ra) t) (a :: k1) = plookup (PShort ra t) k1.
Proof.
  rewrite (plookup_short_split [a] ra t). exact (plookup_short_app [a] (PShort ra t) k1).
Qed.

Lemma plookup_short_cons_ne a ra t b k1 :
  a <> b -> plookup (PShort (a :: ra) t) (b :: k1) = None.
Proof. intros Hne. apply plookup_short_mismatch. intros k' E. simpl in E. congruence. Qed.

(** The branch that replaces a short node at the nibble where the keys part. *)
Definition branch (a : Z) (c1 : ptree) (b : Z) (c2 : ptree) : list ptree :=
  <[Z.to_nat b := c2]> (<[Z.to_nat a := c1]> (replicate 17 PNil)).

Lemma branch_upd a ra t b rb v :
  0 <= a <= 16 -> 0 <= b <= 16 -> a <> b -> vkey (b :: rb) ->
  upd_spec (PShort (a :: ra) t) (PFull (branch a (mkShort ra t) b (mkShort rb (PVal v)))) (b :: rb) (Some v).
Proof.
  intros Ha Hb Hab Hkey key Hk. destruct key as [|j k1]; [by apply vkey_not_nil in Hk|].
  pose proof (vkey_idx _ _ Hk) as [_ Hj]. rewrite plookup_full. unfold branch.
  destruct (decide (j = b)) as [->|Hjb].
  - rewrite list_lookup_insert_eq by (rewrite length_insert, length_replicate; lia).
    rewrite plookup_mkShort, plookup_short_cons_ne by done.
    destruct (decide (b :: k1 = b :: rb)) as [E|E].
    + injection E as ->. rewrite <- (app_nil_r rb) at 2. by rewrite plookup_short_app.
    + destruct (plookup (PShort rb (PVal v)) k1) eqn:El; [|done].
      apply plookup_short_Some in El as (x & -> & Hx). destruct x; [|done].
      by rewrite app_nil_r in E.
  - rewrite list_lookup_insert_ne by lia. rewrite decide_False by congruence.
    destruct (decide (j = a)) as [->|Hja].
    + rewrite list_lookup_insert_eq by (rewrite length_replicate; lia).
      by rewrite plookup_mkShort, plookup_short_cons.
    + rewrite list_lookup_insert_ne by lia. rewrite plookup_short_cons_ne by done.
      rewrite lookup_replicate_2 by lia. done.
Qed.

Lemma branch_wf a c1 b c2 :
  0 <= a <= 16 -> 0 <= b <= 16 -> a <> b ->
  slot_ok (Z.to_nat a) c1 -> slot_ok (Z.to_nat b) c2 -> wfN (PFull (branch a c1 b c2)).
Proof.
  intros Ha Hb Hab H1 H2. unfold branch. apply wf_full_slots.
  - by rewrite !length_insert, length_replicate.
  - intros i t Ht Hne. destruct (decide (i = Z.to_nat b)) as [->|Hib].
    + rewrite list_lookup_insert_eq in Ht by (rewrite length_insert, length_replicate; lia).
      by injection Ht as <-.
    + rewrite list_lookup_insert_ne in Ht by done. destruct (decide (i = Z.to_nat a)) as [->|Hia].
      * rewrite list_lookup_insert_eq in Ht by (rewrite length_replicate; lia). by injection Ht as <-.
      * rewrite list_lookup_insert_ne in Ht by done. apply lookup_replicate in Ht as [-> _]. done.
  - exists (Z.to_nat a), (Z.to_nat b), c1, c2. split; [lia|].
    rewrite list_lookup_insert_ne by lia.
    rewrite !list_lookup_insert_eq by (rewrite ?length_insert, length_replicate; lia).
    split_and!; eauto using slot_ok_not_nil.
Qed.

Lemma mkShort_leaf r t : mkShort (r ++ [16]) t = PShort (r ++ [16]) t.
Proof. by destruct r. Qed.

(** What is left of a canonical short node below nibble [a]. *)
Lemma slot_ok_rest p a ra t :
  wfN (PShort (p ++ a :: ra) t) -> 0 <= a <= 16 /\ slot_ok (Z.to_nat a) (mkShort ra t).
Proof.
  inversion 1 as [q v Hq Hv E|k ts Hk Hn Hf|]; subst.
  - assert (Hkey : vkey (p ++ a :: ra)) by (rewrite <- E; by exists q).
    destruct (vkey_app_inv _ _ Hkey) as [[? _]|[_ Hr]]; [done|].
    pose proof (vkey_idx _ _ Hr) as [_ ?]. split; [done|].
    apply vkey_cons in Hr as [[-> ->]|[Ha (r & Hr & ->)]].
    + right. eauto.
    + left. unfold is_nibble in Ha. split; [lia|]. rewrite mkShort_leaf. by constructor.
  - unfold nibbles in Hn. apply Forall_app in Hn as [_ Hn]. apply Forall_cons in Hn as [Ha Hr].
    unfold is_nibble in Ha. split; [lia|]. left. split; [lia|].
    destruct ra; simpl; [done|]. by constructor.
Qed.

Lemma slot_ok_newleaf b rb v :
  vkey (b :: rb) -> v <> [] -> slot_ok (Z.to_nat b) (mkShort rb (PVal v)).
Proof.
  intros Hk Hv. apply vkey_cons in Hk as [[-> ->]|[Hb (r & Hr & ->)]].
  - right. eauto.
  - left. unfold is_nibble in Hb. split; [lia|]. rewrite mkShort_leaf. by constructor.
Qed.
