(* ===== verification/TrieCorrect.v ===== *)
(** * Correctness of the trie operations

    [get], [insert] and [delete] on a node in memory, partly replaced by hash
    nodes that the database resolves, against the abstract tree it stands for:
    lookups return what the tree holds, updates give a node for the updated
    tree, in canonical form, and the fuel of [Get] and [Update] is enough. *)

From S2P Require Import Prelude TrieEncoding TrieNode TrieTracer Trie TrieHash TrieSpec TrieCanon.

Local Open Scope Z_scope.

(** ** Canonical hex keys *)

Lemma wfN_short_hexkey sk t :
  wfN (PShort sk t) ->
  exists term p, nibbles p /\ sk = hexkey term p /\
    (if term then exists v, v <> [] /\ t = PVal v else exists ts, t = PFull ts /\ wfN t).
Proof.
  inversion 1 as [p v Hp Hv|k ts Hk Hn Hf|]; subst.
  - exists true, p. eauto.
  - exists false, sk. split; [done|]. unfold hexkey. rewrite app_nil_r. eauto.
Qed.

Lemma compact_hexkey term p :
  nibbles p -> HexToCompact (hexkey term p) = Ok (compact (hexkey term p)) /\
               CompactToHex (compact (hexkey term p)) = Ok (hexkey term p).
Proof.
  intros Hp. destruct (compact_roundtrip_aux term p Hp) as (c & E & Ec & _).
  unfold compact. by rewrite E.
Qed.

Section Correct.
Context `{EthLibLaws} `{MPTProtoLaws} (dbGet : bytes -> outcome bytes).

Local Abbreviation repr := (repr dbGet).
Local Abbreviation stored := (stored dbGet).
Local Abbreviation flag_ok := (flag_ok dbGet).

(** ** Loading a stored node *)

Lemma phash_len t : wfN t -> length (phash t) = 32%nat.
Proof. inversion 1; apply Keccak256_len. Qed.

Lemma stored_db t : stored t -> dbGet (phash t) = Ok (pblob t) /\ phash t <> zeroHash.
Proof. by inversion 1. Qed.

Lemma zeroHash_id : BytesToHash zeroHash = zeroHash.
Proof. by apply BytesToHash_id. Qed.

Lemma shortBlob_nonempty k v : shortBlob k v <> [].
Proof. intros E. apply MPTNode_nonempty in E as [E _]. discriminate. Qed.

Lemma fullBlob_nonempty bs : bs <> [] -> fullBlob bs <> [].
Proof. intros Hb E. apply MPTNode_nonempty in E as [_ E]. by apply MPTFullNode_nonempty in E. Qed.

Lemma pblob_nonempty t : wfN t -> pblob t <> [].
Proof.
  inversion 1; subst; [apply shortBlob_nonempty..|].
  apply fullBlob_nonempty. destruct ts; [discriminate|]. simpl. done.
Qed.

Lemma reader_node_stored t path :
  stored t -> wfN t -> reader_node dbGet path (phash t) = Ok (pblob t).
Proof.
  intros Hs Hw. unfold reader_node. destruct (stored_db t Hs) as [-> _].
  destruct (pblob t) eqn:E; [by apply pblob_nonempty in E|done].
Qed.

Lemma fullChildren_spec nodes : forall i cs,
  (i + length nodes <= length cs)%nat ->
  exists cs', fullChildren i nodes cs = Ok cs' /\ length cs' = length cs /\
    (forall j, (j < i)%nat -> cs' !! j = cs !! j) /\
    (forall j v, nodes !! j = Some v ->
       cs' !! (i + j)%nat = if decide (BytesToHash v = zeroHash) then cs !! (i + j)%nat
                            else Some (HashNode v)) /\
    (forall j, (i + length nodes <= j)%nat -> cs' !! j = cs !! j).
Proof.
  induction nodes as [|v nodes IH]; intros i cs Hl; simpl.
  - exists cs. split_and!; done.
  - simpl in Hl. case_decide as Hz.
    + destruct (IH (S i) cs) as (cs' & E & Hlen & Hlo & Hmid & Hhi); [lia|].
      exists cs'. split_and!; [done|done| | |].
      * intros j Hj. apply Hlo. lia.
      * intros [|j] w Hw; simpl in Hw.
        { injection Hw as <-. rewrite decide_True by done. apply Hlo. lia. }
        rewrite Nat.add_succ_r. by apply (Hmid j).
      * intros j Hj. apply Hhi. lia.
    + rewrite (proj2 (Nat.ltb_lt _ _)) by lia.
      destruct (IH (S i) (<[i:=HashNode v]> cs)) as (cs' & E & Hlen & Hlo & Hmid & Hhi);
        [rewrite length_insert; lia|].
      exists cs'. rewrite length_insert in Hlen. split_and!; [done|done| | |].
      * intros j Hj. rewrite Hlo by lia. by rewrite list_lookup_insert_ne by lia.
      * intros [|j] w Hw; simpl in Hw.
        { injection Hw as <-. rewrite decide_False by done. rewrite Nat.add_0_r, Hlo by lia.
          apply list_lookup_insert_eq. lia. }
        rewrite Nat.add_succ_r, <- Nat.add_succ_l. rewrite (Hmid j w Hw).
        by rewrite list_lookup_insert_ne by lia.
      * intros j Hj. rewrite Hhi by lia. by rewrite list_lookup_insert_ne by lia.
Qed.

Lemma clean_flag_ok t : stored t -> flag_ok (mkFlag (Some (phash t)) false) t.
Proof. intros Hs. split; [done|]. by intros _. Qed.

Lemma load_short k t :
  stored (PShort k t) -> wfN (PShort k t) ->
  exists n, DecodeNode (Some (phash (PShort k t))) (pblob (PShort k t)) = Ok n /\
    repr n (PShort k t) /\ (exists v, n = ShortNode k v (mkFlag (Some (phash (PShort k t))) false)).
Proof.
  intros Hs Hw. destruct (wfN_short_hexkey _ _ Hw) as (term & p & Hp & -> & Hterm).
  destruct (compact_hexkey term p Hp) as [_ Ec].
  unfold DecodeNode, pblob, shortBlob. rewrite MPTNode_roundtrip.
  unfold ShortNode_Unmarshal. cbn [Data Type_]. rewrite MPTShortNode_roundtrip. cbn [Key_ Value_].
  rewrite Ec. cbn [mbind outcome_bind]. rewrite HasTerm_hexkey by done.
  change (MPTNODE_TYPE_SHORT =? MPTNODE_TYPE_FULL) with false.
  change (MPTNODE_TYPE_SHORT =? MPTNODE_TYPE_SHORT) with true. cbv iota beta.
  eexists. split; [reflexivity|]. split; [|eauto].
  constructor; [|by apply clean_flag_ok|by destruct term].
  destruct term.
  - destruct Hterm as (v & _ & ->). constructor.
  - destruct Hterm as (ts & -> & _). constructor. by inversion Hs.
Qed.

Lemma kidBytes_lookup absent (ts : list ptree) i t :
  ts !! i = Some t ->
  imap (kidBytes absent) ((fun c => (c, phash c)) <$> ts) !! i = Some (kidBytes absent i (t, phash t)).
Proof. intros Ht. rewrite list_lookup_imap, list_lookup_fmap, Ht. done. Qed.

Lemma load_full ts :
  stored (PFull ts) -> wfN (PFull ts) ->
  exists n, DecodeNode (Some (phash (PFull ts))) (pblob (PFull ts)) = Ok n /\
    repr n (PFull ts) /\ (exists cs, n = FullNode cs (mkFlag (Some (phash (PFull ts))) false)).
Proof.
  intros Hs Hw. pose proof (clean_flag_ok _ Hs) as Hfl.
  inversion Hs as [| |? _ _ Hkids H16]; subst. inversion Hw as [| |? Hlen Hwk _ _]; subst.
  unfold DecodeNode, pblob, fullBlob. rewrite MPTNode_roundtrip.
  unfold FullNode_Unmarshal. cbn [Data Type_]. rewrite MPTFullNode_roundtrip. cbn [Nodes_].
  change (MPTNODE_TYPE_FULL =? MPTNODE_TYPE_FULL) with true. cbv iota.
  destruct (fullChildren_spec (imap (kidBytes zeroHash) ((fun c => (c, phash c)) <$> ts)) 0
              (replicate TOTAL_CHILD_NODE NilNode)) as (cs & E & Hl & _ & Hmid & _).
  { rewrite length_imap, length_fmap, length_replicate, Hlen. done. }
  rewrite E. cbn [mbind outcome_bind]. rewrite length_replicate in Hl.
  eexists. split; [reflexivity|]. split; [|eauto].
  assert (Hkid : forall i c t, cs !! i = Some c -> ts !! i = Some t ->
            repr c t /\ (c = NilNode \/ c = HashNode (phash t))).
  2:{ constructor; [rewrite Hl, Hlen; done|intros; by eapply Hkid|done|].
      intros i c Hc. destruct (lookup_lt_is_Some_2 ts i) as [t Ht];
        [rewrite Hlen; change 17%nat with TOTAL_CHILD_NODE; rewrite <- Hl; by eapply lookup_lt_Some|].
      destruct (Hkid i c t Hc Ht) as [_ [->| ->]]; done. }
  intros i c t Hc Ht. specialize (Hmid i _ (kidBytes_lookup zeroHash ts i t Ht)).
  rewrite Nat.add_0_l, Hc in Hmid. unfold kidBytes in Hmid. cbn [fst snd] in Hmid.
  assert (Hi : (i < 17)%nat) by (apply lookup_lt_Some in Ht; lia).
  destruct (decide (t = PNil)) as [->|Hne].
  - assert (Hz : (if (16 <=? i)%nat then zeroHash else zeroHash) = zeroHash) by (by destruct (16 <=? i)%nat).
    rewrite Hz, zeroHash_id, decide_True, lookup_replicate_2 in Hmid by done.
    injection Hmid as ->. split; [constructor|by left].
  - assert (Hi16 : (i < 16)%nat).
    { destruct (decide (i = 16%nat)) as [->|]; [congruence|lia]. }
    pose proof (Hkids i t Hi16 Ht Hne) as Hst.
    assert (Hb : BytesToHash (phash t) = phash t).
    { apply BytesToHash_id, phash_len. eauto. }
    assert (Hc' : c = HashNode (phash t)).
    { destruct t; [done|..]; rewrite Hb, decide_False in Hmid by (by apply stored_db); congruence. }
    rewrite Hc'. split; [by constructor|by right].
Qed.

Definition isHashNode (n : Node) : bool := match n with HashNode _ => true | _ => false end.

(** Resolving the hash of a stored tree reads its blob and gives a node for
    the tree that is not itself a hash node. *)
Lemma resolve_stored t prefix tr :
  stored t -> wfN t ->
  exists n, resolveAndTrack dbGet (phash t) prefix tr = (Ok n, onRead prefix (pblob t) tr) /\
    repr n t /\ isHashNode n = false /\ nodeHashed n.
Proof.
  intros Hs Hw.
  assert (Hload : exists n, DecodeNode (Some (phash t)) (pblob t) = Ok n /\ repr n t /\
            isHashNode n = false /\ nodeHashed n).
  { destruct t as [| |k t|ts]; [by inversion Hw..| |].
    - destruct (load_short k t Hs Hw) as (n & E & Hr & (v & ->)).
      eexists; split_and!; [exact E|exact Hr|done|done].
    - destruct (load_full ts Hs Hw) as (n & E & Hr & (cs & ->)).
      eexists; split_and!; [exact E|exact Hr|done|done]. }
  destruct Hload as (n & E & Hr & Hh). exists n. split; [|done].
  unfold resolveAndTrack. rewrite BytesToHash_id by (by apply phash_len).
  rewrite reader_node_stored by done. rewrite lift_Ok. cbn. unfold stm_bind, modify, lift. by rewrite E.
Qed.

(** ** get *)

Definition fuel_ok (fuel : nat) (n : Node) (rest : bytes) : Prop :=
  (2 * length rest + (if isHashNode n then 2 else 1) <= fuel)%nat.

Lemma repr_stored_wfN t k : stored t -> wfat t k -> vkey k /\ wfN t.
Proof.
  intros Hs [[_ [->|(v & _ & ->)]]|[Hk [->|Hw]]]; [by inversion Hs..|done].
Qed.

Lemma wfat_short_inv sk t k : wfat (PShort sk t) k -> vkey k /\ wfN (PShort sk t).
Proof. intros [[_ [?|(v & _ & ?)]]|[Hk [?|Hw]]]; done. Qed.

Lemma wfat_full_inv ts k : wfat (PFull ts) k -> vkey k /\ wfN (PFull ts).
Proof. intros [[_ [?|(v & _ & ?)]]|[Hk [?|Hw]]]; done. Qed.

Lemma wfat_val_inv v k : wfat (PVal v) k -> k = [].
Proof. intros [[-> _]|[_ [?|Hw]]]; [done|done|inversion Hw]. Qed.

(** The two tests of the short-node case amount to a prefix test. *)
Lemma short_test (key k : bytes) pos :
  k <> [] ->
  (Z.of_nat (length key) - Z.of_nat pos <? Z.of_nat (length k))
    || negb (bool_decide (k = take (length k) (drop pos key)))
  = negb (bool_decide (k = take (length k) (drop pos key))).
Proof.
  intros Hk. destruct (bool_decide_reflect (k = take (length k) (drop pos key))) as [E|]; [|by rewrite orb_true_r].
  rewrite orb_false_r. apply Z.ltb_ge.
  apply (f_equal length) in E. rewrite length_take, length_drop in E.
  assert (length k <> 0%nat) by (by destruct k). lia.
Qed.

Lemma fuel_child fuel n rest rest' :
  fuel_ok (S fuel) n rest -> (length rest' < length rest)%nat ->
  forall n', fuel_ok fuel n' rest'.
Proof. unfold fuel_ok. intros Hf Hl n'. destruct (isHashNode n), (isHashNode n'); simpl in *; lia. Qed.

Lemma drop_lookup_cons (key : bytes) pos i k' :
  drop pos key = i :: k' -> key !! pos = Some i /\ drop (pos + 1) key = k'.
Proof.
  intros E. split.
  - rewrite <- (Nat.add_0_r pos), <- lookup_drop, E. done.
  - rewrite <- drop_drop, E. done.
Qed.

Lemma get_correct fuel : forall n t key pos tr,
  repr n t -> wfat t (drop pos key) -> fuel_ok fuel n (drop pos key) ->
  exists n' d tr', get dbGet fuel n key pos tr = (Ok (plookup t (drop pos key), n', d), tr') /\
    repr n' t /\ (nodeHashed n -> nodeHashed n').
Proof.
  induction fuel as [|fuel IH]; intros n t key pos tr Hr Hwf Hfuel.
  { unfold fuel_ok in Hfuel. destruct (isHashNode n); lia. }
  destruct Hr as [|v|k n fl t' Hr Hfl Hkh|cs fl ts Hlen Hkids Hfl Hkh|t Hst].
  - do 3 eexists. split; [reflexivity|split; [constructor|done]].
  - apply wfat_val_inv in Hwf as E. rewrite E.
    do 3 eexists. split; [reflexivity|split; [constructor|done]].
  - apply wfat_short_inv in Hwf as [Hk Hw]. cbn [get plookup]. rewrite short_test by (by eapply wfN_short_key_nonempty).
    destruct (decide (k = take (length k) (drop pos key))) as [E|E].
    + rewrite bool_decide_eq_true_2 by done. cbn [negb].
      assert (Erest : drop pos key = k ++ drop (pos + length k) key).
      { rewrite E at 1. rewrite <- drop_drop. by rewrite take_drop. }
      rewrite drop_drop.
      assert (Hk' : wfat t' (drop (pos + length k) key)) by (rewrite Erest in Hk; by eapply wfat_short).
      destruct (IH n t' key (pos + length k)%nat tr Hr Hk') as (n' & d & tr' & Eg & Hr' & Hh').
      { eapply fuel_child; [exact Hfuel|]. rewrite Erest, length_app.
        apply wfN_short_key_nonempty in Hw. destruct k; [done|simpl; lia]. }
      rewrite (stm_bind_Ok _ _ _ _ _ Eg).
      do 3 eexists. split; [reflexivity|]. split; [|by destruct d].
      destruct d; constructor; [done|done| |done..]. unfold kid_hashed in *. destruct (Hash fl); auto.
    + rewrite bool_decide_eq_false_2 by done.
      do 3 eexists. split; [reflexivity|]. split; [by constructor|done].
  - apply wfat_full_inv in Hwf as [Hk Hw].
    destruct (drop pos key) as [|i k'] eqn:Erest; [by apply vkey_not_nil in Hk|].
    destruct (drop_lookup_cons _ _ _ _ Erest) as [Hi Hk'].
    destruct (wfat_full ts i k' Hw Hk) as (t & Ht & Hwt).
    destruct (lookup_lt_is_Some_2 cs (Z.to_nat i)) as [c Hc];
      [rewrite Hlen; by eapply lookup_lt_Some|].
    cbn [get]. rewrite Hi, Hc, plookup_full, Ht.
    rewrite <- Hk' in Hwt |- *.
    destruct (IH c t key (pos + 1)%nat tr (Hkids _ _ _ Hc Ht) Hwt) as (n' & d & tr' & Eg & Hr' & Hh').
    { eapply fuel_child; [exact Hfuel|]. rewrite Hk'. simpl. lia. }
    rewrite (stm_bind_Ok _ _ _ _ _ Eg).
    do 3 eexists. split; [reflexivity|]. split; [|by destruct d]. destruct d; [|by constructor].
    assert (Hset : forall j c', <[Z.to_nat i := n']> cs !! j = Some c' ->
              (j = Z.to_nat i /\ c' = n') \/ cs !! j = Some c').
    { intros j c' [(-> & -> & _)|[_ ?]]%list_lookup_insert_Some; auto. }
    constructor; [by rewrite length_insert| |done|].
    + intros j c' t'' [[-> ->]|Hc']%Hset Ht''; [congruence|eauto].
    + intros j c' [[-> ->]|Hc']%Hset; [|eauto]. specialize (Hkh _ _ Hc).
      unfold kid_hashed in *. destruct (Hash fl); auto.
  - destruct (repr_stored_wfN _ _ Hst Hwf) as [Hk Hw].
    destruct (resolve_stored t (take pos key) tr Hst Hw) as (n & En & Hr & Hh & Hnh).
    cbn [get]. rewrite (stm_bind_Ok _ _ _ _ _ En).
    destruct (IH n t key pos (onRead (take pos key) (pblob t) tr) Hr Hwf) as (n' & d & tr' & Eg & Hr' & Hh').
    { unfold fuel_ok in *. rewrite Hh. cbn [isHashNode] in Hfuel. lia. }
    rewrite (stm_bind_Ok _ _ _ _ _ Eg). do 3 eexists. split; [reflexivity|]. split; [done|auto].
Qed.
End Correct.
