(* ===== verification/TrieInsert.v ===== *)
(** * Correctness of insertion *)

From S2P Require Import Prelude TrieEncoding TrieNode TrieTracer Trie TrieHash TrieSpec TrieCanon.
From S2P Require Import TrieUpdate TrieCorrect.

Local Open Scope Z_scope.

Section Insert.
Context `{EthLibLaws} `{MPTProtoLaws} (dbGet : bytes -> outcome bytes).

Local Abbreviation repr := (repr dbGet).
Local Abbreviation stored := (stored dbGet).

(** Children of a full node, slot by slot. *)
Definition kids_ok (cs : list Node) (ts : list ptree) : Prop :=
  length cs = length ts /\ forall i c t, cs !! i = Some c -> ts !! i = Some t -> repr c t.

Lemma kids_ok_insert cs ts i n t :
  kids_ok cs ts -> repr n t -> kids_ok (<[i := n]> cs) (<[i := t]> ts).
Proof.
  intros [Hl Hk] Hr. split; [by rewrite !length_insert|].
  intros j c u Hc Hu. destruct (decide (i = j)) as [->|Hne].
  - assert (j < length cs)%nat by (apply lookup_lt_Some in Hc; by rewrite length_insert in Hc).
    rewrite list_lookup_insert_eq in Hc by done.
    rewrite list_lookup_insert_eq in Hu by (by rewrite <- Hl). congruence.
  - rewrite list_lookup_insert_ne in Hc by done. rewrite list_lookup_insert_ne in Hu by done. eauto.
Qed.

Lemma kids_ok_empty : kids_ok emptyBranch (replicate 17 PNil).
Proof.
  split; [by rewrite !length_replicate|]. intros i c t Hc Ht.
  apply lookup_replicate in Hc as [-> _], Ht as [-> _]. constructor.
Qed.

Lemma kids_ok_lookup cs ts i t :
  kids_ok cs ts -> ts !! i = Some t -> exists c, cs !! i = Some c /\ repr c t.
Proof.
  intros [Hl Hk] Ht. destruct (lookup_lt_is_Some_2 cs i) as [c Hc]; [rewrite Hl; by eapply lookup_lt_Some|].
  eauto.
Qed.

Lemma repr_new_full cs ts : kids_ok cs ts -> repr (FullNode cs NewFlag) (PFull ts).
Proof. intros [Hl Hk]. by constructor. Qed.

Lemma repr_new_short k n t : repr n t -> repr (ShortNode k n NewFlag) (PShort k t).
Proof. intros Hr. by constructor. Qed.

#[local] Hint Resolve repr_new_full repr_new_short kids_ok_insert : go.

(** Inserting below a nil node: the value itself, or a new short node. *)
Definition mkShortNode (k : bytes) (n : Node) : Node :=
  match k with [] => n | _ => ShortNode k n NewFlag end.

Lemma insert_NilNode fuel prefix k value tr :
  exists tr', insert dbGet (S fuel) NilNode prefix k value tr = (Ok (true, mkShortNode k value), tr').
Proof. destruct k; eexists; reflexivity. Qed.

Lemma repr_mkShortNode k n t : repr n t -> repr (mkShortNode k n) (mkShort k t).
Proof. destruct k; simpl; auto with go. Qed.

Lemma setChild_Ok i n cs :
  0 <= i <= 16 -> length cs = 17%nat -> setChild i n cs = Ok (<[Z.to_nat i := n]> cs).
Proof. intros Hi Hl. unfold setChild. by rewrite (proj2 (Nat.ltb_lt _ _)) by lia. Qed.

(** What an insertion of [v] at [key] promises about its result. *)
Definition insert_post (t : ptree) (key v : bytes) (d : bool) (n' : Node) : Prop :=
  exists t', repr n' t' /\ (d = false -> t' = t) /\ t' <> PNil /\ wfat t' key /\
    updat t t' key (Some v) /\ (forall ts, t = PFull ts -> exists ts', t' = PFull ts').

(** The branch that the code builds where two keys part, under their common
    prefix [p]. *)
Lemma insert_split_post p a ra b rb nval t v n' :
  wfN (PShort (p ++ a :: ra) t) -> a <> b -> vkey (p ++ b :: rb) -> v <> [] ->
  repr nval t ->
  (repr (FullNode (<[Z.to_nat b := mkShortNode rb (ValueNode v)]>
                     (<[Z.to_nat a := mkShortNode ra nval]> emptyBranch)) NewFlag)
        (PFull (branch a (mkShort ra t) b (mkShort rb (PVal v)))) ->
   repr n' (mkShort p (PFull (branch a (mkShort ra t) b (mkShort rb (PVal v)))))) ->
  insert_post (PShort (p ++ a :: ra) t) (p ++ b :: rb) v true n'.
Proof.
  intros Hw Hab Hk Hv Hr Hn'.
  destruct (slot_ok_rest p a ra t Hw) as [Ha Hs1].
  destruct (vkey_app_inv _ _ Hk) as [[? _]|[Hp Hkb]]; [done|].
  pose proof (vkey_idx _ _ Hkb) as [_ Hb].
  pose proof (branch_wf a _ b _ Ha Hb Hab Hs1 (slot_ok_newleaf b rb v Hkb Hv)) as Hwb.
  eexists. split_and!; [apply Hn'|done| | | |done].
  - apply repr_new_full, kids_ok_insert; [|apply repr_mkShortNode; constructor].
    apply kids_ok_insert; [apply kids_ok_empty|by apply repr_mkShortNode].
  - by destruct p.
  - right. split; [done|]. right. destruct p; [done|]. by constructor.
  - right. split; [done|]. intros k Hkk. rewrite plookup_mkShort, plookup_short_split.
    apply updat_short; [done| |done]. right. split; [done|]. by apply branch_upd.
Qed.

Lemma drop_S_middle {A} (p : list A) a r : drop (S (length p)) (p ++ a :: r) = r.
Proof.
  rewrite (cons_middle a p r), app_assoc.
  by rewrite drop_app_length' by (rewrite length_app; simpl; lia).
Qed.

(** The short node is split at the nibble where the keys part. *)
Lemma insert_split fuel p a ra b rb nval t fl prefix v tr :
  wfN (PShort (p ++ a :: ra) t) -> repr nval t -> a <> b -> vkey (p ++ b :: rb) -> v <> [] ->
  exists n' tr',
    insert dbGet (S (S fuel)) (ShortNode (p ++ a :: ra) nval fl) prefix (p ++ b :: rb) (ValueNode v) tr
      = (Ok (true, n'), tr') /\
    insert_post (PShort (p ++ a :: ra) t) (p ++ b :: rb) v true n'.
Proof.
  intros Hw Hr Hab Hk Hv.
  destruct (slot_ok_rest p a ra t Hw) as [Ha _].
  destruct (vkey_app_inv _ _ Hk) as [[? _]|[_ Hkb]]; [done|].
  pose proof (vkey_idx _ _ Hkb) as [_ Hb].
  assert (Hm : PrefixLen (p ++ b :: rb) (p ++ a :: ra) = length p).
  { rewrite PrefixLen_app. simpl. rewrite (proj2 (Z.eqb_neq _ _)) by congruence. lia. }
  destruct (insert_NilNode fuel (prefix ++ take (S (length p)) (p ++ a :: ra)) ra nval tr) as (tr1 & E1).
  destruct (insert_NilNode fuel (prefix ++ take (S (length p)) (p ++ b :: rb)) rb (ValueNode v) tr1) as (tr2 & E2).
  remember (S fuel) as f1 eqn:Ef. cbn [insert].
  destruct (p ++ b :: rb) as [|k0 krest] eqn:Ekey; [by destruct p|].
  rewrite Hm, (proj2 (Nat.eqb_neq _ _)) by (rewrite length_app; simpl; lia).
  rewrite <- Ekey, !list_lookup_middle, !drop_S_middle by done. rewrite <- Ekey in E2. subst f1.
  rewrite (stm_bind_Ok _ _ _ _ _ E1), setChild_Ok, lift_Ok by done.
  rewrite (stm_bind_Ok _ _ _ _ _ E2), setChild_Ok, lift_Ok by (done || by rewrite length_insert).
  rewrite <- Ekey in Hk.
  destruct p as [|p0 p]; cbn [length Nat.eqb]; do 2 eexists; (split; [reflexivity|]);
    eapply insert_split_post; eauto.
  change (S (length p)) with (length (p0 :: p)). rewrite take_app_length. apply repr_new_short.
Qed.

(** Insertion at the end of the key. *)
Lemma insert_end fuel n t prefix v tr :
  repr n t -> wfat t [] -> v <> [] -> isHashNode n = false ->
  exists d n' tr', insert dbGet (S fuel) n prefix [] (ValueNode v) tr = (Ok (d, n'), tr') /\
    insert_post t [] v d n'.
Proof.
  intros Hr Hwf Hv Hh.
  assert (Hpost : insert_post t [] v true (ValueNode v)).
  { exists (PVal v). split_and!; [constructor|done|done|left; eauto|by left|].
    destruct Hwf as [[_ [->|(w & Hw & ->)]]|[Hk _]]; [done|done|by apply vkey_not_nil in Hk]. }
  destruct Hwf as [[_ [->|(w & Hw & ->)]]|[Hk _]]; [| |by apply vkey_not_nil in Hk].
  - inversion Hr; subst; [|done]. do 3 eexists. split; [reflexivity|done].
  - inversion Hr; subst; [|done]. simpl. do 3 eexists. split; [reflexivity|].
    destruct (bool_decide_reflect (w = v)) as [->|]; [|done].
    exists (PVal v). split_and!; [constructor|done|done|left; eauto|by left|done].
Qed.

Lemma repr_hash_stored h t : repr (HashNode h) t -> h = phash t /\ stored t.
Proof. by inversion 1. Qed.

(** The induction hypothesis of the correctness proof, at a given fuel. *)
Definition insert_ok (fuel : nat) : Prop := forall n t prefix key v tr,
  repr n t -> wfat t key -> v <> [] -> fuel_ok fuel n key ->
  exists d n' tr', insert dbGet fuel n prefix key (ValueNode v) tr = (Ok (d, n'), tr') /\
    insert_post t key v d n'.

Lemma insert_nil_case fuel prefix key v tr :
  vkey key -> v <> [] ->
  exists d n' tr', insert dbGet (S fuel) NilNode prefix key (ValueNode v) tr = (Ok (d, n'), tr') /\
    insert_post PNil key v d n'.
Proof.
  intros Hk Hv. destruct (insert_NilNode fuel prefix key (ValueNode v) tr) as (tr' & E).
  do 3 eexists. split; [exact E|].
  assert (Hne : key <> []) by (intros ->; by apply vkey_not_nil in Hk).
  exists (PShort key (PVal v)). split_and!; [|done|done| | |done].
  - destruct key; [done|]. apply repr_new_short. constructor.
  - right. split; [done|]. right. destruct Hk as (p & Hp & ->). by constructor.
  - right. split; [done|]. intros k Hkk. case_decide as Ek.
    + subst k. rewrite <- (app_nil_r key) at 2. by rewrite plookup_short_app.
    + destruct (plookup _ k) eqn:El; [|done].
      apply plookup_short_Some in El as (x & -> & Hx). destruct x; [|done]. by rewrite app_nil_r in Ek.
Qed.

Lemma wfN_short_replace p t t' kr :
  wfN (PShort p t) -> vkey (p ++ kr) -> t' <> PNil -> wfat t' kr ->
  (forall ts, t = PFull ts -> exists ts', t' = PFull ts') -> wfN (PShort p t').
Proof.
  intros Hw Hk Hne Hwf Hfull. inversion Hw as [q v Hq Hv|k ts Hp Hn Hf|]; subst.
  - apply vkey_app_term in Hk as ->; [|done].
    destruct Hwf as [[_ [?|(w & Hw' & ->)]]|[Hk _]]; [done|by constructor|by apply vkey_not_nil in Hk].
  - destruct (Hfull ts eq_refl) as (ts' & ->).
    apply wfat_full_inv in Hwf as [_ Hwf]. by constructor.
Qed.

Lemma vkey_not_prefix p a ra t : vkey p -> wfN (PShort (p ++ a :: ra) t) -> False.
Proof.
  intros Hp Hw. destruct (wfN_short_hexkey _ _ Hw) as ([] & q & Hq & E & _); unfold hexkey in E.
  - assert (Hk : vkey (p ++ a :: ra)) by (exists q; done). by apply vkey_app_self in Hk.
  - rewrite app_nil_r in E. rewrite <- E in Hq. destruct Hp as (x & _ & ->).
    unfold nibbles in Hq. rewrite !Forall_app in Hq. destruct Hq as [[_ Hq] _].
    apply Forall_cons in Hq as [Hq _]. unfold is_nibble in Hq. lia.
Qed.

(** The whole key of the short node matches. *)
Lemma insert_match_case fuel p nval t fl prefix kr v tr :
  insert_ok fuel -> wfN (PShort p t) -> repr nval t -> flag_ok dbGet fl (PShort p t) ->
  kid_hashed fl nval ->
  vkey (p ++ kr) -> v <> [] -> fuel_ok (S fuel) (ShortNode p nval fl) (p ++ kr) ->
  exists d n' tr',
    insert dbGet (S fuel) (ShortNode p nval fl) prefix (p ++ kr) (ValueNode v) tr = (Ok (d, n'), tr') /\
    insert_post (PShort p t) (p ++ kr) v d n'.
Proof.
  intros IH Hw Hr Hfl Hkh Hk Hv Hfuel.
  pose proof (wfN_short_key_nonempty _ _ Hw) as Hne.
  destruct (IH nval t (prefix ++ take (length p) (p ++ kr)) kr v tr Hr)
    as (d & n' & tr' & Ei & t' & Hr' & Hd' & Hne' & Hwf' & Hu & Hfull);
    [by eapply wfat_short|done| |].
  { eapply fuel_child; [exact Hfuel|]. rewrite length_app. destruct p; [done|simpl; lia]. }
  assert (Hup : updat (PShort p t) (PShort p t') (p ++ kr) (Some v)).
  { right. split; [done|]. by apply updat_short. }
  assert (Hwf2 : wfat (PShort p t') (p ++ kr)).
  { right. split; [done|]. right. by eapply wfN_short_replace. }
  cbn [insert]. destruct (p ++ kr) as [|k0 krest] eqn:Ek; [by destruct p|].
  rewrite <- Ek in Ei |- *. rewrite PrefixLen_prefix, Nat.eqb_refl, drop_app_length.
  rewrite (stm_bind_Ok _ _ _ _ _ Ei). destruct d; cbn [negb]; do 3 eexists; (split; [reflexivity|]).
  - rewrite Ek. exists (PShort p t'). split_and!; try done. by apply repr_new_short.
  - rewrite Ek. rewrite (Hd' eq_refl) in *. exists (PShort p t). split_and!; try done. by constructor.
Qed.

Lemma insert_short_case fuel nk nval t fl prefix key v tr :
  insert_ok fuel -> wfN (PShort nk t) -> repr nval t -> flag_ok dbGet fl (PShort nk t) ->
  kid_hashed fl nval ->
  vkey key -> v <> [] -> fuel_ok (S fuel) (ShortNode nk nval fl) key ->
  exists d n' tr',
    insert dbGet (S fuel) (ShortNode nk nval fl) prefix key (ValueNode v) tr = (Ok (d, n'), tr') /\
    insert_post (PShort nk t) key v d n'.
Proof.
  intros IH Hw Hr Hfl Hkh Hk Hv Hfuel.
  destruct (PrefixLen_split key nk) as (p & kr & nr & -> & -> & _ & Hd).
  destruct nr as [|a ra].
  { rewrite app_nil_r in *. by apply insert_match_case. }
  destruct kr as [|b rb].
  { exfalso. rewrite app_nil_r in Hk. by eapply vkey_not_prefix. }
  destruct fuel as [|fuel].
  { exfalso. unfold fuel_ok in Hfuel. rewrite length_app in Hfuel. simpl in Hfuel. lia. }
  destruct (insert_split fuel p a ra b rb nval t fl prefix v tr) as (n' & tr' & E & Hpost);
    [done|done|congruence|done|done|]. eauto.
Qed.

Lemma insert_full_case fuel cs ts fl prefix k0 krest v tr :
  insert_ok fuel -> wfN (PFull ts) -> kids_ok cs ts -> flag_ok dbGet fl (PFull ts) ->
  (forall i c, cs !! i = Some c -> kid_hashed fl c) ->
  vkey (k0 :: krest) -> v <> [] -> fuel_ok (S fuel) (FullNode cs fl) (k0 :: krest) ->
  exists d n' tr',
    insert dbGet (S fuel) (FullNode cs fl) prefix (k0 :: krest) (ValueNode v) tr = (Ok (d, n'), tr') /\
    insert_post (PFull ts) (k0 :: krest) v d n'.
Proof.
  intros IH Hw Hkids Hfl Hkh Hk Hv Hfuel.
  destruct (wfat_full ts k0 krest Hw Hk) as (t & Ht & Hwt).
  destruct (kids_ok_lookup _ _ _ _ Hkids Ht) as (c & Hc & Hr).
  destruct (IH c t (prefix ++ [k0]) krest v tr Hr Hwt Hv)
    as (d & n' & tr' & Ei & t' & Hr' & Hd' & Hne' & Hwf' & Hu & _).
  { eapply fuel_child; [exact Hfuel|]. simpl. lia. }
  assert (Hup : updat (PFull ts) (PFull (<[Z.to_nat k0 := t']> ts)) (k0 :: krest) (Some v)).
  { right. split; [done|]. by eapply updat_full. }
  assert (Hwf2 : wfat (PFull (<[Z.to_nat k0 := t']> ts)) (k0 :: krest)).
  { right. split; [done|]. right. apply wf_full_set; [done|by eapply vkey_idx|by eapply slot_ok_wfat]. }
  cbn [insert]. rewrite Hc, (stm_bind_Ok _ _ _ _ _ Ei).
  destruct d; cbn [negb]; do 3 eexists; (split; [reflexivity|]).
  - eexists. split_and!; [by apply repr_new_full, kids_ok_insert|done|done|done|done|eauto].
  - rewrite (Hd' eq_refl), list_insert_id in * by done.
    exists (PFull ts). destruct Hkids. split_and!; eauto. by constructor.
Qed.

(** Inserting [v] at the rest [key] of a complete key: the fuel suffices, no
    step panics or fails, and the result stands for a canonical tree that
    holds [v] at [key] and is otherwise unchanged. *)
Lemma insert_correct fuel : insert_ok fuel.
Proof.
  induction fuel as [|fuel IH]; intros n t prefix key v tr Hr Hwf Hv Hfuel.
  { unfold fuel_ok in Hfuel. destruct (isHashNode n); lia. }
  destruct key as [|k0 krest].
  { apply insert_end; try done. destruct n; try done.
    apply repr_hash_stored in Hr as [_ Hs].
    destruct (repr_stored_wfN _ _ _ Hs Hwf) as [Hk _]. by apply vkey_not_nil in Hk. }
  assert (Hk : vkey (k0 :: krest)) by (by destruct Hwf as [[? _]|[? _]]).
  destruct Hr as [|w|nk nval fl t0 Hr Hfl Hkh|cs fl ts Hlen Hkids Hfl Hkh|t Hst].
  - by apply insert_nil_case.
  - apply wfat_val_inv in Hwf. done.
  - apply wfat_short_inv in Hwf as [_ Hw]. by apply insert_short_case.
  - apply wfat_full_inv in Hwf as [_ Hw]. by apply insert_full_case.
  - destruct (repr_stored_wfN _ _ _ Hst Hwf) as [_ Hw].
    destruct (resolve_stored dbGet t prefix tr Hst Hw) as (rn & En & Hr & Hh & _).
    destruct (IH rn t prefix (k0 :: krest) v (onRead prefix (pblob t) tr) Hr Hwf Hv)
      as (d & n' & tr' & Ei & Hpost).
    { unfold fuel_ok in *. rewrite Hh. cbn [isHashNode] in Hfuel. lia. }
    cbn [insert]. rewrite En, (stm_bind_Ok _ _ _ _ _ Ei).
    destruct d; do 3 eexists; (split; [reflexivity|]); [done|].
    destruct Hpost as (t' & Hr' & Hd' & Hrest). rewrite (Hd' eq_refl) in *. exists t. done.
Qed.
End Insert.
