(* ===== verification/TrieDelete.v ===== *)
(** * Correctness of deletion *)

From S2P Require Import Prelude TrieEncoding TrieNode TrieTracer Trie TrieHash TrieSpec TrieCanon.
From S2P Require Import TrieUpdate TrieCorrect TrieInsert.

Local Open Scope Z_scope.

(** ** The reduction loop *)

Lemma remainingPos_found cs : forall i pos, 0 <= pos -> 0 <= i ->
  (remainingPos i pos cs = pos /\ Forall (fun c => isNil c = true) cs) \/
  (remainingPos i pos cs = -2 /\ exists j c, cs !! j = Some c /\ isNil c = false).
Proof.
  induction cs as [|c cs IH]; intros i pos Hp Hi; simpl; [left; split; [done|constructor]|].
  destruct (isNil c) eqn:E.
  - destruct (IH (i + 1) pos Hp ltac:(lia)) as [[? ?]|[? (j & c' & ? & ?)]].
    + left. split; [done|by constructor].
    + right. split; [done|]. exists (S j), c'. done.
  - right. rewrite (proj2 (Z.eqb_neq pos (-1))) by lia. split; [done|]. exists 0%nat, c. done.
Qed.

(** The loop returns the index of the only non-nil child, -1 if there is none
    and -2 if there are two or more. *)
Lemma remainingPos_spec cs : forall i, 0 <= i ->
  (remainingPos i (-1) cs = -1 /\ Forall (fun c => isNil c = true) cs) \/
  (exists j c, remainingPos i (-1) cs = i + Z.of_nat j /\ cs !! j = Some c /\ isNil c = false /\
     forall j' c', j' <> j -> cs !! j' = Some c' -> isNil c' = true) \/
  (remainingPos i (-1) cs = -2 /\
     exists j c j' c', j <> j' /\ cs !! j = Some c /\ cs !! j' = Some c' /\
       isNil c = false /\ isNil c' = false).
Proof.
  induction cs as [|c cs IH]; intros i Hi; simpl; [left; split; [done|constructor]|].
  destruct (isNil c) eqn:E.
  - destruct (IH (i + 1) ltac:(lia)) as [[? ?]|[(j & c' & Hj & Hc & Hn & Ho)|(? & j & c1 & j' & c2 & ? & ? & ? & ? & ?)]].
    + left. split; [done|by constructor].
    + right. left. exists (S j), c'. split_and!; [lia|done|done|].
      intros [|j'] c2 Hne Hc2; simpl in Hc2; [congruence|]. eapply (Ho j'); [lia|done].
    + right. right. split; [done|]. exists (S j), c1, (S j'), c2. split_and!; [lia|done..].
  - simpl. destruct (remainingPos_found cs (i + 1) i Hi ltac:(lia)) as [[-> Ha]|[-> (j & c' & Hj & Hn)]].
    + right. left. exists 0%nat, c. split_and!; [lia|done|done|].
      intros [|j'] c2 Hne Hc2; [done|]. simpl in Hc2. rewrite Forall_forall in Ha.
      apply Ha. apply list_elem_of_lookup. eauto.
    + right. right. split; [done|]. exists 0%nat, c, (S j), c'. split_and!; [lia|done..].
Qed.

(** ** A full node with one child left *)

Lemma single_child_keys ts j t :
  (j < 17)%nat -> ts !! j = Some t -> (forall j' t', j' <> j -> ts !! j' = Some t' -> t' = PNil) ->
  same_keys (PFull ts) (PShort [Z.of_nat j] t).
Proof.
  intros Hj Ht Ho k Hk. destruct k as [|i k]; [by apply vkey_not_nil in Hk|].
  pose proof (vkey_idx _ _ Hk) as [_ Hi]. rewrite plookup_full.
  destruct (decide (i = Z.of_nat j)) as [->|Hne].
  - rewrite Nat2Z.id, Ht. symmetry. exact (plookup_short_app [Z.of_nat j] t k).
  - rewrite plookup_short_cons_ne by congruence.
    destruct (ts !! Z.to_nat i) as [t'|] eqn:E; [|done].
    rewrite (Ho (Z.to_nat i) t') by (done || lia). done.
Qed.

Lemma same_keys_short_cons j ck t : same_keys (PShort [j] (PShort ck t)) (PShort (j :: ck) t).
Proof. intros k _. symmetry. exact (plookup_short_split [j] ck t k). Qed.

Lemma wfN_short_cons j ck t : is_nibble j -> wfN (PShort ck t) -> wfN (PShort (j :: ck) t).
Proof.
  intros Hj Hw. inversion Hw as [p v Hp Hv|k ts Hk Hn Hf|]; subst.
  - apply (wf_leaf (j :: p)); [by constructor|done].
  - constructor; [done|by constructor|done].
Qed.

Lemma wfN_short_merge nk ck t :
  nk <> [] -> nibbles nk -> wfN (PShort ck t) -> wfN (PShort (nk ++ ck) t).
Proof.
  intros _ Hn Hw. induction Hn as [|x nk Hx Hn IH]; simpl; [done|]. by apply wfN_short_cons.
Qed.

Lemma upd_spec_same t t1 t2 key o : upd_spec t t1 key o -> same_keys t1 t2 -> upd_spec t t2 key o.
Proof. intros Hu Hs k Hk. rewrite <- Hs by done. by apply Hu. Qed.

Section Delete.
Context `{EthLibLaws} `{MPTProtoLaws} (dbGet : bytes -> outcome bytes).

Local Abbreviation repr := (repr dbGet).
Local Abbreviation stored := (stored dbGet).
Local Abbreviation kids_ok := (kids_ok dbGet).

Lemma repr_isNil n t : repr n t -> isNil n = true <-> t = PNil.
Proof. intros Hr. destruct Hr as [| | | |t Hs]; try (by split). split; [done|intros ->; inversion Hs]. Qed.

Lemma repr_not_nil n t : repr n t -> isNil n = false -> t <> PNil.
Proof. intros Hr Hn E. apply (repr_isNil n t Hr) in E. congruence. Qed.

Definition delete_post (t : ptree) (key : bytes) (d : bool) (n' : Node) : Prop :=
  exists t', repr n' t' /\ (d = false -> t' = t) /\ (d = true -> isHashNode n' = false) /\
    wfat t' key /\ updat t t' key None /\ (forall ts, t = PFull ts -> wfN t').

Definition delete_ok (fuel : nat) : Prop := forall n t prefix key tr,
  repr n t -> wfat t key -> fuel_ok fuel n key ->
  exists d n' tr', delete dbGet fuel n prefix key tr = (Ok (d, n'), tr') /\ delete_post t key d n'.

(** Nothing to delete: the tree has no entry at [key]. *)
Lemma updat_absent t key : vkey key -> plookup t key = None -> updat t t key None.
Proof. intros Hk Hl. right. split; [done|]. intros k _. case_decide; [by subst|done]. Qed.

(** The key leaves the short node before its end. *)
Lemma delete_mismatch_post p a ra t key kr n :
  wfN (PShort (p ++ a :: ra) t) -> vkey key -> key = p ++ kr ->
  match kr, a :: ra with x :: _, y :: _ => x <> y | _, _ => True end ->
  repr n (PShort (p ++ a :: ra) t) -> delete_post (PShort (p ++ a :: ra) t) key false n.
Proof.
  intros Hw Hk -> Hd Hr.
  exists (PShort (p ++ a :: ra) t). split_and!; [done|done|done|right; split; [done|by right]| |done].
  apply updat_absent; [done|]. apply plookup_short_mismatch. intros k' E.
  rewrite <- app_assoc in E. apply app_inv_head in E. subst kr. simpl in Hd. done.
Qed.

(** The key is the whole key of a leaf. *)
Lemma delete_leaf_post key t : vkey key -> delete_post (PShort key t) key true NilNode.
Proof.
  intros Hk. exists PNil. split_and!; [constructor|done|done| | |done].
  - right. split; [done|by left].
  - right. split; [done|]. intros k Hkk. case_decide as E; [done|].
    rewrite plookup_short_mismatch; [done|]. intros k' ->.
    apply vkey_app_self in Hkk as ->; [|done]. by rewrite app_nil_r in E.
Qed.

(** Putting the extension back on top of what is left of its child. *)
Lemma delete_ext_post p ts k n' :
  nibbles p -> p <> [] -> vkey (p ++ k) ->
  delete_post (PFull ts) k true n' ->
  delete_post (PShort p (PFull ts)) (p ++ k) true
    (match n' with
     | ShortNode ck cval _ => ShortNode (p ++ ck) cval NewFlag
     | _ => ShortNode p n' NewFlag
     end).
Proof.
  intros Hn Hne Hk (t' & Hr' & _ & Hh & Hwf' & Hu & Hfull).
  specialize (Hfull ts eq_refl). specialize (Hh eq_refl).
  pose proof (updat_short p _ _ _ _ Hk Hu) as Hup.
  inversion Hr' as [|v|ck cval fl' tc Hrc Hfl' Hkh|cs fl' ts' Hl Hkids Hfl' Hkh|u Hst]; subst;
    [by inversion Hfull..| | |done].
  - exists (PShort (p ++ ck) tc).
    split_and!; [by apply repr_new_short|done|done| | |done].
    + right. split; [done|]. right. by apply wfN_short_merge.
    + right. split; [done|]. eapply upd_spec_same; [exact Hup|].
      intros k' _. symmetry. apply plookup_short_split.
  - exists (PShort p (PFull ts')). split_and!; [by apply repr_new_short|done|done| |by right|done].
    right. split; [done|]. right. by constructor.
Qed.

Lemma delete_short_case fuel nk nval t fl prefix key tr :
  delete_ok fuel -> wfN (PShort nk t) -> repr nval t -> flag_ok dbGet fl (PShort nk t) ->
  kid_hashed fl nval -> vkey key -> fuel_ok (S fuel) (ShortNode nk nval fl) key ->
  exists d n' tr', delete dbGet (S fuel) (ShortNode nk nval fl) prefix key tr = (Ok (d, n'), tr') /\
    delete_post (PShort nk t) key d n'.
Proof.
  intros IH Hw Hr Hfl Hkh Hk Hfuel. pose proof (wfN_short_key_nonempty _ _ Hw) as Hne.
  assert (Hkeep : repr (ShortNode nk nval fl) (PShort nk t)) by (by constructor).
  destruct (PrefixLen_split key nk) as (p & kr & nr & -> & -> & Hm & Hd).
  cbn [delete]. rewrite Hm. destruct nr as [|a ra].
  2:{ rewrite (proj2 (Nat.ltb_lt _ _)) by (rewrite length_app; simpl; lia).
      do 3 eexists. split; [reflexivity|]. by eapply delete_mismatch_post. }
  rewrite app_nil_r in *. rewrite Nat.ltb_irrefl, length_app.
  destruct kr as [|k1 kr].
  { rewrite app_nil_r in *. rewrite Nat.add_0_r, Nat.eqb_refl.
    do 3 eexists. split; [reflexivity|]. by apply delete_leaf_post. }
  rewrite (proj2 (Nat.eqb_neq _ _)) by (simpl; lia).
  pose proof (wfat_short _ _ _ Hw Hk) as Hwt.
  inversion Hw as [q v Hq Hv|? ts _ Hn Hf|]; subst; [by apply vkey_app_term in Hk|].
  destruct (IH nval (PFull ts) (prefix ++ take (length p) (p ++ k1 :: kr)) (k1 :: kr) tr Hr Hwt)
    as (d & n' & tr' & Ei & Hpost).
  { eapply fuel_child; [exact Hfuel|]. rewrite length_app. destruct p; [done|simpl; lia]. }
  rewrite drop_app_length, (stm_bind_Ok _ _ _ _ _ Ei). destruct d; cbn [negb].
  - apply (delete_ext_post p) in Hpost; [|done..].
    destruct n'; do 3 eexists; (split; [reflexivity|exact Hpost]).
  - destruct Hpost as (t' & _ & Hd' & _ & _ & Hu & _). rewrite (Hd' eq_refl) in *.
    do 3 eexists. split; [reflexivity|]. exists (PShort p (PFull ts)).
    split_and!; [done|done|done|right; split; [done|by right]| |done].
    right. split; [done|]. by apply updat_short.
Qed.

(** *** Full nodes *)

(** One child is left, at [j]: the node that replaces the full node. *)
Lemma reduce_post ts ts' key j t n' t' :
  vkey key -> upd_spec (PFull ts) (PFull ts') key None ->
  (j < 17)%nat -> ts' !! j = Some t ->
  (forall i u, i <> j -> ts' !! i = Some u -> u = PNil) ->
  same_keys (PShort [Z.of_nat j] t) t' -> wfN t' -> repr n' t' -> isHashNode n' = false ->
  delete_post (PFull ts) key true n'.
Proof.
  intros Hk Hu Hj Ht Ho Hs Hw Hr Hh. exists t'. split_and!; [done|done|done| | |done].
  - right. split; [done|by right].
  - right. split; [done|]. eapply upd_spec_same; [exact Hu|].
    etransitivity; [by apply (single_child_keys ts' j t)|done].
Qed.

Lemma resolve_repr n t prefix tr :
  repr n t -> wfN t ->
  exists n' tr', resolve dbGet n prefix tr = (Ok n', tr') /\ repr n' t /\ isHashNode n' = false.
Proof.
  intros Hr Hw. destruct Hr as [|v|k m fl t Hr Hfl Hkh|cs fl ts Hl Hkids Hfl Hkh|t Hst].
  1-4: do 2 eexists; (split; [reflexivity|]); (split; [by constructor|done]).
  destruct (resolve_stored dbGet t prefix tr Hst Hw) as (n & En & Hr & Hh & _).
  simpl. rewrite En. eauto.
Qed.

Lemma kids_isNil cs ts i c t :
  kids_ok cs ts -> cs !! i = Some c -> ts !! i = Some t -> (isNil c = true <-> t = PNil).
Proof. intros [_ Hk] Hc Ht. eapply repr_isNil; eauto. Qed.

Lemma wfN_removed_two ts i :
  wfN (PFull ts) -> exists j t, j <> i /\ (j < 17)%nat /\ ts !! j = Some t /\ t <> PNil.
Proof.
  inversion 1 as [| |? Hlen _ _ (a & b & ta & tb & Hab & Ha & Hb & Hna & Hnb)]; subst.
  pose proof (lookup_lt_Some _ _ _ Ha). pose proof (lookup_lt_Some _ _ _ Hb).
  destruct (decide (a = i)); [exists b, tb|exists a, ta]; (split_and!; [lia..|done|done]).
Qed.

(** The kids left after slot [i] was emptied. *)
Lemma removed_slot ts i j t :
  wfN (PFull ts) -> (i < 17)%nat -> <[i := PNil]> ts !! j = Some t -> t <> PNil ->
  j <> i /\ slot_ok j t.
Proof.
  intros Hw Hi Ht Hne. assert (Hlen : length ts = 17%nat) by (by inversion Hw).
  destruct (decide (i = j)) as [->|Hij].
  - rewrite list_lookup_insert_eq in Ht by lia. congruence.
  - rewrite list_lookup_insert_ne in Ht by done. split; [done|]. by eapply slot_ok_kid.
Qed.

(** [reduceFull] with exactly one child [c], standing for [t], left at [j]. *)
Lemma reduce_single ts ts' cs key j c t prefix tr :
  remainingPos 0 (-1) cs = Z.of_nat j -> cs !! j = Some c -> ts' !! j = Some t ->
  (forall i u, i <> j -> ts' !! i = Some u -> u = PNil) ->
  repr c t -> slot_ok j t -> vkey key -> upd_spec (PFull ts) (PFull ts') key None ->
  exists n' tr', reduceFull dbGet prefix cs tr = (Ok (true, n'), tr') /\
    delete_post (PFull ts) key true n'.
Proof.
  intros Hpos Hc Ht Ho Hr Hslot Hk Hu. unfold reduceFull. rewrite Hpos.
  replace (Z.of_nat j >=? 0) with true by (symmetry; rewrite Z.geb_leb; apply Z.leb_le; lia).
  rewrite Nat2Z.id, Hc.
  destruct Hslot as [[Hj Hw]|[-> (v & Hv & ->)]].
  - rewrite (proj2 (Z.eqb_neq (Z.of_nat j) 16)) by lia. cbn [negb].
    assert (Hjn : is_nibble (Z.of_nat j)) by (unfold is_nibble; lia).
    destruct (resolve_repr c t (prefix ++ [Z.of_nat j]) tr Hr Hw) as (cn & tr1 & En & Hrn & Hh).
    rewrite (stm_bind_Ok _ _ _ _ _ En).
    inversion Hrn as [|v|ck cval fl' tc Hrc Hfl' Hkh|cs2 fl' ts2 Hl Hkids Hfl' Hkh|u Hst]; subst;
      [by inversion Hw..| | |done]; do 2 eexists; (split; [reflexivity|]).
    + apply (reduce_post ts ts' key j _ _ (PShort (Z.of_nat j :: ck) tc) Hk Hu ltac:(lia) Ht Ho);
        [apply same_keys_short_cons|by apply wfN_short_cons|by apply repr_new_short|done].
    + apply (reduce_post ts ts' key j _ _ (PShort [Z.of_nat j] (PFull ts2)) Hk Hu ltac:(lia) Ht Ho);
        [reflexivity| |by apply repr_new_short|done].
      constructor; [done|by constructor|done].
  - change (Z.of_nat 16 =? 16) with true. cbn [negb].
    do 2 eexists. split; [reflexivity|].
    apply (reduce_post ts ts' key 16 _ _ (PShort [16] (PVal v)) Hk Hu ltac:(lia) Ht Ho);
      [reflexivity| |by apply repr_new_short|done].
    apply (wf_leaf []); [constructor|done].
Qed.

Lemma delete_reduce cs ts k0 krest prefix tr :
  wfN (PFull ts) -> vkey (k0 :: krest) ->
  kids_ok cs (<[Z.to_nat k0 := PNil]> ts) ->
  upd_spec (PFull ts) (PFull (<[Z.to_nat k0 := PNil]> ts)) (k0 :: krest) None ->
  exists n' tr', reduceFull dbGet prefix cs tr = (Ok (true, n'), tr') /\
    delete_post (PFull ts) (k0 :: krest) true n'.
Proof.
  intros Hw Hk Hkids Hu. pose proof (vkey_idx _ _ Hk) as [Hi _].
  set (ts' := <[Z.to_nat k0 := PNil]> ts) in *.
  assert (Hlen : length ts' = 17%nat) by (unfold ts'; rewrite length_insert; by inversion Hw).
  assert (Hkid : forall j c, cs !! j = Some c -> exists t, ts' !! j = Some t /\ repr c t).
  { intros j c Hc. destruct Hkids as [Hl Hk']. destruct (lookup_lt_is_Some_2 ts' j) as [t Ht];
      [rewrite <- Hl; by eapply lookup_lt_Some|]. eauto. }
  destruct (remainingPos_spec cs 0 ltac:(lia)) as [[Hpos Ha]|[(j & c & Hpos & Hc & Hn & Ho)|(Hpos & j & c & j' & c' & Hjj & Hc & Hc' & Hn & Hn')]].
  - exfalso. destruct (wfN_removed_two ts (Z.to_nat k0) Hw) as (j & t & Hj & Hj17 & Ht & Hne).
    assert (Ht' : ts' !! j = Some t) by (unfold ts'; by rewrite list_lookup_insert_ne).
    destruct (kids_ok_lookup _ _ _ _ _ Hkids Ht') as (c & Hc & Hr).
    rewrite Forall_forall in Ha. specialize (Ha c ltac:(apply list_elem_of_lookup; eauto)).
    by apply (repr_isNil c t Hr) in Ha.
  - destruct (Hkid j c Hc) as (t & Ht & Hr).
    pose proof (repr_not_nil c t Hr Hn) as Hne.
    eapply reduce_single; eauto.
    + intros i u Hij Hu'. destruct (kids_ok_lookup _ _ _ _ _ Hkids Hu') as (ci & Hci & Hri).
      apply (repr_isNil ci u Hri). eauto.
    + by apply (removed_slot ts (Z.to_nat k0) j t).
  - unfold reduceFull. rewrite Hpos. cbn [Z.geb Z.compare].
    do 2 eexists. split; [reflexivity|].
    destruct (Hkid j c Hc) as (t & Ht & Hr), (Hkid j' c' Hc') as (t' & Ht' & Hr').
    assert (Hw' : wfN (PFull ts')).
    { apply wf_full_slots; [done|intros i u Hu' Hne; by apply (removed_slot ts (Z.to_nat k0) i u)|].
      exists j, j', t, t'. split_and!; [done..| |].
      - by apply (repr_not_nil c).
      - by apply (repr_not_nil c'). }
    exists (PFull ts'). split_and!; [by apply repr_new_full|done|done|right; split; [done|by right]|by right|done].
Qed.

Lemma delete_full_case fuel cs ts fl prefix k0 krest tr :
  delete_ok fuel -> wfN (PFull ts) -> kids_ok cs ts -> flag_ok dbGet fl (PFull ts) ->
  (forall i c, cs !! i = Some c -> kid_hashed fl c) ->
  vkey (k0 :: krest) -> fuel_ok (S fuel) (FullNode cs fl) (k0 :: krest) ->
  exists d n' tr', delete dbGet (S fuel) (FullNode cs fl) prefix (k0 :: krest) tr = (Ok (d, n'), tr') /\
    delete_post (PFull ts) (k0 :: krest) d n'.
Proof.
  intros IH Hw Hkids Hfl Hkh Hk Hfuel. pose proof (vkey_idx _ _ Hk) as [Hi _].
  destruct (wfat_full ts k0 krest Hw Hk) as (t & Ht & Hwt).
  destruct (kids_ok_lookup _ _ _ _ _ Hkids Ht) as (c & Hc & Hr).
  destruct (IH c t (prefix ++ [k0]) krest tr Hr Hwt)
    as (d & n' & tr' & Ei & t' & Hr' & Hd' & Hh & Hwf' & Hu & _).
  { eapply fuel_child; [exact Hfuel|]. simpl. lia. }
  pose proof (updat_full ts k0 t t' krest None Hk Ht Hu) as Hup.
  pose proof (kids_ok_insert dbGet cs ts (Z.to_nat k0) n' t' Hkids Hr') as Hkids'.
  cbn [delete]. rewrite Hc, (stm_bind_Ok _ _ _ _ _ Ei). destruct d; cbn [negb].
  - destruct (isNil n') eqn:En; cbn [negb].
    + apply (repr_isNil n' t' Hr') in En as ->.
      destruct (delete_reduce _ ts k0 krest prefix tr' Hw Hk Hkids' Hup) as (m & tr2 & E & Hpost).
      eauto.
    + pose proof (repr_not_nil n' t' Hr' En) as Hne.
      assert (Hw' : wfN (PFull (<[Z.to_nat k0 := t']> ts))).
      { apply wf_full_set; [done|done|by eapply slot_ok_wfat]. }
      do 3 eexists. split; [reflexivity|].
      exists (PFull (<[Z.to_nat k0 := t']> ts)).
      split_and!; [by apply repr_new_full|done|done|right; split; [done|by right]|by right|done].
  - rewrite (Hd' eq_refl), list_insert_id in * by done.
    do 3 eexists. split; [reflexivity|]. exists (PFull ts). destruct Hkids.
    split_and!; [by constructor|done|done|right; split; [done|by right]|by right|done].
Qed.

(** Deleting [key] from a canonical tree: the fuel suffices, no step panics or
    fails, and the result stands for the canonical tree without the key. *)
Lemma delete_correct fuel : delete_ok fuel.
Proof.
  induction fuel as [|fuel IH]; intros n t prefix key tr Hr Hwf Hfuel.
  { unfold fuel_ok in Hfuel. destruct (isHashNode n); lia. }
  destruct Hr as [|w|nk nval fl t0 Hr Hfl Hkh|cs fl ts Hlen Hkids Hfl Hkh|t Hst].
  - do 3 eexists. split; [reflexivity|]. exists PNil. split_and!; try done; [constructor|].
    destruct Hwf as [[-> _]|[Hk _]]; [by left|]. by apply updat_absent.
  - apply wfat_val_inv in Hwf as ->. do 3 eexists. split; [reflexivity|].
    exists PNil. split_and!; try done; [constructor|left; split; [done|by left]|by left].
  - apply wfat_short_inv in Hwf as [Hk Hw]. by apply delete_short_case.
  - apply wfat_full_inv in Hwf as [Hk Hw].
    destruct key as [|k0 krest]; [by apply vkey_not_nil in Hk|]. by apply delete_full_case.
  - destruct (repr_stored_wfN _ _ _ Hst Hwf) as [Hk Hw].
    destruct (resolve_stored dbGet t prefix tr Hst Hw) as (rn & En & Hr & Hh & _).
    destruct (IH rn t prefix key (onRead prefix (pblob t) tr) Hr Hwf) as (d & n' & tr' & Ei & Hpost).
    { unfold fuel_ok in *. rewrite Hh. cbn [isHashNode] in Hfuel. lia. }
    cbn [delete]. rewrite (stm_bind_Ok _ _ _ _ _ En), (stm_bind_Ok _ _ _ _ _ Ei).
    destruct d; do 3 eexists; (split; [reflexivity|]); [done|].
    destruct Hpost as (t' & _ & Hd' & _ & Hrest). rewrite (Hd' eq_refl) in *. exists t. done.
Qed.
End Delete.
