(* ===== verification/TrieMap.v ===== *)
(** * The trie as a map from byte strings to byte strings

    [MerklePatriciaTrie] refines a finite map: [Get] is lookup, [Update] with a
    value is insertion and [Update] with no bytes is deletion, whatever part of
    the trie is in memory and whatever part is behind hash nodes. *)

From S2P Require Import Prelude TrieEncoding TrieNode TrieTracer Trie TrieHash TrieSpec TrieCanon.
From S2P Require Import TrieUpdate TrieCorrect TrieInsert TrieDelete.

Local Open Scope Z_scope.

(** ** The abstract map *)

(** [rep T m]: the tree holds exactly the entries of [m], at their hex keys. *)
Record rep (T : ptree) (m : gmap bytes bytes) : Prop := {
  rep_lookup s : is_bytes s -> plookup T (KeybytesToHex s) = m !! s;
  rep_keys k v : vkey k -> plookup T k = Some v -> exists s, is_bytes s /\ k = KeybytesToHex s;
  rep_bytes s v : m !! s = Some v -> is_bytes s
}.

Lemma KeybytesToHex_inj s1 s2 :
  is_bytes s1 -> is_bytes s2 -> KeybytesToHex s1 = KeybytesToHex s2 -> s1 = s2.
Proof.
  intros H1 H2 E. pose proof (KeybytesToHex_inv s1 H1) as E1.
  rewrite E, (KeybytesToHex_inv s2 H2) in E1. congruence.
Qed.

Lemma rep_empty : rep PNil ∅.
Proof. split; intros *; simpl; rewrite ?lookup_empty; done. Qed.

(** Two canonical trees for one map are the same tree. *)
Lemma rep_same_keys T1 T2 m : rep T1 m -> rep T2 m -> same_keys T1 T2.
Proof.
  intros R1 R2 k Hk. apply option_eq. intros v. split; intros Hl.
  - destruct (rep_keys _ _ R1 k v Hk Hl) as (s & Hs & ->).
    rewrite (rep_lookup _ _ R1) in Hl by done. by rewrite (rep_lookup _ _ R2).
  - destruct (rep_keys _ _ R2 k v Hk Hl) as (s & Hs & ->).
    rewrite (rep_lookup _ _ R2) in Hl by done. by rewrite (rep_lookup _ _ R1).
Qed.

Lemma rep_unique T1 T2 m : wf T1 -> wf T2 -> rep T1 m -> rep T2 m -> T1 = T2.
Proof. intros W1 W2 R1 R2. apply canonical_eq_wf; [done..|]. by eapply rep_same_keys. Qed.

Lemma rep_map_unique T m1 m2 : rep T m1 -> rep T m2 -> m1 = m2.
Proof.
  intros R1 R2. apply map_eq. intros s. destruct (decide (is_bytes s)) as [Hs|Hs].
  - by rewrite <- (rep_lookup _ _ R1), <- (rep_lookup _ _ R2).
  - destruct (m1 !! s) eqn:E1; [by apply (rep_bytes _ _ R1) in E1|].
    destruct (m2 !! s) eqn:E2; [by apply (rep_bytes _ _ R2) in E2|done].
Qed.

(** The map after [Update s v]. *)
Definition mapUpdate (s v : bytes) (m : gmap bytes bytes) : gmap bytes bytes :=
  match v with [] => base.delete s m | _ => <[s := v]> m end.

Definition valueOf (v : bytes) : option bytes := match v with [] => None | _ => Some v end.

Lemma lookup_mapUpdate s v m s' :
  mapUpdate s v m !! s' = if decide (s' = s) then valueOf v else m !! s'.
Proof.
  unfold mapUpdate. destruct v; case_decide as E; subst;
    rewrite ?lookup_delete_eq, ?lookup_delete_ne, ?lookup_insert_eq, ?lookup_insert_ne by done; done.
Qed.

Lemma rep_update T T' m s v :
  rep T m -> is_bytes s -> upd_spec T T' (KeybytesToHex s) (valueOf v) -> rep T' (mapUpdate s v m).
Proof.
  intros R Hs Hu. split.
  - intros s' Hs'. rewrite Hu by (by apply vkey_hex). rewrite lookup_mapUpdate.
    destruct (decide (s' = s)) as [->|Hne]; [by rewrite decide_True|].
    rewrite decide_False by (intros E; by apply KeybytesToHex_inj in E). by apply (rep_lookup _ _ R).
  - intros k w Hk. rewrite Hu by done. case_decide as E; [eauto|]. by apply (rep_keys _ _ R).
  - intros s' w. rewrite lookup_mapUpdate. case_decide; [by subst|]. apply (rep_bytes _ _ R).
Qed.

Section Map.
Context `{EthLibLaws} `{MPTProtoLaws} (dbGet : bytes -> outcome bytes).

(** ** One operation *)

(** An open trie that stands for the canonical tree [T]. *)
Record trie_ok (t : MerklePatriciaTrie) (T : ptree) : Prop := {
  ok_repr : repr dbGet (root t) T;
  ok_wf : wf T;
  ok_open : committed t = false
}.

Definition trie_rep (t : MerklePatriciaTrie) (m : gmap bytes bytes) : Prop :=
  exists T, trie_ok t T /\ rep T m.

Lemma wf_wfat T k : vkey k -> wf T -> wfat T k.
Proof. by right. Qed.

Lemma fuelFor_ok n k : fuel_ok (fuelFor k) n k.
Proof. unfold fuel_ok, fuelFor. destruct (isHashNode n); lia. Qed.

Lemma onTracer_Ok {A} (m : stm Tracer A) t a tr :
  m (tracer t) = (Ok a, tr) -> onTracer m t = (Ok a, mkTrie (root t) (committed t) tr (isHash t)).
Proof. intros E. unfold onTracer. by rewrite E. Qed.

Lemma Get_tree t T key :
  trie_ok t T -> is_bytes (hashKey t key) ->
  exists t', Get dbGet key t = (Ok (plookup T (KeybytesToHex (hashKey t key))), t') /\
    root t' = root t /\ trie_ok t' T /\ isHash t' = isHash t.
Proof.
  intros [Hr Hw Ho] Hk. set (k := KeybytesToHex (hashKey t key)).
  destruct (get_correct dbGet (fuelFor k) (root t) T k 0 (tracer t)) as (n & d & tr & E & _);
    [done|rewrite drop_0; by apply wf_wfat; [apply vkey_hex|]|rewrite drop_0; apply fuelFor_ok|].
  rewrite drop_0 in E. apply onTracer_Ok in E.
  unfold Get. rewrite (stm_bind_Ok getTrie _ t t t) by done. rewrite Ho.
  fold k. rewrite (stm_bind_Ok _ _ _ _ _ E).
  eexists. split; [reflexivity|]. split; [done|]. by split.
Qed.

Lemma Update_tree t T key v :
  trie_ok t T -> is_bytes (hashKey t key) ->
  exists t' T', Update dbGet key v t = (Ok tt, t') /\ trie_ok t' T' /\ isHash t' = isHash t /\
    upd_spec T T' (KeybytesToHex (hashKey t key)) (valueOf v).
Proof.
  intros [Hr Hw Ho] Hk. set (k := KeybytesToHex (hashKey t key)).
  assert (Hvk : vkey k) by (by apply vkey_hex).
  assert (Hne : k <> []) by (intros E; rewrite E in Hvk; by apply vkey_not_nil in Hvk).
  unfold Update, update. rewrite !(stm_bind_Ok getTrie _ t t t) by done. rewrite Ho.
  rewrite (stm_bind_Ok getTrie _ t t t) by done. fold k.
  destruct v as [|v0 v]; cbn [length Nat.eqb negb].
  - destruct (delete_correct dbGet (fuelFor k) (root t) T [] k (tracer t))
      as (d & n & tr & E & T' & Hr' & _ & _ & Hwf & Hu & _); [done|by apply wf_wfat|apply fuelFor_ok|].
    apply onTracer_Ok in E. rewrite (stm_bind_Ok _ _ _ _ _ E).
    destruct Hwf as [[? _]|[_ Hwf]]; [done|]. destruct Hu as [[? _]|[_ Hu]]; [done|].
    do 2 eexists. split; [reflexivity|]. by split_and!.
  - destruct (insert_correct dbGet (fuelFor k) (root t) T [] k (v0 :: v) (tracer t))
      as (d & n & tr & E & T' & Hr' & _ & _ & Hwf & Hu & _); [done|by apply wf_wfat|done|apply fuelFor_ok|].
    apply onTracer_Ok in E. rewrite (stm_bind_Ok _ _ _ _ _ E).
    destruct Hwf as [[? _]|[_ Hwf]]; [done|]. destruct Hu as [[? _]|[_ Hu]]; [done|].
    do 2 eexists. split; [reflexivity|]. by split_and!.
Qed.

(** ** Sequences of operations *)

Inductive mapOp :=
| OpGet (key : bytes)
| OpUpdate (key value : bytes).

Definition opKey (o : mapOp) : bytes := match o with OpGet k | OpUpdate k _ => k end.

Definition trieOp (o : mapOp) : stm MerklePatriciaTrie (option bytes) :=
  match o with
  | OpGet k => Get dbGet k
  | OpUpdate k v => Update dbGet k v;; mret None
  end.

Fixpoint trieOps (os : list mapOp) : stm MerklePatriciaTrie (list (option bytes)) :=
  match os with
  | [] => mret []
  | o :: os' => r ← trieOp o; rs ← trieOps os'; mret (r :: rs)
  end.

(** The same operations on the abstract map, with keys seen through [hk]. *)
Definition specOp (hk : bytes -> bytes) (o : mapOp) (m : gmap bytes bytes) :
  option bytes * gmap bytes bytes :=
  match o with
  | OpGet k => (m !! hk k, m)
  | OpUpdate k v => (None, mapUpdate (hk k) v m)
  end.

Fixpoint specOps (hk : bytes -> bytes) (os : list mapOp) (m : gmap bytes bytes) :
  list (option bytes) * gmap bytes bytes :=
  match os with
  | [] => ([], m)
  | o :: os' =>
      let '(r, m1) := specOp hk o m in
      let '(rs, m2) := specOps hk os' m1 in (r :: rs, m2)
  end.

Lemma trieOp_refines o t m :
  trie_rep t m -> is_bytes (hashKey t (opKey o)) ->
  exists t', trieOp o t = (Ok (specOp (hashKey t) o m).1, t') /\
    trie_rep t' (specOp (hashKey t) o m).2 /\ isHash t' = isHash t.
Proof.
  intros (T & Hok & R) Hk. destruct o as [k|k v]; simpl in *.
  - destruct (Get_tree t T k Hok Hk) as (t' & E & _ & Hok' & Hh).
    exists t'. rewrite E, (rep_lookup _ _ R) by done. split; [done|]. split; [by exists T|done].
  - destruct (Update_tree t T k v Hok Hk) as (t' & T' & E & Hok' & Hh & Hu).
    exists t'. rewrite (stm_bind_Ok _ _ _ _ _ E). split; [done|]. split; [|done].
    exists T'. split; [done|]. by eapply rep_update.
Qed.

Lemma hashKey_isHash t t' k : isHash t' = isHash t -> hashKey t' k = hashKey t k.
Proof. unfold hashKey. by intros ->. Qed.

Lemma specOps_ext h1 h2 os m : (forall k, h1 k = h2 k) -> specOps h1 os m = specOps h2 os m.
Proof.
  intros Hh. revert m. induction os as [|o os IH]; intros m; simpl; [done|].
  assert (E : specOp h1 o m = specOp h2 o m) by (destruct o; simpl; by rewrite Hh).
  rewrite E. destruct (specOp h2 o m). by rewrite IH.
Qed.

Lemma trieOps_refines os t m :
  trie_rep t m -> Forall (fun o => is_bytes (hashKey t (opKey o))) os ->
  exists t', trieOps os t = (Ok (specOps (hashKey t) os m).1, t') /\
    trie_rep t' (specOps (hashKey t) os m).2 /\ isHash t' = isHash t.
Proof.
  revert t m. induction os as [|o os IH]; intros t m Hrep Hks; simpl; [eauto|].
  apply Forall_cons in Hks as [Hk Hks].
  destruct (trieOp_refines o t m Hrep Hk) as (t1 & E1 & Hrep1 & Hh1).
  rewrite (stm_bind_Ok _ _ _ _ _ E1). destruct (specOp (hashKey t) o m) as [r m1] eqn:Es. simpl in *.
  destruct (IH t1 m1 Hrep1) as (t2 & E2 & Hrep2 & Hh2).
  { eapply Forall_impl; [exact Hks|]. intros o' ?. simpl. by rewrite (hashKey_isHash t). }
  rewrite (stm_bind_Ok _ _ _ _ _ E2).
  rewrite (specOps_ext (hashKey t1) (hashKey t)) in * by (intros; by apply hashKey_isHash).
  destruct (specOps (hashKey t) os m1) as [rs m2]. simpl in *.
  exists t2. split; [done|]. split; [done|congruence].
Qed.

Lemma NewTrie_empty rootHash isH :
  rootHash = zeroHash \/ rootHash = EmptyRootHash ->
  exists t, NewTrie dbGet rootHash isH = Ok t /\ trie_rep t ∅ /\ isHash t = isH.
Proof.
  intros Hr. eexists. split.
  - unfold NewTrie. destruct Hr as [->| ->].
    + rewrite (bool_decide_eq_true_2 (zeroHash = zeroHash)) by done. reflexivity.
    + rewrite (bool_decide_eq_true_2 (EmptyRootHash = EmptyRootHash)) by done.
      rewrite andb_false_r. reflexivity.
  - split; [|done]. exists PNil. split; [|apply rep_empty].
    split; [constructor|by left|done].
Qed.
End Map.
