(* ===== verification/TrieHashCorrect.v ===== *)
(** * Correctness of hashing

    [hash] computes the Merkle hash [phash] of the tree a node stands for,
    whatever part of it is loaded and whatever hashes are cached; the root hash
    is therefore a function of the map the trie holds. *)

From S2P Require Import Prelude TrieEncoding TrieNode TrieTracer Trie TrieHash TrieSpec TrieCanon.
From S2P Require Import TrieUpdate TrieCorrect TrieInsert TrieDelete TrieMap.

Local Open Scope Z_scope.

(** How a full node serialises one child. *)
Definition marshalKid `{EthLib} `{MPTProto} (c : Node) : outcome bytes :=
  match c with NilNode => Ok zeroHash | _ => Marshal c end.

Lemma Marshal_full `{EthLib} `{MPTProto} cs fl :
  Marshal (FullNode cs fl) = (bs ← mapO marshalKid cs; Ok (fullBlob bs)).
Proof. reflexivity. Qed.

Section HashCorrect.
Context `{EthLibLaws} `{MPTProtoLaws} (dbGet : bytes -> outcome bytes).

Local Abbreviation repr := (repr dbGet).
Local Abbreviation stored := (stored dbGet).

(** The result of hashing a node that stands for [t]. *)
Definition hash_ok (n : Node) (t : ptree) : Prop :=
  exists c, hash n = Ok (HashNode (phash t), c) /\ repr c t /\ nodeHashed c.

(** One turn of the loop over the children. *)
Definition hashKid (i : nat) (c : Node) : outcome (Node * Node) :=
  if (16 <=? i)%nat then Ok (c, c)
  else match c with NilNode => Ok (NilValueNode, NilNode) | _ => hash c end.

Definition kid_ok (i : nat) (c : Node) (t : ptree) : Prop :=
  exists col cac, hashKid i c = Ok (col, cac) /\
    marshalKid col = Ok (kidBytes [] i (t, phash t)) /\ repr cac t /\ nodeHashed cac.

Lemma hashKid_ok i c t :
  repr c t -> (t = PNil \/ slot_ok i t) -> (wfN t -> hash_ok c t) -> kid_ok i c t.
Proof.
  intros Hr Ht Hh. unfold kid_ok, hashKid. destruct Ht as [->|[[Hi Hw]|[-> (v & Hv & ->)]]].
  - inversion Hr as [| | | |? Hs]; subst; [|by inversion Hs].
    destruct (16 <=? i)%nat eqn:E; do 2 eexists; (split; [reflexivity|]);
      unfold kidBytes; cbn [fst snd]; rewrite ?E; split_and!; (done || constructor).
  - rewrite (proj2 (Nat.leb_gt 16 i)) by done. destruct (Hh Hw) as (c' & E & Hr' & Hn).
    exists (HashNode (phash t)), c'. split_and!; [|by destruct Hw|done|done].
    destruct c; [inversion Hr; subst; [by inversion Hw] |exact E..].
  - inversion Hr as [| | | |? Hs]; subst; [|by inversion Hs].
    do 2 eexists. split; [reflexivity|]. split_and!; (done || constructor).
Qed.

Lemma hashChildren_cons i c cs :
  hashChildren hash i (c :: cs) =
  ('(col, cac) ← hashKid i c; '(cols, cacs) ← hashChildren hash (S i) cs; Ok (col :: cols, cac :: cacs)).
Proof. reflexivity. Qed.

Lemma hashChildren_ok cs : forall ts i,
  length cs = length ts ->
  (forall j c t, cs !! j = Some c -> ts !! j = Some t -> kid_ok (i + j) c t) ->
  exists cols cacs, hashChildren hash i cs = Ok (cols, cacs) /\
    mapO marshalKid cols = Ok (imap (fun j => kidBytes [] (i + j)) ((fun t => (t, phash t)) <$> ts)) /\
    kids_ok dbGet cacs ts /\ Forall nodeHashed cacs.
Proof.
  induction cs as [|c cs IH]; intros [|t ts] i Hlen Hk; simpl in Hlen; try discriminate Hlen.
  - exists [], []. split_and!; [done|done| |constructor]. split; [done|]. intros j ? ? ?. by rewrite lookup_nil.
  - destruct (Hk 0%nat c t eq_refl eq_refl) as (col & cac & Ek & Em & Hr & Hn).
    rewrite Nat.add_0_r in Ek, Em.
    destruct (IH ts (S i) ltac:(lia)) as (cols & cacs & Ec & Ems & [Hl Hks] & Hns).
    { intros j c' t' Hc Ht. specialize (Hk (S j) c' t' Hc Ht). by rewrite Nat.add_succ_r in Hk. }
    exists (col :: cols), (cac :: cacs). rewrite hashChildren_cons, Ek. cbn. rewrite Ec. cbn.
    split; [done|]. rewrite Em. cbn. rewrite Ems. cbn. rewrite Nat.add_0_r. split_and!.
    + do 2 f_equal. apply imap_ext. intros j x _. simpl. f_equal. lia.
    + split; [simpl; congruence|]. intros [|j] c' t'; simpl; [congruence|eauto].
    + by constructor.
Qed.

Lemma flag_cached fl t (Hd : Dirty fl = true) : flag_ok dbGet (mkFlag (Some (phash t)) (Dirty fl)) t.
Proof. unfold flag_ok. cbn. rewrite Hd. done. Qed.

Lemma flag_none_dirty fl t : flag_ok dbGet fl t -> Hash fl = None -> Dirty fl = true.
Proof. unfold flag_ok. intros Hf E. by rewrite E in Hf. Qed.

Lemma flag_hash fl t h : flag_ok dbGet fl t -> Hash fl = Some h -> h = phash t.
Proof. unfold flag_ok. intros Hf E. rewrite E in Hf. by destruct Hf. Qed.

Lemma HexToCompact_wf sk t : wfN (PShort sk t) -> HexToCompact sk = Ok (compact sk).
Proof.
  intros Hw. destruct (wfN_short_hexkey _ _ Hw) as (term & q & Hq & -> & _).
  by apply compact_hexkey.
Qed.

(** The collapsed value of a short node, and the copy kept in memory. *)
Lemma hash_short_val k n t :
  repr n t -> wfN (PShort k t) -> (wfN t -> hash_ok n t) ->
  exists cv v', match n with FullNode _ _ | ShortNode _ _ _ => hash n | _ => Ok (n, n) end = Ok (cv, v') /\
    Marshal cv = Ok (phash t) /\ repr v' t /\ nodeHashed v'.
Proof.
  intros Hr Hw Hh. inversion Hw as [p v Hp Hv|? ts Hk Hn Hf|]; subst.
  - inversion Hr as [| | | |? Hs]; subst; [|by inversion Hs].
    do 2 eexists. split; [reflexivity|]. split_and!; (done || constructor).
  - destruct (Hh Hf) as (c & E & Hr' & Hnh). inversion Hr as [| | |cs fl|? Hs]; subst.
    + do 2 eexists. split; [exact E|]. by split_and!.
    + do 2 eexists. split; [reflexivity|]. split_and!; (done || by constructor).
Qed.

Lemma hash_correct n : forall t, repr n t -> wfN t -> hash_ok n t.
Proof.
  induction n as [|v|h|k n fl IH|cs fl IH] using Node_ind'; intros t Hr Hw; unfold hash_ok.
  - inversion Hr; subst. by inversion Hw.
  - inversion Hr; subst. by inversion Hw.
  - inversion Hr; subst. eexists. split; [reflexivity|]. done.
  - inversion Hr as [| |? ? ? t' Hr' Hfl Hkh| |]; subst. cbn [hash].
    destruct (Hash fl) as [h|] eqn:Eh.
    { rewrite (flag_hash _ _ _ Hfl Eh). eexists. split; [reflexivity|]. split; [done|]. cbn. congruence. }
    rewrite (HexToCompact_wf _ _ Hw). cbn.
    destruct (hash_short_val k n t' Hr' Hw (IH t' Hr')) as (cv & v' & E & Em & Hrv & Hnv).
    rewrite E. cbn. unfold shortnodeToHash. cbn. rewrite Em. cbn.
    eexists. split; [reflexivity|]. split; [|done].
    apply repr_short; [done| |done].
    apply (flag_cached fl (PShort k t')), (flag_none_dirty _ _ Hfl Eh).
  - inversion Hr as [| | |? ? ts Hlen Hkids Hfl Hkh|]; subst. cbn [hash].
    destruct (Hash fl) as [h|] eqn:Eh.
    { rewrite (flag_hash _ _ _ Hfl Eh). eexists. split; [reflexivity|]. split; [done|]. cbn. congruence. }
    destruct (hashChildren_ok cs ts 0 Hlen) as (cols & cacs & E & Em & [Hl Hks] & Hns).
    { intros j c t Hc Ht. apply hashKid_ok; [eauto| |].
      - destruct (decide (t = PNil)); [by left|]. right. by eapply slot_ok_kid.
      - intros Hwt. rewrite Forall_lookup in IH. eauto. }
    rewrite E. cbn [mbind outcome_bind]. unfold fullnodeToHash.
    rewrite Marshal_full, Em. cbn [mbind outcome_bind].
    eexists. split; [reflexivity|]. split; [|done].
    apply repr_full; [done|done|apply (flag_cached fl (PFull ts)), (flag_none_dirty _ _ Hfl Eh)|].
    intros i c Hc. rewrite Forall_lookup in Hns. cbn. by apply (Hns i c).
Qed.

(** ** The root hash *)

Lemma phash_len_wf t : wf t -> length (phash t) = 32%nat.
Proof. intros [->|Hw]; [done|]. destruct Hw; apply Keccak256_len. Qed.

Lemma HashTrie_correct t T :
  trie_ok dbGet t T ->
  exists t', HashTrie t = (Ok (phash T), t') /\ trie_ok dbGet t' T /\ nodeHashed (root t') /\
    isHash t' = isHash t /\ tracer t' = tracer t.
Proof.
  intros [Hr Hw Ho]. unfold HashTrie. destruct Hw as [->|Hw].
  - inversion Hr as [E| | | |? Hs E]; [|by inversion Hs]. cbn. rewrite BytesToHash_id by done.
    eexists. split; [reflexivity|]. split_and!; try done. split; [constructor|by left|done].
  - destruct (hash_correct (root t) T Hr Hw) as (c & E & Hr' & Hn).
    assert (E' : hashRoot (root t) = Ok (HashNode (phash T), c)).
    { destruct (root t); [inversion Hr; subst; by inversion Hw|exact E..]. }
    rewrite E', BytesToHash_id by (by apply phash_len_wf; right).
    eexists. split; [reflexivity|]. split_and!; try done. split; [done|by right|done].
Qed.
End HashCorrect.
