(* ===== verification/TrieBinding.v ===== *)
(** * The root hash binds the contents

    Two canonical trees with one root hash are the same tree, or two different
    strings hashed for their nodes form a Keccak-256 collision. *)

From S2P Require Import Prelude TrieEncoding TrieNode TrieTracer Trie TrieHash TrieSpec TrieCanon.
From S2P Require Import TrieUpdate TrieCorrect TrieInsert TrieDelete TrieMap TrieHashCorrect.

Local Open Scope Z_scope.

(** Either every slot satisfies [P] or the escape [C] holds. *)
Lemma forall_or_escape (P : nat -> Prop) (C : Prop) n :
  (forall i, (i < n)%nat -> P i \/ C) -> (forall i, (i < n)%nat -> P i) \/ C.
Proof.
  induction n as [|n IH]; intros Hp; [left; lia|].
  destruct IH as [Hall|]; [intros; apply Hp; lia| |by right].
  destruct (Hp n ltac:(lia)); [|by right]. left. intros i Hi.
  destruct (decide (i = n)) as [->|]; [done|apply Hall; lia].
Qed.

Section Binding.
Context `{EthLibLaws} `{MPTProtoLaws}.

(** The string whose hash is the hash of a node, and all such strings of a
    tree. *)
Definition hashInput (t : ptree) : bytes :=
  match t with
  | PShort k t' => shortBlob (compact k) (phash t')
  | PFull ts => fullBlob (imap (kidBytes []) ((fun c => (c, phash c)) <$> ts))
  | _ => []
  end.

Fixpoint preimages (t : ptree) : list bytes :=
  match t with
  | PNil | PVal _ => []
  | PShort _ t' => hashInput t :: preimages t'
  | PFull ts => hashInput t :: mjoin (preimages <$> ts)
  end.

(** A collision between a string hashed for [t1] and one hashed for [t2]. *)
Definition collision (t1 t2 : ptree) : Prop :=
  exists a b, a ∈ preimages t1 /\ b ∈ preimages t2 /\ a <> b /\ Keccak256 a = Keccak256 b.

Lemma phash_input t : wfN t -> phash t = Keccak256 (hashInput t).
Proof. by destruct 1. Qed.

Lemma hashInput_preimages t : wfN t -> hashInput t ∈ preimages t.
Proof. destruct 1; apply list_elem_of_here. Qed.

Lemma hash_inj t1 t2 :
  wfN t1 -> wfN t2 -> phash t1 = phash t2 -> hashInput t1 = hashInput t2 \/ collision t1 t2.
Proof.
  intros W1 W2 E. rewrite (phash_input t1 W1), (phash_input t2 W2) in E.
  destruct (decide (hashInput t1 = hashInput t2)); [by left|]. right.
  exists (hashInput t1), (hashInput t2). auto using hashInput_preimages.
Qed.

Lemma collision_mono t1 t2 u1 u2 :
  (forall x, x ∈ preimages u1 -> x ∈ preimages t1) -> (forall x, x ∈ preimages u2 -> x ∈ preimages t2) ->
  collision u1 u2 -> collision t1 t2.
Proof. intros S1 S2 (a & b & Ha & Hb & Hne & E). exists a, b. auto. Qed.

Lemma preimages_short k t x : x ∈ preimages t -> x ∈ preimages (PShort k t).
Proof. intros Hx. by apply list_elem_of_further. Qed.

Lemma preimages_full ts i t x : ts !! i = Some t -> x ∈ preimages t -> x ∈ preimages (PFull ts).
Proof.
  intros Ht Hx. apply list_elem_of_further. apply list_elem_of_join. exists (preimages t).
  split; [done|]. apply list_elem_of_fmap. exists t. split; [done|]. by eapply list_elem_of_lookup_2.
Qed.

Lemma shortBlob_inj k1 v1 k2 v2 : shortBlob k1 v1 = shortBlob k2 v2 -> k1 = k2 /\ v1 = v2.
Proof.
  unfold shortBlob, fullBlob. intros E. apply (f_equal unmarshalMPTNode) in E. rewrite !MPTNode_roundtrip in E.
  injection E as E. apply (f_equal unmarshalMPTShortNode) in E.
  rewrite !MPTShortNode_roundtrip in E. by injection E.
Qed.

Lemma fullBlob_inj b1 b2 : fullBlob b1 = fullBlob b2 -> b1 = b2.
Proof.
  unfold shortBlob, fullBlob. intros E. apply (f_equal unmarshalMPTNode) in E. rewrite !MPTNode_roundtrip in E.
  injection E as E. apply (f_equal unmarshalMPTFullNode) in E.
  rewrite !MPTFullNode_roundtrip in E. by injection E.
Qed.

Lemma short_full_blob k v bs : shortBlob k v <> fullBlob bs.
Proof.
  unfold shortBlob, fullBlob. intros E. apply (f_equal unmarshalMPTNode) in E. rewrite !MPTNode_roundtrip in E. discriminate E.
Qed.

Lemma compact_inj k1 t1 k2 t2 :
  wfN (PShort k1 t1) -> wfN (PShort k2 t2) -> compact k1 = compact k2 -> k1 = k2.
Proof.
  intros W1 W2 E.
  destruct (wfN_short_hexkey _ _ W1) as (a & p & Hp & -> & _).
  destruct (wfN_short_hexkey _ _ W2) as (b & q & Hq & -> & _).
  destruct (compact_hexkey a p Hp) as [_ E1], (compact_hexkey b q Hq) as [_ E2].
  rewrite E, E2 in E1. congruence.
Qed.

(** Equal hashes of canonical short nodes: equal keys, and equal hashes below. *)
Lemma phash_short_inj k1 t1 k2 t2 :
  wfN (PShort k1 t1) -> wfN (PShort k2 t2) -> phash (PShort k1 t1) = phash (PShort k2 t2) ->
  (k1 = k2 /\ phash t1 = phash t2) \/ collision (PShort k1 t1) (PShort k2 t2).
Proof.
  intros W1 W2 E. destruct (hash_inj _ _ W1 W2 E) as [E'|]; [|by right]. clear E. rename E' into E.
  apply shortBlob_inj in E as [Ek Ev]. left. split; [by eapply compact_inj|done].
Qed.

(** Equal hashes of full nodes: the same slots are filled, with equal hashes. *)
Lemma phash_full_inj ts1 ts2 i t1 t2 :
  wfN (PFull ts1) -> wfN (PFull ts2) -> phash (PFull ts1) = phash (PFull ts2) -> (i < 16)%nat ->
  ts1 !! i = Some t1 -> ts2 !! i = Some t2 ->
  (t1 = PNil /\ t2 = PNil) \/ (wfN t1 /\ wfN t2 /\ phash t1 = phash t2) \/ collision (PFull ts1) (PFull ts2).
Proof.
  intros F1 F2 E Hi E1 E2. destruct (hash_inj _ _ F1 F2 E) as [E'|]; [|by right; right].
  clear E. rename E' into E. unfold hashInput in E.
  apply fullBlob_inj in E. apply (f_equal (lookup i)) in E.
  rewrite (kidBytes_lookup [] ts1 i t1 E1), (kidBytes_lookup [] ts2 i t2 E2) in E.
  injection E as E. unfold kidBytes in E. rewrite (proj2 (Nat.leb_gt 16 i)) in E by done. cbn [fst snd] in E.
  assert (Hl : forall t, wfN t -> phash t <> []).
  { intros t Ht Hn. apply phash_len in Ht. by rewrite Hn in Ht. }
  destruct (wfN_child _ _ _ F1 Hi E1) as [->|W1], (wfN_child _ _ _ F2 Hi E2) as [->|W2].
  - by left.
  - exfalso. apply (Hl t2 W2). by destruct W2.
  - exfalso. apply (Hl t1 W1). by destruct W1.
  - right; left. split_and!; [done..|]. by destruct W1, W2.
Qed.

(** A short node and a full node. *)
Lemma phash_short_full k t ts :
  wfN (PShort k t) -> wfN (PFull ts) -> phash (PShort k t) = phash (PFull ts) ->
  collision (PShort k t) (PFull ts).
Proof.
  intros W1 W2 E. destruct (hash_inj _ _ W1 W2 E) as [E'|]; [|done]. by apply short_full_blob in E'.
Qed.

Lemma collision_sym t1 t2 : collision t1 t2 -> collision t2 t1.
Proof. intros (a & b & ? & ? & ? & ?). exists b, a. auto. Qed.

Lemma not_nibbles_term p : nibbles (p ++ [16]) -> False.
Proof.
  unfold nibbles. rewrite Forall_app, Forall_singleton. unfold is_nibble. intros [_ Hn]. lia.
Qed.

Lemma phash_inj t1 : wfN t1 -> forall t2, wfN t2 -> no16 t1 -> no16 t2 ->
  phash t1 = phash t2 -> t1 = t2 \/ collision t1 t2.
Proof.
  induction 1 as [p v Hp Hv|k ts Hk Hn Hf IH|ts Hlen Hw IH Hval Htwo]; intros t2 W2 N1 N2 E.
  - pose proof (wf_leaf p v Hp Hv) as W1.
    destruct t2 as [| |k2 t2|ts2]; [by inversion W2..| |right; by apply phash_short_full].
    destruct (phash_short_inj _ _ _ _ W1 W2 E) as [[<- E']|]; [|by right].
    inversion W2 as [q w Hq Hw Eq|? ts' Hk' Hn'|]; subst; [left; simpl in E'; by subst|].
    by apply not_nibbles_term in Hn'.
  - pose proof (wf_ext k ts Hk Hn Hf) as W1.
    destruct t2 as [| |k2 t2|ts2]; [by inversion W2..| |right; by apply phash_short_full].
    destruct (phash_short_inj _ _ _ _ W1 W2 E) as [[<- E']|]; [|by right].
    inversion W2 as [q w Hq Hw Eq|? ts' Hk' Hn' Hf'|]; subst; [by apply not_nibbles_term in Hn|].
    inversion N1; subst. inversion N2; subst.
    destruct (IH (PFull ts')) as [->|Hc]; [done..|by left|]. right.
    eapply collision_mono; [| |exact Hc]; intros; by apply preimages_short.
  - assert (W1 : wfN (PFull ts)) by (by constructor).
    destruct t2 as [| |k2 t2|ts2]; [by inversion W2..|right; by apply collision_sym, phash_short_full|].
    apply no16_full_inv in N1 as [N1 E16]. apply no16_full_inv in N2 as [N2 E16'].
    assert (Hlen2 : length ts2 = 17%nat) by (by inversion W2).
    destruct (forall_or_escape (fun i => ts !! i = ts2 !! i) (collision (PFull ts) (PFull ts2)) 16)
      as [Hall|]; [| |by right].
    { intros i Hi. destruct (lookup_lt_is_Some_2 ts i) as [c1 Hc1]; [lia|].
      destruct (lookup_lt_is_Some_2 ts2 i) as [c2 Hc2]; [lia|]. rewrite Hc1, Hc2.
      destruct (phash_full_inj ts ts2 i c1 c2) as [[-> ->]|[(V1 & V2 & Eh)|]];
        [done..|by left| |by right].
      destruct (IH i c1) with (t2 := c2) as [->|Hc]; eauto; [by destruct V1|]. right.
      eapply collision_mono; [| |exact Hc]; intros; by eapply preimages_full. }
    left. f_equal. apply list_eq. intros i. destruct (decide (i < 16)%nat); [auto|].
    destruct (decide (i = 16%nat)) as [->|]; [congruence|].
    rewrite !lookup_ge_None_2 by lia. done.
Qed.
End Binding.
