(* ===== verification/TrieCommit.v ===== *)
(** * Committing and reloading

    [Commit] collects every dirty node of the trie in a node set; a database
    that holds the old nodes and the blobs of the set holds the whole tree, so
    a trie opened on it at the returned root hash has the same contents. *)

From S2P Require Import Prelude TrieEncoding TrieNode TrieTracer Trie TrieHash TrieSpec TrieCanon.
From S2P Require Import TrieUpdate TrieCorrect TrieInsert TrieDelete TrieMap TrieHashCorrect.

Local Open Scope Z_scope.

(** ** Keys of one length *)

Definition fixed_len (T : ptree) (N : nat) : Prop :=
  forall k v, vkey k -> plookup T k = Some v -> length k = N.

Lemma fixed_len_no16 T N : wfN T -> fixed_len T N -> no16 T.
Proof.
  intros Hw. revert N. induction Hw as [p v Hp Hv|k ts Hk Hn Hf IH|ts Hlen Hkids IH Hval Htwo]; intros N HN.
  - repeat constructor.
  - constructor. apply (IH (N - length k)%nat). intros k' v Hk' Hl.
    specialize (HN (k ++ k') v). rewrite vkey_app_nibbles, plookup_short_app, length_app in HN by done.
    specialize (HN Hk' Hl). lia.
  - assert (Hw : wfN (PFull ts)) by (by constructor).
    destruct (lookup_lt_is_Some_2 ts 16) as [t16 Ht16]; [lia|].
    assert (E16 : t16 = PNil).
    { destruct (decide (t16 = PNil)) as [|Hne]; [done|]. exfalso.
      destruct (Hval t16 Ht16 Hne) as (v & Hv & ->).
      assert (N1 : 1%nat = N).
      { apply (HN [16] v); [apply vkey_cons; by left|].
        rewrite plookup_full. change (Z.to_nat 16) with 16%nat. by rewrite Ht16. }
      destruct (wfN_removed_two ts 16 Hw) as (j & t & Hj & Hj17 & Ht & Hnt).
      destruct (wfN_child_key ts j t Hw Ht Hnt) as (k & w & Hk & Hl).
      specialize (HN _ _ Hk Hl). apply vkey_cons in Hk as [[? _]|[_ Hk]]; [lia|].
      destruct k; [by apply vkey_not_nil in Hk|]. simpl in HN. lia. }
    subst t16. constructor; [|done]. intros i t Ht.
    destruct (decide (t = PNil)) as [->|Hne]; [constructor|].
    assert (i < 16)%nat.
    { pose proof (lookup_lt_Some _ _ _ Ht). destruct (decide (i = 16%nat)) as [->|]; [congruence|lia]. }
    apply (IH i t ltac:(done) Ht Hne (N - 1)%nat). intros k v Hk Hl.
    specialize (HN (Z.of_nat i :: k) v). rewrite plookup_full, Nat2Z.id, Ht in HN.
    simpl in HN. rewrite <- HN; [lia| |done]. apply vkey_cons. right. split; [unfold is_nibble; lia|done].
Qed.

(** A trie whose keys have one length holds no value in a full node. *)
Lemma rep_no16 T m L :
  wf T -> rep T m -> (forall s v, m !! s = Some v -> length s = L) -> no16 T.
Proof.
  intros [->|Hw] R HL; [constructor|]. apply (fixed_len_no16 T (2 * L + 1)%nat Hw).
  intros k v Hk Hl. destruct (rep_keys _ _ R k v Hk Hl) as (s & Hs & ->).
  rewrite (rep_lookup _ _ R) in Hl by done. rewrite length_KeybytesToHex, (HL s v Hl). done.
Qed.

Section Commit.
Context `{EthLibLaws} `{MPTProtoLaws}.

(** No node of the tree hashes to the zero hash, which marks an absent child. *)
Inductive nonzero : ptree -> Prop :=
| nonzero_nil : nonzero PNil
| nonzero_val v : nonzero (PVal v)
| nonzero_short k t : phash (PShort k t) <> zeroHash -> nonzero t -> nonzero (PShort k t)
| nonzero_full ts :
    phash (PFull ts) <> zeroHash -> (forall i t, ts !! i = Some t -> nonzero t) -> nonzero (PFull ts).

Lemma nonzero_full_inv ts : nonzero (PFull ts) ->
  phash (PFull ts) <> zeroHash /\ (forall i t, ts !! i = Some t -> nonzero t).
Proof. by inversion 1. Qed.

Lemma nonzero_short_inv k t : nonzero (PShort k t) -> phash (PShort k t) <> zeroHash /\ nonzero t.
Proof. by inversion 1. Qed.

(** [extends db db']: the second database holds everything the first holds. *)
Definition extends (db db' : bytes -> outcome bytes) : Prop :=
  forall h b, db h = Ok b -> db' h = Ok b.

Lemma stored_extends db db' t : extends db db' -> stored db t -> stored db' t.
Proof.
  intros He. induction 1 as [k v Hd Hz|k ts Hd Hz Hs IH|ts Hd Hz Hs IH H16]; constructor; auto.
Qed.

(** [keeps db db']: every tree in the first database is in the second. *)
Definition keeps (db db' : bytes -> outcome bytes) : Prop :=
  forall t, stored db t -> wfN t -> stored db' t.

Lemma extends_keeps db db' : extends db db' -> keeps db db'.
Proof. intros He t Hs _. by eapply stored_extends. Qed.

(** *** The nodes of a tree *)

Fixpoint subtrees (T : ptree) : list ptree :=
  T :: match T with
       | PShort _ t => subtrees t
       | PFull ts => mjoin (subtrees <$> ts)
       | _ => []
       end.

Lemma subtrees_self T : T ∈ subtrees T.
Proof. destruct T; apply list_elem_of_here. Qed.

Lemma subtrees_short k t u : u ∈ subtrees t -> u ∈ subtrees (PShort k t).
Proof. intros Hu. by apply list_elem_of_further. Qed.

Lemma subtrees_full ts i t u : ts !! i = Some t -> u ∈ subtrees t -> u ∈ subtrees (PFull ts).
Proof.
  intros Ht Hu. apply list_elem_of_further. apply list_elem_of_join. exists (subtrees t).
  split; [done|]. apply list_elem_of_fmap. exists t. split; [done|]. by eapply list_elem_of_lookup_2.
Qed.

(** Every live entry is a node of [R], under its hash and with its blob. *)
Definition good (R : ptree) (s : NodeSet) : Prop :=
  forall p w, Nodes s !! p = Some w -> w = NewDeleted \/
    exists u, u ∈ subtrees R /\ wfN u /\ w = New (phash u) (pblob u).

(** Going from [s] to [s'] adds nodes of [t] only. *)
Definition grows (t : ptree) (s s' : NodeSet) : Prop :=
  forall R, (forall u, u ∈ subtrees t -> u ∈ subtrees R) -> good R s -> good R s'.

Lemma grows_refl t s : grows t s s.
Proof. by intros R _. Qed.

Lemma grows_trans t s1 s2 s3 : grows t s1 s2 -> grows t s2 s3 -> grows t s1 s3.
Proof. intros G1 G2 R HR Hg. by apply (G2 R HR), (G1 R HR). Qed.

Lemma grows_sub t t' s s' : (forall u, u ∈ subtrees t -> u ∈ subtrees t') -> grows t s s' -> grows t' s s'.
Proof. intros Hs G R HR. apply G. auto. Qed.

Lemma grows_store path t s s' :
  wfN t -> Nodes s' = Nodes (AddNode path (New (phash t) (pblob t)) s) -> grows t s s'.
Proof.
  intros Hw E R HR Hg p w. rewrite E. cbn. rewrite lookup_insert_Some. intros [[_ <-]|[_ Hl]]; [|by eapply Hg].
  right. exists t. split_and!; [by apply HR, subtrees_self|done|done].
Qed.

(** The live entries of a node set are in the database under their hashes. *)
Definition holds (db : bytes -> outcome bytes) (s : NodeSet) : Prop :=
  forall p w, Nodes s !! p = Some w -> IsDeleted w = false -> db (whash w) = Ok (wblob w).

Section Db.
Context (dbGet : bytes -> outcome bytes) (collectLeaf : bool) (acc : gmap bytes bytes).
Local Abbreviation repr := (repr dbGet).
Local Abbreviation commit := (commit collectLeaf acc).

(** ** Which entries a commit touches *)

Definition frame (path : bytes) (s s' : NodeSet) : Prop :=
  forall q, (forall r, is_bytes r -> q <> EncodeToString (path ++ r)) -> Nodes s' !! q = Nodes s !! q.

(** What [covers] promises: with the entries below [path] and the old
    database, the tree [t] is stored. *)
Definition covers (path : bytes) (s : NodeSet) (t : ptree) : Prop :=
  forall db', keeps dbGet db' ->
    (forall r w, is_bytes r -> Nodes s !! EncodeToString (path ++ r) = Some w -> IsDeleted w = false ->
       db' (whash w) = Ok (wblob w)) ->
    stored db' t.

Lemma frame_refl path s : frame path s s.
Proof. by intros q _. Qed.

Lemma frame_trans path s1 s2 s3 : frame path s1 s2 -> frame path s2 s3 -> frame path s1 s3.
Proof. intros F1 F2 q Hq. by rewrite F2, F1. Qed.

Lemma frame_widen path k s s' : is_bytes k -> frame (path ++ k) s s' -> frame path s s'.
Proof.
  intros Hk F q Hq. apply F. intros r Hr. rewrite <- app_assoc. apply Hq.
  unfold is_bytes in *. by apply Forall_app.
Qed.

Lemma frame_AddNode path w s : frame path s (AddNode path w s).
Proof.
  intros q Hq. unfold AddNode. cbn. apply lookup_insert_ne.
  intros E. apply (Hq []); [constructor|]. by rewrite app_nil_r.
Qed.

Lemma frame_AddLeaf path p b s : frame path s (AddLeaf p b s).
Proof. by intros q _. Qed.

Lemma Encode_path_inj path a b :
  is_bytes path -> is_bytes a -> is_bytes b ->
  EncodeToString (path ++ a) = EncodeToString (path ++ b) -> a = b.
Proof.
  intros Hp Ha Hb E. apply EncodeToString_inj in E; [|by apply Forall_app..].
  by apply app_inv_head in E.
Qed.

(** Entries below [path ++ a :: _] survive a commit below [path ++ [b]]. *)
Lemma covers_sibling path a b s s' t :
  is_bytes path -> is_byte a -> is_byte b -> a <> b ->
  covers (path ++ [a]) s t -> frame (path ++ [b]) s s' -> covers (path ++ [a]) s' t.
Proof.
  intros Hp Ha Hb Hab Hc F db' He Hdb. apply Hc; [done|]. intros r w Hr Hl.
  apply (Hdb r); [done|]. rewrite F; [done|]. intros r' Hr'. rewrite <- !app_assoc. intros E.
  apply Encode_path_inj in E; [|done|by constructor..]. simpl in E. congruence.
Qed.

(** Entries below [path ++ k] survive the store of the node at [path]. *)
Lemma covers_AddNode path k w s t :
  is_bytes path -> is_bytes k -> k <> [] ->
  covers (path ++ k) s t -> covers (path ++ k) (AddNode path w s) t.
Proof.
  intros Hp Hk Hne Hc db' He Hdb. apply Hc; [done|]. intros r w' Hr Hl.
  apply (Hdb r); [done|]. unfold AddNode. cbn. rewrite lookup_insert_ne; [done|].
  rewrite <- app_assoc, <- (app_nil_r path) at 1. intros E.
  apply Encode_path_inj in E; [|done|constructor|by apply Forall_app].
  by destruct k.
Qed.

(** The databases of [covers path s] satisfy those of [covers (path ++ k) s]. *)
Lemma covers_below path k s t db' :
  is_bytes k -> covers (path ++ k) s t -> keeps dbGet db' ->
  (forall r w, is_bytes r -> Nodes s !! EncodeToString (path ++ r) = Some w -> IsDeleted w = false ->
     db' (whash w) = Ok (wblob w)) ->
  stored db' t.
Proof.
  intros Hk Hc He Hdb. apply Hc; [done|]. intros r w Hr. rewrite <- app_assoc.
  apply Hdb. by apply Forall_app.
Qed.

Lemma covers_stored path s t : stored dbGet t -> wfN t -> covers path s t.
Proof. intros Hs Hw db' He _. by apply He. Qed.

(** ** The store step *)

(** [store] of the collapsed form of a dirty node with a cached hash. *)
Lemma store_ok path n t s :
  wfN t -> Cache n = Ok (Some (phash t), true) -> Marshal n = Ok (pblob t) ->
  exists s', store collectLeaf acc path n s = (Ok (HashNode (phash t)), s') /\
    Nodes s' = Nodes (AddNode path (New (phash t) (pblob t)) s).
Proof.
  intros Hw Ec Em. unfold store, NodeToBytes. rewrite Ec, Em, !lift_Ok.
  rewrite BytesToHash_id by (by apply phash_len).
  rewrite (stm_bind_Ok (modify _) _ _ _ _ eq_refl).
  destruct collectLeaf; [|eexists; split; reflexivity].
  destruct n as [| | |? [] ?|]; eexists; split; reflexivity.
Qed.

Lemma store_covers path t s s' :
  wfN t -> Nodes s' = Nodes (AddNode path (New (phash t) (pblob t)) s) ->
  forall db', (forall r w, is_bytes r -> Nodes s' !! EncodeToString (path ++ r) = Some w ->
                IsDeleted w = false -> db' (whash w) = Ok (wblob w)) ->
  db' (phash t) = Ok (pblob t).
Proof.
  intros Hw Es db' Hdb. apply (Hdb [] (New (phash t) (pblob t))); [constructor| |].
  - rewrite Es, app_nil_r. apply lookup_insert_eq.
  - unfold IsDeleted. cbn. apply pblob_nonempty in Hw. by destruct (pblob t).
Qed.

(** ** Committing a subtree *)

Definition commit_ok (n : Node) (t : ptree) : Prop := forall path s, is_bytes path ->
  exists s', commit path n s = (Ok (HashNode (phash t)), s') /\ frame path s s' /\ covers path s' t /\
    grows t s s'.

Lemma commit_stored n t : stored dbGet t -> wfN t -> (forall path s, commit path n s = (Ok (HashNode (phash t)), s)) ->
  commit_ok n t.
Proof.
  intros Hs Hw E path s _. exists s.
  split_and!; [apply E|apply frame_refl|by apply covers_stored|apply grows_refl].
Qed.

(** A node is either clean, and stored, or dirty with a cached hash. *)
Lemma flag_cases fl t :
  flag_ok dbGet fl t -> Hash fl <> None ->
  Hash fl = Some (phash t) /\ ((Dirty fl = false /\ stored dbGet t) \/ Dirty fl = true).
Proof.
  unfold flag_ok. destruct (Hash fl) as [h|]; [|done]. intros [-> Hs] _. split; [done|].
  destruct (Dirty fl); [by right|left; auto].
Qed.

Lemma nibbles_bytes k : nibbles k -> is_bytes k.
Proof. intros Hk. eapply Forall_impl; [exact Hk|]. unfold is_nibble, is_byte. lia. Qed.

(** The value of a short node, after its child is committed. *)
Lemma commit_short_val k n t path s :
  repr n t -> wfN (PShort k t) -> nodeHashed n -> nonzero t -> no16 t -> is_bytes path ->
  (wfN t -> commit_ok n t) ->
  exists v' s1,
    (match n with FullNode _ _ => commit (path ++ k) n | _ => mret n end) s = (Ok v', s1) /\
    Marshal v' = Ok (phash t) /\ frame path s s1 /\ grows t s s1 /\
    (covers (path ++ k) s1 t /\ is_bytes k \/ exists v, t = PVal v).
Proof.
  intros Hr Hw Hn Hz H16 Hp IH. inversion Hw as [p v Hnp Hv|? ts Hk Hnk Hf|]; subst.
  - inversion Hr as [| | | |? Hs]; subst; [|by inversion Hs].
    do 2 eexists. split; [reflexivity|]. split_and!; [done|apply frame_refl|apply grows_refl|eauto].
  - pose proof (nibbles_bytes _ Hnk) as Hkb.
    inversion Hr as [| | |cs fl|? Hs]; subst.
    + destruct (IH Hf (path ++ k) s) as (s1 & E & F & C & G); [by apply Forall_app|].
      do 2 eexists. split; [exact E|]. split_and!; [done|by eapply frame_widen|done|by left].
    + do 2 eexists. split; [reflexivity|].
      split_and!; [done|apply frame_refl|apply grows_refl|left; split; [by apply covers_stored|done]].
Qed.

Lemma frame_nodes path s1 s2 s3 : Nodes s3 = Nodes s2 -> frame path s1 s2 -> frame path s1 s3.
Proof. intros E F q Hq. rewrite E. by apply F. Qed.

Lemma covers_nodes path s1 s2 t : Nodes s2 = Nodes s1 -> covers path s1 t -> covers path s2 t.
Proof. intros E C db' He Hdb. apply C; [done|]. by rewrite <- E. Qed.

Lemma commit_short_ok k n fl t :
  repr n t -> wfN (PShort k t) -> flag_ok dbGet fl (PShort k t) -> kid_hashed fl n ->
  Hash fl <> None -> nonzero (PShort k t) -> no16 t ->
  (wfN t -> nodeHashed n -> commit_ok n t) -> commit_ok (ShortNode k n fl) (PShort k t).
Proof.
  intros Hr Hw Hfl Hkh Hh Hz H16 IH.
  destruct (flag_cases _ _ Hfl Hh) as [Eh [[Ed Hs]|Ed]].
  { apply commit_stored; [done|done|]. intros path s. cbn [TrieHash.commit]. by rewrite Eh, Ed. }
  unfold kid_hashed in Hkh. rewrite Eh in Hkh. apply nonzero_short_inv in Hz as [Hz0 Hz].
  intros path s Hp.
  destruct (commit_short_val k n t path s) as (v' & s1 & E1 & Em & F1 & G1 & C1); auto.
  destruct (store_ok path (ShortNode (compact k) v' fl) (PShort k t) s1 Hw)
    as (s2 & E2 & Es2).
  { cbn. by rewrite Eh, Ed. }
  { cbn. by rewrite Em. }
  exists s2. cbn [TrieHash.commit]. rewrite Eh, Ed.
  rewrite (stm_bind_Ok _ _ _ _ _ E1), (HexToCompact_wf _ _ Hw), lift_Ok, (stm_bind_Ok _ _ _ _ _ E2).
  split; [done|]. split.
  { eapply frame_nodes; [exact Es2|]. eapply frame_trans; [exact F1|apply frame_AddNode]. }
  split.
  2:{ eapply grows_trans; [|by eapply grows_store]. eapply grows_sub; [|exact G1]. apply subtrees_short. }
  intros db' He Hdb. pose proof (store_covers path _ _ _ Hw Es2 db' Hdb) as Hblob.
  destruct C1 as [[C1 Hkb]|[v ->]]; [|by constructor].
  assert (Hs : stored db' t).
  { eapply (covers_below path k s2 t db'); [done| |done|done].
    eapply covers_nodes; [exact Es2|]. apply covers_AddNode; try done.
    by eapply wfN_short_key_nonempty. }
  inversion Hw; subst; constructor; done.
Qed.

(** ** The children of a full node *)

Definition kid_commit_ok (i : nat) (c : Node) (t : ptree) : Prop :=
  (c = NilNode /\ t = PNil) \/ ((i < 16)%nat /\ c <> NilNode /\ t <> PNil /\ commit_ok c t).

Lemma commitKid_eq path c s :
  c <> NilNode ->
  (match c with NilNode => mret NilNode | HashNode h => mret (HashNode h) | _ => commit path c end) s
  = commit path c s.
Proof. by destruct c. Qed.

(** The loop from child [i] on: it leaves what is below other children alone. *)
Definition kids_frame (path : bytes) (i : nat) (s s' : NodeSet) : Prop :=
  forall q, (forall j r, (i <= j < 256)%nat -> is_bytes r -> q <> EncodeToString (path ++ Z.of_nat j :: r)) ->
    Nodes s' !! q = Nodes s !! q.

Lemma kids_frame_covers path i j s s' t :
  is_bytes path -> (j < i)%nat -> (i < 256)%nat -> kids_frame path i s s' ->
  covers (path ++ [Z.of_nat j]) s t -> covers (path ++ [Z.of_nat j]) s' t.
Proof.
  intros Hp Hj Hi F C db' He Hdb. apply C; [done|]. intros r w Hr Hl.
  apply (Hdb r); [done|]. rewrite F; [done|]. intros j' r' Hj' Hr'. rewrite <- app_assoc. intros E.
  assert (Hb : forall x, (x < 256)%nat -> is_byte (Z.of_nat x)) by (unfold is_byte; lia).
  apply Encode_path_inj in E; [|done|constructor; [apply Hb; lia|done]..]. simpl in E.
  injection E as E _. lia.
Qed.

Lemma kids_frame_step path i s1 s2 s3 :
  (i < 256)%nat -> frame (path ++ [Z.of_nat i]) s1 s2 -> kids_frame path (S i) s2 s3 -> kids_frame path i s1 s3.
Proof.
  intros Hi F K q Hq. rewrite K by (intros; apply Hq; [lia|done]).
  apply F. intros r Hr. rewrite <- app_assoc. apply Hq; [lia|done].
Qed.

(** One turn of the loop. *)
Lemma commitKid_ok path i c t s :
  is_bytes path -> (i < 17)%nat -> kid_commit_ok i c t ->
  exists c' s1,
    (if Z.of_nat i <? 16 then
       match c with NilNode => mret NilNode | HashNode h => mret (HashNode h)
       | _ => commit (path ++ [Z.of_nat i]) c end
     else mret c) s = (Ok c', s1) /\
    marshalKid c' = Ok (kidBytes zeroHash i (t, phash t)) /\
    frame (path ++ [Z.of_nat i]) s s1 /\ grows t s s1 /\
    (t <> PNil -> covers (path ++ [Z.of_nat i]) s1 t).
Proof.
  intros Hp Hi Hk. destruct Hk as [[-> ->]|(Hi16 & Hc & Ht & Hok)].
  - exists NilNode, s. split_and!; [by destruct (Z.of_nat i <? 16)| |apply frame_refl|apply grows_refl|done].
    unfold kidBytes, marshalKid. cbn [fst snd]. by destruct (16 <=? i)%nat.
  - destruct (Hok (path ++ [Z.of_nat i]) s) as (s1 & E & F & C & G).
    { apply Forall_app. split; [done|]. constructor; [unfold is_byte; lia|constructor]. }
    exists (HashNode (phash t)), s1. rewrite (proj2 (Z.ltb_lt _ _)) by lia.
    rewrite commitKid_eq by done. split_and!; [done|by destruct t|done|done|done].
Qed.

Lemma commitKids_ok cs : forall ts i path s,
  is_bytes path -> length cs = length ts -> (i + length cs <= 17)%nat ->
  (forall j c t, cs !! j = Some c -> ts !! j = Some t -> kid_commit_ok (i + j) c t) ->
  exists cs' s',
    commitKids (fun p c => commit p c) path (Z.of_nat i) cs s = (Ok cs', s') /\
    mapO marshalKid cs' = Ok (imap (fun j => kidBytes zeroHash (i + j)) ((fun t => (t, phash t)) <$> ts)) /\
    kids_frame path i s s' /\
    (forall T, (forall j t u, ts !! j = Some t -> u ∈ subtrees t -> u ∈ subtrees T) -> grows T s s') /\
    (forall j t, ts !! j = Some t -> t <> PNil -> covers (path ++ [Z.of_nat (i + j)]) s' t).
Proof.
  induction cs as [|c cs IH]; intros [|t ts] i path s Hp Hlen Hi Hk; simpl in Hlen; try discriminate Hlen.
  - exists [], s. split_and!; [done|done|by intros q _|intros; apply grows_refl|]. intros j t. by rewrite lookup_nil.
  - simpl in Hi. pose proof (Hk 0%nat c t eq_refl eq_refl) as Hk0. rewrite Nat.add_0_r in Hk0.
    destruct (commitKid_ok path i c t s Hp ltac:(lia) Hk0) as (c' & s1 & E1 & Em & F1 & G1 & C1).
    destruct (IH ts (S i) path s1 Hp ltac:(lia) ltac:(lia)) as (cs' & s2 & E2 & Ems & F2 & G2 & C2).
    { intros j c2 t2 Hc2 Ht2. specialize (Hk (S j) c2 t2 Hc2 Ht2). by rewrite Nat.add_succ_r in Hk. }
    replace (Z.of_nat (S i)) with (Z.of_nat i + 1) in E2 by lia.
    exists (c' :: cs'), s2. split_and!.
    + cbn [commitKids]. rewrite (stm_bind_Ok _ _ _ _ _ E1), (stm_bind_Ok _ _ _ _ _ E2). done.
    + cbn [mapO]. rewrite Em. cbn. rewrite Ems. cbn. rewrite Nat.add_0_r. do 2 f_equal.
      apply imap_ext. intros j x _. simpl. f_equal. lia.
    + eapply kids_frame_step; [lia|done|done].
    + intros T HT. eapply grows_trans.
      * eapply grows_sub; [|exact G1]. intros u. by apply (HT 0%nat).
      * apply G2. intros j t' u Ht'. by apply (HT (S j)).
    + intros [|j] t'; simpl.
      * intros [= <-] Hne. rewrite Nat.add_0_r.
        apply (kids_frame_covers path (S i) i s1); [done|lia|lia|exact F2|by apply C1].
      * intros Ht' Hne. rewrite Nat.add_succ_r. by apply (C2 j t').
Qed.

Lemma stored_full_covers path ts s s1 :
  wfN (PFull ts) -> no16 (PFull ts) -> phash (PFull ts) <> zeroHash -> is_bytes path ->
  (forall j t, ts !! j = Some t -> t <> PNil -> covers (path ++ [Z.of_nat j]) s1 t) ->
  Nodes s = Nodes (AddNode path (New (phash (PFull ts)) (pblob (PFull ts))) s1) ->
  covers path s (PFull ts).
Proof.
  intros Hw H16 Hz Hp C Es db' He Hdb.
  pose proof (store_covers path _ _ _ Hw Es db' Hdb) as Hblob.
  apply no16_full_inv in H16 as [_ H16].
  constructor; [done..| |done]. intros i t Hi Ht Hne.
  assert (Hb : is_bytes [Z.of_nat i]) by (constructor; [unfold is_byte; lia|constructor]).
  eapply (covers_below path [Z.of_nat i] s t db'); [done| |done|done].
  eapply covers_nodes; [exact Es|]. apply covers_AddNode; auto.
Qed.

Lemma commit_full_ok cs fl ts :
  length cs = length ts ->
  (forall i c t, cs !! i = Some c -> ts !! i = Some t -> kid_commit_ok i c t) ->
  wfN (PFull ts) -> flag_ok dbGet fl (PFull ts) -> Hash fl <> None ->
  nonzero (PFull ts) -> no16 (PFull ts) -> commit_ok (FullNode cs fl) (PFull ts).
Proof.
  intros Hlen Hk Hw Hfl Hh Hz H16.
  destruct (flag_cases _ _ Hfl Hh) as [Eh [[Ed Hs]|Ed]].
  { apply commit_stored; [done|done|]. intros path s. cbn [TrieHash.commit]. by rewrite Eh, Ed. }
  apply nonzero_full_inv in Hz as [Hz _]. intros path s Hp.
  assert (Hl17 : length ts = 17%nat) by (by inversion Hw).
  destruct (commitKids_ok cs ts 0 path s Hp Hlen) as (cs' & s1 & E1 & Em & F1 & G1 & C1); [lia|done|].
  destruct (store_ok path (FullNode cs' fl) (PFull ts) s1 Hw) as (s2 & E2 & Es2).
  { cbn. by rewrite Eh, Ed. }
  { rewrite Marshal_full, Em. done. }
  exists s2. cbn [TrieHash.commit]. rewrite Eh, Ed.
  rewrite (stm_bind_Ok _ _ _ _ _ E1), (stm_bind_Ok _ _ _ _ _ E2).
  split; [done|]. split_and!; [|by eapply stored_full_covers|].
  2:{ eapply grows_trans; [|by eapply grows_store]. apply G1. intros j t u Ht. by eapply subtrees_full. }
  eapply frame_nodes; [exact Es2|]. eapply frame_trans; [|apply frame_AddNode].
  intros q Hq. apply F1. intros j r Hj Hr. apply Hq. constructor; [unfold is_byte; lia|done].
Qed.

(** Committing a hashed node returns its hash and covers its tree. *)
Lemma commit_correct n : forall t,
  repr n t -> wfN t -> nodeHashed n -> nonzero t -> no16 t -> commit_ok n t.
Proof.
  induction n as [|v|h|k n fl IH|cs fl IH] using Node_ind'; intros t Hr Hw Hn Hz H16.
  - inversion Hr; subst. by inversion Hw.
  - inversion Hr; subst. by inversion Hw.
  - inversion Hr; subst. by apply commit_stored.
  - inversion Hr as [| |? ? ? t' Hr' Hfl Hkh| |]; subst. cbn in Hn.
    assert (no16 t') by (by inversion H16). pose proof (nonzero_short_inv _ _ Hz) as [_ Hz'].
    apply commit_short_ok; auto.
  - inversion Hr as [| | |? ? ts Hlen Hkids Hfl Hkh|]; subst. cbn in Hn.
    pose proof (no16_full_inv _ H16) as [H16k H16v]. pose proof (nonzero_full_inv _ Hz) as [_ Hzk].
    apply commit_full_ok; try done. intros i c t Hc Ht.
    pose proof (Hkids i c t Hc Ht) as Hrc. destruct (decide (t = PNil)) as [->|Hne].
    { left. split; [|done]. inversion Hrc as [| | | |? Hs]; [done|by inversion Hs]. }
    assert (Hi : (i < 16)%nat).
    { pose proof (lookup_lt_Some _ _ _ Ht). assert (length ts = 17%nat) by (by inversion Hw).
      destruct (decide (i = 16%nat)) as [->|]; [congruence|lia]. }
    right. split_and!; [done|intros ->; inversion Hrc; congruence|done|].
    rewrite Forall_lookup in IH. apply (IH i c Hc t); eauto.
    + destruct (wfN_child _ _ _ Hw Hi Ht); [done|done].
    + specialize (Hkh i c Hc). unfold kid_hashed in Hkh. by destruct (Hash fl).
Qed.
End Db.

(** ** Commit *)

Lemma covers_holds dbGet s t db' : covers dbGet [] s t -> keeps dbGet db' -> holds db' s -> stored db' t.
Proof. intros C He Hh. apply C; [done|]. intros r w _ Hl. by apply (Hh _ w Hl). Qed.

(** What a commit that returned the node set [nodes] guarantees. *)
Definition committed_to (dbGet : bytes -> outcome bytes) (nodes : option NodeSet) (T : ptree) : Prop :=
  forall db', keeps dbGet db' -> match nodes with None => True | Some s => holds db' s end -> stored db' T.

Lemma hashed_clean dbGet n T h :
  repr dbGet n T -> nodeHashed n -> Cache n = Ok (h, false) -> stored dbGet T.
Proof.
  intros Hr Hn Ec. destruct Hr as [| |k m fl t Hr Hfl _|cs fl ts Hl Hk Hfl _|t Hs]; [done|done| | |done];
    cbn in Ec, Hn; injection Ec as _ Ed; unfold flag_ok in Hfl;
    (destruct (Hash fl); [|done]); by destruct Hfl as [_ Hfl]; apply Hfl.
Qed.

Lemma good_addDeleted R paths s : good R s -> good R (addDeleted paths s).
Proof.
  revert s. induction paths as [|p paths IH]; intros s Hg; [done|]. apply IH.
  intros q w. cbn. rewrite lookup_insert_Some. intros [[_ <-]|[_ Hl]]; [by left|by eapply Hg].
Qed.

Lemma Commit_nonempty dbGet collectLeaf t T :
  trie_ok dbGet t T -> T <> PNil -> nonzero T -> no16 T ->
  exists nodes t', Commit collectLeaf t = (Ok (phash T, nodes, oldKeys (tracer t)), t') /\
    trie_ok dbGet t' T /\ committed_to dbGet nodes T /\
    match nodes with None => True | Some s => good T s end.
Proof.
  intros Hok Hne Hz H16. pose proof Hok as [Hr Hw Ho]. destruct Hw as [|Hw]; [done|].
  assert (Hcopy : trie_ok dbGet (CopyTrie t) T) by (by split; [|right|]).
  destruct (HashTrie_correct dbGet _ _ Hcopy) as (ct & Eh & [Hrc _ _] & Hn & _).
  assert (Hroot : forall X (a b : X), match root t with NilNode => a | _ => b end = b).
  { intros X a b. destruct (root t); [by inversion Hr|done..]. }
  unfold Commit. rewrite Eh, Hroot.
  assert (Hc : exists h d, Cache (root ct) = Ok (h, d)).
  { destruct (root ct); cbn; eauto. inversion Hrc; subst; [by inversion Hw]. }
  destruct Hc as (h & d & Ec). rewrite Ec.
  destruct (commit_correct dbGet collectLeaf (accessList (tracer t)) (root ct) T Hrc Hw Hn Hz H16 []
              (addDeleted (deletedNodes (tracer t)) NewNodeSet)) as (s' & Es & _ & Cv & Gr); [constructor|].
  assert (Ecn : CommitNode collectLeaf (accessList (tracer t)) (root ct)
                  (addDeleted (deletedNodes (tracer t)) NewNodeSet) = (Ok (phash T), s')).
  { unfold CommitNode. rewrite (stm_bind_Ok _ _ _ _ _ Es). done. }
  rewrite Ecn.
  destruct d.
  - exists (Some s'). eexists. split; [reflexivity|]. split; [by split; [|right|]|].
    split; [intros db' He Hh; by eapply covers_holds|].
    apply (Gr T); [done|]. apply good_addDeleted. intros p w. cbn. by rewrite lookup_empty.
  - exists None. eexists. split; [reflexivity|]. split; [by split; [|right|]|].
    split; [|done]. intros db' He _. apply He; [|done]. by eapply hashed_clean.
Qed.

(** ** Reopening *)

Lemma NewTrie_stored db T isH :
  stored db T -> wfN T -> phash T <> EmptyRootHash ->
  exists t, NewTrie db (phash T) isH = Ok t /\ trie_ok db t T /\ isHash t = isH.
Proof.
  intros Hs Hw He. destruct (stored_db db T Hs) as [_ Hz].
  destruct (resolve_stored db T [] newTracer Hs Hw) as (n & E & Hr & _).
  unfold NewTrie. rewrite !bool_decide_eq_false_2 by done. cbn [negb andb]. rewrite E.
  eexists. split; [reflexivity|]. split; [|done]. split; [done|by right|done].
Qed.
End Commit.
