(* ===== verification/Instances.v ===== *)
(** * Concrete parameters

    Executable instances of the parameters of the development ([EthLib] and
    [MPTProto]) with proofs of their laws: they show that the laws can hold
    together, and the witnesses of the properties are evaluated on them.  The
    hash is a 32-byte polynomial checksum standing in for Keccak-256, and the
    message codec is length-prefixed; the conversions are those of
    go-ethereum. *)

From S2P Require Import Prelude TrieEncoding TrieNode.

Local Open Scope Z_scope.

(** ** Hash and conversions *)

Definition toyHashByte (b : bytes) (i : Z) : Z :=
  foldl (fun a x => (a * (2 * i + 33) + x + 1) mod 256) (i + 7) b mod 256.

Definition toyKeccak (b : bytes) : bytes := toyHashByte b <$> seqZ 0 32.

(** [BytesToHash] and [BytesToAddress] keep the last bytes of a long slice and
    pad a short one with zeros on the left. *)
Definition leftPad (n : nat) (b : bytes) : bytes :=
  replicate (n - length b) 0 ++ drop (length b - n) b.

Definition unhexDigit (c : Z) : option Z :=
  if (48 <=? c) && (c <=? 57) then Some (c - 48)
  else if (97 <=? c) && (c <=? 102) then Some (c - 87)
  else if (65 <=? c) && (c <=? 70) then Some (c - 55)
  else None.

Fixpoint unhex (s : bytes) : bytes :=
  match s with
  | a :: b :: s' =>
      match unhexDigit a, unhexDigit b with
      | Some x, Some y => (16 * x + y) :: unhex s'
      | _, _ => []
      end
  | _ => []
  end.

Definition toyFromHex (s : bytes) : bytes :=
  let s := match s with
           | 48 :: x :: s' => if (x =? 120) || (x =? 88) then s' else s
           | _ => s
           end in
  unhex (if Nat.odd (length s) then 48 :: s else s).

#[export] Instance toyEthLib : EthLib := {|
  Keccak256 := toyKeccak;
  BytesToHash := leftPad 32;
  BytesToAddress := leftPad 20;
  FromHex := toyFromHex;
  Hex a := 48 :: 120 :: EncodeToString a
|}.

Lemma length_leftPad n b : length (leftPad n b) = n.
Proof. unfold leftPad. rewrite length_app, length_replicate, length_drop. lia. Qed.

Lemma leftPad_id n b : length b = n -> leftPad n b = b.
Proof. intros <-. unfold leftPad. rewrite Nat.sub_diag. done. Qed.

Lemma leftPad_bytes n b : is_bytes b -> is_bytes (leftPad n b).
Proof.
  intros Hb. unfold leftPad. apply Forall_app. split; [by apply Forall_replicate|by apply Forall_drop].
Qed.

Lemma unhex_hexDigit n : 0 <= n < 16 -> unhexDigit (hexDigit n) = Some n /\ hexDigit n <> 120 /\ hexDigit n <> 88.
Proof.
  intros Hn. assert (Hc : n ∈ seqZ 0 16) by (apply elem_of_seqZ; lia).
  clear Hn. revert n Hc. apply Forall_forall. apply (bool_decide_unpack _). vm_compute. exact I.
Qed.

Lemma unhex_encode b : is_bytes b -> unhex (EncodeToString b) = b.
Proof.
  induction 1 as [|x b Hx Hb IH]; [done|]. unfold is_byte in Hx. cbn [EncodeToString unhex].
  destruct (unhex_hexDigit (x / 16)) as [-> _]; [split; [apply Z.div_pos; lia|apply Z.div_lt_upper_bound; lia]|].
  destruct (unhex_hexDigit (x mod 16)) as [-> _]; [apply Z.mod_pos_bound; lia|].
  rewrite IH. f_equal. rewrite (Z.div_mod x 16) at 3 by lia. lia.
Qed.

Lemma even_encode b : Nat.odd (length (EncodeToString b)) = false.
Proof. induction b; [done|]. simpl. done. Qed.

Lemma toyFromHex_encode b : is_bytes b -> toyFromHex (EncodeToString b) = b.
Proof.
  intros Hb. assert (E : unhex (if Nat.odd (length (EncodeToString b)) then 48 :: EncodeToString b else EncodeToString b) = b).
  { by rewrite even_encode, unhex_encode. }
  rewrite <- E at 2. unfold toyFromHex. destruct Hb as [|x b Hx Hb]; [done|]. unfold is_byte in Hx.
  cbn [EncodeToString].
  destruct (unhex_hexDigit (x mod 16)) as (_ & N1 & N2); [apply Z.mod_pos_bound; lia|].
  apply Z.eqb_neq in N1, N2. rewrite N1, N2. cbn [orb].
  destruct (hexDigit (x / 16)) as [|p|p]; try done. do 6 (destruct p; try done).
Qed.

#[export] Instance toyEthLibLaws : EthLibLaws.
Proof.
  split; intros; simpl.
  - reflexivity.
  - unfold toyKeccak, is_bytes. rewrite Forall_fmap. apply Forall_true. intros i.
    unfold is_byte. cbn. unfold toyHashByte. pose proof (Z.mod_pos_bound
      (foldl (fun a x => (a * (2 * i + 33) + x + 1) mod 256) (i + 7) b) 256). lia.
  - apply length_leftPad.
  - by apply leftPad_id.
  - apply length_leftPad.
  - by apply leftPad_id.
  - reflexivity.
  - by apply toyFromHex_encode.
  - unfold toyFromHex. cbn [Z.eqb Pos.eqb orb]. by rewrite even_encode, unhex_encode.
  - do 2 (constructor; [lia|]). by apply EncodeToString_text.
Qed.

#[export] Instance toyEthBytesLaws : EthBytesLaws.
Proof. split; intros; by apply leftPad_bytes. Qed.

(** ** Message codec *)

Definition framed (b : bytes) : bytes := Z.of_nat (length b) :: b.

Fixpoint unframeAll (fuel : nat) (b : bytes) : list bytes :=
  match fuel, b with
  | S fuel, n :: b' => take (Z.to_nat n) b' :: unframeAll fuel (drop (Z.to_nat n) b')
  | _, _ => []
  end.

Lemma unframeAll_framed bs fuel :
  (length bs <= fuel)%nat -> unframeAll fuel (mjoin (framed <$> bs)) = bs.
Proof.
  revert fuel. induction bs as [|b bs IH]; intros [|fuel] Hf; simpl in *; try done; [lia|].
  rewrite Nat2Z.id, take_app_length, drop_app_length, IH by lia. done.
Qed.

Lemma length_framed bs : (length bs <= length (mjoin (framed <$> bs)))%nat.
Proof.
  induction bs as [|b bs IH]; [done|].
  change (S (length bs) <= length (framed b ++ mjoin (framed <$> bs)))%nat.
  rewrite length_app. unfold framed at 1. cbn [length]. lia.
Qed.

#[export] Instance toyMPTProto : MPTProto := {|
  marshalMPTNode m := Type_ m :: Data m;
  unmarshalMPTNode b := match b with [] => None | t :: d => Some (mkMPTNode t d) end;
  marshalMPTFullNode m := mjoin (framed <$> Nodes_ m);
  unmarshalMPTFullNode b := Some (mkMPTFullNode (unframeAll (length b) b));
  marshalMPTShortNode m := framed (Key_ m) ++ Value_ m;
  unmarshalMPTShortNode b :=
    match b with
    | [] => None
    | n :: b' => Some (mkMPTShortNode (take (Z.to_nat n) b') (drop (Z.to_nat n) b'))
    end
|}.

#[export] Instance toyMPTProtoLaws : MPTProtoLaws.
Proof.
  split; simpl.
  - by intros [].
  - intros [bs]. rewrite unframeAll_framed; [done|apply length_framed].
  - intros [k v]. simpl. by rewrite Nat2Z.id, take_app_length, drop_app_length.
  - done.
  - intros [[|b bs]]; simpl; [done|]. done.
Qed.

(** ** Messages as single numbers, by the countability of their type *)

Definition encodeMsg {A} `{Countable A} (m : A) : bytes := [Zpos (encode m)].
Definition decodeMsg {A} `{Countable A} (b : bytes) : option A :=
  match b with [Zpos p] => decode p | _ => None end.

Lemma decode_encodeMsg {A} `{Countable A} (m : A) : decodeMsg (encodeMsg m) = Some m.
Proof. apply decode_encode. Qed.
