(* ===== verification/TrieTheorems.v ===== *)
(** * The trie's contract

    The properties of the trie as its clients see it: refinement of a map,
    root hashes as digests of the contents, commit and reload, order
    independence of [GetRootHash], schedule independence of [ParallelGet], and
    how insertion treats missing nodes. *)

From S2P Require Import Prelude TrieEncoding TrieNode TrieTracer Trie TrieHash TrieSpec TrieCanon.
From S2P Require Import TrieUpdate TrieCorrect TrieInsert TrieDelete TrieMap TrieHashCorrect TrieBinding.
From S2P Require Import TrieCommit Instances.

Local Open Scope Z_scope.

(** ** Reading a tree off a loaded node

    Used to name the tree of a trie that is wholly in memory. *)

Fixpoint loaded (n : Node) : bool :=
  match n with
  | HashNode _ => false
  | ShortNode _ v _ => loaded v
  | FullNode cs _ => forallb loaded cs
  | _ => true
  end.

Fixpoint erase (n : Node) : ptree :=
  match n with
  | NilNode | HashNode _ => PNil
  | ValueNode v => PVal v
  | ShortNode k v _ => PShort k (erase v)
  | FullNode cs _ => PFull (erase <$> cs)
  end.

Section Contract.
Context `{EthLibLaws} `{MPTProtoLaws}.

Lemma repr_erase dbGet n : forall T, repr dbGet n T -> loaded n = true -> T = erase n.
Proof.
  induction n as [|v|h|k n fl IH|cs fl IH] using Node_ind'; intros T Hr Hl;
    inversion Hr as [| |? ? ? t Hr' _ _|? ? ts Hlen Hk _ _|]; subst; simpl in *; try done.
  - f_equal. by apply IH.
  - f_equal. apply list_eq_Forall2. apply Forall2_same_length_lookup_2; [by rewrite length_fmap|].
    intros i t c Ht Hc. apply list_lookup_fmap_Some in Hc as (n & -> & Hn).
    rewrite Forall_lookup in IH. eapply IH; eauto.
    rewrite forallb_forall in Hl. apply Hl, list_elem_of_In. by eapply list_elem_of_lookup_2.
Qed.

(** ** Fresh tries *)

Definition freshTrie (isH : bool) : MerklePatriciaTrie := mkTrie NilNode false newTracer isH.

Lemma freshTrie_rep db isH : trie_rep db (freshTrie isH) ∅.
Proof. exists PNil. split; [|apply rep_empty]. split; [constructor|by left|done]. Qed.

(** ** Hash as a function of the contents *)

Lemma HashTrie_rep db t m :
  trie_rep db t m ->
  exists T t', wf T /\ rep T m /\ HashTrie t = (Ok (phash T), t') /\ trie_rep db t' m.
Proof.
  intros (T & Hok & R). destruct (HashTrie_correct db t T Hok) as (t' & E & Hok' & _).
  exists T, t'. split_and!; [by destruct Hok|done|done|by exists T].
Qed.

Lemma HashTrie_same db1 db2 t1 t2 m :
  trie_rep db1 t1 m -> trie_rep db2 t2 m ->
  exists h t1' t2', HashTrie t1 = (Ok h, t1') /\ HashTrie t2 = (Ok h, t2') /\
    trie_rep db1 t1' m /\ trie_rep db2 t2' m.
Proof.
  intros R1 R2. destruct (HashTrie_rep _ _ _ R1) as (T1 & t1' & W1 & M1 & E1 & R1').
  destruct (HashTrie_rep _ _ _ R2) as (T2 & t2' & W2 & M2 & E2 & R2').
  rewrite (rep_unique T2 T1 m) in E2 by done. eauto 10.
Qed.

(** ** Sequences of updates *)

Definition mapUpdates (kvs : list (bytes * bytes)) (m : gmap bytes bytes) : gmap bytes bytes :=
  foldl (fun m kv => mapUpdate kv.1 kv.2 m) m kvs.

Lemma mapUpdates_notin kvs s m : s ∉ kvs.*1 -> mapUpdates kvs m !! s = m !! s.
Proof.
  revert m. induction kvs as [|[k v] kvs IH]; intros m Hs; simpl; [done|].
  apply not_elem_of_cons in Hs as [Hs Hs']. rewrite IH by done.
  rewrite lookup_mapUpdate. by rewrite decide_False.
Qed.

Lemma mapUpdates_in kvs s v m :
  NoDup kvs.*1 -> (s, v) ∈ kvs -> mapUpdates kvs m !! s = valueOf v.
Proof.
  revert m. induction kvs as [|[k w] kvs IH]; intros m Hn Hin; [by apply elem_of_nil in Hin|].
  simpl in Hn. apply NoDup_cons in Hn as [Hk Hn]. apply elem_of_cons in Hin as [[= -> ->]|Hin]; simpl.
  - rewrite mapUpdates_notin by done. rewrite lookup_mapUpdate. by rewrite decide_True.
  - by apply IH.
Qed.

(** Updates of distinct keys can be reordered. *)
Lemma mapUpdates_perm kvs1 kvs2 m :
  kvs1 ≡ₚ kvs2 -> NoDup kvs1.*1 -> mapUpdates kvs1 m = mapUpdates kvs2 m.
Proof.
  intros Hp Hn. assert (Hn2 : NoDup kvs2.*1) by (by rewrite <- Hp).
  apply map_eq. intros s. destruct (decide (s ∈ kvs1.*1)) as [Hs|Hs].
  - apply list_elem_of_fmap in Hs as ([k v] & -> & Hin).
    rewrite (mapUpdates_in kvs1 k v) by done. symmetry. apply mapUpdates_in; [done|]. by rewrite <- Hp.
  - rewrite !mapUpdates_notin; [done| |done]. by rewrite <- Hp.
Qed.

Definition hexPairs (data : list (bytes * bytes)) : list (bytes * bytes) :=
  (fun kv => (FromHex kv.1, kv.2)) <$> data.

Lemma updateAll_rep data t m :
  trie_rep emptyDb t m -> isHash t = false -> Forall (fun kv => is_bytes kv.1) (hexPairs data) ->
  exists t', updateAll data t = (Ok tt, t') /\ trie_rep emptyDb t' (mapUpdates (hexPairs data) m).
Proof.
  revert t m. induction data as [|[k v] data IH]; intros t m R Hh Hb; simpl; [eauto|].
  apply Forall_cons in Hb as [Hk Hb]. simpl in Hk.
  assert (Ek : hashKey t (FromHex k) = FromHex k).
  { unfold hashKey. rewrite Hh. by rewrite orb_true_r. }
  destruct R as (T & Hok & R).
  destruct (Update_tree emptyDb t T (FromHex k) v Hok) as (t1 & T1 & E1 & Hok1 & Hh1 & Hu); [by rewrite Ek|].
  rewrite Ek in Hu.
  assert (Ec : catch (Update emptyDb (FromHex k) v) (fun _ => mret tt) t = (Ok tt, t1)).
  { unfold catch. by rewrite E1. }
  rewrite (stm_bind_Ok _ _ _ _ _ Ec). apply IH; [|congruence|done].
  exists T1. split; [done|]. by eapply rep_update.
Qed.

Lemma GetRootHash_rep data :
  Forall (fun kv => is_bytes kv.1) (hexPairs data) ->
  exists T, wf T /\ rep T (mapUpdates (hexPairs data) ∅) /\ GetRootHash data = Ok (phash T).
Proof.
  intros Hb. destruct (NewTrie_empty emptyDb zeroHash false) as (t & En & R & Hh); [by left|].
  destruct (updateAll_rep data t ∅ R Hh Hb) as (t1 & E1 & R1).
  destruct (HashTrie_rep _ _ _ R1) as (T & t2 & W & M & E2 & _).
  exists T. split_and!; [done..|]. unfold GetRootHash. rewrite En. cbn [mbind outcome_bind].
  rewrite (stm_bind_Ok _ _ _ _ _ E1), E2. done.
Qed.

(** ** Parallel lookup *)

Section Parallel.
Context (dbGet : bytes -> outcome bytes).

(** The slots of [ParallelGet] after the goroutines in [done] have run. *)
Definition slots (keys : list bytes) (f : bytes -> option bytes) (done : list nat) : list (option bytes) :=
  imap (fun i k => if decide (i ∈ done) then f k else None) keys.

Lemma slots_step keys f done idx k :
  keys !! idx = Some k -> <[idx := f k]> (slots keys f done) = slots keys f (idx :: done).
Proof.
  intros Hk. apply list_eq. intros i. unfold slots. destruct (decide (idx = i)) as [->|Hne].
  - rewrite list_lookup_insert_eq by (rewrite length_imap; by eapply lookup_lt_Some).
    rewrite list_lookup_imap, Hk. simpl. by rewrite decide_True by set_solver.
  - rewrite list_lookup_insert_ne by done. rewrite !list_lookup_imap.
    destruct (keys !! i); simpl; [|done]. f_equal.
    destruct (decide (i ∈ done)); [rewrite decide_True by set_solver|rewrite decide_False by set_solver]; done.
Qed.

Lemma parallelStep_ok keys done idx errs t T m :
  trie_ok dbGet t T -> rep T m -> Forall (fun k => is_bytes (hashKey t k)) keys -> (idx < length keys)%nat ->
  exists t', parallelStep dbGet keys (slots keys (fun k => m !! hashKey t k) done, errs) idx t
    = (Ok (slots keys (fun k => m !! hashKey t k) (idx :: done), errs), t') /\
    trie_ok dbGet t' T /\ root t' = root t /\ isHash t' = isHash t.
Proof.
  intros Hok R Hks Hi. destruct (lookup_lt_is_Some_2 keys idx Hi) as [k Hk].
  rewrite Forall_lookup in Hks. specialize (Hks _ _ Hk). simpl in Hks. pose proof Hok as [Hr Hw Ho].
  set (hk := KeybytesToHex (hashKey t k)).
  destruct (get_correct dbGet (fuelFor hk) (root t) T hk 0 (tracer t)) as (n & d & tr & E & _);
    [done|rewrite drop_0; by apply wf_wfat; [apply vkey_hex|]|rewrite drop_0; apply fuelFor_ok|].
  rewrite drop_0 in E. apply onTracer_Ok in E. unfold parallelStep. rewrite Hk. fold hk. rewrite E.
  unfold hk. rewrite (rep_lookup _ _ R) by done. cbn [fst snd].
  eexists. split; [by rewrite <- (slots_step keys (fun k => m !! hashKey t k) done idx k Hk)|].
  split_and!; [|done|done]. by split.
Qed.

Lemma parallelRun_ok keys sched : forall done errs t T m,
  trie_ok dbGet t T -> rep T m -> Forall (fun k => is_bytes (hashKey t k)) keys ->
  Forall (fun i => i < length keys)%nat sched ->
  exists t', parallelRun dbGet keys sched (slots keys (fun k => m !! hashKey t k) done, errs) t
    = (Ok (slots keys (fun k => m !! hashKey t k) (reverse sched ++ done), errs), t') /\
    trie_ok dbGet t' T /\ root t' = root t.
Proof.
  induction sched as [|idx sched IH]; intros dn errs t T m Hok R Hks Hs; simpl; [eauto|].
  apply Forall_cons in Hs as [Hi Hs].
  destruct (parallelStep_ok keys dn idx errs t T m Hok R Hks Hi) as (t1 & E1 & Hok1 & Hr1 & Hh1).
  rewrite (stm_bind_Ok _ _ _ _ _ E1).
  assert (Ehk : forall k, hashKey t1 k = hashKey t k) by (intros; by apply hashKey_isHash).
  destruct (IH (idx :: dn) errs t1 T m Hok1 R) as (t2 & E2 & Hok2 & Hr2); [|done|].
  { eapply Forall_impl; [exact Hks|]. intros k. simpl. by rewrite Ehk. }
  exists t2. rewrite reverse_cons, <- app_assoc. simpl.
  assert (Es : forall d, slots keys (fun k => m !! hashKey t1 k) d = slots keys (fun k => m !! hashKey t k) d).
  { intros d. unfold slots. apply imap_ext. intros i k _. by rewrite Ehk. }
  rewrite !Es in E2. split; [exact E2|]. split; [done|congruence].
Qed.
End Parallel.
End Contract.

(** ** The properties *)

(** C1 (refinement). Every sequence of [Get] and [Update] calls on an open
    trie, loaded or partly behind hash nodes, returns without error what a
    finite map returns: [Get] is lookup, [Update] with a value is insertion,
    [Update] with no bytes is deletion, and the trie afterwards stands for the
    resulting map. *)
Theorem trie_refines_map `{EthLibLaws} `{MPTProtoLaws} dbGet os t m :
  trie_rep dbGet t m -> Forall (fun o => is_bytes (hashKey t (opKey o))) os ->
  exists t', trieOps dbGet os t = (Ok (specOps (hashKey t) os m).1, t') /\
    trie_rep dbGet t' (specOps (hashKey t) os m).2.
Proof.
  intros R Hk. destruct (trieOps_refines dbGet os t m R Hk) as (t' & E & R' & _). eauto.
Qed.

Definition sampleOps : list mapOp :=
  [OpUpdate [17] [7]; OpUpdate [18; 52] [9]; OpUpdate [18; 53] [8; 8]; OpGet [18; 52];
   OpUpdate [18; 52] []; OpGet [18; 52]; OpGet [18; 53]; OpGet [17]].

Lemma trie_refines_map_witness :
  (trieOps emptyDb sampleOps (freshTrie false)).1
  = Ok [None; None; None; Some [9]; None; None; Some [8; 8]; Some [7]].
Proof.
  destruct (trie_refines_map emptyDb sampleOps (freshTrie false) ∅) as (t' & E & _);
    [apply freshTrie_rep|apply (bool_decide_unpack _); vm_compute; exact I|].
  rewrite E. vm_compute. reflexivity.
Defined.

(** C3 (functional). The root hash is a function of the contents: two open
    tries that hold the same map, over any databases and after any histories,
    hash to the same value without error, and hashing leaves the contents. *)
Theorem root_hash_canonical `{EthLibLaws} `{MPTProtoLaws} db1 db2 t1 t2 m :
  trie_rep db1 t1 m -> trie_rep db2 t2 m ->
  exists h t1' t2', HashTrie t1 = (Ok h, t1') /\ HashTrie t2 = (Ok h, t2') /\
    trie_rep db1 t1' m /\ trie_rep db2 t2' m.
Proof. apply HashTrie_same. Qed.

Definition runOps (os : list mapOp) : MerklePatriciaTrie := (trieOps emptyDb os (freshTrie false)).2.

Lemma runOps_rep os :
  Forall (fun o => is_bytes (opKey o)) os -> trie_rep emptyDb (runOps os) (specOps (fun k => k) os ∅).2.
Proof.
  intros Hk.
  assert (Ehk : forall k, hashKey (freshTrie false) k = k) by (intros k; unfold hashKey; by rewrite orb_true_r).
  destruct (trieOps_refines emptyDb os (freshTrie false) ∅) as (t' & E & R & _).
  - apply freshTrie_rep.
  - eapply Forall_impl; [exact Hk|]. intros o. by rewrite Ehk.
  - unfold runOps. rewrite E. rewrite (specOps_ext _ (fun k => k)) in R by done. exact R.
Qed.

Lemma root_hash_canonical_witness :
  (HashTrie (runOps [OpUpdate [17] [7]; OpUpdate [18; 52] [9]])).1 =
  (HashTrie (runOps [OpUpdate [18; 52] [9]; OpUpdate [5] [1]; OpUpdate [17] [7]; OpUpdate [5] []])).1.
Proof.
  set (os1 := [OpUpdate [17] [7]; OpUpdate [18; 52] [9]]).
  set (os2 := [OpUpdate [18; 52] [9]; OpUpdate [5] [1]; OpUpdate [17] [7]; OpUpdate [5] []]).
  assert (R1 : trie_rep emptyDb (runOps os1) (specOps (fun k => k) os1 ∅).2).
  { apply runOps_rep. apply (bool_decide_unpack _). vm_compute. exact I. }
  assert (R2 : trie_rep emptyDb (runOps os2) (specOps (fun k => k) os1 ∅).2).
  { replace (specOps (fun k => k) os1 ∅).2 with (specOps (fun k => k) os2 ∅).2.
    - apply runOps_rep. apply (bool_decide_unpack _). vm_compute. exact I.
    - apply (bool_decide_unpack _). vm_compute. exact I. }
  destruct (root_hash_canonical _ _ _ _ _ R1 R2) as (h & t1 & t2 & E1 & E2 & _).
  rewrite E1, E2. reflexivity.
Defined.

Lemma runOps_ok os :
  Forall (fun o => is_bytes (opKey o)) os -> loaded (root (runOps os)) = true ->
  trie_ok emptyDb (runOps os) (erase (root (runOps os))) /\
  rep (erase (root (runOps os))) (specOps (fun k => k) os ∅).2.
Proof.
  intros Hk Hl. destruct (runOps_rep os Hk) as (T & Hok & R).
  rewrite <- (repr_erase emptyDb (root (runOps os)) T); [done|by destruct Hok|done].
Qed.

(** C2 (safety). The root hash binds the contents: two open tries, empty or
    not, whose keys all have one length and that hash to the same value hold
    the same map, or two different strings hashed for nodes of the two tries
    form a Keccak-256 collision, or exactly one of the tries is empty and a
    string hashed for a node of the other has the constant [EmptyRootHash],
    the published hash of the string 0x80, as its Keccak-256 hash. *)
Theorem root_hash_binding `{EthLibLaws} `{MPTProtoLaws} db1 db2 t1 t2 T1 T2 t1' t2' m1 m2 L h :
  trie_ok db1 t1 T1 -> rep T1 m1 -> trie_ok db2 t2 T2 -> rep T2 m2 ->
  (forall s v, m1 !! s = Some v -> length s = L) -> (forall s v, m2 !! s = Some v -> length s = L) ->
  HashTrie t1 = (Ok h, t1') -> HashTrie t2 = (Ok h, t2') ->
  m1 = m2 \/ collision T1 T2 \/
  ((m1 = ∅ /\ m2 <> ∅ /\ exists x, x ∈ preimages T2 /\ Keccak256 x = EmptyRootHash) \/
   (m2 = ∅ /\ m1 <> ∅ /\ exists x, x ∈ preimages T1 /\ Keccak256 x = EmptyRootHash)).
Proof.
  intros O1 M1 O2 M2 L1 L2 E1 E2.
  destruct (HashTrie_correct _ _ _ O1) as (u1 & F1 & _), (HashTrie_correct _ _ _ O2) as (u2 & F2 & _).
  assert (E : phash T1 = phash T2) by congruence.
  pose proof O1 as [_ W1 _]. pose proof O2 as [_ W2 _].
  pose proof (rep_no16 _ _ _ W1 M1 L1). pose proof (rep_no16 _ _ _ W2 M2 L2).
  destruct (decide (m1 = m2)) as [|Hne]; [by left|]. right.
  destruct W1 as [->|W1]; destruct W2 as [->|W2].
  - destruct Hne. by apply (rep_map_unique PNil).
  - pose proof (rep_map_unique PNil _ _ M1 rep_empty) as ->. right; left. split_and!; [done|congruence|].
    exists (hashInput T2). split; [by apply hashInput_preimages|]. by rewrite <- phash_input, <- E.
  - pose proof (rep_map_unique PNil _ _ M2 rep_empty) as ->. right; right. split_and!; [done|congruence|].
    exists (hashInput T1). split; [by apply hashInput_preimages|]. by rewrite <- phash_input, E.
  - left. destruct (phash_inj T1 W1 T2 W2) as [->|]; [done..| |done].
    destruct Hne. by eapply rep_map_unique.
Qed.

Lemma root_hash_binding_witness :
  let os := [OpUpdate [17] [7]; OpUpdate [18] [9]] in
  let m1 := (specOps (fun k => k) os ∅).2 in let m2 := (specOps (fun k => k) (reverse os) ∅).2 in
  let T1 := erase (root (runOps os)) in let T2 := erase (root (runOps (reverse os))) in
  m1 = m2 \/ collision T1 T2 \/
  ((m1 = ∅ /\ m2 <> ∅ /\ exists x, x ∈ preimages T2 /\ Keccak256 x = EmptyRootHash) \/
   (m2 = ∅ /\ m1 <> ∅ /\ exists x, x ∈ preimages T1 /\ Keccak256 x = EmptyRootHash)).
Proof.
  intros os.
  assert (Hlen : forall o s v, o = os \/ o = reverse os ->
            (specOps (fun k => k) o ∅).2 !! s = Some v -> length s = 1%nat).
  { intros o s v [->| ->]; cbn; rewrite !lookup_insert_Some, lookup_empty; naive_solver. }
  destruct (runOps_ok os) as [O1 M1]; [apply (bool_decide_unpack _); vm_compute; exact I|vm_compute; reflexivity|].
  destruct (runOps_ok (reverse os)) as [O2 M2];
    [apply (bool_decide_unpack _); vm_compute; exact I|vm_compute; reflexivity|].
  apply (root_hash_binding emptyDb emptyDb (runOps os) (runOps (reverse os)) _ _
           (HashTrie (runOps os)).2 (HashTrie (runOps (reverse os))).2 _ _ 1%nat
           (match (HashTrie (runOps os)).1 with Ok h => h | _ => [] end) O1 M1 O2 M2);
    [eauto|eauto|vm_compute; reflexivity|vm_compute; reflexivity].
Defined.

(** C4 (round trip). Commit and reload: for a non-empty open trie whose
    keys have one length, [Commit] returns the root hash and a node set such
    that in every database that still holds the old nodes and holds the live
    nodes of the set, [New] at the returned hash opens a trie with the same
    contents.  (The zero hash and the empty root hash mark absent nodes, so no
    node may hash to them.) *)
Theorem commit_reload `{EthLibLaws} `{MPTProtoLaws} dbGet collectLeaf t T m L isH :
  trie_ok dbGet t T -> rep T m -> m <> ∅ -> (forall s v, m !! s = Some v -> length s = L) ->
  nonzero T -> phash T <> EmptyRootHash ->
  exists h nodes old t', Commit collectLeaf t = (Ok (h, nodes, old), t') /\ trie_rep dbGet t' m /\
    (HashTrie t).1 = Ok h /\
    forall db', extends dbGet db' -> match nodes with None => True | Some s => holds db' s end ->
      exists t2, NewTrie db' h isH = Ok t2 /\ trie_rep db' t2 m /\ isHash t2 = isH.
Proof.
  intros Hok R Hm HL Hz He. pose proof Hok as [_ W _]. pose proof (rep_no16 _ _ _ W R HL) as H16.
  destruct W as [->|W]; [by destruct Hm; apply (rep_map_unique PNil _ _ R rep_empty)|].
  assert (HT : T <> PNil) by (intros ->; by inversion W).
  destruct (Commit_nonempty dbGet collectLeaf t T Hok HT Hz H16) as (nodes & t' & E & Hr & Hc & _).
  destruct (HashTrie_correct dbGet t T Hok) as (t1 & Eh & _).
  do 4 eexists. split; [exact E|]. split; [by exists T|]. split; [by rewrite Eh|].
  intros db' Hext Hh. destruct (NewTrie_stored db' T isH (Hc db' (extends_keeps _ _ Hext) Hh) W He) as (t2 & E2 & Hok2 & Hi).
  exists t2. split_and!; [done|by exists T|done].
Qed.

(** A database with the live nodes of a node set. *)
Definition dbOf (nodes : option NodeSet) (h : bytes) : outcome bytes :=
  match nodes with
  | None => emptyDb h
  | Some s => match list_find (fun pw => whash pw.2 = h) (map_to_list (Nodes s)) with
              | Some (_, (_, w)) => Ok (wblob w)
              | None => emptyDb h
              end
  end.

Lemma holds_Forall db s :
  Forall (fun pw => IsDeleted pw.2 = true \/ db (whash pw.2) = Ok (wblob pw.2)) (map_to_list (Nodes s)) ->
  holds db s.
Proof.
  rewrite Forall_forall. intros Hall p w Hp Hd.
  destruct (Hall (p, w)) as [E|E]; [by apply elem_of_map_to_list|simpl in E; congruence|done].
Qed.

Fixpoint nonzerob `{EthLib} `{MPTProto} (T : ptree) : bool :=
  match T with
  | PNil | PVal _ => true
  | PShort k t => bool_decide (phash (PShort k t) <> zeroHash) && nonzerob t
  | PFull ts => bool_decide (phash (PFull ts) <> zeroHash) && forallb nonzerob ts
  end.

Lemma nonzerob_sound `{EthLib} `{MPTProto} T : nonzerob T = true -> nonzero T.
Proof.
  revert T. fix IH 1. intros [| |k t|ts]; simpl; [constructor..| |].
  - rewrite andb_true_iff, bool_decide_eq_true. intros [Hz Ht]. constructor; [done|by apply IH].
  - rewrite andb_true_iff, bool_decide_eq_true. intros [Hz Hts]. constructor; [done|]. clear Hz.
    revert ts Hts. fix IHl 1. intros [|t ts]; simpl; [by intros _ i t'; rewrite lookup_nil|].
    rewrite andb_true_iff. intros [Ht Hts] [|i] t'; simpl; [intros [= <-]; by apply IH|].
    by apply IHl.
Qed.

Definition sampleTrie : MerklePatriciaTrie := runOps [OpUpdate [17] [7]; OpUpdate [18] [9]; OpUpdate [33] [5]].
Definition sampleMap : gmap bytes bytes := <[[33] := [5]]> (<[[18] := [9]]> (<[[17] := [7]]> ∅)).

Lemma sampleTrie_ok : trie_ok emptyDb sampleTrie (erase (root sampleTrie)) /\ rep (erase (root sampleTrie)) sampleMap.
Proof.
  apply (runOps_ok [OpUpdate [17] [7]; OpUpdate [18] [9]; OpUpdate [33] [5]]).
  - apply (bool_decide_unpack _). vm_compute. exact I.
  - vm_compute. reflexivity.
Qed.

Lemma sampleMap_len s v : sampleMap !! s = Some v -> length s = 1%nat.
Proof. unfold sampleMap. rewrite !lookup_insert_Some, lookup_empty. naive_solver. Qed.

Lemma commit_reload_witness :
  exists h nodes t2, (Commit true sampleTrie).1 = Ok (h, nodes, oldKeys (tracer sampleTrie)) /\
    NewTrie (dbOf nodes) h false = Ok t2 /\ trie_rep (dbOf nodes) t2 sampleMap.
Proof.
  destruct sampleTrie_ok as [Hok R].
  destruct (commit_reload emptyDb true sampleTrie _ sampleMap 1%nat false Hok R)
    as (h & nodes & old & t' & E & _ & _ & Hdb).
  - done.
  - apply sampleMap_len.
  - apply nonzerob_sound. vm_compute. reflexivity.
  - apply (bool_decide_unpack _). vm_compute. exact I.
  - assert (Eo : old = oldKeys (tracer sampleTrie)).
    { apply (f_equal fst) in E. vm_compute in E. injection E as _ _ <-. vm_compute. reflexivity. }
    destruct (Hdb (dbOf nodes)) as (t2 & E2 & R2 & _).
    + intros h' b'. discriminate.
    + assert (En : exists s, nodes = Some s /\
        bool_decide (Forall (fun pw => IsDeleted pw.2 = true \/ dbOf nodes (whash pw.2) = Ok (wblob pw.2))
                       (map_to_list (Nodes s))) = true).
      { apply (f_equal fst) in E. vm_compute in E. injection E as _ <- _.
        eexists. split; [reflexivity|]. vm_compute. reflexivity. }
      destruct En as (s & -> & Hb). apply holds_Forall. by apply bool_decide_eq_true in Hb.
    + exists h, nodes, t2. rewrite E, Eo. done.
Defined.

(** [GetRootHash] does not depend on the order in which the
    Go map is ranged over, as long as different hex strings decode to
    different keys; it never fails. *)
Theorem GetRootHash_order `{EthLibLaws} `{MPTProtoLaws} data1 data2 :
  data1 ≡ₚ data2 -> NoDup (hexPairs data1).*1 -> Forall (fun kv => is_bytes kv.1) (hexPairs data1) ->
  exists h, GetRootHash data1 = Ok h /\ GetRootHash data2 = Ok h.
Proof.
  intros Hp Hn Hb. assert (Hp' : hexPairs data1 ≡ₚ hexPairs data2) by (unfold hexPairs; by rewrite Hp).
  destruct (GetRootHash_rep data1 Hb) as (T1 & W1 & M1 & E1).
  destruct (GetRootHash_rep data2) as (T2 & W2 & M2 & E2); [by rewrite <- Hp'|].
  rewrite <- (mapUpdates_perm _ _ _ Hp' Hn) in M2.
  rewrite (rep_unique T2 T1 _ W2 W1 M2 M1) in E2. eauto.
Qed.

Definition sampleData : list (bytes * bytes) := [([49; 49], [7]); ([49; 50], [9]); ([97; 98], [1; 2])].

Lemma GetRootHash_order_witness : GetRootHash sampleData = GetRootHash (reverse sampleData).
Proof.
  destruct (GetRootHash_order sampleData (reverse sampleData)) as (h & E1 & E2).
  - symmetry. apply reverse_Permutation.
  - apply (bool_decide_unpack _). vm_compute. exact I.
  - apply (bool_decide_unpack _). vm_compute. exact I.
  - congruence.
Defined.

(** Two hex strings for one key: the result depends on the order. *)
Example GetRootHash_alias :
  GetRootHash [([49], [7]); ([48; 49], [9])] <> GetRootHash [([48; 49], [9]); ([49], [7])].
Proof. intros E. vm_compute in E. discriminate E. Qed.

(** [ParallelGet] returns the same values under every
    schedule of its goroutines, and they are the values of the map. *)
Theorem ParallelGet_schedule `{EthLibLaws} `{MPTProtoLaws} dbGet sched keys t m :
  trie_rep dbGet t m -> Forall (fun k => is_bytes (hashKey t k)) keys ->
  sched ≡ₚ seq 0 (length keys) ->
  exists t', ParallelGet dbGet sched keys t = (Ok ((fun k => m !! hashKey t k) <$> keys), t') /\
    trie_rep dbGet t' m.
Proof.
  intros (T & Hok & R) Hks Hs. pose proof Hok as [_ _ Ho].
  assert (Hin : forall i, i ∈ sched <-> (i < length keys)%nat).
  { intros i. rewrite Hs, elem_of_seq. lia. }
  assert (E0 : replicate (length keys) None = slots keys (fun k => m !! hashKey t k) []).
  { apply list_eq. intros i. unfold slots. rewrite list_lookup_imap. destruct (keys !! i) eqn:Ek; simpl.
    - by rewrite lookup_replicate_2 by (by eapply lookup_lt_Some).
    - apply lookup_replicate_None. by apply lookup_ge_None_1. }
  destruct (parallelRun_ok dbGet keys sched [] (replicate (length keys) None) t T m Hok R Hks)
    as (t' & E & Hok' & _).
  { apply Forall_forall. intros i. apply Hin. }
  exists t'. split; [|by exists T]. unfold ParallelGet. rewrite (stm_bind_Ok getTrie _ t t t) by done.
  rewrite Ho. rewrite E0 at 1. rewrite (stm_bind_Ok _ _ _ _ _ E).
  rewrite decide_True by (by apply Forall_replicate).
  unfold mret, stm_ret. do 2 f_equal. unfold slots. apply list_eq. intros i.
  rewrite list_lookup_imap, list_lookup_fmap. destruct (keys !! i) eqn:Ek; simpl; [|done].
  rewrite decide_True; [done|]. rewrite app_nil_r, elem_of_reverse. apply Hin. by eapply lookup_lt_Some.
Qed.

Lemma ParallelGet_schedule_witness :
  (ParallelGet emptyDb [2; 0; 1]%nat [[18]; [34]; [33]] sampleTrie).1 = Ok [Some [9]; None; Some [5]].
Proof.
  destruct (ParallelGet_schedule emptyDb [2; 0; 1]%nat [[18]; [34]; [33]] sampleTrie sampleMap) as (t' & E & _).
  - exists (erase (root sampleTrie)). apply sampleTrie_ok.
  - apply (bool_decide_unpack _). vm_compute. exact I.
  - apply (bool_decide_unpack _). vm_compute. exact I.
  - rewrite E. vm_compute. reflexivity.
Defined.

(** Insertion never returns an error, on any node, trie and
    database: a [MissingNodeError] met on the way is swallowed by the
    hash-node case, which goes on as if the subtree were empty. *)
Theorem insert_no_error `{EthLib} `{MPTProto} dbGet fuel n prefix key value tr e :
  (insert dbGet fuel n prefix key value tr).1 <> Err e.
Proof.
  revert n prefix key value tr.
  induction fuel as [|fuel IH]; intros n prefix key value tr; [done|].
  assert (Hb : forall A B (m : stm Tracer A) (f : A -> stm Tracer B) s,
            (m s).1 <> Err e -> (forall a s', (f a s').1 <> Err e) -> ((m ≫= f) s).1 <> Err e).
  { intros A B m f s Hm Hf. unfold mbind, stm_bind. destruct (m s) as [[] ?]; simpl in *; congruence || done. }
  assert (Hs : forall i c cs s, (lift (setChild i c cs) s : outcome (list Node) * Tracer).1 <> Err e).
  { intros i c cs s. unfold lift, setChild. by case_match. }
  destruct key as [|k0 krest]; [destruct n; try done; by destruct value|].
  destruct n as [|v|h|nk nval fl|cs fl]; cbn [insert]; [done|done| | |].
  - destruct (resolveAndTrack dbGet h prefix tr) as [[] tr']; try done; try apply IH.
    apply Hb; [apply IH|]. intros [d nn] s. by destruct d.
  - case_match.
    + apply Hb; [apply IH|]. intros [d nn] s. by destruct d.
    + case_match; [|done]. case_match; [|done].
      apply Hb; [apply IH|]. intros [_ c1] s. apply Hb; [apply Hs|]. intros cs1 s1.
      apply Hb; [apply IH|]. intros [_ c2] s2. apply Hb; [apply Hs|]. intros cs2 s3. by case_match.
  - case_match; [|done]. apply Hb; [apply IH|]. intros [d nn] s. by destruct d.
Qed.

(** A committed trie over a database that lost the node below the root: the
    update succeeds, and the entries of the lost subtree are gone. *)
Example insert_loses_subtree :
  let t := mkTrie (HashNode (replicate 32 1)) false newTracer false in
  (Get emptyDb [17] t).1 = Err (MissingNodeError (replicate 32 1) []) /\
  exists t', Update emptyDb [18] [9] t = (Ok tt, t') /\ (Get emptyDb [17] t').1 = Ok None.
Proof. split; [vm_compute; reflexivity|]. eexists. split; vm_compute; reflexivity. Qed.

(** * Traversals

    [GetAll] and [Count] visit every value of the trie exactly once, loading
    the nodes that are behind hashes. *)

Section ptree_ind'.
Context (P : ptree -> Prop).
Context (HNil : P PNil) (HVal : forall v, P (PVal v)).
Context (HShort : forall k t, P t -> P (PShort k t)).
Context (HFull : forall ts, Forall P ts -> P (PFull ts)).
Fixpoint ptree_ind' (t : ptree) : P t :=
  match t with
  | PNil => HNil
  | PVal v => HVal v
  | PShort k t => HShort k t (ptree_ind' t)
  | PFull ts =>
      HFull ts ((fix go l : Forall P l :=
        match l with
        | [] => Forall_nil_2 P
        | c :: l' => Forall_cons_2 P c l' (ptree_ind' c) (go l')
        end) ts)
  end.
End ptree_ind'.

(** ** The entries of a tree, in the order they are visited *)

Fixpoint kidEntries (i : Z) (ess : list (list (bytes * bytes))) : list (bytes * bytes) :=
  match ess with
  | [] => []
  | es :: ess' => ((fun kv => (i :: kv.1, kv.2)) <$> es) ++ kidEntries (i + 1) ess'
  end.

Fixpoint entries (T : ptree) : list (bytes * bytes) :=
  match T with
  | PNil => []
  | PVal v => [([], v)]
  | PShort k t => (fun kv => (k ++ kv.1, kv.2)) <$> entries t
  | PFull ts => kidEntries 0 (entries <$> ts)
  end.

Lemma elem_of_kidEntries i ess k v :
  (k, v) ∈ kidEntries i ess <->
  exists j es k', ess !! j = Some es /\ k = (i + Z.of_nat j) :: k' /\ (k', v) ∈ es.
Proof.
  revert i. induction ess as [|es ess IH]; intros i; simpl.
  - rewrite elem_of_nil. split; [done|]. intros (j & es & k' & Hl & _). by rewrite lookup_nil in Hl.
  - rewrite elem_of_app, list_elem_of_fmap, IH. split.
    + intros [([k' w] & [= -> ->] & Hin)|(j & es' & k' & Hl & -> & Hin)].
      * exists 0%nat, es, k'. split_and!; [done|f_equal; lia|done].
      * exists (S j), es', k'. split_and!; [done|f_equal; lia|done].
    + intros ([|j] & es' & k' & Hl & -> & Hin); simpl in Hl.
      * left. exists (k', v). injection Hl as ->. split; [simpl; do 2 f_equal; lia|done].
      * right. exists j, es', k'. split_and!; [done|f_equal; lia|done].
Qed.

(** An entry is what a lookup finds. *)
Lemma entries_plookup T k v : (k, v) ∈ entries T -> plookup T k = Some v.
Proof.
  revert k v. induction T as [|w|sk t IH|ts IH] using ptree_ind'; intros k v; simpl entries.
  - by rewrite elem_of_nil.
  - rewrite list_elem_of_singleton. by intros [= -> ->].
  - rewrite list_elem_of_fmap. intros ([k' w] & [= -> ->] & Hin). rewrite plookup_short_app. by apply IH.
  - rewrite elem_of_kidEntries. intros (j & es & k' & Hl & -> & Hin).
    apply list_lookup_fmap_Some in Hl as (t & -> & Ht). rewrite plookup_full.
    rewrite Z.add_0_l, Nat2Z.id, Ht. rewrite Forall_lookup in IH. by apply (IH j t).
Qed.

Lemma plookup_entries T k v :
  Forall (fun z => 0 <= z) k -> plookup T k = Some v -> (k, v) ∈ entries T.
Proof.
  revert k v. induction T as [|w|sk t IH|ts IH] using ptree_ind'; intros k v Hk; [done|..].
  - simpl. destruct k; [intros [= ->]; by apply list_elem_of_singleton|done].
  - intros (k' & -> & Hl)%plookup_short_Some. simpl. apply list_elem_of_fmap. exists (k', v).
    split; [done|]. apply Forall_app in Hk as [_ Hk]. by apply IH.
  - destruct k as [|i k]; [done|]. rewrite plookup_full.
    destruct (ts !! Z.to_nat i) as [t|] eqn:Ht; [|done]. intros Hl.
    apply Forall_cons in Hk as [Hi Hk]. simpl. apply elem_of_kidEntries.
    exists (Z.to_nat i), (entries t), k. rewrite list_lookup_fmap, Ht.
    split_and!; [done|f_equal; lia|]. rewrite Forall_lookup in IH. by apply (IH _ t Ht).
Qed.

Lemma NoDup_fst_fmap (f : bytes -> bytes) (es : list (bytes * bytes)) :
  (forall x y, f x = f y -> x = y) -> NoDup es.*1 -> NoDup ((fun kv => (f kv.1, kv.2)) <$> es).*1.
Proof.
  intros Hf Hn. rewrite <- list_fmap_compose.
  replace (fst ∘ (fun kv => (f kv.1, kv.2)) <$> es) with (f <$> es.*1);
    [|by rewrite <- list_fmap_compose].
  by apply NoDup_fmap_2.
Qed.

Lemma kidEntries_NoDup i ess : Forall (fun es => NoDup es.*1) ess -> NoDup (kidEntries i ess).*1.
Proof.
  revert i. induction ess as [|es ess IH]; intros i; simpl; [constructor|].
  intros [He Hes]%Forall_cons. rewrite fmap_app. apply NoDup_app. split_and!.
  - apply NoDup_fst_fmap; [|done]. by intros x y [= ->].
  - intros k Hk Hk'. apply list_elem_of_fmap in Hk as ([k1 v1] & -> & Hk).
    apply list_elem_of_fmap in Hk as ([k2 v2] & [= -> ->] & _).
    apply list_elem_of_fmap in Hk' as ([k3 v3] & E & Hk'). simpl in E. subst k3.
    apply elem_of_kidEntries in Hk' as (j & ? & ? & _ & [= E _] & _). lia.
  - by apply IH.
Qed.

Lemma entries_NoDup T : NoDup (entries T).*1.
Proof.
  induction T as [|w|sk t IH|ts IH] using ptree_ind'; simpl.
  - constructor.
  - by apply NoDup_singleton.
  - apply NoDup_fst_fmap; [|done]. intros x y. apply app_inv_head.
  - apply kidEntries_NoDup. rewrite Forall_fmap. exact IH.
Qed.

Lemma entries_vkey T k v : wfN T -> (k, v) ∈ entries T -> vkey k.
Proof.
  intros Hw. revert k v.
  induction Hw as [p w Hp Hv|sk ts Hk Hn Hf IH|ts Hlen Hkids IH Hval Htwo]; intros k v.
  - simpl. rewrite list_elem_of_singleton. intros [= -> ->]. rewrite app_nil_r. by exists p.
  - intros ([k' w] & [= -> ->] & Hin)%list_elem_of_fmap. apply vkey_app_nibbles; [done|]. by eapply IH.
  - simpl. rewrite elem_of_kidEntries. intros (j & es & k' & Hl & -> & Hin).
    apply list_lookup_fmap_Some in Hl as (t & -> & Ht). rewrite Z.add_0_l. apply vkey_cons.
    pose proof (lookup_lt_Some _ _ _ Ht). destruct (decide (t = PNil)) as [->|Hne]; [by apply elem_of_nil in Hin|].
    destruct (decide (j < 16)%nat) as [Hj|Hj].
    + right. split; [unfold is_nibble; lia|]. by eapply IH.
    + assert (j = 16%nat) as -> by lia. left. split; [done|].
      destruct (Hval t Ht Hne) as (w & _ & ->). simpl in Hin.
      apply list_elem_of_singleton in Hin. by injection Hin.
Qed.

(** ** Entries and the abstract map *)

Definition hexEntries (m : gmap bytes bytes) : list (bytes * bytes) :=
  (fun kv => (KeybytesToHex kv.1, kv.2)) <$> map_to_list m.

Lemma vkey_nonneg k : vkey k -> Forall (fun z => 0 <= z) k.
Proof.
  intros (p & Hp & ->). apply Forall_app. split; [|by repeat constructor].
  eapply Forall_impl; [exact Hp|]. unfold is_nibble. lia.
Qed.

Lemma entries_rep T m : wf T -> rep T m -> entries T ≡ₚ hexEntries m.
Proof.
  intros Hw R. apply NoDup_Permutation.
  - eapply NoDup_fmap_1, entries_NoDup.
  - unfold hexEntries. apply NoDup_fmap_2_strong; [|apply NoDup_map_to_list].
    intros [k1 v1] [k2 v2] H1 H2 [= E ->]. apply elem_of_map_to_list in H1, H2.
    f_equal. apply KeybytesToHex_inj; [by eapply (rep_bytes _ _ R)..|done].
  - intros [k v]. unfold hexEntries. rewrite list_elem_of_fmap. split.
    + intros Hin. assert (Hk : vkey k).
      { destruct Hw as [->|Hw]; [by apply elem_of_nil in Hin|]. by eapply entries_vkey. }
      apply entries_plookup in Hin. destruct (rep_keys _ _ R k v Hk Hin) as (s & Hs & ->).
      exists (s, v). split; [done|]. apply elem_of_map_to_list. by rewrite <- (rep_lookup _ _ R).
    + intros ([s w] & [= -> ->] & Hin). apply elem_of_map_to_list in Hin.
      pose proof (rep_bytes _ _ R s w Hin) as Hs.
      apply plookup_entries; [by apply vkey_nonneg, vkey_hex|]. by rewrite (rep_lookup _ _ R).
Qed.

(** ** The two traversals, as one *)

Section Traverse.
Context `{EthLibLaws} `{MPTProtoLaws} (dbGet : bytes -> outcome bytes).
Local Abbreviation repr := (repr dbGet).

Section visitor.
Context {D : Type} (leafF : bytes -> bytes -> D -> D).

Fixpoint traverse (fuel : nat) (n : Node) (prefix : bytes) (data : D) : stm Tracer D :=
  match fuel with
  | O => lift NoFuel
  | S fuel =>
      match n with
      | NilNode => mret data
      | ValueNode v => mret (leafF prefix v data)
      | ShortNode k val _ => traverse fuel val (prefix ++ k) data
      | FullNode cs _ => visitChildren (fun c p d => traverse fuel c p d) 0 prefix cs data
      | HashNode h =>
          child ← resolveAndTrack dbGet h prefix;
          traverse fuel child prefix data
      end
  end.

(** The number of nodes on the longest path. *)
Fixpoint pheight (T : ptree) : nat :=
  match T with
  | PNil | PVal _ => 1
  | PShort _ t => S (pheight t)
  | PFull ts => S (max_list (pheight <$> ts))
  end.

Lemma pheight_kid ts i t : ts !! i = Some t -> (pheight t < pheight (PFull ts))%nat.
Proof.
  intros Ht. simpl. pose proof (max_list_elem_of_le (pheight t) (pheight <$> ts)).
  apply Nat.lt_succ_r. apply H3, list_elem_of_fmap. exists t. split; [done|]. by eapply list_elem_of_lookup_2.
Qed.

(** A hash node costs one call more. *)
Definition visit_fuel (fuel : nat) (n : Node) (T : ptree) : Prop :=
  (2 * pheight T <= fuel + (if isHashNode n then 0 else 1))%nat.

Definition visitable (T : ptree) : Prop := T = PNil \/ (exists v, T = PVal v) \/ wfN T.

Definition foldEntries (prefix : bytes) (es : list (bytes * bytes)) (data : D) : D :=
  foldl (fun d kv => leafF (prefix ++ kv.1) kv.2 d) data es.

Lemma foldEntries_fmap prefix k es data :
  foldEntries prefix ((fun kv => (k ++ kv.1, kv.2)) <$> es) data = foldEntries (prefix ++ k) es data.
Proof.
  unfold foldEntries. revert data. induction es as [|[k' v] es IH]; intros data; simpl; [done|].
  by rewrite IH, app_assoc.
Qed.

Definition visit_ok (visit : Node -> bytes -> D -> stm Tracer D) (c : Node) (t : ptree) : Prop :=
  forall prefix data tr, exists tr', visit c prefix data tr = (Ok (foldEntries prefix (entries t) data), tr').

Lemma visitChildren_ok visit cs : forall ts i prefix data tr,
  length cs = length ts ->
  (forall j c t, cs !! j = Some c -> ts !! j = Some t ->
     (isNil c = true /\ t = PNil) \/ (isNil c = false /\ visit_ok visit c t)) ->
  exists tr', visitChildren visit i prefix cs data tr =
    (Ok (foldEntries prefix (kidEntries i (entries <$> ts)) data), tr').
Proof.
  induction cs as [|c cs IH]; intros [|t ts] i prefix data tr Hlen Hk; simpl in Hlen; try discriminate Hlen.
  { eexists. reflexivity. }
  assert (Hrest : forall j c' t', cs !! j = Some c' -> ts !! j = Some t' ->
            (isNil c' = true /\ t' = PNil) \/ (isNil c' = false /\ visit_ok visit c' t')).
  { intros j c' t' Hc Ht. by apply (Hk (S j)). }
  simpl. destruct (Hk 0%nat c t eq_refl eq_refl) as [[En ->]|[En Hv]]; rewrite En.
  - simpl. by apply IH; [lia|].
  - destruct (Hv (prefix ++ [i]) data tr) as (tr1 & E1). rewrite (stm_bind_Ok _ _ _ _ _ E1).
    destruct (IH ts (i + 1) prefix (foldEntries (prefix ++ [i]) (entries t) data) tr1 ltac:(lia) Hrest)
      as (tr2 & E2).
    exists tr2. rewrite E2. unfold foldEntries at 3. rewrite foldl_app.
    fold (foldEntries prefix ((fun kv => (i :: kv.1, kv.2)) <$> entries t) data).
    by rewrite (foldEntries_fmap prefix [i]).
Qed.

Lemma traverse_correct fuel : forall n T,
  repr n T -> visitable T -> visit_fuel fuel n T -> visit_ok (traverse fuel) n T.
Proof.
  induction fuel as [|fuel IH]; intros n T Hr Hv Hf prefix data tr.
  { unfold visit_fuel in Hf. assert (1 <= pheight T)%nat by (destruct T; simpl; lia).
    destruct (isHashNode n); lia. }
  destruct Hr as [|v|k n fl t Hr Hfl _|cs fl ts Hlen Hkids Hfl _|t Hst].
  - eexists. reflexivity.
  - eexists. cbn. by rewrite app_nil_r.
  - destruct Hv as [?|[(? & ?)|Hw]]; [done|done|].
    destruct (IH n t Hr) with (prefix := prefix ++ k) (data := data) (tr := tr) as (tr' & E).
    + right. inversion Hw; subst; [left; eauto|by right].
    + unfold visit_fuel in *. simpl in Hf. destruct (isHashNode n); lia.
    + exists tr'. cbn [traverse]. rewrite E. cbn [entries]. by rewrite foldEntries_fmap.
  - destruct Hv as [?|[(? & ?)|Hw]]; [done|done|]. cbn [traverse entries].
    apply visitChildren_ok; [done|]. intros j c t Hc Ht. pose proof (Hkids j c t Hc Ht) as Hrc.
    pose proof (pheight_kid ts j t Ht) as Hh.
    destruct (isNil c) eqn:En; [left; split; [done|by apply (repr_isNil _ c t Hrc)]|right; split; [done|]].
    apply IH; [done| |].
    + pose proof (repr_not_nil _ c t Hrc En) as Hne.
      destruct (slot_ok_kid _ _ _ Hw Ht Hne) as [[_ W]|[_ (w & _ & ->)]]; [by right; right|right; left; eauto].
    + unfold visit_fuel in *. cbn [isHashNode] in Hf. destruct (isHashNode c); lia.
  - assert (Hw : wfN t).
    { destruct Hv as [->|[(v & ->)|Hw]]; [by inversion Hst|by inversion Hst|done]. }
    destruct (resolve_stored dbGet t prefix tr Hst Hw) as (n & En & Hr & Hh & _).
    cbn [traverse]. rewrite (stm_bind_Ok _ _ _ _ _ En).
    apply IH; [done|done|]. unfold visit_fuel in *. rewrite Hh. cbn [isHashNode] in Hf. lia.
Qed.

End visitor.

Lemma getAll_traverse fuel n prefix data tr :
  getAll dbGet fuel n prefix data tr =
  traverse (fun p v d => <[getAllKey p := v]> d) fuel n prefix data tr.
Proof. reflexivity. Qed.

Lemma countRecursive_traverse fuel n prefix c tr :
  countRecursive dbGet fuel n prefix c tr = traverse (fun _ _ c => c + 1) fuel n prefix c tr.
Proof. reflexivity. Qed.

Lemma traverse_trie {D} (leafF : bytes -> bytes -> D -> D) fuel t T data :
  trie_ok dbGet t T -> (2 * pheight T <= fuel)%nat ->
  exists tr', traverse leafF fuel (root t) [] data (tracer t) = (Ok (foldEntries leafF [] (entries T) data), tr').
Proof.
  intros [Hr Hw _] Hf. apply traverse_correct; [done| |].
  - destruct Hw; [by left|by right; right].
  - unfold visit_fuel. destruct (isHashNode (root t)); lia.
Qed.
End Traverse.

Lemma foldEntries_count es c : foldEntries (fun _ _ c => c + 1) [] es c = c + Z.of_nat (length es).
Proof.
  unfold foldEntries. revert c. induction es as [|kv es IH]; intros c; simpl; [lia|].
  rewrite IH. lia.
Qed.

(** ** Properties *)

(** [Count] returns the number of keys of the map the trie
    holds, for every fuel that covers the tree's height. *)
Theorem Count_size `{EthLibLaws} `{MPTProtoLaws} dbGet t T m fuel :
  trie_ok dbGet t T -> rep T m -> (2 * pheight T <= fuel)%nat ->
  (Count dbGet fuel t).1 = Ok (Z.of_nat (size m)).
Proof.
  intros Hok R Hf. pose proof Hok as [_ Hw Ho].
  destruct (traverse_trie dbGet (fun _ _ c => c + 1) fuel t T 0 Hok Hf) as (tr' & E).
  unfold Count. rewrite (stm_bind_Ok getTrie _ t t t) by done. rewrite Ho.
  rewrite <- countRecursive_traverse in E. rewrite (onTracer_Ok _ _ _ _ E). cbn [fst]. rewrite foldEntries_count, Z.add_0_l.
  rewrite (Permutation_length (entries_rep T m Hw R)). unfold hexEntries.
  by rewrite length_fmap, length_map_to_list.
Qed.

Lemma Count_size_witness : (Count emptyDb 8 sampleTrie).1 = Ok 3.
Proof.
  destruct sampleTrie_ok as [Hok R].
  rewrite (Count_size emptyDb sampleTrie _ sampleMap 8%nat Hok R); [vm_compute; reflexivity|].
  apply (bool_decide_unpack _). vm_compute. exact I.
Defined.

Section GetAll.
Context `{EthLibLaws}.

(** The keys of the result: a key can be read off the string [getAll] stores
    it under. *)
Lemma vkey_bytes k : vkey k -> is_bytes k.
Proof.
  intros (p & Hp & ->). apply Forall_app. split; [by apply nibbles_bytes|].
  constructor; [unfold is_byte; lia|constructor].
Qed.

Lemma is_bytes_hex s : is_bytes s -> is_bytes (KeybytesToHex s).
Proof. intros Hs. by apply vkey_bytes, vkey_hex. Qed.

Lemma vkey_app_eq a b x y : vkey a -> vkey b -> a ++ x = b ++ y -> a = b.
Proof.
  intros Ha Hb E. revert b Hb E. induction a as [|i a IH]; intros [|j b] Hb E;
    [by apply vkey_not_nil in Ha|by apply vkey_not_nil in Ha|by apply vkey_not_nil in Hb|].
  simpl in E. injection E as -> E. f_equal.
  apply vkey_cons in Ha as [[-> ->]|[Hi Ha]]; apply vkey_cons in Hb as [[? ->]|[Hj Hb]]; try done.
  - unfold is_nibble in *. lia.
  - unfold is_nibble in *. lia.
  - by apply IH.
Qed.

Lemma getAllKey_inj a b : vkey a -> vkey b -> getAllKey a = getAllKey b -> a = b.
Proof.
  intros Ha Hb E. apply EncodeToString_inj in E; [by apply vkey_app_eq in E| |];
    apply Forall_app; (split; [by apply vkey_bytes|apply is_bytes_hex, Keccak256_bytes]).
Qed.

Lemma foldEntries_insert (es : list (bytes * bytes)) (d : gmap bytes bytes) k :
  foldEntries (fun p v d => <[getAllKey p := v]> d) [] es d !! k =
  foldl (fun o kv => if decide (getAllKey kv.1 = k) then Some kv.2 else o) (d !! k) es.
Proof.
  unfold foldEntries. revert d. induction es as [|[p v] es IH]; intros d; simpl; [done|].
  rewrite IH. f_equal. rewrite lookup_insert. done.
Qed.

Lemma foldl_none (es : list (bytes * bytes)) k o :
  (forall p v, (p, v) ∈ es -> getAllKey p <> k) ->
  foldl (fun o kv => if decide (getAllKey kv.1 = k) then Some kv.2 else o) o es = o.
Proof.
  revert o. induction es as [|[p v] es IH]; intros o Hes; simpl; [done|].
  rewrite decide_False by (apply (Hes p v); set_solver). apply IH. intros p' v' Hin. apply (Hes p' v').
  set_solver.
Qed.

Lemma foldl_some (es : list (bytes * bytes)) p v o :
  NoDup es.*1 -> (forall p' v', (p', v') ∈ es -> vkey p') -> (p, v) ∈ es ->
  foldl (fun o kv => if decide (getAllKey kv.1 = getAllKey p) then Some kv.2 else o) o es = Some v.
Proof.
  revert o. induction es as [|[q w] es IH]; intros o Hn Hk Hin; [by apply elem_of_nil in Hin|].
  simpl in Hn. apply NoDup_cons in Hn as [Hq Hn].
  assert (Hp : vkey p) by (by eapply Hk).
  apply elem_of_cons in Hin as [[= -> ->]|Hin]; simpl.
  - rewrite decide_True by done. apply foldl_none. intros p' v' Hin' E.
    apply getAllKey_inj in E; [|apply (Hk p' v'); set_solver|done]. subst p'.
    apply Hq, list_elem_of_fmap. by exists (q, v').
  - apply IH; [done| |done]. intros p' v' Hin'. apply (Hk p' v'). set_solver.
Qed.
End GetAll.

(** [GetAll] returns every value of the trie, each under
    the hex string of its path followed by the hex key of the path's hash, and
    nothing else: the entry for a key is found at that string, and the result
    has as many entries as the map. *)
Theorem GetAll_entries `{EthLibLaws} `{MPTProtoLaws} dbGet t T m fuel :
  trie_ok dbGet t T -> rep T m -> (2 * pheight T <= fuel)%nat ->
  exists d t', GetAll dbGet fuel t = (Ok d, t') /\
    (forall s, is_bytes s -> d !! getAllKey (KeybytesToHex s) = m !! s) /\
    (forall k v, d !! k = Some v -> exists s, m !! s = Some v /\ k = getAllKey (KeybytesToHex s)).
Proof.
  intros Hok R Hf. pose proof Hok as [_ Hw Ho].
  destruct (traverse_trie (D := gmap bytes bytes) dbGet (fun p v d => <[getAllKey p := v]> d) fuel t T ∅ Hok Hf) as (tr' & E).
  do 2 eexists. split.
  { unfold GetAll. rewrite (stm_bind_Ok getTrie _ t t t) by done. rewrite Ho.
    rewrite <- getAll_traverse in E. exact (onTracer_Ok _ _ _ _ E). }
  assert (Hin : forall p v, (p, v) ∈ entries T <-> exists s, p = KeybytesToHex s /\ m !! s = Some v).
  { intros p v. rewrite (entries_rep T m Hw R). unfold hexEntries. rewrite list_elem_of_fmap.
    setoid_rewrite <- elem_of_map_to_list. split; [intros ([s w] & [= -> ->] & ?); eauto|].
    intros (s & -> & ?). by exists (s, v). }
  assert (Hvk : forall p v, (p, v) ∈ entries T -> vkey p).
  { intros p v (s & -> & Hs)%Hin. by apply vkey_hex, (rep_bytes _ _ R s v). }
  split.
  - intros s Hs. rewrite foldEntries_insert, lookup_empty. destruct (m !! s) as [v|] eqn:Em.
    + apply foldl_some; [apply entries_NoDup|done|]. apply Hin. eauto.
    + apply foldl_none. intros p v Hp Ek. pose proof (Hvk p v Hp) as Hkp.
      apply getAllKey_inj in Ek; [|done|by apply vkey_hex]. apply Hin in Hp as (s' & -> & Hs').
      apply KeybytesToHex_inj in Ek; [congruence|by eapply (rep_bytes _ _ R)|done].
  - intros k v Hl. destruct (decide (Exists (fun pv => getAllKey pv.1 = k) (entries T))) as [Hex|Hno].
    + apply Exists_exists in Hex as ([p w] & Hp & <-). simpl in Hl.
      rewrite foldEntries_insert, (foldl_some _ p w) in Hl by (done || apply entries_NoDup).
      injection Hl as ->. apply Hin in Hp as (s & -> & Hs). eauto.
    + exfalso. rewrite foldEntries_insert, lookup_empty, foldl_none in Hl; [done|].
      intros p w Hp Ek. apply Hno, Exists_exists. exists (p, w). done.
Qed.

Lemma GetAll_entries_witness :
  exists d t', GetAll emptyDb 8 sampleTrie = (Ok d, t') /\ d !! getAllKey (KeybytesToHex [18]) = Some [9].
Proof.
  destruct sampleTrie_ok as [Hok R].
  destruct (GetAll_entries emptyDb sampleTrie _ sampleMap 8%nat Hok R) as (d & t' & E & Hd & _).
  - apply (bool_decide_unpack _). vm_compute. exact I.
  - exists d, t'. split; [exact E|]. rewrite Hd; [vm_compute; reflexivity|].
    apply (bool_decide_unpack _). vm_compute. exact I.
Defined.
