(* ===== verification/TrieListing.v ===== *)
(** * Listing the database keys of a trie

    Models [GetStorageKeys] and [GetKeyValue] of [pkg/trie/trie.go].
    [GetStorageKeys] reloads the trie from its cached root hash and walks it
    breadth first, resolving every hash it meets; it is meant to name the
    database records the trie consists of.  The theorems show that for a clean
    trie the result is, up to order, the hash of every node of the tree
    ([nodeHashes]), that a database with these records only can be opened at
    the root and holds the same map, and what the function returns for the
    tries that have no cached root hash. *)

From S2P Require Import Prelude TrieEncoding TrieNode TrieTracer Trie TrieHash TrieSpec TrieCanon.
From S2P Require Import TrieUpdate TrieCorrect TrieInsert TrieDelete TrieMap TrieHashCorrect TrieCommit.
From S2P Require Import Instances TrieTheorems.

Local Open Scope Z_scope.

Section Listing.
Context `{EthLib} `{MPTProto} (dbGet : bytes -> outcome bytes).

(** ** GetStorageKeys *)

(** [resolveAndTrack] on a hash met during the walk: an error is logged, and
    the node is the nil that was returned with it. *)
Definition resolveLogged (h : bytes) : stm Tracer Node :=
  catch (resolveAndTrack dbGet h []) (fun _ => mret NilNode).

(** The loop over the children of a full node: the keys it appends and the
    nodes it queues. *)
Fixpoint pushChildren (cs : list Node) (queue : list Node) (keys : list bytes) :
  stm Tracer (list Node * list bytes) :=
  match cs with
  | [] => mret (queue, keys)
  | c :: cs' =>
      match c with
      | NilNode => pushChildren cs' queue keys
      | HashNode h =>
          rn ← resolveLogged h;
          pushChildren cs' (queue ++ [rn]) (keys ++ [BytesToHash h])
      | _ => pushChildren cs' (queue ++ [c]) keys
      end
  end.

(** The loop over [unprocessedNodes]; one unit of fuel per node. *)
Fixpoint walkNodes (fuel : nat) (queue : list Node) (keys : list bytes) : stm Tracer (list bytes) :=
  match fuel with
  | O => lift NoFuel
  | S fuel =>
      match queue with
      | [] => mret keys
      | n :: queue =>
          match n with
          | ShortNode _ (HashNode h) _ =>
              rn ← resolveLogged h;
              walkNodes fuel (queue ++ [rn]) (keys ++ [BytesToHash h])
          | ShortNode _ v _ => walkNodes fuel (queue ++ [v]) keys
          | FullNode cs _ =>
              '(queue', keys') ← pushChildren cs queue keys;
              walkNodes fuel queue' keys'
          | HashNode h =>
              rn ← resolveLogged h;
              walkNodes fuel (queue ++ [rn]) (keys ++ [BytesToHash h])
          | ValueNode _ | NilNode => walkNodes fuel queue keys
          end
      end
  end.

(** [None] is the nil slice returned when the root cannot be loaded.  The root
    is loaded through a copy with a tracer of its own, the other nodes through
    the receiver. *)
Definition GetStorageKeys (fuel : nat) : stm MerklePatriciaTrie (option (list bytes)) :=
  t ← getTrie;
  '(rootHashNode, _) ← lift (Cache (root t));
  let rootHash := BytesToHash (default [] rootHashNode) in
  if negb (bool_decide (rootHash = zeroHash)) && negb (bool_decide (rootHash = EmptyRootHash)) then
    match resolveAndTrack dbGet rootHash [] newTracer with
    | (Ok rootnode, _) => keys ← onTracer (walkNodes fuel [rootnode] [rootHash]); mret (Some keys)
    | (Err _, _) => mret None
    | (Panic, _) => lift Panic
    | (NoFuel, _) => lift NoFuel
    end
  else
    keys ← onTracer (walkNodes fuel [NilNode] [rootHash]); mret (Some keys).

(** ** GetKeyValue *)

Fixpoint getKeyValue (fuel : nat) (n : Node) (prefix : bytes) (data : gmap bytes bytes) :
  stm Tracer (gmap bytes bytes) :=
  match fuel with
  | O => lift NoFuel
  | S fuel =>
      match n with
      | NilNode => mret data
      | ValueNode v =>
          let key := prefix ++ KeybytesToHex (Keccak256 prefix) in
          mret (<[EncodeToString key := v]> data)
      | ShortNode k val _ => getKeyValue fuel val (prefix ++ k) data
      | FullNode cs _ => visitChildren (fun c p d => getKeyValue fuel c p d) 0 prefix cs data
      | HashNode h =>
          child ← resolveAndTrack dbGet h prefix;
          getKeyValue fuel child prefix data
      end
  end.

Definition GetKeyValue (fuel : nat) : stm MerklePatriciaTrie (gmap bytes bytes) :=
  t ← getTrie;
  if committed t then lift (Err ErrCommitted)
  else onTracer (getKeyValue fuel (root t) [] ∅).
End Listing.

(** ** Loaded nodes are shallow

    A node decoded from its blob has hashes, values and nothing else below. *)

Definition shallow (n : Node) : Prop :=
  match n with
  | ShortNode _ (HashNode _ | ValueNode _) _ | HashNode _ | NilNode => True
  | FullNode cs _ => Forall (fun c => c = NilNode \/ exists h, c = HashNode h) cs
  | _ => False
  end.

Section Shallow.
Context `{EthLib} `{MPTProto}.

Lemma fullChildren_shallow nodes : forall i cs cs',
  Forall (fun c => c = NilNode \/ exists h, c = HashNode h) cs -> fullChildren i nodes cs = Ok cs' ->
  Forall (fun c => c = NilNode \/ exists h, c = HashNode h) cs'.
Proof.
  induction nodes as [|v nodes IH]; intros i cs cs' Hc; simpl; [by intros [= <-]|].
  case_decide; [by apply IH|]. destruct (i <? length cs)%nat; [|done].
  apply IH. apply Forall_insert; [done|]. right. eauto.
Qed.

Lemma FullNode_Unmarshal_shallow hash buf n : FullNode_Unmarshal hash buf = Ok n -> shallow n.
Proof.
  unfold FullNode_Unmarshal. destruct (unmarshalMPTFullNode buf) as [fn|]; [|done].
  destruct (fullChildren _ _ _) as [cs| | |] eqn:E; try done. intros [= <-].
  eapply fullChildren_shallow; [|exact E]. apply Forall_replicate. by left.
Qed.

Lemma ShortNode_Unmarshal_shallow hash buf n : ShortNode_Unmarshal hash buf = Ok n -> shallow n.
Proof.
  unfold ShortNode_Unmarshal. destruct (unmarshalMPTShortNode buf) as [sn|]; [|done].
  destruct (CompactToHex _) as [key| | |]; try done. intros [= <-]. cbn. by destruct (HasTerm key).
Qed.

Lemma DecodeNode_shallow hash buf n : DecodeNode hash buf = Ok n -> shallow n.
Proof.
  unfold DecodeNode. destruct (unmarshalMPTNode buf) as [m|]; [|by intros [= <-]].
  destruct (Type_ m =? MPTNODE_TYPE_FULL).
  { destruct (FullNode_Unmarshal _ _) eqn:E; intros [= <-]; [by eapply FullNode_Unmarshal_shallow|done]. }
  destruct (Type_ m =? MPTNODE_TYPE_SHORT).
  { destruct (ShortNode_Unmarshal _ _) eqn:E; intros [= <-]; [by eapply ShortNode_Unmarshal_shallow|done]. }
  by intros [= <-].
Qed.

Lemma resolve_shallow dbGet h prefix tr n tr' :
  resolveAndTrack dbGet h prefix tr = (Ok n, tr') -> shallow n.
Proof.
  unfold resolveAndTrack, mbind, stm_bind, lift, modify. destruct (reader_node _ _ _); simpl; try done.
  intros [= E _]. by eapply DecodeNode_shallow.
Qed.
End Shallow.

(** ** The records of a tree *)

Section Records.
Context `{EthLib} `{MPTProto}.

(** The hashes of the nodes of a tree; a value is part of the leaf above it. *)
Fixpoint nodeHashes (T : ptree) : list bytes :=
  match T with
  | PNil | PVal _ => []
  | PShort k t => phash T :: nodeHashes t
  | PFull ts => phash T :: mjoin (nodeHashes <$> ts)
  end.

(** The hashes below the root. *)
Definition kidHashes (T : ptree) : list bytes :=
  match T with
  | PNil | PVal _ => []
  | PShort _ t => nodeHashes t
  | PFull ts => mjoin (nodeHashes <$> ts)
  end.

(** The number of nodes, with the values and the absent children. *)
Fixpoint psize (T : ptree) : nat :=
  match T with
  | PNil | PVal _ => 1
  | PShort _ t => S (psize t)
  | PFull ts => S (sum_list_with psize ts)
  end.

Lemma nodeHashes_kids T : wfN T -> nodeHashes T = phash T :: kidHashes T.
Proof. by inversion 1. Qed.

(** The records of a stored tree are all a database needs to hold it. *)
Lemma stored_agree db db' T :
  stored db T -> (forall k, k ∈ nodeHashes T -> db' k = db k) -> stored db' T.
Proof.
  induction 1 as [k v Hd Hz|k ts Hd Hz Hs IH|ts Hd Hz Hs IH H16]; cbn [nodeHashes]; intros Ha.
  - constructor; [|done]. rewrite Ha; [done|apply list_elem_of_here].
  - constructor; [|done|].
    + rewrite Ha; [done|apply list_elem_of_here].
    + apply IH. intros h Hh. apply Ha. by apply list_elem_of_further.
  - constructor; [|done| |done].
    + rewrite Ha; [done|apply list_elem_of_here].
    + intros i t Hi Ht Hne. apply (IH i t Hi Ht Hne). intros h Hh. apply Ha, list_elem_of_further.
      apply list_elem_of_join. exists (nodeHashes t). split; [done|].
      apply list_elem_of_fmap. exists t. split; [done|]. by eapply list_elem_of_lookup_2.
Qed.

(** None of them can be left out. *)
Lemma stored_records db T h : stored db T -> wfN T -> h ∈ nodeHashes T -> exists b, db h = Ok b.
Proof.
  intros Hs. induction Hs as [k v Hd Hz|k ts Hd Hz Hs IH|ts Hd Hz Hs IH H16]; cbn [nodeHashes];
    intros Hw [->|Hin]%elem_of_cons; eauto.
  - by apply elem_of_nil in Hin.
  - apply IH; [|done]. by inversion Hw.
  - apply list_elem_of_join in Hin as (l & Hin & Hl). apply list_elem_of_fmap in Hl as (t & -> & Ht).
    apply list_elem_of_lookup_1 in Ht as [i Ht].
    destruct (decide (t = PNil)) as [->|Hne]; [by apply elem_of_nil in Hin|].
    destruct (slot_ok_kid _ _ _ Hw Ht Hne) as [[Hi W]|[-> _]]; [|congruence]. by apply (IH i t).
Qed.
End Records.

(** ** The walk *)

Section Walk.
Context `{EthLibLaws} `{MPTProtoLaws} (dbGet : bytes -> outcome bytes).
Local Abbreviation stored := (stored dbGet).
Local Abbreviation repr := (repr dbGet).

(** A queued node and the tree it stands for. *)
Inductive item : Node -> ptree -> Prop :=
| item_val v : item (ValueNode v) (PVal v)
| item_node n T : repr n T -> wfN T -> shallow n -> isHashNode n = false -> item n T.

Lemma resolveLogged_item t tr : stored t -> wfN t ->
  exists n tr', resolveLogged dbGet (phash t) tr = (Ok n, tr') /\ item n t.
Proof.
  intros Hs Hw. destruct (resolve_stored dbGet t [] tr Hs Hw) as (n & E & Hr & Hh & _).
  exists n, (onRead [] (pblob t) tr). unfold resolveLogged, catch. rewrite E. split; [done|].
  constructor; [done|done|by eapply resolve_shallow|done].
Qed.

(** A child of a loaded full node. *)
Definition kid (c : Node) (t : ptree) : Prop :=
  (c = NilNode /\ t = PNil) \/ (c = HashNode (phash t) /\ stored t /\ wfN t).

Lemma loaded_kids cs fl ts : repr (FullNode cs fl) (PFull ts) -> wfN (PFull ts) -> shallow (FullNode cs fl) ->
  Forall2 kid cs ts.
Proof.
  intros Hr Hw Hsh. inversion Hr as [| | |? ? ? Hlen Hk _ _|? Hs E]; subst.
  apply Forall2_same_length_lookup_2; [done|]. intros i c t Hc Ht. pose proof (Hk i c t Hc Ht) as Hct.
  cbn in Hsh. rewrite Forall_lookup in Hsh. destruct (Hsh i c Hc) as [->|(h & ->)].
  - left. split; [done|]. by inversion Hct.
  - right. inversion Hct as [| | | |? Hst]; subst. split_and!; [done|done|].
    assert (t <> PNil) by (intros ->; inversion Hst).
    destruct (slot_ok_kid _ _ _ Hw Ht) as [[_ W]|[_ (v & _ & ->)]]; [done|done|by inversion Hst].
Qed.

Lemma pushChildren_ok cs ts : Forall2 kid cs ts -> forall queue keys tr,
  exists ns Ts tr', pushChildren dbGet cs queue keys tr = (Ok (queue ++ ns, keys ++ (phash <$> Ts)), tr') /\
    Forall2 item ns Ts /\ mjoin (nodeHashes <$> ts) ≡ₚ (phash <$> Ts) ++ mjoin (kidHashes <$> Ts) /\
    (sum_list_with psize Ts <= sum_list_with psize ts)%nat.
Proof.
  induction 1 as [|c t cs ts Hkid _ IH]; intros queue keys tr.
  - exists [], [], tr. cbn. rewrite !app_nil_r. by split_and!.
  - destruct Hkid as [[-> ->]|(-> & Hs & Hw)].
    + destruct (IH queue keys tr) as (ns & Ts & tr' & E & Hi & Hp & Hz). exists ns, Ts, tr'.
      split_and!; [done|done|done|]. simpl in *. lia.
    + destruct (resolveLogged_item t tr Hs Hw) as (n & tr1 & E1 & Hn).
      destruct (IH (queue ++ [n]) (keys ++ [phash t]) tr1) as (ns & Ts & tr' & E & Hi & Hp & Hz).
      exists (n :: ns), (t :: Ts), tr'. split_and!.
      * cbn [pushChildren]. rewrite (stm_bind_Ok _ _ _ _ _ E1), BytesToHash_id by (by apply phash_len).
        rewrite E, <- !app_assoc. done.
      * by constructor.
      * cbn. rewrite Hp, nodeHashes_kids by done. simpl. constructor. solve_Permutation.
      * simpl in *. lia.
Qed.

Lemma walkNodes_ok fuel : forall queue Ts keys tr,
  Forall2 item queue Ts -> (sum_list_with psize Ts < fuel)%nat ->
  exists ks tr', walkNodes dbGet fuel queue keys tr = (Ok (keys ++ ks), tr') /\ ks ≡ₚ mjoin (kidHashes <$> Ts).
Proof.
  induction fuel as [|fuel IH]; intros queue Ts keys tr Hq Hf; [lia|].
  destruct Hq as [|n T queue Ts Hn Hq].
  { exists [], tr. cbn. by rewrite app_nil_r. }
  simpl in Hf. destruct Hn as [v|n T Hr Hw Hsh Hh].
  { destruct (IH queue Ts keys tr Hq) as (ks & tr' & E & Hp); [simpl in Hf; lia|]. exists ks, tr'. by split. }
  destruct Hr as [|v|k n fl t Hr Hfl _|cs fl ts Hlen Hkids Hfl Hkh|t Hst];
    [by inversion Hw|done| | |done].
  - destruct n as [|v|h|?|?]; try done.
    + inversion Hr; subst. destruct (IH (queue ++ [ValueNode v]) (Ts ++ [PVal v]) keys tr) as (ks & tr' & E & Hp).
      { apply Forall2_app; [done|]. constructor; constructor. }
      { rewrite sum_list_with_app. simpl in *. lia. }
      exists ks, tr'. split; [done|]. rewrite Hp, fmap_app, join_app. simpl. by rewrite !app_nil_r.
    + inversion Hr as [| | | |? Hst E]; subst.
      assert (W : wfN t) by (inversion Hw; subst; [by inversion Hst|done]).
      destruct (resolveLogged_item t tr Hst W) as (n & tr1 & E1 & Hi).
      destruct (IH (queue ++ [n]) (Ts ++ [t]) (keys ++ [phash t]) tr1) as (ks & tr' & E2 & Hp).
      { apply Forall2_app; [done|]. constructor; [done|constructor]. }
      { rewrite sum_list_with_app. simpl in *. lia. }
      exists (phash t :: ks), tr'. split.
      * cbn [walkNodes]. rewrite (stm_bind_Ok _ _ _ _ _ E1), BytesToHash_id by (by apply phash_len).
        rewrite E2, <- app_assoc. done.
      * rewrite Hp, fmap_app, join_app. cbn. rewrite nodeHashes_kids, app_nil_r by done. solve_Permutation.
  - pose proof (loaded_kids cs fl ts ltac:(by constructor) Hw Hsh) as Hk.
    destruct (pushChildren_ok cs ts Hk queue keys tr) as (ns & Us & tr1 & E1 & Hi & Hp1 & Hz).
    destruct (IH (queue ++ ns) (Ts ++ Us) (keys ++ (phash <$> Us)) tr1) as (ks & tr' & E2 & Hp).
    { by apply Forall2_app. }
    { rewrite sum_list_with_app. simpl in *. lia. }
    exists ((phash <$> Us) ++ ks), tr'. split.
    + cbn [walkNodes]. rewrite (stm_bind_Ok _ _ _ _ _ E1), E2, <- app_assoc. done.
    + rewrite Hp, fmap_app, join_app. cbn. rewrite Hp1. solve_Permutation.
Qed.
End Walk.

(** ** Properties *)

(** [GetStorageKeys] on a clean trie, one reopened from
    the database or not changed since: it returns the hash of every node of the
    tree, each as often as the node occurs, and changes nothing but the tracer;
    and these keys are what the trie needs, no more and no less: a database
    that agrees with the old one on them can be opened at the root and holds
    the same map, and every one of them is bound in the database. *)
Theorem storage_keys_exact `{EthLibLaws} `{MPTProtoLaws} dbGet t T m h fuel :
  trie_ok dbGet t T -> rep T m -> Cache (root t) = Ok (Some h, false) ->
  h <> EmptyRootHash -> (psize T < fuel)%nat ->
  exists ks tr', GetStorageKeys dbGet fuel t = (Ok (Some ks), mkTrie (root t) (committed t) tr' (isHash t)) /\
    ks ≡ₚ nodeHashes T /\
    Forall (fun k => exists b, dbGet k = Ok b) ks /\
    (forall db' isH, (forall k, k ∈ ks -> db' k = dbGet k) ->
       exists t2, NewTrie db' h isH = Ok t2 /\ trie_rep db' t2 m).
Proof.
  intros [Hr Hw Ho] R Hc He Hf.
  assert (Hs : stored dbGet T /\ h = phash T).
  { destruct Hr as [|v|k n fl u _ Hfl _|cs fl us _ _ Hfl _|]; simplify_eq/=;
      destruct fl as [fh fd]; simplify_eq/=; by destruct Hfl as [-> Hd]; auto. }
  destruct Hs as [Hs ->]. assert (W : wfN T) by (destruct Hw as [->|]; [inversion Hs|done]).
  destruct (stored_db dbGet T Hs) as [_ Hz].
  destruct (resolve_stored dbGet T [] newTracer Hs W) as (n & En & Hn & Hh & _).
  destruct (walkNodes_ok dbGet fuel [n] [T] [phash T] (tracer t)) as (ks & tr' & E & Hp).
  { constructor; [|constructor]. constructor; [done|done|by eapply resolve_shallow|done]. }
  { simpl. lia. }
  assert (Hks : phash T :: ks ≡ₚ nodeHashes T).
  { rewrite nodeHashes_kids by done. constructor. rewrite Hp. cbn. by rewrite app_nil_r. }
  exists (phash T :: ks), tr'. split_and!.
  - unfold GetStorageKeys. rewrite (stm_bind_Ok getTrie _ t t t) by done. rewrite Hc, lift_Ok. cbn [default id].
    rewrite BytesToHash_id by (by apply phash_len). rewrite !bool_decide_eq_false_2 by done. cbn [negb andb].
    rewrite En. rewrite (stm_bind_Ok _ _ _ _ _ (onTracer_Ok _ _ _ _ E)). done.
  - done.
  - rewrite Hks. apply Forall_forall. intros k Hk. by eapply stored_records.
  - intros db' isH Ha. destruct (NewTrie_stored db' T isH) as (t2 & E2 & Hok2 & _); [|done|done|].
    + apply (stored_agree dbGet); [done|]. intros k Hk. apply Ha. by rewrite Hks.
    + exists t2. split; [done|]. by exists T.
Qed.

(** The sample trie, committed and opened again. *)
Definition committedNodes : option NodeSet := Eval vm_compute in
  match (Commit true sampleTrie).1 with Ok (_, nodes, _) => nodes | _ => None end.
Definition committedDb : bytes -> outcome bytes := dbOf committedNodes.
Definition reopened : MerklePatriciaTrie :=
  match NewTrie committedDb (phash (erase (root sampleTrie))) false with Ok t => t | _ => freshTrie false end.

Lemma committedDb_holds : match committedNodes with None => True | Some s => holds committedDb s end.
Proof.
  assert (En : exists s, committedNodes = Some s /\
    bool_decide (Forall (fun pw => IsDeleted pw.2 = true \/ committedDb (whash pw.2) = Ok (wblob pw.2))
                   (map_to_list (Nodes s))) = true).
  { eexists. split; [reflexivity|vm_compute; reflexivity]. }
  destruct En as (s & -> & Hb). apply holds_Forall. by apply bool_decide_eq_true in Hb.
Qed.

Lemma sampleTree_nonempty : erase (root sampleTrie) <> PNil.
Proof. apply (bool_decide_unpack _). vm_compute. exact I. Qed.

Lemma reopened_ok : trie_ok committedDb reopened (erase (root sampleTrie)).
Proof.
  destruct sampleTrie_ok as [Hok R]. pose proof Hok as [_ W _].
  destruct (Commit_nonempty emptyDb true sampleTrie _ Hok) as (nodes & t' & E & _ & Hc & _).
  - apply sampleTree_nonempty.
  - apply nonzerob_sound. vm_compute. reflexivity.
  - eapply rep_no16; [exact W|exact R|apply sampleMap_len].
  - assert (En : nodes = committedNodes) by (apply (f_equal fst) in E; vm_compute in E; by injection E).
    assert (Hs : stored committedDb (erase (root sampleTrie))).
    { apply Hc; [apply extends_keeps; intros h b; discriminate|]. rewrite En. apply committedDb_holds. }
    destruct W as [W|W]; [exfalso; exact (sampleTree_nonempty W)|].
    destruct (NewTrie_stored committedDb _ false Hs W) as (t2 & E2 & Hok2 & _).
    + apply (bool_decide_unpack _). vm_compute. exact I.
    + clear -E2 Hok2. unfold reopened. rewrite E2. exact Hok2.
Qed.

Lemma storage_keys_exact_witness :
  exists ks tr', GetStorageKeys committedDb 60 reopened = (Ok (Some ks), mkTrie (root reopened) false tr' false) /\
    ks ≡ₚ nodeHashes (erase (root sampleTrie)) /\ length ks = 5%nat /\
    (forall db' isH, (forall k, k ∈ ks -> db' k = committedDb k) ->
       exists t2, NewTrie db' (phash (erase (root sampleTrie))) isH = Ok t2 /\ trie_rep db' t2 sampleMap).
Proof.
  destruct sampleTrie_ok as [_ R].
  destruct (storage_keys_exact committedDb reopened _ sampleMap (phash (erase (root sampleTrie))) 60 reopened_ok R)
    as (ks & tr' & E & Hp & _ & Hdb).
  - vm_compute. reflexivity.
  - apply (bool_decide_unpack _). vm_compute. exact I.
  - apply (bool_decide_unpack _). vm_compute. exact I.
  - exists ks, tr'. split_and!; [exact E|exact Hp| |exact Hdb].
    rewrite (Permutation_length Hp). vm_compute. reflexivity.
Defined.

(** [GetKeyValue] is [GetAll]. *)
Theorem GetKeyValue_GetAll `{EthLib} `{MPTProto} dbGet fuel t : GetKeyValue dbGet fuel t = GetAll dbGet fuel t.
Proof. reflexivity. Qed.

(** The empty trie has no root node to ask for its hash: [GetStorageKeys]
    panics. *)
Theorem storage_keys_empty_panics `{EthLib} `{MPTProto} dbGet fuel isH :
  (GetStorageKeys dbGet fuel (freshTrie isH)).1 = Panic.
Proof. reflexivity. Qed.

(** A trie changed since it was last hashed is listed as the zero hash alone. *)
Theorem storage_keys_dirty `{EthLib} `{MPTProto} dbGet fuel t d :
  BytesToHash [] = zeroHash -> Cache (root t) = Ok (None, d) -> (2 <= fuel)%nat ->
  (GetStorageKeys dbGet fuel t).1 = Ok (Some [zeroHash]).
Proof.
  intros Hz Hc Hf. destruct fuel as [|[|fuel]]; [lia..|].
  unfold GetStorageKeys. rewrite (stm_bind_Ok getTrie _ t t t) by done. rewrite Hc, lift_Ok. cbn [default id].
  rewrite Hz, bool_decide_eq_true_2 by done. done.
Qed.
