(* ===== verification/Binary.v ===== *)
(** * Numbers as strings of digits

    The parts of [math/big] and [encoding/binary] the modelled code calls:
    [big.Int.Bytes] and [SetBytes], [big.Int.String] and [SetString] in base
    ten, and the fixed-width integers of [encoding/binary]. *)

From S2P Require Import Prelude.

Local Open Scope Z_scope.

(** ** Positional notation *)

(** Little-endian digits of [z >= 0], without leading zeros; [fuel] bounds
    their number. *)
Fixpoint digits (base : Z) (fuel : nat) (z : Z) : list Z :=
  match fuel with
  | O => []
  | S fuel => if z <=? 0 then [] else z mod base :: digits base fuel (z / base)
  end.

Definition undigits (base : Z) (ds : list Z) : Z := foldr (fun d a => d + base * a) 0 ds.

(** The bit length is more than the number of digits in every base. *)
Definition digitFuel (z : Z) : nat := S (Z.to_nat (Z.log2 z)).

Lemma undigits_digits base fuel z :
  2 <= base -> 0 <= z < base ^ Z.of_nat fuel -> undigits base (digits base fuel z) = z.
Proof.
  intros Hb. revert z. induction fuel as [|fuel IH]; intros z Hz; simpl.
  - rewrite Z.pow_0_r in Hz. lia.
  - destruct (Z.leb_spec z 0); simpl; [lia|].
    rewrite Nat2Z.inj_succ, Z.pow_succ_r in Hz by lia.
    rewrite IH; [|split; [apply Z.div_pos; lia|apply Z.div_lt_upper_bound; lia]].
    rewrite (Z.div_mod z base) at 3 by lia. lia.
Qed.

Lemma pow_ge base n : 2 <= base -> (2 ^ Z.of_nat n <= base ^ Z.of_nat n).
Proof. intros. apply Z.pow_le_mono_l. lia. Qed.

Lemma digitFuel_enough base z : 2 <= base -> 0 <= z -> z < base ^ Z.of_nat (digitFuel z).
Proof.
  intros Hb Hz. eapply Z.lt_le_trans; [|by apply pow_ge]. unfold digitFuel.
  destruct (decide (z = 0)) as [->|]; [done|].
  rewrite Nat2Z.inj_succ, Z2Nat.id by apply Z.log2_nonneg. apply Z.log2_spec. lia.
Qed.

Lemma digits_range base fuel z : 2 <= base -> Forall (fun d => 0 <= d < base) (digits base fuel z).
Proof.
  intros Hb. revert z. induction fuel as [|fuel IH]; intros z; simpl; [constructor|].
  destruct (z <=? 0); constructor; [apply Z.mod_pos_bound; lia|done].
Qed.

Lemma undigits_range base ds :
  2 <= base -> Forall (fun d => 0 <= d < base) ds -> 0 <= undigits base ds < base ^ Z.of_nat (length ds).
Proof.
  intros Hb. induction 1 as [|d ds Hd Hds IH]; simpl; [lia|].
  change (Z.of_nat (S (length ds))) with (Z.of_nat (1 + length ds)).
  rewrite Nat2Z.inj_add, Z.pow_add_r by lia. simpl. rewrite Z.pow_1_r. fold (undigits base ds). nia.
Qed.

(** ** [big.Int] *)

(** [Bytes]: the big-endian bytes of the absolute value. *)
Definition bigBytes (z : Z) : bytes := reverse (digits 256 (digitFuel (Z.abs z)) (Z.abs z)).

(** [SetBytes] *)
Definition bigSetBytes (b : bytes) : Z := undigits 256 (reverse b).

Lemma bigBytes_roundtrip z : bigSetBytes (bigBytes z) = Z.abs z.
Proof.
  unfold bigSetBytes, bigBytes. rewrite reverse_involutive. apply undigits_digits; [lia|].
  split; [lia|]. apply digitFuel_enough; lia.
Qed.

Lemma bigBytes_bytes z : is_bytes (bigBytes z).
Proof. unfold is_bytes, bigBytes. apply Forall_reverse. by apply (digits_range 256). Qed.

(** [String] of a big integer, as ASCII codes. *)
Definition decDigit (d : Z) : Z := 48 + d.

Definition bigString (z : Z) : bytes :=
  if z =? 0 then [48]
  else (if z <? 0 then [45] else []) ++ (decDigit <$> reverse (digits 10 (digitFuel (Z.abs z)) (Z.abs z))).

Definition undecDigit (c : Z) : option Z := if (48 <=? c) && (c <=? 57) then Some (c - 48) else None.

Fixpoint undecDigits (s : bytes) : option (list Z) :=
  match s with
  | [] => Some []
  | c :: s' => d ← undecDigit c; ds ← undecDigits s'; Some (d :: ds)
  end.

(** [SetString s 10]: an optional sign and at least one digit; [None] is the
    failure, which leaves the receiver undefined. *)
Definition parseNat10 (s : bytes) : option Z :=
  match s with
  | [] => None
  | _ => ds ← undecDigits s; Some (undigits 10 (reverse ds))
  end.

Definition bigSetString (s : bytes) : option Z :=
  match s with
  | 45 :: s' => Z.opp <$> parseNat10 s'
  | 43 :: s' => parseNat10 s'
  | _ => parseNat10 s
  end.

Lemma undecDigit_dec d : 0 <= d < 10 -> undecDigit (decDigit d) = Some d.
Proof.
  intros. unfold undecDigit, decDigit. rewrite !(proj2 (Z.leb_le _ _)) by lia. simpl. f_equal. lia.
Qed.

Lemma undecDigits_dec ds : Forall (fun d => 0 <= d < 10) ds -> undecDigits (decDigit <$> ds) = Some ds.
Proof.
  induction 1 as [|d ds Hd Hds IH]; [done|].
  rewrite fmap_cons. cbn [undecDigits]. rewrite undecDigit_dec by done. cbn. by rewrite IH.
Qed.

(** The digits of a positive number, most significant first. *)
Lemma dec_digits z :
  0 < z -> exists d ds, reverse (digits 10 (digitFuel z) z) = d :: ds /\
    Forall (fun d => 0 <= d < 10) (d :: ds) /\ undigits 10 (reverse (d :: ds)) = z.
Proof.
  intros Hz. assert (Hr : Forall (fun d => 0 <= d < 10) (reverse (digits 10 (digitFuel z) z))).
  { apply Forall_reverse, digits_range. lia. }
  destruct (reverse (digits 10 (digitFuel z) z)) as [|d ds] eqn:E.
  - apply (f_equal reverse) in E. rewrite reverse_involutive in E. unfold digitFuel in E. simpl in E.
    by rewrite (proj2 (Z.leb_gt _ _)) in E by lia.
  - exists d, ds. split_and!; [done|done|]. rewrite <- E, reverse_involutive.
    apply undigits_digits; [lia|]. split; [lia|]. apply digitFuel_enough; lia.
Qed.

Lemma bigString_roundtrip z : bigSetString (bigString z) = Some z.
Proof.
  unfold bigString. destruct (Z.eqb_spec z 0) as [->|Hz]; [done|].
  destruct (dec_digits (Z.abs z)) as (d & ds & E & Hds & Ez); [lia|]. rewrite E.
  assert (Hp : parseNat10 (decDigit <$> d :: ds) = Some (Z.abs z)).
  { rewrite fmap_cons. cbn [parseNat10]. rewrite <- fmap_cons, undecDigits_dec by done. cbn. by rewrite <- Ez. }
  destruct (Z.ltb_spec z 0).
  - change (Z.opp <$> parseNat10 (decDigit <$> d :: ds) = Some z). rewrite Hp. simpl. f_equal. lia.
  - cbn [app]. apply Forall_cons in Hds as [Hd _].
    replace (Z.abs z) with z in Hp by lia. rewrite <- Hp. rewrite fmap_cons. unfold bigSetString.
    assert (decDigit d <> 45 /\ decDigit d <> 43) as [N1 N2] by (unfold decDigit; lia).
    repeat (case_match; try done).
Qed.

(** ** [encoding/binary] *)

(** [n] bytes of [z], little-endian. *)
Fixpoint leBytes (n : nat) (z : Z) : bytes :=
  match n with O => [] | S n => z mod 256 :: leBytes n (z / 256) end.

Definition beBytes (n : nat) (z : Z) : bytes := reverse (leBytes n z).

Definition PutUint64 (z : Z) : bytes := beBytes 8 z.

(** [Uint64] reads the first eight bytes and panics on a shorter slice. *)
Definition Uint64 (b : bytes) : outcome Z :=
  if (length b <? 8)%nat then Panic else Ok (bigSetBytes (take 8 b)).

Lemma length_leBytes n z : length (leBytes n z) = n.
Proof. revert z. induction n; intros; simpl; auto. Qed.

Lemma undigits_leBytes n z : undigits 256 (leBytes n z) = z mod 256 ^ Z.of_nat n.
Proof.
  revert z. induction n as [|n IH]; intros z; simpl leBytes.
  - simpl. by rewrite Z.mod_1_r.
  - cbn [undigits foldr]. fold (undigits 256 (leBytes n (z / 256))). rewrite IH.
    rewrite Nat2Z.inj_succ, Z.pow_succ_r by lia.
    rewrite Z.rem_mul_r by lia. lia.
Qed.

Lemma length_PutUint64 z : length (PutUint64 z) = 8%nat.
Proof. unfold PutUint64, beBytes. by rewrite length_reverse, length_leBytes. Qed.

Lemma Uint64_PutUint64 z : Uint64 (PutUint64 z) = Ok (wrap64 z).
Proof.
  unfold Uint64. rewrite length_PutUint64. cbn [Nat.ltb Nat.leb].
  rewrite take_ge by (by rewrite length_PutUint64). unfold bigSetBytes, PutUint64, beBytes.
  rewrite reverse_involutive, undigits_leBytes. done.
Qed.

Lemma leBytes_bytes n z : is_bytes (leBytes n z).
Proof.
  revert z. induction n as [|n IH]; intros z; simpl; [constructor|].
  constructor; [|apply IH]. unfold is_byte. apply Z.mod_pos_bound. lia.
Qed.
