(* ===== verification/AccountState.v ===== *)
(** * Account and smart-contract states

    Models [pkg/state/account_state.go] and [pkg/state/smart_contract_state.go]
    with the fixed-size keys of [pkg/common/common.go]: balances and the checks
    that guard them, nonce, BLS key, account type, the smart-contract record,
    the protobuf and JSON forms, and [Copy].

    Byte slices of the records are lists; a fixed-size array is a list of that
    length ([account_wf]).  The smart-contract state is held by value: [Copy]
    is what separates it from other holders of the pointer in the program. *)

From S2P Require Import Prelude Binary.

Local Open Scope Z_scope.

(** ** Keys ([pkg/common/common.go]) *)

Definition PubkeyFromBytes (b : bytes) : bytes := arrayFromBytes 48 b.
Definition SignFromBytes (b : bytes) : bytes := arrayFromBytes 96 b.
Definition PrivateKeyFromBytes (b : bytes) : bytes := arrayFromBytes 32 b.

Definition AddressFromPubkey `{EthLib} (pk : bytes) : bytes := BytesToAddress (drop 12 (Keccak256 pk)).

(** ** Smart-contract state *)

Record SmartContractState := mkSC {
  createPublicKey : bytes;
  storageAddress : bytes;
  codeHash : bytes;
  storageRoot : bytes;
  mapFullDbHash : bytes;
  simpleDbHash : bytes;
  logsHash : bytes;
  trieDatabaseMap : gmap bytes bytes
}.

Definition NewSmartContractState (createPublicKey storageAddress codeHash storageRoot logsHash : bytes) :
  SmartContractState :=
  mkSC createPublicKey storageAddress codeHash storageRoot zeroHash zeroHash logsHash ∅.

Definition NewEmptySmartContractState : SmartContractState :=
  mkSC (replicate 48 0) zeroAddress zeroHash zeroHash zeroHash zeroHash zeroHash ∅.

(** Setters. *)
Definition SC_SetCreatorPublicKey (pk : bytes) (s : SmartContractState) : SmartContractState :=
  mkSC pk (storageAddress s) (codeHash s) (storageRoot s) (mapFullDbHash s) (simpleDbHash s) (logsHash s) (trieDatabaseMap s).
Definition SC_SetStorageAddress (a : bytes) (s : SmartContractState) : SmartContractState :=
  mkSC (createPublicKey s) a (codeHash s) (storageRoot s) (mapFullDbHash s) (simpleDbHash s) (logsHash s) (trieDatabaseMap s).
Definition SC_SetCodeHash (h : bytes) (s : SmartContractState) : SmartContractState :=
  mkSC (createPublicKey s) (storageAddress s) h (storageRoot s) (mapFullDbHash s) (simpleDbHash s) (logsHash s) (trieDatabaseMap s).
Definition SC_SetStorageRoot (h : bytes) (s : SmartContractState) : SmartContractState :=
  mkSC (createPublicKey s) (storageAddress s) (codeHash s) h (mapFullDbHash s) (simpleDbHash s) (logsHash s) (trieDatabaseMap s).
Definition SC_SetLogsHash (h : bytes) (s : SmartContractState) : SmartContractState :=
  mkSC (createPublicKey s) (storageAddress s) (codeHash s) (storageRoot s) (mapFullDbHash s) (simpleDbHash s) h (trieDatabaseMap s).
Definition SC_SetMapFullDbHash (h : bytes) (s : SmartContractState) : SmartContractState :=
  mkSC (createPublicKey s) (storageAddress s) (codeHash s) (storageRoot s) h (simpleDbHash s) (logsHash s) (trieDatabaseMap s).
Definition SC_SetSimpleDbHash (h : bytes) (s : SmartContractState) : SmartContractState :=
  mkSC (createPublicKey s) (storageAddress s) (codeHash s) (storageRoot s) (mapFullDbHash s) h (logsHash s) (trieDatabaseMap s).
Definition SC_SetTrieDatabaseMap (m : gmap bytes bytes) (s : SmartContractState) : SmartContractState :=
  mkSC (createPublicKey s) (storageAddress s) (codeHash s) (storageRoot s) (mapFullDbHash s) (simpleDbHash s) (logsHash s) m.

(** A missing key reads as nil. *)
Definition GetTrieDatabaseMapValue (key : bytes) (s : SmartContractState) : bytes :=
  default [] (trieDatabaseMap s !! key).
Definition SetTrieDatabaseMapValue (key value : bytes) (s : SmartContractState) : SmartContractState :=
  SC_SetTrieDatabaseMap (<[key := value]> (trieDatabaseMap s)) s.
Definition DeleteTrieDatabaseMapValue (key : bytes) (s : SmartContractState) : SmartContractState :=
  SC_SetTrieDatabaseMap (delete key (trieDatabaseMap s)) s.

Definition SC_CreatorAddress `{EthLib} (s : SmartContractState) : bytes := AddressFromPubkey (createPublicKey s).

Definition SC_Copy (s : SmartContractState) : SmartContractState :=
  mkSC (createPublicKey s) (storageAddress s) (codeHash s) (storageRoot s) (mapFullDbHash s)
    (simpleDbHash s) (logsHash s) (map_fold (fun k v m => <[k := v]> m) ∅ (trieDatabaseMap s)).

(** [pb.SmartContractState] *)
Record PbSmartContractState := mkPbSC {
  pCreatorPublicKey : bytes;
  pCodeHash : bytes;
  pStorageRoot : bytes;
  pStorageAddress : bytes;
  pLogsHash : bytes;
  pTrieDatabaseMap : gmap bytes bytes;
  pMapFullDbHash : bytes;
  pSimpleDbHash : bytes
}.

Definition SC_Proto (s : SmartContractState) : PbSmartContractState :=
  mkPbSC (createPublicKey s) (codeHash s) (storageRoot s) (storageAddress s) (logsHash s)
    (trieDatabaseMap s) (mapFullDbHash s) (simpleDbHash s).

Definition SC_FromProto `{EthLib} (p : PbSmartContractState) : SmartContractState :=
  mkSC (PubkeyFromBytes (pCreatorPublicKey p)) (BytesToAddress (pStorageAddress p))
    (BytesToHash (pCodeHash p)) (BytesToHash (pStorageRoot p)) (BytesToHash (pMapFullDbHash p))
    (BytesToHash (pSimpleDbHash p)) (BytesToHash (pLogsHash p)) (pTrieDatabaseMap p).

(** ** Account state *)

Definition ACCOUNT_TYPE_REGULAR_ACCOUNT : Z := 0.
Definition ACCOUNT_TYPE_READ_WRITE_STRICT : Z := 1.

Record AccountState := mkAccount {
  address : bytes;
  lastHash : bytes;
  balance : Z;
  pendingBalance : Z;
  deviceKey : bytes;
  smartContractState : option SmartContractState;
  nonce : Z;
  publicKeyBls : bytes;
  accountType : Z;
  isDirty : bool
}.

Definition NewAccountState (addr : bytes) : AccountState :=
  mkAccount addr zeroHash 0 0 zeroHash None 0 [] 0 false.

(** *** Setters *)

Definition SetBalance (z : Z) (a : AccountState) : AccountState :=
  mkAccount (address a) (lastHash a) z (pendingBalance a) (deviceKey a) (smartContractState a)
    (nonce a) (publicKeyBls a) (accountType a) (isDirty a).
Definition SetPendingBalance (z : Z) (a : AccountState) : AccountState :=
  mkAccount (address a) (lastHash a) (balance a) z (deviceKey a) (smartContractState a)
    (nonce a) (publicKeyBls a) (accountType a) (isDirty a).
Definition SetNewDeviceKey (h : bytes) (a : AccountState) : AccountState :=
  mkAccount (address a) (lastHash a) (balance a) (pendingBalance a) h (smartContractState a)
    (nonce a) (publicKeyBls a) (accountType a) (isDirty a).
Definition SetLastHash (h : bytes) (a : AccountState) : AccountState :=
  mkAccount (address a) h (balance a) (pendingBalance a) (deviceKey a) (smartContractState a)
    (nonce a) (publicKeyBls a) (accountType a) (isDirty a).
Definition SetSmartContractState (s : option SmartContractState) (a : AccountState) : AccountState :=
  mkAccount (address a) (lastHash a) (balance a) (pendingBalance a) (deviceKey a) s
    (nonce a) (publicKeyBls a) (accountType a) (isDirty a).
Definition SetNonce (n : Z) (a : AccountState) : AccountState :=
  mkAccount (address a) (lastHash a) (balance a) (pendingBalance a) (deviceKey a) (smartContractState a)
    n (publicKeyBls a) (accountType a) (isDirty a).
Definition PlusOneNonce (a : AccountState) : AccountState := SetNonce (wrap64 (nonce a + 1)) a.
Definition MarkDirty (a : AccountState) : AccountState :=
  mkAccount (address a) (lastHash a) (balance a) (pendingBalance a) (deviceKey a) (smartContractState a)
    (nonce a) (publicKeyBls a) (accountType a) true.

(** *** Balances *)

Definition TotalBalance (a : AccountState) : Z := balance a + pendingBalance a.

Definition AddPendingBalance (amount : Z) (a : AccountState) : AccountState :=
  SetPendingBalance (pendingBalance a + amount) a.

Definition AddBalance (amount : Z) (a : AccountState) : AccountState :=
  SetBalance (balance a + amount) a.

Definition SubPendingBalance (amount : Z) : stm AccountState unit := fun a =>
  if amount >? pendingBalance a then (Err (ErrText "invalid sub pending amount"), a)
  else (Ok tt, SetPendingBalance (pendingBalance a - amount) a).

Definition SubBalance (amount : Z) : stm AccountState unit := fun a =>
  if amount >? balance a then (Err (ErrText "invalid sub balance amount"), a)
  else (Ok tt, SetBalance (balance a - amount) a).

Definition SubTotalBalance (amount : Z) : stm AccountState unit := fun a =>
  let totalBalance := pendingBalance a + balance a in
  if amount >? totalBalance then (Err (ErrText "invalid sub balance amount"), a)
  else (Ok tt, SetBalance (totalBalance - amount) (SetPendingBalance 0 a)).

(** *** BLS key and account type *)

Definition SetPublicKeyBls (pk : bytes) : stm AccountState unit := fun a =>
  if negb (length pk =? 48)%nat then (Err (ErrText "invalid publicKeyBls length"), a)
  else if (length (publicKeyBls a) =? 0)%nat then
    (Ok tt, mkAccount (address a) (lastHash a) (balance a) (pendingBalance a) (deviceKey a)
              (smartContractState a) (nonce a) pk (accountType a) (isDirty a))
  else (Err (ErrText "publicKeyBls is already set"), a).

Definition SetAccountType (ty : Z) : stm AccountState unit := fun a =>
  if existsb (Z.eqb ty) [ACCOUNT_TYPE_READ_WRITE_STRICT; ACCOUNT_TYPE_REGULAR_ACCOUNT] then
    (Ok tt, mkAccount (address a) (lastHash a) (balance a) (pendingBalance a) (deviceKey a)
              (smartContractState a) (nonce a) (publicKeyBls a) ty (isDirty a))
  else (Err (ErrText "invalid account type"), a).

(** *** The smart-contract record of an account *)

Definition GetOrCreateSmartContractState (a : AccountState) : SmartContractState * AccountState :=
  let scState := default NewEmptySmartContractState (smartContractState a) in
  (scState, SetSmartContractState (Some scState) a).

(** A setter of the record, applied through the pointer. *)
Definition onSmartContractState (f : SmartContractState -> SmartContractState) (a : AccountState) : AccountState :=
  let '(scState, a) := GetOrCreateSmartContractState a in SetSmartContractState (Some (f scState)) a.

Definition SetCodeHash (h : bytes) : AccountState -> AccountState := onSmartContractState (SC_SetCodeHash h).
Definition SetStorageAddress (a : bytes) : AccountState -> AccountState := onSmartContractState (SC_SetStorageAddress a).
Definition SetStorageRoot (h : bytes) : AccountState -> AccountState := onSmartContractState (SC_SetStorageRoot h).
Definition SetCreatorPublicKey (pk : bytes) : AccountState -> AccountState := onSmartContractState (SC_SetCreatorPublicKey pk).

Definition AddLogHash `{EthLib} (h : bytes) : AccountState -> AccountState :=
  onSmartContractState (fun s => SC_SetLogsHash (Keccak256 (logsHash s ++ h)) s).

(** *** Protobuf *)

Record PbAccountState := mkPbAccount {
  pAddress : bytes;
  pLastHash : bytes;
  pBalance : bytes;
  pPendingBalance : bytes;
  pSmartContractState : option PbSmartContractState;
  pDeviceKey : bytes;
  pNonce : bytes;
  pPublicKeyBls : bytes;
  pAccountType : Z
}.

Definition Proto (a : AccountState) : PbAccountState :=
  mkPbAccount (address a) (lastHash a) (bigBytes (balance a)) (bigBytes (pendingBalance a))
    (SC_Proto <$> smartContractState a) (deviceKey a) (PutUint64 (nonce a)) (publicKeyBls a) (accountType a).

(** [FromProto] into the receiver [a]: fields the message lacks are kept. *)
Definition FromProto `{EthLib} (p : PbAccountState) (a : AccountState) : AccountState :=
  mkAccount (BytesToAddress (pAddress p)) (BytesToHash (pLastHash p))
    (bigSetBytes (pBalance p)) (bigSetBytes (pPendingBalance p)) (BytesToHash (pDeviceKey p))
    (match pSmartContractState p with Some s => Some (SC_FromProto s) | None => smartContractState a end)
    (if (length (pNonce p) =? 8)%nat then match Uint64 (pNonce p) with Ok n => n | _ => 0 end else 0)
    (pPublicKeyBls p) (pAccountType p) (isDirty a).

(** *** Copy

    [copy(copyAs.publicKeyBls[:], ...)] copies into a nil slice, so nothing is
    copied; the dirty mark is not copied either. *)
Definition Copy (a : AccountState) : AccountState :=
  mkAccount (address a) (lastHash a) (balance a) (pendingBalance a) (deviceKey a)
    (SC_Copy <$> smartContractState a) (nonce a) [] (accountType a) false.

(** ** Messages

    [proto.Marshal] and [proto.Unmarshal] of the messages of [state.proto]. *)
Class StateProto := {
  marshalAccount : PbAccountState -> bytes;
  unmarshalAccount : bytes -> option PbAccountState;
  marshalGetWithId : bytes * bytes -> bytes;
  unmarshalGetWithId : bytes -> option (bytes * bytes);
  marshalWithId : option PbAccountState * bytes -> bytes;
  unmarshalWithId : bytes -> option (option PbAccountState * bytes);
  marshalSCStates : gmap bytes PbSmartContractState * Z -> bytes;
  unmarshalSCStates : bytes -> option (gmap bytes PbSmartContractState * Z)
}.

(** What the code relies on: a marshalled message unmarshals to itself. *)
Class StateProtoLaws `{StateProto} : Prop := {
  account_pb m : unmarshalAccount (marshalAccount m) = Some m;
  getWithId_pb m : unmarshalGetWithId (marshalGetWithId m) = Some m;
  withId_pb m : unmarshalWithId (marshalWithId m) = Some m;
  scStates_pb m : unmarshalSCStates (marshalSCStates m) = Some m
}.

(** Textual forms of go-ethereum's [Address.Hex] and [Hash.Hex]. *)
Class HexForms := { addressHex : bytes -> bytes; hashHex : bytes -> bytes }.

(** [FromHex] reads back a hash and an address (whatever the case of its
    digits). *)
Class HexFormsLaws `{EthLib} `{HexForms} : Prop := {
  FromHex_address a : length a = 20%nat -> is_bytes a -> FromHex (addressHex a) = a;
  FromHex_hash h : length h = 32%nat -> is_bytes h -> FromHex (hashHex h) = h
}.

Section Messages.
Context `{EthLib} `{StateProto}.

Definition protoError : GoError := ErrText "proto: cannot parse invalid wire-format data".

Definition Marshal (a : AccountState) : bytes := marshalAccount (Proto a).

Definition Unmarshal (b : bytes) : stm AccountState unit := fun a =>
  match unmarshalAccount b with
  | None => (Err protoError, a)
  | Some p => (Ok tt, FromProto p a)
  end.

Definition zeroAccount : AccountState := mkAccount zeroAddress zeroHash 0 0 zeroHash None 0 [] 0 false.

Definition MarshalGetAccountStateWithIdRequest (addr id : bytes) : bytes := marshalGetWithId (addr, id).

Definition UnmarshalGetAccountStateWithIdRequest (b : bytes) : outcome (bytes * bytes) :=
  match unmarshalGetWithId b with
  | None => Err protoError
  | Some (addr, id) => Ok (BytesToAddress addr, id)
  end.

Definition MarshalAccountStateWithIdRequest (a : AccountState) (id : bytes) : bytes :=
  marshalWithId (Some (Proto a), id).

(** A message without an account state makes [FromProto] dereference nil. *)
Definition UnmarshalAccountStateWithIdRequest (b : bytes) : outcome (AccountState * bytes) :=
  match unmarshalWithId b with
  | None => Err protoError
  | Some (None, _) => Panic
  | Some (Some p, id) => Ok (FromProto p zeroAccount, id)
  end.

Definition MarshalSCStatesWithBlockNumber (states : gmap bytes SmartContractState) (blockNumber : Z) : bytes :=
  marshalSCStates
    (list_to_map ((fun kv => (EncodeToString kv.1, SC_Proto kv.2)) <$> map_to_list states), blockNumber).

Definition UnmarshalSCStatesWithBlockNumber (b : bytes) : outcome (gmap bytes SmartContractState * Z) :=
  match unmarshalSCStates b with
  | None => Err protoError
  | Some (m, blockNumber) =>
      Ok (list_to_map ((fun kv => (BytesToAddress (FromHex kv.1), SC_FromProto kv.2)) <$> map_to_list m),
          blockNumber)
  end.
End Messages.

(** ** JSON forms *)

Record JsonSmartContractState := mkJsonSC {
  jCreatorPublicKey : bytes;
  jStorageAddress : bytes;
  jCodeHash : bytes;
  jStorageRoot : bytes;
  jLogsHash : bytes;
  jMapFullDbHash : bytes;
  jTrieDatabaseMap : gmap bytes bytes
}.

Record JsonAccountState := mkJsonAccount {
  jAddress : bytes;
  jBalance : bytes;
  jPendingBalance : bytes;
  jLastHash : bytes;
  jDeviceKey : bytes;
  jSmartContractState : option JsonSmartContractState;
  jNonce : Z;
  jPublicKeyBls : bytes;
  jAccountType : Z
}.

Section Json.
Context `{EthLib} `{HexForms}.

Definition FromSmartContractState (s : SmartContractState) : JsonSmartContractState :=
  mkJsonSC (EncodeToString (createPublicKey s)) (addressHex (storageAddress s)) (hashHex (codeHash s))
    (hashHex (storageRoot s)) (hashHex (logsHash s)) (hashHex (mapFullDbHash s)) (trieDatabaseMap s).

Definition ToSmartContractState (j : JsonSmartContractState) : SmartContractState :=
  let s := NewSmartContractState (PubkeyFromBytes (FromHex (jCreatorPublicKey j)))
             (BytesToAddress (FromHex (jStorageAddress j))) (BytesToHash (FromHex (jCodeHash j)))
             (BytesToHash (FromHex (jStorageRoot j))) (BytesToHash (FromHex (jLogsHash j))) in
  SC_SetMapFullDbHash (BytesToHash (FromHex (jMapFullDbHash j))) (SC_SetTrieDatabaseMap (jTrieDatabaseMap j) s).

Definition FromAccountState (a : AccountState) : JsonAccountState :=
  mkJsonAccount (addressHex (address a)) (bigString (balance a)) (bigString (pendingBalance a))
    (hashHex (lastHash a)) (hashHex (deviceKey a)) (FromSmartContractState <$> smartContractState a)
    (nonce a) (EncodeToString (publicKeyBls a)) (accountType a).

(** [undef] is what a failed [SetString] leaves in its receiver. *)
Definition ToAccountState (undef : Z) (j : JsonAccountState) : AccountState :=
  mkAccount (BytesToAddress (FromHex (jAddress j))) (BytesToHash (FromHex (jLastHash j)))
    (default undef (bigSetString (jBalance j))) (default undef (bigSetString (jPendingBalance j)))
    (BytesToHash (FromHex (jDeviceKey j))) (ToSmartContractState <$> jSmartContractState j)
    (jNonce j) (FromHex (jPublicKeyBls j)) (jAccountType j) false.
End Json.

(** ** Well-formed states *)

Definition sized (n : nat) (b : bytes) : Prop := length b = n /\ is_bytes b.

Record sc_wf (s : SmartContractState) : Prop := {
  sc_pk : sized 48 (createPublicKey s);
  sc_addr : sized 20 (storageAddress s);
  sc_code : sized 32 (codeHash s);
  sc_root : sized 32 (storageRoot s);
  sc_full : sized 32 (mapFullDbHash s);
  sc_simple : sized 32 (simpleDbHash s);
  sc_logs : sized 32 (logsHash s)
}.

(** The BLS key of an account: none, or 48 bytes. *)
Definition blsKey (pk : bytes) : Prop := pk = [] \/ sized 48 pk.

Lemma blsKey_bytes pk : blsKey pk -> is_bytes pk.
Proof. intros [->|[_ ?]]; [constructor|done]. Qed.

Record account_wf (a : AccountState) : Prop := {
  acc_addr : sized 20 (address a);
  acc_last : sized 32 (lastHash a);
  acc_bal : 0 <= balance a;
  acc_pend : 0 <= pendingBalance a;
  acc_dev : sized 32 (deviceKey a);
  acc_sc : forall s, smartContractState a = Some s -> sc_wf s;
  acc_nonce : 0 <= nonce a < 2 ^ 64;
  acc_pk : blsKey (publicKeyBls a)
}.

Lemma sized_replicate n : sized n (replicate n 0).
Proof.
  split; [by rewrite length_replicate|]. apply Forall_replicate. unfold is_byte. lia.
Qed.

Lemma NewEmptySmartContractState_wf : sc_wf NewEmptySmartContractState.
Proof. split; apply sized_replicate. Qed.

(** A received message: its fields are bytes and its BLS key is missing or has
    48 bytes; the sizes of the other fields do not matter. *)
Record pbSC_wf (p : PbSmartContractState) : Prop := {
  pb_scpk : is_bytes (pCreatorPublicKey p);
  pb_code : is_bytes (pCodeHash p);
  pb_root : is_bytes (pStorageRoot p);
  pb_saddr : is_bytes (pStorageAddress p);
  pb_logs : is_bytes (pLogsHash p);
  pb_full : is_bytes (pMapFullDbHash p);
  pb_simple : is_bytes (pSimpleDbHash p)
}.

Record pbAccount_wf (p : PbAccountState) : Prop := {
  pb_addr : is_bytes (pAddress p);
  pb_last : is_bytes (pLastHash p);
  pb_bal : is_bytes (pBalance p);
  pb_pend : is_bytes (pPendingBalance p);
  pb_sc : forall s, pSmartContractState p = Some s -> pbSC_wf s;
  pb_dev : is_bytes (pDeviceKey p);
  pb_nonce : is_bytes (pNonce p);
  pb_pk : blsKey (pPublicKeyBls p)
}.

Section Received.
Context `{EthLibLaws} `{!EthBytesLaws}.

Lemma sized_hash b : is_bytes b -> sized 32 (BytesToHash b).
Proof. split; [apply BytesToHash_len|by apply BytesToHash_bytes]. Qed.

Lemma sized_address b : is_bytes b -> sized 20 (BytesToAddress b).
Proof. split; [apply BytesToAddress_len|by apply BytesToAddress_bytes]. Qed.

Lemma sized_array n b : is_bytes b -> sized n (arrayFromBytes n b).
Proof.
  intros Hb. split; [apply length_arrayFromBytes|]. unfold arrayFromBytes.
  apply Forall_app. split; [by apply Forall_take|by apply Forall_replicate].
Qed.

Lemma bigSetBytes_range b : is_bytes b -> 0 <= bigSetBytes b < 256 ^ Z.of_nat (length b).
Proof.
  intros Hb. unfold bigSetBytes. rewrite <- length_reverse. apply undigits_range; [lia|].
  by apply Forall_reverse.
Qed.

Lemma SC_FromProto_wf p : pbSC_wf p -> sc_wf (SC_FromProto p).
Proof. intros []. split; cbn; first [by apply sized_array|by apply sized_address|by apply sized_hash]. Qed.

Lemma FromProto_wf p a : account_wf a -> pbAccount_wf p -> account_wf (FromProto p a).
Proof.
  intros [_ _ _ _ _ Hsc _ _] [? ? ? ? Hp ? Hn ?].
  split; cbn; [by apply sized_address|by apply sized_hash|by apply bigSetBytes_range..|by apply sized_hash| | |done].
  - intros s. destruct (pSmartContractState p) as [q|]; [|apply Hsc]. intros [= <-]. by apply SC_FromProto_wf, Hp.
  - destruct (Nat.eqb_spec (length (pNonce p)) 8) as [E|]; [|lia]. unfold Uint64. rewrite E. cbn [Nat.ltb Nat.leb].
    rewrite take_ge by lia. apply bigSetBytes_range in Hn. rewrite E in Hn. exact Hn.
Qed.
End Received.

(** ** Round trips *)

Section RoundTrip.
Context `{EthLibLaws}.

Lemma SC_FromProto_Proto s : sc_wf s -> SC_FromProto (SC_Proto s) = s.
Proof.
  intros [[? _] [? _] [? _] [? _] [? _] [? _] [? _]]. unfold SC_FromProto, SC_Proto, PubkeyFromBytes.
  cbn [pCreatorPublicKey pCodeHash pStorageRoot pStorageAddress pLogsHash pTrieDatabaseMap pMapFullDbHash pSimpleDbHash].
  rewrite arrayFromBytes_id, BytesToAddress_id, !BytesToHash_id by done. by destruct s.
Qed.

Definition withDirty (d : bool) (a : AccountState) : AccountState :=
  mkAccount (address a) (lastHash a) (balance a) (pendingBalance a) (deviceKey a) (smartContractState a)
    (nonce a) (publicKeyBls a) (accountType a) d.

Lemma FromProto_Proto a b :
  account_wf a -> smartContractState b = None -> FromProto (Proto a) b = withDirty (isDirty b) a.
Proof.
  intros [[? _] [? _] ? ? [? _] Hsc ? _] Hb. unfold FromProto, Proto, withDirty.
  cbn [pAddress pLastHash pBalance pPendingBalance pSmartContractState pDeviceKey pNonce pPublicKeyBls pAccountType].
  rewrite BytesToAddress_id, !BytesToHash_id, !bigBytes_roundtrip by done.
  rewrite length_PutUint64. cbn [Nat.eqb]. rewrite Uint64_PutUint64, wrap64_id by done.
  rewrite !Z.abs_eq by done. f_equal. destruct (smartContractState a) as [s|]; cbn [fmap option_fmap option_map]; [|done].
  by rewrite SC_FromProto_Proto by auto.
Qed.
End RoundTrip.
