(* ===== verification/AccountTheorems.v ===== *)
(** * Properties of account states

    Round trips of the serialised forms, and the invariants of an account under
    arbitrary sequences of its operations. *)

From S2P Require Import Prelude Binary AccountState Instances.

Local Open Scope Z_scope.

(** ** Operations of an account *)

Inductive accOp :=
| OAddBalance (z : Z)
| OAddPendingBalance (z : Z)
| OSubBalance (z : Z)
| OSubPendingBalance (z : Z)
| OSubTotalBalance (z : Z)
| OSetPublicKeyBls (pk : bytes)
| OSetAccountType (ty : Z)
| OPlusOneNonce
| OSetLastHash (h : bytes)
| OSetNewDeviceKey (h : bytes)
| OSetCodeHash (h : bytes)
| OSetStorageRoot (h : bytes)
| OSetStorageAddress (a : bytes)
| OSetCreatorPublicKey (pk : bytes)
| OAddLogHash (h : bytes)
| OMarkDirty
| OSetBalance (z : Z)
| OSetPendingBalance (z : Z)
| OSetNonce (n : Z)
| OSetSmartContractState (s : option SmartContractState)
| OGetOrCreateSmartContractState
| OFromProto (p : PbAccountState)
| OUnmarshal (b : bytes).

Section Ops.
Context `{EthLib} `{StateProto}.

Definition accStep (o : accOp) : stm AccountState unit :=
  match o with
  | OAddBalance z => modify (AddBalance z)
  | OAddPendingBalance z => modify (AddPendingBalance z)
  | OSubBalance z => SubBalance z
  | OSubPendingBalance z => SubPendingBalance z
  | OSubTotalBalance z => SubTotalBalance z
  | OSetPublicKeyBls pk => SetPublicKeyBls pk
  | OSetAccountType ty => SetAccountType ty
  | OPlusOneNonce => modify PlusOneNonce
  | OSetLastHash h => modify (SetLastHash h)
  | OSetNewDeviceKey h => modify (SetNewDeviceKey h)
  | OSetCodeHash h => modify (SetCodeHash h)
  | OSetStorageRoot h => modify (SetStorageRoot h)
  | OSetStorageAddress a => modify (SetStorageAddress a)
  | OSetCreatorPublicKey pk => modify (SetCreatorPublicKey pk)
  | OAddLogHash h => modify (AddLogHash h)
  | OMarkDirty => modify MarkDirty
  | OSetBalance z => modify (SetBalance z)
  | OSetPendingBalance z => modify (SetPendingBalance z)
  | OSetNonce n => modify (SetNonce n)
  | OSetSmartContractState s => modify (SetSmartContractState s)
  | OGetOrCreateSmartContractState => modify (fun a => (GetOrCreateSmartContractState a).2)
  | OFromProto p => modify (FromProto p)
  | OUnmarshal b => Unmarshal b
  end.

(** A caller that goes on after an error. *)
Definition accRun (os : list accOp) (a : AccountState) : AccountState :=
  foldl (fun a o => (accStep o a).2) a os.

(** What the operations are given: amounts that are not negative, arguments of
    the array types and of the integer width, messages whose BLS key is missing
    or has 48 bytes.  [SetPublicKeyBls] and [SetAccountType] are given
    anything. *)
Definition op_wf (o : accOp) : Prop :=
  match o with
  | OAddBalance z | OAddPendingBalance z | OSubBalance z | OSubPendingBalance z | OSubTotalBalance z
  | OSetBalance z | OSetPendingBalance z => 0 <= z
  | OSetNonce n => 0 <= n < 2 ^ 64
  | OSetSmartContractState s => forall s', s = Some s' -> sc_wf s'
  | OFromProto p => pbAccount_wf p
  | OUnmarshal b => forall p, unmarshalAccount b = Some p -> pbAccount_wf p
  | OSetPublicKeyBls pk => is_bytes pk
  | OSetLastHash h | OSetNewDeviceKey h | OSetCodeHash h | OSetStorageRoot h | OAddLogHash h => sized 32 h
  | OSetStorageAddress a => sized 20 a
  | OSetCreatorPublicKey pk => sized 48 pk
  | OSetAccountType _ | OPlusOneNonce | OMarkDirty | OGetOrCreateSmartContractState => True
  end.

Definition succeeded (o : accOp) (a : AccountState) : bool :=
  match (accStep o a).1 with Ok _ => true | _ => false end.

(** The total balance a message carries. *)
Definition pbTotal (p : PbAccountState) : Z := bigSetBytes (pBalance p) + bigSetBytes (pPendingBalance p).

(** The amount an operation moves into (positive) or out of the account: what
    is credited or, when accepted, debited; for an operation that sets a balance,
    the difference to what was there. *)
Definition moved (o : accOp) (a : AccountState) : Z :=
  match o with
  | OAddBalance z | OAddPendingBalance z => z
  | OSubBalance z | OSubPendingBalance z | OSubTotalBalance z => if succeeded o a then - z else 0
  | OSetBalance z => z - balance a
  | OSetPendingBalance z => z - pendingBalance a
  | OFromProto p => pbTotal p - TotalBalance a
  | OUnmarshal b => match unmarshalAccount b with Some p => pbTotal p - TotalBalance a | None => 0 end
  | _ => 0
  end.

Fixpoint ledger (os : list accOp) (a : AccountState) : Z :=
  match os with
  | [] => 0
  | o :: os' => moved o a + ledger os' (accStep o a).2
  end.
End Ops.

(** The operations that replace a whole account. *)
Definition replaces (o : accOp) : bool :=
  match o with OFromProto _ | OUnmarshal _ => true | _ => false end.

Section Invariant.
Context `{EthLibLaws} `{!EthBytesLaws} `{StateProto}.

Lemma onSC_wf f a :
  account_wf a -> (forall s, sc_wf s -> sc_wf (f s)) -> account_wf (onSmartContractState f a).
Proof.
  intros [] Hf. split; cbn; try done. intros s [= <-]. apply Hf.
  destruct (smartContractState a) eqn:E; cbn; [by auto|apply NewEmptySmartContractState_wf].
Qed.

Lemma AddLogHash_wf h a : account_wf a -> account_wf (AddLogHash h a).
Proof.
  intros Ha. apply (onSC_wf (fun s => SC_SetLogsHash (Keccak256 (logsHash s ++ h)) s)); [done|].
  intros s []. split; [done..|]. split; [apply Keccak256_len|apply Keccak256_bytes].
Qed.

Lemma accStep_wf o a : account_wf a -> op_wf o -> account_wf (accStep o a).2.
Proof.
  intros Ha Ho. pose proof Ha as [Had Hl Hb Hp Hd Hs Hn Hpk].
  destruct o; cbn in Ho |- *;
    try (by apply AddLogHash_wf); try (apply onSC_wf; [done|]; intros s []; by split).
  - split; cbn; auto; lia.
  - split; cbn; auto; lia.
  - unfold SubBalance. destruct (Z.gtb_spec z (balance a)); [done|]. split; cbn; auto; lia.
  - unfold SubPendingBalance. destruct (Z.gtb_spec z (pendingBalance a)); [done|]. split; cbn; auto; lia.
  - unfold SubTotalBalance. destruct (Z.gtb_spec z (pendingBalance a + balance a)); [done|].
    split; cbn; auto; lia.
  - unfold SetPublicKeyBls. destruct (Nat.eqb_spec (length pk) 48); cbn; [|done].
    case_match; [|done]. split; cbn; auto. by right.
  - unfold SetAccountType. case_match; [|done]. by split.
  - split; cbn; auto. apply wrap64_range.
  - split; cbn; auto.
  - split; cbn; auto.
  - split; cbn; auto.
  - split; cbn; auto.
  - split; cbn; auto.
  - split; cbn; auto.
  - split; cbn; auto.
  - by apply (onSC_wf id).
  - by apply FromProto_wf.
  - unfold Unmarshal. destruct (unmarshalAccount b) eqn:E; [|done]. apply FromProto_wf; auto.
Qed.

Lemma accRun_cons o os a : accRun (o :: os) a = accRun os (accStep o a).2.
Proof. done. Qed.

Lemma accRun_wf os a : account_wf a -> Forall op_wf os -> account_wf (accRun os a).
Proof.
  intros Ha Hos. revert a Ha. induction Hos as [|o os Ho Hos IH]; intros a Ha; [done|].
  rewrite accRun_cons. by apply IH, accStep_wf.
Qed.

Lemma accStep_moved o a : TotalBalance (accStep o a).2 = TotalBalance a + moved o a.
Proof.
  unfold moved, succeeded, pbTotal, TotalBalance. destruct o; cbn; try lia;
    unfold SubBalance, SubPendingBalance, SubTotalBalance, SetPublicKeyBls, SetAccountType, Unmarshal, FromProto;
    repeat case_match; cbn in *; simplify_eq; try lia.
Qed.

Lemma accStep_key o a :
  replaces o = false -> publicKeyBls a <> [] -> publicKeyBls (accStep o a).2 = publicKeyBls a.
Proof.
  intros Hr Hk. destruct o; cbn; try done;
    unfold SubBalance, SubPendingBalance, SubTotalBalance, SetAccountType; try (by case_match).
  unfold SetPublicKeyBls. case_match; [done|].
  destruct (publicKeyBls a) eqn:E; [done|]. cbn. exact E.
Qed.
End Invariant.

(** ** The smart-contract log chain *)

Section LogChain.
Context `{EthLibLaws} `{StateProto}.

Definition logChain (h0 : bytes) (hs : list bytes) : bytes :=
  foldl (fun acc h => Keccak256 (acc ++ h)) h0 hs.

Definition accountLogs (a : AccountState) : bytes :=
  match smartContractState a with Some s => logsHash s | None => zeroHash end.

Lemma accountLogs_AddLogHash h a : accountLogs (AddLogHash h a) = Keccak256 (accountLogs a ++ h).
Proof. unfold accountLogs. cbn. by destruct (smartContractState a). Qed.

Lemma accountLogs_run hs a : accountLogs (accRun (OAddLogHash <$> hs) a) = logChain (accountLogs a) hs.
Proof.
  revert a. induction hs as [|h hs IH]; intros a; [done|].
  rewrite fmap_cons, accRun_cons, IH. cbn [accStep snd modify]. by rewrite accountLogs_AddLogHash.
Qed.

Lemma logChain_snoc h0 hs h : logChain h0 (hs ++ [h]) = Keccak256 (logChain h0 hs ++ h).
Proof. unfold logChain. by rewrite foldl_app. Qed.

Lemma length_logChain h0 hs : length h0 = 32%nat -> length (logChain h0 hs) = 32%nat.
Proof.
  intros. destruct hs as [|h hs _] using rev_ind; [done|]. rewrite logChain_snoc. apply Keccak256_len.
Qed.

(** The strings hashed while the chain is built. *)
Fixpoint logInputs (h0 : bytes) (hs : list bytes) : list bytes :=
  match hs with
  | [] => []
  | h :: hs' => (h0 ++ h) :: logInputs (Keccak256 (h0 ++ h)) hs'
  end.

Lemma logInputs_snoc h0 hs h : logInputs h0 (hs ++ [h]) = logInputs h0 hs ++ [logChain h0 hs ++ h].
Proof. revert h0. induction hs as [|x hs IH]; intros h0; simpl; [done|]. by rewrite IH. Qed.

(** A collision between a string of one chain and one of the other. *)
Definition logCollision (h0 : bytes) (hs1 hs2 : list bytes) : Prop :=
  exists x y, x ∈ logInputs h0 hs1 /\ y ∈ logInputs h0 hs2 /\ x <> y /\ Keccak256 x = Keccak256 y.

Lemma logChain_inj h0 hs1 hs2 :
  length h0 = 32%nat -> length hs1 = length hs2 -> logChain h0 hs1 = logChain h0 hs2 ->
  hs1 = hs2 \/ logCollision h0 hs1 hs2.
Proof.
  intros Hl. revert hs2. induction hs1 as [|h1 hs1 IH] using rev_ind; intros hs2 Hlen E.
  - destruct hs2; [by left|done].
  - destruct hs2 as [|h2 hs2 _] using rev_ind; [rewrite length_app in Hlen; simpl in Hlen; lia|].
    rewrite !length_app in Hlen. simpl in Hlen. rewrite !logChain_snoc in E.
    unfold logCollision. rewrite !logInputs_snoc.
    destruct (decide (logChain h0 hs1 ++ h1 = logChain h0 hs2 ++ h2)) as [Ea|Ea];
      [|right; do 2 eexists; split_and!; [..|exact Ea|exact E]; set_solver].
    apply app_inj_1 in Ea as [Ec ->]; [|by rewrite !length_logChain].
    destruct (IH hs2) as [->|(x & y & Hx & Hy & Hxy)]; [lia|done|by left|right].
    exists x, y. set_solver.
Qed.
End LogChain.

(** ** Properties *)

(** Marshalling an account and unmarshalling it into a
    fresh one gives the account back, except for the dirty mark, which is not
    part of the message. *)
Theorem account_roundtrip `{EthLibLaws} `{StateProtoLaws} a b :
  account_wf a -> smartContractState b = None ->
  Unmarshal (Marshal a) b = (Ok tt, withDirty (isDirty b) a).
Proof.
  intros Ha Hb. unfold Unmarshal, Marshal. rewrite account_pb. by rewrite FromProto_Proto.
Qed.

(** The JSON form of an account reads back as the
    account without the dirty mark and with the contract's [simpleDbHash]
    cleared: the JSON record has no field for it. *)
Theorem account_json_roundtrip `{EthLibLaws} `{!HexForms} `{!HexFormsLaws} undef a :
  account_wf a ->
  ToAccountState undef (FromAccountState a)
  = SetSmartContractState (SC_SetSimpleDbHash zeroHash <$> smartContractState a) (withDirty false a).
Proof.
  intros [[? ?] [? ?] ? ? [? ?] Hsc ? ?]. unfold ToAccountState, FromAccountState.
  cbn [jAddress jBalance jPendingBalance jLastHash jDeviceKey jSmartContractState jNonce jPublicKeyBls jAccountType].
  rewrite FromHex_address, !FromHex_hash, FromHex_encode, BytesToAddress_id, !BytesToHash_id by (done || by apply blsKey_bytes).
  rewrite !bigString_roundtrip. cbn [default]. unfold SetSmartContractState, withDirty. cbn. f_equal.
  destruct (smartContractState a) as [s|]; [|done]. cbn. f_equal.
  destruct (Hsc s eq_refl) as [[] [] [] [] [] _ []].
  unfold ToSmartContractState, FromSmartContractState, SC_SetMapFullDbHash, SC_SetTrieDatabaseMap, SC_SetSimpleDbHash,
    NewSmartContractState, PubkeyFromBytes.
  cbn [jCreatorPublicKey jStorageAddress jCodeHash jStorageRoot jLogsHash jMapFullDbHash jTrieDatabaseMap
       createPublicKey storageAddress codeHash storageRoot mapFullDbHash simpleDbHash logsHash trieDatabaseMap].
  rewrite FromHex_encode, FromHex_address, !FromHex_hash, arrayFromBytes_id, BytesToAddress_id, !BytesToHash_id by done.
  done.
Qed.

(** C34 (invariant). Every sequence of calls of the methods that change an
    account, [FromProto] and [Unmarshal] included, keeps it well formed when
    the amounts given are not negative and the messages read carry no BLS key
    or one of 48 bytes: balances never become negative, the nonce stays a
    64-bit number, address, hashes and contract fields keep their sizes, and
    the BLS key is empty or 48 bytes long, whatever was given to
    [SetPublicKeyBls]. *)
Theorem account_invariant `{EthLibLaws} `{!EthBytesLaws} `{StateProto} os a :
  account_wf a -> Forall op_wf os -> account_wf (accRun os a).
Proof. apply accRun_wf. Qed.

(** C35 (functional). The total balance after any sequence of calls of the
    methods that change an account is the initial one plus the credits minus
    the debits that were accepted plus, for [SetBalance], [SetPendingBalance],
    [FromProto] and [Unmarshal], the difference between what they set and what
    was there; an operation that fails moves nothing, nor does one on another
    field. *)
Theorem account_ledger `{EthLib} `{StateProto} os a : TotalBalance (accRun os a) = TotalBalance a + ledger os a.
Proof.
  revert a. induction os as [|o os IH]; intros a; cbn [ledger]; [cbn; lia|].
  rewrite accRun_cons, IH, accStep_moved. lia.
Qed.

(** A BLS key, once set, is never replaced by any sequence
    of operations other than [FromProto] and [Unmarshal]. *)
Theorem account_key_once `{EthLib} `{StateProto} os a :
  Forall (fun o => replaces o = false) os ->
  publicKeyBls a <> [] -> publicKeyBls (accRun os a) = publicKeyBls a.
Proof.
  intros Hos. revert a. induction Hos as [|o os Ho _ IH]; intros a Hk; [done|].
  rewrite accRun_cons, IH; rewrite accStep_key; done.
Qed.

(** The log hash binds the history: two sequences of the same
    number of log hashes added to one account give the same log hash only if
    they are equal, or two different strings hashed on the way form a
    Keccak-256 collision. *)
Theorem account_log_binding `{EthLibLaws} `{StateProto} hs1 hs2 a :
  account_wf a -> length hs1 = length hs2 ->
  accountLogs (accRun (OAddLogHash <$> hs1) a) = accountLogs (accRun (OAddLogHash <$> hs2) a) ->
  hs1 = hs2 \/ logCollision (accountLogs a) hs1 hs2.
Proof.
  intros [_ _ _ _ _ Hs _ _] Hlen E. rewrite !accountLogs_run in E. eapply logChain_inj; [|done|exact E].
  unfold accountLogs. destruct (smartContractState a) eqn:Es; [|done]. by destruct (Hs _ eq_refl) as [_ _ _ _ _ _ []].
Qed.

(** [Copy] keeps every field except the BLS key, which
    comes out empty, and the dirty mark. *)
Theorem account_copy a :
  Copy a = mkAccount (address a) (lastHash a) (balance a) (pendingBalance a) (deviceKey a)
             (smartContractState a) (nonce a) [] (accountType a) false.
Proof.
  unfold Copy. f_equal. destruct (smartContractState a) as [[]|]; cbn; [|done]. unfold SC_Copy. cbn.
  do 2 f_equal. apply (map_fold_weak_ind (fun m m' => m = m')); [done|]. by intros i x m r _ ->.
Qed.

(** A map of contract states with its block number survives
    [MarshalSCStatesWithBlockNumber] and its inverse. *)
Theorem SCStates_roundtrip `{EthLibLaws} `{!HexForms} `{!HexFormsLaws} `{StateProtoLaws} states blockNumber :
  map_Forall (fun a s => sized 20 a /\ sc_wf s) states ->
  UnmarshalSCStatesWithBlockNumber (MarshalSCStatesWithBlockNumber states blockNumber) = Ok (states, blockNumber).
Proof.
  intros Hs. unfold UnmarshalSCStatesWithBlockNumber, MarshalSCStatesWithBlockNumber. rewrite scStates_pb.
  do 2 f_equal. apply list_to_map_translate.
  - intros k v Hk. destruct (Hs k v Hk) as [[Hl Hb] Hw]. cbn.
    by rewrite FromHex_encode, BytesToAddress_id, SC_FromProto_Proto.
  - intros k1 v1 k2 v2 L1 L2 E. destruct (Hs _ _ L1) as [[_ B1] _], (Hs _ _ L2) as [[_ B2] _].
    by apply EncodeToString_inj in E.
Qed.

(** ** Witnesses *)

#[local] Instance PbSC_eq_dec : EqDecision PbSmartContractState.
Proof. solve_decision. Defined.
#[local] Instance PbSC_countable : Countable PbSmartContractState :=
  inj_countable' (fun s => (pCreatorPublicKey s, pCodeHash s, pStorageRoot s, pStorageAddress s, pLogsHash s,
                            pTrieDatabaseMap s, pMapFullDbHash s, pSimpleDbHash s))
                 (fun '(a, b, c, d, e, f, g, h) => mkPbSC a b c d e f g h) ltac:(by intros []).
#[local] Instance PbAccount_eq_dec : EqDecision PbAccountState.
Proof. solve_decision. Defined.
#[local] Instance PbAccount_countable : Countable PbAccountState :=
  inj_countable' (fun s => (pAddress s, pLastHash s, pBalance s, pPendingBalance s, pSmartContractState s,
                            pDeviceKey s, pNonce s, pPublicKeyBls s, pAccountType s))
                 (fun '(a, b, c, d, e, f, g, h, i) => mkPbAccount a b c d e f g h i) ltac:(by intros []).

#[export] Instance toyStateProto : StateProto := {|
  marshalAccount := encodeMsg; unmarshalAccount := decodeMsg;
  marshalGetWithId := encodeMsg; unmarshalGetWithId := decodeMsg;
  marshalWithId := encodeMsg; unmarshalWithId := decodeMsg;
  marshalSCStates := encodeMsg; unmarshalSCStates := decodeMsg
|}.

#[export] Instance toyStateProtoLaws : StateProtoLaws.
Proof. split; intros; apply decode_encodeMsg. Qed.

#[export] Instance toyHexForms : HexForms := {| addressHex := EncodeToString; hashHex := EncodeToString |}.

#[export] Instance toyHexFormsLaws : HexFormsLaws.
Proof. split; intros; by apply toyFromHex_encode. Qed.

Definition sampleSC : SmartContractState :=
  mkSC (replicate 48 3) (replicate 20 4) (replicate 32 5) (replicate 32 6) zeroHash (replicate 32 7) zeroHash ∅.

Definition sampleAccount : AccountState :=
  mkAccount (replicate 20 1) (replicate 32 2) 1000 50 (replicate 32 9) (Some sampleSC) 7 (replicate 48 8) 1 true.

Lemma sampleAccount_wf : account_wf sampleAccount.
Proof.
  assert (Hr : forall n z, 0 <= z < 256 -> sized n (replicate n z)).
  { intros n z Hz. split; [by rewrite length_replicate|]. by apply Forall_replicate. }
  split; [by apply Hr|by apply Hr|done|done|by apply Hr| |done|right; by apply (Hr 48%nat)].
  intros s [= <-]. split; by apply Hr.
Qed.

Lemma sampleProto_wf : pbAccount_wf (Proto sampleAccount).
Proof.
  destruct sampleAccount_wf as [[] [] _ _ [] Hsc _ Hk].
  split; [done|done|apply bigBytes_bytes|apply bigBytes_bytes| |done|apply Forall_reverse, leBytes_bytes|done].
  cbn [Proto pSmartContractState smartContractState sampleAccount fmap option_fmap option_map].
  intros s [= <-]. destruct (Hsc _ eq_refl) as [[] [] [] [] [] [] []]. by split.
Qed.

Lemma account_roundtrip_witness :
  Unmarshal (Marshal sampleAccount) zeroAccount = (Ok tt, withDirty false sampleAccount).
Proof. apply (account_roundtrip sampleAccount zeroAccount sampleAccount_wf). reflexivity. Defined.

Lemma account_json_roundtrip_witness :
  ToAccountState 0 (FromAccountState sampleAccount)
  = SetSmartContractState (Some (SC_SetSimpleDbHash zeroHash sampleSC)) (withDirty false sampleAccount).
Proof. apply (account_json_roundtrip 0 sampleAccount sampleAccount_wf). Defined.

Lemma SCStates_roundtrip_witness :
  UnmarshalSCStatesWithBlockNumber (MarshalSCStatesWithBlockNumber {[ replicate 20 1 := sampleSC ]} 77)
  = Ok ({[ replicate 20 1 := sampleSC ]}, 77).
Proof.
  apply (SCStates_roundtrip {[ replicate 20 1 := sampleSC ]} 77).
  intros a s Hs. apply lookup_singleton_Some in Hs as [<- <-]. destruct sampleAccount_wf as [Ha _ _ _ _ Hsc _ _].
  split; [exact Ha|by apply Hsc].
Defined.

Definition sampleAccOps : list accOp :=
  [OSubBalance 2000; OSubTotalBalance 1040; OAddPendingBalance 5; OPlusOneNonce; OAddLogHash (replicate 32 1);
   OSetPublicKeyBls [1; 2]; OSetBalance 12; OUnmarshal [1]; OFromProto (Proto sampleAccount)].

Lemma account_invariant_witness : account_wf (accRun sampleAccOps sampleAccount).
Proof.
  apply (account_invariant sampleAccOps sampleAccount sampleAccount_wf).
  assert (Hp : pbAccount_wf (Proto sampleAccount)) by exact sampleProto_wf.
  repeat apply Forall_cons_2; [..|apply Forall_nil_2]; cbn; try lia; try done; try (repeat constructor; lia).
Defined.

Lemma account_key_once_witness :
  publicKeyBls (accRun [OSetPublicKeyBls (replicate 48 1); OPlusOneNonce] sampleAccount) = replicate 48 8.
Proof. apply (account_key_once [OSetPublicKeyBls (replicate 48 1); OPlusOneNonce] sampleAccount); [by repeat constructor|done]. Defined.

Lemma account_log_binding_witness :
  [replicate 32 1; replicate 32 2] = [replicate 32 1; replicate 32 2] \/
  logCollision (accountLogs sampleAccount) [replicate 32 1; replicate 32 2] [replicate 32 1; replicate 32 2].
Proof.
  apply (account_log_binding [replicate 32 1; replicate 32 2] [replicate 32 1; replicate 32 2] sampleAccount
           sampleAccount_wf); reflexivity.
Defined.

(** The copy of an account that has a BLS key has none. *)
Example account_copy_loses_key : publicKeyBls (Copy sampleAccount) = [] /\ publicKeyBls sampleAccount <> [].
Proof. done. Qed.
