(* ===== verification/CircuitBreaker.v ===== *)
(** * Circuit breaker

    Models [pkg/network/circuit_breaker.go].  Every method runs under the
    breaker's mutex, so an execution is a sequence of calls; [now] is the
    reading of the clock during the call, in nanoseconds.  Counters are Go
    [int] and [int64] values and wrap around at 64 bits. *)

From S2P Require Import Prelude.

Local Open Scope Z_scope.

Inductive CircuitBreakerState := StateClosed | StateOpen | StateHalfOpen.

#[export] Instance CircuitBreakerState_eq_dec : EqDecision CircuitBreakerState.
Proof. solve_decision. Defined.

Definition StateString (s : CircuitBreakerState) : string :=
  match s with StateClosed => "CLOSED" | StateOpen => "OPEN" | StateHalfOpen => "HALF_OPEN" end.

Record CircuitBreakerConfig := mkConfig {
  MaxFailures : Z;
  MaxRequests : Z;
  Interval : Z;
  Timeout : Z
}.

Record CircuitBreaker := mkCB {
  config : CircuitBreakerConfig;
  state : CircuitBreakerState;
  failures : Z;
  requests : Z;
  lastFailureTime : Z;
  lastSuccessTime : Z;
  totalRequests : Z;
  totalFailures : Z;
  totalSuccesses : Z;
  totalRejected : Z
}.

Definition second : Z := 1000000000.

Definition DefaultCircuitBreakerConfig : CircuitBreakerConfig := mkConfig 10 5 (10 * second) (60 * second).

(** [None] is the nil configuration. *)
Definition NewCircuitBreaker (c : option CircuitBreakerConfig) : CircuitBreaker :=
  mkCB (default DefaultCircuitBreakerConfig c) StateClosed 0 0 0 0 0 0 0 0.

(** [x++] on a signed 64-bit variable. *)
Definition incr (z : Z) : Z := to_int64 (z + 1).

Definition CanExecute (now : Z) (cb : CircuitBreaker) : bool * CircuitBreaker :=
  let '(mkCB c st f r lf ls tr tf ts tj) := cb in
  let tr := incr tr in
  match st with
  | StateClosed => (true, mkCB c st f r lf ls tr tf ts tj)
  | StateOpen =>
      if now - lf >? Timeout c then (true, mkCB c StateHalfOpen f 0 lf ls tr tf ts tj)
      else (false, mkCB c st f r lf ls tr tf ts (incr tj))
  | StateHalfOpen =>
      if r >=? MaxRequests c then (false, mkCB c st f r lf ls tr tf ts (incr tj))
      else (true, mkCB c st f (incr r) lf ls tr tf ts tj)
  end.

Definition RecordSuccess (now : Z) (cb : CircuitBreaker) : CircuitBreaker :=
  let '(mkCB c st f r lf ls tr tf ts tj) := cb in
  let ts := incr ts in
  let ls := now in
  match st with
  | StateHalfOpen =>
      if r >=? MaxRequests c then mkCB c StateClosed 0 0 lf ls tr tf ts tj
      else mkCB c st f r lf ls tr tf ts tj
  | StateClosed => mkCB c st 0 r lf ls tr tf ts tj
  | StateOpen => mkCB c st f r lf ls tr tf ts tj
  end.

Definition RecordFailure (now : Z) (cb : CircuitBreaker) : CircuitBreaker :=
  let '(mkCB c st f r lf ls tr tf ts tj) := cb in
  let tf := incr tf in
  let f := incr f in
  let lf := now in
  match st with
  | StateClosed =>
      if f >=? MaxFailures c then mkCB c StateOpen f r lf ls tr tf ts tj
      else mkCB c st f r lf ls tr tf ts tj
  | StateHalfOpen => mkCB c StateOpen f 0 lf ls tr tf ts tj
  | StateOpen => mkCB c st f r lf ls tr tf ts tj
  end.

Definition GetState (cb : CircuitBreaker) : CircuitBreakerState := state cb.

Definition Reset (cb : CircuitBreaker) : CircuitBreaker :=
  let '(mkCB c st f r lf ls tr tf ts tj) := cb in
  mkCB c StateClosed 0 0 lf ls tr tf ts tj.

(** ** Executions *)

Inductive call :=
| CCanExecute (now : Z)
| CRecordSuccess (now : Z)
| CRecordFailure (now : Z)
| CReset.

(** One call, with what it returns: [Some] for [CanExecute]. *)
Inductive cbStep : CircuitBreaker -> call -> option bool -> CircuitBreaker -> Prop :=
| StepCan now cb b cb' : CanExecute now cb = (b, cb') -> cbStep cb (CCanExecute now) (Some b) cb'
| StepSuccess now cb : cbStep cb (CRecordSuccess now) None (RecordSuccess now cb)
| StepFailure now cb : cbStep cb (CRecordFailure now) None (RecordFailure now cb)
| StepReset cb : cbStep cb CReset None (Reset cb).

Inductive cbSteps : CircuitBreaker -> list (call * option bool) -> CircuitBreaker -> Prop :=
| StepsNil cb : cbSteps cb [] cb
| StepsCons cb c r cb' l cb'' : cbStep cb c r cb' -> cbSteps cb' l cb'' -> cbSteps cb ((c, r) :: l) cb''.

Definition reachable (c : CircuitBreakerConfig) (cb : CircuitBreaker) : Prop :=
  exists l, cbSteps (NewCircuitBreaker (Some c)) l cb.

(** ** The invariant *)

Definition int64 (z : Z) : Prop := - 2 ^ 63 <= z < 2 ^ 63.

Definition config_wf (c : CircuitBreakerConfig) : Prop := int64 (MaxFailures c) /\ int64 (MaxRequests c).

Lemma incr_small z : 0 <= z < 2 ^ 63 - 1 -> incr z = z + 1.
Proof.
  intros Hz. unfold incr, to_int64. rewrite wrap64_id by lia.
  destruct (Z.ltb_spec (z + 1) (2 ^ 63)); lia.
Qed.

(** While closed the failure count is below the limit; while half open the
    request count is within the limit. *)
Definition cb_inv (cb : CircuitBreaker) : Prop :=
  config_wf (config cb) /\
  match state cb with
  | StateClosed => 0 <= failures cb < Z.max 1 (MaxFailures (config cb))
  | StateOpen => True
  | StateHalfOpen => 0 <= requests cb <= Z.max 0 (MaxRequests (config cb))
  end.

Lemma cbStep_inv cb c r cb' : cbStep cb c r cb' -> cb_inv cb -> cb_inv cb' /\ config cb' = config cb.
Proof.
  intros Hs [Hc Hi]. pose proof Hc as [Hf Hr]. unfold int64 in *.
  destruct Hs as [now cb b cb' E|now cb|now cb|cb]; destruct cb as [cf st f r lf ls tr tf ts tj]; cbn in *.
  - destruct st; cbn in Hi.
    + injection E as <- <-. by split.
    + destruct (Z.gtb_spec (now - lf) (Timeout cf)); injection E as <- <-; (split; [split; [done|]|done]);
        cbn; [lia|done].
    + destruct (Z.geb_spec r (MaxRequests cf)); injection E as <- <-; (split; [split; [done|]|done]); cbn; [done|].
      rewrite incr_small by lia. lia.
  - destruct st; cbn in Hi; [|by split|].
    + split; [split; [done|]|done]. cbn. lia.
    + destruct (Z.geb_spec r (MaxRequests cf)); (split; [split; [done|]|done]); cbn; lia.
  - destruct st; cbn in Hi; [|by split|by split].
    destruct (Z.geb_spec (incr f) (MaxFailures cf)) as [|Hlt]; (split; [split; [done|]|done]); cbn; [done|].
    rewrite incr_small in * by lia. lia.
  - split; [split; [done|]|done]. cbn. lia.
Qed.

Lemma cbSteps_inv cb l cb' : cbSteps cb l cb' -> cb_inv cb -> cb_inv cb' /\ config cb' = config cb.
Proof.
  induction 1 as [cb|cb c r cb' l cb'' Hs _ IH]; intros Hi; [done|].
  destruct (cbStep_inv _ _ _ _ Hs Hi) as [Hi' Ec]. destruct (IH Hi') as [? ?]. split; [done|congruence].
Qed.

(** ** Accounting *)

Definition isCan (x : call * option bool) : bool := match x.1 with CCanExecute _ => true | _ => false end.
Definition isRejected (x : call * option bool) : bool := match x.2 with Some false => true | _ => false end.
Definition isAdmitted (x : call * option bool) : bool := match x.2 with Some true => true | _ => false end.
Definition isSuccess (x : call * option bool) : bool := match x.1 with CRecordSuccess _ => true | _ => false end.
Definition isFailure (x : call * option bool) : bool := match x.1 with CRecordFailure _ => true | _ => false end.

Definition count (p : call * option bool -> bool) (l : list (call * option bool)) : Z :=
  foldr (fun x n => (if p x then 1 else 0) + n) 0 l.

Lemma to_int64_idem_add a b : to_int64 (to_int64 a + b) = to_int64 (a + b).
Proof.
  unfold to_int64, wrap64. destruct (Z.ltb_spec (a mod 2 ^ 64) (2 ^ 63)).
  - by rewrite Z.add_mod_idemp_l by lia.
  - replace (a mod 2 ^ 64 - 2 ^ 64 + b) with (a mod 2 ^ 64 + b + (-1) * 2 ^ 64) by lia.
    rewrite Z.mod_add by lia. by rewrite Z.add_mod_idemp_l by lia.
Qed.

Lemma to_int64_small z : int64 z -> to_int64 z = z.
Proof.
  unfold int64, to_int64, wrap64. intros Hz. destruct (decide (0 <= z)).
  - rewrite Z.mod_small by lia. destruct (Z.ltb_spec z (2 ^ 63)); lia.
  - replace (z mod 2 ^ 64) with (z + 2 ^ 64).
    + destruct (Z.ltb_spec (z + 2 ^ 64) (2 ^ 63)); lia.
    + rewrite <- (Z.mod_small (z + 2 ^ 64) (2 ^ 64)) by lia.
      replace (z + 2 ^ 64) with (z + 1 * 2 ^ 64) at 1 by lia. by rewrite Z.mod_add by lia.
Qed.

(** What a call does to the four totals. *)
Lemma cbStep_totals cb c r cb' : cbStep cb c r cb' ->
  totalRequests cb' = (if isCan (c, r) then incr (totalRequests cb) else totalRequests cb) /\
  totalRejected cb' = (if isRejected (c, r) then incr (totalRejected cb) else totalRejected cb) /\
  totalSuccesses cb' = (if isSuccess (c, r) then incr (totalSuccesses cb) else totalSuccesses cb) /\
  totalFailures cb' = (if isFailure (c, r) then incr (totalFailures cb) else totalFailures cb).
Proof.
  intros Hs. destruct Hs as [now cb b cb' E|now cb|now cb|cb]; destruct cb as [cf st f r lf ls tr tf ts tj]; cbn in *.
  - destruct st; repeat case_match; simplify_eq; done.
  - destruct st; repeat case_match; done.
  - destruct st; repeat case_match; done.
  - done.
Qed.

(** A counter incremented whenever [p] holds, over a sequence of calls. *)
Lemma counter_steps (proj : CircuitBreaker -> Z) (p : call * option bool -> bool) :
  (forall cb c r cb', cbStep cb c r cb' -> proj cb' = (if p (c, r) then incr (proj cb) else proj cb)) ->
  forall cb l cb', cbSteps cb l cb' -> to_int64 (proj cb') = to_int64 (proj cb + count p l).
Proof.
  intros Hp cb l cb'. induction 1 as [cb|cb c r cb' l cb'' Hs _ IH]; cbn [count foldr].
  - by rewrite Z.add_0_r.
  - rewrite IH, (Hp _ _ _ _ Hs). fold (count p l). destruct (p (c, r)).
    + unfold incr. rewrite to_int64_idem_add. f_equal. lia.
    + done.
Qed.

(** ** Half-open periods *)

(** [CanExecute] calls only, at the given times. *)
Fixpoint tryAll (times : list Z) (cb : CircuitBreaker) : list bool * CircuitBreaker :=
  match times with
  | [] => ([], cb)
  | now :: rest =>
      let '(b, cb1) := CanExecute now cb in
      let '(bs, cb2) := tryAll rest cb1 in (b :: bs, cb2)
  end.




(** An open breaker rejects every call up to the timeout, and only counts. *)
Lemma tryAll_waiting times cb :
  state cb = StateOpen -> Forall (fun now => now - lastFailureTime cb <= Timeout (config cb)) times ->
  let s := tryAll times cb in
  s.1 = replicate (length times) false /\ state s.2 = StateOpen /\ config s.2 = config cb /\
  lastFailureTime s.2 = lastFailureTime cb.
Proof.
  intros Hs Ht. revert cb Hs Ht. induction times as [|now times IH]; intros cb Hs Ht; cbn zeta; cbn [tryAll]; [done|].
  apply Forall_cons in Ht as [Hn Ht]. destruct cb as [cf st f r lf ls tr tf ts tj]. cbn in *. subst st.
  destruct (Z.gtb_spec (now - lf) (Timeout cf)); [lia|].
  destruct (IH (mkCB cf StateOpen f r lf ls (incr tr) tf ts (incr tj)) eq_refl Ht) as (A & B & C & D).
  destruct (tryAll times _) as [bs cb2]. cbn in *. by rewrite A.
Qed.





(** ** Properties *)

(** In every reachable state of a breaker with 64-bit
    limits: while closed, fewer than [maxFailures] failures are counted; while
    half open, at most [maxRequests] requests are counted. *)
Theorem breaker_invariant c cb :
  config_wf c -> reachable c cb ->
  config cb = c /\
  (state cb = StateClosed -> 0 <= failures cb < Z.max 1 (MaxFailures c)) /\
  (state cb = StateHalfOpen -> 0 <= requests cb <= Z.max 0 (MaxRequests c)).
Proof.
  intros Hc [l Hl]. destruct (cbSteps_inv _ _ _ Hl) as [[_ Hi] Ec].
  { split; [done|]. cbn. lia. }
  cbn in Ec. rewrite Ec in Hi. split_and!; [done|intros E; by rewrite E in Hi..].
Qed.


(** An open breaker rejects every request until more than
    [timeout] has passed since the last failure, and stays open. *)
Theorem breaker_open_rejects cb times :
  state cb = StateOpen -> Forall (fun now => now <= lastFailureTime cb + Timeout (config cb)) times ->
  Forall (fun b => b = false) (tryAll times cb).1 /\ state (tryAll times cb).2 = StateOpen.
Proof.
  intros Hs Ht. destruct (tryAll_waiting times cb Hs) as (-> & ? & _).
  - eapply Forall_impl; [exact Ht|]. cbn. lia.
  - split; [by apply Forall_replicate|done].
Qed.

(** A half-open breaker whose requests are used up admits
    nothing, at whatever time, until a result is reported or it is reset:
    [CanExecute] alone never leaves that state. *)
Theorem breaker_exhausted cb times :
  state cb = StateHalfOpen -> MaxRequests (config cb) <= requests cb ->
  Forall (fun b => b = false) (tryAll times cb).1 /\ state (tryAll times cb).2 = StateHalfOpen.
Proof.
  revert cb. induction times as [|now times IH]; intros cb Hs Hr; cbn [tryAll].
  - split; [constructor|done].
  - destruct cb as [cf st f r lf ls tr tf ts tj]. cbn in *. subst st.
    destruct (Z.geb_spec r (MaxRequests cf)); [|lia].
    destruct (IH (mkCB cf StateHalfOpen f r lf ls (incr tr) tf ts (incr tj)) eq_refl Hr) as [Ha Hb].
    destruct (tryAll times _) as [bs cb2]. cbn in *. split; [by constructor|done].
Qed.

(** The statistics are the history: after any sequence
    of calls on a new breaker the four totals are the numbers of [CanExecute]
    calls, of rejections, of successes and of failures, modulo 2^64. *)
Theorem breaker_totals c l cb :
  cbSteps (NewCircuitBreaker c) l cb ->
  to_int64 (totalRequests cb) = to_int64 (count isCan l) /\
  to_int64 (totalRejected cb) = to_int64 (count isRejected l) /\
  to_int64 (totalSuccesses cb) = to_int64 (count isSuccess l) /\
  to_int64 (totalFailures cb) = to_int64 (count isFailure l).
Proof.
  intros Hl. split_and!.
  - apply (counter_steps totalRequests isCan) in Hl; [done|]. intros. by edestruct cbStep_totals as (? & _).
  - apply (counter_steps totalRejected isRejected) in Hl; [done|]. intros. by edestruct cbStep_totals as (_ & ? & _).
  - apply (counter_steps totalSuccesses isSuccess) in Hl; [done|]. intros. by edestruct cbStep_totals as (_ & _ & ? & _).
  - apply (counter_steps totalFailures isFailure) in Hl; [done|]. intros. by edestruct cbStep_totals as (_ & _ & _ & ?).
Qed.

(** ** Witnesses *)

Definition smallConfig : CircuitBreakerConfig := mkConfig 1 2 10 100.

(** A breaker opened by one failure at time 5. *)
Definition opened : CircuitBreaker := RecordFailure 5 (NewCircuitBreaker (Some smallConfig)).


Lemma smallConfig_wf : config_wf smallConfig.
Proof. split; cbn; unfold int64; lia. Qed.

Lemma breaker_invariant_witness : 0 <= failures (NewCircuitBreaker (Some smallConfig)) < 1.
Proof.
  destruct (breaker_invariant smallConfig (NewCircuitBreaker (Some smallConfig)) smallConfig_wf) as (_ & Hc & _).
  - eexists. apply StepsNil.
  - exact (Hc eq_refl).
Defined.


Lemma breaker_open_rejects_witness : Forall (fun b => b = false) (tryAll [50; 105; 90] opened).1.
Proof.
  apply (breaker_open_rejects opened [50; 105; 90]); [reflexivity|].
  apply (bool_decide_unpack _). vm_compute. exact I.
Defined.

Lemma breaker_exhausted_witness :
  Forall (fun b => b = false) (tryAll [10 ^ 18; 10 ^ 19] (tryAll [106; 107; 108] opened).2).1.
Proof.
  apply (breaker_exhausted (tryAll [106; 107; 108] opened).2 [10 ^ 18; 10 ^ 19]); [reflexivity|vm_compute; discriminate].
Defined.

Lemma breaker_totals_witness :
  to_int64 (totalFailures opened) = to_int64 1.
Proof.
  destruct (breaker_totals (Some smallConfig) [(CRecordFailure 5, None)] opened) as (_ & _ & _ & E).
  - eapply StepsCons; [apply StepFailure|apply StepsNil].
  - exact E.
Defined.
