(* ===== verification/Storage.v ===== *)
(** * Storage

    The interface [storage.Storage] as far as the receipt store uses it, with
    the law its clients rely on, and the in-memory implementation of
    [pkg/storage/memorydb.go]: a Go map keyed by 32-byte arrays, with its
    iterator and snapshots.  The mutexes make every method atomic. *)

From stdpp Require Import sorting.
From S2P Require Import Prelude Instances.

Local Open Scope Z_scope.

(** ** The interface *)

(** [Get] and [BatchPut] of a store with states [S]. *)
Class Storage (S : Type) := {
  sGet : S -> bytes -> outcome bytes;
  sBatchPut : list (bytes * bytes) -> stm S unit
}.

(** The value the last entry of a batch gives to [k]. *)
Fixpoint lastBinding (k : bytes) (kvs : list (bytes * bytes)) : option bytes :=
  match kvs with
  | [] => None
  | (k', v) :: rest =>
      match lastBinding k rest with
      | Some w => Some w
      | None => if decide (k' = k) then Some v else None
      end
  end.

(** A batch that was written is read back entry by entry, the last one of a
    key winning, and nothing else changes, for keys of 32 bytes. *)
Class StorageLaws (S : Type) `{Storage S} : Prop := {
  sBatchPut_get kvs s s' :
    sBatchPut kvs s = (Ok tt, s') -> Forall (fun kv => length kv.1 = 32%nat) kvs ->
    forall k, length k = 32%nat ->
      sGet s' k = match lastBinding k kvs with Some v => Ok v | None => sGet s k end
}.

(** ** MemoryDB *)

Record MemoryDB := mkMemoryDB { mdb : gmap bytes bytes }.

Definition NewMemoryDb : MemoryDB := mkMemoryDB ∅.

(** [copy(bytes32[:], key)]: longer keys are cut, shorter ones padded. *)
Definition bytes32 (key : bytes) : bytes := arrayFromBytes 32 key.

Definition keyNotFound (key : bytes) : GoError := KeyNotFound key.

Definition Get (kv : MemoryDB) (key : bytes) : outcome bytes :=
  match mdb kv !! bytes32 key with
  | Some v => Ok v
  | None => Err (keyNotFound key)
  end.

Definition Put (key value : bytes) : stm MemoryDB unit := fun kv =>
  (Ok tt, mkMemoryDB (<[bytes32 key := value]> (mdb kv))).

Definition Has (kv : MemoryDB) (key : bytes) : bool := bool_decide (is_Some (mdb kv !! bytes32 key)).

Definition Delete (key : bytes) : stm MemoryDB unit := fun kv =>
  if decide (is_Some (mdb kv !! bytes32 key))
  then (Ok tt, mkMemoryDB (delete (bytes32 key) (mdb kv)))
  else (Err (keyNotFound key), kv).

Fixpoint BatchPut (kvs : list (bytes * bytes)) : stm MemoryDB unit :=
  match kvs with
  | [] => mret tt
  | (k, v) :: rest => Put k v;; BatchPut rest
  end.

Definition Size (kv : MemoryDB) : nat := size (mdb kv).

(** *** Iterator *)

Fixpoint stringLeb (a b : bytes) : bool :=
  match a, b with
  | [], _ => true
  | _ :: _, [] => false
  | x :: a', y :: b' => if x <? y then true else if y <? x then false else stringLeb a' b'
  end.

Definition stringLe (a b : bytes) : Prop := stringLeb a b = true.

#[export] Instance stringLe_dec a b : Decision (stringLe a b).
Proof. unfold stringLe. apply _. Defined.

(** The iterator keeps the sorted hex keys and a position; values are read from
    the database when asked for. *)
Record MemoryDbIterator := mkIter { keys : list bytes; idx : nat }.

Definition NewMemoryDbIterator (kv : MemoryDB) : MemoryDbIterator :=
  mkIter (merge_sort stringLe (EncodeToString <$> (map_to_list (mdb kv)).*1)) 0.

Definition GetIterator (kv : MemoryDB) : MemoryDbIterator := NewMemoryDbIterator kv.

Definition Next (it : MemoryDbIterator) : bool * MemoryDbIterator :=
  if (length (keys it) =? idx it)%nat then (false, it) else (true, mkIter (keys it) (idx it + 1)).

Section Iterator.
Context `{EthLib}.

(** [keys[idx-1]] is out of range before the first call of [Next]. *)
Definition currentKey (it : MemoryDbIterator) : outcome bytes :=
  match idx it with
  | O => Panic
  | S i => match keys it !! i with Some s => Ok (FromHex s) | None => Panic end
  end.

Definition Key (it : MemoryDbIterator) : outcome bytes := currentKey it.

Definition Value (kv : MemoryDB) (it : MemoryDbIterator) : outcome bytes :=
  k ← currentKey it; Ok (default [] (mdb kv !! bytes32 k)).

(** The loop of [GetSnapShot]; [fuel] bounds the calls of [Next]. *)
Fixpoint snapLoop (fuel : nat) (kv : MemoryDB) (it : MemoryDbIterator) (acc : gmap bytes bytes) :
  outcome (gmap bytes bytes) :=
  match fuel with
  | O => NoFuel
  | S fuel =>
      match Next it with
      | (false, _) => Ok acc
      | (true, it') =>
          v ← Value kv it'; k ← Key it';
          snapLoop fuel kv it' (<[bytes32 k := v]> acc)
      end
  end.

Definition GetSnapShot (kv : MemoryDB) : outcome MemoryDB :=
  let it := GetIterator kv in
  m ← snapLoop (S (length (keys it))) kv it ∅; Ok (mkMemoryDB m).
End Iterator.

(** ** Laws of MemoryDB *)

#[export] Instance MemoryDB_Storage : Storage MemoryDB := {| sGet := Get; sBatchPut := BatchPut |}.

Lemma bytes32_id k : length k = 32%nat -> bytes32 k = k.
Proof. apply arrayFromBytes_id. Qed.

Lemma Get_Put kv key value key' :
  Get (Put key value kv).2 key' =
  if decide (bytes32 key = bytes32 key') then Ok value else Get kv key'.
Proof.
  unfold Get, Put. cbn [snd mdb]. rewrite lookup_insert. by case_decide.
Qed.

Lemma BatchPut_Ok kvs kv : exists kv', BatchPut kvs kv = (Ok tt, kv').
Proof. revert kv. induction kvs as [|[k v] kvs IH]; intros kv; [by eexists|]. apply IH. Qed.

#[export] Instance MemoryDB_Laws : StorageLaws MemoryDB.
Proof.
  split. intros kvs. induction kvs as [|[k v] kvs IH]; intros s s' E Hks key Hkey.
  - injection E as <-. done.
  - apply Forall_cons in Hks as [Hk Hks]. cbn in Hk.
    change (BatchPut kvs (Put k v s).2 = (Ok tt, s')) in E.
    rewrite (IH _ _ E Hks key Hkey). cbn [lastBinding]. destruct (lastBinding key kvs) as [w|]; [done|].
    change (sGet (Put k v s).2 key) with (Get (Put k v s).2 key). rewrite Get_Put, !bytes32_id by done.
    by case_decide.
Qed.

Definition mdb_wf (kv : MemoryDB) : Prop :=
  map_Forall (fun k _ => length k = 32%nat /\ is_bytes k) (mdb kv).

Section Snapshot.
Context `{EthLibLaws} (kv : MemoryDB) (Hwf : mdb_wf kv).

Lemma sorted_keys_perm : keys (GetIterator kv) ≡ₚ EncodeToString <$> (map_to_list (mdb kv)).*1.
Proof. apply merge_sort_Permutation. Qed.

(** Each position of the iterator names a key of the map. *)
Lemma key_at i s :
  keys (GetIterator kv) !! i = Some s -> exists k v, mdb kv !! k = Some v /\ s = EncodeToString k /\
    FromHex s = k /\ bytes32 k = k.
Proof.
  intros Hi. apply list_elem_of_lookup_2 in Hi. rewrite sorted_keys_perm in Hi.
  apply list_elem_of_fmap in Hi as (k & -> & Hk). apply list_elem_of_fmap in Hk as ([k' v] & -> & Hk).
  apply elem_of_map_to_list in Hk. destruct (Hwf _ _ Hk) as [Hl Hb]. cbn.
  exists k', v. split_and!; [done|done|by apply FromHex_encode|by apply bytes32_id].
Qed.

(** The loop from position [i] copies the entries at and after it. *)
Lemma snapLoop_ok fuel i acc :
  (i + fuel = S (length (keys (GetIterator kv))))%nat -> (i <= length (keys (GetIterator kv)))%nat ->
  exists m, snapLoop fuel kv (mkIter (keys (GetIterator kv)) i) acc = Ok m /\
    forall k, m !! k =
      if decide (EncodeToString k ∈ drop i (keys (GetIterator kv)) /\ is_Some (mdb kv !! k))
      then mdb kv !! k else acc !! k.
Proof.
  revert i acc. induction fuel as [|fuel IH]; intros i acc Hf Hi; [lia|].
  cbn [snapLoop]. unfold Next. cbn [keys idx].
  destruct (Nat.eqb_spec (length (keys (GetIterator kv))) i) as [E|Hne].
  - exists acc. split; [done|]. intros k. rewrite drop_ge by lia. rewrite decide_False; [done|].
    intros [Hk _]. by apply elem_of_nil in Hk.
  - destruct (lookup_lt_is_Some_2 (keys (GetIterator kv)) i) as [str Hs]; [lia|].
    destruct (key_at i str Hs) as (k & v & Hk & Es & Ef & E32).
    assert (Ek : currentKey (mkIter (keys (GetIterator kv)) (i + 1)) = Ok k).
    { unfold currentKey. cbn [keys idx]. rewrite Nat.add_1_r, Hs. by rewrite Ef. }
    unfold Value, Key. rewrite Ek. cbn [mbind outcome_bind]. rewrite E32, Hk. cbn [default].
    destruct (IH (i + 1)%nat (<[k := v]> acc)) as (m & Em & Hm); [lia|lia|].
    exists m. split; [exact Em|]. intros k'. rewrite Hm, Nat.add_1_r.
    assert (Hd : forall x, x ∈ drop i (keys (GetIterator kv)) <->
                   x = str \/ x ∈ drop (S i) (keys (GetIterator kv))).
    { intros x. by rewrite (drop_S _ str i Hs), elem_of_cons. }
    destruct (decide (k' = k)) as [->|Hkk].
    + rewrite lookup_insert_eq. destruct (decide (EncodeToString k ∈ drop i _ /\ _)) as [_|Hno].
      * rewrite Hk. by case_decide.
      * destruct Hno. rewrite Hd, Hk. split; [by left|by eexists].
    + rewrite lookup_insert_ne by done. apply decide_ext. rewrite Hd.
      split; [tauto|]. intros [[E|Hin] [w Hw]]; [|eauto]. exfalso. apply Hkk. rewrite Es in E.
      apply EncodeToString_inj in E; [done|by destruct (Hwf _ _ Hw)|by destruct (Hwf _ _ Hk)].
Qed.

Lemma GetSnapShot_ok : GetSnapShot kv = Ok kv.
Proof.
  unfold GetSnapShot. destruct (snapLoop_ok (S (length (keys (GetIterator kv)))) 0 ∅) as (m & E & Hm); [lia|lia|].
  assert (Em : m = mdb kv).
  { apply map_eq. intros k. rewrite Hm, drop_0, lookup_empty.
    destruct (mdb kv !! k) as [v|] eqn:Ek; [|by case_decide].
    rewrite decide_True; [done|]. split; [|by eexists]. rewrite sorted_keys_perm.
    apply list_elem_of_fmap. exists k. split; [done|]. apply list_elem_of_fmap. exists (k, v).
    split; [done|]. by apply elem_of_map_to_list. }
  change (mkIter (keys (GetIterator kv)) 0) with (GetIterator kv) in E. rewrite E, Em. cbn. by destruct kv.
Qed.
End Snapshot.

(** ** Properties *)

(** A read after a write to the in-memory store: the value is
    seen under exactly the keys with the same first 32 bytes (shorter keys
    padded with zeros), so keys that differ later are the same key. *)
Theorem memdb_get_put kv key value key' :
  Get (Put key value kv).2 key' =
  if decide (bytes32 key = bytes32 key') then Ok value else Get kv key'.
Proof. apply Get_Put. Qed.

(** A snapshot of a store terminates and is the store: the
    iterator visits every key exactly until its end, and every value read is
    the one stored. *)
Theorem memdb_snapshot `{EthLibLaws} kv : mdb_wf kv -> GetSnapShot kv = Ok kv.
Proof. apply GetSnapShot_ok. Qed.

Definition sampleDb : MemoryDB := mkMemoryDB {[ replicate 32 7 := [1; 2]; replicate 32 3 := [] ]}.

Lemma memdb_snapshot_witness : GetSnapShot sampleDb = Ok sampleDb.
Proof.
  apply (memdb_snapshot sampleDb). apply map_Forall_insert_2; [|apply map_Forall_singleton];
    (split; [reflexivity|apply Forall_replicate; unfold is_byte; lia]).
Defined.
