(* ===== verification/BatchStore.v ===== *)
(** * Batch files

    Models the framed files of [pkg/storage/batchstore.go]: batches, puts and
    deleted keys appended to a file, each with its size in front, and the loops
    that load them.

    The state is the file system, a map from file names to contents; operations
    of the operating system are taken to succeed (a missing directory is
    created, an open file can be read and written).  [encoding/gob] is a
    parameter. *)

From S2P Require Import Prelude Binary Instances.

Local Open Scope Z_scope.

Abbreviation FileSystem := (gmap string bytes).

(** [gob] encodings; [None] is a returned error.  The law: what was encoded is
    decoded, and an encoding is never empty. *)
Class Gob (A : Type) := {
  gobEncode : A -> option bytes;
  gobDecode : bytes -> option A
}.

Class GobLaws (A : Type) `{Gob A} : Prop := {
  gob_roundtrip a : exists b, gobEncode a = Some b /\ gobDecode b = Some a /\ b <> []
}.

(** [[2][]byte] and [[][2][]byte] *)
Abbreviation put := (bytes * bytes)%type.
Abbreviation batch := (list put).

(** ** Encodings *)

Definition SerializeBatch `{Gob batch} (data : batch) : outcome bytes :=
  match gobEncode data with Some b => Ok b | None => Err (ErrText "gob") end.
Definition DeserializeBatch `{Gob batch} (b : bytes) : outcome batch :=
  match gobDecode b with Some d => Ok d | None => Err (ErrText "gob") end.
Definition PutToBytes `{Gob put} (key value : bytes) : outcome bytes :=
  match gobEncode (key, value) with Some b => Ok b | None => Err (ErrText "failed to encode data") end.
Definition BytesToPut `{Gob put} (b : bytes) : outcome put :=
  match gobDecode b with Some d => Ok d | None => Err (ErrText "failed to decode data") end.

(** *** Backup records *)

(** [TrieDatabaseBatchPut] and the entries of [FullDbLogs] are maps. *)
Record BackUpDb := mkBackUpDb {
  BockNumber : Z; NodeId : string;
  TxBatchPut : bytes; AccountBatch : bytes; BockBatch : bytes; BockPut : bytes; ReceiptBatchPut : bytes;
  SmartContractBatch : bytes; SmartContractStorageBatch : bytes; TrieDatabaseBatchPut : gmap string bytes;
  CodeBatchPut : bytes; MapppingBatch : bytes; DevicePut : bytes; DeviceDelete : bytes;
  FullDbLogs : list (gmap string bytes);
  BackupReceipts : bytes; EventLogs : bytes; StakeState : bytes
}.

Definition AddToFullDbLogs (data : gmap string bytes) (b : BackUpDb) : BackUpDb :=
  mkBackUpDb (BockNumber b) (NodeId b) (TxBatchPut b) (AccountBatch b) (BockBatch b) (BockPut b) (ReceiptBatchPut b)
    (SmartContractBatch b) (SmartContractStorageBatch b) (TrieDatabaseBatchPut b) (CodeBatchPut b) (MapppingBatch b)
    (DevicePut b) (DeviceDelete b) (FullDbLogs b ++ [data]) (BackupReceipts b) (EventLogs b) (StakeState b).

Definition SerializeByteArrays `{Gob (list bytes)} (data : list bytes) : outcome bytes :=
  match gobEncode data with Some b => Ok b | None => Err (ErrText "gob") end.
Definition DeserializeByteArrays `{Gob (list bytes)} (encodedData : bytes) : outcome (list bytes) :=
  match gobDecode encodedData with Some d => Ok d | None => Err (ErrText "gob") end.
Definition SerializeBackupDb `{Gob BackUpDb} (backup : BackUpDb) : outcome bytes :=
  match gobEncode backup with Some b => Ok b | None => Err (ErrText "failed to serialize BackUpDb") end.
Definition DeserializeBackupDb `{Gob BackUpDb} (encodedData : bytes) : outcome BackUpDb :=
  match gobDecode encodedData with Some b => Ok b | None => Err (ErrText "failed to deserialize BackUpDb") end.

(** ** Appending *)

(** Opening with [O_CREATE|O_APPEND] creates the file. *)
Definition openAppend (filename : string) (fs : FileSystem) : FileSystem :=
  <[filename := default [] (fs !! filename)]> fs.

(** The size as a little-endian [int64], and the data. *)
Definition frame (data : bytes) : bytes := leBytes 8 (wrap64 (Z.of_nat (length data))) ++ data.

Definition appendFrame (filename : string) (data : bytes) (fs : FileSystem) : FileSystem :=
  <[filename := default [] (fs !! filename) ++ frame data]> fs.

(** The batch is encoded before the file is opened. *)
Definition AppendBatch `{Gob batch} (filename : string) (data : batch) : stm FileSystem unit :=
  encodedBatchData ← lift (SerializeBatch data);
  modify (openAppend filename);;
  modify (appendFrame filename encodedBatchData).

(** An entry is encoded after the file was opened. *)
Definition AppendPut `{Gob put} (filename : string) (key value : bytes) : stm FileSystem unit :=
  modify (openAppend filename);;
  entryData ← lift (PutToBytes key value);
  modify (appendFrame filename entryData).

Definition AppendDelete `{Gob bytes} (filename : string) (key : bytes) : stm FileSystem unit :=
  modify (openAppend filename);;
  entryData ← lift (match gobEncode key with Some b => Ok b | None => Err (ErrText "failed to encode key") end);
  modify (appendFrame filename entryData).

(** ** Loading *)

(** The loop over the entries: the end of the file before a size ends it, a
    partial size, a size out of range, too few bytes and an entry that does not
    decode are errors. *)
Section readEntries.
Context {A : Type} (decode : bytes -> outcome A) (limit : Z).
Fixpoint readEntries (fuel : nat) (input : bytes) : outcome (list A) :=
  match fuel with
  | O => NoFuel
  | S fuel =>
      if (length input =? 0)%nat then Ok []
      else if (length input <? 8)%nat then Err (ErrText "failed to read entry size")
      else
        let entrySize := to_int64 (undigits 256 (take 8 input)) in
        if (entrySize <=? 0) || (entrySize >? limit) then Err (ErrText "invalid entry size")
        else
          let rest := drop 8 input in
          if Z.of_nat (length rest) <? entrySize then Err (ErrText "failed to read entry data")
          else
            entry ← decode (take (Z.to_nat entrySize) rest);
            entries ← readEntries fuel (drop (Z.to_nat entrySize) rest);
            Ok (entry :: entries)
  end.
End readEntries.

(** Every turn of the loop takes at least nine bytes. *)
Definition readAll {A} (decode : bytes -> outcome A) (limit : Z) (input : bytes) : outcome (list A) :=
  readEntries decode limit (S (length input)) input.

Definition maxBatch : Z := 50 * 1024 * 1024.
Definition maxEntry : Z := 10 * 1024 * 1024.

Definition LoadBatch `{Gob batch} (filename : string) (fs : FileSystem) : outcome batch :=
  match fs !! filename with
  | None => Err (ErrText "file does not exist")
  | Some content => readAll DeserializeBatch maxBatch content ≫= fun bs => Ok (mjoin (M := list) bs)
  end.

Definition LoadAllPut `{Gob put} (filename : string) (fs : FileSystem) : outcome (list put) :=
  match fs !! filename with
  | None => Err (ErrText "failed to open file")
  | Some content => readAll BytesToPut maxEntry content
  end.

Definition LoadAllDelete `{Gob bytes} (filename : string) (fs : FileSystem) : outcome (list bytes) :=
  match fs !! filename with
  | None => Err (ErrText "failed to open file")
  | Some content =>
      readAll (fun b => match gobDecode b with Some k => Ok k | None => Err (ErrText "failed to decode entry data") end)
        maxEntry content
  end.

(** ** Lemmas on the loop *)

Section loop.
Context {A : Type} (decode : bytes -> outcome A) (limit : Z).

Lemma length_frame (data : bytes) : length (frame data) = (8 + length data)%nat.
Proof. unfold frame. by rewrite length_app, length_leBytes. Qed.

Lemma frame_size (data : bytes) : Z.of_nat (length data) < 2 ^ 63 ->
  to_int64 (undigits 256 (leBytes 8 (wrap64 (Z.of_nat (length data))))) = Z.of_nat (length data).
Proof.
  intros Hl. rewrite undigits_leBytes. change (256 ^ Z.of_nat 8) with (2 ^ 64). rewrite (wrap64_id (Z.of_nat _)) by lia.
  rewrite Z.mod_small by lia. apply to_int64_id. lia.
Qed.

(** One turn on a whole frame. *)
Lemma readEntries_frame fuel (data rest : bytes) :
  data <> [] -> Z.of_nat (length data) < 2 ^ 63 ->
  readEntries decode limit (S fuel) (frame data ++ rest) =
  if Z.of_nat (length data) >? limit then Err (ErrText "invalid entry size")
  else entry ← decode data; entries ← readEntries decode limit fuel rest; Ok (entry :: entries).
Proof.
  intros Hne Hl. cbn [readEntries]. rewrite length_app, length_frame.
  rewrite (proj2 (Nat.eqb_neq _ _)), (proj2 (Nat.ltb_ge _ _)) by lia.
  unfold frame. rewrite <- !app_assoc.
  rewrite take_app_length', drop_app_length' by (by rewrite length_leBytes). rewrite frame_size by done.
  assert (0 < length data)%nat by (destruct data; [done|simpl; lia]).
  rewrite (proj2 (Z.leb_gt _ _)) by lia. cbn [orb].
  destruct (Z.of_nat (length data) >? limit); [done|].
  rewrite length_app, (proj2 (Z.ltb_ge _ _)) by lia. rewrite Nat2Z.id, take_app_length, drop_app_length. done.
Qed.

(** A file that ends inside a frame is refused. *)
Lemma readEntries_torn fuel (data : bytes) cut :
  data <> [] -> Z.of_nat (length data) < 2 ^ 63 -> (0 < cut < length (frame data))%nat ->
  exists e, readEntries decode limit (S fuel) (take cut (frame data)) = Err e.
Proof.
  intros Hne Hl Hc. cbn [readEntries]. pose proof (length_frame data) as Lf.
  assert (Lt : length (take cut (frame data)) = cut) by (rewrite length_take; lia). rewrite Lt.
  rewrite (proj2 (Nat.eqb_neq _ _)) by lia. destruct (Nat.ltb_spec cut 8); [by eexists|].
  rewrite take_take, Nat.min_l by lia.
  replace (to_int64 (undigits 256 (take 8 (frame data)))) with (Z.of_nat (length data))
    by (unfold frame; rewrite take_app_length' by (by rewrite length_leBytes); by rewrite frame_size).
  destruct (_ || _); [by eexists|]. rewrite length_drop, Lt.
  rewrite (proj2 (Z.ltb_lt _ _)) by lia. by eexists.
Qed.

(** The whole file: frames, then [rest]. *)
Lemma readEntries_frames (es : list (A * bytes)) (rest : bytes) fuel :
  Forall (fun x => decode x.2 = Ok x.1 /\ x.2 <> [] /\ Z.of_nat (length x.2) < 2 ^ 63) es ->
  (length es < fuel)%nat ->
  readEntries decode limit fuel (mjoin (frame <$> es.*2) ++ rest) =
  if forallb (fun x => Z.of_nat (length x.2) <=? limit) es
  then entries ← readEntries decode limit (fuel - length es) rest; Ok (es.*1 ++ entries)
  else Err (ErrText "invalid entry size").
Proof.
  intros Hes. revert fuel. induction Hes as [|[a b] es (Hd & Hn & Hl) Hes IH]; intros fuel Hf.
  - simpl. rewrite Nat.sub_0_r. by destruct (readEntries _ _ _ _).
  - destruct fuel as [|fuel]; [simpl in Hf; lia|].
    change (mjoin (frame <$> ((a, b) :: es).*2) ++ rest) with ((frame b ++ mjoin (frame <$> es.*2)) ++ rest).
    rewrite <- app_assoc, readEntries_frame by done. simpl in Hd, Hl. cbn [forallb snd].
    rewrite Z.gtb_ltb. destruct (Z.leb_spec (Z.of_nat (length b)) limit).
    + rewrite (proj2 (Z.ltb_ge _ _)) by lia. rewrite Hd. cbn [mbind outcome_bind andb].
      rewrite IH by (simpl in Hf; lia). destruct (forallb _ es); [|done]. simpl.
      by destruct (readEntries _ _ _ _).
    + by rewrite (proj2 (Z.ltb_lt _ _)) by lia.
Qed.

Lemma frames_fuel (es : list (A * bytes)) (rest : bytes) :
  (length es < S (length (mjoin (frame <$> es.*2) ++ rest)))%nat.
Proof.
  rewrite length_app. induction es as [|[a b] es IH]; [simpl; lia|].
  change (mjoin (frame <$> ((a, b) :: es).*2)) with (frame b ++ mjoin (frame <$> es.*2)).
  rewrite length_app, length_frame. cbn [length]. lia.
Qed.
End loop.

(** ** A file of batches *)

Section log.
Context `{GobLaws batch}.

Fixpoint appendBatches (filename : string) (bs : list batch) : stm FileSystem unit :=
  match bs with
  | [] => mret tt
  | d :: bs' => AppendBatch filename d;; appendBatches filename bs'
  end.

(** [encs] are the encodings of [bs]. *)
Definition encodings (bs : list batch) (encs : list bytes) : Prop :=
  Forall2 (fun d b => gobEncode d = Some b /\ Z.of_nat (length b) < 2 ^ 63) bs encs.

Lemma AppendBatch_run filename d b fs : gobEncode d = Some b ->
  AppendBatch filename d fs = (Ok tt, <[filename := default [] (fs !! filename) ++ frame b]> fs).
Proof.
  intros E. unfold AppendBatch, SerializeBatch, mbind, stm_bind, lift, modify, appendFrame, openAppend. rewrite E.
  simpl. rewrite lookup_insert_eq. simpl. by rewrite insert_insert_eq.
Qed.

Lemma appendBatches_run filename bs encs fs : encodings bs encs -> bs <> [] ->
  appendBatches filename bs fs = (Ok tt, <[filename := default [] (fs !! filename) ++ mjoin (frame <$> encs)]> fs).
Proof.
  intros He. revert fs. induction He as [|d b bs encs [Ed _] He IH]; intros fs Hne; [done|].
  cbn [appendBatches]. erewrite stm_bind_Ok by (by apply AppendBatch_run).
  destruct bs as [|d' bs]; [inversion He; subst; simpl; by rewrite app_nil_r|].
  rewrite IH by done. rewrite lookup_insert_eq, insert_insert_eq. cbn [default from_option id].
  by rewrite <- app_assoc.
Qed.

Lemma forallb_snd {A} (f : bytes -> bool) (es : list (A * bytes)) : forallb f es.*2 = forallb (fun x => f x.2) es.
Proof. induction es as [|x es IH]; [done|]. cbn. f_equal. exact IH. Qed.

Lemma encodings_entries bs encs : encodings bs encs ->
  exists es, es.*1 = bs /\ es.*2 = encs /\
    Forall (fun x => DeserializeBatch x.2 = Ok x.1 /\ x.2 <> [] /\ Z.of_nat (length x.2) < 2 ^ 63) es.
Proof.
  induction 1 as [|d b bs encs [Ed Hl] He (es & E1 & E2 & HF)]; [by exists []|].
  exists ((d, b) :: es). cbn. split_and!; [by rewrite E1|by rewrite E2|]. constructor; [|done]. simpl.
  destruct (gob_roundtrip d) as (b' & Eb & Ed' & Hn). assert (b' = b) as -> by congruence.
  unfold DeserializeBatch. by rewrite Ed'.
Qed.

Lemma LoadBatch_frames filename fs bs encs rest :
  encodings bs encs -> fs !! filename = Some (mjoin (frame <$> encs) ++ rest) ->
  exists fuel, LoadBatch filename fs =
    (if forallb (fun b => Z.of_nat (length b) <=? maxBatch) encs
     then entries ← readEntries DeserializeBatch maxBatch (S fuel) rest; Ok (mjoin bs ++ mjoin entries)
     else Err (ErrText "invalid entry size")) /\ (length rest <= fuel)%nat.
Proof.
  intros He Hf. destruct (encodings_entries bs encs He) as (es & <- & <- & HF).
  pose proof (frames_fuel es rest) as Hfuel.
  exists (length (mjoin (frame <$> es.*2) ++ rest) - length es)%nat.
  unfold LoadBatch. rewrite Hf. unfold readAll. rewrite readEntries_frames by done. split.
  - replace (S (length (mjoin (frame <$> es.*2) ++ rest)) - length es)%nat
      with (S (length (mjoin (frame <$> es.*2) ++ rest) - length es))%nat by lia.
    rewrite forallb_snd. destruct (forallb _ es); [|done].
    destruct (readEntries _ _ _ _); [|done..]. cbn. by rewrite join_app.
  - pose proof (frames_fuel es []) as H2. rewrite app_nil_r in H2. rewrite length_app. lia.
Qed.
End log.

(** Appending batches to a new file and loading it gives their
    concatenation, provided every encoded batch is at most 50 MiB; a batch above
    the limit is appended without an error and makes the whole file unreadable.
    A file that lost between one byte and all but one byte of its last batch, as
    after a crash, is refused. *)
Theorem batch_file `{GobLaws batch} (filename : string) (fs : FileSystem) (bs : list batch) (encs : list bytes)
  (d : batch) (b : bytes) (lost : nat) :
  encodings (bs ++ [d]) (encs ++ [b]) -> fs !! filename = None -> (0 < lost < length (frame b))%nat ->
  exists fs' content,
    appendBatches filename (bs ++ [d]) fs = (Ok tt, fs') /\ fs' !! filename = Some content /\
    LoadBatch filename fs' =
      (if forallb (fun b => Z.of_nat (length b) <=? maxBatch) (encs ++ [b]) then Ok (mjoin bs ++ d)
       else Err (ErrText "invalid entry size")) /\
    exists e, LoadBatch filename (<[filename := take (length content - lost) content]> fs') = Err e.
Proof.
  intros He Hf Hlost. eexists _, _. split; [apply appendBatches_run; [done|by destruct bs]|].
  rewrite Hf, lookup_insert_eq. cbn [default from_option id app]. split; [done|]. split.
  - destruct (LoadBatch_frames filename (<[filename := mjoin (frame <$> encs ++ [b])]> fs) (bs ++ [d]) (encs ++ [b]) [])
      as (fuel & -> & _); [done|by rewrite lookup_insert_eq, app_nil_r|].
    destruct (forallb _ _); [|done]. cbn. rewrite join_app. cbn. by rewrite !app_nil_r.
  - apply Forall2_app_inv in He as [He Hd]; [|apply Forall2_length in He; rewrite !length_app in He; simpl in He; lia].
    apply Forall2_cons in Hd as [[Eb Hb] _]. destruct (gob_roundtrip d) as (b' & Eb' & _ & Hn).
    assert (b' = b) as -> by congruence.
    rewrite fmap_app, join_app. cbn [fmap list_fmap mjoin list_join]. rewrite app_nil_r, length_app.
    rewrite take_app_ge by lia. rewrite insert_insert_eq.
    set (cut := (_ - _ - _)%nat). assert (Hc : (0 < cut < length (frame b))%nat) by (subst cut; lia).
    destruct (LoadBatch_frames filename
      (<[filename := mjoin (frame <$> encs) ++ take cut (frame b)]> fs) bs encs (take cut (frame b)))
      as (fuel & -> & _); [done|by rewrite lookup_insert_eq|].
    destruct (forallb _ _); [|by eexists].
    destruct (readEntries_torn DeserializeBatch maxBatch fuel b cut) as [e ->]; [done|done|done|]. by eexists.
Qed.

(** Length-prefixed pairs in place of [gob]. *)
Fixpoint unpairs (l : list bytes) : option batch :=
  match l with
  | [] => Some []
  | k :: v :: l' => (fun r => (k, v) :: r) <$> unpairs l'
  | _ => None
  end.

Definition flat (d : batch) : list bytes := mjoin ((fun p => [p.1; p.2]) <$> d).

Lemma unpairs_flat d : unpairs (flat d) = Some d.
Proof.
  induction d as [|[k v] d IH]; [done|]. change (flat ((k, v) :: d)) with (k :: v :: flat d).
  cbn [unpairs]. by rewrite IH.
Qed.

#[export] Instance toyGobBatch : Gob batch := {|
  gobEncode d := Some (0 :: mjoin (framed <$> flat d));
  gobDecode b := match b with 0 :: b' => unpairs (unframeAll (length b') b') | _ => None end
|}.

#[export] Instance toyGobBatchLaws : GobLaws batch.
Proof.
  split. intros d. eexists. split; [done|]. split; [|done]. cbn [gobDecode toyGobBatch].
  rewrite unframeAll_framed by apply length_framed. apply unpairs_flat.
Qed.

Definition toyEnc (d : batch) : bytes := default [] (gobEncode d).

Lemma batch_file_witness :
  let d1 := [([1; 2], [3]); ([4], [])] in let d2 := [([5], [6; 7])] in
  exists fs' content,
    appendBatches "log" ([d1] ++ [d2]) ∅ = (Ok tt, fs') /\ fs' !! "log"%string = Some content /\
    LoadBatch "log" fs' = Ok (d1 ++ d2) /\
    exists e, LoadBatch "log" (<["log"%string := take (length content - 3) content]> fs') = Err e.
Proof.
  intros d1 d2.
  destruct (batch_file "log" ∅ [d1] [toyEnc d1] d2 (toyEnc d2) 3) as (fs' & content & E1 & E2 & E3 & E4).
  - repeat constructor.
  - reflexivity.
  - vm_compute. lia.
  - exists fs', content. split; [exact E1|]. split; [exact E2|]. split; [exact E3|exact E4].
Defined.
