(* ===== verification/TrieExport.v ===== *)
(** * Exporting a trie to a file

    Models [TrieData], [ExportTrie] and [ImportTrie] of [pkg/trie/trie.go].
    The state is the trie and the file system; a file can be created, written
    and read, as in [BatchStore], and [encoding/gob] is the same parameter.
    [order] stands for the order in which the imported map is ranged over.

    The theorems show that an export leaves the trie's contents alone and
    writes its root hash and entries, and that the file of a non-empty trie
    cannot be imported: [ImportTrie] opens the trie at the exported root hash
    in an empty database. *)

From S2P Require Import Prelude TrieEncoding TrieNode TrieTracer Trie TrieHash TrieSpec TrieCanon.
From S2P Require Import TrieUpdate TrieCorrect TrieInsert TrieDelete TrieMap TrieHashCorrect TrieCommit.
From S2P Require Import Instances TrieTheorems BatchStore.

Local Open Scope Z_scope.

Record TrieData := mkTrieData { RootHash : bytes; KeyValues : gmap bytes bytes }.

Section Exporting.
Context `{EthLib} `{MPTProto} `{Gob TrieData}.

(** [os.Create] truncates the file before the data is encoded into it. *)
Definition ExportTrie (dbGet : bytes -> outcome bytes) (fuel : nat) (filePath : string) :
  stm (MerklePatriciaTrie * FileSystem) unit := fun '(t, fs) =>
  match HashTrie t with
  | (Ok h, t1) =>
      match GetAll dbGet fuel t1 with
      | (Ok allData, t2) =>
          match gobEncode (mkTrieData h allData) with
          | Some b => (Ok tt, (t2, <[filePath := b]> fs))
          | None => (Err (ErrText "encode"), (t2, <[filePath := []]> fs))
          end
      | (Err e, t2) => (Err e, (t2, fs))
      | (Panic, t2) => (Panic, (t2, fs))
      | (NoFuel, t2) => (NoFuel, (t2, fs))
      end
  | (Err e, t1) => (Err e, (t1, fs))
  | (Panic, t1) => (Panic, (t1, fs))
  | (NoFuel, t1) => (NoFuel, (t1, fs))
  end.

(** The loop over [data.KeyValues]: the first failing update ends it. *)
Fixpoint importAll (kvs : list (bytes * bytes)) : stm MerklePatriciaTrie unit :=
  match kvs with
  | [] => mret tt
  | (key, value) :: kvs => Update emptyDb key value;; importAll kvs
  end.

Definition ImportTrie (order : gmap bytes bytes -> list (bytes * bytes)) (filePath : string) (fs : FileSystem) :
  outcome MerklePatriciaTrie :=
  match fs !! filePath with
  | None => Err (ErrText "open")
  | Some b =>
      match gobDecode b with
      | None => Err (ErrText "decode")
      | Some data =>
          t ← NewTrie emptyDb (RootHash data) true;
          match importAll (order (KeyValues data)) t with
          | (Ok _, t') => Ok t'
          | (Err e, _) => Err e
          | (Panic, _) => Panic
          | (NoFuel, _) => NoFuel
          end
      end
  end.
End Exporting.

Section ExportingLaws.
Context `{EthLibLaws} `{MPTProtoLaws} `{GobLaws TrieData}.

Lemma GetAll_root dbGet fuel t r t' :
  GetAll dbGet fuel t = (r, t') -> root t' = root t /\ committed t' = committed t.
Proof.
  unfold GetAll, getTrie, onTracer, mbind, stm_bind, lift. destruct (committed t) eqn:Ec; [by intros [= <- <-]|].
  destruct (getAll _ _ _ _ _ _) as [o tr]. by intros [= <- <-].
Qed.

(** What an export writes. *)
Lemma ExportTrie_run dbGet fuel filePath t T m fs :
  trie_ok dbGet t T -> rep T m -> (2 * pheight T <= fuel)%nat ->
  exists t' d b, ExportTrie dbGet fuel filePath (t, fs) = (Ok tt, (t', <[filePath := b]> fs)) /\
    gobDecode b = Some (mkTrieData (phash T) d) /\ trie_rep dbGet t' m /\
    (forall s, is_bytes s -> d !! getAllKey (KeybytesToHex s) = m !! s) /\
    (forall k v, d !! k = Some v -> exists s, m !! s = Some v /\ k = getAllKey (KeybytesToHex s)).
Proof.
  intros Hok R Hf. destruct (HashTrie_correct dbGet t T Hok) as (t1 & E1 & Hok1 & _).
  destruct (GetAll_entries dbGet t1 T m fuel Hok1 R Hf) as (d & t2 & E2 & Hd & Hd').
  destruct (gob_roundtrip (mkTrieData (phash T) d)) as (b & Eb & Ed & _).
  exists t2, d, b. split_and!; [|done| |done|done].
  - unfold ExportTrie. by rewrite E1, E2, Eb.
  - destruct (GetAll_root _ _ _ _ _ E2) as [Er Ec]. destruct Hok1 as [Hr Hw Ho].
    exists T. split; [|done]. split; [by rewrite Er|done|by rewrite Ec].
Qed.

Lemma ImportTrie_missing order filePath fs b h d :
  fs !! filePath = Some b -> gobDecode b = Some (mkTrieData h d) ->
  length h = 32%nat -> h <> zeroHash -> h <> EmptyRootHash ->
  ImportTrie order filePath fs = Err (MissingNodeError h []).
Proof.
  intros Hb Hd Hl Hz He. unfold ImportTrie. rewrite Hb, Hd. cbn [RootHash].
  unfold NewTrie. rewrite !bool_decide_eq_false_2 by done. cbn [negb andb].
  unfold resolveAndTrack, reader_node. by rewrite BytesToHash_id.
Qed.
End ExportingLaws.

(** ** Properties *)

(** An export succeeds and keeps the trie's contents, but the file it
    writes for a non-empty trie is refused by [ImportTrie], in whatever order
    the entries are ranged over: the database it opens the exported root hash
    in is empty. *)
Theorem export_not_importable `{EthLibLaws} `{MPTProtoLaws} `{GobLaws TrieData} dbGet fuel filePath t T m fs :
  trie_ok dbGet t T -> rep T m -> (2 * pheight T <= fuel)%nat ->
  m <> ∅ -> phash T <> zeroHash -> phash T <> EmptyRootHash ->
  exists t' fs', ExportTrie dbGet fuel filePath (t, fs) = (Ok tt, (t', fs')) /\ trie_rep dbGet t' m /\
    forall order, ImportTrie order filePath fs' = Err (MissingNodeError (phash T) []).
Proof.
  intros Hok R Hf Hm Hz He. destruct (ExportTrie_run dbGet fuel filePath t T m fs Hok R Hf) as (t' & d & b & E & Ed & R' & _).
  do 2 eexists. split; [exact E|]. split; [done|]. intros order.
  destruct Hok as [_ [->|W] _]; [by destruct Hm; apply (rep_map_unique PNil _ _ R rep_empty)|].
  eapply ImportTrie_missing; [by rewrite lookup_insert_eq|exact Ed|by apply phash_len|done|done].
Qed.

(** The empty trie is the one that comes back. *)
Theorem export_empty_importable `{EthLibLaws} `{MPTProtoLaws} `{GobLaws TrieData} dbGet fuel filePath t T fs order :
  trie_ok dbGet t T -> rep T ∅ -> (2 * pheight T <= fuel)%nat -> order ∅ = [] ->
  exists t' fs', ExportTrie dbGet fuel filePath (t, fs) = (Ok tt, (t', fs')) /\
    ImportTrie order filePath fs' = Ok (freshTrie true).
Proof.
  intros Hok R Hf Ho. destruct (ExportTrie_run dbGet fuel filePath t T ∅ fs Hok R Hf) as (t' & d & b & E & Ed & _ & _ & Hd).
  pose proof (rep_unique T PNil ∅ (ok_wf _ _ _ Hok) (or_introl eq_refl) R rep_empty) as ->.
  assert (d = ∅) as ->.
  { apply map_empty. intros k. destruct (d !! k) as [v|] eqn:Ek; [|done].
    destruct (Hd k v Ek) as (s & Hs & _). by rewrite lookup_empty in Hs. }
  do 2 eexists. split; [exact E|]. unfold ImportTrie. rewrite lookup_insert_eq, Ed. cbn [RootHash phash KeyValues].
  unfold NewTrie. rewrite (bool_decide_eq_true_2 (EmptyRootHash = EmptyRootHash)), andb_false_r by done.
  cbn. by rewrite Ho.
Qed.

(** ** A concrete export *)

#[local] Instance toyGobTrie : Gob TrieData := {
  gobEncode d := Some (encodeMsg (RootHash d, map_to_list (KeyValues d)));
  gobDecode b := match decodeMsg (A := bytes * list (bytes * bytes)) b with
                 | Some (h, kvs) => Some (mkTrieData h (list_to_map kvs))
                 | None => None
                 end
}.

#[local] Instance toyGobTrieLaws : GobLaws TrieData.
Proof.
  split. intros [h kvs]. eexists. split; [done|]. split; [|done]. cbn [gobDecode toyGobTrie RootHash KeyValues].
  rewrite decode_encodeMsg. by rewrite list_to_map_to_list.
Qed.

Lemma export_not_importable_witness :
  exists t' fs', ExportTrie emptyDb 8 "trie.gob" (sampleTrie, ∅) = (Ok tt, (t', fs')) /\
    trie_rep emptyDb t' sampleMap /\
    ImportTrie map_to_list "trie.gob" fs' = Err (MissingNodeError (phash (erase (root sampleTrie))) []).
Proof.
  destruct sampleTrie_ok as [Hok R].
  destruct (export_not_importable emptyDb 8 "trie.gob" sampleTrie _ sampleMap ∅ Hok R) as (t' & fs' & E & Hr & Hi).
  1-4: apply (bool_decide_unpack _); vm_compute; exact I.
  exists t', fs'. split; [exact E|]. split; [exact Hr|exact (Hi _)].
Defined.
