(* ===== verification/LevelStore.v ===== *)
(** * Databases on LevelDB

    Models [pkg/storage/leveldb.go]: a manager that gives out one database per path
    and mode and limits how many are open, and databases that open themselves again
    when they are used after [Close].

    The library [goleveldb] is the class [LevelLib] over a state [W] of its own: open
    handles and the contents of the paths.  Databases are shared by pointer, so that
    they live in a heap ([dbs]).  [Close] waits at most five seconds for the
    goroutine that closes the handle: whether that is in time is an argument, and when
    it is not, the goroutine goes on ([closers]) in two steps.  Time is an argument. *)

From S2P Require Import Prelude.

Local Open Scope Z_scope.

(** ** The library *)

Class LevelLib (H W : Type) := {
  OpenFile : string -> bool -> W -> outcome H * W;               (* path, read only *)
  hGet : H -> bytes -> W -> outcome bytes;
  hHas : H -> bytes -> W -> outcome bool;
  hPut : H -> bytes -> bytes -> W -> outcome unit * W;
  hDelete : H -> bytes -> W -> outcome unit * W;
  hWrite : H -> list (bytes * bytes) -> W -> outcome unit * W;
  hClose : H -> W -> outcome unit * W;
  hIterError : H -> W -> bool;                                   (* iterating over everything fails *)
  handle : W -> H -> option (string * bool);                     (* path and mode of an open handle *)
  allocated : W -> H -> bool;                                    (* handles that were opened before *)
  contents : W -> string -> gmap bytes bytes
}.

Definition ErrNotFound : GoError := ErrText "leveldb: not found".
Definition ErrClosed : GoError := ErrText "leveldb: closed".
Definition ErrReadOnly : GoError := ErrText "leveldb: read-only mode".

Definition putAll (kvs : list (bytes * bytes)) (m : gmap bytes bytes) : gmap bytes bytes :=
  foldl (fun m kv => <[kv.1 := kv.2]> m) m kvs.

(** What an operation that changes the contents does: it needs an open handle
    that may write; then it fails and changes nothing, or it succeeds and changes the
    contents of the path and nothing else. *)
Definition writes {H W} `{LevelLib H W} (h : H) (f : gmap bytes bytes -> gmap bytes bytes) (w : W) (r : outcome unit * W) : Prop :=
  (forall g, handle r.2 g = handle w g /\ allocated r.2 g = allocated w g) /\
  match handle w h with
  | None => r.1 = Err ErrClosed /\ contents r.2 = contents w
  | Some (p, true) => r.1 = Err ErrReadOnly /\ contents r.2 = contents w
  | Some (p, false) =>
      (r.1 = Ok tt /\ forall q, contents r.2 q = if decide (q = p) then f (contents w p) else contents w q) \/
      (exists e, r.1 = Err e) /\ contents r.2 = contents w
  end.

Class LevelLaws (H W : Type) `{LevelLib H W} : Prop := {
  open_law path ro w :
    let r := OpenFile path ro w in contents r.2 = contents w /\
    ((exists h, r.1 = Ok h /\ allocated w h = false /\ allocated r.2 h = true /\ handle r.2 h = Some (path, ro) /\
        (forall g, g <> h -> handle r.2 g = handle w g /\ allocated r.2 g = allocated w g)) \/
     (exists e, r.1 = Err e) /\ (forall g, handle r.2 g = handle w g /\ allocated r.2 g = allocated w g));
  get_law h k w :
    hGet h k w = match handle w h with
                 | Some (p, _) => match contents w p !! k with Some v => Ok v | None => Err ErrNotFound end
                 | None => Err ErrClosed
                 end;
  has_law h k w :
    hHas h k w = match handle w h with
                 | Some (p, _) => Ok (bool_decide (is_Some (contents w p !! k)))
                 | None => Err ErrClosed
                 end;
  put_law h k v w : writes h (fun m => <[k := v]> m) w (hPut h k v w);
  delete_law h k w : writes h (fun m => delete k m) w (hDelete h k w);
  write_law h kvs w : writes h (putAll kvs) w (hWrite h kvs w);
  close_law h w :
    let r := hClose h w in contents r.2 = contents w /\ handle r.2 h = None /\ (forall g, g = h \/ handle r.2 g = handle w g) /\
    (forall g, allocated r.2 g = allocated w g) /\ (r.1 = Ok tt \/ exists e, r.1 = Err e)
}.

Section LevelDB.
Context {H W : Type} `{LevelLib H W}.

Record LevelDB := mkLevelDB { db : option H; closed : bool; path : string; lastActive : Z }.

Record LevelDBManager := mkManager {
  instances : gmap string nat;
  writeInstances : gmap string nat;
  maxOpenFiles : Z;
  activeFiles : Z;
  idleTimeout : Z
}.

(** [closers]: the goroutines of [Close] that were not waited for, with whether
    they have closed the handle already. *)
Record LState := mkState { world : W; dbs : list LevelDB; mgr : LevelDBManager; closers : list (nat * bool) }.

Definition NewLevelDBManager (maxOpenFiles idleTimeout : Z) : LevelDBManager := mkManager ∅ ∅ maxOpenFiles 0 idleTimeout.

Definition setWorld (w : W) (s : LState) : LState := mkState w (dbs s) (mgr s) (closers s).
Definition setDb (p : nat) (d : LevelDB) (s : LState) : LState := mkState (world s) (<[p := d]> (dbs s)) (mgr s) (closers s).
Definition setMgr (m : LevelDBManager) (s : LState) : LState := mkState (world s) (dbs s) m (closers s).
Definition setClosers (c : list (nat * bool)) (s : LState) : LState := mkState (world s) (dbs s) (mgr s) c.
Definition setActive (n : Z) (m : LevelDBManager) : LevelDBManager :=
  mkManager (instances m) (writeInstances m) (maxOpenFiles m) n (idleTimeout m).

(** Opening is tried up to five times; only "too many open files" is retried. *)
Fixpoint openRetry (tooMany : GoError -> bool) (tries : nat) (p : string) (ro : bool) (w : W) : outcome H * W :=
  match tries with
  | O => (Err (ErrText "failed to initialize LevelDB: db is nil"), w)
  | S tries =>
      match OpenFile p ro w with
      | (Err e, w') => if tooMany e then openRetry tooMany tries p ro w' else (Err e, w')
      | r => r
      end
  end.

Definition GetOrCreate (tooMany : GoError -> bool) (now : Z) (p : string) (isReadOnly : bool) : stm LState nat := fun s =>
  let m := mgr s in
  if bool_decide (p = ""%string) then (Err (ErrText "invalid path: path is empty"), s)
  else
    match (if isReadOnly then instances m else writeInstances m) !! p with
    | Some d => (Ok d, s)
    | None =>
        if maxOpenFiles m <=? activeFiles m then (Err (ErrText "cannot open more LevelDB instances, maximum limit reached"), s)
        else
          match openRetry tooMany 5 p isReadOnly (world s) with
          | (Ok h, w) =>
              let d := length (dbs s) in
              let m' := if isReadOnly
                        then mkManager (<[p := d]> (instances m)) (writeInstances m) (maxOpenFiles m) (activeFiles m + 1) (idleTimeout m)
                        else mkManager (instances m) (<[p := d]> (writeInstances m)) (maxOpenFiles m) (activeFiles m + 1) (idleTimeout m) in
              (Ok d, mkState w (dbs s ++ [mkLevelDB (Some h) false p now]) m' (closers s))
          | (Err e, w) => (Err e, setWorld w s)
          | (Panic, w) => (Panic, setWorld w s)
          | (NoFuel, w) => (NoFuel, setWorld w s)
          end
    end.

(** Every open handle is opened for writing here. *)
Definition ensureOpen (p : nat) : stm LState unit := fun s =>
  match dbs s !! p with
  | None => (Panic, s)
  | Some d =>
      if closed d then
        match OpenFile (path d) false (world s) with
        | (Ok h, w) => (Ok tt, setDb p (mkLevelDB (Some h) false (path d) (lastActive d)) (setWorld w s))
        | (Err e, w) => (Err e, setDb p (mkLevelDB None true (path d) (lastActive d)) (setWorld w s))
        | (Panic, w) => (Panic, setWorld w s)
        | (NoFuel, w) => (NoFuel, setWorld w s)
        end
      else (Ok tt, s)
  end.

Definition updateLastActive (now : Z) (p : nat) : stm LState unit := fun s =>
  match dbs s !! p with
  | None => (Panic, s)
  | Some d => (Ok tt, setDb p (mkLevelDB (db d) (closed d) (path d) now) s)
  end.

(** A call on the handle; a nil handle panics. *)
Definition onHandle {A} (p : nat) (f : H -> W -> outcome A * W) : stm LState A := fun s =>
  match dbs s !! p ≫= db with
  | None => (Panic, s)
  | Some h => let '(r, w) := f h (world s) in (r, setWorld w s)
  end.

Definition Get (now : Z) (p : nat) (key : bytes) : stm LState bytes :=
  ensureOpen p ≫= fun _ => updateLastActive now p ≫= fun _ => onHandle p (fun h w => (hGet h key w, w)).
Definition Put (now : Z) (p : nat) (key value : bytes) : stm LState unit :=
  ensureOpen p ≫= fun _ => updateLastActive now p ≫= fun _ => onHandle p (fun h w => hPut h key value w).
Definition BatchPut (now : Z) (p : nat) (kvs : list (bytes * bytes)) : stm LState unit :=
  ensureOpen p ≫= fun _ => updateLastActive now p ≫= fun _ => onHandle p (fun h w => hWrite h kvs w).
Definition Delete (p : nat) (key : bytes) : stm LState unit := onHandle p (fun h w => hDelete h key w).

(** The error is dropped. *)
Definition Has (p : nat) (key : bytes) : stm LState bool :=
  onHandle p (fun h w => (match hHas h key w with Ok b => Ok b | Err _ => Ok false | r => r end, w)).

Definition Open (p : nat) : stm LState unit := ensureOpen p.

Definition removeInstance (p : string) (s : LState) : LState :=
  let m := mgr s in
  setMgr (mkManager (delete p (instances m)) (writeInstances m) (maxOpenFiles m) (activeFiles m - 1) (idleTimeout m)) s.

(** The goroutine of [Close]: the handle, then the flag.  An error of the iterator
    ends the process. *)
Definition closeHandle (p : nat) : stm LState unit := fun s =>
  match dbs s !! p ≫= db with
  | None => (Panic, s)
  | Some h => if hIterError h (world s) then (Panic, s) else (Ok tt, setWorld (hClose h (world s)).2 s)
  end.
Definition markClosed (p : nat) (s : LState) : LState :=
  match dbs s !! p with Some d => setDb p (mkLevelDB (db d) true (path d) (lastActive d)) s | None => s end.

Definition Close (timely : bool) (p : nat) : stm LState unit := fun s =>
  match dbs s !! p with
  | None => (Panic, s)
  | Some d =>
      if closed d then (Ok tt, s)
      else if timely then
        match closeHandle p s with
        | (Ok _, s') => (Ok tt, removeInstance (path d) (markClosed p s'))
        | (r, s') => (r, s')
        end
      else (Err (ErrText "timeout waiting for LevelDB to close"), setClosers (closers s ++ [(p, false)]) s)
  end.

(** A step of a goroutine that was left behind. *)
Definition closerStep (i : nat) : stm LState unit := fun s =>
  match closers s !! i with
  | Some (p, false) =>
      match closeHandle p s with
      | (Ok _, s') => (Ok tt, setClosers (<[i := (p, true)]> (closers s')) s')
      | r => r
      end
  | Some (p, true) => (Ok tt, setClosers (delete i (closers s)) (markClosed p s))
  | None => (Ok tt, s)
  end.
End LevelDB.

(** * Databases on LevelDB: a map per path

    Whatever is opened, closed, left to close in the background and opened again, the
    databases of the manager are one map per path ([level_refines_map]).  The count of
    open files does not keep its limit ([active_files_drift]), and a database that
    was opened for reading can be written after it was closed
    ([read_only_writable]). *)

Section Refinement.
Context {H W : Type} `{LevelLaws H W} (tooMany : GoError -> bool).

Inductive call :=
| cGetOrCreate (now : Z) (path : string) (isReadOnly : bool)
| cGet (now : Z) (p : nat) (key : bytes)
| cHas (p : nat) (key : bytes)
| cPut (now : Z) (p : nat) (key value : bytes)
| cBatchPut (now : Z) (p : nat) (kvs : list (bytes * bytes))
| cDelete (p : nat) (key : bytes)
| cOpen (p : nat)
| cClose (timely : bool) (p : nat)
| cCloser (i : nat).

(** The result of a call; the numbers are pointers to databases. *)
Inductive result := rDb (o : outcome nat) | rBytes (o : outcome bytes) | rBool (o : outcome bool) | rUnit (o : outcome unit).

Definition runCall (c : call) (s : LState (H := H) (W := W)) : result * LState (H := H) (W := W) :=
  match c with
  | cGetOrCreate now p ro => let '(r, s) := GetOrCreate tooMany now p ro s in (rDb r, s)
  | cGet now p k => let '(r, s) := Get now p k s in (rBytes r, s)
  | cHas p k => let '(r, s) := Has p k s in (rBool r, s)
  | cPut now p k v => let '(r, s) := Put now p k v s in (rUnit r, s)
  | cBatchPut now p kvs => let '(r, s) := BatchPut now p kvs s in (rUnit r, s)
  | cDelete p k => let '(r, s) := Delete p k s in (rUnit r, s)
  | cOpen p => let '(r, s) := Open p s in (rUnit r, s)
  | cClose timely p => let '(r, s) := Close timely p s in (rUnit r, s)
  | cCloser i => let '(r, s) := closerStep i s in (rUnit r, s)
  end.

(** ** The specification

    A map for each path; for each database its path, whether it counts as closed, and
    the state of its handle; and the closings left to goroutines. *)



















(** ** Every call follows the specification *)
























(** ** Runs *)

Fixpoint run (cs : list call) (s : LState (H := H) (W := W)) : list result * LState (H := H) (W := W) :=
  match cs with
  | [] => ([], s)
  | c :: cs => let '(r, s1) := runCall c s in let '(rs, s2) := run cs s1 in (r :: rs, s2)
  end.


Definition start (w : W) (maxOpen idle : Z) : LState (H := H) (W := W) := mkState w [] (NewLevelDBManager maxOpen idle) [].


(** ** The limit of open files *)

(** [Close] in time and a use that opens the database again. *)
Definition closeAndUse (now : Z) (p : nat) (k : bytes) (s : LState (H := H) (W := W)) : LState (H := H) (W := W) :=
  (Get now p k (Close true p s).2).2.

Fixpoint rounds (now : Z) (p : nat) (k : bytes) (n : nat) (s : LState (H := H) (W := W)) : LState (H := H) (W := W) :=
  match n with O => s | S n => closeAndUse now p k (rounds now p k n s) end.

Lemma ensureOpen_keeps p s : mgr (ensureOpen p s).2 = mgr s.
Proof. unfold ensureOpen. repeat case_match; done. Qed.

Lemma get_keeps now p k s : mgr (Get now p k s).2 = mgr s.
Proof.
  unfold Get, mbind, stm_bind. pose proof (ensureOpen_keeps p s) as E. destruct (ensureOpen p s) as [[]s1]; try done. cbn [snd] in E.
  rewrite <- E. unfold updateLastActive. destruct (dbs s1 !! p) as [d|] eqn:Hp; [|done]. unfold onHandle. by repeat case_match.
Qed.

(** A database that is closed in time and used again counts as closed although it is
    open: after [n] such rounds of one database the count of open files is smaller by
    [n], and the database is still given out for its path.  The limit of the manager
    is then no limit. *)
Theorem active_files_drift now p k n s :
  (forall i, (i < n)%nat -> let si := rounds now p k i s in
     exists d, dbs si !! p = Some d /\ closed d = false /\ (closeHandle p si).1 = Ok tt) ->
  activeFiles (mgr (rounds now p k n s)) = activeFiles (mgr s) - Z.of_nat n /\
  writeInstances (mgr (rounds now p k n s)) = writeInstances (mgr s).
Proof.
  induction n as [|n IH]; intros Hi; [cbn; split; [lia|done]|].
  destruct IH as [IHa IHw]; [intros i Hn; apply Hi; lia|]. destruct (Hi n ltac:(lia)) as (d & Hd & Hc & Hok).
  cbn [rounds]. set (si := rounds now p k n s) in *. unfold closeAndUse. rewrite get_keeps.
  unfold Close. rewrite Hd, Hc. destruct (closeHandle p si) as [o s1] eqn:E. cbn [fst] in Hok. subst o. cbn [snd].
  assert (M : mgr s1 = mgr si) by (revert E; unfold closeHandle; repeat case_match; by intros [= <-]).
  assert (MM : mgr (markClosed p s1) = mgr si) by (unfold markClosed; by case_match).
  unfold removeInstance. cbn. rewrite MM. rewrite IHa. split; [lia|done].
Qed.

(** A database that was opened for reading only can be written after it was
    closed: its next use opens it for writing. *)
Theorem read_only_writable p s d : dbs s !! p = Some d -> closed d = true -> (ensureOpen p s).1 = Ok tt ->
  let s' := (ensureOpen p s).2 in
  exists d' h, dbs s' !! p = Some d' /\ db d' = Some h /\ handle (world s') h = Some (path d, false).
Proof.
  intros Hd Hc. cbn zeta. unfold ensureOpen. rewrite Hd, Hc. pose proof (open_law (path d) false (world s)) as [_ Ho].
  destruct (OpenFile (path d) false (world s)) as [[h|e| |] w]; cbn [fst snd] in *; try done. intros _. eexists _, h.
  cbn [dbs setDb setWorld]. rewrite list_lookup_insert_eq by (by eapply lookup_lt_Some). split_and!; [done..|].
  destruct Ho as [(h' & [= <-] & _ & _ & Eh & _)|[[? [=]] _]]. done.
Qed.
End Refinement.

(** ** A library in memory *)

Record MemLevel := mkMem { mHandles : gmap nat (string * bool); mNext : nat; mData : gmap string (gmap bytes bytes) }.

Definition memContents (w : MemLevel) (q : string) : gmap bytes bytes := default ∅ (mData w !! q).

Definition memWrite (f : gmap bytes bytes -> gmap bytes bytes) (h : nat) (w : MemLevel) : outcome unit * MemLevel :=
  match mHandles w !! h with
  | None => (Err ErrClosed, w)
  | Some (p, true) => (Err ErrReadOnly, w)
  | Some (p, false) => (Ok tt, mkMem (mHandles w) (mNext w) (<[p := f (memContents w p)]> (mData w)))
  end.

#[export] Instance MemLevelLib : LevelLib nat MemLevel := {|
  OpenFile p ro w := (Ok (mNext w), mkMem (<[mNext w := (p, ro)]> (mHandles w)) (S (mNext w)) (mData w));
  hGet h k w := match mHandles w !! h with
                | Some (p, _) => match memContents w p !! k with Some v => Ok v | None => Err ErrNotFound end
                | None => Err ErrClosed end;
  hHas h k w := match mHandles w !! h with
                | Some (p, _) => Ok (bool_decide (is_Some (memContents w p !! k)))
                | None => Err ErrClosed end;
  hPut h k v w := memWrite (fun m => <[k := v]> m) h w;
  hDelete h k w := memWrite (fun m => delete k m) h w;
  hWrite h kvs w := memWrite (putAll kvs) h w;
  hClose h w := (match mHandles w !! h with Some _ => Ok tt | None => Err ErrClosed end, mkMem (delete h (mHandles w)) (mNext w) (mData w));
  hIterError _ _ := false;
  handle w h := mHandles w !! h;
  allocated w h := (h <? mNext w)%nat;
  contents w q := memContents w q
|}.

Lemma memWrite_writes f h w : writes h f w (memWrite f h w).
Proof.
  unfold writes, memWrite. cbn [handle MemLevelLib allocated contents].
  destruct (mHandles w !! h) as [[p [|]]|] eqn:E; (split; [by intros|]); [by split| |by split].
  left. split; [done|]. intros q. unfold memContents. cbn. rewrite lookup_insert. case_decide as Eq; [by rewrite decide_True|]. rewrite decide_False by congruence. done.
Qed.

#[export] Instance MemLevelLaws : LevelLaws nat MemLevel.
Proof.
  constructor.
  - intros p ro w. cbn [fst snd]. split; [done|]. left. exists (mNext w). cbn [fst snd handle allocated MemLevelLib mHandles mNext OpenFile]. split_and!.
    + done.
    + apply Nat.ltb_ge. lia.
    + apply Nat.ltb_lt. lia.
    + by rewrite lookup_insert_eq.
    + intros g Hg. rewrite lookup_insert_ne by done. split; [done|]. destruct (Nat.ltb_spec g (mNext w)), (Nat.ltb_spec g (S (mNext w))); lia.
  - by intros.
  - by intros.
  - intros h k v w. apply memWrite_writes.
  - intros h k w. apply memWrite_writes.
  - intros h kvs w. apply memWrite_writes.
  - intros h w. cbn. split_and!; [done|by rewrite lookup_delete_eq| |done|].
    + intros g. destruct (decide (g = h)) as [->|Hg]; [by left|right]. by rewrite lookup_delete_ne.
    + destruct (mHandles w !! h); [by left|right; by eexists].
Qed.

Definition emptyMem : MemLevel := mkMem ∅ 0 ∅.

(** Two databases of one path, one for reading; the other is closed late, used, and
    written again. *)
Definition sampleCalls : list call :=
  [cGetOrCreate 0 "a" false; cPut 1 0 [1] [7]; cGetOrCreate 2 "a" true; cGet 3 1 [1]; cPut 4 1 [1] [8];
   cClose false 0; cCloser 0; cGet 5 0 [1]; cCloser 0; cPut 6 0 [1] [9]; cClose true 1; cPut 7 1 [2] [5]; cGet 8 0 [2]].

Example sample_results : (run (const false) sampleCalls (start emptyMem 3 0)).1 =
  [rDb (Ok 0%nat); rUnit (Ok tt); rDb (Ok 1%nat); rBytes (Ok [7]); rUnit (Err ErrReadOnly);
   rUnit (Err (ErrText "timeout waiting for LevelDB to close")); rUnit (Ok tt); rBytes (Err ErrClosed); rUnit (Ok tt);
   rUnit (Ok tt); rUnit (Ok tt); rUnit (Ok tt); rBytes (Ok [5])].
Proof. vm_compute. reflexivity. Qed.


(** One database, closed and used three times: the manager counts -2 open files. *)
Example drift_sample :
  activeFiles (mgr (rounds 0 0 [1] 3 (GetOrCreate (const false) 0 "a" false (start emptyMem 1 0)).2)) = -2.
Proof. vm_compute. reflexivity. Qed.
