(* ===== verification/BadgerStore.v ===== *)
(** * Databases on Badger

    Models [pkg/storage/badgerdb.go] and [badger_db.go].

    [BadgerV4DB]: one database with the goroutine [manageIdle] that closes it when it
    was not used for a while.  Both the goroutine and the callers go through the mutex
    of the database, and [Close] sends on a channel without buffer, whose only receiver
    is that goroutine: callers and goroutine are programs whose steps interleave
    ([bstep]).  The calls of the library itself are single steps.

    [BadgerDB]: the older wrapper, as functions over the library ([BadgerLib]), and
    the iterators of both. *)

From S2P Require Import Prelude.

Local Open Scope Z_scope.

(** ** BadgerV4DB and its goroutine *)

Module V4.

(** A method that reads or writes data: [updateLastActive] takes the mutex, then the
    library is called.  [Close] holds the mutex while it sends and while the library
    closes the database. *)
Inductive caller :=
| OpLock | OpHold | OpRun | OpDone
| ClLock | ClSend | ClClose | ClDone.

(** [manageIdle]: the select, then the mutex around reading [lastActive], then
    [Close] or the select again. *)
Inductive idler :=
| IdWait | IdLock | IdHold | IdDecide (idleDuration : Z)
| IdClLock | IdClSend | IdClClose | IdDone.

Inductive holder := ByIdler | ByCaller (i : nat).

#[export] Instance holder_eq_dec : EqDecision holder.
Proof. solve_decision. Defined.

Record BState := mkB {
  mu : option holder;
  lastActive : Z;
  idle : idler;
  callers : list caller;
  closedTimes : nat           (* calls of [db.Close] of the library *)
}.

Definition setCaller (i : nat) (c : caller) (s : BState) : BState :=
  mkB (mu s) (lastActive s) (idle s) (<[i := c]> (callers s)) (closedTimes s).
Definition setIdle (x : idler) (s : BState) : BState := mkB (mu s) (lastActive s) x (callers s) (closedTimes s).
Definition setMu (m : option holder) (s : BState) : BState := mkB m (lastActive s) (idle s) (callers s) (closedTimes s).
Definition touch (now : Z) (s : BState) : BState := mkB (mu s) now (idle s) (callers s) (closedTimes s).
Definition libClose (s : BState) : BState := mkB (mu s) (lastActive s) (idle s) (callers s) (S (closedTimes s)).

Section Steps.
Context (idleTimeout : Z).

Inductive bstep : BState -> BState -> Prop :=
(* a new call of a method *)
| newOp s : bstep s (mkB (mu s) (lastActive s) (idle s) (callers s ++ [OpLock]) (closedTimes s))
| newClose s : bstep s (mkB (mu s) (lastActive s) (idle s) (callers s ++ [ClLock]) (closedTimes s))
(* updateLastActive, then the library *)
| opLock s i : callers s !! i = Some OpLock -> mu s = None -> bstep s (setCaller i OpHold (setMu (Some (ByCaller i)) s))
| opHold s i now : callers s !! i = Some OpHold -> bstep s (setCaller i OpRun (setMu None (touch now s)))
| opRun s i : callers s !! i = Some OpRun -> bstep s (setCaller i OpDone s)
(* Close by a caller *)
| clLock s i : callers s !! i = Some ClLock -> mu s = None -> bstep s (setCaller i ClSend (setMu (Some (ByCaller i)) s))
| clSend s i : callers s !! i = Some ClSend -> idle s = IdWait -> bstep s (setCaller i ClClose (setIdle IdDone s))
| clClose s i : callers s !! i = Some ClClose -> bstep s (setCaller i ClDone (setMu None (libClose s)))
(* manageIdle *)
| idTick s : idle s = IdWait -> bstep s (setIdle IdLock s)
| idLock s : idle s = IdLock -> mu s = None -> bstep s (setIdle IdHold (setMu (Some ByIdler) s))
| idHold s now : idle s = IdHold -> bstep s (setIdle (IdDecide (now - lastActive s)) (setMu None s))
| idDecide s d : idle s = IdDecide d -> bstep s (setIdle (if idleTimeout <=? d then IdClLock else IdWait) s)
| idClLock s : idle s = IdClLock -> mu s = None -> bstep s (setIdle IdClSend (setMu (Some ByIdler) s))
(* the send of the goroutine needs a receiver, and it is the only one *)
| idClSend s : idle s = IdClSend -> idle s = IdWait -> bstep s (setIdle IdClClose s)
| idClClose s : idle s = IdClClose -> bstep s (setIdle IdDone (setMu None (libClose s))).

(** ** The mutex is held by the one who is in its section *)

Definition callerHolds (c : caller) : bool := match c with OpHold | ClSend | ClClose => true | _ => false end.
Definition idleHolds (x : idler) : bool := match x with IdHold | IdClSend | IdClClose => true | _ => false end.

Definition muOk (s : BState) : Prop :=
  idleHolds (idle s) = bool_decide (mu s = Some ByIdler) /\
  (forall j c, callers s !! j = Some c -> callerHolds c = bool_decide (mu s = Some (ByCaller j))) /\
  (forall j, mu s = Some (ByCaller j) -> (j < length (callers s))%nat).

Definition opened (now : Z) : BState := mkB None now IdWait [] 0.

Lemma muOk_opened now : muOk (opened now).
Proof. by split_and!. Qed.

Lemma mu_caller s i c : muOk s -> callers s !! i = Some c -> callerHolds c = true -> mu s = Some (ByCaller i).
Proof. intros (_ & Hc & _) E Hh. rewrite (Hc i c E) in Hh. by apply bool_decide_eq_true in Hh. Qed.

Lemma mu_idle s : muOk s -> idleHolds (idle s) = true -> mu s = Some ByIdler.
Proof. intros (Hi & _) Hh. rewrite Hi in Hh. by apply bool_decide_eq_true in Hh. Qed.

Lemma muOk_new s c : callerHolds c = false -> muOk s -> muOk (mkB (mu s) (lastActive s) (idle s) (callers s ++ [c]) (closedTimes s)).
Proof.
  intros Hc (Hi & Hl & Hr). split_and!; [done| |cbn; intros j Hj; rewrite length_app; cbn; specialize (Hr j Hj); lia]. cbn. intros j d Hd.
  apply lookup_app_Some in Hd as [Hd|[Hj Hd]]; [by apply Hl|]. apply list_lookup_singleton_Some in Hd as [Hj' <-].
  rewrite Hc, bool_decide_eq_false_2; [done|]. intros E. apply Hr in E. lia.
Qed.

(** A caller moves, and takes or releases the mutex as its new place says. *)
Lemma muOk_caller s i c0 c m la ct : muOk s -> callers s !! i = Some c0 -> (mu s = None \/ mu s = Some (ByCaller i)) ->
  m = (if callerHolds c then Some (ByCaller i) else None) ->
  muOk (mkB m la (idle s) (<[i := c]> (callers s)) ct).
Proof.
  intros (Hi & Hl & Hr) E M ->. split_and!; cbn.
  - rewrite Hi. rewrite bool_decide_eq_false_2 by (destruct M as [-> | ->]; done). by destruct (callerHolds c).
  - intros j d Hd. apply list_lookup_insert_Some in Hd as [(<- & <- & _)|[Hne Hd]].
    + destruct (callerHolds c); [by rewrite bool_decide_eq_true_2|done].
    + rewrite (Hl j d Hd). rewrite bool_decide_eq_false_2 by (destruct M as [-> | ->]; congruence).
      rewrite bool_decide_eq_false_2; [done|]. destruct (callerHolds c); congruence.
  - intros j Hj. rewrite length_insert. apply lookup_lt_Some in E. destruct (callerHolds c); by simplify_eq.
Qed.

Lemma muOk_idle s x m la ct : muOk s -> (mu s = None \/ mu s = Some ByIdler) -> m = (if idleHolds x then Some ByIdler else None) ->
  muOk (mkB m la x (callers s) ct).
Proof.
  intros (Hi & Hl & Hr) M ->. split_and!; cbn.
  - by destruct (idleHolds x).
  - intros j d Hd. rewrite (Hl j d Hd). rewrite bool_decide_eq_false_2 by (destruct M as [-> | ->]; done).
    by destruct (idleHolds x).
  - intros j Hj. by destruct (idleHolds x).
Qed.

Lemma muOk_same_idle s x : muOk s -> idleHolds x = idleHolds (idle s) -> muOk (setIdle x s).
Proof. intros (Hi & Hl & Hr) E. split_and!; [cbn; by rewrite E|exact Hl|exact Hr]. Qed.

Lemma muOk_same_caller s i c0 c : muOk s -> callers s !! i = Some c0 -> callerHolds c = callerHolds c0 -> muOk (setCaller i c s).
Proof.
  intros (Hi & Hl & Hr) E Hc. split_and!; [done| |cbn; intros j; rewrite length_insert; apply Hr]. cbn. intros j d Hd.
  apply list_lookup_insert_Some in Hd as [(<- & <- & _)|[Hne Hd]]; [rewrite Hc; by apply Hl|by apply Hl].
Qed.

Lemma step_muOk s s' : bstep s s' -> muOk s -> muOk s'.
Proof.
  intros Hstep Hok. destruct Hstep as [s|s|s i E M|s i now E|s i E|s i E M|s i E I|s i E|s I|s I M|s now I|s d I|s I M|s I I'|s I].
  - by apply muOk_new.
  - by apply muOk_new.
  - by apply (muOk_caller s i OpLock OpHold); [|  |left|].
  - apply (muOk_caller s i OpHold OpRun); [done|done|right; by eapply mu_caller|done].
  - by apply (muOk_same_caller s i OpRun OpDone).
  - by apply (muOk_caller s i ClLock ClSend); [|  |left|].
  - apply (muOk_same_caller (setIdle IdDone s) i ClSend ClClose); [|exact E|done]. apply muOk_same_idle; [done|by rewrite I].
  - apply (muOk_caller s i ClClose ClDone); [done|done|right; by eapply mu_caller|done].
  - apply muOk_same_idle; [done|by rewrite I].
  - by apply (muOk_idle s IdHold); [|left|].
  - apply (muOk_idle s (IdDecide (now - lastActive s))); [done|right; apply mu_idle; [done|by rewrite I]|done].
  - apply muOk_same_idle; [done|]. rewrite I. by case_match.
  - by apply (muOk_idle s IdClSend); [|left|].
  - congruence.
  - apply (muOk_idle s IdDone); [done|right; apply mu_idle; [done|by rewrite I]|done].
Qed.

(** ** The goroutine that closes an idle database waits for itself *)

(** The database is given up: the goroutine waits to send, with the mutex. *)
Definition givenUp (s : BState) : Prop := muOk s /\ idle s = IdClSend.

(** Where a caller can be then: it waits for the mutex, or it has passed it before. *)
Definition blocked (c : caller) : bool := match c with OpLock | ClLock => true | _ => false end.

Lemma givenUp_step s s' : bstep s s' -> givenUp s -> givenUp s' /\
  forall i c, callers s !! i = Some c -> blocked c = true -> callers s' !! i = Some c.
Proof.
  intros Hstep [Hok I]. pose proof (step_muOk _ _ Hstep Hok) as Hok'.
  assert (M : mu s = Some ByIdler) by (apply mu_idle; [done|by rewrite I]).
  split; [split; [done|inversion Hstep; subst; cbn; congruence]|]. (inversion Hstep as [s0|s0|s0 i0 E M'|s0 i0 now E|s0 i0 E|s0 i0 E M'|s0 i0 E I'|s0 i0 E|s0 I'|s0 I' M'|s0 now I'|s0 d I'|s0 I' M'|s0 I' I''|s0 I']; subst; try congruence; cbn).
  all: try (by intros; apply lookup_app_l_Some).
  all: intros i c Hc Hb; rewrite list_lookup_insert_ne; [done|]; intros ->; rewrite E in Hc; by simplify_eq.
Qed.

(** Once a database was idle for long enough, it is lost: the goroutine that closes it waits
    forever for a receiver of its own message, holding the mutex, and no
    call that has not passed the mutex ever goes on, in any continuation. *)
Theorem idle_close_never_ends s s' : givenUp s -> rtc bstep s s' ->
  givenUp s' /\ (forall i c, callers s !! i = Some c -> blocked c = true -> callers s' !! i = Some c) /\
  (forall i, (length (callers s) <= i)%nat -> forall c, callers s' !! i = Some c -> blocked c = true).
Proof.
  intros Hg Hr. revert Hg. induction Hr as [s|s s1 s' Hs Hr IH]; intros Hg.
  { split_and!; [done|done|]. intros i Hi c Hc. apply lookup_lt_Some in Hc. lia. }
  destruct (givenUp_step _ _ Hs Hg) as [Hg1 Hk]. destruct (IH Hg1) as (Hg' & Hk' & Hn). split_and!; [done|by eauto|].
  intros i Hi c Hc. destruct (decide (i < length (callers s1))%nat) as [Hlt|Hge]; [|by eapply Hn; [|exact Hc]; lia].
  assert (New : exists d, callers s1 !! i = Some d /\ blocked d = true).
  { assert (M : mu s = Some ByIdler) by (apply mu_idle; [apply Hg|by rewrite (proj2 Hg)]).
    destruct Hg as [_ I]. destruct (lookup_lt_is_Some_2 _ _ Hlt) as [d Hd]. exists d. split; [done|].
    inversion Hs; subst; cbn in *; rewrite ?length_insert in Hlt; try lia;
      apply lookup_app_Some in Hd as [Hd|[_ Hd]]; try (apply lookup_lt_Some in Hd; lia);
      apply list_lookup_singleton_Some in Hd as [_ <-]; done. }
  destruct New as (d & Hd & Hb). rewrite (Hk' i d Hd Hb) in Hc. by simplify_eq.
Qed.

(** It gets there by itself: from the start, when no call comes for the time of the
    timeout. *)
Theorem idle_reaches_close now : 0 < idleTimeout -> exists s, rtc bstep (opened now) s /\ givenUp s.
Proof.
  intros Ht. assert (R : rtc bstep (opened now) (mkB (Some ByIdler) now IdClSend [] 0)).
  { eapply rtc_l; [by apply idTick|]. eapply rtc_l; [by apply idLock|]. eapply rtc_l; [by apply (idHold _ (now + idleTimeout))|].
    eapply rtc_l; [by eapply idDecide|]. cbn. replace (now + idleTimeout - now) with idleTimeout by lia. rewrite Z.leb_refl.
    eapply rtc_l; [by apply idClLock|]. apply rtc_refl. }
  eexists. split; [exact R|]. split; [|done]. assert (G : forall s s', rtc bstep s s' -> muOk s -> muOk s').
  { induction 1; eauto using step_muOk. }
  by eapply G, muOk_opened.
Qed.

(** [Close] of a caller ends while the goroutine waits, and ends the goroutine. *)
Theorem close_ends s i : mu s = None -> idle s = IdWait -> callers s !! i = Some ClLock ->
  exists s', rtc bstep s s' /\ callers s' !! i = Some ClDone /\ idle s' = IdDone /\ mu s' = None /\ closedTimes s' = S (closedTimes s).
Proof.
  intros M I E. assert (Hl : (i < length (callers s))%nat) by (by eapply lookup_lt_Some).
  eexists. split.
  - eapply rtc_l; [by apply clLock|]. eapply rtc_l; [apply (clSend _ i); [cbn; by rewrite list_lookup_insert_eq|done]|].
    eapply rtc_l; [apply (clClose _ i); cbn; by rewrite list_lookup_insert_eq by (by rewrite length_insert)|]. apply rtc_refl.
  - cbn. rewrite list_lookup_insert_eq by (by rewrite !length_insert). done.
Qed.

(** A second [Close] never ends, since the goroutine has returned. *)
Theorem second_close_stuck s s' i : muOk s -> idle s = IdDone -> callers s !! i = Some ClSend -> rtc bstep s s' ->
  idle s' = IdDone /\ callers s' !! i = Some ClSend /\ mu s' = Some (ByCaller i).
Proof.
  intros Hok I E Hr. revert Hok I E. induction Hr as [s|s s1 s' Hs Hr IH]; intros Hok I E.
  { split_and!; [done..|]. by eapply mu_caller. }
  assert (M : mu s = Some (ByCaller i)) by (by eapply mu_caller).
  apply IH; [by eapply step_muOk|..].
  - inversion Hs; subst; cbn; congruence.
  - inversion Hs as [s0|s0|s0 i0 E' M'|s0 i0 now E'|s0 i0 E'|s0 i0 E' M'|s0 i0 E' I'|s0 i0 E'|s0 I'|s0 I' M'|s0 now I'|s0 d I'|s0 I' M'|s0 I' I''|s0 I']; subst; cbn; try congruence.
    all: try (by apply lookup_app_l_Some).
    all: rewrite list_lookup_insert_ne; [done|]; intros ->; congruence.
Qed.
End Steps.
End V4.

(** ** The library *)

(** [bUpdate] is a transaction that sets or deletes keys in order; [bItems] what an
    iterator goes through.  The laws are those of the documentation: a read sees the
    last committed transaction, and a key that is not there is [ErrKeyNotFound]. *)
Class BadgerLib (H W : Type) := {
  bOpen : string -> W -> outcome H * W;
  bGet : H -> bytes -> W -> outcome bytes;
  bUpdate : H -> list (bytes * option bytes) -> W -> outcome unit * W;
  bClose : H -> W -> outcome unit * W;
  bItems : H -> W -> list (bytes * bytes)
}.

Definition ErrKeyNotFound : GoError := ErrText "Key not found".

(** A position of [badger.Iterator]: there is none before [Rewind] or [Seek]. *)
Record BIterator := mkBIter { items : list (bytes * bytes); pos : option nat }.

Definition NewIterator (l : list (bytes * bytes)) : BIterator := mkBIter l None.
Definition Rewind (it : BIterator) : BIterator := mkBIter (items it) (Some 0%nat).
Definition itemAt (it : BIterator) : option (bytes * bytes) := p ← pos it; items it !! p.
Definition Valid (it : BIterator) : bool := bool_decide (is_Some (itemAt it)).
Definition advance (it : BIterator) : BIterator := mkBIter (items it) (S <$> pos it).

Section Wrappers.
Context {H W : Type} `{BadgerLib H W}.

(** ** BadgerDB *)

Record BadgerDB := mkBadger { db : H; closed : bool; path : string }.

Definition errIsClosed : GoError := ErrText "database is closed".

Definition NewBadgerDB (p : string) : stm W BadgerDB := fun w =>
  match bOpen p w with
  | (Ok h, w') => (Ok (mkBadger h false p), w')
  | (Err e, w') => (Err e, w')
  | (Panic, w') => (Panic, w')
  | (NoFuel, w') => (NoFuel, w')
  end.

(** A key that is not there gives no value and no error. *)
Definition Get (key : bytes) (d : BadgerDB) (w : W) : outcome bytes :=
  if closed d then Err errIsClosed
  else match bGet (db d) key w with
       | Err e => if bool_decide (e = ErrKeyNotFound) then Ok [] else Err e
       | r => r
       end.

Definition update (l : list (bytes * option bytes)) (d : BadgerDB) (w : W) : outcome unit * W :=
  if closed d then (Err errIsClosed, w) else bUpdate (db d) l w.

Definition Put (key value : bytes) := update [(key, Some value)].
Definition Delete (key : bytes) := update [(key, None)].
Definition BatchPut (kvs : list (bytes * bytes)) := update ((fun kv => (kv.1, Some kv.2)) <$> kvs).

Definition Has (key : bytes) (d : BadgerDB) (w : W) : bool :=
  if closed d then false else match bGet (db d) key w with Ok _ => true | _ => false end.

Definition Open (d : BadgerDB) (w : W) : outcome unit * BadgerDB * W :=
  if closed d then
    match bOpen (path d) w with
    | (Ok h, w') => (Ok tt, mkBadger h false (path d), w')
    | (Err e, w') => (Err e, d, w')
    | (Panic, w') => (Panic, d, w')
    | (NoFuel, w') => (NoFuel, d, w')
    end
  else (Ok tt, d, w).

(** The flag is set whether or not the library reports an error. *)
Definition Close (d : BadgerDB) (w : W) : outcome unit * BadgerDB * W :=
  if closed d then (Ok tt, d, w)
  else let '(r, w') := bClose (db d) w in (r, mkBadger (db d) true (path d), w').

(** *** Iterator *)

Record BadgerDBIterator := mkDBIter { iterator : BIterator; currentItem : option (bytes * bytes) }.

Definition NewBadgerDBIterator (d : BadgerDB) (w : W) : BadgerDBIterator := mkDBIter (Rewind (NewIterator (bItems (db d) w))) None.
Definition GetIterator (d : BadgerDB) (w : W) : BadgerDBIterator := NewBadgerDBIterator d w.

Definition Next (it : BadgerDBIterator) : bool * BadgerDBIterator :=
  if Valid (iterator it) then (true, mkDBIter (advance (iterator it)) (itemAt (iterator it))) else (false, it).

(** A nil item panics. *)
Definition Key (it : BadgerDBIterator) : outcome bytes := match currentItem it with Some kv => Ok kv.1 | None => Panic end.
Definition Value (it : BadgerDBIterator) : outcome bytes := match currentItem it with Some kv => Ok kv.2 | None => Panic end.

(** The loop [for it.Next() { ... it.Key(), it.Value() ... }]. *)
Fixpoint iterate (fuel : nat) (it : BadgerDBIterator) : outcome (list (bytes * bytes)) :=
  match fuel with
  | O => NoFuel
  | S fuel =>
      match Next it with
      | (false, _) => Ok []
      | (true, it') => k ← Key it'; v ← Value it'; l ← iterate fuel it'; Ok ((k, v) :: l)
      end
  end.

(** *** The iterator of BadgerV4DB *)

Definition V4_GetIterator (h : H) (w : W) : BIterator := NewIterator (bItems h w).

Definition V4_Next (it : BIterator) : bool * BIterator :=
  let it := if Valid it then advance it else it in (Valid it, it).
Definition V4_Key (it : BIterator) : bytes := match itemAt it with Some kv => kv.1 | None => [] end.
Definition V4_Value (it : BIterator) : bytes := match itemAt it with Some kv => kv.2 | None => [] end.

(** ** What they do *)

(** A key that is not there reads like one with an empty value. *)
Theorem badger_missing_is_empty key d w : closed d = false -> bGet (db d) key w = Err ErrKeyNotFound ->
  Get key d w = Ok [] /\ Has key d w = false.
Proof. intros Hc Hg. unfold Get, Has. by rewrite Hc, Hg, bool_decide_eq_true_2. Qed.

Lemma iterate_from l : forall pre fuel c, (length l < fuel)%nat ->
  iterate fuel (mkDBIter (mkBIter (pre ++ l) (Some (length pre))) c) = Ok l.
Proof.
  induction l as [|[k v] l IH]; intros pre fuel c Hf; (destruct fuel as [|fuel]; [cbn in Hf; lia|]); cbn [iterate].
  - unfold Next, Valid, itemAt. cbn. rewrite bool_decide_eq_false_2; [done|]. rewrite app_nil_r, lookup_ge_None_2 by lia. by intros [? ?].
  - unfold Next, Valid. cbn [iterator]. assert (E : itemAt (mkBIter (pre ++ (k, v) :: l) (Some (length pre))) = Some (k, v)).
    { unfold itemAt. cbn. by rewrite lookup_app_r, Nat.sub_diag by lia. }
    rewrite E, bool_decide_eq_true_2 by eauto. cbn [Key Value currentItem mbind outcome_bind fst snd].
    unfold advance. cbn [items pos fmap option_fmap option_map].
    replace (pre ++ (k, v) :: l) with ((pre ++ [(k, v)]) ++ l) by (by rewrite <- app_assoc).
    replace (S (length pre)) with (length (pre ++ [(k, v)])) by (rewrite length_app; cbn; lia).
    rewrite IH by (cbn in Hf; lia). done.
Qed.

(** Iterating over a [BadgerDB] gives all its items in order. *)
Theorem badger_iterates d w : iterate (S (length (bItems (db d) w))) (GetIterator d w) = Ok (bItems (db d) w).
Proof. apply (iterate_from (bItems (db d) w) []). lia. Qed.

(** The iterator of [BadgerV4DB] is never rewound: its first [Next] says that there
    is nothing, whatever the database holds. *)
Theorem v4_iterator_empty h w : V4_Next (V4_GetIterator h w) = (false, V4_GetIterator h w) /\ V4_Key (V4_GetIterator h w) = [].
Proof. done. Qed.
End Wrappers.
