(* ===== verification/BlockNumberState.v ===== *)
(** * The block number state

    Models [pkg/storage/block_number_state.go]: variables of the package that are
    read and written with [sync/atomic], so that every function is one step.
    [UpdateState] and [UpdateConnectState] store and then send on a channel without
    buffer, which blocks until somebody receives: the values that wait are
    recorded. *)

From S2P Require Import Prelude.

Local Open Scope Z_scope.

Record BlockState := mkBlockState {
  lastBlockNumber : Z; updateState : Z; firstUpdateInRam : Z; firstUpdateInDb : Z;
  connectState : Z; lastBlockNumberFromMaster : Z; incrementingCounter : Z; commitLock : Z;
  stateWaiting : list Z; connectWaiting : list Z
}.

Definition DoneSubscribe : Z := 1.
Definition StateLoadingSnapshot : Z := 2.
Definition StateSnapshotLoaded : Z := 3.
Definition StateDBReadCompleted : Z := 4.
Definition StateRAMReadCompleted : Z := 5.

Definition initBlockState : BlockState := mkBlockState 0 0 0 0 0 0 0 0 [] [].

(** [unixTime] is [time.Now().Unix()]. *)
Definition InitIncrementingCounterFromBootTime (unixTime : Z) (s : BlockState) : BlockState :=
  mkBlockState (lastBlockNumber s) (updateState s) (firstUpdateInRam s) (firstUpdateInDb s) (connectState s)
    (lastBlockNumberFromMaster s) (wrap64 unixTime) (commitLock s) (stateWaiting s) (connectWaiting s).

Definition GetIncrementingCounter (s : BlockState) : Z * BlockState :=
  let c := wrap64 (incrementingCounter s + 1) in
  (c, mkBlockState (lastBlockNumber s) (updateState s) (firstUpdateInRam s) (firstUpdateInDb s) (connectState s)
        (lastBlockNumberFromMaster s) c (commitLock s) (stateWaiting s) (connectWaiting s)).

Definition SetCommitLock (lock : bool) (s : BlockState) : BlockState :=
  mkBlockState (lastBlockNumber s) (updateState s) (firstUpdateInRam s) (firstUpdateInDb s) (connectState s)
    (lastBlockNumberFromMaster s) (incrementingCounter s) (if lock then 1 else 0) (stateWaiting s) (connectWaiting s).
Definition GetCommitLock (s : BlockState) : bool := commitLock s =? 1.

Definition UpdateLastBlockNumber (n : Z) (s : BlockState) : BlockState :=
  mkBlockState n (updateState s) (firstUpdateInRam s) (firstUpdateInDb s) (connectState s)
    (lastBlockNumberFromMaster s) (incrementingCounter s) (commitLock s) (stateWaiting s) (connectWaiting s).
Definition GetLastBlockNumber (s : BlockState) : Z := lastBlockNumber s.

Definition UpdateLastBlockNumberFromMaster (n : Z) (s : BlockState) : BlockState :=
  mkBlockState (lastBlockNumber s) (updateState s) (firstUpdateInRam s) (firstUpdateInDb s) (connectState s)
    n (incrementingCounter s) (commitLock s) (stateWaiting s) (connectWaiting s).
Definition GetLastBlockNumberFromMaster (s : BlockState) : Z := lastBlockNumberFromMaster s.

Definition UpdateState (state : Z) (s : BlockState) : BlockState :=
  mkBlockState (lastBlockNumber s) state (firstUpdateInRam s) (firstUpdateInDb s) (connectState s)
    (lastBlockNumberFromMaster s) (incrementingCounter s) (commitLock s) (stateWaiting s ++ [state]) (connectWaiting s).
Definition GetUpdateState (s : BlockState) : Z := updateState s.

Definition UpdateConnectState (state : Z) (s : BlockState) : BlockState :=
  mkBlockState (lastBlockNumber s) (updateState s) (firstUpdateInRam s) (firstUpdateInDb s) state
    (lastBlockNumberFromMaster s) (incrementingCounter s) (commitLock s) (stateWaiting s) (connectWaiting s ++ [state]).
Definition GetConnectState (s : BlockState) : Z := connectState s.

Definition UpdateFirstUpdateInRam (n : Z) (s : BlockState) : BlockState :=
  mkBlockState (lastBlockNumber s) (updateState s) n (firstUpdateInDb s) (connectState s)
    (lastBlockNumberFromMaster s) (incrementingCounter s) (commitLock s) (stateWaiting s) (connectWaiting s).
Definition GetFirstUpdateInRam (s : BlockState) : Z := firstUpdateInRam s.

Definition UpdateFirstUpdateInDb (n : Z) (s : BlockState) : BlockState :=
  mkBlockState (lastBlockNumber s) (updateState s) (firstUpdateInRam s) n (connectState s)
    (lastBlockNumberFromMaster s) (incrementingCounter s) (commitLock s) (stateWaiting s) (connectWaiting s).
Definition GetFirstUpdateInDb (s : BlockState) : Z := firstUpdateInDb s.

(** ** The counter *)

(** What other functions may do between two calls of the counter. *)
Inductive other : BlockState -> BlockState -> Prop :=
| otherLock b s : other s (SetCommitLock b s)
| otherLast n s : other s (UpdateLastBlockNumber n s)
| otherMaster n s : other s (UpdateLastBlockNumberFromMaster n s)
| otherState n s : other s (UpdateState n s)
| otherConnect n s : other s (UpdateConnectState n s)
| otherRam n s : other s (UpdateFirstUpdateInRam n s)
| otherDb n s : other s (UpdateFirstUpdateInDb n s).

(** A run of the package: the values that the counter returned. *)
Inductive counterRun : BlockState -> list Z -> BlockState -> Prop :=
| runNil s : counterRun s [] s
| runOther s1 s2 s3 l : other s1 s2 -> counterRun s2 l s3 -> counterRun s1 l s3
| runGet s1 s3 l : counterRun (GetIncrementingCounter s1).2 l s3 -> counterRun s1 ((GetIncrementingCounter s1).1 :: l) s3.

Lemma other_counter s s' : other s s' -> incrementingCounter s' = incrementingCounter s.
Proof. by destruct 1. Qed.

Lemma counterRun_values s l s' : counterRun s l s' -> forall i c, l !! i = Some c -> c = wrap64 (incrementingCounter s + Z.of_nat i + 1).
Proof.
  induction 1 as [s|s1 s2 s3 l Ho _ IH|s1 s3 l _ IH]; intros i c Hc.
  - done.
  - rewrite <- (other_counter _ _ Ho). by apply IH.
  - destruct i as [|i]; [injection Hc as <-; cbn; f_equal; lia|]. rewrite (IH i c Hc). cbn [incrementingCounter GetIncrementingCounter snd]. unfold wrap64.
    rewrite <- Z.add_assoc, Zplus_mod_idemp_l. f_equal. lia.
Qed.

(** The values of [GetIncrementingCounter] are all different, whatever else the
    package does between the calls, for as many calls as there are 64-bit
    numbers. *)
Theorem counter_distinct s l s' : counterRun s l s' -> Z.of_nat (length l) <= 2 ^ 64 -> NoDup l.
Proof.
  intros Hr Hl. apply NoDup_alt. intros i j c Hi Hj.
  pose proof (counterRun_values _ _ _ Hr i c Hi) as Ei. pose proof (counterRun_values _ _ _ Hr j c Hj) as Ej.
  apply lookup_lt_Some in Hi, Hj. rewrite Ei in Ej. unfold wrap64 in Ej.
  set (k := incrementingCounter s) in *.
  assert (D : (Z.of_nat i - Z.of_nat j) mod 2 ^ 64 = 0).
  { replace (Z.of_nat i - Z.of_nat j) with ((k + Z.of_nat i + 1) - (k + Z.of_nat j + 1)) by lia.
    rewrite Zminus_mod, Ej, Z.sub_diag. done. }
  apply Z.mod_divide in D as [q Hq]; [|lia]. assert (q = 0) by nia. lia.
Qed.
