(* ===== verification/SimpleDB.v ===== *)
(** * SimpleDB

    Models [pkg/storage/simpledb.go]: a store in two files.  The data file is a
    log of records (size, value, key), the index file lists for each key the
    offset of its last record; in memory the index is a map.  [Compact] rewrites
    the live records into a new file.  The manager keeps one open database per
    path.

    The state is the file system and the open database; as in [BatchStore],
    operations of the operating system succeed unless the file is closed or
    ends.  A method that writes holds the lock of the database; [Get] reads the
    file after it has released it, which [getStep] models step by step.  A Go map is
    iterated in any order: an [Iteration] says in which. *)

From S2P Require Import Prelude Binary BatchStore.

Local Open Scope Z_scope.

Definition KeySize : nat := 32.
Definition IndexEntry : nat := KeySize + 8.

Record SimpleDB := mkSimpleDB { indexMap : gmap bytes Z; dbPath : string; indexPath : string; isOpen : bool }.
Record DBState := mkDB { fs : FileSystem; db : SimpleDB }.

Definition Iteration : Type := gmap bytes Z -> list (bytes * Z).

Definition setIndex (m : gmap bytes Z) (s : DBState) : DBState :=
  mkDB (fs s) (mkSimpleDB m (dbPath (db s)) (indexPath (db s)) (isOpen (db s))).
Definition setFile (name : string) (content : bytes) (s : DBState) : DBState := mkDB (<[name := content]> (fs s)) (db s).
Definition fileOf (name : string) (s : DBState) : bytes := default [] (fs s !! name).

Definition errKeySize : GoError := ErrText "key must have 32 bytes".
Definition errNotFound : GoError := ErrText "key not found".
Definition errClosed : GoError := ErrText "file already closed".
Definition errEOF : GoError := ErrText "EOF".

(** ** Reading files *)

(** [binary.Read] of [n] bytes at an offset: all of them or an error. *)
Definition readFull (n : nat) (rest : bytes) : outcome bytes :=
  if (length rest =? 0)%nat then Err errEOF
  else if (length rest <? n)%nat then Err (ErrText "unexpected EOF")
  else Ok (take n rest).

(** [File.Read] into a buffer of [n] zeros: what there is, which may be less. *)
Definition readSome (n : nat) (rest : bytes) : outcome bytes :=
  if (n =? 0)%nat then Ok []
  else if (length rest =? 0)%nat then Err errEOF
  else Ok (arrayFromBytes n rest).

(** Seek to the offset, read the size, read the value. *)
Definition readValue (content : bytes) (offset : Z) : outcome bytes :=
  if offset <? 0 then Err (ErrText "invalid seek")
  else
    let rest := drop (Z.to_nat offset) content in
    valueSize ← readFull 4 rest;
    readSome (Z.to_nat (undigits 256 valueSize)) (drop 4 rest).

(** ** The index file *)

Definition indexEntry (kv : bytes * Z) : bytes := kv.1 ++ leBytes 8 kv.2.

Definition saveIndex (it : Iteration) : stm DBState unit := fun s =>
  if isOpen (db s) then (Ok tt, setFile (indexPath (db s)) (mjoin (indexEntry <$> it (indexMap (db s)))) s)
  else (Err errClosed, s).

(** A last entry that is cut gives an error. *)
Fixpoint loadEntries (fuel : nat) (content : bytes) (m : gmap bytes Z) : outcome (gmap bytes Z) :=
  match fuel with
  | O => NoFuel
  | S fuel =>
      if (length content =? 0)%nat then Ok m
      else
        let key := arrayFromBytes KeySize content in
        valueOffset ← readFull 8 (drop KeySize content);
        loadEntries fuel (drop IndexEntry content) (<[key := to_int64 (undigits 256 valueOffset)]> m)
  end.

Definition loadIndex (content : bytes) : outcome (gmap bytes Z) := loadEntries (S (length content)) content ∅.

(** ** Opening and closing *)

Definition openCreate (name : string) (fs : FileSystem) : FileSystem := <[name := default [] (fs !! name)]> fs.

Definition Open (dbPath indexPath : string) : stm FileSystem SimpleDB := fun fs =>
  let fs' := openCreate indexPath (openCreate dbPath fs) in
  match loadIndex (default [] (fs' !! indexPath)) with
  | Ok m => (Ok (mkSimpleDB m dbPath indexPath true), fs')
  | Err e => (Err e, fs')
  | Panic => (Panic, fs')
  | NoFuel => (NoFuel, fs')
  end.

Definition Close (it : Iteration) : stm DBState unit :=
  saveIndex it;;
  modify (fun s => mkDB (fs s) (mkSimpleDB (indexMap (db s)) (dbPath (db s)) (indexPath (db s)) false)).

(** ** Operations *)

(** Write size, value and key at the end of the data file. *)
Definition dataEntry (key value : bytes) : bytes := leBytes 4 (Z.of_nat (length value)) ++ value ++ key.

Definition appendEntry (key value : bytes) : stm DBState unit := fun s =>
  if isOpen (db s) then
    let content := fileOf (dbPath (db s)) s in
    (Ok tt, setIndex (<[key := Z.of_nat (length content)]> (indexMap (db s)))
              (setFile (dbPath (db s)) (content ++ dataEntry key value) s))
  else (Err errClosed, s).

Definition Put (it : Iteration) (key value : bytes) : stm DBState unit :=
  if negb (length key =? KeySize)%nat then lift (Err errKeySize)
  else
    modify (fun s => setIndex (delete key (indexMap (db s))) s);;
    appendEntry key value;;
    saveIndex it.

(** Entries before a key of the wrong size are written; the index file is then
    left as it was. *)
Fixpoint putEntries (kvs : list (bytes * bytes)) : stm DBState unit :=
  match kvs with
  | [] => mret tt
  | (key, value) :: kvs =>
      if negb (length key =? KeySize)%nat then lift (Err errKeySize)
      else appendEntry key value;; putEntries kvs
  end.

(** The error of [saveIndex] is dropped. *)
Definition BatchPut (it : Iteration) (kvs : list (bytes * bytes)) : stm DBState unit :=
  putEntries kvs;;
  catch (saveIndex it) (fun _ => mret tt).

Definition Get (key : bytes) (s : DBState) : outcome bytes :=
  if negb (length key =? KeySize)%nat then Err errKeySize
  else
    match indexMap (db s) !! key with
    | None => Err errNotFound
    | Some offset => if isOpen (db s) then readValue (fileOf (dbPath (db s)) s) offset else Err errClosed
    end.

(** Only the map in memory changes. *)
Definition Delete (key : bytes) : stm DBState unit :=
  if negb (length key =? KeySize)%nat then lift (Err errKeySize)
  else modify (fun s => setIndex (delete key (indexMap (db s))) s).

(** ** Compaction *)

(** The new file and the new index, up to the first error. *)
Fixpoint compactEntries (content : bytes) (kvs : list (bytes * Z)) (temp : bytes) (m : gmap bytes Z) :
  outcome unit * bytes * gmap bytes Z :=
  match kvs with
  | [] => (Ok tt, temp, m)
  | (key, offset) :: kvs =>
      match readValue content offset with
      | Ok value => compactEntries content kvs (temp ++ dataEntry key value) (<[key := Z.of_nat (length temp)]> m)
      | Err e => (Err e, temp, m)
      | Panic => (Panic, temp, m)
      | NoFuel => (NoFuel, temp, m)
      end
  end.

Definition tempPath (s : DBState) : string := dbPath (db s) +:+ ".tmp".

(** The temporary file replaces the data file, or stays behind on an error. *)
Definition Compact (it it' : Iteration) : stm DBState unit := fun s =>
  if isOpen (db s) then
    match compactEntries (fileOf (dbPath (db s)) s) (it (indexMap (db s))) [] ∅ with
    | (Ok _, temp, m) =>
        saveIndex it' (setIndex m (mkDB (delete (tempPath s) (<[dbPath (db s) := temp]> (fs s))) (db s)))
    | (r, temp, _) => (r, setFile (tempPath s) temp s)
    end
  else (Err errClosed, setFile (tempPath s) [] s).

(** ** Concurrent reads *)

(** The steps of [Get] on the position that all readers of the file share. *)
Inductive getThread :=
| GLookup (key : bytes)
| GSeek (offset : Z)
| GSize
| GValue (valueSize : nat)
| GDone (r : outcome bytes).

Definition getStep (s : DBState) (t : getThread) (pos : nat) : getThread * nat :=
  let rest := drop pos (fileOf (dbPath (db s)) s) in
  match t with
  | GLookup key =>
      if negb (length key =? KeySize)%nat then (GDone (Err errKeySize), pos)
      else match indexMap (db s) !! key with
           | None => (GDone (Err errNotFound), pos)
           | Some offset => (GSeek offset, pos)
           end
  | GSeek offset =>
      if negb (isOpen (db s)) then (GDone (Err errClosed), pos)
      else if offset <? 0 then (GDone (Err (ErrText "invalid seek")), pos)
      else (GSize, Z.to_nat offset)
  | GSize =>
      match readFull 4 rest with
      | Ok b => (GValue (Z.to_nat (undigits 256 b)), (pos + 4)%nat)
      | Err e => (GDone (Err e), (pos + Nat.min 4 (length rest))%nat)
      | Panic => (GDone Panic, pos)
      | NoFuel => (GDone NoFuel, pos)
      end
  | GValue n => (GDone (readSome n rest), (pos + Nat.min n (length rest))%nat)
  | GDone r => (GDone r, pos)
  end.

(** Two readers; [true] lets the first one go. *)
Fixpoint getRun (s : DBState) (schedule : list bool) (t1 t2 : getThread) (pos : nat) : getThread * getThread :=
  match schedule with
  | [] => (t1, t2)
  | true :: schedule => let '(t1, pos) := getStep s t1 pos in getRun s schedule t1 t2 pos
  | false :: schedule => let '(t2, pos) := getStep s t2 pos in getRun s schedule t1 t2 pos
  end.

(** ** The manager *)

(** The databases that are open, by their base path. *)
Record SimpleDBManager := mkManager { mFiles : FileSystem; databases : gmap string SimpleDB }.

Definition NewSimpleDBManager (fs : FileSystem) : SimpleDBManager := mkManager fs ∅.

(** Files that do not exist are created empty. *)
Definition GetOrCreate (basePath : string) : stm SimpleDBManager unit := fun mgr =>
  match databases mgr !! basePath with
  | Some _ => (Ok tt, mgr)
  | None =>
      let indexPath := basePath +:+ "_index" in
      let fs := openCreate indexPath (openCreate basePath (mFiles mgr)) in
      match Open basePath indexPath fs with
      | (Ok d, fs) => (Ok tt, mkManager fs (<[basePath := d]> (databases mgr)))
      | (Err e, fs) => (Err e, mkManager fs (databases mgr))
      | (Panic, fs) => (Panic, mkManager fs (databases mgr))
      | (NoFuel, fs) => (NoFuel, mkManager fs (databases mgr))
      end
  end.

(** A method of the database that [GetOrCreate] returned, which the manager
    shares. *)
Definition onDB {A} (basePath : string) (m : stm DBState A) : stm SimpleDBManager A := fun mgr =>
  match databases mgr !! basePath with
  | None => (Panic, mgr)
  | Some d => let '(r, s) := m (mkDB (mFiles mgr) d) in (r, mkManager (fs s) (<[basePath := db s]> (databases mgr)))
  end.

Definition Manager_Close (it : Iteration) (basePath : string) : stm SimpleDBManager unit := fun mgr =>
  match databases mgr !! basePath with
  | None => (Err (ErrText "database does not exist"), mgr)
  | Some _ =>
      (onDB basePath (Close it);;
       modify (fun mgr => mkManager (mFiles mgr) (delete basePath (databases mgr)))) mgr
  end.

(** In the order [paths] of the map's iteration; the first error ends it and
    leaves the map as it is. *)
Fixpoint closeEach (it : Iteration) (paths : list string) : stm SimpleDBManager unit :=
  match paths with
  | [] => mret tt
  | p :: paths => onDB p (Close it);; closeEach it paths
  end.

Definition CloseAll (it : Iteration) (paths : list string) : stm SimpleDBManager unit :=
  closeEach it paths;;
  modify (fun mgr => mkManager (mFiles mgr) ∅).

(** * SimpleDB: theorems

    The store of two files behaves like a finite map with keys of 32 bytes,
    through compactions and reopenings, whatever the order in which Go's maps
    are iterated. *)

(** An iteration visits every entry once. *)
Definition fair (it : Iteration) : Prop := forall m, it m ≡ₚ map_to_list m.

(** ** Records *)

(** A record of [k] and [v] at an offset. *)
Definition stored (data : bytes) (offset : Z) (k v : bytes) : Prop :=
  exists pre post, data = pre ++ dataEntry k v ++ post /\ offset = Z.of_nat (length pre) /\ Z.of_nat (length v) < 2 ^ 32.

Lemma stored_app data x offset k v : stored data offset k v -> stored (data ++ x) offset k v.
Proof.
  intros (pre & post & -> & Ho & Hv). exists pre, (post ++ x). split; [|done]. by rewrite <- !app_assoc.
Qed.

Lemma stored_new data k v : Z.of_nat (length v) < 2 ^ 32 -> stored (data ++ dataEntry k v) (Z.of_nat (length data)) k v.
Proof. intros Hv. exists data, []. by rewrite app_nil_r. Qed.

Lemma length_dataEntry k v : length (dataEntry k v) = (4 + length v + length k)%nat.
Proof. unfold dataEntry. rewrite !length_app, length_leBytes. lia. Qed.

Lemma stored_offset data offset k v : stored data offset k v -> 0 <= offset < Z.of_nat (length data).
Proof. intros (pre & post & -> & -> & _). rewrite !length_app, length_dataEntry. lia. Qed.

Lemma arrayFromBytes_app v rest : arrayFromBytes (length v) (v ++ rest) = v.
Proof.
  unfold arrayFromBytes. rewrite take_app_length, length_app. replace (_ - _)%nat with 0%nat by lia. apply app_nil_r.
Qed.

Lemma readSome_app n v rest : n = length v -> readSome n (v ++ rest) = Ok v.
Proof.
  intros ->. unfold readSome. destruct (Nat.eqb_spec (length v) 0) as [Hz|Hz]; [by destruct v|].
  rewrite (proj2 (Nat.eqb_neq (length (v ++ rest)) 0)) by (rewrite length_app; lia).
  f_equal. apply arrayFromBytes_app.
Qed.

Lemma readFull_size (v rest : bytes) : Z.of_nat (length v) < 2 ^ 32 ->
  readFull 4 (leBytes 4 (Z.of_nat (length v)) ++ rest) = Ok (leBytes 4 (Z.of_nat (length v))) /\
  Z.to_nat (undigits 256 (leBytes 4 (Z.of_nat (length v)))) = length v.
Proof.
  intros Hv. split.
  - unfold readFull. rewrite length_app, length_leBytes. cbn [Nat.add Nat.eqb].
    rewrite (proj2 (Nat.ltb_ge _ _)) by lia. by rewrite take_app_length' by (by rewrite length_leBytes).
  - rewrite undigits_leBytes, Z.mod_small by (change (256 ^ Z.of_nat 4) with (2 ^ 32); lia). lia.
Qed.

Lemma readValue_stored data offset k v : stored data offset k v -> readValue data offset = Ok v.
Proof.
  intros (pre & post & -> & -> & Hv). unfold readValue. destruct (Z.ltb_spec (Z.of_nat (length pre)) 0); [lia|].
  rewrite Nat2Z.id, drop_app_length. unfold dataEntry. rewrite <- !app_assoc.
  destruct (readFull_size v (v ++ k ++ post) Hv) as [-> Hn]. cbn [mbind outcome_bind].
  rewrite drop_app_length' by (by rewrite length_leBytes). by apply readSome_app.
Qed.

(** ** The invariant *)

Definition entrySize (m : gmap bytes bytes) (k : bytes) : nat := 36 + length (default [] (m !! k)).
Definition mapSize (m : gmap bytes bytes) : nat := sum_list_with (entrySize m) (map_to_list m).*1.

Definition dataSize (s : DBState) : Z := Z.of_nat (length (fileOf (dbPath (db s)) s)).

(** The index has the keys of the map, each at the offset of a record with its
    value.  The data file is at least as long as the live records. *)
Record rep (s : DBState) (m : gmap bytes bytes) : Prop := {
  r_open : isOpen (db s) = true;
  r_paths : dbPath (db s) <> indexPath (db s) /\ tempPath s <> indexPath (db s);
  r_files : is_Some (fs s !! dbPath (db s)) /\ is_Some (fs s !! indexPath (db s));
  r_keys : forall k, is_Some (indexMap (db s) !! k) -> length k = KeySize;
  r_dom : dom (indexMap (db s)) = dom m;
  r_stored : forall k offset v, indexMap (db s) !! k = Some offset -> m !! k = Some v ->
    stored (fileOf (dbPath (db s)) s) offset k v;
  r_size : (mapSize m <= length (fileOf (dbPath (db s)) s))%nat;
  r_bound : dataSize s < 2 ^ 63
}.

Lemma keys_perm (m : gmap bytes bytes) (idx : gmap bytes Z) : dom idx = dom m -> (map_to_list idx).*1 ≡ₚ (map_to_list m).*1.
Proof.
  intros Hd. apply NoDup_Permutation; [apply NoDup_fst_map_to_list..|]. intros k.
  rewrite !list_elem_of_fmap. split.
  - intros ([k' o] & -> & Ho%elem_of_map_to_list). cbn. assert (k' ∈ dom m) as [v Hv]%elem_of_dom by (rewrite <- Hd; by eapply elem_of_dom_2).
    exists (k', v). split; [done|]. by apply elem_of_map_to_list.
  - intros ([k' v] & -> & Hv%elem_of_map_to_list). cbn. assert (k' ∈ dom idx) as [o Ho]%elem_of_dom by (rewrite Hd; by eapply elem_of_dom_2).
    exists (k', o). split; [done|]. by apply elem_of_map_to_list.
Qed.

Lemma sum_perm {A} (f : A -> nat) l l' : l ≡ₚ l' -> sum_list_with f l = sum_list_with f l'.
Proof. induction 1; cbn; lia. Qed.

Lemma sum_ext {A} (f g : A -> nat) l : (forall x, x ∈ l -> f x = g x) -> sum_list_with f l = sum_list_with g l.
Proof. induction l as [|x l IH]; intros Hf; cbn; [done|]. rewrite (Hf x), IH; [done|intros; apply Hf; by right|by left]. Qed.

Lemma mapSize_delete m k : (mapSize (delete k m) + (if decide (is_Some (m !! k)) then entrySize m k else 0))%nat = mapSize m.
Proof.
  destruct (decide (is_Some (m !! k))) as [[v Hv]|Hn].
  - unfold mapSize. rewrite (sum_perm (entrySize m) (map_to_list m).*1 (k :: (map_to_list (delete k m)).*1)).
    2:{ rewrite <- (fmap_cons fst (k, v)). apply fmap_Permutation. by rewrite <- map_to_list_delete. }
    cbn [sum_list_with]. rewrite Nat.add_comm. f_equal. apply sum_ext. intros k' Hk'.
    apply list_elem_of_fmap in Hk' as ([k2 v2] & -> & H2%elem_of_map_to_list). cbn. unfold entrySize.
    apply lookup_delete_Some in H2 as [Hne H2]. by rewrite lookup_delete_ne.
  - rewrite delete_id by (destruct (m !! k); [by destruct Hn|done]). lia.
Qed.

Lemma mapSize_insert m k v : (mapSize (<[k := v]> m) <= mapSize m + 36 + length v)%nat.
Proof.
  pose proof (mapSize_delete (<[k := v]> m) k) as H1. pose proof (mapSize_delete m k) as H2.
  rewrite delete_insert_eq in H1. unfold entrySize in H1 at 1. rewrite lookup_insert_eq in H1. cbn in H1.
  rewrite decide_True in H1 by eauto. destruct (decide _); lia.
Qed.

(** ** The index file *)

Lemma length_indexEntry kv : length (indexEntry kv) = (length kv.1 + 8)%nat.
Proof. unfold indexEntry. by rewrite length_app, length_leBytes. Qed.

Lemma loadEntries_step fuel k o rest m : length k = KeySize -> 0 <= o < 2 ^ 63 ->
  loadEntries (S fuel) (indexEntry (k, o) ++ rest) m = loadEntries fuel rest (<[k := o]> m).
Proof.
  intros Hk Ho. cbn [loadEntries]. unfold indexEntry, IndexEntry. cbn [fst snd]. rewrite <- app_assoc.
  rewrite (proj2 (Nat.eqb_neq _ 0)) by (rewrite length_app; unfold KeySize in Hk; lia).
  rewrite <- Hk, arrayFromBytes_app, drop_app_length.
  unfold readFull. rewrite length_app, length_leBytes. rewrite (proj2 (Nat.eqb_neq _ 0)) by lia.
  rewrite (proj2 (Nat.ltb_ge _ _)) by lia. rewrite take_app_length' by (by rewrite length_leBytes). cbn [mbind outcome_bind].
  rewrite undigits_leBytes, Z.mod_small by (change (256 ^ Z.of_nat 8) with (2 ^ 64); lia). rewrite to_int64_id by lia.
  by rewrite app_assoc, drop_app_length' by (by rewrite length_app, length_leBytes).
Qed.

Lemma loadEntries_save l fuel m :
  NoDup l.*1 -> Forall (fun kv => length kv.1 = KeySize /\ 0 <= kv.2 < 2 ^ 63) l -> (length (mjoin (indexEntry <$> l)) < fuel)%nat ->
  loadEntries fuel (mjoin (indexEntry <$> l)) m = Ok (list_to_map l ∪ m).
Proof.
  revert fuel m. induction l as [|[k o] l IH]; intros fuel m Hnd Hl Hf; (destruct fuel as [|fuel]; [cbn in Hf; lia|]).
  { cbn. by rewrite (left_id_L ∅ (∪)). }
  apply Forall_cons in Hl as [[Hk Ho] Hl]. apply NoDup_cons in Hnd as [Hn Hnd].
  change (mjoin (indexEntry <$> (k, o) :: l)) with (indexEntry (k, o) ++ mjoin (indexEntry <$> l)) in *.
  cbn [fst snd] in *. rewrite length_app, length_indexEntry in Hf. rewrite loadEntries_step, IH by (done || lia).
  f_equal. cbn [list_to_map foldr fst snd]. rewrite <- insert_union_l.
  symmetry. apply insert_union_r. by apply not_elem_of_list_to_map_1.
Qed.

Lemma loadIndex_save it idx : fair it -> (forall k o, idx !! k = Some o -> length k = KeySize /\ 0 <= o < 2 ^ 63) ->
  loadIndex (mjoin (indexEntry <$> it idx)) = Ok idx.
Proof.
  intros Hf Hidx. pose proof (Hf idx) as Hp. unfold loadIndex.
  assert (Hnd : NoDup (it idx).*1) by (rewrite Hp; apply NoDup_fst_map_to_list).
  rewrite loadEntries_save; [|done| |lia].
  - f_equal. rewrite (right_id_L ∅ (∪)), (list_to_map_proper _ _ Hnd Hp). apply list_to_map_to_list.
  - apply Forall_forall. intros [k o] Hin. rewrite Hp in Hin. apply elem_of_map_to_list in Hin. by apply Hidx.
Qed.

(** ** Writing *)

Lemma fileOf_set name content s : fileOf name (setFile name content s) = content.
Proof. unfold fileOf, setFile. cbn [fs]. by rewrite lookup_insert_eq. Qed.

Lemma fileOf_set_ne name name' content s : name <> name' -> fileOf name (setFile name' content s) = fileOf name s.
Proof. intros Hn. unfold fileOf, setFile. cbn [fs]. by rewrite lookup_insert_ne. Qed.

Definition written (v : bytes) : Z := 36 + Z.of_nat (length v).

Lemma rep_append s m k v :
  rep s m -> length k = KeySize -> Z.of_nat (length v) < 2 ^ 32 -> dataSize s + written v < 2 ^ 63 ->
  exists s', appendEntry k v s = (Ok tt, s') /\ rep s' (<[k := v]> m) /\ dataSize s' = dataSize s + written v.
Proof.
  intros [Ho Hp Hf Hk Hd Hs Hz Hb] Hlen Hv Hbound. unfold appendEntry. rewrite Ho. eexists. split; [reflexivity|].
  set (s' := setIndex _ _). set (data := fileOf (dbPath (db s)) s) in *.
  assert (Hdata : fileOf (dbPath (db s')) s' = data ++ dataEntry k v) by apply fileOf_set.
  assert (Hl : length (data ++ dataEntry k v) = (length data + (36 + length v))%nat).
  { rewrite length_app, length_dataEntry, Hlen. unfold KeySize. lia. }
  assert (Hnew : dataSize s' = dataSize s + written v) by (unfold dataSize, written; rewrite Hdata, Hl; fold data; lia).
  split; [|done]. split.
  - exact Ho.
  - exact Hp.
  - cbn. rewrite lookup_insert_eq, lookup_insert_ne by apply Hp. split; [by eexists|apply Hf].
  - intros k'. cbn. rewrite lookup_insert_is_Some. intros [<-|[_ H']]; [done|by apply Hk].
  - cbn. by rewrite !dom_insert_L, Hd.
  - intros k' o v'. rewrite Hdata. cbn. destruct (decide (k = k')) as [<-|Hne].
    + rewrite !lookup_insert_eq. intros [= <-] [= <-]. by apply stored_new.
    + rewrite !lookup_insert_ne by done. intros Ho' Hv'. by apply stored_app, Hs.
  - rewrite Hdata, Hl. pose proof (mapSize_insert m k v). lia.
  - lia.
Qed.

Lemma db_rep_delete s m k : rep s m -> rep (setIndex (delete k (indexMap (db s))) s) (delete k m).
Proof.
  intros [Ho Hp Hf Hk Hd Hs Hz Hb]. split; cbn; try done.
  - intros k' [o [_ H']%lookup_delete_Some]. apply Hk. by exists o.
  - by rewrite !dom_delete_L, Hd.
  - intros k' o v' [_ H1]%lookup_delete_Some [_ H2]%lookup_delete_Some. by apply Hs.
  - pose proof (mapSize_delete m k). change (fileOf _ (setIndex _ s)) with (fileOf (dbPath (db s)) s). lia.
Qed.

(** What reopening would find in the index file. *)
Definition saved (s : DBState) : Prop := loadIndex (fileOf (indexPath (db s)) s) = Ok (indexMap (db s)).

Lemma rep_index s m k o : rep s m -> indexMap (db s) !! k = Some o -> length k = KeySize /\ 0 <= o < 2 ^ 63.
Proof.
  intros H Ho. split; [apply (r_keys _ _ H); by eexists|].
  assert (k ∈ dom m) as [v Hv]%elem_of_dom by (rewrite <- (r_dom _ _ H); by eapply elem_of_dom_2).
  pose proof (stored_offset _ _ _ _ (r_stored _ _ H k o v Ho Hv)). pose proof (r_bound _ _ H). unfold dataSize in *. lia.
Qed.

Lemma rep_saveIndex it s m : fair it -> rep s m ->
  exists s', saveIndex it s = (Ok tt, s') /\ rep s' m /\ saved s' /\ dataSize s' = dataSize s /\ db s' = db s.
Proof.
  intros Hit H. unfold saveIndex. rewrite (r_open _ _ H). eexists. split; [reflexivity|].
  destruct (r_paths _ _ H) as [Hp _].
  assert (Hdata : forall c, fileOf (dbPath (db s)) (setFile (indexPath (db s)) c s) = fileOf (dbPath (db s)) s)
    by (intros c; by apply fileOf_set_ne).
  split_and!.
  - destruct H as [Ho Hpp Hf Hk Hd Hs Hz Hb]. split; try done; cbn [setFile db fs].
    + rewrite lookup_insert_eq, lookup_insert_ne by done. split; [apply Hf|by eexists].
    + intros. rewrite Hdata. by apply Hs.
    + by rewrite Hdata.
    + unfold dataSize. cbn [setFile db]. by rewrite Hdata.
  - unfold saved. cbn [setFile db]. rewrite fileOf_set. apply loadIndex_save; [done|]. intros. by eapply rep_index.
  - unfold dataSize. cbn [setFile db]. by rewrite Hdata.
  - done.
Qed.

(** ** Compaction *)

Definition liveSize (val : bytes -> bytes) (l : list (bytes * Z)) : nat := sum_list_with (fun k => 36 + length (val k))%nat l.*1.

Lemma compactEntries_ok content (val : bytes -> bytes) l temp idx :
  Forall (fun kv => length kv.1 = KeySize /\ stored content kv.2 kv.1 (val kv.1)) l ->
  (forall k o, idx !! k = Some o -> stored temp o k (val k)) ->
  exists temp' idx', compactEntries content l temp idx = (Ok tt, temp', idx') /\
    length temp' = (length temp + liveSize val l)%nat /\ dom idx' = dom idx ∪ list_to_set l.*1 /\
    (forall k o, idx' !! k = Some o -> stored temp' o k (val k)).
Proof.
  revert temp idx. induction l as [|[k o] l IH]; intros temp idx Hl Hidx.
  { exists temp, idx. split_and!; [done|unfold liveSize; cbn; lia|set_solver|done]. }
  apply Forall_cons in Hl as [[Hk Ho] Hl]. cbn [fst snd] in Hk, Ho. cbn [compactEntries].
  rewrite (readValue_stored _ _ _ _ Ho). destruct (IH (temp ++ dataEntry k (val k)) (<[k := Z.of_nat (length temp)]> idx))
    as (temp' & idx' & -> & Hlen & Hdom & Hst); [done| |].
  { intros k' o'. destruct (decide (k = k')) as [<-|Hne].
    - rewrite lookup_insert_eq. intros [= <-]. destruct Ho as (? & ? & _ & _ & Hv). by apply stored_new.
    - rewrite lookup_insert_ne by done. intros H'. by apply stored_app, Hidx. }
  exists temp', idx'. split_and!; [done| | |done].
  - rewrite Hlen, length_app, length_dataEntry, Hk. unfold liveSize, KeySize. cbn [fmap list_fmap fst sum_list_with]. lia.
  - rewrite Hdom, dom_insert_L. cbn [fmap list_fmap fst list_to_set]. set_solver.
Qed.

Definition valueIn (m : gmap bytes bytes) (k : bytes) : bytes := default [] (m !! k).

Lemma liveSize_it it s m : fair it -> rep s m -> liveSize (valueIn m) (it (indexMap (db s))) = mapSize m.
Proof. intros Hit H. unfold liveSize, mapSize. apply sum_perm. rewrite (Hit _). by apply keys_perm, (r_dom _ _ H). Qed.

Lemma rep_entries it s m : fair it -> rep s m ->
  Forall (fun kv => length kv.1 = KeySize /\ stored (fileOf (dbPath (db s)) s) kv.2 kv.1 (valueIn m kv.1)) (it (indexMap (db s))).
Proof.
  intros Hit H. apply Forall_forall. intros [k o] Hin. rewrite (Hit _) in Hin. apply elem_of_map_to_list in Hin.
  cbn [fst snd]. split; [by eapply rep_index|].
  assert (k ∈ dom m) as [v Hv]%elem_of_dom by (rewrite <- (r_dom _ _ H); by eapply elem_of_dom_2).
  unfold valueIn. rewrite Hv. by apply (r_stored _ _ H).
Qed.

Lemma string_neq_app (a b : string) : b <> ""%string -> (a +:+ b)%string <> a.
Proof. induction a as [|x a IH]; cbn; [done|]. intros Hb [= Ha]. by apply IH. Qed.

Lemma rep_Compact it it' s m : fair it -> fair it' -> rep s m ->
  exists s', Compact it it' s = (Ok tt, s') /\ rep s' m /\ saved s' /\ dataSize s' <= dataSize s.
Proof.
  intros Hit Hit' H. unfold Compact. rewrite (r_open _ _ H).
  destruct (compactEntries_ok _ (valueIn m) _ [] ∅ (rep_entries it s m Hit H)) as (temp & idx & -> & Hlen & Hdom & Hst).
  { intros k o. by rewrite lookup_empty. }
  cbn in Hlen. rewrite (liveSize_it it s m Hit H) in Hlen.
  match goal with |- context [saveIndex it' ?x] => set (s1 := x) end.
  assert (Hdata : fileOf (dbPath (db s1)) s1 = temp).
  { unfold fileOf, s1. cbn [setIndex db fs dbPath]. rewrite lookup_delete_ne by (by apply string_neq_app).
    by rewrite lookup_insert_eq. }
  assert (H1 : rep s1 m).
  { assert (Hd : dom idx = dom m).
    { rewrite Hdom, dom_empty_L, (left_id_L ∅ (∪)), <- (r_dom _ _ H). unfold_leibniz. by rewrite (Hit _), <- dom_alt. }
    split.
    - apply (r_open _ _ H).
    - apply (r_paths _ _ H).
    - unfold s1. cbn [setIndex db fs dbPath]. rewrite lookup_delete_ne by (by apply string_neq_app).
      destruct (r_paths _ _ H) as [Hp Ht]. cbn [indexPath].
      rewrite lookup_insert_eq, lookup_delete_ne, lookup_insert_ne by done. split; [by eexists|apply (r_files _ _ H)].
    - intros k Hk. apply (r_keys _ _ H). apply elem_of_dom. rewrite (r_dom _ _ H), <- Hd. by apply elem_of_dom.
    - exact Hd.
    - intros k o v Ho Hv. rewrite Hdata. specialize (Hst k o Ho). unfold valueIn in Hst. by rewrite Hv in Hst.
    - rewrite Hdata, Hlen. done.
    - unfold dataSize. rewrite Hdata, Hlen. pose proof (r_size _ _ H). pose proof (r_bound _ _ H). unfold dataSize in *. lia. }
  destruct (rep_saveIndex it' s1 m Hit' H1) as (s' & -> & H' & Hsv & Hsz & _). exists s'. split_and!; try done.
  rewrite Hsz. unfold dataSize at 1. rewrite Hdata, Hlen. pose proof (r_size _ _ H). unfold dataSize. lia.
Qed.

(** ** The abstract store *)

(** The map that callers see and the one that a crash would leave. *)
Record AbsDB := mkAbs { mem : gmap bytes bytes; disk : gmap bytes bytes }.

(** The calls of a client; [OReopen] closes the database and opens it again,
    [OCrash] opens it without a [Close]. *)
Inductive DBOp :=
| OPut (it : Iteration) (key value : bytes)
| OBatchPut (it : Iteration) (kvs : list (bytes * bytes))
| OGet (key : bytes)
| ODelete (key : bytes)
| OCompact (it it' : Iteration)
| OReopen (it : Iteration)
| OCrash.

Definition reopenFiles : stm DBState (option bytes) := fun s =>
  match Open (dbPath (db s)) (indexPath (db s)) (fs s) with
  | (Ok d, files) => (Ok None, mkDB files d)
  | (Err e, files) => (Err e, mkDB files (db s))
  | (Panic, files) => (Panic, mkDB files (db s))
  | (NoFuel, files) => (NoFuel, mkDB files (db s))
  end.

Definition dbStep (op : DBOp) : stm DBState (option bytes) :=
  match op with
  | OPut it key value => Put it key value;; mret None
  | OBatchPut it kvs => BatchPut it kvs;; mret None
  | OGet key => fun s => (v ← Get key s; Ok (Some v), s)
  | ODelete key => Delete key;; mret None
  | OCompact it it' => Compact it it';; mret None
  | OReopen it => Close it;; reopenFiles
  | OCrash => reopenFiles
  end.

(** The entries before the first key of a wrong size. *)
Fixpoint absBatch (kvs : list (bytes * bytes)) (m : gmap bytes bytes) : outcome (option bytes) * gmap bytes bytes :=
  match kvs with
  | [] => (Ok None, m)
  | (key, value) :: kvs =>
      if (length key =? KeySize)%nat then absBatch kvs (<[key := value]> m) else (Err errKeySize, m)
  end.

Definition absStep (op : DBOp) (a : AbsDB) : outcome (option bytes) * AbsDB :=
  let flush m := mkAbs m m in
  match op with
  | OPut _ key value => if (length key =? KeySize)%nat then (Ok None, flush (<[key := value]> (mem a))) else (Err errKeySize, a)
  | OBatchPut _ kvs =>
      match absBatch kvs (mem a) with
      | (Ok r, m) => (Ok r, flush m)
      | (e, m) => (e, mkAbs m (disk a))
      end
  | OGet key =>
      if (length key =? KeySize)%nat then
        (match mem a !! key with Some v => Ok (Some v) | None => Err errNotFound end, a)
      else (Err errKeySize, a)
  | ODelete key => if (length key =? KeySize)%nat then (Ok None, mkAbs (delete key (mem a)) (disk a)) else (Err errKeySize, a)
  | OCompact _ _ | OReopen _ => (Ok None, flush (mem a))
  | OCrash => (Ok None, flush (disk a))
  end.

(** The results of a sequence of calls. *)
Fixpoint results {Op St R : Type} (step : Op -> St -> R * St) (ops : list Op) (s : St) : list R :=
  match ops with
  | [] => []
  | op :: ops => let '(r, s) := step op s in r :: results step ops s
  end.

(** Bytes that a call appends. *)
Fixpoint batchSize (kvs : list (bytes * bytes)) : Z :=
  match kvs with [] => 0 | kv :: kvs => written kv.2 + batchSize kvs end.

Definition opSize (op : DBOp) : Z :=
  match op with
  | OPut _ _ value => written value
  | OBatchPut _ kvs => batchSize kvs
  | _ => 0
  end.
Fixpoint opsSize (ops : list DBOp) : Z :=
  match ops with [] => 0 | op :: ops => opSize op + opsSize ops end.

Definition smallValue (v : bytes) : Prop := Z.of_nat (length v) < 2 ^ 32.
Definition opOk (op : DBOp) : Prop :=
  match op with
  | OPut it _ value => fair it /\ smallValue value
  | OBatchPut it kvs => fair it /\ Forall (fun kv => smallValue kv.2) kvs
  | OCompact it it' => fair it /\ fair it'
  | OReopen it => fair it
  | _ => True
  end.

(** ** Simulation *)

Record DBrep (s : DBState) (a : AbsDB) : Prop := {
  d_mem : rep s (mem a);
  d_disk : exists idx, loadIndex (fileOf (indexPath (db s)) s) = Ok idx /\ rep (setIndex idx s) (disk a)
}.

Lemma setIndex_id s : setIndex (indexMap (db s)) s = s.
Proof. by destruct s as [? []]. Qed.

Lemma DBrep_saved s m : rep s m -> saved s -> DBrep s (mkAbs m m).
Proof. intros H Hs. split; [done|]. exists (indexMap (db s)). by rewrite setIndex_id. Qed.

Lemma DBrep_append s a k v :
  DBrep s a -> length k = KeySize -> smallValue v -> dataSize s + written v < 2 ^ 63 ->
  exists s', appendEntry k v s = (Ok tt, s') /\ DBrep s' (mkAbs (<[k := v]> (mem a)) (disk a)) /\ dataSize s' = dataSize s + written v.
Proof.
  intros [Hm (idx & Hidx & Hd)] Hk Hv Hb. destruct (rep_append s (mem a) k v Hm Hk Hv Hb) as (s' & Heq & Hm' & Hsz).
  exists s'. split_and!; [done| |done]. split; [done|]. exists idx.
  unfold appendEntry in Heq. rewrite (r_open _ _ Hm) in Heq. injection Heq as Hs'.
  destruct (r_paths _ _ Hm) as [Hp Ht].
  assert (Hdata : fileOf (dbPath (db s')) s' = fileOf (dbPath (db s)) s ++ dataEntry k v) by (rewrite <- Hs'; apply fileOf_set).
  split.
  - rewrite <- Hidx, <- Hs'. f_equal. by apply fileOf_set_ne.
  - destruct Hd as [Ho Hp' Hf Hk' Hd Hs Hz Hb'].
    assert (Hdata' : fileOf (dbPath (db (setIndex idx s'))) (setIndex idx s') = fileOf (dbPath (db s)) s ++ dataEntry k v) by exact Hdata.
    split.
    + by rewrite <- Hs'.
    + by rewrite <- Hs'.
    + apply (r_files _ _ Hm').
    + exact Hk'.
    + exact Hd.
    + intros k' o' v' H1 H2. rewrite Hdata'. by apply stored_app, Hs.
    + rewrite Hdata', length_app. etrans; [exact Hz|]. apply Nat.le_add_r.
    + apply (r_bound _ _ Hm').
Qed.

Lemma DBrep_delete s a k : DBrep s a ->
  DBrep (setIndex (delete k (indexMap (db s))) s) (mkAbs (delete k (mem a)) (disk a)).
Proof. intros [Hm (idx & Hidx & Hd)]. split; [by apply db_rep_delete|]. by exists idx. Qed.

Lemma DBrep_saveIndex it s a : fair it -> DBrep s a ->
  exists s', saveIndex it s = (Ok tt, s') /\ DBrep s' (mkAbs (mem a) (mem a)) /\ dataSize s' = dataSize s /\ db s' = db s /\ saved s'.
Proof.
  intros Hit [Hm _]. destruct (rep_saveIndex it s _ Hit Hm) as (s' & -> & H' & Hs & Hz & Hd). exists s'.
  split_and!; try done. by apply DBrep_saved.
Qed.

Lemma sim_Put it k v s a : fair it -> smallValue v -> DBrep s a -> dataSize s + written v < 2 ^ 63 ->
  exists s', dbStep (OPut it k v) s = ((absStep (OPut it k v) a).1, s') /\ DBrep s' (absStep (OPut it k v) a).2 /\
    dataSize s' <= dataSize s + written v.
Proof.
  intros Hit Hv H Hb. cbn [dbStep absStep]. unfold Put. destruct (length k =? KeySize)%nat eqn:Hk; cbn [negb].
  - apply Nat.eqb_eq in Hk. pose proof (DBrep_delete s a k H) as H1.
    destruct (DBrep_append _ _ k v H1 Hk Hv) as (s2 & E2 & H2 & Hz2); [exact Hb|].
    destruct (DBrep_saveIndex it _ _ Hit H2) as (s3 & E3 & H3 & Hz3 & _). cbn [mem disk] in *.
    rewrite insert_delete_eq in H3. exists s3. split_and!; [|done|].
    + unfold mbind, stm_bind, modify. by rewrite E2, E3.
    + rewrite Hz3, Hz2. change (dataSize (setIndex _ s)) with (dataSize s). lia.
  - exists s. split_and!; [done|done|]. unfold written. lia.
Qed.

Lemma sim_putEntries kvs s a :
  Forall (fun kv => smallValue kv.2) kvs -> DBrep s a -> dataSize s + batchSize kvs < 2 ^ 63 ->
  exists s', (putEntries kvs;; mret None) s = ((absBatch kvs (mem a)).1, s') /\ DBrep s' (mkAbs (absBatch kvs (mem a)).2 (disk a)) /\
    dataSize s' <= dataSize s + batchSize kvs.
Proof.
  revert s a. induction kvs as [|[k v] kvs IH]; intros s a Hv H Hb.
  { exists s. cbn. split_and!; [done|by destruct a|lia]. }
  apply Forall_cons in Hv as [Hv Hvs]. cbn [putEntries absBatch batchSize snd] in *.
  assert (Hpos : 0 <= batchSize kvs) by (clear; induction kvs; cbn [batchSize]; unfold written in *; lia).
  destruct (length k =? KeySize)%nat eqn:Hk; cbn [negb].
  - apply Nat.eqb_eq in Hk. destruct (DBrep_append _ _ k v H Hk Hv) as (s2 & E2 & H2 & Hz2); [lia|].
    destruct (IH s2 _ Hvs H2) as (s3 & E3 & H3 & Hz3); [lia|]. exists s3. split_and!; [|done|lia].
    cbn [mem] in E3. rewrite <- E3. unfold mbind, stm_bind. by rewrite E2.
  - exists s. split_and!; [done|by destruct a|unfold written; lia].
Qed.

Lemma sim_BatchPut it kvs s a :
  fair it -> Forall (fun kv => smallValue kv.2) kvs -> DBrep s a -> dataSize s + opSize (OBatchPut it kvs) < 2 ^ 63 ->
  exists s', dbStep (OBatchPut it kvs) s = ((absStep (OBatchPut it kvs) a).1, s') /\ DBrep s' (absStep (OBatchPut it kvs) a).2 /\
    dataSize s' <= dataSize s + opSize (OBatchPut it kvs).
Proof.
  intros Hit Hv H Hb. destruct (sim_putEntries kvs s a Hv H Hb) as (s1 & E1 & H1 & Hz1).
  cbn [dbStep absStep opSize] in *. unfold BatchPut. unfold mbind, stm_bind in *.
  destruct (putEntries kvs s) as [[[]|e| |] s1'], (absBatch kvs (mem a)) as [r m]; cbn [fst snd] in *; unfold mret, stm_ret in *; simplify_eq; try by exists s1.
  destruct (DBrep_saveIndex it _ _ Hit H1) as (s2 & E2 & H2 & Hz2 & _).
  exists s2. unfold catch. rewrite E2. split_and!; [done..|lia].
Qed.

Lemma sim_Get k s a : DBrep s a -> dbStep (OGet k) s = ((absStep (OGet k) a).1, s).
Proof.
  intros [H _]. cbn [dbStep absStep]. unfold Get. destruct (length k =? KeySize)%nat; cbn [negb]; [|done].
  rewrite (r_open _ _ H). destruct (indexMap (db s) !! k) as [o|] eqn:Ho.
  - assert (k ∈ dom (mem a)) as [v Hv]%elem_of_dom by (rewrite <- (r_dom _ _ H); by eapply elem_of_dom_2).
    rewrite Hv. cbn. by rewrite (readValue_stored _ _ _ _ (r_stored _ _ H _ _ _ Ho Hv)).
  - assert (mem a !! k = None) as ->; [|done]. apply not_elem_of_dom. rewrite <- (r_dom _ _ H). by apply not_elem_of_dom.
Qed.

Lemma openCreate_id name files : is_Some (files !! name) -> openCreate name files = files.
Proof. intros [c Hc]. unfold openCreate. rewrite Hc. by apply insert_id. Qed.

(** Opening finds the map on disk. *)
Lemma sim_reopen s a : DBrep s a ->
  exists s', reopenFiles s = (Ok None, s') /\ DBrep s' (mkAbs (disk a) (disk a)) /\ dataSize s' = dataSize s.
Proof.
  intros [Hm (idx & Hidx & Hd)]. exists (setIndex idx s). split_and!.
  - unfold reopenFiles, Open. destruct (r_files _ _ Hm) as [Hf1 Hf2]. rewrite !openCreate_id by (done || by rewrite openCreate_id).
    unfold fileOf in Hidx. rewrite Hidx. unfold setIndex. by rewrite (r_open _ _ Hm).
  - by apply DBrep_saved.
  - done.
Qed.

Lemma sim_Close it s a : fair it -> DBrep s a ->
  exists s', dbStep (OReopen it) s = (Ok None, s') /\ DBrep s' (mkAbs (mem a) (mem a)) /\ dataSize s' = dataSize s.
Proof.
  intros Hit H. destruct (DBrep_saveIndex it s a Hit H) as (s1 & E1 & H1 & Hz & _).
  destruct (sim_reopen s1 _ H1) as (s2 & E2 & H2 & Hz2). exists s2. split_and!; [|done|lia].
  cbn [dbStep]. unfold Close. unfold mbind, stm_bind, modify. rewrite E1. rewrite <- E2.
  unfold reopenFiles at 1. cbn [fs db dbPath indexPath]. unfold reopenFiles in *.
  by destruct (Open _ _ _) as [[]]; simplify_eq.
Qed.

Lemma simulation op s a : opOk op -> DBrep s a -> dataSize s + opSize op < 2 ^ 63 ->
  exists s', dbStep op s = ((absStep op a).1, s') /\ DBrep s' (absStep op a).2 /\ dataSize s' <= dataSize s + opSize op.
Proof.
  destruct op as [it k v|it kvs|k|k|it it'|it|]; cbn [opOk opSize]; intros Hok H Hb.
  - destruct Hok. by apply sim_Put.
  - destruct Hok. by apply sim_BatchPut.
  - exists s. split_and!; [by apply sim_Get| |lia]. cbn. by destruct (length k =? KeySize)%nat.
  - cbn. unfold Delete. destruct (length k =? KeySize)%nat; eexists; (split_and!; [reflexivity| |]); try done; try lia.
    + by apply DBrep_delete.
    + change (dataSize (setIndex _ s)) with (dataSize s). lia.
  - destruct (rep_Compact it it' s _ (proj1 Hok) (proj2 Hok) (d_mem _ _ H)) as (s' & E & H' & Hs & Hz).
    exists s'. split_and!; [|by apply DBrep_saved|lia]. cbn [dbStep]. unfold mbind, stm_bind. by rewrite E.
  - destruct (sim_Close it s a Hok H) as (s' & E & H' & Hz). exists s'. split_and!; [done|done|lia].
  - destruct (sim_reopen s a H) as (s' & E & H' & Hz). exists s'. split_and!; [done|done|lia].
Qed.

Lemma opSize_pos op : 0 <= opSize op.
Proof. destruct op; cbn; unfold written; try lia. induction kvs; cbn; unfold written in *; lia. Qed.

Lemma opsSize_pos ops : 0 <= opsSize ops.
Proof. induction ops as [|op ops IH]; cbn [opsSize]; [|pose proof (opSize_pos op)]; lia. Qed.

Lemma results_refine ops s a : Forall opOk ops -> DBrep s a -> dataSize s + opsSize ops < 2 ^ 63 ->
  results dbStep ops s = results absStep ops a.
Proof.
  revert s a. induction ops as [|op ops IH]; intros s a Hok H Hb; [done|].
  apply Forall_cons in Hok as [Ho Hok]. cbn [results opsSize] in *.
  pose proof (opsSize_pos ops).
  destruct (simulation op s a Ho H) as (s' & -> & H' & Hz); [lia|]. destruct (absStep op a) as [r a']. cbn [fst snd] in *.
  f_equal. apply IH; [done|done|lia].
Qed.

(** Opening new files gives the empty store. *)
Lemma Open_new p ip files : files !! p = None -> files !! ip = None -> p <> ip -> (p +:+ ".tmp")%string <> ip ->
  exists d files', Open p ip files = (Ok d, files') /\ DBrep (mkDB files' d) (mkAbs ∅ ∅) /\ dataSize (mkDB files' d) = 0.
Proof.
  intros Hp Hip Hne Ht. unfold Open, openCreate. rewrite Hp, (lookup_insert_ne files p ip), Hip by done. cbn [default].
  rewrite lookup_insert_eq. cbn. eexists _, _. split; [reflexivity|].
  assert (Hf : fileOf p (mkDB (<[ip:=[]]> (<[p:=[]]> files)) (mkSimpleDB ∅ p ip true)) = []).
  { unfold fileOf. cbn [fs]. by rewrite lookup_insert_ne, lookup_insert_eq by done. }
  split; [|unfold dataSize; cbn [db dbPath]; by rewrite Hf]. apply DBrep_saved.
  - split; cbn [db dbPath indexPath fs isOpen indexMap]; try done.
    + rewrite lookup_insert_eq, lookup_insert_ne, lookup_insert_eq by done. eauto.
    + intros k [? Hk]. by rewrite lookup_empty in Hk.
    + unfold mapSize. rewrite map_to_list_empty. apply Nat.le_0_l.
    + unfold dataSize. cbn [db dbPath]. by rewrite Hf.
  - unfold saved, fileOf. cbn [db fs indexPath indexMap]. by rewrite lookup_insert_eq.
Qed.

(** C17 (refinement). A database on two new files answers every sequence of calls (writes,
    batches, reads, deletions, compactions, reopenings, and openings after a
    crash between two calls) as the abstract store does, in whatever order the
    maps are iterated.  The abstract store is a map with what a crash would
    leave of it: a write, a full batch, a compaction and a close make the two
    equal, a deletion and a batch that stops at a bad key change the map only. *)
Theorem simpledb_refines_map ops p ip files :
  files !! p = None -> files !! ip = None -> p <> ip -> (p +:+ ".tmp")%string <> ip ->
  Forall opOk ops -> opsSize ops < 2 ^ 63 ->
  exists d files', Open p ip files = (Ok d, files') /\
    results dbStep ops (mkDB files' d) = results absStep ops (mkAbs ∅ ∅).
Proof.
  intros Hp Hip Hne Ht Hok Hb. destruct (Open_new p ip files Hp Hip Hne Ht) as (d & files' & E & H & Hz).
  exists d, files'. split; [done|]. apply results_refine; [done|done|lia].
Qed.

Definition sampleDBOps : list DBOp :=
  let k1 := replicate 32 1 in let k2 := replicate 32 2 in
  [OPut map_to_list k1 [7]; OBatchPut map_to_list [(k2, [8; 9]); ([1], [])]; OGet k2; OCrash; OGet k2; OPut map_to_list k2 [];
   ODelete k1; OGet k1; OCompact map_to_list map_to_list; OGet k2; ODelete k2; OCrash; OGet k2; OReopen map_to_list; OGet k1].

Lemma simpledb_refines_map_witness :
  exists d files', Open "db" "db_index" ∅ = (Ok d, files') /\
    results dbStep sampleDBOps (mkDB files' d) = results absStep sampleDBOps (mkAbs ∅ ∅).
Proof.
  apply (simpledb_refines_map sampleDBOps "db" "db_index" ∅); [done|done|done|done| |vm_compute; done].
  unfold sampleDBOps. repeat first [apply Forall_cons_2|apply Forall_nil_2]; unfold opOk, fair, smallValue; cbn [snd];
    repeat first [split|apply Forall_cons_2|apply Forall_nil_2]; (lia || done || idtac); vm_compute; done.
Defined.

Definition sampleDB : DBState :=
  let '(d, files) := Open "db" "db_index" ∅ in
  match d with Ok d => mkDB files d | _ => mkDB files (mkSimpleDB ∅ "" "" false) end.

(** A deleted key is back after a crash, and after a compaction it is gone. *)
Example deleted_key_returns :
  let k := replicate 32 1 in
  results dbStep [OPut map_to_list k [7]; ODelete k; OGet k; OCrash; OGet k] sampleDB =
    [Ok None; Ok None; Err errNotFound; Ok None; Ok (Some [7])] /\
  results dbStep [OPut map_to_list k [7]; ODelete k; OCompact map_to_list map_to_list; OCrash; OGet k] sampleDB =
    [Ok None; Ok None; Ok None; Ok None; Err errNotFound].
Proof. vm_compute. done. Qed.

(** ** Concurrent reads *)

(** Alone, the steps of a reader compute [Get]. *)
Lemma getRun_solo s key t2 pos : (getRun s [true; true; true; true] (GLookup key) t2 pos).1 = GDone (Get key s).
Proof.
  unfold Get. cbn [getRun getStep]. destruct (negb _); [done|]. destruct (indexMap (db s) !! key) as [o|]; [|done].
  cbn [getStep]. destruct (isOpen (db s)); cbn [negb]; [|done]. unfold readValue.
  destruct (o <? 0); [done|]. cbn [getStep]. destruct (readFull 4 _) as [b|e| |] eqn:Hr; cbn; [|done..].
  by rewrite drop_drop.
Qed.

Lemma getRun_crossed s k1 k2 o1 o2 pos :
  length k1 = KeySize -> length k2 = KeySize -> isOpen (db s) = true -> 0 <= o1 -> 0 <= o2 ->
  indexMap (db s) !! k1 = Some o1 -> indexMap (db s) !! k2 = Some o2 ->
  (getRun s [true; true; false; false; true; true] (GLookup k1) (GLookup k2) pos).1 = GDone (Get k2 s).
Proof.
  intros Hk1 Hk2 Hopen Ho1 Ho2 E1 E2. unfold Get. rewrite (proj2 (Nat.eqb_eq _ _) Hk2), E2, Hopen. unfold readValue.
  cbn [getRun getStep negb]. rewrite (proj2 (Nat.eqb_eq _ _) Hk1), E1. cbn [negb getStep].
  rewrite (proj2 (Z.ltb_ge _ _) Ho1), (proj2 (Z.ltb_ge _ _) Ho2), Hopen. cbn [negb getStep].
  rewrite (proj2 (Nat.eqb_eq _ _) Hk2), E2. cbn [negb getStep]. rewrite (proj2 (Z.ltb_ge _ _) Ho2), Hopen. cbn [negb getStep].
  destruct (readFull 4 _) as [b|e| |] eqn:Hr; cbn; [|done..]. by rewrite drop_drop.
Qed.

Lemma DBrep_Get s a k v : DBrep s a -> mem a !! k = Some v ->
  length k = KeySize /\ Get k s = Ok v /\ exists o, indexMap (db s) !! k = Some o /\ 0 <= o.
Proof.
  intros [H _] Hv. assert (k ∈ dom (indexMap (db s))) as [o Ho]%elem_of_dom by (rewrite (r_dom _ _ H); by eapply elem_of_dom_2).
  destruct (rep_index _ _ _ _ H Ho) as [Hk Hb]. split_and!; [done| |exists o; split; [done|lia]].
  unfold Get. rewrite (proj2 (Nat.eqb_eq _ _) Hk), Ho, (r_open _ _ H). by eapply readValue_stored, (r_stored _ _ H).
Qed.

(** Two calls of [Get] that run at the same time share the position in the
    data file, and nothing keeps them apart: alone, the first one returns the
    value of its key, but when the second one seeks between the first one's seek
    and its reads, the first one returns the value of the second key. *)
Theorem get_race s a k1 k2 v1 v2 pos :
  DBrep s a -> mem a !! k1 = Some v1 -> mem a !! k2 = Some v2 ->
  (getRun s [true; true; true; true] (GLookup k1) (GLookup k2) pos).1 = GDone (Ok v1) /\
  (getRun s [true; true; false; false; true; true] (GLookup k1) (GLookup k2) pos).1 = GDone (Ok v2).
Proof.
  intros H H1 H2. destruct (DBrep_Get _ _ _ _ H H1) as (Hk1 & G1 & o1 & E1 & Ho1).
  destruct (DBrep_Get _ _ _ _ H H2) as (Hk2 & G2 & o2 & E2 & Ho2). split.
  - by rewrite getRun_solo, G1.
  - rewrite (getRun_crossed s k1 k2 o1 o2), G2; try done. apply (r_open _ _ (d_mem _ _ H)).
Qed.

Definition sampleDBTwo : DBState := (BatchPut map_to_list [(replicate 32 1, [7]); (replicate 32 2, [8; 9])] sampleDB).2.
Definition sampleAbsTwo : AbsDB :=
  let m := <[replicate 32 2 := [8; 9]]> (<[replicate 32 1 := [7]]> ∅) in mkAbs m m.

Lemma sampleDBTwo_rep : DBrep sampleDBTwo sampleAbsTwo.
Proof.
  destruct (Open_new "db" "db_index" ∅) as (d & files' & E & H & Hz); [done..|].
  assert (sampleDB = mkDB files' d) as Hs by (unfold sampleDB; by rewrite E).
  destruct (sim_BatchPut map_to_list [(replicate 32 1, [7]); (replicate 32 2, [8; 9])] (mkDB files' d) (mkAbs ∅ ∅))
    as (s' & E' & H' & _); [intros m; reflexivity|by repeat (apply Forall_cons_2 || apply Forall_nil_2)|done|rewrite Hz; vm_compute; done|].
  assert (sampleDBTwo = s') as ->; [|exact H'].
  unfold sampleDBTwo. rewrite Hs. cbn [dbStep] in E'. unfold mbind, stm_bind in E'.
  unfold mret, stm_ret in E'. destruct (BatchPut _ _ _) as [[] ?]; exact (f_equal snd E').
Qed.

Lemma get_race_witness :
  (getRun sampleDBTwo [true; true; true; true] (GLookup (replicate 32 1)) (GLookup (replicate 32 2)) 0).1 = GDone (Ok [7]) /\
  (getRun sampleDBTwo [true; true; false; false; true; true] (GLookup (replicate 32 1)) (GLookup (replicate 32 2)) 0).1 = GDone (Ok [8; 9]).
Proof. apply (get_race sampleDBTwo sampleAbsTwo); [apply sampleDBTwo_rep|reflexivity|reflexivity]. Defined.

(** ** The manager *)

(** A database that its user has closed stays in the manager: it cannot be
    closed there, and [GetOrCreate] returns it closed. *)
Example closed_database_stays :
  let p := "db"%string in let k := replicate 32 1 in
  let mgr := (GetOrCreate p;; onDB p (Close map_to_list)) (NewSimpleDBManager ∅) in
  (Manager_Close map_to_list p mgr.2).1 = Err errClosed /\
  (GetOrCreate p;; onDB p (Put map_to_list k [7])) mgr.2 = (Err errClosed, mgr.2) /\
  (CloseAll map_to_list [p] mgr.2).1 = Err errClosed.
Proof. vm_compute. done. Qed.
