(* ===== verification/Connections.v ===== *)
(** * The registry of connections

    Models [pkg/network/connections_manager.go] and the connection-type tables of
    [pkg/common/connection_type.go]: connections filed by type and address in
    sharded maps, the parent connection, statistics and one round of the health
    check.

    A connection is an opaque pointer; what its interface methods answer is read
    from an environment [ConnEnv] at each call.  Every method of the registry is
    one step.  The key of a shard is the checksummed hex string of the address. *)

From stdpp Require Import pretty.
From S2P Require Import Prelude TrieEncoding TrieNode Instances.

Local Open Scope Z_scope.

(** ** Connection types *)

Definition MapConnectionTypeToIndex (s : string) : Z :=
  if bool_decide (s = "validator"%string) then 1
  else if bool_decide (s = "node"%string) then 2
  else if bool_decide (s = "child_node"%string) then 3
  else if bool_decide (s = "execute_miner"%string) then 4
  else if bool_decide (s = "verify_miner"%string) then 5
  else if bool_decide (s = "client"%string) then 6
  else if bool_decide (s = "storage"%string) then 7
  else if bool_decide (s = "explorer"%string) then 8
  else if bool_decide (s = "state_channel_validator"%string) then 9
  else if bool_decide (s = "backup"%string) then 10
  else if bool_decide (s = "master_read_only"%string) then 11
  else 0.

(** There is no case for 11. *)
Definition MapIndexToConnectionType (index : Z) : string :=
  match index with
  | 1 => "validator" | 2 => "node" | 3 => "child_node" | 4 => "execute_miner" | 5 => "verify_miner"
  | 6 => "client" | 7 => "storage" | 8 => "explorer" | 9 => "state_channel_validator" | 10 => "backup"
  | _ => "none"
  end.

(** ** The registry *)

Abbreviation Conn := positive.

Record ConnEnv := mkEnv {
  Address : Conn -> bytes;
  Type_ : Conn -> string;
  IsConnect : Conn -> bool
}.

Record connectionRecord := mkRecord { raddress : bytes; rconn : Conn }.

Abbreviation connectionShard := (gmap bytes connectionRecord).

Record ConnectionsManager := mkManager {
  parentConnection : option Conn;
  typeToShards : list (list connectionShard)
}.

Definition MaxConnectionTypes : nat := 20.
Definition numConnectionShards : nat := 32.

Definition NewConnectionsManager : ConnectionsManager :=
  mkManager None (replicate MaxConnectionTypes (replicate numConnectionShards ∅)).

(** The low bits of the last byte of the address. *)
Definition calculateShardIndex (address : bytes) : nat :=
  Z.to_nat (Z.land (default 0 (address !! 19%nat)) (Z.of_nat numConnectionShards - 1)).

Definition validType (cm : ConnectionsManager) (cType : Z) : bool :=
  negb ((cType <? 0) || (Z.of_nat (length (typeToShards cm)) <=? cType)).

(** The shard at an index in range. *)
Definition shardAt (cm : ConnectionsManager) (cType : Z) (i : nat) : connectionShard :=
  default ∅ (typeToShards cm !! Z.to_nat cType ≫= fun shards => shards !! i).

Definition setShard (cType : Z) (i : nat) (s : connectionShard) (cm : ConnectionsManager) : ConnectionsManager :=
  mkManager (parentConnection cm) (alter (fun shards => <[i := s]> shards) (Z.to_nat cType) (typeToShards cm)).

Definition getShard (cType : Z) (address : bytes) (cm : ConnectionsManager) : option connectionShard :=
  if validType cm cType then Some (shardAt cm cType (calculateShardIndex address)) else None.

Definition addressKey `{EthLib} (address : bytes) : bytes := Hex address.

Section Registry.
Context `{EthLib}.

(** The records of the shards of a type, in the order they are ranged over. *)
Definition rangeType (cm : ConnectionsManager) (cType : Z) : list connectionRecord :=
  mjoin ((fun shard => (map_to_list shard).*2) <$> default [] (typeToShards cm !! Z.to_nat cType)).

Definition ConnectionsByType (cType : Z) (cm : ConnectionsManager) : gmap bytes Conn :=
  if validType cm cType then foldl (fun m r => <[raddress r := rconn r]> m) ∅ (rangeType cm cType) else ∅.

Definition countConnectionsByType (cType : Z) (cm : ConnectionsManager) : nat :=
  if validType cm cType then length (rangeType cm cType) else 0%nat.

Definition ConnectionByTypeAndAddress (cType : Z) (address : bytes) (cm : ConnectionsManager) : option Conn :=
  shard ← getShard cType address cm; record ← shard !! addressKey address; Some (rconn record).

Definition ConnectionsByTypeAndAddresses (cType : Z) (addresses : list bytes) (cm : ConnectionsManager) :
  gmap bytes Conn :=
  foldl (fun m addr => match ConnectionByTypeAndAddress cType addr cm with
                       | Some conn => <[addr := conn]> m
                       | None => m
                       end) ∅ addresses.

Definition FilterAddressAvailable (env : ConnEnv) (cType : Z) (addresses : gmap bytes Z) (cm : ConnectionsManager) :
  gmap bytes Z :=
  filter (fun '(addr, _) =>
      match ConnectionByTypeAndAddress cType addr cm with Some conn => IsConnect env conn | None => false end = true)
    addresses.

(** [int32] of the total, under the name of the type. *)
Definition Stats (cm : ConnectionsManager) : gmap string Z :=
  foldl (fun m cType =>
    let total := countConnectionsByType cType cm in
    if (0 <? total)%nat then
      let name := MapIndexToConnectionType cType in
      let name := if bool_decide (name = ""%string) then ("UNKNOWN_TYPE_" +:+ pretty cType)%string else name in
      let w := Z.of_nat total mod 2 ^ 32 in
      <[name := if w <? 2 ^ 31 then w else w - 2 ^ 32]> m
    else m) ∅ (Z.of_nat <$> seq 0 (length (typeToShards cm))).

Definition AddParentConnection (conn : option Conn) (cm : ConnectionsManager) : ConnectionsManager :=
  match conn with
  | None => cm
  | Some c => mkManager (Some c) (typeToShards cm)
  end.

(** The new registry, and the replaced connection on which [Disconnect] is
    called. *)
Definition AddConnectionWithAddress (env : ConnEnv) (conn : option Conn) (address : bytes) (replace : bool)
  (cTypeOverride : string) (cm : ConnectionsManager) : option Conn * ConnectionsManager :=
  match conn with
  | None => (None, cm)
  | Some c =>
      let cTypeStr := if bool_decide (cTypeOverride = ""%string) then Type_ env c else cTypeOverride in
      let cType := MapConnectionTypeToIndex cTypeStr in
      match getShard cType address cm with
      | None => (None, cm)
      | Some shard =>
          let key := addressKey address in
          let cm' := setShard cType (calculateShardIndex address) (<[key := mkRecord address c]> shard) cm in
          match shard !! key with
          | None => (None, cm')
          | Some existing =>
              if negb replace then (None, cm)
              else if bool_decide (rconn existing <> c) && IsConnect env (rconn existing)
              then (Some (rconn existing), cm')
              else (None, cm')
          end
      end
  end.

Definition AddConnection (env : ConnEnv) (conn : option Conn) (replace : bool) (cTypeOverride : string)
  (cm : ConnectionsManager) : option Conn * ConnectionsManager :=
  match conn with
  | None => (None, cm)
  | Some c => AddConnectionWithAddress env conn (Address env c) replace cTypeOverride cm
  end.

(** The parent is forgotten only when the type of the connection is in range. *)
Definition RemoveConnection (env : ConnEnv) (conn : option Conn) (cm : ConnectionsManager) : ConnectionsManager :=
  match conn with
  | None => cm
  | Some c =>
      let address := Address env c in
      let cType := MapConnectionTypeToIndex (Type_ env c) in
      match getShard cType address cm with
      | None => cm
      | Some shard =>
          let key := addressKey address in
          let cm' := match shard !! key with
                     | Some record =>
                         if bool_decide (rconn record = c)
                         then setShard cType (calculateShardIndex address) (delete key shard) cm
                         else cm
                     | None => cm
                     end in
          if bool_decide (parentConnection cm' = Some c) then mkManager None (typeToShards cm') else cm'
      end
  end.

(** One tick of [HealthCheck]. *)
Definition healthTick (env : ConnEnv) (cm : ConnectionsManager) : ConnectionsManager :=
  mkManager (parentConnection cm)
    ((fun shards : list connectionShard =>
        (fun s : connectionShard => filter (fun '(_, r) => IsConnect env (rconn r) = true) s) <$> shards) <$> typeToShards cm).
End Registry.

(** ** A registry is a map from type and address to connection *)

Section Spec.
Context `{EthLibLaws}.

Abbreviation registry := (gmap (Z * bytes) Conn).

(** The abstract registry [m] of the shards: a record is filed under the shard
    and the key of its address. *)
Record rep (cm : ConnectionsManager) (m : registry) : Prop := {
  rep_types : length (typeToShards cm) = MaxConnectionTypes;
  rep_shards : forall shards, shards ∈ typeToShards cm -> length shards = numConnectionShards;
  rep_records : forall cType i key r, 0 <= cType ->
    shardAt cm cType i !! key = Some r <->
    key = addressKey (raddress r) /\ i = calculateShardIndex (raddress r) /\ is_address (raddress r) /\
      m !! (cType, raddress r) = Some (rconn r);
  rep_range : forall cType a c, m !! (cType, a) = Some c -> 0 <= cType < Z.of_nat MaxConnectionTypes /\ is_address a
}.

Lemma rep_new : rep NewConnectionsManager ∅.
Proof.
  assert (E : forall cType i, shardAt NewConnectionsManager cType i = ∅).
  { intros. unfold shardAt. destruct (typeToShards NewConnectionsManager !! Z.to_nat cType) as [l|] eqn:El; [|done].
    apply lookup_replicate in El as [-> _]. cbn [mbind option_bind].
    destruct (replicate numConnectionShards (∅ : connectionShard) !! i) eqn:Es; [|done].
    by apply lookup_replicate in Es as [-> _]. }
  split.
  - done.
  - intros shards Hs. apply elem_of_replicate in Hs as [-> _]. done.
  - intros cType i key r _. rewrite E, lookup_empty. split; [done|]. by intros (_ & _ & _ & ?).
  - done.
Qed.

Lemma shardIndex_lt a : (calculateShardIndex a < numConnectionShards)%nat.
Proof.
  unfold calculateShardIndex. change (Z.of_nat numConnectionShards - 1) with (Z.ones 5). rewrite Z.land_ones by lia.
  pose proof (Z.mod_pos_bound (default 0 (a !! 19%nat)) (2 ^ 5)). unfold numConnectionShards. lia.
Qed.

Lemma validType_rep cm m cType : rep cm m -> validType cm cType = true <-> 0 <= cType < Z.of_nat MaxConnectionTypes.
Proof. intros R. unfold validType. rewrite (rep_types _ _ R). destruct (Z.ltb_spec cType 0), (Z.leb_spec (Z.of_nat MaxConnectionTypes) cType); simpl; lia. Qed.

Lemma shardAt_set cm m cType i s cType' j :
  rep cm m -> 0 <= cType < Z.of_nat MaxConnectionTypes -> 0 <= cType' -> (i < numConnectionShards)%nat ->
  shardAt (setShard cType i s cm) cType' j =
  if decide (cType' = cType /\ j = i) then s else shardAt cm cType' j.
Proof.
  intros R Hc Hc' Hi. unfold shardAt, setShard. simpl typeToShards.
  destruct (lookup_lt_is_Some_2 (typeToShards cm) (Z.to_nat cType)) as [shards Es].
  { rewrite (rep_types _ _ R). lia. }
  assert (Ls : length shards = numConnectionShards) by (eapply rep_shards; [done|by eapply list_elem_of_lookup_2]).
  destruct (decide (cType' = cType)) as [->|N].
  - rewrite list_lookup_alter_eq, Es. simpl. destruct (decide (j = i)) as [->|Nj].
    + rewrite decide_True by done. rewrite list_lookup_insert_eq by lia. done.
    + rewrite decide_False by tauto. by rewrite list_lookup_insert_ne by done.
  - rewrite decide_False by tauto. rewrite list_lookup_alter_ne by lia. done.
Qed.

Lemma setShard_lengths cm m cType i s : rep cm m ->
  length (typeToShards (setShard cType i s cm)) = MaxConnectionTypes /\
  (forall shards, shards ∈ typeToShards (setShard cType i s cm) -> length shards = numConnectionShards).
Proof.
  intros R. unfold setShard. simpl. rewrite length_alter. split; [apply (rep_types _ _ R)|].
  intros shards [j Hj]%list_elem_of_lookup_1. destruct (decide (j = Z.to_nat cType)) as [->|N].
  - rewrite list_lookup_alter_eq in Hj. destruct (typeToShards cm !! _) as [l|] eqn:El; [|done].
    injection Hj as <-. rewrite length_insert. eapply rep_shards; [done|by eapply list_elem_of_lookup_2].
  - rewrite list_lookup_alter_ne in Hj by done. eapply rep_shards; [done|by eapply list_elem_of_lookup_2].
Qed.

Lemma lookup_shard cm m cType a : rep cm m -> 0 <= cType -> is_address a ->
  shardAt cm cType (calculateShardIndex a) !! addressKey a = mkRecord a <$> m !! (cType, a).
Proof.
  intros R Hc La. destruct (m !! (cType, a)) as [c|] eqn:Em; simpl.
  - apply (rep_records _ _ R); done.
  - destruct (shardAt _ _ _ !! _) as [r|] eqn:Er; [|done]. apply (rep_records _ _ R) in Er as (Ek & _ & Lr & E); [|done].
    apply Hex_inj in Ek; [|done..]. subst a. congruence.
Qed.

Lemma rep_insert cm m cType a c :
  rep cm m -> 0 <= cType < Z.of_nat MaxConnectionTypes -> is_address a ->
  rep (setShard cType (calculateShardIndex a)
        (<[addressKey a := mkRecord a c]> (shardAt cm cType (calculateShardIndex a))) cm)
      (<[(cType, a) := c]> m).
Proof.
  intros R Hc La. pose proof (setShard_lengths cm m cType (calculateShardIndex a)
    (<[addressKey a := mkRecord a c]> (shardAt cm cType (calculateShardIndex a))) R) as [L1 L2].
  split; [done|done| |].
  - intros ct i key [b d] Hct. simpl. rewrite (shardAt_set cm m) by (done || apply shardIndex_lt).
    destruct (decide ((ct, b) = (cType, a))) as [[= -> ->]|N].
    + rewrite lookup_insert_eq. case_decide as Hd.
      * destruct Hd as [_ ->]. destruct (decide (key = addressKey a)) as [->|Nk].
        -- rewrite lookup_insert_eq. naive_solver.
        -- rewrite lookup_insert_ne by done. split; [|naive_solver]. intros Hx.
           apply (rep_records _ _ R) in Hx as (-> & _); done.
      * split; [|naive_solver]. intros Hx. apply (rep_records _ _ R) in Hx as (_ & -> & _); [|done]. naive_solver.
    + rewrite lookup_insert_ne by done. case_decide as Hd.
      * destruct Hd as [-> ->]. destruct (decide (key = addressKey a)) as [->|Nk].
        -- rewrite lookup_insert_eq. split; [intros [= -> ->]; done|]. intros (Ek & _ & Lb & _).
           apply Hex_inj in Ek; [congruence|done..].
        -- rewrite lookup_insert_ne by done. apply (rep_records _ _ R _ _ _ (mkRecord b d)). done.
      * apply (rep_records _ _ R _ _ _ (mkRecord b d)). done.
  - intros ct b d. destruct (decide ((ct, b) = (cType, a))) as [[= -> ->]|N]; [done|].
    rewrite lookup_insert_ne by done. apply (rep_range _ _ R).
Qed.

Lemma rep_delete cm m cType a :
  rep cm m -> 0 <= cType < Z.of_nat MaxConnectionTypes -> is_address a ->
  rep (setShard cType (calculateShardIndex a)
        (delete (addressKey a) (shardAt cm cType (calculateShardIndex a))) cm)
      (delete (cType, a) m).
Proof.
  intros R Hc La. pose proof (setShard_lengths cm m cType (calculateShardIndex a)
    (delete (addressKey a) (shardAt cm cType (calculateShardIndex a))) R) as [L1 L2].
  split; [done|done| |].
  - intros ct i key [b d] Hct. simpl. rewrite (shardAt_set cm m) by (done || apply shardIndex_lt).
    pose proof (rep_records _ _ R ct i key (mkRecord b d) Hct) as Hr. simpl in Hr.
    destruct (decide ((ct, b) = (cType, a))) as [[= -> ->]|N].
    + rewrite lookup_delete_eq. split; [|naive_solver]. case_decide as Hd.
      * destruct Hd as [_ ->]. intros [Nk Hx]%lookup_delete_Some. apply Hr in Hx as (-> & _). done.
      * intros Hx. apply Hr in Hx as (_ & -> & _). naive_solver.
    + rewrite lookup_delete_ne by done. case_decide as Hd; [|exact Hr].
      destruct Hd as [-> ->]. rewrite lookup_delete_Some, Hr. split; [tauto|]. intros (-> & Hi & Lb & Hm).
      split; [|done]. intros Ek. apply Hex_inj in Ek; [congruence|done..].
  - intros ct b d [_ Hx]%lookup_delete_Some. by apply (rep_range _ _ R) in Hx.
Qed.

Lemma rep_health env cm m : rep cm m ->
  rep (healthTick env cm) (filter (fun '(_, c) => IsConnect env c = true) m).
Proof.
  intros R.
  assert (E : forall ct i, shardAt (healthTick env cm) ct i =
    filter (fun '(_, r) => IsConnect env (rconn r) = true) (shardAt cm ct i)).
  { intros ct i. unfold shardAt, healthTick. simpl typeToShards. rewrite list_lookup_fmap.
    destruct (typeToShards cm !! Z.to_nat ct) as [shards|]; simpl; [|done]. rewrite list_lookup_fmap.
    destruct (shards !! i); done. }
  split.
  - simpl. rewrite length_fmap. apply (rep_types _ _ R).
  - simpl. intros shards (l & -> & Hl)%list_elem_of_fmap. rewrite length_fmap. by apply (rep_shards _ _ R).
  - intros ct i key r Hct. rewrite E, !map_lookup_filter_Some, (rep_records _ _ R) by done. tauto.
  - intros ct a c [Hx _]%map_lookup_filter_Some. by apply (rep_range _ _ R) in Hx.
Qed.

(** *** Lists of records *)

Lemma elem_of_rangeType cm m cType r : rep cm m -> 0 <= cType ->
  r ∈ rangeType cm cType <-> is_address (raddress r) /\ m !! (cType, raddress r) = Some (rconn r).
Proof.
  intros R Hc. unfold rangeType. rewrite list_elem_of_join. split.
  - intros (l & Hr & Hl). apply list_elem_of_fmap in Hl as (s & -> & Hs). apply list_elem_of_fmap in Hr as ([k r'] & -> & Hr).
    apply elem_of_map_to_list in Hr. destruct (typeToShards cm !! Z.to_nat cType) as [shards|] eqn:Es; [|by apply elem_of_nil in Hs].
    apply list_elem_of_lookup_1 in Hs as [i Hi]. simpl in Hi.
    assert (Hx : shardAt cm cType i !! k = Some r') by (unfold shardAt; rewrite Es; simpl; by rewrite Hi).
    apply (rep_records _ _ R) in Hx; [|done]. tauto.
  - intros [Lr Hm]. assert (Hx : shardAt cm cType (calculateShardIndex (raddress r)) !! addressKey (raddress r) = Some r)
      by (by apply (rep_records _ _ R)).
    unfold shardAt in Hx. destruct (typeToShards cm !! Z.to_nat cType) as [shards|] eqn:Es; [|done]. simpl in Hx.
    destruct (shards !! _) as [s|] eqn:Ei; [|done]. simpl in Hx. eexists. split.
    2:{ apply list_elem_of_fmap. exists s. split; [done|]. by eapply list_elem_of_lookup_2. }
    apply list_elem_of_fmap. exists (addressKey (raddress r), r). split; [done|]. by apply elem_of_map_to_list.
Qed.

Lemma NoDup_shard (s : connectionShard) : (forall k r, s !! k = Some r -> k = addressKey (raddress r)) ->
  NoDup (raddress <$> (map_to_list s).*2).
Proof.
  intros Hk. apply (NoDup_fmap_1 addressKey).
  assert (E : (map_to_list s).*1 = addressKey <$> (raddress <$> (map_to_list s).*2)).
  { rewrite <- !list_fmap_compose. apply list_fmap_ext. intros i [k r] Hi. apply Hk. apply elem_of_map_to_list.
    by eapply list_elem_of_lookup_2. }
  rewrite <- E. apply NoDup_fst_map_to_list.
Qed.

Lemma NoDup_shards (shards : list connectionShard) n :
  (forall i s k r, shards !! i = Some s -> s !! k = Some r ->
     k = addressKey (raddress r) /\ calculateShardIndex (raddress r) = (n + i)%nat) ->
  NoDup (raddress <$> mjoin ((fun s => (map_to_list s).*2) <$> shards)).
Proof.
  revert n. induction shards as [|s shards IH]; intros n Hs; [constructor|].
  cbn. rewrite fmap_app. apply NoDup_app. split_and!.
  - apply NoDup_shard. intros k r Hr. by apply (Hs 0%nat s k r).
  - intros a (r & -> & Hr)%list_elem_of_fmap (r' & E & Hr')%list_elem_of_fmap.
    apply list_elem_of_fmap in Hr as ([k0 r0] & -> & Hr). apply elem_of_map_to_list in Hr. simpl in E.
    apply list_elem_of_join in Hr' as (l & Hr' & Hl). apply list_elem_of_fmap in Hl as (s' & -> & Hs').
    apply list_elem_of_fmap in Hr' as ([k1 r1] & -> & Hr'). apply elem_of_map_to_list in Hr'. simpl in E.
    apply list_elem_of_lookup_1 in Hs' as [i Hi].
    destruct (Hs 0%nat s k0 r0 eq_refl Hr) as [_ I0]. destruct (Hs (S i) s' k1 r1 Hi Hr') as [_ I1].
    rewrite E in I0. lia.
  - apply (IH (S n)). intros i s' k r Hi Hr. destruct (Hs (S i) s' k r Hi Hr) as [-> ->]. split; [done|lia].
Qed.

Lemma rangeType_NoDup cm m cType : rep cm m -> 0 <= cType -> NoDup (raddress <$> rangeType cm cType).
Proof.
  intros R Hc. unfold rangeType. apply (NoDup_shards _ 0). intros i s k r Hi Hr.
  destruct (typeToShards cm !! Z.to_nat cType) as [shards|] eqn:Es; [|done]. simpl in Hi.
  assert (Hx : shardAt cm cType i !! k = Some r) by (unfold shardAt; rewrite Es; simpl; by rewrite Hi).
  apply (rep_records _ _ R) in Hx as (-> & -> & _); done.
Qed.

Definition putRecord (m : gmap bytes Conn) (r : connectionRecord) : gmap bytes Conn := <[raddress r := rconn r]> m.

Lemma foldl_putRecord l acc : NoDup (raddress <$> l) -> (forall r, r ∈ l -> acc !! raddress r = None) ->
  size (foldl putRecord acc l) = (size acc + length l)%nat /\
  forall a c, foldl putRecord acc l !! a = Some c <-> acc !! a = Some c \/ mkRecord a c ∈ l.
Proof.
  revert acc. induction l as [|r l IH]; intros acc Hd Hf; simpl.
  - split; [lia|]. intros a c. rewrite elem_of_nil. tauto.
  - rewrite fmap_cons in Hd. apply NoDup_cons in Hd as [Hr Hd].
    destruct (IH (putRecord acc r)) as [Hs Hl]; [done| |].
    { intros r' Hr'. unfold putRecord. rewrite lookup_insert_ne; [apply Hf; by right|].
      intros E. apply Hr. rewrite E. by apply list_elem_of_fmap_2. }
    split.
    + rewrite Hs. unfold putRecord. rewrite map_size_insert_None; [lia|]. apply Hf. by left.
    + intros a c. rewrite Hl, elem_of_cons. unfold putRecord. destruct (decide (raddress r = a)) as [<-|N].
      * rewrite lookup_insert_eq. split.
        -- intros [[= <-]|Hx]; [right; left; by destruct r|]. right; by right.
        -- intros [Hx|[E|Hx]]; [by rewrite (Hf r) in Hx by left|left; by rewrite <- E|by right].
      * rewrite lookup_insert_ne by done. split; [tauto|]. intros [?|[Hx|?]]; [tauto| |tauto]. by subst r.
Qed.

Lemma ConnectionsByType_rep cm m cType : rep cm m ->
  (forall a, ConnectionsByType cType cm !! a = m !! (cType, a)) /\
  countConnectionsByType cType cm = size (ConnectionsByType cType cm).
Proof.
  intros R. unfold ConnectionsByType, countConnectionsByType.
  pose proof (validType_rep cm m cType R) as Hv. destruct (validType cm cType).
  - destruct (proj1 Hv eq_refl) as [Hc _].
    destruct (foldl_putRecord (rangeType cm cType) ∅) as [Hs Hl]; [by eapply rangeType_NoDup|done|]. fold putRecord.
    split; [|rewrite Hs; done]. intros a. apply option_eq. intros c. rewrite Hl, lookup_empty.
    rewrite (elem_of_rangeType cm m) by done. simpl. split; [by intros [?|[_ ?]]|]. intros Hm. right.
    split; [by apply (rep_range _ _ R) in Hm as [_ ?]|done].
  - split; [|done]. intros a. rewrite lookup_empty. destruct (m !! (cType, a)) eqn:Em; [|done].
    apply (rep_range _ _ R) in Em as [Hc _]. apply Hv in Hc. done.
Qed.

Lemma lookup_rep cm m cType a : rep cm m -> is_address a ->
  ConnectionByTypeAndAddress cType a cm = m !! (cType, a).
Proof.
  intros R La. unfold ConnectionByTypeAndAddress, getShard.
  pose proof (validType_rep cm m cType R) as Hv. destruct (validType cm cType).
  - destruct (proj1 Hv eq_refl) as [Hc _]. cbn [mbind option_bind]. rewrite (lookup_shard cm m) by done.
    by destruct (m !! _).
  - simpl. destruct (m !! (cType, a)) eqn:Em; [|done].
    apply (rep_range _ _ R) in Em as [Hc _]. apply Hv in Hc. done.
Qed.

(** *** Histories *)

Inductive regOp :=
| OpAddWithAddress (env : ConnEnv) (conn : option Conn) (address : bytes) (replace : bool) (cTypeOverride : string)
| OpAdd (env : ConnEnv) (conn : option Conn) (replace : bool) (cTypeOverride : string)
| OpRemove (env : ConnEnv) (conn : option Conn)
| OpParent (conn : option Conn)
| OpTick (env : ConnEnv).

Definition runOp (cm : ConnectionsManager) (o : regOp) : ConnectionsManager :=
  match o with
  | OpAddWithAddress env conn address replace ov => (AddConnectionWithAddress env conn address replace ov cm).2
  | OpAdd env conn replace ov => (AddConnection env conn replace ov cm).2
  | OpRemove env conn => RemoveConnection env conn cm
  | OpParent conn => AddParentConnection conn cm
  | OpTick env => healthTick env cm
  end.

(** The same calls on a map from type and address to connection, and a parent. *)
Definition addSpec (cType : Z) (a : bytes) (c : Conn) (replace : bool) (m : registry) : registry :=
  match m !! (cType, a) with
  | Some _ => if replace then <[(cType, a) := c]> m else m
  | None => <[(cType, a) := c]> m
  end.

Definition typeOf (env : ConnEnv) (c : Conn) (ov : string) : Z :=
  MapConnectionTypeToIndex (if bool_decide (ov = ""%string) then Type_ env c else ov).

Definition specOp (s : registry * option Conn) (o : regOp) : registry * option Conn :=
  match o with
  | OpAddWithAddress env (Some c) a replace ov => (addSpec (typeOf env c ov) a c replace s.1, s.2)
  | OpAdd env (Some c) replace ov => (addSpec (typeOf env c ov) (Address env c) c replace s.1, s.2)
  | OpRemove env (Some c) =>
      let k := (MapConnectionTypeToIndex (Type_ env c), Address env c) in
      (if bool_decide (s.1 !! k = Some c) then delete k s.1 else s.1,
       if bool_decide (s.2 = Some c) then None else s.2)
  | OpParent (Some c) => (s.1, Some c)
  | OpTick env => (filter (fun '(_, c) => IsConnect env c = true) s.1, s.2)
  | _ => s
  end.

(** Addresses are addresses. *)
Definition env_wf (env : ConnEnv) : Prop := forall c, is_address (Address env c).
Definition op_wf (o : regOp) : Prop :=
  match o with
  | OpAddWithAddress _ _ a _ _ => is_address a
  | OpAdd env _ _ _ | OpRemove env _ | OpTick env => env_wf env
  | OpParent _ => True
  end.

Lemma typeIndex_range s : 0 <= MapConnectionTypeToIndex s < Z.of_nat MaxConnectionTypes.
Proof. unfold MapConnectionTypeToIndex, MaxConnectionTypes. repeat case_bool_decide; lia. Qed.

Lemma rep_parent cm m p : rep cm m -> rep (mkManager p (typeToShards cm)) m.
Proof. intros R. split; apply R. Qed.

Lemma getShard_rep cm m s a : rep cm m ->
  getShard (MapConnectionTypeToIndex s) a cm = Some (shardAt cm (MapConnectionTypeToIndex s) (calculateShardIndex a)).
Proof. intros R. unfold getShard. by rewrite (proj2 (validType_rep cm m _ R) (typeIndex_range s)). Qed.

Lemma add_rep env c a replace ov cm m :
  rep cm m -> is_address a ->
  rep (AddConnectionWithAddress env (Some c) a replace ov cm).2 (addSpec (typeOf env c ov) a c replace m) /\
  parentConnection (AddConnectionWithAddress env (Some c) a replace ov cm).2 = parentConnection cm.
Proof.
  intros R La. unfold AddConnectionWithAddress, addSpec, typeOf. set (s := if bool_decide _ then _ else _).
  rewrite (getShard_rep cm m) by done. pose proof (typeIndex_range s) as Hr.
  rewrite (lookup_shard cm m) by (done || lia). pose proof (rep_insert cm m _ a c R Hr La) as Ri.
  destruct (m !! (MapConnectionTypeToIndex s, a)) as [d|]; simpl; [|done].
  destruct replace; simpl; [|done]. by destruct (_ && _).
Qed.

Lemma remove_rep env c cm m :
  rep cm m -> env_wf env ->
  rep (RemoveConnection env (Some c) cm) (specOp (m, parentConnection cm) (OpRemove env (Some c))).1 /\
  parentConnection (RemoveConnection env (Some c) cm) = (specOp (m, parentConnection cm) (OpRemove env (Some c))).2.
Proof.
  intros R Hw. pose proof (Hw c) as La. pose proof (typeIndex_range (Type_ env c)) as Hr.
  unfold RemoveConnection. rewrite (getShard_rep cm m) by done. rewrite (lookup_shard cm m) by (done || lia).
  pose proof (rep_delete cm m _ (Address env c) R Hr La) as Rd. simpl.
  set (k := (MapConnectionTypeToIndex (Type_ env c), Address env c)) in *.
  destruct (m !! k) as [d|]; simpl.
  - destruct (decide (d = c)) as [->|N].
    + rewrite !(bool_decide_true (c = c)), (bool_decide_true (Some c = Some c)) by done. simpl.
      case_bool_decide; simpl; [|done]. split; [by apply (rep_parent _ _ _ Rd)|done].
    + rewrite (bool_decide_false (d = c)), (bool_decide_false (Some d = Some c)) by congruence.
      case_bool_decide; simpl; [|done]. split; [by apply rep_parent|done].
  - case_bool_decide; simpl; [|done]. split; [by apply rep_parent|done].
Qed.

Lemma runOp_rep o cm m : rep cm m -> op_wf o ->
  rep (runOp cm o) (specOp (m, parentConnection cm) o).1 /\
  parentConnection (runOp cm o) = (specOp (m, parentConnection cm) o).2.
Proof.
  intros R Hw. destruct o as [env [c|] a replace ov|env [c|] replace ov|env [c|]|[c|]|env]; simpl in Hw |- *; try done.
  - by apply add_rep.
  - by apply add_rep.
  - by apply remove_rep.
  - split; [by apply rep_parent|done].
  - split; [by apply rep_health|done].
Qed.

Lemma registry_runs ops cm m : rep cm m -> Forall op_wf ops ->
  rep (foldl runOp cm ops) (foldl specOp (m, parentConnection cm) ops).1 /\
  parentConnection (foldl runOp cm ops) = (foldl specOp (m, parentConnection cm) ops).2.
Proof.
  intros R Hw. revert cm m R. induction Hw as [|o ops Ho Hw IH]; intros cm m R; [done|]. simpl.
  destruct (runOp_rep o cm m R Ho) as [R' P']. destruct (specOp (m, parentConnection cm) o) as [m' p'] eqn:E.
  simpl in *. rewrite <- P'. by apply IH.
Qed.
End Spec.

(** C37 (refinement). The sharded registry is a map: after any history of
    additions, removals, parent changes and health checks on a new registry, the
    lookup by type and address, the listing of a type and its count, and the
    parent connection are those of one map from type and address to connection
    on which the same calls were made. *)
Theorem registry_refines_map `{EthLibLaws} (ops : list regOp) :
  Forall op_wf ops ->
  let cm := foldl runOp NewConnectionsManager ops in
  let s := foldl specOp (∅, None) ops in
  (forall cType a, is_address a -> ConnectionByTypeAndAddress cType a cm = s.1 !! (cType, a)) /\
  (forall cType a, ConnectionsByType cType cm !! a = s.1 !! (cType, a)) /\
  (forall cType, countConnectionsByType cType cm = size (ConnectionsByType cType cm)) /\
  parentConnection cm = s.2.
Proof.
  intros Hw cm s. destruct (registry_runs ops NewConnectionsManager ∅ rep_new Hw) as [R P]. split_and!.
  - intros cType a La. by apply lookup_rep.
  - intros cType. by apply (ConnectionsByType_rep _ _ cType R).
  - intros cType. by apply (ConnectionsByType_rep _ _ cType R).
  - exact P.
Qed.

Definition sampleEnv : ConnEnv :=
  mkEnv (fun c => replicate 19 0 ++ [Zpos c mod 256]) (fun c => if bool_decide (c = 1%positive) then "node"%string else "client"%string)
    (fun c => negb (bool_decide (c = 2%positive))).

Definition sampleOps : list regOp :=
  [OpAdd sampleEnv (Some 1%positive) false ""; OpAdd sampleEnv (Some 2%positive) false "";
   OpAdd sampleEnv (Some 3%positive) false "master_read_only"; OpParent (Some 1%positive); OpTick sampleEnv;
   OpRemove sampleEnv (Some 3%positive); OpRemove sampleEnv (Some 1%positive)].

Lemma registry_refines_map_witness :
  let cm := foldl runOp NewConnectionsManager sampleOps in
  let s := foldl specOp (∅, None) sampleOps in
  (forall cType a, is_address a -> ConnectionByTypeAndAddress cType a cm = s.1 !! (cType, a)) /\
  (forall cType a, ConnectionsByType cType cm !! a = s.1 !! (cType, a)) /\
  (forall cType, countConnectionsByType cType cm = size (ConnectionsByType cType cm)) /\
  parentConnection cm = s.2.
Proof.
  apply (registry_refines_map sampleOps).
  assert (Hw : env_wf sampleEnv).
  { intros c. split; [done|]. apply Forall_app. split.
    - apply Forall_replicate. done.
    - apply Forall_singleton. unfold is_byte. apply Z.mod_pos_bound. done. }
  repeat (apply Forall_cons; split; [done|]). apply Forall_nil. exact I.
Defined.

(** A connection filed under a type of its own ([cTypeOverride]) stays after it
    was removed: removal looks under the type the connection itself answers.
    The statistics report it as "none", the name of index 0. *)
Example overridden_type_stays :
  let cm := foldl runOp NewConnectionsManager sampleOps in
  countConnectionsByType 11 cm = 1%nat /\ Stats cm !! "none"%string = Some 1.
Proof. split; vm_compute; reflexivity. Qed.
