(* ===== verification/ArgumentEncode.v ===== *)
(** * ABI string arguments

    Models [pkg/smart_contract/argument_encode/encoder.go] and [decoder.go]:
    the two string encoders and the string decoder, with the 64-bit arithmetic
    of the bounds checks.  A 256-bit integer is read from and written to
    32-byte big-endian words. *)

From S2P Require Import Prelude Binary.

Local Open Scope Z_scope.

Definition len (b : bytes) : Z := Z.of_nat (length b).

(** [b[i:j]]; out of range is a panic. *)
Definition slice (i j : Z) (b : bytes) : outcome bytes :=
  if (0 <=? i) && (i <=? j) && (j <=? len b)
  then Ok (take (Z.to_nat (j - i)) (drop (Z.to_nat i) b)) else Panic.

(** [uint256.NewInt(0).SetBytes(b).Uint64()] *)
Definition wordUint64 (b : bytes) : Z := wrap64 (bigSetBytes b).

Definition wordSize : Z := 32.

Definition DecodeFuncHash (input : bytes) : outcome (bytes * bytes) :=
  h ← slice 0 4 input; rest ← slice 4 (len input) input; Ok (h, rest).

Definition DecodeStringInput (input : bytes) (idx : Z) : outcome bytes :=
  if (idx <? 0) || (to_int64 (to_int64 (idx + 1) * wordSize) >? len input) then Ok []
  else
    w ← slice (to_int64 (idx * wordSize)) (to_int64 (to_int64 (idx + 1) * wordSize)) input;
    let start := wordUint64 w in
    if wrap64 (start + wordSize) >? len input then Ok []
    else
      w2 ← slice start (wrap64 (start + wordSize)) input;
      let strLen := wordUint64 w2 in
      if wrap64 (wrap64 (start + wordSize) + strLen) >? len input then Ok []
      else slice (wrap64 (start + wordSize)) (wrap64 (wrap64 (start + wordSize) + strLen)) input.

(** [copy(encodedData[:32], n.Bytes())]: the minimal bytes of the number are
    copied to the start of the word. *)
Definition leftWord (n : Z) : bytes := arrayFromBytes 32 (bigBytes n).

(** The padding at the end is copied to an empty slice. *)
Definition EncodeStringInput (input : bytes) : bytes :=
  leftWord 32 ++ leftWord (len input) ++ input.

(** [Bytes32]: the number in a whole word. *)
Definition Bytes32 (n : Z) : bytes := beBytes 32 n.

(** [math.Ceil(float64(len)/32) * 32], exact below 2^53. *)
Definition allocateLen (n : Z) : Z := (n + 31) / 32 * 32.

Definition EncodeSingleString (input : bytes) : bytes :=
  Bytes32 32 ++ Bytes32 (len input) ++ input ++ replicate (Z.to_nat (allocateLen (len input) - len input)) 0.

(** ** Lemmas *)

Lemma slice_app a b c i j :
  i = len a -> j = len a + len b -> slice i j (a ++ b ++ c) = Ok b.
Proof.
  intros -> ->. unfold slice, len. rewrite !length_app.
  rewrite !(proj2 (Z.leb_le _ _)) by lia. cbn [andb]. f_equal.
  rewrite Nat2Z.id, drop_app_length. replace (Z.to_nat _) with (length b) by lia. apply take_app_length.
Qed.

Lemma len_app a b : len (a ++ b) = len a + len b.
Proof. unfold len. rewrite length_app. lia. Qed.

Lemma len_Bytes32 n : len (Bytes32 n) = 32.
Proof. unfold len, Bytes32, beBytes. by rewrite length_reverse, length_leBytes. Qed.

Lemma len_nonneg b : 0 <= len b.
Proof. unfold len. lia. Qed.

Lemma wordUint64_Bytes32 n : 0 <= n < 2 ^ 64 -> wordUint64 (Bytes32 n) = n.
Proof.
  intros Hn. unfold wordUint64, Bytes32, bigSetBytes, beBytes.
  rewrite reverse_involutive, undigits_leBytes.
  rewrite (Z.mod_small n); [by apply wrap64_id|]. split; [lia|].
  eapply Z.lt_le_trans; [apply Hn|]. done.
Qed.

Lemma allocateLen_ge n : 0 <= n -> n <= allocateLen n.
Proof. intros. unfold allocateLen. pose proof (Z.div_mod (n + 31) 32). pose proof (Z.mod_pos_bound (n + 31) 32). lia. Qed.

(** The decoder on an argument laid out as a head word with the offset 32, a
    length word and the string. *)
Lemma Decode_layout w s rest :
  len w = 32 -> wordUint64 w = 32 -> forall w2, len w2 = 32 -> wordUint64 w2 = len s ->
  len s + 64 < 2 ^ 63 -> DecodeStringInput (w ++ w2 ++ s ++ rest) 0 = Ok s.
Proof.
  intros Hw E1 w2 Hw2 E2 Hs. pose proof (len_nonneg rest). pose proof (len_nonneg s).
  unfold DecodeStringInput, wordSize.
  change (to_int64 (to_int64 (0 + 1) * 32)) with 32. change (to_int64 (0 * 32)) with 0. cbn [Z.ltb Z.compare orb].
  rewrite !len_app, Hw, Hw2.
  destruct (Z.gtb_spec 32 (32 + (32 + (len s + len rest)))); [lia|].
  assert (S1 : slice 0 32 (w ++ w2 ++ s ++ rest) = Ok w) by (apply (slice_app [] w); [done|by rewrite Hw]).
  rewrite S1. cbn [mbind outcome_bind]. rewrite E1. change (wrap64 (32 + 32)) with 64.
  destruct (Z.gtb_spec 64 (32 + (32 + (len s + len rest)))); [lia|].
  assert (S2 : slice 32 64 (w ++ w2 ++ s ++ rest) = Ok w2) by (apply (slice_app w w2); lia).
  rewrite S2. cbn [mbind outcome_bind]. rewrite E2, wrap64_id by lia.
  destruct (Z.gtb_spec (64 + len s) (32 + (32 + (len s + len rest)))); [lia|].
  rewrite (app_assoc w w2). apply slice_app; rewrite ?len_app; lia.
Qed.

(** ** Properties *)

(** A string encoded by [EncodeSingleString] is decoded by
    [DecodeStringInput] at index 0, for every string that fits in memory. *)
Theorem string_roundtrip s : len s + 64 < 2 ^ 63 -> DecodeStringInput (EncodeSingleString s) 0 = Ok s.
Proof.
  intros Hs. pose proof (len_nonneg s). unfold EncodeSingleString.
  apply Decode_layout; [apply len_Bytes32|by apply wordUint64_Bytes32|apply len_Bytes32| |done].
  apply wordUint64_Bytes32. lia.
Qed.

Lemma string_roundtrip_witness : DecodeStringInput (EncodeSingleString [104; 105]) 0 = Ok [104; 105].
Proof. apply (string_roundtrip [104; 105]). vm_compute. reflexivity. Defined.

(** [EncodeStringInput] writes its numbers at the wrong end
    of their words: whatever the string, [DecodeStringInput] reads the empty
    string back. *)
Theorem encodeStringInput_lost s : DecodeStringInput (EncodeStringInput s) 0 = Ok [].
Proof.
  unfold EncodeStringInput. set (w := leftWord 32).
  assert (Hw : len w = 32) by reflexivity. assert (E0 : wordUint64 w = 0) by (vm_compute; reflexivity).
  assert (Hw2 : len (leftWord (len s)) = 32) by (unfold len, leftWord; by rewrite length_arrayFromBytes).
  pose proof (len_nonneg s). unfold DecodeStringInput, wordSize.
  change (to_int64 (to_int64 (0 + 1) * 32)) with 32. change (to_int64 (0 * 32)) with 0. cbn [Z.ltb Z.compare orb].
  rewrite !len_app, Hw, Hw2. destruct (Z.gtb_spec 32 (32 + (32 + len s))); [lia|].
  assert (S1 : slice 0 32 (w ++ leftWord (len s) ++ s) = Ok w) by (apply (slice_app [] w); [done|by rewrite Hw]).
  rewrite S1. cbn [mbind outcome_bind]. rewrite E0. change (wrap64 (0 + 32)) with 32.
  destruct (Z.gtb_spec 32 (32 + (32 + len s))); [lia|]. rewrite S1. cbn [mbind outcome_bind]. rewrite E0.
  change (wrap64 (32 + 0)) with 32. destruct (Z.gtb_spec 32 (32 + (32 + len s))); [lia|].
  unfold slice. rewrite !len_app, Hw, Hw2, !(proj2 (Z.leb_le _ _)) by lia. done.
Qed.

(** The 64-bit sum of the bounds check wraps around: an argument with an offset
    close to 2^64 passes it and the slice expression panics. *)
Example decodeStringInput_panics :
  DecodeStringInput (Bytes32 (2 ^ 64 - 16) ++ Bytes32 0) 0 = Panic.
Proof. vm_compute. reflexivity. Qed.
