(* ===== verification/Receipts.v ===== *)
(** * Receipts

    Models [pkg/receipt/receipt.go] (a receipt is a wrapper around its protobuf
    message) and [pkg/receipt/receipts.go]: the receipt store, a map of pending
    receipts over a trie whose nodes are kept in a [Storage].

    Go leaves the order of map iteration and of the results of the worker
    goroutines of [commitInternal] open; the operations take the permutations
    as arguments. *)

From S2P Require Import Prelude Binary TrieEncoding TrieNode TrieTracer Trie TrieHash ArgumentEncode Storage.
From S2P Require Import TrieSpec TrieCanon TrieUpdate TrieCorrect TrieMap TrieHashCorrect TrieCommit TrieTheorems Instances.

Local Open Scope Z_scope.

(** ** A receipt *)

Record PbEventLog := mkEventLog {
  eTransactionHash : bytes;
  eAddress : bytes;
  eData : bytes;
  eTopics : list bytes
}.

Definition RECEIPT_STATUS_RETURNED : Z := 0.
Definition RECEIPT_STATUS_HALTED : Z := 1.
Definition RECEIPT_STATUS_THREW : Z := 2.
Definition RECEIPT_STATUS_TRANSACTION_ERROR : Z := -1.
Definition EXCEPTION_ERR_INVALID_CODE : Z := 11.

(** [pb.Receipt] *)
Record Receipt := mkReceipt {
  rTransactionHash : bytes;
  rFromAddress : bytes;
  rToAddress : bytes;
  rAmount : bytes;
  rStatus : Z;
  rReturn : bytes;
  rException : Z;
  rGasUsed : Z;
  rGasFee : Z;
  rEventLogs : list PbEventLog;
  rTransactionIndex : Z;
  rProcessingType : Z;
  rRHash : bytes
}.

Definition zeroReceipt : Receipt := mkReceipt [] [] [] [] 0 [] 0 0 0 [] 0 0 [].

(** The ASCII codes of the two error texts. *)
Definition ascii_bytes (s : string) : bytes := (fun c => Z.of_nat (Ascii.nat_of_ascii c)) <$> String.list_ascii_of_string s.

(** The status and return value stored for an execution result; [NewReceipt] and
    [UpdateExecuteResult] compute them alike. *)
Definition savedResult (status : Z) (returnValue : bytes) (exception : Z) : Z * bytes :=
  if negb (status =? RECEIPT_STATUS_RETURNED) then
    let saveReturn :=
      if status =? RECEIPT_STATUS_HALTED then EncodeStringInput (ascii_bytes "transaction halted") else returnValue in
    let saveReturn :=
      if exception =? EXCEPTION_ERR_INVALID_CODE
      then EncodeStringInput (ascii_bytes "transaction error invalid code") else saveReturn in
    (RECEIPT_STATUS_TRANSACTION_ERROR, saveReturn)
  else (status, returnValue).

(** The block hash and block number are taken and not used. *)
Definition NewReceipt (transactionHash fromAddress toAddress : bytes) (amount status : Z) (returnValue : bytes)
    (exception gastFee gasUsed : Z) (eventLogs : list PbEventLog) (transactionIndex : Z)
    (blockHash : bytes) (blockNumber : Z) : Receipt :=
  let '(saveStatus, saveReturn) := savedResult status returnValue exception in
  mkReceipt transactionHash fromAddress toAddress (bigBytes amount) saveStatus saveReturn exception gasUsed gastFee
    eventLogs transactionIndex 0 [].

Definition UpdateExecuteResult (status : Z) (returnValue : bytes) (exception gasUsed : Z)
    (eventLogs : list PbEventLog) (r : Receipt) : Receipt :=
  let '(saveStatus, saveReturn) := savedResult status returnValue exception in
  mkReceipt (rTransactionHash r) (rFromAddress r) (rToAddress r) (rAmount r) saveStatus saveReturn exception
    gasUsed (rGasFee r) eventLogs (rTransactionIndex r) (rProcessingType r) (rRHash r).

Definition SetProcessingType (ty : Z) (r : Receipt) : Receipt :=
  mkReceipt (rTransactionHash r) (rFromAddress r) (rToAddress r) (rAmount r) (rStatus r) (rReturn r) (rException r)
    (rGasUsed r) (rGasFee r) (rEventLogs r) (rTransactionIndex r) ty (rRHash r).
Definition SetRHash (h : bytes) (r : Receipt) : Receipt :=
  mkReceipt (rTransactionHash r) (rFromAddress r) (rToAddress r) (rAmount r) (rStatus r) (rReturn r) (rException r)
    (rGasUsed r) (rGasFee r) (rEventLogs r) (rTransactionIndex r) (rProcessingType r) h.
Definition SetToAddress (a : bytes) (r : Receipt) : Receipt :=
  mkReceipt (rTransactionHash r) (rFromAddress r) a (rAmount r) (rStatus r) (rReturn r) (rException r)
    (rGasUsed r) (rGasFee r) (rEventLogs r) (rTransactionIndex r) (rProcessingType r) (rRHash r).
Definition SetReturn (b : bytes) (r : Receipt) : Receipt :=
  mkReceipt (rTransactionHash r) (rFromAddress r) (rToAddress r) (rAmount r) (rStatus r) b (rException r)
    (rGasUsed r) (rGasFee r) (rEventLogs r) (rTransactionIndex r) (rProcessingType r) (rRHash r).

Definition Amount (r : Receipt) : Z := bigSetBytes (rAmount r).
Definition TransactionHash `{EthLib} (r : Receipt) : bytes := BytesToHash (rTransactionHash r).
Definition FromAddress `{EthLib} (r : Receipt) : bytes := BytesToAddress (rFromAddress r).
Definition ToAddress `{EthLib} (r : Receipt) : bytes := BytesToAddress (rToAddress r).
Definition RHash `{EthLib} (r : Receipt) : bytes := BytesToHash (rRHash r).

(** [proto.Marshal] and [proto.Unmarshal] of [pb.Receipt] and [pb.Receipts]. *)
Class ReceiptProto := {
  marshalReceipt : Receipt -> bytes;
  unmarshalReceipt : bytes -> option Receipt;
  marshalReceiptList : list Receipt -> bytes;
  unmarshalReceiptList : bytes -> option (list Receipt)
}.

(** What the code relies on: a marshalled message unmarshals to itself, only a
    message with default fields has no bytes, and no bytes are the message with
    default fields. *)
Class ReceiptProtoLaws `{ReceiptProto} : Prop := {
  receipt_pb r : unmarshalReceipt (marshalReceipt r) = Some r;
  receipt_nonempty r : marshalReceipt r = [] -> rTransactionHash r = [];
  receipt_empty : unmarshalReceipt [] = Some zeroReceipt;
  receiptList_pb rs : unmarshalReceiptList (marshalReceiptList rs) = Some rs
}.

Definition MarshalReceipts `{ReceiptProto} (receipts : list Receipt) : bytes := marshalReceiptList receipts.

Definition UnmarshalReceipts `{ReceiptProto} (data : bytes) : outcome (list Receipt) :=
  match unmarshalReceiptList data with
  | None => Err (ErrText "proto")
  | Some rs => Ok rs
  end.

(** ** The receipt store *)

Definition ErrorReceiptNotFound : GoError := ErrText "receipt not found".

Record Receipts (S : Type) := mkReceipts {
  rtrie : MerklePatriciaTrie;
  rdb : S;
  originRootHash : bytes;
  dirtyReceipts : gmap bytes Receipt;
  receiptBatchPut : bytes
}.
Arguments mkReceipts {S}.
Arguments rtrie {S}.
Arguments rdb {S}.
Arguments originRootHash {S}.
Arguments dirtyReceipts {S}.
Arguments receiptBatchPut {S}.

Section Store.
Context `{EthLib} `{MPTProto} `{ReceiptProto} {S : Type} `{Storage S}.
(** [gob] encoding of a batch, behind [storage.SerializeBatch]. *)
Context (SerializeBatch : list (bytes * bytes) -> option bytes).

Definition setTrie (t : MerklePatriciaTrie) (r : Receipts S) : Receipts S :=
  mkReceipts t (rdb r) (originRootHash r) (dirtyReceipts r) (receiptBatchPut r).
Definition setDirty (d : gmap bytes Receipt) (r : Receipts S) : Receipts S :=
  mkReceipts (rtrie r) (rdb r) (originRootHash r) d (receiptBatchPut r).
Definition setDb (s : S) (r : Receipts S) : Receipts S :=
  mkReceipts (rtrie r) s (originRootHash r) (dirtyReceipts r) (receiptBatchPut r).

Definition SetReceiptBatchPut (batch : bytes) (r : Receipts S) : Receipts S :=
  mkReceipts (rtrie r) (rdb r) (originRootHash r) (dirtyReceipts r) batch.

Definition GetReceiptBatchPut (r : Receipts S) : bytes * Receipts S :=
  (receiptBatchPut r, SetReceiptBatchPut [] r).

(** Run an operation of the trie, which reads nodes from the store. *)
Definition onTrie {A} (f : (bytes -> outcome bytes) -> stm MerklePatriciaTrie A) : stm (Receipts S) A := fun r =>
  let '(o, t) := f (sGet (rdb r)) (rtrie r) in (o, setTrie t r).

Definition NewReceipts (db : S) : outcome (Receipts S) :=
  match NewTrie (sGet db) EmptyRootHash true with
  | Ok t =>
      match HashTrie t with
      | (Ok h, t') => Ok (mkReceipts t' db h ∅ [])
      | (Err e, _) => Err e
      | (Panic, _) => Panic
      | (NoFuel, _) => NoFuel
      end
  | Err _ | Panic => Panic
  | NoFuel => NoFuel
  end.

Definition NewReceiptsFromRoot (root : bytes) (db : S) : outcome (Receipts S) :=
  t ← NewTrie (sGet db) root true; Ok (mkReceipts t db root ∅ []).

Definition ReceiptsRoot : stm (Receipts S) bytes := onTrie (fun _ => HashTrie).

Definition setDirtyReceipt (receipt : Receipt) (r : Receipts S) : Receipts S :=
  setDirty (<[TransactionHash receipt := receipt]> (dirtyReceipts r)) r.

Definition AddReceipt (receipt : Receipt) : stm (Receipts S) unit := modify (setDirtyReceipt receipt).

Definition AddReceipts (receipts : list Receipt) : stm (Receipts S) unit :=
  modify (fun r => foldl (fun r receipt => setDirtyReceipt receipt r) r receipts).

Definition UpdateExecuteResultToReceipt (hash : bytes) (status : Z) (returnValue : bytes) (exception gasUsed : Z)
    (eventLogs : list PbEventLog) : stm (Receipts S) unit := fun r =>
  match dirtyReceipts r !! hash with
  | None => (Err ErrorReceiptNotFound, r)
  | Some receipt =>
      let receipt := UpdateExecuteResult status returnValue exception gasUsed eventLogs receipt in
      (* the map holds the same pointer, so the entry at [hash] changes too *)
      (Ok tt, setDirtyReceipt receipt (setDirty (<[hash := receipt]> (dirtyReceipts r)) r))
  end.

Definition GasUsed (r : Receipts S) : Z :=
  map_fold (fun _ receipt total => wrap64 (total + rGasUsed receipt)) 0 (dirtyReceipts r).

Definition GetReceipt (hash : bytes) : stm (Receipts S) Receipt := fun r =>
  match dirtyReceipts r !! hash with
  | Some receipt => (Ok receipt, r)
  | None =>
      match onTrie (fun db => Trie.Get db hash) r with
      | (Ok data, r') =>
          match unmarshalReceipt (default [] data) with
          | Some receipt => (Ok receipt, r')
          | None => (Err (ErrText "proto"), r')
          end
      | (Err _, r') => (Err ErrorReceiptNotFound, r')
      | (Panic, r') => (Panic, r')
      | (NoFuel, r') => (NoFuel, r')
      end
  end.

Definition Discard : stm (Receipts S) unit := fun r =>
  let r := setDirty ∅ r in
  match NewTrie (sGet (rdb r)) (originRootHash r) true with
  | Ok t => (Ok tt, setTrie t r)
  | Err e => (Err e, r)
  | Panic => (Panic, r)
  | NoFuel => (NoFuel, r)
  end.

(** The loop of [IntermediateRoot] over the pending receipts. *)
Fixpoint updateReceipts (l : list Receipt) : stm (Receipts S) unit :=
  match l with
  | [] => mret tt
  | receipt :: rest =>
      onTrie (fun db => Update db (TransactionHash receipt) (marshalReceipt receipt));;
      updateReceipts rest
  end.

Definition IntermediateRoot (order : list Receipt -> list Receipt) : stm (Receipts S) bytes := fun r =>
  if decide (dirtyReceipts r = ∅) then onTrie (fun _ => HashTrie) r
  else
    (updateReceipts (order (map_to_list (dirtyReceipts r)).*2);;
     modify (setDirty ∅);;
     onTrie (fun _ => HashTrie)) r.

(** The batch made of a node set. *)
Definition nodeBatch (nodes : NodeSet) : list (bytes * bytes) :=
  (fun w => (whash w, wblob w)) <$>
    filter (fun w => whash w <> zeroHash) (map_to_list (Nodes nodes)).*2.

Definition writeBatch (batch : list (bytes * bytes)) : stm (Receipts S) unit := fun r =>
  match batch with
  | [] => (Ok tt, r)
  | _ =>
      match sBatchPut batch (rdb r) with
      | (Ok _, s) =>
          let r := setDb s r in
          (Ok tt, match SerializeBatch batch with Some b => SetReceiptBatchPut b r | None => r end)
      | (Err e, s) => (Err e, setDb s r)
      | (Panic, s) => (Panic, setDb s r)
      | (NoFuel, s) => (NoFuel, setDb s r)
      end
  end.

Definition rootMismatch : GoError := ErrText "root hash mismatch after commit".

(** The last two phases: load the trie at the committed root and keep it. *)
Definition reopen (finalHash : bytes) : stm (Receipts S) bytes := fun r =>
  match NewTrie (sGet (rdb r)) finalHash true with
  | Ok newTrie =>
      (Ok finalHash, mkReceipts newTrie (rdb r) finalHash (dirtyReceipts r) (receiptBatchPut r))
  | Err e => (Err e, r)
  | Panic => (Panic, r)
  | NoFuel => (NoFuel, r)
  end.

Definition writeNodes (shuffle : list (bytes * bytes) -> list (bytes * bytes)) (nodeSet : option NodeSet) :
  stm (Receipts S) unit :=
  match nodeSet with
  | Some nodes => writeBatch (shuffle (nodeBatch nodes))
  | None => mret tt
  end.

Definition commitInternal (order : list Receipt -> list Receipt)
    (shuffle : list (bytes * bytes) -> list (bytes * bytes)) : stm (Receipts S) bytes :=
  intermediateHash ← IntermediateRoot order;
  '(committedHash, nodeSet, _) ← onTrie (fun _ => Commit true);
  if negb (bool_decide (intermediateHash = committedHash)) then lift (Err rootMismatch)
  else writeNodes shuffle nodeSet;; reopen committedHash.
End Store.

(** * Properties of the receipt store

    The store is a client of the trie and of the [Storage] interface: its
    properties follow from the trie's contract and the interface's law, for
    every store that satisfies it. *)

Section Contract.
Context `{EthLibLaws} `{MPTProtoLaws} `{ReceiptProtoLaws} {S : Type} `{StorageLaws S}.
Context (SerializeBatch : list (bytes * bytes) -> option bytes).

(** A receipt filed under its transaction hash. *)
Definition receipt_key (h : bytes) (x : Receipt) : Prop :=
  rTransactionHash x = h /\ length h = 32%nat /\ is_bytes h.

(** The store [r] holds the receipts [M] in its trie, besides the pending ones. *)
Record store_ok (r : Receipts S) (M : gmap bytes Receipt) : Prop := {
  so_trie : trie_rep (sGet (rdb r)) (rtrie r) (marshalReceipt <$> M);
  so_keys : map_Forall receipt_key M;
  so_dirty : map_Forall receipt_key (dirtyReceipts r)
}.

(** What a reader of the store sees: pending receipts hide committed ones. *)
Definition visible (r : Receipts S) (M : gmap bytes Receipt) : gmap bytes Receipt := dirtyReceipts r ∪ M.

Lemma visible_keys r M : store_ok r M -> map_Forall receipt_key (visible r M).
Proof. intros [_ Hk Hd]. by apply map_Forall_union_2. Qed.

Lemma hashKey_32 t k : length k = 32%nat -> hashKey t k = k.
Proof. intros Hk. unfold hashKey. by rewrite Hk. Qed.

Lemma marshal_nonempty h x : receipt_key h x -> marshalReceipt x <> [].
Proof. intros (E & Hl & _) Hm. apply receipt_nonempty in Hm. rewrite <- E, Hm in Hl. done. Qed.

Lemma TransactionHash_key h x : receipt_key h x -> TransactionHash x = h.
Proof. intros (E & Hl & _). unfold TransactionHash. rewrite E. by apply BytesToHash_id. Qed.

(** ** Reading *)

Lemma GetReceipt_ok r M h :
  store_ok r M -> length h = 32%nat -> is_bytes h ->
  exists r', GetReceipt h r = (Ok (default zeroReceipt (visible r M !! h)), r') /\
    store_ok r' M /\ dirtyReceipts r' = dirtyReceipts r.
Proof.
  intros Hok Hl Hb. pose proof Hok as [(T & HT & R) Hk Hd]. unfold GetReceipt, visible.
  destruct (dirtyReceipts r !! h) as [x|] eqn:Ed.
  { exists r. erewrite lookup_union_Some_l by done. done. }
  rewrite lookup_union_r by done.
  destruct (Get_tree _ _ _ h HT) as (t' & E & _ & HT' & _); [by rewrite hashKey_32|].
  rewrite hashKey_32, (rep_lookup _ _ R), lookup_fmap in E by done. unfold onTrie. rewrite E.
  exists (setTrie t' r). split; [|split; [split; [by exists T|done|done]|done]].
  destruct (M !! h) as [x|]; cbn; [by rewrite receipt_pb|by rewrite receipt_empty].
Qed.

(** ** Writing the pending receipts to the trie *)

Definition filed (x : Receipt) : bytes * bytes := (rTransactionHash x, marshalReceipt x).

Lemma updateReceipts_ok l : forall r m,
  trie_rep (sGet (rdb r)) (rtrie r) m -> Forall (fun x => receipt_key (rTransactionHash x) x) l ->
  exists r', updateReceipts l r = (Ok tt, r') /\
    trie_rep (sGet (rdb r)) (rtrie r') (mapUpdates (filed <$> l) m) /\
    rdb r' = rdb r /\ dirtyReceipts r' = dirtyReceipts r.
Proof.
  induction l as [|x l IH]; intros r m R Hl; [by eexists|].
  apply Forall_cons in Hl as [Hx Hl]. destruct R as (T & HT & R). pose proof Hx as (_ & Hlen & Hb).
  destruct (Update_tree _ _ _ (TransactionHash x) (marshalReceipt x) HT) as (t' & T' & E & HT' & _ & Hu);
    [by rewrite (TransactionHash_key _ _ Hx), hashKey_32|].
  rewrite (TransactionHash_key _ _ Hx), hashKey_32 in Hu by done.
  assert (Eo : onTrie (fun db => Update db (TransactionHash x) (marshalReceipt x)) r = (Ok tt, setTrie t' r)).
  { unfold onTrie. by rewrite E. }
  cbn [updateReceipts]. rewrite (stm_bind_Ok _ _ _ _ _ Eo).
  destruct (IH (setTrie t' r) (mapUpdates [filed x] m)) as (r' & E' & R' & Hd & Hdir); [|done|by exists r'].
  exists T'. split; [done|]. by eapply rep_update.
Qed.

Lemma mapUpdates_filed (order : list Receipt -> list Receipt) (d M : gmap bytes Receipt) :
  map_Forall receipt_key d -> (forall l, order l ≡ₚ l) ->
  mapUpdates (filed <$> order (map_to_list d).*2) (marshalReceipt <$> M) = marshalReceipt <$> (d ∪ M).
Proof.
  intros Hd Ho.
  assert (Hp : filed <$> order (map_to_list d).*2 ≡ₚ (fun hx => (hx.1, marshalReceipt hx.2)) <$> map_to_list d).
  { rewrite Ho, <- list_fmap_compose. match goal with |- ?a ≡ₚ ?b => enough (E : a = b) by (by rewrite E) end. apply list_fmap_ext. intros i [h x] Hi.
    apply list_elem_of_lookup_2, elem_of_map_to_list in Hi. destruct (Hd _ _ Hi) as [E _]. unfold filed, compose. cbn. by rewrite E. }
  assert (Hn : NoDup ((fun hx => (hx.1, marshalReceipt hx.2)) <$> map_to_list d).*1).
  { rewrite <- list_fmap_compose. apply NoDup_fst_map_to_list. }
  rewrite (mapUpdates_perm _ _ _ Hp) by (by rewrite Hp).
  apply map_eq. intros h. rewrite lookup_fmap. destruct (d !! h) as [x|] eqn:Eh.
  - erewrite lookup_union_Some_l by done. rewrite (mapUpdates_in _ h (marshalReceipt x)); [|done|].
    + pose proof (marshal_nonempty _ _ (Hd _ _ Eh)). cbn. by destruct (marshalReceipt x).
    + apply list_elem_of_fmap. exists (h, x). split; [done|]. by apply elem_of_map_to_list.
  - rewrite lookup_union_r by done. rewrite mapUpdates_notin; [by rewrite lookup_fmap|].
    intros Hin. apply list_elem_of_fmap in Hin as ([h' v] & -> & Hin).
    apply list_elem_of_fmap in Hin as ([h2 x] & [= -> ->] & Hin). apply elem_of_map_to_list in Hin. cbn in *. congruence.
Qed.

(** ** Intermediate root *)

Lemma onTrie_hash (r : Receipts S) T :
  trie_ok (sGet (rdb r)) (rtrie r) T ->
  exists t', onTrie (fun _ => HashTrie) r = (Ok (phash T), setTrie t' r) /\ trie_ok (sGet (rdb r)) t' T.
Proof.
  intros HT. destruct (HashTrie_correct _ _ _ HT) as (t' & E & HT' & _). exists t'.
  unfold onTrie. by rewrite E.
Qed.

Lemma IntermediateRoot_ok order r M :
  store_ok r M -> (forall l, order l ≡ₚ l) ->
  exists T r', IntermediateRoot order r = (Ok (phash T), r') /\ rep T (marshalReceipt <$> visible r M) /\
    trie_ok (sGet (rdb r')) (rtrie r') T /\ rdb r' = rdb r /\ dirtyReceipts r' = ∅.
Proof.
  intros Hok Ho. pose proof Hok as [R Hk Hd]. unfold IntermediateRoot, visible.
  destruct (decide (dirtyReceipts r = ∅)) as [Ed|Hne].
  - destruct R as (T & HT & R). destruct (onTrie_hash r T HT) as (t' & E & HT').
    exists T, (setTrie t' r). rewrite Ed, map_empty_union. by split_and!.
  - destruct (updateReceipts_ok (order (map_to_list (dirtyReceipts r)).*2) r _ R) as (r1 & E1 & R1 & Hdb & Hdir).
    { rewrite Ho. apply Forall_fmap, Forall_forall. intros [h x] Hin%elem_of_map_to_list.
      destruct (Hd _ _ Hin) as [<- ?]. by split. }
    rewrite (stm_bind_Ok _ _ _ _ _ E1). rewrite (stm_bind_Ok (modify (setDirty ∅)) _ _ _ _ eq_refl).
    rewrite (mapUpdates_filed order _ M Hd Ho), <- Hdb in R1. destruct R1 as (T & HT & R1).
    destruct (onTrie_hash (setDirty ∅ r1) T HT) as (t' & E & HT').
    exists T, (setTrie t' (setDirty ∅ r1)). rewrite E. by split_and!.
Qed.

(** ** Writing the node set *)

Lemma lastBinding_Some k v kvs : lastBinding k kvs = Some v -> (k, v) ∈ kvs.
Proof.
  revert v. induction kvs as [|[k' w] kvs IH]; intros v; cbn; [done|].
  destruct (lastBinding k kvs) as [w'|]; [intros [= ->]; right; by apply IH|].
  case_decide; [|done]. intros [= ->]. subst. left.
Qed.

Lemma lastBinding_is_Some k v kvs : (k, v) ∈ kvs -> is_Some (lastBinding k kvs).
Proof.
  induction kvs as [|[k' w] kvs IH]; [by rewrite elem_of_nil|]. rewrite elem_of_cons. cbn.
  intros [[= <- <-]|Hin]; [|by destruct (IH Hin) as [? ->]].
  destruct (lastBinding k kvs); [done|]. by rewrite decide_True.
Qed.

(** No node of [T] shares its hash with another node of [T], or with a node in
    the database, that has a different blob. *)
Definition no_clash (db : bytes -> outcome bytes) (T : ptree) : Prop :=
  forall u, u ∈ subtrees T -> wfN u ->
    (forall v, v ∈ subtrees T -> wfN v -> phash v = phash u -> pblob v = pblob u) /\
    (forall t, stored db t -> wfN t -> phash t = phash u -> pblob t = pblob u).

Lemma nonzero_subtrees T u : nonzero T -> u ∈ subtrees T -> nonzero u.
Proof.
  intros Hz. induction Hz as [|v|k t Hne Hz IH|ts Hne Hz IH]; cbn; intros Hu.
  - apply list_elem_of_singleton in Hu as ->. constructor.
  - apply list_elem_of_singleton in Hu as ->. constructor.
  - apply elem_of_cons in Hu as [->|Hu]; [by constructor|by apply IH].
  - apply elem_of_cons in Hu as [->|Hu]; [by constructor|].
    apply list_elem_of_join in Hu as (us & Hu & Hin). apply list_elem_of_fmap in Hin as (t & -> & Hin).
    apply list_elem_of_lookup in Hin as [i Hi]. by eapply IH.
Qed.

Lemma nonzero_wfN u : nonzero u -> wfN u -> phash u <> zeroHash.
Proof. intros Hz Hw. destruct Hz as [| | |]; [by inversion Hw..|done|done]. Qed.

(** The entries of the batch are the nodes of [T]. *)
Lemma nodeBatch_good T nodes k v :
  good T nodes -> (k, v) ∈ nodeBatch nodes ->
  exists u, u ∈ subtrees T /\ wfN u /\ k = phash u /\ v = pblob u.
Proof.
  intros Hg Hin. unfold nodeBatch in Hin. apply list_elem_of_fmap in Hin as (w & [= -> ->] & Hin).
  apply list_elem_of_filter in Hin as [Hz Hin]. apply list_elem_of_fmap in Hin as ([p w'] & -> & Hin).
  apply elem_of_map_to_list in Hin. destruct (Hg _ _ Hin) as [->|(u & Hu & Hw & ->)]; [done|]. by exists u.
Qed.

Lemma good_nodeBatch T nodes p w :
  good T nodes -> nonzero T -> Nodes nodes !! p = Some w -> IsDeleted w = false ->
  exists u, u ∈ subtrees T /\ wfN u /\ w = New (phash u) (pblob u) /\ (phash u, pblob u) ∈ nodeBatch nodes.
Proof.
  intros Hg Hz Hp Hd. destruct (Hg _ _ Hp) as [->|(u & Hu & Hw & ->)]; [done|].
  exists u. split_and!; [done..|]. unfold nodeBatch. apply list_elem_of_fmap.
  exists (New (phash u) (pblob u)). split; [done|]. apply list_elem_of_filter. split.
  - apply nonzero_wfN; [by eapply nonzero_subtrees|done].
  - apply list_elem_of_fmap. exists (p, New (phash u) (pblob u)). split; [done|]. by apply elem_of_map_to_list.
Qed.

Section Batch.
Context (T : ptree) (nodes : NodeSet) (batch : list (bytes * bytes)) (s s' : S).
Context (Hgood : good T nodes) (Hz : nonzero T) (Hclash : no_clash (sGet s) T).
Context (Hbatch : batch ≡ₚ nodeBatch nodes) (Hput : sBatchPut batch s = (Ok tt, s')).

Lemma batch_node k v : lastBinding k batch = Some v -> exists u, u ∈ subtrees T /\ wfN u /\ k = phash u /\ v = pblob u.
Proof. intros Hl%lastBinding_Some. rewrite Hbatch in Hl. by eapply nodeBatch_good. Qed.

Lemma batch_get k : length k = 32%nat -> sGet s' k = match lastBinding k batch with Some v => Ok v | None => sGet s k end.
Proof.
  intros Hk. eapply sBatchPut_get; [done| |done]. rewrite Hbatch. apply Forall_forall. intros [k' v] Hin.
  destruct (nodeBatch_good _ _ _ _ Hgood Hin) as (u & _ & Hw & -> & _). by apply phash_len.
Qed.

Lemma batch_holds : holds (sGet s') nodes.
Proof.
  intros p w Hp Hd. destruct (good_nodeBatch _ _ _ _ Hgood Hz Hp Hd) as (u & Hu & Hw & -> & Hin). cbn.
  rewrite batch_get by (by apply phash_len). rewrite <- Hbatch in Hin.
  destruct (lastBinding_is_Some _ _ _ Hin) as [v Ev]. rewrite Ev.
  destruct (batch_node _ _ Ev) as (u' & Hu' & Hw' & E & ->). f_equal.
  by apply (proj1 (Hclash u Hu Hw) u').
Qed.

(** A node of a stored tree is still there after the batch. *)
Lemma batch_keeps_node t : stored (sGet s) t -> wfN t -> sGet s' (phash t) = Ok (pblob t).
Proof.
  intros Hs Hw. rewrite batch_get by (by apply phash_len).
  destruct (lastBinding (phash t) batch) as [v|] eqn:Ev; [|by apply stored_db].
  destruct (batch_node _ _ Ev) as (u & Hu & Hwu & E & ->). f_equal. symmetry.
  by apply (proj2 (Hclash u Hu Hwu) t).
Qed.

Lemma batch_keeps : keeps (sGet s) (sGet s').
Proof.
  intros t Hs. pose proof batch_keeps_node as Hn.
  induction Hs as [k v Hd Hne|k ts Hd Hne Hs IH|ts Hd Hne Hs IH H16]; intros Hw.
  - constructor; [|done]. apply Hn; [by constructor|done].
  - constructor; [apply Hn; [by constructor|done]|done|]. apply IH. by inversion Hw.
  - constructor; [apply Hn; [by constructor|done]|done| |done].
    intros i t Hi Ht Hnt. apply (IH i t); [done..|]. destruct (wfN_child _ _ _ Hw Hi Ht); [done|done].
Qed.
End Batch.

(** ** Commit *)

Lemma writeNodes_ok shuffle T nodes r :
  (forall l, shuffle l ≡ₚ l) -> nonzero T -> no_clash (sGet (rdb r)) T ->
  match nodes with None => True | Some ns => good T ns end ->
  (forall batch, exists s', sBatchPut batch (rdb r) = (Ok tt, s')) ->
  exists r', writeNodes SerializeBatch shuffle nodes r = (Ok tt, r') /\ dirtyReceipts r' = dirtyReceipts r /\
    keeps (sGet (rdb r)) (sGet (rdb r')) /\ match nodes with None => True | Some ns => holds (sGet (rdb r')) ns end.
Proof.
  intros Hs Hz Hc Hg Hput. destruct nodes as [ns|]; cbn [writeNodes]; [|exists r; split_and!; [done|done|by intros t ? _|done]].
  assert (Hb : shuffle (nodeBatch ns) ≡ₚ nodeBatch ns) by apply Hs.
  destruct (Hput (shuffle (nodeBatch ns))) as [s' Es].
  pose proof (batch_holds T ns _ _ _ Hg Hz Hc Hb Es) as Hh.
  pose proof (batch_keeps T ns _ _ _ Hg Hc Hb Es) as Hk.
  unfold writeBatch. destruct (shuffle (nodeBatch ns)) as [|kv kvs] eqn:Ebatch.
  - exists r. split_and!; [done|done|by intros t ? _|].
    intros p w Hp Hd. destruct (good_nodeBatch _ _ _ _ Hg Hz Hp Hd) as (u & _ & _ & _ & Hin).
    rewrite <- Hb in Hin. by apply elem_of_nil in Hin.
  - rewrite Es. eexists. split; [reflexivity|]. destruct (SerializeBatch (kv :: kvs)); by split_and!.
Qed.

Lemma commitInternal_ok order shuffle r M :
  store_ok r M -> visible r M <> ∅ -> (forall l, order l ≡ₚ l) -> (forall l, shuffle l ≡ₚ l) ->
  (forall T, wf T -> rep T (marshalReceipt <$> visible r M) ->
     nonzero T /\ phash T <> EmptyRootHash /\ no_clash (sGet (rdb r)) T) ->
  (forall batch, exists s', sBatchPut batch (rdb r) = (Ok tt, s')) ->
  exists h r', commitInternal SerializeBatch order shuffle r = (Ok h, r') /\
    store_ok r' (visible r M) /\ dirtyReceipts r' = ∅ /\ originRootHash r' = h /\
    exists r2, NewReceiptsFromRoot h (rdb r') = Ok r2 /\ store_ok r2 (visible r M) /\ dirtyReceipts r2 = ∅.
Proof.
  intros Hok Hne Ho Hsh HT Hput. pose proof (visible_keys r M Hok) as Hvk.
  destruct (IntermediateRoot_ok order r M Hok Ho) as (T & r1 & E1 & R & HTok & Hdb1 & Hd1).
  pose proof HTok as [_ W _]. destruct (HT T W R) as (Hz & Hemp & Hclash).
  assert (H16 : no16 T).
  { apply (rep_no16 T _ 32%nat W R). intros s v. rewrite lookup_fmap_Some. intros (x & _ & Hx).
    by destruct (Hvk _ _ Hx) as (_ & ? & _). }
  assert (WN : wfN T).
  { destruct W as [->|W]; [|done]. destruct Hne. pose proof (rep_map_unique _ _ _ R rep_empty) as E.
    by apply fmap_empty_inv in E. }
  assert (HN : T <> PNil) by (intros ->; inversion WN).
  destruct (Commit_nonempty _ true _ _ HTok HN Hz H16) as (nodes & t2 & E2 & HTok2 & Hcov & Hgood).
  assert (Eo : onTrie (fun _ => Commit true) r1 = (Ok (phash T, nodes, oldKeys (tracer (rtrie r1))), setTrie t2 r1)).
  { unfold onTrie. by rewrite E2. }
  unfold commitInternal. rewrite (stm_bind_Ok _ _ _ _ _ E1), (stm_bind_Ok _ _ _ _ _ Eo).
  rewrite bool_decide_eq_true_2 by done. cbn [negb].
  destruct (writeNodes_ok shuffle T nodes (setTrie t2 r1)) as (r3 & E3 & Hd3 & Hkeep & Hhold);
    [done|done|by cbn; rewrite Hdb1|done|by cbn; rewrite Hdb1|].
  rewrite (stm_bind_Ok _ _ _ _ _ E3).
  pose proof (Hcov _ Hkeep Hhold) as Hst.
  destruct (NewTrie_stored _ T true Hst WN Hemp) as (t4 & E4 & HTok4 & _).
  assert (Hrep : trie_rep (sGet (rdb r3)) t4 (marshalReceipt <$> visible r M)) by (by exists T).
  unfold reopen. rewrite E4. do 2 eexists. split; [reflexivity|]. cbn in Hd3.
  split_and!; [split; [done|done|cbn; by rewrite Hd3, Hd1; apply map_Forall_empty]|cbn; congruence|done|].
  unfold NewReceiptsFromRoot. cbn [rdb]. rewrite E4. eexists. split; [reflexivity|].
  split; [split; [done|done|apply map_Forall_empty]|done].
Qed.
End Contract.

(** ** Properties *)

(** [GetReceipt] returns the pending receipt of a hash,
    else the committed one, else, without an error, the receipt with all
    fields empty: the trie answers nil for an unknown hash, and nil unmarshals
    to an empty message. *)
Theorem receipts_get `{EthLibLaws} `{MPTProtoLaws} `{ReceiptProtoLaws} {S} `{StorageLaws S} (r : Receipts S) M h :
  store_ok r M -> length h = 32%nat -> is_bytes h ->
  exists r', GetReceipt h r = (Ok (default zeroReceipt (visible r M !! h)), r') /\ store_ok r' M.
Proof.
  intros Hok Hl Hb. destruct (GetReceipt_ok r M h Hok Hl Hb) as (r' & E & Hok' & _). eauto.
Qed.

(** [IntermediateRoot] moves every pending receipt into
    the trie and returns a root that does not depend on the order in which the
    pending map is ranged over. *)
Theorem receipts_root_order `{EthLibLaws} `{MPTProtoLaws} `{ReceiptProtoLaws} {S} `{StorageLaws S}
    order1 order2 (r : Receipts S) M :
  store_ok r M -> (forall l, order1 l ≡ₚ l) -> (forall l, order2 l ≡ₚ l) ->
  exists h r1 r2, IntermediateRoot order1 r = (Ok h, r1) /\ IntermediateRoot order2 r = (Ok h, r2) /\
    store_ok r1 (visible r M) /\ store_ok r2 (visible r M) /\ dirtyReceipts r1 = ∅ /\ dirtyReceipts r2 = ∅.
Proof.
  intros Hok P1 P2. pose proof (visible_keys r M Hok) as Hvk.
  destruct (IntermediateRoot_ok order1 r M Hok P1) as (T1 & r1 & E1 & R1 & O1 & _ & D1).
  destruct (IntermediateRoot_ok order2 r M Hok P2) as (T2 & r2 & E2 & R2 & O2 & _ & D2).
  rewrite (rep_unique T2 T1 _ (ok_wf _ _ _ O2) (ok_wf _ _ _ O1) R2 R1) in E2.
  exists (phash T1), r1, r2. split_and!; [done|done| | |done|done].
  - split; [by exists T1|done|rewrite D1; apply map_Forall_empty].
  - split; [by exists T2|done|rewrite D2; apply map_Forall_empty].
Qed.

(** C16 (refinement). [Commit] on any store that satisfies the storage
    law, with a non-empty set of visible receipts and a batch write that
    succeeds: it returns a root hash, all receipts that were visible are then
    in the trie and in the store, nothing is pending, and a receipt store opened
    later at the returned root sees exactly the same receipts, whatever the
    order of map iteration and of the worker goroutines.  (No node may hash to
    the two marker hashes or clash with a different node of the same hash.) *)
Theorem receipts_commit `{EthLibLaws} `{MPTProtoLaws} `{ReceiptProtoLaws} {S} `{StorageLaws S}
    SerializeBatch order shuffle (r : Receipts S) M :
  store_ok r M -> visible r M <> ∅ -> (forall l, order l ≡ₚ l) -> (forall l, shuffle l ≡ₚ l) ->
  (forall T, wf T -> rep T (marshalReceipt <$> visible r M) ->
     nonzero T /\ phash T <> EmptyRootHash /\ no_clash (sGet (rdb r)) T) ->
  (forall batch, exists s', sBatchPut batch (rdb r) = (Ok tt, s')) ->
  exists h r', commitInternal SerializeBatch order shuffle r = (Ok h, r') /\
    store_ok r' (visible r M) /\ dirtyReceipts r' = ∅ /\ originRootHash r' = h /\
    exists r2, NewReceiptsFromRoot h (rdb r') = Ok r2 /\ store_ok r2 (visible r M) /\ dirtyReceipts r2 = ∅.
Proof. apply commitInternal_ok. Qed.

(** ** Witnesses *)

(** Length-prefixed messages. *)
Definition frames (bs : list bytes) : bytes := mjoin (framed <$> bs).
Definition unframes (b : bytes) : list bytes := unframeAll (length b) b.

Lemma unframes_frames bs : unframes (frames bs) = bs.
Proof. apply unframeAll_framed, length_framed. Qed.

Definition eventLogBytes (e : PbEventLog) : bytes :=
  frames [eTransactionHash e; eAddress e; eData e; frames (eTopics e)].

Definition eventLogOf (b : bytes) : PbEventLog :=
  match unframes b with
  | [h; a; d; ts] => mkEventLog h a d (unframes ts)
  | _ => mkEventLog [] [] [] []
  end.

Lemma eventLogOf_bytes e : eventLogOf (eventLogBytes e) = e.
Proof. unfold eventLogOf, eventLogBytes. rewrite !unframes_frames. by destruct e. Qed.

Definition receiptBytes (r : Receipt) : bytes :=
  frames [rTransactionHash r; rFromAddress r; rToAddress r; rAmount r; rReturn r; rRHash r;
          [rStatus r; rException r; rGasUsed r; rGasFee r; rTransactionIndex r; rProcessingType r];
          frames (eventLogBytes <$> rEventLogs r)].

Definition receiptOf (b : bytes) : option Receipt :=
  match unframes b with
  | [] => Some zeroReceipt
  | [h; f; t; a; ret; rh; [st; ex; gu; gf; ti; pt]; es] =>
      Some (mkReceipt h f t a st ret ex gu gf (eventLogOf <$> unframes es) ti pt rh)
  | _ => None
  end.

Lemma receiptOf_bytes r : receiptOf (receiptBytes r) = Some r.
Proof.
  unfold receiptOf, receiptBytes. rewrite !unframes_frames, <- list_fmap_compose.
  rewrite (list_fmap_ext _ id), list_fmap_id; [by destruct r|]. intros i e _. apply eventLogOf_bytes.
Qed.

#[export] Instance toyReceiptProto : ReceiptProto := {|
  marshalReceipt := receiptBytes;
  unmarshalReceipt := receiptOf;
  marshalReceiptList rs := frames (receiptBytes <$> rs);
  unmarshalReceiptList b := mapM receiptOf (unframes b)
|}.

#[export] Instance toyReceiptProtoLaws : ReceiptProtoLaws.
Proof.
  split.
  - apply receiptOf_bytes.
  - intros r. done.
  - done.
  - intros rs. cbn [marshalReceiptList unmarshalReceiptList toyReceiptProto]. rewrite unframes_frames. apply mapM_Some. induction rs; constructor; [apply receiptOf_bytes|done].
Qed.

Definition hash1 : bytes := replicate 32 17.
Definition hash2 : bytes := replicate 31 17 ++ [18].
Definition receipt1 : Receipt := NewReceipt hash1 [] [] 5 0 [] 0 1 2 [] 0 [] 0.
Definition receipt2 : Receipt := NewReceipt hash2 [] [] 0 2 [] 0 1 1 [] 1 [] 0.

Definition newStore : Receipts MemoryDB :=
  mkReceipts (freshTrie true) NewMemoryDb EmptyRootHash ∅ [].
Definition pendingStore : Receipts MemoryDB := (AddReceipts [receipt1; receipt2] newStore).2.

Lemma hash_key x h : rTransactionHash x = h -> bool_decide (length h = 32%nat /\ is_bytes h) = true -> receipt_key h x.
Proof. intros E Hb. split; [done|]. by apply bool_decide_eq_true in Hb. Qed.

Lemma pendingStore_ok : store_ok pendingStore ∅.
Proof.
  split; [rewrite fmap_empty; apply freshTrie_rep|apply map_Forall_empty|].
  intros h x Hx. change (dirtyReceipts pendingStore) with (<[hash2 := receipt2]> (<[hash1 := receipt1]> (∅ : gmap bytes Receipt))) in Hx.
  rewrite !lookup_insert_Some, lookup_empty in Hx.
  destruct Hx as [[<- <-]|(_ & [[<- <-]|(_ & ?)])]; [|..|done]; (apply hash_key; [reflexivity|vm_compute; reflexivity]).
Qed.

Lemma receipts_get_witness : (GetReceipt hash1 pendingStore).1 = Ok receipt1.
Proof.
  destruct (receipts_get pendingStore ∅ hash1 pendingStore_ok) as (r' & E & _).
  - reflexivity.
  - apply (bool_decide_unpack _). vm_compute. exact I.
  - rewrite E. reflexivity.
Defined.

(** An unknown hash: an empty receipt and no error. *)
Example receipts_get_unknown : (GetReceipt (replicate 32 9) newStore).1 = Ok zeroReceipt.
Proof. vm_compute. reflexivity. Qed.

Lemma receipts_root_order_witness :
  (IntermediateRoot (fun l => l) pendingStore).1 = (IntermediateRoot reverse pendingStore).1.
Proof.
  destruct (receipts_root_order (fun l => l) reverse pendingStore ∅ pendingStore_ok) as (h & r1 & r2 & E1 & E2 & _).
  - done.
  - apply reverse_Permutation.
  - rewrite E1, E2. reflexivity.
Defined.

(** The tree of the two receipts, and the conditions on its hashes. *)
Definition pendingOps : list mapOp :=
  [OpUpdate hash1 (marshalReceipt receipt1); OpUpdate hash2 (marshalReceipt receipt2)].
Definition pendingTree : ptree := erase (root (runOps pendingOps)).

Definition selfClashFree (T : ptree) : bool :=
  let hs := (fun u => (phash u, pblob u)) <$> subtrees T in
  forallb (fun x => forallb (fun y => bool_decide (y.1 = x.1 -> y.2 = x.2)) hs) hs.

Lemma no_clash_empty T : selfClashFree T = true -> no_clash (sGet NewMemoryDb) T.
Proof.
  unfold selfClashFree. rewrite forallb_forall. intros Hc u Hu _. split.
  - intros v Hv _.
    assert (Hin : forall w, w ∈ subtrees T -> In (phash w, pblob w) ((fun u => (phash u, pblob u)) <$> subtrees T)).
    { intros w Hw. apply list_elem_of_In, list_elem_of_fmap. by exists w. }
    specialize (Hc _ (Hin u Hu)). rewrite forallb_forall in Hc.
    specialize (Hc _ (Hin v Hv)). by apply bool_decide_eq_true in Hc.
  - intros t Hs. apply stored_db in Hs as [Hs _]. discriminate Hs.
Qed.

Lemma pendingTree_rep : wf pendingTree /\ rep pendingTree (marshalReceipt <$> visible pendingStore ∅).
Proof.
  destruct (runOps_ok pendingOps) as [[_ W _] R].
  - apply (bool_decide_unpack _). vm_compute. exact I.
  - vm_compute. reflexivity.
  - split; [exact W|].
    replace (marshalReceipt <$> visible pendingStore ∅) with (specOps (fun k => k) pendingOps ∅).2; [exact R|].
    apply (bool_decide_unpack _). vm_compute. exact I.
Qed.

Lemma receipts_commit_witness :
  exists h r' r2, commitInternal (fun _ => None) reverse reverse pendingStore = (Ok h, r') /\
    NewReceiptsFromRoot h (rdb r') = Ok r2 /\ store_ok r2 (visible pendingStore ∅).
Proof.
  destruct (receipts_commit (fun _ => None) reverse reverse pendingStore ∅ pendingStore_ok)
    as (h & r' & E & _ & _ & _ & r2 & E2 & Hok2 & _).
  - intros E. apply (f_equal (lookup hash1)) in E. vm_compute in E. discriminate E.
  - apply reverse_Permutation.
  - apply reverse_Permutation.
  - intros T W R. destruct pendingTree_rep as [W0 R0]. rewrite (rep_unique T pendingTree _ W W0 R R0).
    split_and!.
    + apply nonzerob_sound. vm_compute. reflexivity.
    + apply (bool_decide_unpack _). vm_compute. exact I.
    + apply no_clash_empty. vm_compute. reflexivity.
  - intros batch. apply BatchPut_Ok.
  - exists h, r', r2. split; [exact E|]. split; [exact E2|exact Hok2].
Defined.
