(* ===== verification/SmartContract.v ===== *)
(** * Execution results and event logs

    Models [pkg/smart_contract]: [event_log.go], [event_logs.go],
    [execute_sc_result.go], [execute_sc_results.go],
    [smart_contract_update_data.go], [smart_contract_update_datas.go] and
    [touched_addresses_data.go]: the data a contract execution leaves, their
    protobuf forms and hashes.

    A Go string that is a map key is its bytes.  An [EventLog] is a wrapper of
    its message and is identified with it. *)

From S2P Require Import Prelude Receipts.

Local Open Scope Z_scope.

(** ** Messages *)

Abbreviation strmap := (gmap bytes bytes).

Record PbStorageData := mkStorageData { sdKey : bytes; sdValue : bytes }.

(** [pb.ExecuteSCResult] *)
Record PbExecuteSCResult := mkPbResult {
  pxTransactionHash : bytes;
  pxMapAddBalance : strmap;
  pxMapSubBalance : strmap;
  pxMapCodeHash : strmap;
  pxMapStorageRoot : strmap;
  pxLogsHash : bytes;
  pxStatus : Z;
  pxException : Z;
  pxReturn : bytes;
  pxGasUsed : Z;
  pxMapTouched : gmap bytes (list bytes);
  pxMapStorageAddress : strmap;
  pxMapCreatorPubkey : strmap;
  pxMapNative : gmap bytes (list PbStorageData);
  pxEventLogs : list PbEventLog
}.

(** [pb.SmartContractUpdateData] *)
Record PbUpdateData := mkPbUpdate { puCode : bytes; puStorage : strmap; puEventLogs : list PbEventLog }.

(** The codec of the messages; the deterministic form is a function. *)
Class ScProto := {
  marshalEventLog : PbEventLog -> bytes;
  unmarshalEventLog : bytes -> option PbEventLog;
  marshalEventLogs : list PbEventLog -> bytes;
  unmarshalEventLogs : bytes -> option (list PbEventLog);
  marshalMapEventLogs : gmap bytes (list PbEventLog) -> bytes;
  unmarshalMapEventLogs : bytes -> option (gmap bytes (list PbEventLog));
  marshalLogHashes : list bytes -> bytes;
  marshalResult : PbExecuteSCResult -> bytes;
  unmarshalResult : bytes -> option PbExecuteSCResult;
  marshalResults : list PbExecuteSCResult * Z * Z -> bytes;
  unmarshalResults : bytes -> option (list PbExecuteSCResult * Z * Z);
  marshalUpdateDatas : gmap bytes PbUpdateData * Z -> bytes;
  unmarshalUpdateDatas : bytes -> option (gmap bytes PbUpdateData * Z);
  marshalTouched : Z * list bytes -> bytes;
  unmarshalTouched : bytes -> option (Z * list bytes)
}.

(** Messages whose map keys, protobuf strings, are text. *)
Definition result_text (r : PbExecuteSCResult) : Prop :=
  textKeys (pxMapAddBalance r) /\ textKeys (pxMapSubBalance r) /\ textKeys (pxMapCodeHash r) /\
  textKeys (pxMapStorageRoot r) /\ textKeys (pxMapTouched r) /\ textKeys (pxMapStorageAddress r) /\
  textKeys (pxMapCreatorPubkey r) /\ textKeys (pxMapNative r).

(** Unmarshalling gives such a message back, and two lists of hashes have
    different encodings. *)
Class ScProtoLaws `{ScProto} : Prop := {
  eventLog_pb l : unmarshalEventLog (marshalEventLog l) = Some l;
  eventLogs_pb l : unmarshalEventLogs (marshalEventLogs l) = Some l;
  mapEventLogs_pb m : textKeys m -> unmarshalMapEventLogs (marshalMapEventLogs m) = Some m;
  logHashes_pb l1 l2 : marshalLogHashes l1 = marshalLogHashes l2 -> l1 = l2;
  result_pb r : result_text r -> unmarshalResult (marshalResult r) = Some r;
  results_pb r : Forall result_text r.1.1 -> unmarshalResults (marshalResults r) = Some r;
  updateDatas_pb d : textKeys d.1 -> map_Forall (fun _ u => textKeys (puStorage u)) d.1 ->
    unmarshalUpdateDatas (marshalUpdateDatas d) = Some d;
  touched_pb d : unmarshalTouched (marshalTouched d) = Some d
}.

Definition scErr : GoError := ErrText "proto".

(** ** Event logs *)

Definition NewEventLog (transactionHash address data : bytes) (topics : list bytes) : PbEventLog :=
  mkEventLog transactionHash address data topics.

Section Logs.
Context `{EthLib} `{ScProto}.

Definition EventLog_Hash (l : PbEventLog) : bytes := Keccak256 (marshalEventLog l).
Definition EventLog_Address (l : PbEventLog) : bytes := BytesToAddress (eAddress l).
Definition EventLog_Unmarshal (b : bytes) : stm PbEventLog unit := fun l =>
  match unmarshalEventLog b with Some l' => (Ok tt, l') | None => (Err scErr, l) end.

Definition GetLogsHash (eventLogs : list PbEventLog) : bytes :=
  Keccak256 (marshalLogHashes (EventLog_Hash <$> eventLogs)).

Definition MarshalEventLogs (eventLogs : list PbEventLog) : bytes := marshalEventLogs eventLogs.
Definition UnmarshalEventLogs (b : bytes) : outcome (list PbEventLog) :=
  match unmarshalEventLogs b with Some l => Ok l | None => Err scErr end.

Definition MarshalMapEventLogs (mapEvents : gmap bytes (list PbEventLog)) : bytes :=
  marshalMapEventLogs (list_to_map ((fun kv => (Hex kv.1, kv.2)) <$> map_to_list mapEvents)).
Definition UnmarshalMapEventLogs (b : bytes) : outcome (gmap bytes (list PbEventLog)) :=
  match unmarshalMapEventLogs b with
  | Some m => Ok (list_to_map ((fun kv => (HexToAddress kv.1, kv.2)) <$> map_to_list m))
  | None => Err scErr
  end.
End Logs.

(** ** Execution results *)

Record ExecuteSCResult := mkResult {
  xTransactionHash : bytes;
  xStatus : Z;
  xException : Z;
  xReturnData : bytes;
  xGasUsed : Z;
  xLogsHash : bytes;
  xMapAddBalance : strmap;
  xMapSubBalance : strmap;
  xMapNonce : strmap;
  xMapStorageRoot : strmap;
  xMapCodeHash : strmap;
  xMapStorageAddress : strmap;
  xMapCreatorPubkey : strmap;
  xMapTouched : gmap bytes (list bytes);
  xMapNative : gmap bytes (list (bytes * bytes));
  xEventLogs : list PbEventLog
}.

(** [&ExecuteSCResult{}] *)
Definition zeroResult : ExecuteSCResult := mkResult zeroHash 0 0 [] 0 zeroHash ∅ ∅ ∅ ∅ ∅ ∅ ∅ ∅ ∅ [].

Definition NewErrorExecuteSCResult (transactionHash : bytes) (status exception : Z) (rt : bytes) : ExecuteSCResult :=
  mkResult transactionHash status exception rt 0 zeroHash ∅ ∅ ∅ ∅ ∅ ∅ ∅ ∅ ∅ [].

Section Results.
Context `{EthLib}.

Definition storageDatas (l : list (bytes * bytes)) : list PbStorageData := (fun vv => mkStorageData vv.1 vv.2) <$> l.
Definition storagePairs (l : list PbStorageData) : list (bytes * bytes) := (fun d => (sdKey d, sdValue d)) <$> l.

(** The nonces and the logs hash are not written. *)
Definition Result_Proto (r : ExecuteSCResult) : PbExecuteSCResult :=
  mkPbResult (xTransactionHash r) (xMapAddBalance r) (xMapSubBalance r) (xMapCodeHash r) (xMapStorageRoot r) []
    (xStatus r) (xException r) (xReturnData r) (xGasUsed r)
    (list_to_map ((fun kv => (EncodeToString kv.1, kv.2)) <$> map_to_list (xMapTouched r)))
    (xMapStorageAddress r) (xMapCreatorPubkey r)
    (list_to_map ((fun kv => (Hex kv.1, storageDatas kv.2)) <$> map_to_list (xMapNative r)))
    (xEventLogs r).

(** Storage addresses are read only when there are creator keys; fields that are
    not read keep their values. *)
Definition Result_FromProto (p : PbExecuteSCResult) (r : ExecuteSCResult) : ExecuteSCResult :=
  let creators := negb (bool_decide (pxMapCreatorPubkey p = ∅)) in
  mkResult (BytesToHash (pxTransactionHash p)) (pxStatus p) (pxException p) (pxReturn p) (pxGasUsed p) (xLogsHash r)
    (pxMapAddBalance p) (pxMapSubBalance p) (xMapNonce r) (pxMapStorageRoot p) (pxMapCodeHash p)
    (if creators then BytesToAddress <$> pxMapStorageAddress p else xMapStorageAddress r)
    (if creators then pxMapCreatorPubkey p else xMapCreatorPubkey r)
    (list_to_map ((fun kv => (HexToAddress kv.1, BytesToAddress <$> kv.2)) <$> map_to_list (pxMapTouched p)))
    (list_to_map ((fun kv => (HexToAddress kv.1, storagePairs kv.2)) <$> map_to_list (pxMapNative p)))
    (pxEventLogs p).

Context `{ScProto}.

Definition Result_Marshal (r : ExecuteSCResult) : bytes := marshalResult (Result_Proto r).
Definition Result_Unmarshal (b : bytes) : stm ExecuteSCResult unit := fun r =>
  match unmarshalResult b with Some p => (Ok tt, Result_FromProto p r) | None => (Err scErr, r) end.

Definition ExecuteSCResultsFromProto (ps : list PbExecuteSCResult) : list ExecuteSCResult :=
  (fun p => Result_FromProto p zeroResult) <$> ps.
Definition ExecuteSCResultsToProto (rs : list ExecuteSCResult) : list PbExecuteSCResult := Result_Proto <$> rs.

(** The encodings, one after the other. *)
Definition HashExecuteSCResultsKeccak256 (results : list ExecuteSCResult) : bytes :=
  BytesToHash (Keccak256 (mjoin ((fun r => marshalResult (Result_Proto r)) <$> results))).
End Results.

(** ** Lists of results *)

Record ExecuteSCResults := mkResults { results : list ExecuteSCResult; rsGroupId : Z; rsBlockNumber : Z }.

Section ResultLists.
Context `{EthLib} `{ScProto}.

Definition Results_Proto (er : ExecuteSCResults) : list PbExecuteSCResult * Z * Z :=
  (Result_Proto <$> results er, rsGroupId er, rsBlockNumber er).

(** The results are appended to those the object has. *)
Definition Results_FromProto (p : list PbExecuteSCResult * Z * Z) (er : ExecuteSCResults) : ExecuteSCResults :=
  mkResults (results er ++ ((fun v => Result_FromProto v zeroResult) <$> p.1.1)) p.1.2 p.2.

Definition Results_Marshal (er : ExecuteSCResults) : bytes := marshalResults (Results_Proto er).
Definition Results_Unmarshal (b : bytes) : stm ExecuteSCResults unit := fun er =>
  match unmarshalResults b with Some p => (Ok tt, Results_FromProto p er) | None => (Err scErr, er) end.
End ResultLists.

(** ** Update data *)

Record SmartContractUpdateData := mkUpdate { uCode : bytes; uStorage : strmap; uEventLogs : list PbEventLog }.

Definition CodeHash `{EthLib} (s : SmartContractUpdateData) : bytes := Keccak256 (uCode s).
Definition SetCode (code : bytes) (s : SmartContractUpdateData) : SmartContractUpdateData :=
  mkUpdate code (uStorage s) (uEventLogs s).
Definition UpdateStorage (storage : strmap) (s : SmartContractUpdateData) : SmartContractUpdateData :=
  mkUpdate (uCode s) (map_fold (fun k v m => <[k := v]> m) (uStorage s) storage) (uEventLogs s).
Definition AddEventLog (l : PbEventLog) (s : SmartContractUpdateData) : SmartContractUpdateData :=
  mkUpdate (uCode s) (uStorage s) (uEventLogs s ++ [l]).
Definition Update_Proto (s : SmartContractUpdateData) : PbUpdateData := mkPbUpdate (uCode s) (uStorage s) (uEventLogs s).
Definition Update_FromProto (p : PbUpdateData) : SmartContractUpdateData :=
  mkUpdate (puCode p) (puStorage p) (puEventLogs p).

Record SmartContractUpdateDatas := mkUpdates { usBlockNumber : Z; usData : gmap bytes SmartContractUpdateData }.

Section Updates.
Context `{EthLib} `{ScProto}.

Definition Updates_Proto (s : SmartContractUpdateDatas) : gmap bytes PbUpdateData * Z :=
  (list_to_map ((fun kv => (Hex kv.1, Update_Proto kv.2)) <$> map_to_list (usData s)), usBlockNumber s).
Definition Updates_FromProto (p : gmap bytes PbUpdateData * Z) : SmartContractUpdateDatas :=
  mkUpdates p.2 (list_to_map ((fun kv => (HexToAddress kv.1, Update_FromProto kv.2)) <$> map_to_list p.1)).
Definition Updates_Marshal (s : SmartContractUpdateDatas) : bytes := marshalUpdateDatas (Updates_Proto s).
Definition Updates_Unmarshal (b : bytes) : stm SmartContractUpdateDatas unit := fun s =>
  match unmarshalUpdateDatas b with Some p => (Ok tt, Updates_FromProto p) | None => (Err scErr, s) end.

(** *** Touched addresses *)

Definition Touched_Marshal (blockNumber : Z) (addresses : list bytes) : bytes := marshalTouched (blockNumber, addresses).
Definition Touched_Unmarshal (b : bytes) : outcome (Z * list bytes) :=
  match unmarshalTouched b with Some (n, l) => Ok (n, BytesToAddress <$> l) | None => Err scErr end.
End Updates.
