(* ===== verification/Transaction.v ===== *)
(** * Transactions

    Models [pkg/transaction/transaction.go] (the message, its three cached hashes,
    setters, classification, fees, signatures and validity checks),
    [call_data.go], [deploy_data.go] and [execute_sc_transactions.go], and the
    wrappers of [pkg/bls/bls.go] they call.

    The Go object owns a pointer to its protobuf message; every constructor sets
    it, and the record holds the message itself.  The caches are
    [atomic.Pointer]s, [None] for nil. *)

From S2P Require Import Prelude Binary AccountState.

Local Open Scope Z_scope.

(** ** Messages *)

Record AccessTuple := mkAccessTuple { aAddress : bytes; aStorageKeys : list bytes }.

(** [pb.Transaction].  A nil byte slice and an empty one are told apart only in the
    two fee caps, where the code compares with nil. *)
Record PbTransaction := mkPbTx {
  pToAddress : bytes;
  pAmount : bytes;
  pMaxGas : Z;
  pMaxGasPrice : Z;
  pMaxTimeUse : Z;
  pData : bytes;
  pRelatedAddresses : list bytes;
  pLastDeviceKey : bytes;
  pNewDeviceKey : bytes;
  pSign : bytes;
  pNonce : bytes;
  pFromAddress : bytes;
  pReadOnly : bool;
  pChainID : Z;
  pType : Z;
  pR : bytes;
  pS : bytes;
  pV : bytes;
  pGasTipCap : option bytes;
  pGasFeeCap : option bytes;
  pAccessList : list AccessTuple
}.

Definition zeroPbTransaction : PbTransaction :=
  mkPbTx [] [] 0 0 0 [] [] [] [] [] [] [] false 0 0 [] [] [] None None [].

(** Assignments to the fields of the message. *)
Definition set_pToAddress (x : bytes) (p : PbTransaction) : PbTransaction :=
  mkPbTx x (pAmount p) (pMaxGas p) (pMaxGasPrice p) (pMaxTimeUse p) (pData p) (pRelatedAddresses p)
    (pLastDeviceKey p) (pNewDeviceKey p) (pSign p) (pNonce p) (pFromAddress p) (pReadOnly p) (pChainID p)
    (pType p) (pR p) (pS p) (pV p) (pGasTipCap p) (pGasFeeCap p) (pAccessList p).
Definition set_pFromAddress (x : bytes) (p : PbTransaction) : PbTransaction :=
  mkPbTx (pToAddress p) (pAmount p) (pMaxGas p) (pMaxGasPrice p) (pMaxTimeUse p) (pData p)
    (pRelatedAddresses p) (pLastDeviceKey p) (pNewDeviceKey p) (pSign p) (pNonce p) x (pReadOnly p)
    (pChainID p) (pType p) (pR p) (pS p) (pV p) (pGasTipCap p) (pGasFeeCap p) (pAccessList p).
Definition set_pMaxGasPrice (x : Z) (p : PbTransaction) : PbTransaction :=
  mkPbTx (pToAddress p) (pAmount p) (pMaxGas p) x (pMaxTimeUse p) (pData p) (pRelatedAddresses p)
    (pLastDeviceKey p) (pNewDeviceKey p) (pSign p) (pNonce p) (pFromAddress p) (pReadOnly p) (pChainID p)
    (pType p) (pR p) (pS p) (pV p) (pGasTipCap p) (pGasFeeCap p) (pAccessList p).
Definition set_pRelatedAddresses (x : list bytes) (p : PbTransaction) : PbTransaction :=
  mkPbTx (pToAddress p) (pAmount p) (pMaxGas p) (pMaxGasPrice p) (pMaxTimeUse p) (pData p) x
    (pLastDeviceKey p) (pNewDeviceKey p) (pSign p) (pNonce p) (pFromAddress p) (pReadOnly p) (pChainID p)
    (pType p) (pR p) (pS p) (pV p) (pGasTipCap p) (pGasFeeCap p) (pAccessList p).
Definition set_pLastDeviceKey (x : bytes) (p : PbTransaction) : PbTransaction :=
  mkPbTx (pToAddress p) (pAmount p) (pMaxGas p) (pMaxGasPrice p) (pMaxTimeUse p) (pData p)
    (pRelatedAddresses p) x (pNewDeviceKey p) (pSign p) (pNonce p) (pFromAddress p) (pReadOnly p)
    (pChainID p) (pType p) (pR p) (pS p) (pV p) (pGasTipCap p) (pGasFeeCap p) (pAccessList p).
Definition set_pNewDeviceKey (x : bytes) (p : PbTransaction) : PbTransaction :=
  mkPbTx (pToAddress p) (pAmount p) (pMaxGas p) (pMaxGasPrice p) (pMaxTimeUse p) (pData p)
    (pRelatedAddresses p) (pLastDeviceKey p) x (pSign p) (pNonce p) (pFromAddress p) (pReadOnly p)
    (pChainID p) (pType p) (pR p) (pS p) (pV p) (pGasTipCap p) (pGasFeeCap p) (pAccessList p).
Definition set_pSign (x : bytes) (p : PbTransaction) : PbTransaction :=
  mkPbTx (pToAddress p) (pAmount p) (pMaxGas p) (pMaxGasPrice p) (pMaxTimeUse p) (pData p)
    (pRelatedAddresses p) (pLastDeviceKey p) (pNewDeviceKey p) x (pNonce p) (pFromAddress p) (pReadOnly p)
    (pChainID p) (pType p) (pR p) (pS p) (pV p) (pGasTipCap p) (pGasFeeCap p) (pAccessList p).
Definition set_pNonce (x : bytes) (p : PbTransaction) : PbTransaction :=
  mkPbTx (pToAddress p) (pAmount p) (pMaxGas p) (pMaxGasPrice p) (pMaxTimeUse p) (pData p)
    (pRelatedAddresses p) (pLastDeviceKey p) (pNewDeviceKey p) (pSign p) x (pFromAddress p) (pReadOnly p)
    (pChainID p) (pType p) (pR p) (pS p) (pV p) (pGasTipCap p) (pGasFeeCap p) (pAccessList p).
Definition set_pReadOnly (x : bool) (p : PbTransaction) : PbTransaction :=
  mkPbTx (pToAddress p) (pAmount p) (pMaxGas p) (pMaxGasPrice p) (pMaxTimeUse p) (pData p)
    (pRelatedAddresses p) (pLastDeviceKey p) (pNewDeviceKey p) (pSign p) (pNonce p) (pFromAddress p) x
    (pChainID p) (pType p) (pR p) (pS p) (pV p) (pGasTipCap p) (pGasFeeCap p) (pAccessList p).
Definition set_pChainID (x : Z) (p : PbTransaction) : PbTransaction :=
  mkPbTx (pToAddress p) (pAmount p) (pMaxGas p) (pMaxGasPrice p) (pMaxTimeUse p) (pData p)
    (pRelatedAddresses p) (pLastDeviceKey p) (pNewDeviceKey p) (pSign p) (pNonce p) (pFromAddress p)
    (pReadOnly p) x (pType p) (pR p) (pS p) (pV p) (pGasTipCap p) (pGasFeeCap p) (pAccessList p).
Definition set_pType (x : Z) (p : PbTransaction) : PbTransaction :=
  mkPbTx (pToAddress p) (pAmount p) (pMaxGas p) (pMaxGasPrice p) (pMaxTimeUse p) (pData p)
    (pRelatedAddresses p) (pLastDeviceKey p) (pNewDeviceKey p) (pSign p) (pNonce p) (pFromAddress p)
    (pReadOnly p) (pChainID p) x (pR p) (pS p) (pV p) (pGasTipCap p) (pGasFeeCap p) (pAccessList p).
Definition set_pR (x : bytes) (p : PbTransaction) : PbTransaction :=
  mkPbTx (pToAddress p) (pAmount p) (pMaxGas p) (pMaxGasPrice p) (pMaxTimeUse p) (pData p)
    (pRelatedAddresses p) (pLastDeviceKey p) (pNewDeviceKey p) (pSign p) (pNonce p) (pFromAddress p)
    (pReadOnly p) (pChainID p) (pType p) x (pS p) (pV p) (pGasTipCap p) (pGasFeeCap p) (pAccessList p).
Definition set_pS (x : bytes) (p : PbTransaction) : PbTransaction :=
  mkPbTx (pToAddress p) (pAmount p) (pMaxGas p) (pMaxGasPrice p) (pMaxTimeUse p) (pData p)
    (pRelatedAddresses p) (pLastDeviceKey p) (pNewDeviceKey p) (pSign p) (pNonce p) (pFromAddress p)
    (pReadOnly p) (pChainID p) (pType p) (pR p) x (pV p) (pGasTipCap p) (pGasFeeCap p) (pAccessList p).
Definition set_pV (x : bytes) (p : PbTransaction) : PbTransaction :=
  mkPbTx (pToAddress p) (pAmount p) (pMaxGas p) (pMaxGasPrice p) (pMaxTimeUse p) (pData p)
    (pRelatedAddresses p) (pLastDeviceKey p) (pNewDeviceKey p) (pSign p) (pNonce p) (pFromAddress p)
    (pReadOnly p) (pChainID p) (pType p) (pR p) (pS p) x (pGasTipCap p) (pGasFeeCap p) (pAccessList p).
Definition set_pGasFeeCap (x : option bytes) (p : PbTransaction) : PbTransaction :=
  mkPbTx (pToAddress p) (pAmount p) (pMaxGas p) (pMaxGasPrice p) (pMaxTimeUse p) (pData p)
    (pRelatedAddresses p) (pLastDeviceKey p) (pNewDeviceKey p) (pSign p) (pNonce p) (pFromAddress p)
    (pReadOnly p) (pChainID p) (pType p) (pR p) (pS p) (pV p) (pGasTipCap p) x (pAccessList p).
Definition set_pAmount (x : bytes) (p : PbTransaction) : PbTransaction :=
  mkPbTx (pToAddress p) x (pMaxGas p) (pMaxGasPrice p) (pMaxTimeUse p) (pData p) (pRelatedAddresses p)
    (pLastDeviceKey p) (pNewDeviceKey p) (pSign p) (pNonce p) (pFromAddress p) (pReadOnly p) (pChainID p)
    (pType p) (pR p) (pS p) (pV p) (pGasTipCap p) (pGasFeeCap p) (pAccessList p).
Definition set_pMaxGas (x : Z) (p : PbTransaction) : PbTransaction :=
  mkPbTx (pToAddress p) (pAmount p) x (pMaxGasPrice p) (pMaxTimeUse p) (pData p) (pRelatedAddresses p)
    (pLastDeviceKey p) (pNewDeviceKey p) (pSign p) (pNonce p) (pFromAddress p) (pReadOnly p) (pChainID p)
    (pType p) (pR p) (pS p) (pV p) (pGasTipCap p) (pGasFeeCap p) (pAccessList p).
Definition set_pMaxTimeUse (x : Z) (p : PbTransaction) : PbTransaction :=
  mkPbTx (pToAddress p) (pAmount p) (pMaxGas p) (pMaxGasPrice p) x (pData p) (pRelatedAddresses p)
    (pLastDeviceKey p) (pNewDeviceKey p) (pSign p) (pNonce p) (pFromAddress p) (pReadOnly p) (pChainID p)
    (pType p) (pR p) (pS p) (pV p) (pGasTipCap p) (pGasFeeCap p) (pAccessList p).
Definition set_pData (x : bytes) (p : PbTransaction) : PbTransaction :=
  mkPbTx (pToAddress p) (pAmount p) (pMaxGas p) (pMaxGasPrice p) (pMaxTimeUse p) x (pRelatedAddresses p)
    (pLastDeviceKey p) (pNewDeviceKey p) (pSign p) (pNonce p) (pFromAddress p) (pReadOnly p) (pChainID p)
    (pType p) (pR p) (pS p) (pV p) (pGasTipCap p) (pGasFeeCap p) (pAccessList p).
Definition set_pGasTipCap (x : option bytes) (p : PbTransaction) : PbTransaction :=
  mkPbTx (pToAddress p) (pAmount p) (pMaxGas p) (pMaxGasPrice p) (pMaxTimeUse p) (pData p)
    (pRelatedAddresses p) (pLastDeviceKey p) (pNewDeviceKey p) (pSign p) (pNonce p) (pFromAddress p)
    (pReadOnly p) (pChainID p) (pType p) (pR p) (pS p) (pV p) x (pGasFeeCap p) (pAccessList p).
Definition set_pAccessList (x : list AccessTuple) (p : PbTransaction) : PbTransaction :=
  mkPbTx (pToAddress p) (pAmount p) (pMaxGas p) (pMaxGasPrice p) (pMaxTimeUse p) (pData p)
    (pRelatedAddresses p) (pLastDeviceKey p) (pNewDeviceKey p) (pSign p) (pNonce p) (pFromAddress p)
    (pReadOnly p) (pChainID p) (pType p) (pR p) (pS p) (pV p) (pGasTipCap p) (pGasFeeCap p) x.

(** [pb.TransactionHashData] *)
Record TransactionHashData := mkHashData {
  hFromAddress : bytes;
  hToAddress : bytes;
  hAmount : bytes;
  hMaxGas : Z;
  hMaxGasPrice : Z;
  hMaxTimeUse : Z;
  hData : bytes;
  hType : Z;
  hLastDeviceKey : bytes;
  hNewDeviceKey : bytes;
  hNonce : bytes;
  hChainID : Z;
  hR : bytes;
  hS : bytes;
  hV : bytes;
  hGasTipCap : option bytes;
  hGasFeeCap : option bytes;
  hAccessList : list AccessTuple
}.

(** [pb.DeployData] *)
Record PbDeployData := mkPbDeploy { pCode : bytes; pDeployStorage : bytes }.

(** ** The protobuf codec

    The generated marshalling of the messages, as parameters; [None] is a
    returned error.  The laws are protobuf's: marshalling these messages
    succeeds, unmarshalling gives the message back, except that an empty bytes
    field comes back as nil ([wire]); two hash-data messages with the same
    deterministic encoding agree up to that; and a set bytes field is written. *)

Class TxProto := {
  marshalTx : PbTransaction -> option bytes;
  unmarshalTx : bytes -> option PbTransaction;
  marshalHashData : TransactionHashData -> option bytes;
  marshalCallData : bytes -> option bytes;
  unmarshalCallData : bytes -> option bytes;
  marshalDeployData : PbDeployData -> option bytes;
  unmarshalDeployData : bytes -> option PbDeployData;
  marshalTxs : list PbTransaction -> option bytes;
  unmarshalTxs : bytes -> option (list PbTransaction);
  marshalTxsBlock : list PbTransaction * Z -> option bytes;
  unmarshalTxsBlock : bytes -> option (list PbTransaction * Z);
  marshalExecuteSC : list PbTransaction * Z * Z -> option bytes;
  unmarshalExecuteSC : bytes -> option (list PbTransaction * Z * Z)
}.

Definition wireBytes (o : option bytes) : option bytes :=
  match o with Some [] => None | _ => o end.

Definition wire (p : PbTransaction) : PbTransaction :=
  mkPbTx (pToAddress p) (pAmount p) (pMaxGas p) (pMaxGasPrice p) (pMaxTimeUse p) (pData p)
    (pRelatedAddresses p) (pLastDeviceKey p) (pNewDeviceKey p) (pSign p) (pNonce p) (pFromAddress p)
    (pReadOnly p) (pChainID p) (pType p) (pR p) (pS p) (pV p) (wireBytes (pGasTipCap p))
    (wireBytes (pGasFeeCap p)) (pAccessList p).

Definition wireHash (h : TransactionHashData) : TransactionHashData :=
  mkHashData (hFromAddress h) (hToAddress h) (hAmount h) (hMaxGas h) (hMaxGasPrice h) (hMaxTimeUse h)
    (hData h) (hType h) (hLastDeviceKey h) (hNewDeviceKey h) (hNonce h) (hChainID h) (hR h) (hS h) (hV h)
    (wireBytes (hGasTipCap h)) (wireBytes (hGasFeeCap h)) (hAccessList h).

Class TxProtoLaws `{TxProto} : Prop := {
  tx_codec p : exists b, marshalTx p = Some b /\ unmarshalTx b = Some (wire p);
  hash_codec_total h : is_Some (marshalHashData h);
  hash_codec_inj h1 h2 b : marshalHashData h1 = Some b -> marshalHashData h2 = Some b -> wireHash h1 = wireHash h2;
  hash_codec_wire h : marshalHashData (wireHash h) = marshalHashData h;
  call_codec i : exists b, marshalCallData i = Some b /\ unmarshalCallData b = Some i /\ (i <> [] -> b <> []);
  deploy_codec d : exists b, marshalDeployData d = Some b /\ unmarshalDeployData b = Some d /\ (pCode d <> [] -> b <> []);
  txs_codec ps : exists b, marshalTxs ps = Some b /\ unmarshalTxs b = Some (wire <$> ps);
  txs_block_codec ps n : exists b, marshalTxsBlock (ps, n) = Some b /\ unmarshalTxsBlock b = Some (wire <$> ps, n);
  execute_codec ps g n : exists b, marshalExecuteSC (ps, g, n) = Some b /\ unmarshalExecuteSC b = Some (wire <$> ps, g, n)
}.

(** A returned [proto] error. *)
Definition orErr {A} (o : option A) : outcome A :=
  match o with Some a => Ok a | None => Err (ErrText "proto") end.

(** ** Call data and deploy data *)

(** [CallData]: the wrapped message, nil in a fresh object. *)
Record CallData := mkCallData { cdProto : option bytes }.
Record DeployData := mkDeployData { ddProto : option PbDeployData }.

Definition NewCallData (input : bytes) : CallData := mkCallData (Some input).
Definition NewDeployData (code storageAddress : bytes) : DeployData :=
  mkDeployData (Some (mkPbDeploy code storageAddress)).

(** [Input] answers nil for a nil message; [Code] dereferences it. *)
Definition Input (cd : CallData) : bytes := default [] (cdProto cd).
Definition Code (dd : DeployData) : outcome bytes :=
  match ddProto dd with Some p => Ok (pCode p) | None => Panic end.
Definition StorageAddress `{EthLib} (dd : DeployData) : outcome bytes :=
  match ddProto dd with Some p => Ok (BytesToAddress (pDeployStorage p)) | None => Panic end.

Section Data.
Context `{TxProto}.

(** An error leaves the receiver as it is. *)
Definition CallData_Unmarshal (b : bytes) (cd : CallData) : CallData :=
  match unmarshalCallData b with Some i => mkCallData (Some i) | None => cd end.
Definition DeployData_Unmarshal (b : bytes) (dd : DeployData) : DeployData :=
  match unmarshalDeployData b with Some d => mkDeployData (Some d) | None => dd end.

(** [proto.Marshal] of a nil message gives no bytes. *)
Definition CallData_Marshal (cd : CallData) : outcome bytes :=
  match cdProto cd with Some i => orErr (marshalCallData i) | None => Ok [] end.
Definition DeployData_Marshal (dd : DeployData) : outcome bytes :=
  match ddProto dd with Some d => orErr (marshalDeployData d) | None => Ok [] end.
End Data.

(** ** The transaction object *)

Record Transaction := mkTx {
  proto : PbTransaction;
  cachedHash : option bytes;
  cachedSigningHash : option bytes;
  cachedRHash : option bytes;
  isDebug : bool
}.

Definition TransactionFromProto (p : PbTransaction) : Transaction := mkTx p None None None false.
Definition TransactionsFromProto (ps : list PbTransaction) : list Transaction := TransactionFromProto <$> ps.
Definition TransactionsToProto (ts : list Transaction) : list PbTransaction := proto <$> ts.

Definition NewTransaction (fromAddress toAddress : bytes) (amount maxGas maxGasPrice maxTimeUse : Z)
  (data : bytes) (relatedAddresses : list bytes) (lastDeviceKey newDeviceKey : bytes) (nonce chainId : Z) :
  Transaction :=
  TransactionFromProto
    (mkPbTx toAddress (bigBytes amount) maxGas maxGasPrice maxTimeUse data relatedAddresses lastDeviceKey
       newDeviceKey [] (PutUint64 nonce) fromAddress false chainId 0 [] [] [] None None []).

Definition NewTransactionWithoutNonce (fromAddress toAddress : bytes) (amount maxGas maxGasPrice maxTimeUse : Z)
  (data : bytes) (relatedAddresses : list bytes) (lastDeviceKey newDeviceKey : bytes) (chainId : Z) :
  Transaction :=
  TransactionFromProto
    (mkPbTx toAddress (bigBytes amount) maxGas maxGasPrice maxTimeUse data relatedAddresses lastDeviceKey
       newDeviceKey [] [] fromAddress false chainId 0 [] [] [] None None []).

(** Only the first fifteen bytes of the recipient are kept, and no chain id. *)
Definition NewTransactionOffChain (lastHash fromAddress toAddress : bytes) (pendingUse amount : Z)
  (maxGas maxGasPrice maxTimeUse : Z)
  (data : bytes) (relatedAddresses : list bytes) (lastDeviceKey newDeviceKey : bytes) (nonce : Z) :
  Transaction :=
  TransactionFromProto
    (mkPbTx (take 15 toAddress) (bigBytes amount) maxGas maxGasPrice maxTimeUse data relatedAddresses
       lastDeviceKey newDeviceKey [] (PutUint64 nonce) fromAddress false 0 0 [] [] [] None None []).

Definition ClearCacheHash (t : Transaction) : Transaction := mkTx (proto t) None None None (isDebug t).
Definition SetIsDebug (b : bool) (t : Transaction) : Transaction :=
  mkTx (proto t) (cachedHash t) (cachedSigningHash t) (cachedRHash t) b.

(** An assignment through [t.proto]; the caches are not touched. *)
Definition assign (f : PbTransaction -> PbTransaction) (t : Transaction) : Transaction :=
  mkTx (f (proto t)) (cachedHash t) (cachedSigningHash t) (cachedRHash t) (isDebug t).

(** [FromProto] replaces the message and keeps the caches. *)
Definition FromProto (p : PbTransaction) (t : Transaction) : Transaction := assign (fun _ => p) t.

(** [proto.Clone] keeps nil and empty apart; the copy has no caches. *)
Definition CopyTransaction (t : Transaction) : Transaction := TransactionFromProto (proto t).

(** *** Setters *)

Definition UpdateRelatedAddresses (l : list bytes) (t : Transaction) : Transaction :=
  ClearCacheHash (assign (set_pRelatedAddresses l) t).

Definition AddRelatedAddress (address : bytes) (t : Transaction) : Transaction :=
  if bool_decide (address ∈ pRelatedAddresses (proto t)) then t
  else ClearCacheHash (assign (set_pRelatedAddresses (pRelatedAddresses (proto t) ++ [address])) t).

Definition UpdateDeriver (lastDeviceKey newDeviceKey : bytes) (t : Transaction) : Transaction :=
  ClearCacheHash (assign (set_pNewDeviceKey newDeviceKey) (assign (set_pLastDeviceKey lastDeviceKey) t)).

Definition SetReadOnly (b : bool) (t : Transaction) : Transaction := ClearCacheHash (assign (set_pReadOnly b) t).
Definition SetType (ty : Z) (t : Transaction) : Transaction := ClearCacheHash (assign (set_pType ty) t).

(** A nil argument is [None]. *)
Definition SetGasFeeCap (gasFeeCap : option Z) (t : Transaction) : Transaction :=
  ClearCacheHash (assign (set_pGasFeeCap (bigBytes <$> gasFeeCap)) t).

Definition SetSignBytes (b : bytes) (t : Transaction) : Transaction := assign (set_pSign b) t.
Definition SetMaxGasPrice (gasPrice : Z) (t : Transaction) : Transaction :=
  ClearCacheHash (assign (set_pMaxGasPrice gasPrice) t).
Definition SetNonce (nonce : Z) (t : Transaction) : Transaction :=
  ClearCacheHash (assign (set_pNonce (PutUint64 nonce)) t).
Definition SetFromAddress (a : bytes) (t : Transaction) : Transaction :=
  ClearCacheHash (assign (set_pFromAddress a) t).
Definition SetToAddress (a : bytes) (t : Transaction) : Transaction :=
  ClearCacheHash (assign (set_pToAddress a) t).

(** [big.Int.Uint64]: the low 64 bits of the absolute value. *)
Definition bigUint64 (z : Z) : Z := wrap64 (Z.abs z).

(** [uint64(chainID.Int64())] keeps the low 64 bits. *)
Definition SetSignatureValues (chainID v r s : Z) (t : Transaction) : Transaction :=
  ClearCacheHash (assign (set_pChainID (wrap64 chainID)) (assign (set_pS (bigBytes s))
    (assign (set_pR (bigBytes r)) (assign (set_pV (bigBytes v)) t)))).

(** *** Getters *)

Definition GetNonce (t : Transaction) : Z :=
  if (length (pNonce (proto t)) =? 8)%nat then bigSetBytes (pNonce (proto t)) else 0.
Definition GetNonce32Bytes (t : Transaction) : bytes := beBytes 32 (GetNonce t).
Definition GetChainID (t : Transaction) : Z := pChainID (proto t).
Definition Amount (t : Transaction) : Z := bigSetBytes (pAmount (proto t)).
Definition Sign (t : Transaction) : bytes := SignFromBytes (pSign (proto t)).
Definition GasFeeCap (t : Transaction) : Z := bigSetBytes (default [] (pGasFeeCap (proto t))).
Definition GasTipCap (t : Transaction) : Z := bigSetBytes (default [] (pGasTipCap (proto t))).
Definition RawSignatureValues (t : Transaction) : Z * Z * Z :=
  (bigSetBytes (pV (proto t)), bigSetBytes (pR (proto t)), bigSetBytes (pS (proto t))).

(** The three factors go through [int64]. *)
Definition Fee (currentGasPrice : Z) (t : Transaction) : Z :=
  to_int64 (pMaxGas (proto t)) * to_int64 currentGasPrice * to_int64 (pMaxTimeUse (proto t) / 1000 + 1).

Definition MaxFee (t : Transaction) : Z :=
  let maxGas := pMaxGas (proto t) in
  if (pType (proto t) =? 0) || (pType (proto t) =? 1) then maxGas * pMaxGasPrice (proto t)
  else if pType (proto t) =? 2 then maxGas * GasFeeCap t
  else 0.

Section Getters.
Context `{EthLib}.

Definition FromAddress (t : Transaction) : bytes := BytesToAddress (pFromAddress (proto t)).
Definition ToAddress (t : Transaction) : bytes := BytesToAddress (pToAddress (proto t)).
Definition LastDeviceKey (t : Transaction) : bytes := BytesToHash (pLastDeviceKey (proto t)).
Definition NewDeviceKey (t : Transaction) : bytes := BytesToHash (pNewDeviceKey (proto t)).
Definition RelatedAddresses (t : Transaction) : list bytes :=
  (BytesToAddress <$> pRelatedAddresses (proto t)) ++ [ToAddress t].

Definition IsDeployContract (t : Transaction) : bool :=
  negb (GetNonce t =? 0) && bool_decide (FromAddress t <> ToAddress t) &&
  bool_decide (ToAddress t = zeroAddress) && (0 <? length (pData (proto t)))%nat.
Definition IsCallContract (t : Transaction) : bool :=
  bool_decide (ToAddress t <> zeroAddress) && (0 <? length (pData (proto t)))%nat.
Definition IsRegularTransaction (t : Transaction) : bool :=
  bool_decide (ToAddress t <> zeroAddress) && (length (pData (proto t)) =? 0)%nat.

Context `{TxProto}.

Definition txDeployData (t : Transaction) : DeployData := DeployData_Unmarshal (pData (proto t)) (mkDeployData None).
Definition txCallData (t : Transaction) : CallData := CallData_Unmarshal (pData (proto t)) (mkCallData None).

Definition GetData (t : Transaction) : outcome bytes :=
  if IsCallContract t then Ok (Input (txCallData t))
  else if IsDeployContract t then Code (txDeployData t)
  else Ok (pData (proto t)).
End Getters.

(** ** Signatures

    go-ethereum's [crypto] (secp256k1), and the C library behind [pkg/bls], as
    parameters.  [crypto.Sign hash key]; [SigToPub] and [RecoverPubkey] answer
    [None] on an error; [blstSign] is the composition of [Deserialize], [Sign]
    and [Compress], [None] a panic, and [blstVerify] is [VerifyCompressed]. *)

Class Secp := {
  cryptoSign : bytes -> bytes -> outcome bytes;
  SigToPub : bytes -> bytes -> option bytes;
  PubkeyToAddress : bytes -> bytes;
  ValidateSignatureValues : Z -> Z -> Z -> bool -> bool;
  RecoverPubkey : bytes -> bytes -> option bytes;
  CreateAddress : bytes -> Z -> bytes;
  pubkeyOf : bytes -> bytes
}.

(** [crypto.Sign] gives 65 bytes [R || S || V] with V 0 or 1 and S in the lower
    half of the order, from which the signer's key is recovered. *)
Class SecpLaws `{Secp} : Prop := {
  cryptoSign_ok h k sig : cryptoSign h k = Ok sig ->
    length sig = 65%nat /\
    (exists v, drop 64 sig = [v] /\ 0 <= v <= 1 /\
       ValidateSignatureValues v (bigSetBytes (take 32 sig)) (bigSetBytes (take 32 (drop 32 sig))) true = true) /\
    SigToPub h sig = Some (pubkeyOf k);
  PubkeyToAddress_len pk : length (PubkeyToAddress pk) = 20%nat
}.

Class Blst := {
  blstSign : bytes -> bytes -> option bytes;
  blstVerify : bytes -> bytes -> bytes -> option bool
}.

(** *** [pkg/bls/bls.go] *)

(** The order of the BLS12-381 group. *)
Definition blsCurveOrder : Z := 0x73eda753299d7d483339d80809a1d80553bda402fffe5bfeffffffff00000001.

Definition ValidateBlsPrivateKey (keyBytes : bytes) : bool :=
  if negb (length keyBytes =? 32)%nat then false
  else if forallb (fun b => b =? 0) keyBytes then false
  else if bigSetBytes keyBytes >=? blsCurveOrder then false
  else true.

Definition blsZeroSign : bytes := replicate 96 0.

Definition blsSign `{Blst} (bPri bMessage : bytes) : bytes :=
  if negb (ValidateBlsPrivateKey bPri) then blsZeroSign
  else match blstSign bPri bMessage with
       | Some sign => SignFromBytes sign
       | None => blsZeroSign
       end.

Definition blsVerifySign `{Blst} (bPub bSig bMsg : bytes) : bool := default false (blstVerify bSig bPub bMsg).

(** ** Hashes *)

Definition hashData (p : PbTransaction) : TransactionHashData :=
  mkHashData (pFromAddress p) (pToAddress p) (pAmount p) (pMaxGas p) (pMaxGasPrice p) (pMaxTimeUse p)
    (pData p) (pType p) (pLastDeviceKey p) (pNewDeviceKey p) (pNonce p) (pChainID p) (pR p) (pS p) (pV p)
    (pGasTipCap p) (pGasFeeCap p) (pAccessList p).

(** Without R, S and V. *)
Definition signingData (p : PbTransaction) : TransactionHashData :=
  mkHashData (pFromAddress p) (pToAddress p) (pAmount p) (pMaxGas p) (pMaxGasPrice p) (pMaxTimeUse p)
    (pData p) (pType p) (pLastDeviceKey p) (pNewDeviceKey p) (pNonce p) (pChainID p) [] [] []
    (pGasTipCap p) (pGasFeeCap p) (pAccessList p).

(** Without the nonce. *)
Definition rHashData (p : PbTransaction) : TransactionHashData :=
  mkHashData (pFromAddress p) (pToAddress p) (pAmount p) (pMaxGas p) (pMaxGasPrice p) (pMaxTimeUse p)
    (pData p) (pType p) (pLastDeviceKey p) (pNewDeviceKey p) [] (pChainID p) (pR p) (pS p) (pV p)
    (pGasTipCap p) (pGasFeeCap p) (pAccessList p).

Section Hashes.
Context `{EthLib} `{TxProto}.

(** The error of the marshalling is dropped: its result is then no bytes. *)
Definition hashOf (d : TransactionHashData) : bytes := Keccak256 (default [] (marshalHashData d)).

Definition Hash : stm Transaction bytes := fun t =>
  match cachedHash t with
  | Some h => (Ok h, t)
  | None =>
      let hash := hashOf (hashData (proto t)) in
      (Ok hash, mkTx (proto t) (Some hash) (cachedSigningHash t) (cachedRHash t) (isDebug t))
  end.

Definition SigningHash : stm Transaction bytes := fun t =>
  match cachedSigningHash t with
  | Some h => (Ok h, t)
  | None =>
      match marshalHashData (signingData (proto t)) with
      | None => (Ok zeroHash, t)
      | Some b =>
          let hash := Keccak256 b in
          (Ok hash, mkTx (proto t) (cachedHash t) (Some hash) (cachedRHash t) (isDebug t))
      end
  end.

Definition RHash : stm Transaction bytes := fun t =>
  match cachedRHash t with
  | Some h => (Ok h, t)
  | None =>
      let hash := hashOf (rHashData (proto t)) in
      (Ok hash, mkTx (proto t) (cachedHash t) (cachedSigningHash t) (Some hash) (isDebug t))
  end.

(** *** BLS *)

Definition SetSign `{Blst} (privateKey : bytes) : stm Transaction unit :=
  h ← Hash; modify (assign (set_pSign (blsSign privateKey h))).

Definition ValidSign `{Blst} (bPub : bytes) : stm Transaction bool := fun t =>
  (h ← Hash; mret (blsVerifySign bPub (Sign t) h)) t.

(** *** secp256k1, transaction type 0xFF *)

Definition ValidSecpProtoSign `{Secp} : stm Transaction bool := fun t =>
  let p := proto t in
  if negb (pType p =? 255) then (Ok false, t)
  else if negb (length (pSign p) =? 0)%nat then (Ok false, t)
  else if negb (length (pR p) =? 32)%nat || negb (length (pS p) =? 32)%nat || negb (length (pV p) =? 1)%nat
  then (Ok false, t)
  else
    let v := default 0 (head (pV p)) in
    if v >? 1 then (Ok false, t)
    else if pChainID p =? 0 then (Ok false, t)
    else if negb (ValidateSignatureValues v (bigSetBytes (pR p)) (bigSetBytes (pS p)) true) then (Ok false, t)
    else
      let sig := pR p ++ pS p ++ [v] in
      (h ← SigningHash;
       mret (match SigToPub h sig with
             | None => false
             | Some pubKey => bool_decide (PubkeyToAddress pubKey = FromAddress t)
             end)) t.

Definition SignSecpProto `{Secp} (privKey : bytes) : stm Transaction unit :=
  modify (fun t => ClearCacheHash (assign (set_pSign []) (assign (set_pType 255) t)));;
  h ← SigningHash;
  sig ← lift (cryptoSign h privKey);
  (if negb (length sig =? 65)%nat then lift (Err (ErrText "invalid signature length"))
   else modify (fun t =>
     ClearCacheHash (assign (set_pV (take 1 (drop 64 sig))) (assign (set_pS (take 32 (drop 32 sig)))
       (assign (set_pR (take 32 sig)) t))))).

End Hashes.

(** ** Validity checks against the sender's account *)

Definition MAX_GROUP_TIME : Z := 9999999999999999999.
Definition MIN_TX_TIME : Z := 1.
Definition NATIVE_SMART_CONTRACT_REWARD_ADDRESS : bytes := replicate 19 0 ++ [1].

Definition ValidChainID (chainId : Z) (t : Transaction) : bool := GetChainID t =? chainId.
Definition ValidNonce (a : AccountState) (t : Transaction) : bool := GetNonce t =? nonce a.
Definition ValidMinTimeUse (t : Transaction) : bool :=
  (MIN_TX_TIME <=? pMaxTimeUse (proto t)) && (pMaxTimeUse (proto t) <=? MAX_GROUP_TIME).

(** The gas cost of a transfer is a variable that the environment may set. *)
Definition ValidMaxGas (TRANSFER_GAS_COST : Z) (t : Transaction) : bool :=
  wrap64 TRANSFER_GAS_COST <=? pMaxGas (proto t).

Definition ValidAmountSpend (a : AccountState) (spendAmount : Z) (t : Transaction) : bool :=
  let totalBalance := balance a + pendingBalance a in
  let totalSpend := spendAmount + Amount t in
  totalSpend <=? totalBalance.
Definition ValidMaxFee (a : AccountState) (t : Transaction) : bool := ValidAmountSpend a (MaxFee t) t.
Definition ValidAmount (a : AccountState) (t : Transaction) : bool := ValidAmountSpend a 0 t.
Definition ValidPendingUse (a : AccountState) : bool :=
  let pendingBalance_ := pendingBalance a in
  let pendingUse := pendingBalance a in
  pendingUse <=? pendingBalance_.

Definition InvalidDataInputLengthForTx0 : Z := 35.
Definition InvalidBLSSignatureForTx0 : Z := 36.
Definition FailedToRecoverPubkeyForTx0 : Z := 37.
Definition InvalidAddressMatchForTx0 : Z := 38.
Definition NonceZeroButPublicKeyNotEmpty : Z := 39.

Section Valid.
Context `{EthLib}.

Definition ValidDeviceKey (a : AccountState) (t : Transaction) : bool :=
  bool_decide (deviceKey a = zeroHash) || bool_decide (Keccak256 (LastDeviceKey t) = deviceKey a).

Definition ValidMaxGasPrice (currentGasPrice : Z) (t : Transaction) : bool :=
  if bool_decide (ToAddress t = NATIVE_SMART_CONTRACT_REWARD_ADDRESS) && IsCallContract t then true
  else currentGasPrice <=? pMaxGasPrice (proto t).

Definition ValidCallSmartContractToAccount (toAccountState : AccountState) (t : Transaction) : bool :=
  if IsCallContract t then bool_decide (is_Some (smartContractState toAccountState)) else true.

Definition ValidDeploySmartContractToAccount `{Secp} (a : AccountState) (t : Transaction) : bool :=
  bool_decide (CreateAddress (address a) (nonce a) = ToAddress t).
Definition ValidOpenChannelToAccount `{Secp} (a : AccountState) (t : Transaction) : bool :=
  bool_decide (CreateAddress (address a) (nonce a) = ToAddress t).

Context `{TxProto}.

Definition ValidDeployData (t : Transaction) : outcome bool :=
  if IsDeployContract t then
    code ← Code (txDeployData t);
    Ok (negb (length code =? 0)%nat)
  else Ok true.

Definition ValidCallData (t : Transaction) : bool :=
  if IsCallContract t then negb (length (Input (txCallData t)) =? 0)%nat else true.

(** The first transaction of an account carries the BLS public key (48 bytes)
    and a secp256k1 signature (65 bytes) of it with the chain id.  The answer
    is the verdict and an error code. *)
Definition ValidTx0 `{Secp} `{Blst} (a : AccountState) (chainId : bytes) : stm Transaction (bool * Z) := fun t =>
  if (GetNonce t =? 0) && (length (publicKeyBls a) =? 0)%nat then
    let dataInput := Input (txCallData t) in
    if negb (length dataInput =? 113)%nat then (Ok (false, InvalidDataInputLengthForTx0), t)
    else
      let message := take 48 dataInput ++ chainId in
      let hash := Keccak256 message in
      (h ← Hash;
       mret
         (if negb (blsVerifySign (PubkeyFromBytes (take 48 dataInput)) (Sign t) h)
          then (false, InvalidBLSSignatureForTx0)
          else
            match RecoverPubkey hash (drop 48 dataInput) with
            | None => (false, FailedToRecoverPubkeyForTx0)
            | Some pb =>
                let addr := arrayFromBytes 20 (drop 12 (Keccak256 (drop 1 pb))) in
                if bool_decide (FromAddress t = ToAddress t) && bool_decide (addr = FromAddress t)
                then (true, 0)
                else (false, InvalidAddressMatchForTx0)
            end)) t
  else if (GetNonce t =? 0) && negb (length (publicKeyBls a) =? 0)%nat
  then (Ok (false, NonceZeroButPublicKeyNotEmpty), t)
  else (Ok (true, 0), t).

(** ** Encoding *)

Definition Marshal (t : Transaction) : outcome bytes := orErr (marshalTx (proto t)).

Definition Unmarshal (b : bytes) : stm Transaction unit := fun t =>
  match unmarshalTx b with
  | None => (Err (ErrText "proto"), t)
  | Some p => (Ok tt, FromProto p t)
  end.

Definition MarshalTransactions (ts : list Transaction) : outcome bytes := orErr (marshalTxs (TransactionsToProto ts)).
Definition UnmarshalTransactions (b : bytes) : outcome (list Transaction) :=
  ps ← orErr (unmarshalTxs b); Ok (TransactionsFromProto ps).

Definition MarshalTransactionsWithBlockNumber (ts : list Transaction) (blockNumber : Z) : outcome bytes :=
  orErr (marshalTxsBlock (proto <$> ts, blockNumber)).
Definition UnmarshalTransactionsWithBlockNumber (b : bytes) : outcome (list Transaction * Z) :=
  '(ps, n) ← orErr (unmarshalTxsBlock b); Ok (TransactionsFromProto ps, n).
End Valid.

(** *** [execute_sc_transactions.go] *)

Record ExecuteSCTransactions := mkExecuteSC {
  transactions : list Transaction;
  blockNumber : Z;
  groupId : Z
}.

Definition NewExecuteSCTransactions (ts : list Transaction) (groupId blockNumber : Z) : ExecuteSCTransactions :=
  mkExecuteSC ts blockNumber groupId.
Definition ExecuteSC_Proto (e : ExecuteSCTransactions) : list PbTransaction * Z * Z :=
  (proto <$> transactions e, groupId e, blockNumber e).
Definition ExecuteSC_FromProto (d : list PbTransaction * Z * Z) : ExecuteSCTransactions :=
  mkExecuteSC ((fun p => FromProto p (TransactionFromProto zeroPbTransaction)) <$> d.1.1) d.2 d.1.2.
Definition ExecuteSC_Marshal `{TxProto} (e : ExecuteSCTransactions) : outcome bytes :=
  orErr (marshalExecuteSC (ExecuteSC_Proto e)).
Definition ExecuteSC_Unmarshal `{TxProto} (b : bytes) : stm ExecuteSCTransactions unit := fun e =>
  match unmarshalExecuteSC b with
  | None => (Err (ErrText "proto"), e)
  | Some d => (Ok tt, ExecuteSC_FromProto d)
  end.
