(* ===== verification/EthTransaction.v ===== *)
(** * Ethereum transactions

    Models the conversions between go-ethereum's transactions and
    [pb.Transaction] in [pkg/transaction/eth_legacy.go], [eth_eip2930.go],
    [eth_eip1559.go] and [transaction.go], and the recovery of the sender.

    go-ethereum's [core/types] is a parameter: the transaction type with its
    constructor [NewTx] and accessors, and the recovery of a sender by a
    signer.  [TxData] has the fields of the struct literals the source builds;
    [VRS] is [None] when the source leaves V, R and S out. *)

From S2P Require Import Prelude Binary Transaction.

Local Open Scope Z_scope.

(** ** go-ethereum's transactions *)

Inductive TxData :=
| LegacyTx (Nonce GasPrice Gas : Z) (To : option bytes) (Value : Z) (Data : bytes) (VRS : option (Z * Z * Z))
| AccessListTx (ChainID Nonce GasPrice Gas : Z) (To : option bytes) (Value : Z) (Data : bytes)
    (AccessList : list AccessTuple) (VRS : option (Z * Z * Z))
| DynamicFeeTx (ChainID Nonce GasTipCap GasFeeCap Gas : Z) (To : option bytes) (Value : Z) (Data : bytes)
    (AccessList : list AccessTuple) (VRS : option (Z * Z * Z)).

Definition LegacyTxType : Z := 0.
Definition AccessListTxType : Z := 1.
Definition DynamicFeeTxType : Z := 2.
Definition BlobTxType : Z := 3.

Inductive Signer :=
| HomesteadSigner
| EIP155Signer (chainId : Z)
| LondonSigner (chainId : Z)
| CancunSigner (chainId : Z).

(** Pointers the source compares with nil are options. *)
Class EthTypes := {
  EthTx : Type;
  NewTx : TxData -> EthTx;
  ethType : EthTx -> Z;
  ethTo : EthTx -> option bytes;
  ethValue : EthTx -> Z;
  ethGas : EthTx -> Z;
  ethGasPrice : EthTx -> option Z;
  ethNonce : EthTx -> Z;
  ethData : EthTx -> bytes;
  ethChainId : EthTx -> option Z;
  ethGasTipCap : EthTx -> option Z;
  ethGasFeeCap : EthTx -> option Z;
  ethAccessList : EthTx -> list AccessTuple;
  ethSignature : EthTx -> option Z * option Z * option Z;
  Sender : Signer -> EthTx -> option bytes;
  signerHash : Signer -> EthTx -> bytes
}.

(** What the conversions rely on: the accessors read the fields that [NewTx]
    was given, the chain id of a legacy transaction is derived from V and is not
    negative, and a sender is an address. *)
Definition dataType (d : TxData) : Z :=
  match d with
  | LegacyTx _ _ _ _ _ _ _ => LegacyTxType
  | AccessListTx _ _ _ _ _ _ _ _ _ => AccessListTxType
  | DynamicFeeTx _ _ _ _ _ _ _ _ _ _ => DynamicFeeTxType
  end.
Definition dataTo (d : TxData) : option bytes :=
  match d with
  | LegacyTx _ _ _ to _ _ _ | AccessListTx _ _ _ _ to _ _ _ _ | DynamicFeeTx _ _ _ _ _ to _ _ _ _ => to
  end.
Definition dataValue (d : TxData) : Z :=
  match d with
  | LegacyTx _ _ _ _ z _ _ | AccessListTx _ _ _ _ _ z _ _ _ | DynamicFeeTx _ _ _ _ _ _ z _ _ _ => z
  end.
Definition dataGas (d : TxData) : Z :=
  match d with
  | LegacyTx _ _ z _ _ _ _ | AccessListTx _ _ _ z _ _ _ _ _ | DynamicFeeTx _ _ _ _ z _ _ _ _ _ => z
  end.
Definition dataNonce (d : TxData) : Z :=
  match d with
  | LegacyTx z _ _ _ _ _ _ | AccessListTx _ z _ _ _ _ _ _ _ | DynamicFeeTx _ z _ _ _ _ _ _ _ _ => z
  end.
Definition dataData (d : TxData) : bytes :=
  match d with
  | LegacyTx _ _ _ _ _ b _ | AccessListTx _ _ _ _ _ _ b _ _ | DynamicFeeTx _ _ _ _ _ _ _ b _ _ => b
  end.
Definition dataAccessList (d : TxData) : list AccessTuple :=
  match d with
  | LegacyTx _ _ _ _ _ _ _ => []
  | AccessListTx _ _ _ _ _ _ _ l _ | DynamicFeeTx _ _ _ _ _ _ _ _ l _ => l
  end.
Definition dataVRS (d : TxData) : option (Z * Z * Z) :=
  match d with
  | LegacyTx _ _ _ _ _ _ g | AccessListTx _ _ _ _ _ _ _ _ g | DynamicFeeTx _ _ _ _ _ _ _ _ _ g => g
  end.

Class EthTypesLaws `{EthTypes} : Prop := {
  NewTx_type d : ethType (NewTx d) = dataType d;
  NewTx_to d : ethTo (NewTx d) = dataTo d;
  NewTx_value d : ethValue (NewTx d) = dataValue d;
  NewTx_gas d : ethGas (NewTx d) = dataGas d;
  NewTx_nonce d : ethNonce (NewTx d) = dataNonce d;
  NewTx_data d : ethData (NewTx d) = dataData d;
  NewTx_accessList d : ethAccessList (NewTx d) = dataAccessList d;
  NewTx_signature d v r s : dataVRS d = Some (v, r, s) -> ethSignature (NewTx d) = (Some v, Some r, Some s);
  NewTx_legacy_price n p g to z b vrs : ethGasPrice (NewTx (LegacyTx n p g to z b vrs)) = Some p;
  NewTx_list_price c n p g to z b l vrs : ethGasPrice (NewTx (AccessListTx c n p g to z b l vrs)) = Some p;
  NewTx_tip c n p q g to z b l vrs : ethGasTipCap (NewTx (DynamicFeeTx c n p q g to z b l vrs)) = Some p;
  NewTx_cap c n p q g to z b l vrs : ethGasFeeCap (NewTx (DynamicFeeTx c n p q g to z b l vrs)) = Some q;
  NewTx_legacy_chain n p g to z b vrs :
    exists c, ethChainId (NewTx (LegacyTx n p g to z b vrs)) = Some c /\ 0 <= c;
  NewTx_list_chain c n p g to z b l vrs : ethChainId (NewTx (AccessListTx c n p g to z b l vrs)) = Some c;
  NewTx_fee_chain c n p q g to z b l vrs : ethChainId (NewTx (DynamicFeeTx c n p q g to z b l vrs)) = Some c;
  Sender_len sg tx a : Sender sg tx = Some a -> length a = 20%nat
}.

(** ** From [pb.Transaction] *)

Section To.
Context `{EthLib} `{TxProto} `{EthTypes}.

Definition toAddressPtr (tx : PbTransaction) : option bytes :=
  if (0 <? length (pToAddress tx))%nat then Some (BytesToAddress (pToAddress tx)) else None.

Definition nonceUint64 (tx : PbTransaction) : Z :=
  if (0 <? length (pNonce tx))%nat then bigUint64 (bigSetBytes (pNonce tx)) else 0.

Definition toEthAccessList (l : list AccessTuple) : list AccessTuple :=
  (fun item => mkAccessTuple (BytesToAddress (aAddress item)) (BytesToHash <$> aStorageKeys item)) <$> l.

(** v, r and s; none of the three is ever nil. *)
Definition extractSignature (tx : PbTransaction) : Z * Z * Z :=
  (bigSetBytes (pV tx), bigSetBytes (pR tx), bigSetBytes (pS tx)).

Definition ToEthTransaction (t : Transaction) : outcome (option EthTx) :=
  let tx := proto t in
  let data := if IsCallContract t then Input (txCallData t) else [] in
  data ← (if IsDeployContract t then Code (txDeployData t) else Ok data);
  if pType tx =? LegacyTxType then
    Ok (Some (NewTx (LegacyTx (nonceUint64 tx) (pMaxGasPrice tx) (pMaxGas tx) (toAddressPtr tx)
      (bigSetBytes (pAmount tx)) data (Some (extractSignature tx)))))
  else if pType tx =? AccessListTxType then
    if pChainID tx =? 0 then Ok None
    else if pMaxGasPrice tx =? 0 then Ok None
    else Ok (Some (NewTx (AccessListTx (pChainID tx) (nonceUint64 tx) (pMaxGasPrice tx) (pMaxGas tx)
      (toAddressPtr tx) (bigSetBytes (pAmount tx)) data (toEthAccessList (pAccessList tx))
      (Some (extractSignature tx)))))
  else if pType tx =? DynamicFeeTxType then
    if pChainID tx =? 0 then Ok None
    else match pGasTipCap tx, pGasFeeCap tx with
         | Some tip, Some cap =>
             Ok (Some (NewTx (DynamicFeeTx (pChainID tx) (nonceUint64 tx) (bigSetBytes tip) (bigSetBytes cap)
               (pMaxGas tx) (toAddressPtr tx) (bigSetBytes (pAmount tx)) data (toEthAccessList (pAccessList tx))
               (Some (extractSignature tx)))))
         | _, _ => Ok None
         end
  else Ok None.

(** The conversions of one kind take the stored data as they are. *)

Definition legacySignature (tx : PbTransaction) : option (Z * Z * Z) :=
  if (length (pSign tx) =? 65)%nat then
    let r := bigSetBytes (take 32 (pSign tx)) in
    let s := bigSetBytes (take 32 (drop 32 (pSign tx))) in
    let vRaw := default 0 (pSign tx !! 64%nat) in
    let v := if 0 <? pChainID tx then vRaw + (pChainID tx * 2 + 35) else wrap8 (vRaw + 27) in
    Some (v, r, s)
  else if (0 <? length (pR tx))%nat && (0 <? length (pS tx))%nat && (0 <? length (pV tx))%nat then
    Some (bigSetBytes (pV tx), bigSetBytes (pR tx), bigSetBytes (pS tx))
  else None.

Definition ToEthLegacyTx (tx : PbTransaction) : option EthTx :=
  if negb (pType tx =? 0) && negb (pType tx =? LegacyTxType) then None
  else Some (NewTx (LegacyTx (bigUint64 (bigSetBytes (pNonce tx))) (pMaxGasPrice tx) (pMaxGas tx)
    (toAddressPtr tx) (bigSetBytes (pAmount tx)) (pData tx) (legacySignature tx))).

Definition ToEthEIP2930Tx (tx : PbTransaction) : option EthTx :=
  if negb (pType tx =? AccessListTxType) then None
  else if pChainID tx =? 0 then None
  else if pMaxGasPrice tx =? 0 then None
  else Some (NewTx (AccessListTx (pChainID tx) (nonceUint64 tx) (pMaxGasPrice tx) (pMaxGas tx)
    (toAddressPtr tx) (bigSetBytes (pAmount tx)) (pData tx) (toEthAccessList (pAccessList tx))
    (Some (extractSignature tx)))).

Definition ToEthEIP1559Tx (tx : PbTransaction) : option EthTx :=
  if negb (pType tx =? DynamicFeeTxType) then None
  else if pChainID tx =? 0 then None
  else match pGasTipCap tx, pGasFeeCap tx with
       | Some tip, Some cap =>
           Some (NewTx (DynamicFeeTx (pChainID tx) (nonceUint64 tx) (bigSetBytes tip) (bigSetBytes cap)
             (pMaxGas tx) (toAddressPtr tx) (bigSetBytes (pAmount tx)) (pData tx)
             (toEthAccessList (pAccessList tx)) (Some (extractSignature tx))))
       | _, _ => None
       end.
End To.

(** ** To [pb.Transaction] *)

(** [0xda7284fac5e804f8b9d71aa39310f0f86776b51d] *)
Definition storageAddressForDeploy : bytes :=
  [0xda; 0x72; 0x84; 0xfa; 0xc5; 0xe8; 0x04; 0xf8; 0xb9; 0xd7; 0x1a; 0xa3; 0x93; 0x10; 0xf0; 0xf8; 0x67;
   0x76; 0xb5; 0x1d].

Section From.
Context `{TxProto} `{EthTypes}.

Definition prepareTransactionSpecificData (ethTx : EthTx) (storageAddress : bytes) : outcome bytes :=
  let txData := ethData ethTx in
  match ethTo ethTx with
  | None => if (0 <? length txData)%nat then DeployData_Marshal (NewDeployData txData storageAddress) else Ok []
  | Some _ => if (0 <? length txData)%nat then CallData_Marshal (NewCallData txData) else Ok []
  end.

(** The recovery id stored in the last byte of [Sign]. *)
Definition legacyRecoveryID (txChainID : option Z) (v : Z) : Z :=
  match txChainID with
  | Some c =>
      if negb (c =? 0) then wrap8 (bigUint64 (v - (c * 2 + 35)))
      else
        let recoveryID := wrap8 (bigUint64 (v - 27)) in
        if recoveryID >? 1 then
          if bigUint64 (v - 28) <=? 1 then wrap8 (bigUint64 (v - 28)) else recoveryID
        else recoveryID
  | None =>
      let recoveryID := wrap8 (bigUint64 (v - 27)) in
      if recoveryID >? 1 then
        if bigUint64 (v - 28) <=? 1 then wrap8 (bigUint64 (v - 28)) else recoveryID
      else recoveryID
  end.

Definition legacySigner (txChainID : option Z) : Signer :=
  match txChainID with
  | Some c => if negb (c =? 0) then EIP155Signer c else HomesteadSigner
  | None => HomesteadSigner
  end.

Definition clearSignature : stm PbTransaction unit :=
  modify (set_pR []);; modify (set_pS []);; modify (set_pV []);; modify (set_pSign []).

(** R, S and V, the sender, and [Sign] as R || S || recovery id, where the big
    integers lose leading zeros. *)
Definition storeSignature (ethTx : EthTx) (signer : Signer) (v r s recoveryID : Z) : stm PbTransaction unit :=
  modify (set_pV (bigBytes v));; modify (set_pR (bigBytes r));; modify (set_pS (bigBytes s));;
  fromAddress ← lift (match Sender signer ethTx with
                      | Some a => Ok a
                      | None => Err (ErrText "error deriving sender")
                      end);
  modify (set_pFromAddress fromAddress);;
  modify (set_pSign (bigBytes r ++ bigBytes s ++ [recoveryID])).

Definition FromEthLegacyTx (ethTx : EthTx) : stm PbTransaction unit :=
  if negb (ethType ethTx =? LegacyTxType) then lift (Err (ErrText "not a legacy transaction"))
  else
    modify (set_pType LegacyTxType);;
    modify (set_pToAddress (default [] (ethTo ethTx)));;
    modify (set_pAmount (bigBytes (ethValue ethTx)));;
    modify (set_pMaxGas (ethGas ethTx));;
    gasPrice ← lift (match ethGasPrice ethTx with Some g => Ok g | None => Panic end);
    modify (set_pMaxGasPrice (bigUint64 gasPrice));;
    modify (set_pNonce (PutUint64 (ethNonce ethTx)));;
    data ← lift (prepareTransactionSpecificData ethTx storageAddressForDeploy);
    modify (set_pData data);;
    (match ethSignature ethTx with
     | (Some v, Some r, Some s) =>
         storeSignature ethTx (legacySigner (ethChainId ethTx)) v r s (legacyRecoveryID (ethChainId ethTx) v)
     | _ => clearSignature
     end);;
    modify (set_pChainID (match ethChainId ethTx with Some c => bigUint64 c | None => 0 end));;
    modify (set_pMaxTimeUse 0);;
    modify (set_pRelatedAddresses []);;
    modify (set_pLastDeviceKey []);;
    modify (set_pNewDeviceKey []);;
    modify (set_pReadOnly false);;
    modify (set_pGasTipCap None);;
    modify (set_pGasFeeCap None);;
    modify (set_pAccessList []).

(** The last byte of [v.Bytes()], or 0 when it is empty. *)
Definition yParity (v : Z) : Z := default 0 (last (bigBytes v)).

Definition FromEthEIP2930Tx (ethTx : EthTx) : stm PbTransaction unit :=
  if negb (ethType ethTx =? AccessListTxType) then lift (Err (ErrText "not an EIP-2930 transaction"))
  else
    modify (set_pType AccessListTxType);;
    modify (set_pToAddress (default [] (ethTo ethTx)));;
    txChainID ← lift (match ethChainId ethTx with Some c => Ok c | None => Err (ErrText "missing ChainID") end);
    modify (set_pChainID (bigUint64 txChainID));;
    modify (set_pAmount (bigBytes (ethValue ethTx)));;
    modify (set_pMaxGas (ethGas ethTx));;
    gasPrice ← lift (match ethGasPrice ethTx with Some g => Ok g | None => Err (ErrText "missing GasPrice") end);
    modify (set_pMaxGasPrice (bigUint64 gasPrice));;
    modify (set_pNonce (PutUint64 (ethNonce ethTx)));;
    data ← lift (prepareTransactionSpecificData ethTx storageAddressForDeploy);
    modify (set_pData data);;
    modify (set_pAccessList (ethAccessList ethTx));;
    (match ethSignature ethTx with
     | (Some v, Some r, Some s) => storeSignature ethTx (LondonSigner txChainID) v r s (yParity v)
     | _ => clearSignature
     end);;
    modify (set_pMaxTimeUse 0);;
    modify (set_pRelatedAddresses []);;
    modify (set_pLastDeviceKey []);;
    modify (set_pNewDeviceKey []);;
    modify (set_pReadOnly false);;
    modify (set_pGasTipCap None);;
    modify (set_pGasFeeCap None).

(** The fee caps are stored only when they are not nil, and the fields that an
    Ethereum transaction does not have are left as they are. *)
Definition FromEthEIP1559Tx (ethTx : EthTx) : stm PbTransaction unit :=
  if negb (ethType ethTx =? DynamicFeeTxType) then lift (Err (ErrText "not an EIP-1559 transaction"))
  else
    modify (set_pType DynamicFeeTxType);;
    modify (set_pToAddress (default [] (ethTo ethTx)));;
    modify (set_pAmount (bigBytes (ethValue ethTx)));;
    modify (set_pMaxGas (ethGas ethTx));;
    modify (set_pNonce (PutUint64 (ethNonce ethTx)));;
    data ← lift (prepareTransactionSpecificData ethTx storageAddressForDeploy);
    modify (set_pData data);;
    txChainID ← lift (match ethChainId ethTx with Some c => Ok c | None => Err (ErrText "missing ChainID") end);
    modify (set_pChainID (bigUint64 txChainID));;
    (match ethGasTipCap ethTx with Some c => modify (set_pGasTipCap (Some (bigBytes c))) | None => mret tt end);;
    (match ethGasFeeCap ethTx with Some c => modify (set_pGasFeeCap (Some (bigBytes c))) | None => mret tt end);;
    modify (set_pMaxGasPrice 0);;
    modify (set_pAccessList (ethAccessList ethTx));;
    (match ethSignature ethTx with
     | (Some v, Some r, Some s) => storeSignature ethTx (LondonSigner txChainID) v r s (yParity v)
     | _ => clearSignature
     end).

Definition FromEthTransaction (ethTx : EthTx) : stm PbTransaction unit :=
  if ethType ethTx =? LegacyTxType then FromEthLegacyTx ethTx
  else if ethType ethTx =? AccessListTxType then FromEthEIP2930Tx ethTx
  else if ethType ethTx =? DynamicFeeTxType then FromEthEIP1559Tx ethTx
  else lift (Err (ErrText "unsupported Ethereum transaction type")).

Definition NewTransactionFromEth (ethTx : EthTx) : outcome Transaction :=
  match FromEthTransaction ethTx zeroPbTransaction with
  | (Ok _, pTx) => Ok (TransactionFromProto pTx)
  | (Err e, _) => Err e
  | (Panic, _) => Panic
  | (NoFuel, _) => NoFuel
  end.
End From.

(** ** The sender of an Ethereum transaction *)

Section Derive.
Context `{EthTypes}.

(** The chain id of a typed transaction must be positive. *)
Definition positiveChainId (ethTx : EthTx) : outcome Z :=
  match ethChainId ethTx with
  | Some c => if c <=? 0 then Err (ErrText "missing a valid chainID") else Ok c
  | None => Err (ErrText "missing a valid chainID")
  end.

Definition chooseSigner (ethTx : EthTx) (chainID : option Z) : outcome Signer :=
  if ethType ethTx =? LegacyTxType then
    let matching := match chainID, ethChainId ethTx with Some c, Some c' => (c >? 0) && (c' =? c) | _, _ => false end in
    Ok (if matching then EIP155Signer (default 0 chainID)
        else match ethChainId ethTx with
             | None => HomesteadSigner
             | Some c => if c =? 0 then HomesteadSigner else EIP155Signer c
             end)
  else if (ethType ethTx =? AccessListTxType) || (ethType ethTx =? DynamicFeeTxType) then
    c ← positiveChainId ethTx; Ok (LondonSigner c)
  else if ethType ethTx =? BlobTxType then
    c ← positiveChainId ethTx; Ok (CancunSigner c)
  else Err (ErrText "unsupported transaction type").

Definition DeriveSenderFromEthTransaction (ethTx : EthTx) (chainID : option Z) : outcome bytes :=
  signer ← chooseSigner ethTx chainID;
  match Sender signer ethTx with
  | Some sender => Ok sender
  | None => Err (ErrText "failed to derive sender")
  end.

(** [big.Int.FillBytes] into [n] bytes panics when the value does not fit. *)
Definition FillBytes (n : nat) (z : option Z) : outcome bytes :=
  match z with
  | None => Panic
  | Some z => if Z.abs z <? 256 ^ Z.of_nat n then Ok (beBytes n (Z.abs z)) else Panic
  end.

Definition recoveryId (ethTx : EthTx) (v : Z) : outcome Z :=
  if ethType ethTx =? LegacyTxType then
    match ethChainId ethTx with
    | None => Panic
    | Some c => if negb (c =? 0) then Ok (v - c * 2 - 35) else Ok (v - 27)
    end
  else Ok v.

Definition DerivePublicKeyFromEthTransaction `{Secp} (ethTx : EthTx) (chainID : option Z) : outcome bytes :=
  signer ← chooseSigner ethTx chainID;
  let txHash := signerHash signer ethTx in
  match ethSignature ethTx with
  | (v, r, s) =>
      rb ← FillBytes 32 r;
      sb ← FillBytes 32 s;
      v ← (match v with Some v => Ok v | None => Panic end);
      recID ← recoveryId ethTx v;
      let signature := rb ++ sb ++ [wrap8 (bigUint64 recID)] in
      match SigToPub txHash signature with
      | Some pubKey => Ok pubKey
      | None => Err (ErrText "failed to recover public key")
      end
  end.

Context `{EthLib} `{TxProto}.

Definition ValidEthSign (t : Transaction) : outcome bool :=
  o ← ToEthTransaction t;
  match o with
  | None => Ok false
  | Some ethTx =>
      match DeriveSenderFromEthTransaction ethTx (Some (pChainID (proto t))) with
      | Ok from => Ok (bool_decide (from = FromAddress t))
      | Err _ => Ok false
      | Panic => Panic
      | NoFuel => NoFuel
      end
  end.

Definition ValidSecpSign `{Secp} (t : Transaction) : outcome bool :=
  if pType (proto t) =? 255 then (ValidSecpProtoSign t).1 else ValidEthSign t.
End Derive.
