(* ===== verification/TxInstances.v ===== *)
(** * Concrete parameters for transactions

    Executable instances of the message codec, the signatures and
    go-ethereum's transactions, with proofs of their laws: they show that the
    laws can hold together, and the witnesses are evaluated on them. *)

From S2P Require Import Prelude Binary TrieEncoding TrieNode Instances AccountState Transaction EthTransaction.

Local Open Scope Z_scope.

(** ** Codec: every field length-prefixed, in order *)

Definition encFields (l : list bytes) : bytes := mjoin (framed <$> l).
Definition decFields (b : bytes) : list bytes := unframeAll (length b) b.

Lemma decFields_enc l : decFields (encFields l) = l.
Proof. apply unframeAll_framed, length_framed. Qed.

Definition encBool (b : bool) : bytes := [if b then 1 else 0].
Definition decBool (b : bytes) : bool := bool_decide (b = [1]).
Definition decZ (b : bytes) : Z := default 0 (head b).
Definition decOpt (b : bytes) : option bytes := match b with [] => None | _ => Some b end.
Definition encTuple (a : AccessTuple) : bytes := encFields (aAddress a :: aStorageKeys a).
Definition decTuple (b : bytes) : AccessTuple :=
  match decFields b with a :: ks => mkAccessTuple a ks | [] => mkAccessTuple [] [] end.

Lemma decOpt_wire o : decOpt (default [] o) = wireBytes o.
Proof. by destruct o as [[|]|]. Qed.
Lemma decBool_enc b : decBool (encBool b) = b.
Proof. by destruct b. Qed.
Lemma decTuple_enc a : decTuple (encTuple a) = a.
Proof. unfold decTuple, encTuple. rewrite decFields_enc. by destruct a. Qed.
Lemma decTuples_enc l : decTuple <$> decFields (encFields (encTuple <$> l)) = l.
Proof.
  rewrite decFields_enc, <- list_fmap_compose. rewrite <- (list_fmap_id l) at 2.
  apply list_fmap_ext. intros. apply decTuple_enc.
Qed.
Create Rewrite HintDb codec.
#[local] Hint Rewrite decFields_enc decOpt_wire decBool_enc decTuples_enc : codec.

Definition encTx (p : PbTransaction) : bytes :=
  encFields
   [
    pToAddress p; pAmount p; [pMaxGas p]; [pMaxGasPrice p]; [pMaxTimeUse p]; pData p;
    encFields (pRelatedAddresses p); pLastDeviceKey p; pNewDeviceKey p; pSign p; pNonce p; pFromAddress p;
    encBool (pReadOnly p); [pChainID p]; [pType p]; pR p; pS p; pV p; default [] (pGasTipCap p);
    default [] (pGasFeeCap p); encFields (encTuple <$> pAccessList p)].

Definition decTx (b : bytes) : option PbTransaction :=
  match decFields b with
  | [x0; x1; x2; x3; x4; x5; x6; x7; x8; x9; x10; x11; x12; x13; x14; x15; x16; x17; x18; x19; x20] =>
      Some (mkPbTx
        x0 x1 (decZ x2) (decZ x3) (decZ x4) x5 (decFields x6) x7 x8 x9 x10 x11 (decBool x12) (decZ x13)
        (decZ x14) x15 x16 x17 (decOpt x18) (decOpt x19) (decTuple <$> decFields x20))
  | _ => None
  end.

Lemma decTx_enc p : decTx (encTx p) = Some (wire p).
Proof. unfold decTx, encTx. rewrite decFields_enc. autorewrite with codec. done. Qed.

Lemma decTxs_enc ps : mapM decTx (encTx <$> ps) = Some (wire <$> ps).
Proof. apply mapM_Some, Forall2_fmap, Forall_Forall2_diag, Forall_true. intros. apply decTx_enc. Qed.

Definition encHash (h : TransactionHashData) : bytes :=
  encFields
   [hFromAddress h; hToAddress h; hAmount h; [hMaxGas h]; [hMaxGasPrice h]; [hMaxTimeUse h]; hData h;
    [hType h]; hLastDeviceKey h; hNewDeviceKey h; hNonce h; [hChainID h]; hR h; hS h; hV h;
    default [] (hGasTipCap h); default [] (hGasFeeCap h); encFields (encTuple <$> hAccessList h)].

Definition decHash (b : bytes) : option TransactionHashData :=
  match decFields b with
  | [x0; x1; x2; x3; x4; x5; x6; x7; x8; x9; x10; x11; x12; x13; x14; x15; x16; x17] =>
      Some (mkHashData
        x0 x1 x2 (decZ x3) (decZ x4) (decZ x5) x6 (decZ x7) x8 x9 x10 (decZ x11) x12 x13 x14 (decOpt x15)
        (decOpt x16) (decTuple <$> decFields x17))
  | _ => None
  end.

Lemma decHash_enc h : decHash (encHash h) = Some (wireHash h).
Proof. unfold decHash, encHash. rewrite decFields_enc. autorewrite with codec. done. Qed.

#[export] Instance toyTxProto : TxProto := {|
  marshalTx p := Some (encTx p);
  unmarshalTx b := decTx b;
  marshalHashData h := Some (encHash h);
  marshalCallData i := Some (encFields [i]);
  unmarshalCallData b := match decFields b with [i] => Some i | _ => None end;
  marshalDeployData d := Some (encFields [pCode d; pDeployStorage d]);
  unmarshalDeployData b := match decFields b with [c; s] => Some (mkPbDeploy c s) | _ => None end;
  marshalTxs ps := Some (encFields (encTx <$> ps));
  unmarshalTxs b := mapM decTx (decFields b);
  marshalTxsBlock x := Some (encFields ([x.2] :: (encTx <$> x.1)));
  unmarshalTxsBlock b :=
    match decFields b with n :: l => ps ← mapM decTx l; Some (ps, decZ n) | [] => None end;
  marshalExecuteSC x := Some (encFields ([x.1.2] :: [x.2] :: (encTx <$> x.1.1)));
  unmarshalExecuteSC b :=
    match decFields b with g :: n :: l => ps ← mapM decTx l; Some (ps, decZ g, decZ n) | _ => None end
|}.

Lemma encHash_wire h : encHash (wireHash h) = encHash h.
Proof. destruct h as [? ? ? ? ? ? ? ? ? ? ? ? ? ? ? [[|]|] [[|]|] ?]; done. Qed.

#[export] Instance toyTxProtoLaws : TxProtoLaws.
Proof.
  split; cbn [marshalTx unmarshalTx marshalHashData marshalCallData unmarshalCallData marshalDeployData
    unmarshalDeployData marshalTxs unmarshalTxs marshalTxsBlock unmarshalTxsBlock marshalExecuteSC
    unmarshalExecuteSC toyTxProto fst snd].
  - intros p. exists (encTx p). by rewrite decTx_enc.
  - done.
  - intros h1 h2 b E1 E2. assert (E : encHash h1 = encHash h2) by (apply (inj Some); congruence).
    apply (f_equal decHash) in E. rewrite !decHash_enc in E. by apply (inj Some).
  - intros h. by rewrite encHash_wire.
  - intros i. eexists; split_and!; [done| |done]. by rewrite decFields_enc.
  - intros [c s]. eexists; split_and!; [done| |done]. by rewrite decFields_enc.
  - intros ps. eexists; split; [done|]. by rewrite decFields_enc, decTxs_enc.
  - intros ps n. eexists; split; [done|]. rewrite decFields_enc. cbn [mbind option_bind]. by rewrite decTxs_enc.
  - intros ps g n. eexists; split; [done|]. rewrite decFields_enc. cbn [mbind option_bind]. by rewrite decTxs_enc.
Qed.

(** ** Signatures: the signature carries the key *)

#[export] Instance toySecp : Secp := {|
  cryptoSign h k := if negb (length h =? 32)%nat then Err (ErrText "hash is required to be exactly 32 bytes") else Ok (arrayFromBytes 32 k ++ (replicate 31 0 ++ [1]) ++ [0]);
  SigToPub h sig := Some (take 32 sig);
  PubkeyToAddress pk := drop 12 (toyKeccak pk);
  ValidateSignatureValues v r s homestead := (v =? 0) && (s =? 1);
  RecoverPubkey h sig := Some (4 :: take 32 sig);
  CreateAddress a n := drop 12 (toyKeccak (a ++ [n]));
  pubkeyOf k := arrayFromBytes 32 k
|}.

#[export] Instance toySecpLaws : SecpLaws.
Proof.
  split.
  - intros h k sig. cbn [cryptoSign toySecp]. destruct (negb _); [done|]. intros [= <-]. pose proof (length_arrayFromBytes 32 k) as L. split_and!.
    + rewrite length_app, L. done.
    + exists 0. split_and!; [|lia..|].
      * rewrite (drop_app_ge _ _ 64) by lia. rewrite L. done.
      * rewrite (drop_app_ge _ _ 32) by lia. rewrite L. done.
    + simpl. by rewrite take_app_le, take_ge by lia.
  - intros pk. reflexivity.
Qed.

#[export] Instance toyBlst : Blst := {|
  blstSign k m := Some (arrayFromBytes 96 (toyKeccak m ++ k));
  blstVerify sig pub m := Some (bool_decide (take 32 sig = toyKeccak m))
|}.

(** ** go-ethereum's transactions: the data themselves; the sender is a hash of R *)

#[export] Instance toyEthTypes : EthTypes := {|
  EthTx := TxData;
  NewTx := id;
  ethType := dataType;
  ethTo := dataTo;
  ethValue := dataValue;
  ethGas := dataGas;
  ethGasPrice d := match d with
    | LegacyTx _ p _ _ _ _ _ | AccessListTx _ _ p _ _ _ _ _ _ | DynamicFeeTx _ _ _ p _ _ _ _ _ _ => Some p end;
  ethNonce := dataNonce;
  ethData := dataData;
  ethChainId d := match d with
    | LegacyTx _ _ _ _ _ _ (Some (v, _, _)) =>
        Some (if (v =? 27) || (v =? 28) then 0 else Z.max 0 ((v - 35) / 2))
    | LegacyTx _ _ _ _ _ _ None => Some 0
    | AccessListTx c _ _ _ _ _ _ _ _ | DynamicFeeTx c _ _ _ _ _ _ _ _ _ => Some c end;
  ethGasTipCap d := match d with
    | LegacyTx _ p _ _ _ _ _ | AccessListTx _ _ p _ _ _ _ _ _ | DynamicFeeTx _ _ p _ _ _ _ _ _ _ => Some p end;
  ethGasFeeCap d := match d with
    | LegacyTx _ p _ _ _ _ _ | AccessListTx _ _ p _ _ _ _ _ _ | DynamicFeeTx _ _ _ p _ _ _ _ _ _ => Some p end;
  ethAccessList := dataAccessList;
  ethSignature d := match dataVRS d with Some (v, r, s) => (Some v, Some r, Some s) | None => (Some 0, Some 0, Some 0) end;
  Sender sg d := match dataVRS d with Some (v, r, s) => Some (drop 12 (toyKeccak (bigBytes r))) | None => None end;
  signerHash sg d := toyKeccak (dataData d)
|}.

#[export] Instance toyEthTypesLaws : EthTypesLaws.
Proof.
  split; try done.
  - intros d v r s E. simpl. by rewrite E.
  - intros. destruct vrs as [[[v r] s]|]; eexists; (split; [done|]); [|done]. case_match; lia.
  - intros sg tx a E. simpl in E. repeat case_match; try done. by injection E as <-.
Qed.
