(* ===== verification/TransactionTheorems.v ===== *)
(** * Transactions: theorems

    The cached hashes agree with the message through every setter; a type-0xFF
    signature verifies and binds the signed fields; the funds checks and the
    first transaction of an account. *)

From S2P Require Import Prelude Binary AccountState Instances Transaction EthTransaction TxInstances.

Local Open Scope Z_scope.

(** ** The cached hashes *)

Section Cache.
Context `{EthLib} `{TxProto} `{Secp} `{Blst}.

(** The calls that act on a transaction object, other than [FromProto] and
    [Unmarshal]. *)
Inductive txOp :=
| OpUpdateRelatedAddresses (l : list bytes)
| OpAddRelatedAddress (a : bytes)
| OpUpdateDeriver (l n : bytes)
| OpSetReadOnly (b : bool)
| OpSetType (ty : Z)
| OpSetGasFeeCap (c : option Z)
| OpSetSignBytes (b : bytes)
| OpSetMaxGasPrice (z : Z)
| OpSetNonce (z : Z)
| OpSetFromAddress (a : bytes)
| OpSetToAddress (a : bytes)
| OpSetSignatureValues (c v r s : Z)
| OpSetIsDebug (b : bool)
| OpHash
| OpSigningHash
| OpRHash
| OpSetSign (k : bytes)
| OpValidSign (pk : bytes)
| OpSignSecpProto (k : bytes)
| OpValidSecpProtoSign.

Definition runOp (t : Transaction) (o : txOp) : Transaction :=
  match o with
  | OpUpdateRelatedAddresses l => UpdateRelatedAddresses l t
  | OpAddRelatedAddress a => AddRelatedAddress a t
  | OpUpdateDeriver l n => UpdateDeriver l n t
  | OpSetReadOnly b => SetReadOnly b t
  | OpSetType ty => SetType ty t
  | OpSetGasFeeCap c => SetGasFeeCap c t
  | OpSetSignBytes b => SetSignBytes b t
  | OpSetMaxGasPrice z => SetMaxGasPrice z t
  | OpSetNonce z => SetNonce z t
  | OpSetFromAddress a => SetFromAddress a t
  | OpSetToAddress a => SetToAddress a t
  | OpSetSignatureValues c v r s => SetSignatureValues c v r s t
  | OpSetIsDebug b => SetIsDebug b t
  | OpHash => (Hash t).2
  | OpSigningHash => (SigningHash t).2
  | OpRHash => (RHash t).2
  | OpSetSign k => (SetSign k t).2
  | OpValidSign pk => (ValidSign pk t).2
  | OpSignSecpProto k => (SignSecpProto k t).2
  | OpValidSecpProtoSign => (ValidSecpProtoSign t).2
  end.

Definition signingHashOf (p : PbTransaction) : bytes :=
  match marshalHashData (signingData p) with Some b => Keccak256 b | None => zeroHash end.

(** A cached hash is the hash of the message held. *)
Definition coherent (t : Transaction) : Prop :=
  (cachedHash t = None \/ cachedHash t = Some (hashOf (hashData (proto t)))) /\
  (cachedSigningHash t = None \/ cachedSigningHash t = Some (signingHashOf (proto t))) /\
  (cachedRHash t = None \/ cachedRHash t = Some (hashOf (rHashData (proto t)))).

Lemma coherent_clear t : coherent (ClearCacheHash t).
Proof. repeat split; by left. Qed.

Lemma coherent_fresh p : coherent (TransactionFromProto p).
Proof. repeat split; by left. Qed.

(** [Sign] is in none of the three hashes. *)
Lemma coherent_sign b t : coherent t -> coherent (assign (set_pSign b) t).
Proof. done. Qed.

Lemma Hash_spec t :
  coherent t -> (Hash t).1 = Ok (hashOf (hashData (proto t))) /\ coherent (Hash t).2 /\ proto (Hash t).2 = proto t.
Proof.
  intros (C1 & C2 & C3). unfold Hash. destruct C1 as [C1|C1]; rewrite C1; simpl;
    (split_and!; [done| |done]); repeat split; auto.
Qed.

Lemma SigningHash_spec t :
  coherent t -> (SigningHash t).1 = Ok (signingHashOf (proto t)) /\ coherent (SigningHash t).2 /\
    proto (SigningHash t).2 = proto t.
Proof.
  intros (C1 & C2 & C3). unfold SigningHash, signingHashOf in *.
  destruct C2 as [C2|C2]; rewrite C2; [destruct (marshalHashData _) eqn:E|]; simpl;
    (split_and!; [done| |done]); repeat split; auto.
  right. simpl. unfold signingHashOf. by rewrite E.
Qed.

Lemma RHash_spec t :
  coherent t -> (RHash t).1 = Ok (hashOf (rHashData (proto t))) /\ coherent (RHash t).2 /\ proto (RHash t).2 = proto t.
Proof.
  intros (C1 & C2 & C3). unfold RHash. destruct C3 as [C3|C3]; rewrite C3; simpl;
    (split_and!; [done| |done]); repeat split; auto.
Qed.

Lemma ValidSecpProtoSign_state t : coherent t ->
  coherent (ValidSecpProtoSign t).2 /\ proto (ValidSecpProtoSign t).2 = proto t.
Proof.
  intros C. unfold ValidSecpProtoSign. repeat case_match; try done.
  destruct (SigningHash_spec t C) as (E & C' & P).
  unfold mbind, stm_bind. destruct (SigningHash t) as [r t']; simpl in *. by subst r.
Qed.

Lemma SignSecpProto_coherent k t : coherent (SignSecpProto k t).2.
Proof.
  unfold SignSecpProto, modify, lift, mbind, stm_bind. simpl.
  set (t1 := ClearCacheHash _). destruct (SigningHash_spec t1 (coherent_clear _)) as (E & C' & P).
  destruct (SigningHash t1) as [r t']; simpl in *. subst r.
  destruct (cryptoSign _ _); simpl; try done. case_match; simpl; [done|]. apply coherent_clear.
Qed.

Lemma runOp_coherent t o : coherent t -> coherent (runOp t o).
Proof.
  intros C. destruct o; simpl; try apply coherent_clear; try done.
  - unfold AddRelatedAddress. case_match; [done|apply coherent_clear].
  - by apply Hash_spec.
  - by apply SigningHash_spec.
  - by apply RHash_spec.
  - unfold SetSign, mbind, stm_bind, modify. destruct (Hash_spec t C) as (E & C' & P).
    destruct (Hash t) as [r t']; simpl in *. subst r. by apply coherent_sign.
  - unfold ValidSign, mbind, stm_bind. destruct (Hash_spec t C) as (E & C' & P).
    destruct (Hash t) as [r t']; simpl in *. by subst r.
  - apply SignSecpProto_coherent.
  - by apply ValidSecpProtoSign_state.
Qed.

Lemma runOps_coherent ops t : coherent t -> coherent (foldl runOp t ops).
Proof. revert t. induction ops as [|o ops IH]; intros t C; [done|]. apply IH, runOp_coherent, C. Qed.
End Cache.

(** C15 (invariant). Whatever calls of setters, signing, verification and
    hash functions have been made on a transaction made from a message, [Hash],
    [SigningHash] and [RHash] answer the hashes of the message as it is now,
    cached or not; while [FromProto] (and so [Unmarshal]) on an object whose
    hash was asked for before keeps answering the hash of the old message. *)
Theorem tx_hash_coherent `{EthLib} `{TxProto} `{Secp} `{Blst} (p p' : PbTransaction) (ops : list txOp) :
  let t := foldl runOp (TransactionFromProto p) ops in
  (Hash t).1 = Ok (hashOf (hashData (proto t))) /\
  (SigningHash t).1 = Ok (signingHashOf (proto t)) /\
  (RHash t).1 = Ok (hashOf (rHashData (proto t))) /\
  (Hash (FromProto p' (Hash t).2)).1 = Ok (hashOf (hashData (proto t))).
Proof.
  intros t. assert (C : coherent t) by apply runOps_coherent, coherent_fresh.
  split_and!; [by apply Hash_spec|by apply SigningHash_spec|by apply RHash_spec|].
  destruct (Hash_spec t C) as (E & _ & _).
  unfold Hash in E |- *. destruct (cachedHash t) as [h|] eqn:Eh; simpl in *; [|done]. by rewrite Eh.
Qed.

(** ** Signatures of type 0xFF *)

Section Secp.
Context `{EthLib} `{TxProto} `{Secp}.

(** What [ValidSecpProtoSign] asks of the message. *)
Definition secp_accepts (p : PbTransaction) : Prop :=
  pType p = 255 /\ pSign p = [] /\ length (pR p) = 32%nat /\ length (pS p) = 32%nat /\
  (exists v, pV p = [v] /\ v <= 1 /\
     ValidateSignatureValues v (bigSetBytes (pR p)) (bigSetBytes (pS p)) true = true /\
     exists pk, SigToPub (signingHashOf p) (pR p ++ pS p ++ [v]) = Some pk /\
       PubkeyToAddress pk = BytesToAddress (pFromAddress p)) /\
  pChainID p <> 0.

Lemma ValidSecpProtoSign_spec t :
  coherent t ->
  (secp_accepts (proto t) /\ (ValidSecpProtoSign t).1 = Ok true) \/
  (~ secp_accepts (proto t) /\ (ValidSecpProtoSign t).1 = Ok false).
Proof.
  intros C. destruct (SigningHash_spec t C) as (E & _ & _).
  unfold ValidSecpProtoSign, secp_accepts. set (p := proto t) in *.
  assert (Hlen : forall (b : bytes) n, (length b =? n)%nat = bool_decide (length b = n)).
  { intros b n. destruct (Nat.eqb_spec (length b) n); by case_bool_decide. }
  rewrite !Hlen. destruct (Z.eqb_spec (pType p) 255); simpl; [|right; tauto].
  destruct (pSign p) as [|? ?]; simpl; [|right; split; [intros (_ & ? & _); done|done]].
  case_bool_decide; simpl; [|right; tauto]. case_bool_decide; simpl; [|right; tauto].
  destruct (pV p) as [|v [|]]; simpl; try (right; split; [intros (_ & _ & _ & _ & (? & ? & _) & _)|]; done).
  assert (Hv : forall P : Z -> Prop, (exists v', [v] = [v'] /\ P v') <-> P v).
  { intros P. split; [by intros (? & [= <-] & ?)|by exists v]. }
  destruct (Z.gtb_spec v 1); [right; rewrite Hv; split; [lia|done]|].
  destruct (Z.eqb_spec (pChainID p) 0); [right; rewrite Hv; split; [tauto|done]|].
  destruct (ValidateSignatureValues _ _ _ _) eqn:EV; simpl; [|right; rewrite Hv; split; [intros (_ & _ & _ & _ & (_ & ? & _) & _); congruence|done]].
  unfold mbind, stm_bind. destruct (SigningHash t) as [r t']; simpl in *. subst r. simpl.
  destruct (SigToPub _ _) as [pk|] eqn:ES; [|right; split; [|done]; intros (_ & _ & _ & _ & Hx & _);
    apply Hv in Hx as (_ & _ & ? & ? & _); congruence].
  unfold FromAddress. fold p. case_bool_decide as Hpk.
  - left. rewrite Hv. split; [|done]. split_and!; try done. by exists pk.
  - right. rewrite Hv. split; [|done]. intros (_ & _ & _ & _ & (_ & _ & pk' & Hpk' & ?) & _). congruence.
Qed.

(** The message after a successful [SignSecpProto]. *)
Definition signedWith (sig : bytes) (p : PbTransaction) : PbTransaction :=
  set_pV (take 1 (drop 64 sig)) (set_pS (take 32 (drop 32 sig)) (set_pR (take 32 sig)
    (set_pSign [] (set_pType 255 p)))).

Lemma SignSecpProto_run k t sig :
  cryptoSign (signingHashOf (set_pSign [] (set_pType 255 (proto t)))) k = Ok sig -> length sig = 65%nat ->
  SignSecpProto k t = (Ok tt, mkTx (signedWith sig (proto t)) None None None (isDebug t)).
Proof.
  intros Es El. unfold SignSecpProto, modify, lift, mbind, stm_bind. simpl.
  set (t1 := ClearCacheHash _). destruct (SigningHash_spec t1 (coherent_clear _)) as (E & _ & P).
  assert (D : isDebug (SigningHash t1).2 = isDebug t).
  { unfold SigningHash. repeat case_match; done. }
  destruct (SigningHash t1) as [r t'] eqn:Et; simpl in *. subst r.
  change (proto t1) with (set_pSign [] (set_pType 255 (proto t))) in *.
  rewrite Es, El. simpl. unfold assign, ClearCacheHash. simpl. by rewrite P, D.
Qed.
End Secp.

(** Splitting a signature at 32 and 64. *)
Lemma sig_split (sig : bytes) v : drop 64 sig = [v] -> take 32 sig ++ take 32 (drop 32 sig) ++ [v] = sig.
Proof.
  intros E. rewrite <- E. change 64%nat with (32 + 32)%nat. rewrite <- drop_drop. by rewrite !take_drop.
Qed.

(** A signature by the sender's key makes the message acceptable. *)
Lemma signed_accepts `{EthLib} `{TxProto} `{SecpLaws} (k sig : bytes) (p : PbTransaction) :
  cryptoSign (signingHashOf (set_pSign [] (set_pType 255 p))) k = Ok sig ->
  pChainID p <> 0 -> BytesToAddress (pFromAddress p) = PubkeyToAddress (pubkeyOf k) -> secp_accepts (signedWith sig p).
Proof.
  intros Es Hc Hfrom. destruct (cryptoSign_ok _ _ _ Es) as (L & (v & Ev & Hv & HV) & Hpub).
  unfold secp_accepts, signedWith. simpl. rewrite Ev. simpl. split_and!; try done.
  - rewrite length_take. lia.
  - rewrite length_take, length_drop. lia.
  - exists v. split_and!; [done|lia|done|]. exists (pubkeyOf k). split; [|by rewrite <- Hfrom].
    rewrite sig_split by done. exact Hpub.
Qed.

Lemma signingHashOf_len `{EthLibLaws} `{TxProto} p : length (signingHashOf p) = 32%nat.
Proof. unfold signingHashOf. destruct (marshalHashData _); [apply Keccak256_len|done]. Qed.

(** C13 (roundtrip). A transaction with a non-zero chain id, signed with
    [SignSecpProto] by the key of its sender, passes [ValidSecpProtoSign], for a
    key with which [crypto.Sign] signs 32-byte digests:
    although V, R and S become part of the message, the hash that was signed is
    the hash that is checked.  Signing changes only the type, the signature
    fields and the caches. *)
Theorem secp_sign_verify `{EthLibLaws} `{TxProto} `{SecpLaws} (k : bytes) (t : Transaction) :
  (forall h, length h = 32%nat -> exists sig, cryptoSign h k = Ok sig) ->
  pChainID (proto t) <> 0 ->
  FromAddress t = PubkeyToAddress (pubkeyOf k) ->
  exists sig t', SignSecpProto k t = (Ok tt, t') /\ proto t' = signedWith sig (proto t) /\
    (ValidSecpProtoSign t').1 = Ok true.
Proof.
  intros Hsig Hc Hfrom.
  destruct (Hsig (signingHashOf (set_pSign [] (set_pType 255 (proto t)))) (signingHashOf_len _)) as [sig Es].
  destruct (cryptoSign_ok _ _ _ Es) as (L & _ & _).
  eexists sig, _. split; [by apply SignSecpProto_run|]. split; [done|].
  match goal with |- (ValidSecpProtoSign ?t').1 = _ => set (u := t') end.
  destruct (ValidSecpProtoSign_spec u) as [[_ ?]|[N _]]; [repeat split; by left|done|].
  destruct N. by apply (signed_accepts k).
Qed.

(** A transfer of 5 to a fixed recipient, from the address of [toyKey]. *)
Definition toyKey : bytes := replicate 32 7.
Definition toyTransfer : Transaction :=
  NewTransaction (PubkeyToAddress (pubkeyOf toyKey)) (replicate 20 9) 5 20000 1 1000 [] [] zeroHash zeroHash 3 991.

Lemma secp_sign_verify_witness :
  exists sig t', SignSecpProto toyKey toyTransfer = (Ok tt, t') /\ proto t' = signedWith sig (proto toyTransfer) /\
    (ValidSecpProtoSign t').1 = Ok true.
Proof.
  apply (secp_sign_verify toyKey toyTransfer).
  - intros h Hh. eexists. cbn. rewrite Hh. reflexivity.
  - vm_compute. discriminate.
  - vm_compute. reflexivity.
Defined.

(** C14 (safety). What a type-0xFF signature covers, for transactions that
    [TransactionFromProto] made from a message and that went through any setters,
    signing, hash and check calls since ([FromProto] and [Unmarshal] on an existing
    object, which keep the hashes cached for the old message, are not among them:
    see [tx_hash_coherent]).  An accepted transaction meets the listed requirements
    (type, empty BLS signature, sizes, recovery id, chain id, canonical values,
    recovered address); and if another such transaction has the same signing hash,
    then every field but the signature, the related addresses and the read-only
    flag is the same (an empty fee cap counting as none), or the two encodings are
    an explicit collision of Keccak. *)
Theorem secp_binding `{EthLibLaws} `{TxProtoLaws} `{Secp} `{Blst} (p1 p2 : PbTransaction) (ops1 ops2 : list txOp) :
  let t1 := foldl runOp (TransactionFromProto p1) ops1 in
  let t2 := foldl runOp (TransactionFromProto p2) ops2 in
  (ValidSecpProtoSign t1).1 = Ok true ->
  (SigningHash t1).1 = (SigningHash t2).1 ->
  secp_accepts (proto t1) /\
  (wireHash (signingData (proto t1)) = wireHash (signingData (proto t2)) \/
   exists b1 b2, marshalHashData (signingData (proto t1)) = Some b1 /\
     marshalHashData (signingData (proto t2)) = Some b2 /\ b1 <> b2 /\ Keccak256 b1 = Keccak256 b2).
Proof.
  intros t1 t2 Hv Hh.
  assert (C1 : coherent t1) by apply runOps_coherent, coherent_fresh.
  assert (C2 : coherent t2) by apply runOps_coherent, coherent_fresh.
  split; [destruct (ValidSecpProtoSign_spec t1 C1) as [[? _]|[_ E]]; [done|congruence]|].
  rewrite (proj1 (SigningHash_spec t1 C1)), (proj1 (SigningHash_spec t2 C2)) in Hh.
  injection Hh as Hh. unfold signingHashOf in Hh.
  destruct (hash_codec_total (signingData (proto t1))) as [b1 E1].
  destruct (hash_codec_total (signingData (proto t2))) as [b2 E2].
  rewrite E1, E2 in Hh. destruct (decide (b1 = b2)) as [<-|N].
  - left. by eapply hash_codec_inj.
  - right. by exists b1, b2.
Qed.

Lemma secp_binding_witness :
  exists p, let t1 := foldl runOp (TransactionFromProto p) [OpSignSecpProto toyKey] in
  let t2 := foldl runOp (TransactionFromProto p) [OpSignSecpProto toyKey; OpSetReadOnly true] in
  secp_accepts (proto t1) /\
  (wireHash (signingData (proto t1)) = wireHash (signingData (proto t2)) \/
   exists b1 b2, marshalHashData (signingData (proto t1)) = Some b1 /\
     marshalHashData (signingData (proto t2)) = Some b2 /\ b1 <> b2 /\ Keccak256 b1 = Keccak256 b2).
Proof.
  exists (proto toyTransfer).
  apply (secp_binding (proto toyTransfer) (proto toyTransfer) [OpSignSecpProto toyKey]
    [OpSignSecpProto toyKey; OpSetReadOnly true]); vm_compute; reflexivity.
Defined.

(** ** Funds *)

(** [ValidMaxFee] accepts a transaction exactly when
    the account can pay: [SubTotalBalance] of the amount and the largest fee
    succeeds on the same account and leaves what remains, which is not
    negative; for a type other than 0, 1 and 2 the fee counts as nothing.
    [Fee] is the exact product of gas, price and started seconds as long as the
    three stay below 2^63. *)
Theorem tx_funds (a : AccountState) (t : Transaction) (price : Z) :
  0 <= pMaxGas (proto t) < 2 ^ 63 -> 0 <= price < 2 ^ 63 -> 0 <= pMaxTimeUse (proto t) < 2 ^ 63 ->
  (ValidMaxFee a t = true <->
     exists a', SubTotalBalance (MaxFee t + Amount t) a = (Ok tt, a') /\
       TotalBalance a' = TotalBalance a - MaxFee t - Amount t /\ 0 <= TotalBalance a') /\
  (pType (proto t) ∉ [0; 1; 2] -> ValidMaxFee a t = ValidAmount a t) /\
  Fee price t = pMaxGas (proto t) * price * (pMaxTimeUse (proto t) / 1000 + 1).
Proof.
  intros Hg Hp Ht. split_and!.
  - unfold ValidMaxFee, ValidAmountSpend, SubTotalBalance.
    destruct (Z.gtb_spec (MaxFee t + Amount t) (pendingBalance a + balance a)).
    + rewrite (proj2 (Z.leb_gt _ _)) by lia. split; [done|]. by intros (? & ? & _).
    + rewrite (proj2 (Z.leb_le _ _)) by lia. split; [|done]. intros _. eexists. split; [done|].
      unfold TotalBalance. simpl. lia.
  - intros Hty. unfold ValidMaxFee, ValidAmount, MaxFee. rewrite !not_elem_of_cons in Hty.
    destruct Hty as (N0 & N1 & N2 & _). apply Z.eqb_neq in N0, N1, N2. by rewrite N0, N1, N2.
  - unfold Fee. rewrite !to_int64_id; try lia.
    split; [pose proof (Z.div_pos (pMaxTimeUse (proto t)) 1000); lia|].
    enough (pMaxTimeUse (proto t) / 1000 < 2 ^ 62) by lia. apply Z.div_lt_upper_bound; lia.
Qed.

Lemma tx_funds_witness :
  let a := SetBalance 20005 (NewAccountState (replicate 20 1)) in
  (ValidMaxFee a toyTransfer = true <->
     exists a', SubTotalBalance (MaxFee toyTransfer + Amount toyTransfer) a = (Ok tt, a') /\
       TotalBalance a' = TotalBalance a - MaxFee toyTransfer - Amount toyTransfer /\ 0 <= TotalBalance a') /\
  ValidMaxFee a toyTransfer = true /\ Fee 3 toyTransfer = 20000 * 3 * 2.
Proof.
  intros a. destruct (tx_funds a toyTransfer 3) as (E & _ & F); [vm_compute; split; congruence..|].
  split_and!; [exact E|vm_compute; reflexivity|exact F].
Defined.

(** The fee of a transaction whose gas limit needs the sixty-fourth bit is
    negative. *)
Example fee_negative : Fee 1 (NewTransaction [] [] 0 (2 ^ 63) 0 0 [] [] [] [] 0 0) = - 2 ^ 63.
Proof. reflexivity. Qed.

(** ** The first transaction of an account *)

Section Tx0.
Context `{EthLib} `{TxProto} `{Secp} `{Blst}.

Definition tx0_accepts (a : AccountState) (chainId : bytes) (t : Transaction) : Prop :=
  GetNonce t <> 0 \/
  (publicKeyBls a = [] /\ exists pk sig pb,
     Input (txCallData t) = pk ++ sig /\ length pk = 48%nat /\ length sig = 65%nat /\
     blsVerifySign pk (Sign t) (hashOf (hashData (proto t))) = true /\
     RecoverPubkey (Keccak256 (pk ++ chainId)) sig = Some pb /\
     FromAddress t = ToAddress t /\ arrayFromBytes 20 (drop 12 (Keccak256 (drop 1 pb))) = FromAddress t).

Lemma split48 (b : bytes) : length b = 113%nat ->
  exists pk sig, b = pk ++ sig /\ length pk = 48%nat /\ length sig = 65%nat.
Proof.
  intros L. exists (take 48 b), (drop 48 b). rewrite take_drop, length_take, length_drop.
  split_and!; [done|lia..].
Qed.

Lemma split48_unique (pk sig : bytes) : length pk = 48%nat -> take 48 (pk ++ sig) = pk /\ drop 48 (pk ++ sig) = sig.
Proof. intros <-. by rewrite take_app_length, drop_app_length. Qed.
End Tx0.

(** [ValidTx0] answers on every transaction.  It accepts,
    with code 0, exactly the transactions with a non-zero nonce and, for an
    account without a BLS key, those whose call data are a 48-byte BLS key and a
    65-byte signature such that the BLS signature verifies under that key over
    the hash of the message as it stands, and the secp256k1 signature of key and
    chain id recovers the sender, who is also the recipient; any other
    transaction is refused with one of the codes 35 to 39. *)
Theorem tx0_spec `{EthLib} `{TxProto} `{Secp} `{Blst} (a : AccountState) (chainId : bytes) (p : PbTransaction)
  (ops : list txOp) :
  let t := foldl runOp (TransactionFromProto p) ops in
  ((ValidTx0 a chainId t).1 = Ok (true, 0) /\ tx0_accepts a chainId t) \/
  (exists code, (ValidTx0 a chainId t).1 = Ok (false, code) /\ 35 <= code <= 39 /\ ~ tx0_accepts a chainId t).
Proof.
  intros t. assert (C : coherent t) by apply runOps_coherent, coherent_fresh.
  destruct (Hash_spec t C) as (E & _ & _). clearbody t. unfold ValidTx0, tx0_accepts.
  destruct (Z.eqb_spec (GetNonce t) 0) as [N|N]; simpl; [|by left; split; [|left]].
  destruct (publicKeyBls a) as [|x l] eqn:Ek; simpl;
    [|right; eexists; split_and!; [done|done|done|by intros [?|[? _]]]].
  destruct (Nat.eqb_spec (length (Input (txCallData t))) 113) as [L|L]; simpl.
  2:{ right; eexists; split_and!; [done|done|done|]. intros [?|(_ & pk & sig & pb & Ei & Lp & Ls & _)]; [done|].
      apply L. rewrite Ei, length_app, Lp, Ls. done. }
  destruct (split48 _ L) as (pk & sig & Ei & Lp & Ls). rewrite Ei.
  destruct (split48_unique pk sig Lp) as [-> ->].
  unfold mbind, stm_bind. destruct (Hash t) as [r t']. simpl in E. subst r. simpl.
  unfold PubkeyFromBytes. rewrite arrayFromBytes_id by done.
  assert (U : forall pk' sig', pk ++ sig = pk' ++ sig' -> length pk' = 48%nat -> pk' = pk /\ sig' = sig).
  { intros pk' sig' Eq L'. apply app_inj_1 in Eq as [-> ->]; [done|congruence]. }
  destruct (blsVerifySign pk _ _) eqn:EB; simpl.
  2:{ right; eexists; split_and!; [done|done|done|].
      intros [?|(_ & pk' & sig' & pb & Eq & L' & _ & HB & _)]; [done|]. destruct (U _ _ Eq L') as [-> ->]. congruence. }
  destruct (RecoverPubkey _ sig) as [pb|] eqn:ER; simpl.
  2:{ right; eexists; split_and!; [done|done|done|].
      intros [?|(_ & pk' & sig' & pb & Eq & L' & _ & _ & HR & _)]; [done|]. destruct (U _ _ Eq L') as [-> ->]. congruence. }
  destruct (bool_decide (FromAddress t = ToAddress t) && bool_decide _) eqn:EA.
  - left. split; [done|]. right. split; [done|]. apply andb_true_iff in EA as [A1%bool_decide_eq_true A2%bool_decide_eq_true].
    by exists pk, sig, pb.
  - right; eexists; split_and!; [done|done|done|].
    intros [?|(_ & pk' & sig' & pb' & Eq & L' & _ & _ & HR & A1 & A2)]; [done|].
    destruct (U _ _ Eq L') as [-> ->]. rewrite ER in HR. injection HR as <-.
    apply andb_false_iff in EA as [EA|EA]; by apply bool_decide_eq_false in EA.
Qed.

(** Deploy data that do not parse make the validity check dereference nil. *)
Example ValidDeployData_panics :
  ValidDeployData (NewTransaction (replicate 20 1) zeroAddress 0 0 0 0 [5; 5] [] [] [] 1 1) = Panic.
Proof. vm_compute. reflexivity. Qed.
