(* ===== verification/EthTheorems.v ===== *)
(** * Ethereum transactions: theorems

    Converting an Ethereum transaction to [pb.Transaction] and back gives the
    same transaction, and the result passes the signature check. *)

From S2P Require Import Prelude Binary Instances AccountState Transaction EthTransaction TxInstances.

Local Open Scope Z_scope.

#[local] Arguments PutUint64 : simpl never.
#[local] Arguments bigBytes : simpl never.
#[local] Arguments bigSetBytes : simpl never.
#[local] Arguments bigUint64 : simpl never.

Section Eth.
Context `{EthLibLaws} `{TxProtoLaws} `{EthTypesLaws}.

Definition tuple_ok (x : AccessTuple) : Prop :=
  length (aAddress x) = 20%nat /\ Forall (fun k => length k = 32%nat) (aStorageKeys x).

(** The transactions the conversions are lossless on: a signed transaction with
    values that fit, not sent to the zero address, and, when it deploys a
    contract, with a non-zero nonce and sender.  The chain id and gas price of
    the typed transactions are not zero. *)
Definition eth_ok (from : bytes) (d : TxData) : Prop :=
  0 <= dataNonce d < 2 ^ 64 /\ 0 <= dataValue d /\
  match dataTo d with
  | Some a => length a = 20%nat /\ a <> zeroAddress
  | None => dataData d = [] \/ (dataNonce d <> 0 /\ from <> zeroAddress)
  end /\
  Forall tuple_ok (dataAccessList d) /\
  match d with
  | LegacyTx _ price _ _ _ _ _ => 0 <= price < 2 ^ 64
  | AccessListTx c _ price _ _ _ _ _ _ => 0 < c < 2 ^ 64 /\ 0 < price < 2 ^ 64
  | DynamicFeeTx c _ tip cap _ _ _ _ _ _ => 0 < c < 2 ^ 64 /\ 0 <= tip /\ 0 <= cap
  end.

(** The signer whose recovery the conversion stores. *)
Definition storedSigner (d : TxData) : Signer :=
  match d with
  | LegacyTx _ _ _ _ _ _ _ => legacySigner (ethChainId (NewTx d))
  | AccessListTx c _ _ _ _ _ _ _ _ | DynamicFeeTx c _ _ _ _ _ _ _ _ _ => LondonSigner c
  end.

Definition storedChain (d : TxData) : Z :=
  match ethChainId (NewTx d) with Some c => bigUint64 c | None => 0 end.

Definition storedSign (d : TxData) (v r s : Z) : bytes :=
  bigBytes r ++ bigBytes s ++
  [match d with LegacyTx _ _ _ _ _ _ _ => legacyRecoveryID (ethChainId (NewTx d)) v | _ => yParity v end].

(** The message stored for a transaction, [b] the wrapped data. *)
Definition storedMsg (from : bytes) (d : TxData) (b : bytes) (v r s : Z) : PbTransaction :=
  let price := match d with LegacyTx _ p _ _ _ _ _ | AccessListTx _ _ p _ _ _ _ _ _ => bigUint64 p | _ => 0 end in
  let tip := match d with DynamicFeeTx _ _ p _ _ _ _ _ _ _ => Some (bigBytes p) | _ => None end in
  let cap := match d with DynamicFeeTx _ _ _ p _ _ _ _ _ _ => Some (bigBytes p) | _ => None end in
  mkPbTx (default [] (dataTo d)) (bigBytes (dataValue d)) (dataGas d) price 0 b [] [] [] (storedSign d v r s)
    (PutUint64 (dataNonce d)) from false (storedChain d) (dataType d) (bigBytes r) (bigBytes s) (bigBytes v)
    tip cap (dataAccessList d).

Lemma prepare_ok d : exists b, prepareTransactionSpecificData (NewTx d) storageAddressForDeploy = Ok b /\
  (dataData d = [] -> b = []) /\
  (dataData d <> [] -> b <> [] /\
     match dataTo d with
     | Some _ => unmarshalCallData b = Some (dataData d)
     | None => unmarshalDeployData b = Some (mkPbDeploy (dataData d) storageAddressForDeploy)
     end).
Proof.
  unfold prepareTransactionSpecificData. rewrite NewTx_to, NewTx_data.
  destruct (dataData d) as [|x l] eqn:Ed; [exists []; by destruct (dataTo d)|].
  change (0 <? length (x :: l))%nat with true. cbn [negb].
  destruct (dataTo d).
  - destruct (call_codec (x :: l)) as (b & E1 & E2 & E3). exists b.
    unfold CallData_Marshal, NewCallData. simpl. rewrite E1. split_and!; [done|done|]. auto.
  - destruct (deploy_codec (mkPbDeploy (x :: l) storageAddressForDeploy)) as (b & E1 & E2 & E3). exists b.
    unfold DeployData_Marshal, NewDeployData. simpl. rewrite E1. split_and!; [done|done|]. auto.
Qed.

Lemma FromEth_run from d v r s :
  dataVRS d = Some (v, r, s) -> Sender (storedSigner d) (NewTx d) = Some from ->
  exists b, prepareTransactionSpecificData (NewTx d) storageAddressForDeploy = Ok b /\
    NewTransactionFromEth (NewTx d) = Ok (TransactionFromProto (storedMsg from d b v r s)).
Proof.
  intros Hs Hf. destruct (prepare_ok d) as (b & Eb & _). exists b. split; [done|].
  unfold NewTransactionFromEth, FromEthTransaction. rewrite NewTx_type.
  pose proof (NewTx_signature d v r s Hs) as Es.
  destruct d; simpl in Hs, Hf; cbn [dataType];
    [unfold FromEthLegacyTx|unfold FromEthEIP2930Tx|unfold FromEthEIP1559Tx]; rewrite NewTx_type; cbn [dataType];
    unfold storedMsg, storedChain, storedSign; cbn - [bigBytes PutUint64 NewTx legacyRecoveryID yParity bigUint64];
    unfold storeSignature, modify, lift, mbind, stm_bind;
    rewrite ?NewTx_to, ?NewTx_value, ?NewTx_gas, ?NewTx_nonce, ?NewTx_legacy_price, ?NewTx_list_price,
      ?NewTx_list_chain, ?NewTx_fee_chain, ?NewTx_tip, ?NewTx_cap, ?NewTx_accessList, ?Eb, ?Es, ?Hf;
    cbn - [bigBytes PutUint64 NewTx legacyRecoveryID yParity bigUint64]; reflexivity.
Qed.

Lemma PutUint64_value n : 0 <= n < 2 ^ 64 -> bigSetBytes (PutUint64 n) = n.
Proof.
  intros Hn. pose proof (Uint64_PutUint64 n) as E. unfold Uint64 in E. rewrite length_PutUint64 in E. cbn [Nat.ltb Nat.leb] in E.
  rewrite take_ge in E by (by rewrite length_PutUint64). injection E as ->. by apply wrap64_id.
Qed.

Lemma bigSet_nonneg z : 0 <= z -> bigSetBytes (bigBytes z) = z.
Proof. intros. rewrite bigBytes_roundtrip. lia. Qed.

Lemma bigUint64_id z : 0 <= z < 2 ^ 64 -> bigUint64 z = z.
Proof. intros. unfold bigUint64. rewrite Z.abs_eq by lia. by apply wrap64_id. Qed.

(** The data read back by [ToEthTransaction]. *)
Lemma stored_data from d b v r s :
  eth_ok from d -> length from = 20%nat ->
  prepareTransactionSpecificData (NewTx d) storageAddressForDeploy = Ok b ->
  let t := TransactionFromProto (storedMsg from d b v r s) in
  (if IsDeployContract t then Code (txDeployData t)
   else Ok (if IsCallContract t then Input (txCallData t) else [])) = Ok (dataData d).
Proof.
  intros (Hn & _ & Hto & _) Lf Eb t. destruct (prepare_ok d) as (b' & Eb' & Hnil & Hdata).
  assert (b' = b) as -> by congruence. clear Eb'.
  assert (Gn : GetNonce t = dataNonce d).
  { unfold GetNonce, t. cbn [proto TransactionFromProto pNonce storedMsg]. rewrite length_PutUint64. by apply PutUint64_value. }
  assert (Gf : FromAddress t = from) by (unfold FromAddress, t; simpl; by rewrite BytesToAddress_id).
  unfold IsDeployContract, IsCallContract, txDeployData, txCallData, CallData_Unmarshal, DeployData_Unmarshal.
  rewrite Gn, Gf. clear Gn Gf. subst t. cbn [pData proto TransactionFromProto storedMsg].
  destruct (decide (dataData d = [])) as [Ed|Ed].
  - rewrite (Hnil Ed), Ed. simpl. by rewrite !andb_false_r.
  - destruct (Hdata Ed) as [Nb Hu]. destruct b as [|x b]; [done|].
    change (0 <? length (x :: b))%nat with true. rewrite !andb_true_r.
    unfold ToAddress. cbn [pToAddress proto TransactionFromProto storedMsg].
    destruct (dataTo d) as [a|]; cbn [default from_option id].
    + destruct Hto as [La Na]. rewrite BytesToAddress_id by done.
      rewrite (bool_decide_false (a = zeroAddress)), (bool_decide_true (a <> zeroAddress)), andb_false_r by done.
      by rewrite Hu.
    + destruct Hto as [?|[Nn Nf]]; [done|]. rewrite BytesToAddress_nil.
      rewrite (bool_decide_true (_ = zeroAddress)) by done. rewrite bool_decide_true by done.
      rewrite (proj2 (Z.eqb_neq _ _)) by done. simpl. by rewrite Hu.
Qed.

Lemma stored_nonce from d b v r s : eth_ok from d -> nonceUint64 (storedMsg from d b v r s) = dataNonce d.
Proof.
  intros (Hn & _). unfold nonceUint64. cbn [pNonce storedMsg]. rewrite length_PutUint64. cbn [Nat.ltb Nat.leb].
  rewrite PutUint64_value by done. by apply bigUint64_id.
Qed.

Lemma stored_to from d b v r s : eth_ok from d -> toAddressPtr (storedMsg from d b v r s) = dataTo d.
Proof.
  intros (_ & _ & Hto & _). unfold toAddressPtr. cbn [pToAddress storedMsg].
  destruct (dataTo d) as [a|]; simpl; [|done]. destruct Hto as [La _]. rewrite La. simpl.
  by rewrite BytesToAddress_id.
Qed.

Lemma stored_accessList l : Forall tuple_ok l -> toEthAccessList l = l.
Proof.
  intros Hl. unfold toEthAccessList. rewrite <- (list_fmap_id l) at 2. apply list_fmap_ext. intros i x Hx.
  pose proof (Forall_lookup_1 _ _ _ _ Hl Hx) as [La Lk]. destruct x as [a ks]; simpl in *.
  rewrite BytesToAddress_id by done. f_equal. rewrite <- (list_fmap_id ks) at 2. apply list_fmap_ext.
  intros j k Hk. apply BytesToHash_id. by apply (Forall_lookup_1 _ _ _ _ Lk Hk).
Qed.

Lemma ToEth_stored from d b v r s :
  eth_ok from d -> length from = 20%nat -> dataVRS d = Some (v, r, s) -> 0 <= v -> 0 <= r -> 0 <= s ->
  prepareTransactionSpecificData (NewTx d) storageAddressForDeploy = Ok b ->
  ToEthTransaction (TransactionFromProto (storedMsg from d b v r s)) = Ok (Some (NewTx d)).
Proof.
  intros Hok Lf Hs Hv Hr Hz Eb. unfold ToEthTransaction. cbn zeta.
  rewrite (stored_data from d b v r s Hok Lf Eb). cbn [mbind outcome_bind].
  cbn [proto TransactionFromProto]. rewrite stored_nonce, stored_to by done.
  unfold extractSignature. cbn [pV pR pS pAmount pType pMaxGas pMaxGasPrice pChainID pGasTipCap pGasFeeCap pAccessList storedMsg].
  rewrite !bigSet_nonneg by (try done; apply Hok).
  unfold storedChain. destruct Hok as (_ & _ & _ & Hl & Hd).
  destruct d; simpl in Hs, Hl, Hd; subst VRS; cbn [dataType dataAccessList dataTo dataNonce dataGas dataValue dataData].
  - cbn [Z.eqb LegacyTxType]. by rewrite bigUint64_id.
  - rewrite NewTx_list_chain. simpl. rewrite !bigUint64_id by lia.
    rewrite !(proj2 (Z.eqb_neq _ _)) by lia. by rewrite stored_accessList.
  - rewrite NewTx_fee_chain. simpl. rewrite !bigUint64_id by lia.
    rewrite !(proj2 (Z.eqb_neq _ _)) by lia. rewrite stored_accessList by done. by rewrite !bigSet_nonneg by lia.
Qed.

(** The signer that [ValidEthSign] picks is the one used by the conversion. *)
Lemma chooseSigner_stored from d :
  eth_ok from d -> chooseSigner (NewTx d) (Some (storedChain d)) = Ok (storedSigner d).
Proof.
  intros (_ & _ & _ & _ & Hd). unfold chooseSigner, storedChain, storedSigner, positiveChainId.
  rewrite !NewTx_type.
  destruct d; cbn [dataType] in *; cbn [Z.eqb orb LegacyTxType AccessListTxType DynamicFeeTxType Pos.eqb].
  - destruct (NewTx_legacy_chain Nonce GasPrice Gas To Value Data VRS) as (c & -> & Hc). simpl. f_equal.
    destruct (Z.eqb_spec c 0) as [->|N]; simpl; [done|].
    destruct (Z.gtb_spec (bigUint64 c) 0); simpl; [|done].
    destruct (Z.eqb_spec c (bigUint64 c)); simpl; congruence.
  - rewrite NewTx_list_chain. by rewrite (proj2 (Z.leb_gt _ _)) by lia.
  - rewrite NewTx_fee_chain. by rewrite (proj2 (Z.leb_gt _ _)) by lia.
Qed.
End Eth.

(** C11 (roundtrip). A signed Ethereum transaction of any of the three kinds
    whose sender can be recovered is converted by [NewTransactionFromEth], and
    [ToEthTransaction] of the result is the transaction it came from, the call
    and deploy data unwrapped again, provided that ([eth_ok]) the nonce fits 64
    bits, the numbers are not negative, a recipient is a 20-byte address other
    than the zero address, a transaction without a recipient has no data or has a
    non-zero nonce and sender, the addresses and keys of an access list have their
    lengths, a legacy gas price is below 2^64, an EIP-2930 gas price and the chain
    id of a typed transaction are between 1 and 2^64 - 1.  (What is lost outside of
    these conditions is shown below.) *)
Theorem eth_roundtrip `{EthLibLaws} `{TxProtoLaws} `{EthTypesLaws} (from : bytes) (d : TxData) (v r s : Z) :
  eth_ok from d -> dataVRS d = Some (v, r, s) -> 0 <= v -> 0 <= r -> 0 <= s ->
  Sender (storedSigner d) (NewTx d) = Some from ->
  exists t, NewTransactionFromEth (NewTx d) = Ok t /\ ToEthTransaction t = Ok (Some (NewTx d)) /\
    FromAddress t = from.
Proof.
  intros Hok Hs Hv Hr Hz Hf. destruct (FromEth_run from d v r s Hs Hf) as (b & Eb & E).
  pose proof (Sender_len _ _ _ Hf) as Lf. eexists. split; [exact E|]. split.
  - by apply ToEth_stored.
  - unfold FromAddress. simpl. by apply BytesToAddress_id.
Qed.

(** A deployment and an access-list call. *)
Definition toyDeploy : TxData := LegacyTx 4 7 21000 None 12 [1; 2; 3] (Some (2017, 99, 5)).
Definition toyCall : TxData :=
  DynamicFeeTx 991 4 0 9 21000 (Some (replicate 20 3)) 12 [8; 8] [mkAccessTuple (replicate 20 1) [replicate 32 2]]
    (Some (1, 99, 5)).

Lemma eth_roundtrip_witness :
  (exists t, NewTransactionFromEth (NewTx toyDeploy) = Ok t /\ ToEthTransaction t = Ok (Some (NewTx toyDeploy)) /\
     FromAddress t = drop 12 (Keccak256 [99])) /\
  (exists t, NewTransactionFromEth (NewTx toyCall) = Ok t /\ ToEthTransaction t = Ok (Some (NewTx toyCall)) /\
     FromAddress t = drop 12 (Keccak256 [99])).
Proof.
  split.
  - apply (eth_roundtrip (drop 12 (Keccak256 [99])) toyDeploy 2017 99 5); try (vm_compute; congruence).
    repeat split; try (vm_compute; congruence); [right; vm_compute; split; congruence|constructor].
  - apply (eth_roundtrip (drop 12 (Keccak256 [99])) toyCall 1 99 5); try (vm_compute; congruence).
    repeat split; try (vm_compute; congruence). repeat constructor.
Defined.

(** Such a converted transaction passes the signature
    check [ValidSecpSign]: the check converts it back, picks the signer the
    conversion used and recovers the stored sender. *)
Theorem eth_sender_valid `{EthLibLaws} `{TxProtoLaws} `{EthTypesLaws} `{Secp} (from : bytes) (d : TxData) (v r s : Z) :
  eth_ok from d -> dataVRS d = Some (v, r, s) -> 0 <= v -> 0 <= r -> 0 <= s ->
  Sender (storedSigner d) (NewTx d) = Some from ->
  exists t, NewTransactionFromEth (NewTx d) = Ok t /\ ValidSecpSign t = Ok true.
Proof.
  intros Hok Hs Hv Hr Hz Hf. destruct (FromEth_run from d v r s Hs Hf) as (b & Eb & E).
  pose proof (Sender_len _ _ _ Hf) as Lf. eexists. split; [exact E|].
  unfold ValidSecpSign, ValidEthSign. cbn [proto TransactionFromProto pType storedMsg].
  replace (dataType d =? 255) with false by (by destruct d).
  rewrite ToEth_stored by done. cbn [mbind outcome_bind pChainID storedMsg].
  unfold DeriveSenderFromEthTransaction. rewrite (chooseSigner_stored from) by done. cbn [mbind outcome_bind].
  rewrite Hf. f_equal. apply bool_decide_true. unfold FromAddress. simpl. by rewrite BytesToAddress_id.
Qed.

Lemma eth_sender_valid_witness : exists t, NewTransactionFromEth (NewTx toyDeploy) = Ok t /\ ValidSecpSign t = Ok true.
Proof.
  apply (eth_sender_valid (drop 12 (Keccak256 [99])) toyDeploy 2017 99 5); try (vm_compute; congruence).
  repeat split; try (vm_compute; congruence); [right; vm_compute; split; congruence|constructor].
Defined.

(** An EIP-1559 transaction with a zero tip does not survive a trip over the
    wire: its empty tip comes back as nil, and the conversion gives up. *)
Example zero_tip_lost :
  (t ← NewTransactionFromEth (NewTx toyCall);
   b ← Marshal t;
   ToEthTransaction (Unmarshal b (TransactionFromProto zeroPbTransaction)).2) = Ok None.
Proof. vm_compute. reflexivity. Qed.

(** A contract deployed with nonce zero loses its code. *)
Example deploy_nonce_zero :
  (t ← NewTransactionFromEth (NewTx (LegacyTx 0 7 21000 None 12 [1; 2; 3] (Some (2017, 99, 5))));
   ToEthTransaction t) = Ok (Some (NewTx (LegacyTx 0 7 21000 None 12 [] (Some (2017, 99, 5))))).
Proof. vm_compute. reflexivity. Qed.
