(* ===== verification/SmartContractTheorems.v ===== *)
(** * Execution results and event logs: theorems

    The hash of a list of logs binds the list; what the protobuf form of an
    execution result keeps. *)

From S2P Require Import Prelude TrieEncoding TrieNode Instances Receipts SmartContract BatchStore TxInstances.

Local Open Scope Z_scope.

(** ** The hash of the logs *)

Section Logs.
Context `{EthLib} `{ScProtoLaws}.

(** The strings hashed for a list of logs. *)
Definition logPreimages (l : list PbEventLog) : list bytes :=
  marshalLogHashes (EventLog_Hash <$> l) :: (marshalEventLog <$> l).

Definition logCollision (l1 l2 : list PbEventLog) : Prop :=
  exists b1 b2, b1 ∈ logPreimages l1 /\ b2 ∈ logPreimages l2 /\ b1 <> b2 /\ Keccak256 b1 = Keccak256 b2.

Lemma marshalEventLog_inj a b : marshalEventLog a = marshalEventLog b -> a = b.
Proof. intros E. apply (f_equal unmarshalEventLog) in E. rewrite !eventLog_pb in E. congruence. Qed.

(** Lists of logs with the same hashes. *)
Lemma log_hashes_inj (l1 l2 : list PbEventLog) : EventLog_Hash <$> l1 = EventLog_Hash <$> l2 ->
  l1 = l2 \/ exists a b, a ∈ l1 /\ b ∈ l2 /\ marshalEventLog a <> marshalEventLog b /\
    Keccak256 (marshalEventLog a) = Keccak256 (marshalEventLog b).
Proof.
  revert l2. induction l1 as [|a l1 IH]; intros [|b l2]; [by left|done|done|]. rewrite !fmap_cons. intros [= E1 E2].
  destruct (decide (marshalEventLog a = marshalEventLog b)) as [Em|Nm].
  - apply marshalEventLog_inj in Em as ->. destruct (IH l2 E2) as [->|(a' & b' & Ha & Hb & ?)]; [by left|].
    right. exists a', b'. split; [by right|]. split; [by right|done].
  - right. exists a, b. split; [by left|]. split; [by left|done].
Qed.
End Logs.

(** The hash of a list of event logs binds the list: two lists
    with the same [GetLogsHash] are equal, or two different strings hashed for
    them are a Keccak-256 collision. *)
Theorem logs_hash_binding `{EthLib} `{ScProtoLaws} (l1 l2 : list PbEventLog) :
  GetLogsHash l1 = GetLogsHash l2 -> l1 = l2 \/ logCollision l1 l2.
Proof.
  intros E. unfold GetLogsHash in E.
  destruct (decide (marshalLogHashes (EventLog_Hash <$> l1) = marshalLogHashes (EventLog_Hash <$> l2))) as [Em|Nm].
  - apply logHashes_pb, log_hashes_inj in Em as [->|(a & b & Ha & Hb & N & Ek)]; [by left|]. right.
    exists (marshalEventLog a), (marshalEventLog b). split_and!; [right; by apply list_elem_of_fmap_2..|done|done].
  - right. eexists _, _. split_and!; [left|left|exact Nm|exact E].
Qed.

(** ** Round trips *)

Section RoundTrip.
Context `{EthLibLaws} `{ScProtoLaws}.

(** The sizes of addresses and hashes, and text for the string keys. *)
Record result_wf (r : ExecuteSCResult) : Prop := {
  wf_hash : length (xTransactionHash r) = 32%nat;
  wf_add : textKeys (xMapAddBalance r);
  wf_sub : textKeys (xMapSubBalance r);
  wf_code : textKeys (xMapCodeHash r);
  wf_root : textKeys (xMapStorageRoot r);
  wf_saddr : textKeys (xMapStorageAddress r);
  wf_creator : textKeys (xMapCreatorPubkey r);
  wf_saddr_len : map_Forall (fun _ a => length a = 20%nat) (xMapStorageAddress r);
  wf_touched : map_Forall (fun a l => is_address a /\ Forall (fun b => length b = 20%nat) l) (xMapTouched r);
  wf_native : map_Forall (fun a _ => is_address a) (xMapNative r)
}.

(** What comes back: no nonces, no logs hash, and storage addresses only along
    with creator keys. *)
Definition transmitted (r : ExecuteSCResult) : ExecuteSCResult :=
  mkResult (xTransactionHash r) (xStatus r) (xException r) (xReturnData r) (xGasUsed r) zeroHash (xMapAddBalance r)
    (xMapSubBalance r) ∅ (xMapStorageRoot r) (xMapCodeHash r)
    (if bool_decide (xMapCreatorPubkey r = ∅) then ∅ else xMapStorageAddress r)
    (xMapCreatorPubkey r) (xMapTouched r) (xMapNative r) (xEventLogs r).

Lemma storagePairs_datas l : storagePairs (storageDatas l) = l.
Proof.
  unfold storagePairs, storageDatas. rewrite <- list_fmap_compose. rewrite <- (list_fmap_id l) at 2.
  apply list_fmap_ext. by intros i [a b] _.
Qed.

Lemma addresses_id l : Forall (fun b => length b = 20%nat) l -> BytesToAddress <$> l = l.
Proof.
  intros Hl. rewrite <- (list_fmap_id l) at 2. apply list_fmap_ext. intros i b Hb.
  apply BytesToAddress_id. by apply (Forall_lookup_1 _ _ _ _ Hl Hb).
Qed.

Lemma Result_Proto_text r : result_wf r -> result_text (Result_Proto r).
Proof.
  intros W. unfold result_text. simpl. split_and!; try apply W; apply textKeys_list; apply Forall_fmap, Forall_forall;
    intros [a v] Ha%elem_of_map_to_list; simpl.
  - apply EncodeToString_text. by destruct (wf_touched r W a v Ha) as [[_ ?] _].
  - destruct (wf_native r W a v Ha) as [? ?]. by apply Hex_text.
Qed.

Lemma Result_FromProto_Proto r : result_wf r -> Result_FromProto (Result_Proto r) zeroResult = transmitted r.
Proof.
  intros W. unfold Result_FromProto, transmitted. simpl.
  assert (Et : (list_to_map ((fun kv => (HexToAddress kv.1, BytesToAddress <$> kv.2)) <$> map_to_list
    (list_to_map ((fun kv => (EncodeToString kv.1, kv.2)) <$> map_to_list (xMapTouched r)) : gmap bytes (list bytes)))
    : gmap bytes (list bytes)) = xMapTouched r).
  { apply list_to_map_translate.
    - intros a l Ha. destruct (wf_touched r W a l Ha) as [Aa Al]. simpl. by rewrite HexToAddress_encode, addresses_id.
    - intros a1 l1 a2 l2 M1 M2 E. destruct (wf_touched r W a1 l1 M1) as [A1 _], (wf_touched r W a2 l2 M2) as [A2 _].
      simpl in E. by rewrite <- (HexToAddress_encode a1), <- (HexToAddress_encode a2), E. }
  assert (En : (list_to_map ((fun kv => (HexToAddress kv.1, storagePairs kv.2)) <$> map_to_list
    (list_to_map ((fun kv => (Hex kv.1, storageDatas kv.2)) <$> map_to_list (xMapNative r)) : gmap bytes (list PbStorageData)))
    : gmap bytes (list (bytes * bytes))) = xMapNative r).
  { apply list_to_map_translate.
    - intros a l Ha. pose proof (wf_native r W a l Ha). simpl. by rewrite HexToAddress_Hex, storagePairs_datas.
    - intros a1 l1 a2 l2 M1 M2 E. simpl in E. apply Hex_inj in E; [done|by eapply wf_native..]. }
  rewrite Et, En. rewrite BytesToHash_id by apply W. f_equal; case_bool_decide as Ec; simpl; try done.
  apply map_eq. intros k. rewrite lookup_fmap. destruct (xMapStorageAddress r !! k) as [a|] eqn:Ea; [|done]. simpl.
  f_equal. apply BytesToAddress_id. by eapply (wf_saddr_len r W).
Qed.
End RoundTrip.

(** An execution result that is marshalled and unmarshalled
    into a new object comes back except for its nonces and its logs hash, which
    are lost, and its storage addresses, which are kept only when there are
    creator keys; a list of results comes back the same way, its group and block
    number included, after whatever results the receiving object had. *)
Theorem result_roundtrip `{EthLibLaws} `{ScProtoLaws} (r : ExecuteSCResult) (rs : list ExecuteSCResult) (g n : Z)
  (old : ExecuteSCResults) :
  result_wf r -> Forall result_wf rs ->
  Result_Unmarshal (Result_Marshal r) zeroResult = (Ok tt, transmitted r) /\
  Results_Unmarshal (Results_Marshal (mkResults rs g n)) old =
    (Ok tt, mkResults (results old ++ (transmitted <$> rs)) g n).
Proof.
  intros W Ws. split.
  - unfold Result_Unmarshal, Result_Marshal. rewrite result_pb by (by apply Result_Proto_text).
    by rewrite Result_FromProto_Proto.
  - unfold Results_Unmarshal, Results_Marshal. rewrite results_pb.
    2:{ simpl. apply Forall_fmap. eapply Forall_impl; [exact Ws|]. intros x. apply Result_Proto_text. }
    unfold Results_FromProto, Results_Proto. simpl. do 3 f_equal. rewrite <- list_fmap_compose.
    apply list_fmap_ext. intros i x Hx. apply Result_FromProto_Proto. by apply (Forall_lookup_1 _ _ _ _ Ws Hx).
Qed.

(** ** A concrete codec and witnesses *)

Definition encMap (m : gmap bytes bytes) : bytes := encFields (flat (map_to_list m)).
Definition decMap (b : bytes) : gmap bytes bytes := list_to_map (default [] (unpairs (decFields b))).

Lemma decMap_enc m : decMap (encMap m) = m.
Proof. unfold decMap, encMap. rewrite decFields_enc, unpairs_flat. apply list_to_map_to_list. Qed.

(** A map with encoded values. *)
Definition encMapOf {A} (enc : A -> bytes) (m : gmap bytes A) : bytes := encMap (enc <$> m).
Definition decMapOf {A} (dec : bytes -> A) (b : bytes) : gmap bytes A := dec <$> decMap b.

Lemma decMapOf_enc {A} (enc : A -> bytes) (dec : bytes -> A) (m : gmap bytes A) :
  (forall a, dec (enc a) = a) -> decMapOf dec (encMapOf enc m) = m.
Proof.
  intros Hd. unfold decMapOf, encMapOf. rewrite decMap_enc. apply map_eq. intros k. rewrite !lookup_fmap.
  destruct (m !! k); simpl; [|done]. by rewrite Hd.
Qed.

Definition encLog (l : PbEventLog) : bytes := encFields [eTransactionHash l; eAddress l; eData l; encFields (eTopics l)].
Definition decLog (b : bytes) : option PbEventLog :=
  match decFields b with [h; a; d; t] => Some (mkEventLog h a d (decFields t)) | _ => None end.
Lemma decLog_enc l : decLog (encLog l) = Some l.
Proof. unfold decLog, encLog. rewrite !decFields_enc. by destruct l. Qed.

Definition encLogs (l : list PbEventLog) : bytes := encFields (encLog <$> l).
Definition decLogs (b : bytes) : option (list PbEventLog) := mapM decLog (decFields b).
Lemma decLogs_enc l : decLogs (encLogs l) = Some l.
Proof.
  unfold decLogs, encLogs. rewrite decFields_enc. apply mapM_Some, Forall2_fmap_l, Forall_Forall2_diag, Forall_true.
  intros. apply decLog_enc.
Qed.

Definition encPairs (l : list PbStorageData) : bytes := encFields (flat (storagePairs l)).
Definition decPairs (b : bytes) : list PbStorageData := storageDatas (default [] (unpairs (decFields b))).
Lemma decPairs_enc l : decPairs (encPairs l) = l.
Proof.
  unfold decPairs, encPairs. rewrite decFields_enc, unpairs_flat. simpl. unfold storageDatas, storagePairs.
  rewrite <- list_fmap_compose. rewrite <- (list_fmap_id l) at 2. apply list_fmap_ext. by intros i [a b] _.
Qed.

Definition encResult (r : PbExecuteSCResult) : bytes :=
  encFields
    [pxTransactionHash r; encMap (pxMapAddBalance r); encMap (pxMapSubBalance r); encMap (pxMapCodeHash r);
     encMap (pxMapStorageRoot r); pxLogsHash r; [pxStatus r]; [pxException r]; pxReturn r; [pxGasUsed r];
     encMapOf encFields (pxMapTouched r); encMap (pxMapStorageAddress r); encMap (pxMapCreatorPubkey r);
     encMapOf encPairs (pxMapNative r); encLogs (pxEventLogs r)].

Definition decResult (b : bytes) : option PbExecuteSCResult :=
  match decFields b with
  | [h; add; sub; code; root; lh; st; ex; ret; gas; tou; sa; cr; nat_; logs] =>
      l ← decLogs logs;
      Some (mkPbResult h (decMap add) (decMap sub) (decMap code) (decMap root) lh (decZ st) (decZ ex) ret (decZ gas)
        (decMapOf decFields tou) (decMap sa) (decMap cr) (decMapOf decPairs nat_) l)
  | _ => None
  end.

Lemma decResult_enc r : decResult (encResult r) = Some r.
Proof.
  unfold decResult, encResult. rewrite decFields_enc. cbn [mbind option_bind]. rewrite decLogs_enc. simpl.
  rewrite !decMap_enc, !decMapOf_enc by (apply decFields_enc || apply decPairs_enc). by destruct r.
Qed.

Definition encUpdate (u : PbUpdateData) : bytes := encFields [puCode u; encMap (puStorage u); encLogs (puEventLogs u)].
Definition decUpdate (b : bytes) : PbUpdateData :=
  match decFields b with
  | [c; s; l] => mkPbUpdate c (decMap s) (default [] (decLogs l))
  | _ => mkPbUpdate [] ∅ []
  end.
Lemma decUpdate_enc u : decUpdate (encUpdate u) = u.
Proof. unfold decUpdate, encUpdate. rewrite decFields_enc, decMap_enc, decLogs_enc. by destruct u. Qed.

#[export] Instance toyScProto : ScProto := {|
  marshalEventLog := encLog;
  unmarshalEventLog := decLog;
  marshalEventLogs := encLogs;
  unmarshalEventLogs := decLogs;
  marshalMapEventLogs := encMapOf encLogs;
  unmarshalMapEventLogs b := Some (decMapOf (fun l => default [] (decLogs l)) b);
  marshalLogHashes := encFields;
  marshalResult := encResult;
  unmarshalResult := decResult;
  marshalResults x := encFields ([x.1.2] :: [x.2] :: (encResult <$> x.1.1));
  unmarshalResults b :=
    match decFields b with g :: n :: l => rs ← mapM decResult l; Some (rs, decZ g, decZ n) | _ => None end;
  marshalUpdateDatas x := encFields [[x.2]; encMapOf encUpdate x.1];
  unmarshalUpdateDatas b :=
    match decFields b with [n; m] => Some (decMapOf decUpdate m, decZ n) | _ => None end;
  marshalTouched x := encFields ([x.1] :: x.2);
  unmarshalTouched b := match decFields b with n :: l => Some (decZ n, l) | [] => None end
|}.

#[export] Instance toyScProtoLaws : ScProtoLaws.
Proof.
  split; cbn [marshalEventLog unmarshalEventLog marshalEventLogs unmarshalEventLogs marshalMapEventLogs
    unmarshalMapEventLogs marshalLogHashes marshalResult unmarshalResult marshalResults unmarshalResults
    marshalUpdateDatas unmarshalUpdateDatas marshalTouched unmarshalTouched toyScProto].
  - apply decLog_enc.
  - apply decLogs_enc.
  - intros m _. f_equal. apply decMapOf_enc. intros l. by rewrite decLogs_enc.
  - intros l1 l2 E. apply (f_equal decFields) in E. by rewrite !decFields_enc in E.
  - intros r _. apply decResult_enc.
  - intros [[rs g] n] _. rewrite decFields_enc. cbn [fst snd].
    replace (mapM decResult (encResult <$> rs)) with (Some rs); [done|]. symmetry.
    apply mapM_Some, Forall2_fmap_l, Forall_Forall2_diag, Forall_true. intros. apply decResult_enc.
  - intros [m n] _ _. rewrite decFields_enc. cbn [fst snd]. by rewrite decMapOf_enc by apply decUpdate_enc.
  - intros [n l]. by rewrite decFields_enc.
Qed.

Definition sampleLog : PbEventLog := NewEventLog (replicate 32 1) (replicate 20 2) [3] [[4]; [5; 6]].

Lemma logs_hash_binding_witness :
  GetLogsHash [sampleLog] = GetLogsHash [sampleLog] /\
  ([sampleLog] = [sampleLog] \/ logCollision [sampleLog] [sampleLog]).
Proof. split; [reflexivity|]. apply (logs_hash_binding [sampleLog] [sampleLog]). reflexivity. Defined.

(** A result with a nonce, a logs hash and a storage address, but no creator. *)
Definition sampleResult : ExecuteSCResult :=
  mkResult (replicate 32 1) 0 (-1) [9] 21000 (replicate 32 7) {[ [97] := [1] ]} ∅ {[ [97] := [4] ]} ∅ ∅
    {[ [98] := replicate 20 3 ]} ∅ {[ replicate 20 5 := [replicate 20 6] ]} {[ replicate 20 8 := [([1], [2])] ]} [sampleLog].

Lemma result_roundtrip_witness :
  Result_Unmarshal (Result_Marshal sampleResult) zeroResult = (Ok tt, transmitted sampleResult) /\
  Results_Unmarshal (Results_Marshal (mkResults [sampleResult] 3 4)) (mkResults [zeroResult] 0 0) =
    (Ok tt, mkResults (results (mkResults [zeroResult] 0 0) ++ (transmitted <$> [sampleResult])) 3 4).
Proof.
  assert (W : result_wf sampleResult).
  { split; [reflexivity|..]; simpl; unfold textKeys, is_text;
      try apply map_Forall_empty; try apply map_Forall_singleton;
      apply (bool_decide_unpack _); vm_compute; exact I. }
  apply (result_roundtrip sampleResult [sampleResult] 3 4 (mkResults [zeroResult] 0 0)); [exact W|by constructor].
Defined.
