(* ===== verification/Message.v ===== *)
(** * Network messages and their sending

    Models [pkg/network/message.go], [message_sender.go] and [request.go]: the
    wrapper of [pb.Message] with its nil-safe accessors, the construction of an
    outgoing message, and the functions that hand it to a connection.

    A [string] field is text; a [[]byte] field is its bytes, where nil and empty
    give the same answers.  The random identifier of [uuid.New] is an argument.
    The protobuf codec of [pb.Message] is the class [NetProto]; the connection a
    message is sent on is the record [ConnOps] of the two methods these
    functions call. *)

From S2P Require Import Prelude Binary TrieEncoding TrieNode Instances AccountState.

Local Open Scope Z_scope.

(** ** [pb.Header] and [pb.Message] *)

Record Header := mkHeader {
  hCommand : string;
  hPubkey : bytes;
  hToAddress : bytes;
  hSign : bytes;
  hVersion : string;
  hID : string
}.

Record PbMessage := mkPbMessage { pHeader : option Header; pBody : bytes }.

#[export] Instance Header_eq_dec : EqDecision Header.
Proof. solve_decision. Defined.
#[export] Instance PbMessage_eq_dec : EqDecision PbMessage.
Proof. solve_decision. Defined.

Definition emptyHeader : Header := mkHeader "" [] [] [] "" "".

(** [proto.Marshal] and [proto.Unmarshal] of a [pb.Message].  Protobuf strings
    are UTF-8, which ASCII text is; a header that is set is written with its tag,
    even when all its fields are empty. *)
Class NetProto := {
  marshalMessage : PbMessage -> option bytes;
  unmarshalMessage : bytes -> option PbMessage
}.

Definition asciiString (s : string) : Prop := Forall (fun c => Ascii.N_of_ascii c < 128)%N (String.list_ascii_of_string s).
Definition asciiHeader (h : Header) : Prop := asciiString (hCommand h) /\ asciiString (hVersion h) /\ asciiString (hID h).
Definition asciiMessage (m : PbMessage) : Prop := from_option asciiHeader True (pHeader m).

#[export] Instance asciiMessage_dec m : Decision (asciiMessage m).
Proof. destruct m as [[h|] b]; cbn; unfold asciiHeader, asciiString; apply _. Defined.

Class NetProtoLaws `{NetProto} : Prop := {
  message_codec m : asciiMessage m -> exists b, marshalMessage m = Some b /\ unmarshalMessage b = Some m;
  message_nonempty m b : is_Some (pHeader m) -> marshalMessage m = Some b -> b <> []
}.

(** ** [Message] *)

(** A [*Message]: the wrapped message, [None] when the pointer or the message
    is nil. *)
Abbreviation Message := (option PbMessage).

Definition NewMessage (pbMessage : option PbMessage) : Message :=
  match pbMessage with
  | None => Some (mkPbMessage (Some emptyHeader) [])
  | Some m =>
      match pHeader m with
      | None => Some (mkPbMessage (Some emptyHeader) (pBody m))
      | Some _ => Some m
      end
  end.

Definition Msg_Marshal `{NetProto} (m : Message) : outcome bytes :=
  match m with
  | None => Err (ErrText "Message.Marshal: nil")
  | Some p => match marshalMessage p with Some b => Ok b | None => Err (ErrText "proto") end
  end.

(** [Unmarshal] decodes the body into the caller's structure, nil when [None]. *)
Definition Msg_Unmarshal {A} (m : Message) (protoStruct : option (bytes -> option A)) : outcome A :=
  match m with
  | None => Err (ErrText "Message.Unmarshal: nil message")
  | Some p =>
      match protoStruct with
      | None => Err (ErrText "Message.Unmarshal: nil protoStruct")
      | Some decode => match decode (pBody p) with Some a => Ok a | None => Err (ErrText "proto") end
      end
  end.

Definition headerOf (m : Message) : option Header := m ≫= pHeader.

Definition Msg_Command (m : Message) : string := from_option hCommand ""%string (headerOf m).
Definition Msg_Version (m : Message) : string := from_option hVersion ""%string (headerOf m).
Definition Msg_Body (m : Message) : bytes := from_option pBody [] m.
Definition Msg_Pubkey (m : Message) : bytes :=
  match headerOf m with Some h => PubkeyFromBytes (hPubkey h) | None => replicate 48 0 end.
Definition Msg_Sign (m : Message) : bytes :=
  match headerOf m with Some h => SignFromBytes (hSign h) | None => replicate 96 0 end.
Definition Msg_ToAddress `{EthLib} (m : Message) : bytes :=
  match headerOf m with
  | Some h => if bool_decide (hToAddress h = []) then zeroAddress else BytesToAddress (hToAddress h)
  | None => zeroAddress
  end.
Definition Msg_ID (m : Message) : string := from_option hID ""%string (headerOf m).

(** ** [Request] *)

(** A request names the connection it came from and its message. *)
Record Request (C : Type) := mkRequest { rConnection : C; rMessage : Message }.
Arguments mkRequest {C}.
Arguments rConnection {C}.
Arguments rMessage {C}.

Definition NewRequest {C} (connection : C) (message : Message) : Request C := mkRequest connection message.

(** The pool's object is overwritten: nothing of the old request stays. *)
Definition Req_Reset {C} (connection : C) (message : Message) (r : Request C) : Request C := mkRequest connection message.

(** ** Sending *)

(** What a sender calls on a connection: its address, and [SendMessage] on the
    state [S] of the connections. *)
Record ConnOps (S : Type) := mkConnOps {
  connAddress : bytes;
  connSend : Message -> stm S unit
}.
Arguments connAddress {S}.
Arguments connSend {S}.

Definition getHeaderForCommand (uuid : string) (command : string) (toAddress : bytes) (version : string) : Header :=
  mkHeader command [] toAddress [] version uuid.

Definition generateMessage (uuid : string) (toAddress : bytes) (command : string) (body : bytes) (version : string) : Message :=
  NewMessage (Some (mkPbMessage (Some (getHeaderForCommand uuid command toAddress version)) body)).

Section Sender.
Context {S : Type}.

Definition SendBytes (uuid : string) (connection : option (ConnOps S)) (command : string) (body : bytes) (version : string) :
  stm S unit :=
  match connection with
  | None => lift (Err (ErrText "SendBytes (utility): nil connection"))
  | Some c => connSend c (generateMessage uuid (connAddress c) command body version)
  end.

(** The message to send is given by its encoding: [None] for a nil message,
    [Some None] for one that does not marshal. *)
Definition SendMessage (uuid : string) (connection : option (ConnOps S)) (command : string)
  (pbMessage : option (option bytes)) (version : string) : stm S unit :=
  match pbMessage with
  | None => SendBytes uuid connection command [] version
  | Some (Some body) => SendBytes uuid connection command body version
  | Some None => lift (Err (ErrText "proto"))
  end.

Record MessageSender := mkSender { sVersion : string }.
Definition NewMessageSender (version : string) : MessageSender := mkSender version.

(** The log line calls [connection.Address()], which fails on nil. *)
Definition Sender_SendMessage (s : MessageSender) (uuid : string) (connection : option (ConnOps S)) (command : string)
  (pbMessage : option (option bytes)) : stm S unit :=
  match connection with
  | None => lift Panic
  | Some _ => SendMessage uuid connection command pbMessage (sVersion s)
  end.

Definition SendMessage2 (s : MessageSender) (uuid : string) (connection : option (ConnOps S)) (command : string)
  (pbMessage : option (option bytes)) : stm S unit :=
  match connection with
  | None => lift (Err (ErrText "SendMessage: connection is nil"))
  | Some c =>
      match pbMessage with
      | Some None => lift (Err (ErrText "proto"))
      | _ =>
          let body := from_option (default []) [] pbMessage in
          connSend c (NewMessage (Some (mkPbMessage
            (Some (mkHeader command [] (connAddress c) [] (sVersion s) uuid)) body)))
      end
  end.

Definition Sender_SendBytes (s : MessageSender) (uuid : string) (connection : option (ConnOps S)) (command : string) (b : bytes) :
  stm S unit := SendBytes uuid connection command b (sVersion s).

(** One goroutine for each connection that is not nil; the errors are logged.
    [schedule] is the order in which they run, with the identifiers drawn. *)
Definition BroadcastMessage (s : MessageSender) (schedule : list (string * option (ConnOps S))) (command : string)
  (marshaled : option bytes) : stm S unit :=
  match marshaled with
  | None => lift (Err (ErrText "marshal"))
  | Some b =>
      foldr (fun '(uuid, con) rest =>
        match con with
        | None => rest
        | Some _ => catch (Sender_SendBytes s uuid con command b) (fun _ => mret tt) ;; rest
        end) (mret tt) schedule
  end.
End Sender.

(** ** Facts used by the transport *)

Lemma NewMessage_header m p : NewMessage m = Some p -> is_Some (pHeader p).
Proof.
  unfold NewMessage. destruct m as [[[h|] b]|]; simpl; intros [= <-]; eauto.
Qed.

Lemma NewMessage_idem m : NewMessage (NewMessage m) = NewMessage m.
Proof. by destruct m as [[[h|] b]|]. Qed.

(** The two ways of sending a message build the same one. *)
Lemma SendMessage2_eq {S} s uuid (c : ConnOps S) command pb st :
  SendMessage2 s uuid (Some c) command pb st = SendMessage uuid (Some c) command pb (sVersion s) st.
Proof. by destruct pb as [[b|]|]. Qed.

(** ** An executable codec *)

Definition bytesOfString (s : string) : bytes :=
  (fun c => Z.of_N (Ascii.N_of_ascii c)) <$> String.list_ascii_of_string s.
Definition stringOfBytes (b : bytes) : string :=
  String.string_of_list_ascii ((fun z => Ascii.ascii_of_N (Z.to_N z)) <$> b).

Lemma stringOfBytes_of s : stringOfBytes (bytesOfString s) = s.
Proof.
  unfold stringOfBytes, bytesOfString. rewrite <- list_fmap_compose.
  rewrite <- (String.string_of_list_ascii_of_string s) at 2. f_equal.
  rewrite <- (list_fmap_id (String.list_ascii_of_string s)) at 2. apply list_fmap_ext.
  intros i c _. simpl. rewrite N2Z.id. apply Ascii.ascii_N_embedding.
Qed.

Definition encHeader (h : Header) : bytes :=
  mjoin (framed <$> [bytesOfString (hCommand h); hPubkey h; hToAddress h; hSign h; bytesOfString (hVersion h); bytesOfString (hID h)]).

#[export] Instance toyNetProto : NetProto := {|
  marshalMessage m := Some (from_option (fun h => 1 :: framed (encHeader h)) [0] (pHeader m) ++ pBody m);
  unmarshalMessage b :=
    match b with
    | 0 :: body => Some (mkPbMessage None body)
    | 1 :: n :: rest =>
        let h := take (Z.to_nat n) rest in
        match unframeAll (length h) h with
        | [c; pk; a; s; v; i] =>
            Some (mkPbMessage (Some (mkHeader (stringOfBytes c) pk a s (stringOfBytes v) (stringOfBytes i)))
              (drop (Z.to_nat n) rest))
        | _ => None
        end
    | _ => None
    end
|}.

#[export] Instance toyNetProtoLaws : NetProtoLaws.
Proof.
  split.
  - intros [[[c pk a s v i]|] body] _; cbn [marshalMessage toyNetProto pHeader pBody from_option];
      eexists; (split; [reflexivity|]); [|reflexivity].
    set (h := mkHeader c pk a s v i).
    change (framed (encHeader h)) with (Z.of_nat (length (encHeader h)) :: encHeader h).
    cbn [app unmarshalMessage toyNetProto].
    cbv zeta. rewrite Nat2Z.id, take_app_length, drop_app_length. unfold encHeader.
    rewrite unframeAll_framed by apply length_framed. cbn [hCommand hPubkey hToAddress hSign hVersion hID h].
    by rewrite !stringOfBytes_of.
  - intros [[h|] body] b [? Hh] [= <-]; done.
Qed.
