(* ===== verification/EventHelper.v ===== *)
(** * Events of contracts

    Models [pkg/client-tcp/utils/event_helper]: [event_topics.go], the table of the events
    of a contract and the decoding of a log, and [event_helper.go], the conversions of
    decoded values.

    The ABI package of go-ethereum is the class [EventAbi]: parsing of a type's name, and
    packing and unpacking of a list of values.  [encoding/json], [common.IsHexAddress] and the
    text of a value are arguments.  Strings are their bytes. *)

From stdpp Require Import pretty.
From S2P Require Import Prelude Binary Instances Receipts SmartContract Message.

Local Open Scope Z_scope.

(** ** Values *)

(** What an [interface{}] of a decoded event holds; [EvOther] is a value of any other
    type. *)
Inductive eventValue :=
| EvAddress (a : bytes)
| EvHash (h : bytes)
| EvArray20 (b : bytes)
| EvArray32 (b : bytes)
| EvBytes (b : bytes)
| EvString (s : bytes)
| EvBig (z : Z)
| EvUint64 (z : Z)
| EvInt64 (z : Z)
| EvOther (n : nat).

Definition zeroX : bytes := [48; 120].
Definition hasZeroX (s : bytes) : bool := bool_decide (take 2 s = zeroX).

Section Extract.
Context `{EthLib} (IsHexAddress : bytes -> bool) (Sprint : eventValue -> bytes).

Definition zeroAddr : bytes := replicate 20 0.

Definition ExtractAddress (val : eventValue) : bytes * bool :=
  match val with
  | EvAddress v => (v, true)
  | EvArray20 v => (BytesToAddress v, true)
  | EvBytes v => (BytesToAddress v, true)
  | EvString v =>
      if IsHexAddress v then (HexToAddress v, true)
      else if hasZeroX v && (42 <=? length v)%nat then (HexToAddress (take 42 v), true)
      else (zeroAddr, false)
  | _ => (zeroAddr, false)
  end.

Definition ExtractBytes32Hex (val : eventValue) : bytes :=
  match val with
  | EvArray32 v => zeroX ++ EncodeToString v
  | EvBytes v => zeroX ++ EncodeToString v
  | EvString v => if hasZeroX v then v else zeroX ++ v
  | _ => []
  end.

Definition ExtractBigInt (val : eventValue) : Z :=
  match val with EvBig v => v | EvUint64 v => v | EvInt64 v => v | _ => 0 end.

Definition isSpaceByte (c : Z) : bool := ((9 <=? c) && (c <=? 13)) || (c =? 32).

Fixpoint trimLeftBytes (s : bytes) : bytes :=
  match s with c :: s' => if isSpaceByte c then trimLeftBytes s' else s | [] => [] end.
Definition trimSpaceBytes (s : bytes) : bytes := rev (trimLeftBytes (rev (trimLeftBytes s))).

Definition ExtractStringValue (val : eventValue) : bytes :=
  match val with EvString v => trimSpaceBytes v | EvBytes v => v | v => Sprint v end.

(** [None] is nil. *)
Definition ExtractBytesValue (val : eventValue) : option bytes :=
  match val with
  | EvBytes v => Some v
  | EvString v => if hasZeroX v then Some (FromHex v) else Some v
  | _ => None
  end.

(** [s[:strings.Index(s, "(")]] *)
Fixpoint beforeParen (s : bytes) : bytes :=
  match s with [] => [] | c :: s' => if c =? 40 then [] else c :: beforeParen s' end.

Definition trimPrefixBytes (p s : bytes) : bytes := if bool_decide (take (length p) s = p) then drop (length p) s else s.

Definition CleanHex (input : bytes) : bytes :=
  let s := beforeParen (trimSpaceBytes input) in
  let s := trimPrefixBytes [48; 120] s in
  let s := trimPrefixBytes [48; 88] s in
  let s := filter (fun c => c <> 32) s in
  if Nat.odd (length s) then 48 :: s else s.

Definition GetBigIntFromEventData (eventData : gmap bytes eventValue) (key : bytes) : outcome Z :=
  match eventData !! key with
  | None => Err (ErrText "key missing")
  | Some (EvBig v) => Ok v
  | Some (EvHash v) => Ok (undigits 256 (rev v))
  | Some (EvUint64 v) => Ok v
  | Some (EvInt64 v) => Ok v
  | Some _ => Err (ErrText "key has invalid type")
  end.

Definition GetAddressFromEventData (eventData : gmap bytes eventValue) (key : bytes) : outcome bytes :=
  match eventData !! key with
  | None => Err (ErrText "key missing")
  | Some (EvAddress v) => Ok v
  | Some (EvHash v) | Some (EvArray20 v) | Some (EvBytes v) => Ok (BytesToAddress v)
  | Some (EvString v) => if IsHexAddress v then Ok (HexToAddress v) else Err (ErrText "key has invalid address string")
  | Some _ => Err (ErrText "key has invalid type")
  end.
End Extract.

(** ** Events *)

Record AbiInput := mkInput { Indexed : bool; InternalType : bytes; inName : bytes; inType : bytes }.
Record AbiEvent := mkEvent { Anonymous : bool; Inputs : list AbiInput; evName : bytes; evType : bytes }.

(** [abi.NewType] of a name, [Arguments.Pack] and [Arguments.Unpack]; [wordType] holds of
    the value types (numbers, addresses, booleans, bytesN), whose values are stored in a
    topic as they are; [indexedBytes] is the string that is hashed for an indexed value of
    another type; [fits] says that a value is in the range of a type and of the Go type that
    [Unpack] gives it. *)
Class EventAbi := {
  abiType : Type;
  newType : bytes -> option abiType;
  wordType : abiType -> bool;
  fits : abiType -> eventValue -> bool;
  packArgs : list abiType -> list eventValue -> option bytes;
  unpackArgs : list abiType -> bytes -> option (list eventValue);
  indexedBytes : abiType -> eventValue -> option bytes
}.

(** Values in the range of their types, packed, unpack to the same values, and packed data
    are bytes.  (A number out of range is packed modulo 2^256, and does not come back.) *)
Class EventAbiLaws `{EventAbi} : Prop := {
  unpack_pack ts vs b : Forall2 (fun t v => fits t v = true) ts vs -> packArgs ts vs = Some b -> unpackArgs ts b = Some vs;
  pack_bytes ts vs b : packArgs ts vs = Some b -> is_bytes b
}.

Section Events.
Context `{EthLib} `{EventAbi}.

Fixpoint joinComma (ts : list bytes) : bytes :=
  match ts with [] => [] | [t] => t | t :: ts' => t ++ [44] ++ joinComma ts' end.

(** [fmt.Sprintf("%s(%s)", abi.Name, strings.Join(types, ","))] *)
Definition signature (e : AbiEvent) : bytes := evName e ++ [40] ++ joinComma (inType <$> Inputs e) ++ [41].

Definition isEvent (e : AbiEvent) : bool := bool_decide (evType e = bytesOfString "event").

Definition abiToTopicHash (e : AbiEvent) : outcome bytes :=
  if bool_decide (evName e = []) then Err (ErrText "event ABI missing name")
  else if negb (isEvent e) then Err (ErrText "ABI is not an event")
  else if existsb (fun i => bool_decide (inType i = [])) (Inputs e) then Err (ErrText "event missing input type")
  else Ok (zeroX ++ EncodeToString (Keccak256 (signature e))).

Definition lowerByte (c : Z) : Z := if (65 <=? c) && (c <=? 90) then c + 32 else c.
Definition toLowerBytes (s : bytes) : bytes := lowerByte <$> s.

Fixpoint addTopics (items : list AbiEvent) (result : gmap bytes AbiEvent) : outcome (gmap bytes AbiEvent) :=
  match items with
  | [] => Ok result
  | item :: items =>
      if negb (isEvent item) then addTopics items result
      else match abiToTopicHash item with
           | Ok topic => addTopics items (<[toLowerBytes topic := item]> result)
           | _ => Err (ErrText "failed to compute topic hash")
           end
  end.

Definition BuildTopicMapFromAbiJson (unmarshal : bytes -> option (list AbiEvent)) (abiJson : bytes) : outcome (gmap bytes AbiEvent) :=
  if bool_decide (abiJson = []) then Err (ErrText "ABI JSON is empty")
  else match unmarshal abiJson with
       | None => Err (ErrText "failed to unmarshal ABI JSON")
       | Some abiItems => addTopics abiItems ∅
       end.

Definition withZeroX (s : bytes) : bytes := if hasZeroX s then s else zeroX ++ s.

Definition parseIndexedTopic (typeName topicHex : bytes) : outcome eventValue :=
  let topicBytes := FromHex (withZeroX topicHex) in
  match newType typeName with
  | None => Err (ErrText "invalid type")
  | Some typ =>
      match unpackArgs [typ] topicBytes with
      | None => Err (ErrText "failed to unpack topic")
      | Some (v :: _) => Ok v
      | Some [] => Err (ErrText "no value unpacked")
      end
  end.

(** The names and types of the inputs that are not indexed. *)
Fixpoint argumentsOf (inputs : list AbiInput) : outcome (list (bytes * abiType)) :=
  match inputs with
  | [] => Ok []
  | input :: inputs =>
      if Indexed input then argumentsOf inputs
      else if bool_decide (inType input = []) then Err (ErrText "event input missing type")
      else match newType (inType input) with
           | None => Err (ErrText "event invalid type")
           | Some typ => args ← argumentsOf inputs; Ok ((inName input, typ) :: args)
           end
  end.

Definition arguments (e : AbiEvent) : outcome (list (bytes * abiType)) := argumentsOf (Inputs e).

Definition argName (idx : nat) (name : bytes) : bytes :=
  if bool_decide (name = []) then bytesOfString ("arg" +:+ pretty (Z.of_nat idx)) else name.

(** The loop over the arguments, with the values from number [idx] on. *)
Fixpoint nameValues (idx : nat) (args : list (bytes * abiType)) (values : list eventValue) (result : gmap bytes eventValue) :
  gmap bytes eventValue :=
  match args with
  | [] => result
  | (name, _) :: args =>
      nameValues (S idx) args values
        (match values !! idx with Some v => <[argName idx name := v]> result | None => result end)
  end.

Definition decodeEventData (e : AbiEvent) (dataHex : bytes) : outcome (gmap bytes eventValue) :=
  args ← arguments e;
  match args with
  | [] => Ok ∅
  | _ =>
      match unpackArgs args.*2 (FromHex (withZeroX dataHex)) with
      | None => Err (ErrText "failed to unpack event")
      | Some values => Ok (nameValues 0 args values ∅)
      end
  end.

(** The indexed inputs take the topics from number [indexedIdx] on; those for which there
    is no topic are left out. *)
Fixpoint indexedValues (inputs : list AbiInput) (topics : list bytes) (indexedIdx : nat) (result : gmap bytes eventValue) :
  outcome (gmap bytes eventValue) :=
  match inputs with
  | [] => Ok result
  | input :: inputs =>
      if Indexed input then
        match topics !! indexedIdx with
        | None => indexedValues inputs topics indexedIdx result
        | Some topicValue =>
            match parseIndexedTopic (inType input) topicValue with
            | Ok v => indexedValues inputs topics (S indexedIdx) (<[inName input := v]> result)
            | _ => Err (ErrText "failed to parse indexed topic")
            end
        end
      else indexedValues inputs topics indexedIdx result
  end.

(** [Topics] and [Data] of a log, in hex. *)
Definition Log_Topics (l : PbEventLog) : list bytes := EncodeToString <$> eTopics l.
Definition Log_Data (l : PbEventLog) : bytes := EncodeToString (eData l).

Definition DecodeEventLog (e : AbiEvent) (log : option PbEventLog) : outcome (gmap bytes eventValue) :=
  match log with
  | None => Err (ErrText "log is nil")
  | Some log =>
      result ← indexedValues (Inputs e) (Log_Topics log) 1 ∅;
      if bool_decide (Log_Data log = []) then Ok result
      else nonIndexedData ← decodeEventData e (Log_Data log); Ok (nonIndexedData ∪ result)
  end.
End Events.

(** ** What is emitted is what is decoded *)

(** [common.FromHex] takes a prefix off. *)
Class FromHexLaw `{EthLib} : Prop := { FromHex_0x b : is_bytes b -> FromHex (zeroX ++ EncodeToString b) = b }.

Definition isIndexed (p : AbiInput * eventValue) : Prop := Indexed p.1 = true.
#[export] Instance isIndexed_dec p : Decision (isIndexed p).
Proof. unfold isIndexed. apply _. Defined.

Definition named (p : AbiInput * eventValue) : bytes * eventValue := (inName p.1, p.2).

Section Emit.
Context `{EthLib} `{EventAbi}.

(** The topic of an indexed value: a value of a value type packed alone, and the hash of
    any other. *)
Definition topicOf (p : AbiInput * eventValue) : option bytes :=
  t ← newType (inType p.1);
  if wordType t then packArgs [t] [p.2] else Keccak256 <$> indexedBytes t p.2.

(** The value is in the range of the type of its input. *)
Definition fitsInput (p : AbiInput * eventValue) : Prop := exists t, newType (inType p.1) = Some t /\ fits t p.2 = true.

(** The log of an event with these values: after the topic of the event a topic for each
    indexed input, and the other values packed as the data. *)
Definition emits (e : AbiEvent) (vs : list eventValue) (log : PbEventLog) : Prop :=
  let pairs := zip (Inputs e) vs in
  let plain := filter (fun p => ~ isIndexed p) pairs in
  exists topic0 topics ts,
    length vs = length (Inputs e) /\ eTopics log = topic0 :: topics /\ mapM topicOf (filter isIndexed pairs) = Some topics /\
    mapM (fun p => newType (inType p.1)) plain = Some ts /\ packArgs ts plain.*2 = Some (eData log) /\
    (plain <> [] -> eData log <> []) /\ Forall fitsInput pairs.

(** An indexed input is of a value type. *)
Definition wordIndexed (i : AbiInput) : Prop :=
  Indexed i = true -> exists t, newType (inType i) = Some t /\ wordType t = true.

Lemma hexDigit_not_x n : 0 <= n < 16 -> hexDigit n <> 120.
Proof. unfold hexDigit. destruct (Z.ltb_spec n 10); lia. Qed.

Lemma withZeroX_encode b : is_bytes b -> withZeroX (EncodeToString b) = zeroX ++ EncodeToString b.
Proof.
  intros Hb. unfold withZeroX, hasZeroX. rewrite bool_decide_eq_false_2; [done|].
  destruct Hb as [|x b Hx Hb]; [done|]. cbn. intros [= _ E]. revert E. apply hexDigit_not_x.
  apply Z.mod_pos_bound. lia.
Qed.

Context `{!FromHexLaw} `{!EventAbiLaws}.

Lemma parse_topic p b : topicOf p = Some b -> fitsInput p -> isIndexed p -> wordIndexed p.1 ->
  parseIndexedTopic (inType p.1) (EncodeToString b) = Ok p.2.
Proof.
  unfold topicOf, parseIndexedTopic. intros Hp (t & Ht & Hf) Hi Hw. destruct (Hw Hi) as (t' & Ht' & Hw'). rewrite Ht in *. simplify_eq.
  cbn [mbind option_bind] in Hp. rewrite Hw' in Hp.
  pose proof (pack_bytes _ _ _ Hp) as Hb. rewrite withZeroX_encode, FromHex_0x by done.
  rewrite (unpack_pack [t'] [p.2] b); [done|by repeat constructor|done].
Qed.

Definition putAll (result : gmap bytes eventValue) (l : list (bytes * eventValue)) : gmap bytes eventValue :=
  foldl (fun m p => <[p.1 := p.2]> m) result l.

Lemma putAll_NoDup l result : NoDup l.*1 -> putAll result l = list_to_map l ∪ result.
Proof.
  revert result. induction l as [|[k v] l IH]; intros result Hn; cbn; [by rewrite (left_id_L ∅ (∪))|].
  inversion_clear Hn as [|? ? Hk Hl]. unfold putAll in IH. rewrite IH by done.
  rewrite <- insert_union_r, insert_union_l; [done|]. by apply not_elem_of_list_to_map_1.
Qed.

Lemma indexed_putAll pairs topics all idx result :
  mapM topicOf (filter isIndexed pairs) = Some topics -> drop idx all = EncodeToString <$> topics ->
  Forall (fun p => fitsInput p /\ wordIndexed p.1) pairs ->
  indexedValues pairs.*1 all idx result = Ok (putAll result (named <$> filter isIndexed pairs)).
Proof.
  revert topics idx result. induction pairs as [|p pairs IH]; intros topics idx result Hm Hd Hw; [done|].
  apply Forall_cons in Hw as [[Hf Hw] Hws]. cbn [fmap list_fmap indexedValues]. rewrite filter_cons in *. destruct (decide (isIndexed p)) as [Hc|Hc]; unfold isIndexed in Hc.
  - rewrite Hc. cbn in Hm. destruct (topicOf p) as [b|] eqn:Hb; [|done]. cbn in Hm.
    destruct (mapM topicOf (filter isIndexed pairs)) as [topics'|] eqn:Hm'; [|done]. cbn in Hm. injection Hm as <-.
    assert (Hl : all !! idx = Some (EncodeToString b)).
    { rewrite <- (Nat.add_0_r idx), <- lookup_drop. by rewrite Hd. }
    rewrite Hl, (parse_topic p b Hb Hf Hc Hw). cbn. apply (IH topics' (S idx)); [done| |done].
    change (S idx) with (1 + idx)%nat. rewrite Nat.add_comm, <- drop_drop, Hd. done.
  - rewrite (not_true_is_false _ Hc). by apply (IH topics).
Qed.

Lemma arguments_plain pairs ts :
  mapM (fun p => newType (inType p.1)) (filter (fun p => ~ isIndexed p) pairs) = Some ts ->
  Forall (fun p => inType p.1 <> []) pairs ->
  argumentsOf pairs.*1 = Ok (zip ((fun p => inName p.1) <$> filter (fun p => ~ isIndexed p) pairs) ts).
Proof.
  revert ts. induction pairs as [|p pairs IH]; intros ts Hm Hty; [by injection Hm as <-|].
  apply Forall_cons in Hty as [Hp Hty]. cbn [fmap list_fmap argumentsOf]. rewrite filter_cons in *.
  destruct (decide (~ isIndexed p)) as [Hc|Hc]; unfold isIndexed in Hc.
  - rewrite (not_true_is_false _ Hc), bool_decide_eq_false_2 by done. cbn in Hm.
    destruct (newType (inType p.1)) as [t|]; [|done]. cbn in Hm.
    destruct (mapM _ (filter _ pairs)) as [ts'|]; [|done]. injection Hm as <-. by rewrite (IH ts').
  - destruct (Indexed p.1); [by apply IH|]. exfalso. apply Hc. done.
Qed.

Lemma nameValues_putAll plain ts values idx result : length ts = length plain -> drop idx values = plain.*2 ->
  Forall (fun p => inName p.1 <> []) plain ->
  nameValues idx (zip ((fun p => inName p.1) <$> plain) ts) values result = putAll result (named <$> plain).
Proof.
  revert ts idx result. induction plain as [|p plain IH]; intros ts idx result Hl Hd Hn; [done|].
  destruct ts as [|t ts]; [done|]. apply Forall_cons in Hn as [Hp Hn]. cbn [fmap list_fmap zip_with nameValues].
  assert (Hv : values !! idx = Some p.2) by (by rewrite <- (Nat.add_0_r idx), <- lookup_drop, Hd).
  rewrite Hv. unfold argName. rewrite bool_decide_eq_false_2 by done. apply IH; [by injection Hl| |done].
  change (S idx) with (1 + idx)%nat. by rewrite Nat.add_comm, <- drop_drop, Hd.
Qed.

Lemma plain_fits (l : list (AbiInput * eventValue)) ts : mapM (fun p => newType (inType p.1)) l = Some ts -> Forall fitsInput l ->
  Forall2 (fun t v => fits t v = true) ts l.*2.
Proof.
  intros Hm Hf. apply mapM_Some_1 in Hm. induction Hm as [|p t l ts Ht Hm IH]; [constructor|].
  apply Forall_cons in Hf as [(t' & Ht' & Hv) Hf]. cbn. constructor; [congruence|by apply IH].
Qed.

Lemma mapM_length_option {A B} (f : A -> option B) l k : mapM f l = Some k -> length k = length l.
Proof. intros Hm. symmetry. by eapply Forall2_length, mapM_Some_1. Qed.

Lemma filter_partition {A} (P : A -> Prop) `{!forall x, Decision (P x)} (l : list A) :
  filter (fun x => ~ P x) l ++ filter P l ≡ₚ l.
Proof.
  induction l as [|x l IH]; [done|]. rewrite !filter_cons. destruct (decide (P x)), (decide (~ P x)); try tauto.
  - rewrite <- Permutation_middle. by constructor.
  - cbn. by constructor.
Qed.

Lemma named_zip (ins : list AbiInput) vs : named <$> zip ins vs = zip (inName <$> ins) vs.
Proof. revert vs. induction ins as [|i ins IH]; intros [|v vs]; cbn; [done..|]. f_equal. apply IH. Qed.

Lemma emitted_maps e vs log : emits e vs log -> NoDup (inName <$> Inputs e) ->
  Forall (fun i => inName i <> [] /\ inType i <> [] /\ wordIndexed i) (Inputs e) ->
  let pairs := zip (Inputs e) vs in
  indexedValues (Inputs e) (Log_Topics log) 1 ∅ = Ok (list_to_map (named <$> filter isIndexed pairs)) /\
  (if bool_decide (Log_Data log = []) then Ok ∅ else decodeEventData e (Log_Data log)) =
    Ok (list_to_map (named <$> filter (fun p => ~ isIndexed p) pairs)).
Proof.
  intros (t0 & topics & ts & Hl & Ht & Hm & Hts & Hp & Hd & Hfit) Hn Hi pairs.
  set (plain := filter (fun p => ~ isIndexed p) pairs) in *.
  assert (Hfst : pairs.*1 = Inputs e) by (apply fst_zip; lia).
  assert (HnP : NoDup (named <$> pairs).*1).
  { unfold pairs. rewrite named_zip, fst_zip by (rewrite length_fmap; lia). done. }
  assert (Hsub : forall (P : AbiInput * eventValue -> Prop) `{!forall x, Decision (P x)}, NoDup (named <$> filter P pairs).*1).
  { intros P ?. eapply sublist_NoDup; [exact HnP|]. apply fmap_sublist, fmap_sublist, sublist_filter. }
  assert (Hpairs : Forall (fun p : AbiInput * eventValue => inName p.1 <> [] /\ inType p.1 <> [] /\ wordIndexed p.1) pairs).
  { apply (Forall_fmap fst (fun i => inName i <> [] /\ inType i <> [] /\ wordIndexed i)). by rewrite Hfst. }
  assert (Hty : Forall (fun p : AbiInput * eventValue => inType p.1 <> []) pairs) by (eapply Forall_impl; [exact Hpairs|naive_solver]).
  split.
  - rewrite <- Hfst at 1. rewrite (indexed_putAll pairs topics); [|done|..].
    + rewrite putAll_NoDup by apply Hsub. by rewrite (right_id_L ∅ (∪)).
    + unfold Log_Topics. by rewrite Ht.
    + apply Forall_and. split; [done|]. eapply Forall_impl; [exact Hpairs|naive_solver].
  - pose proof (pack_bytes _ _ _ Hp) as Hb. destruct (decide (plain = [])) as [He|He].
    + assert (Ea : arguments e = Ok []).
      { unfold arguments. rewrite <- Hfst, (arguments_plain pairs ts); [|done..].
        fold plain. by rewrite He. }
      rewrite He. case_bool_decide; [done|]. unfold decodeEventData. by rewrite Ea.
    + assert (Hne : EncodeToString (eData log) <> []) by (specialize (Hd He); by destruct (eData log)).
      unfold Log_Data. rewrite bool_decide_eq_false_2 by done. unfold decodeEventData, arguments.
      rewrite <- Hfst, (arguments_plain pairs ts); [|done..]. fold plain.
      pose proof (mapM_length_option _ _ _ Hts) as Hlt. cbn [mbind outcome_bind].
      destruct (zip ((fun p => inName p.1) <$> plain) ts) as [|z zs] eqn:Ez.
      { apply (f_equal length) in Ez. rewrite length_zip_with, length_fmap, Hlt, Nat.min_id in Ez. by apply nil_length_inv in Ez. }
      rewrite <- Ez. rewrite snd_zip by (by rewrite length_fmap, Hlt). rewrite withZeroX_encode, FromHex_0x by done.
      rewrite (unpack_pack ts plain.*2 _); [|apply plain_fits; [done|]; rewrite Forall_forall in Hfit |- *; intros p [_ Hin]%list_elem_of_filter; by apply Hfit|done]. f_equal. rewrite nameValues_putAll; [|done|done|].
      * rewrite putAll_NoDup by apply Hsub. by rewrite (right_id_L ∅ (∪)).
      * unfold plain. apply Forall_forall. intros p [_ Hin]%list_elem_of_filter. rewrite Forall_forall in Hpairs. by apply Hpairs.
Qed.
End Emit.

(** C12 (roundtrip). Decoding is the inverse of emitting, for an event whose inputs have
    types and distinct, non-empty names and whose indexed inputs are of value types
    (numbers, addresses, booleans, bytesN: the topic of any other is a hash, see
    [indexed_hash_undecodable]): of the log of such an event, with values in the range of
    their types, the decoded map holds each value under its name and nothing else, whichever
    of the inputs of value types are indexed. *)
Theorem decode_emitted `{EthLib} `{!FromHexLaw} `{EventAbiLaws} e vs log : emits e vs log -> NoDup (inName <$> Inputs e) ->
  Forall (fun i => inName i <> [] /\ inType i <> [] /\ wordIndexed i) (Inputs e) ->
  DecodeEventLog e (Some log) = Ok (list_to_map (zip (inName <$> Inputs e) vs)).
Proof.
  intros He Hn Hi. destruct (emitted_maps e vs log He Hn Hi) as [E1 E2]. unfold DecodeEventLog. rewrite E1. cbn [mbind outcome_bind].
  set (pairs := zip (Inputs e) vs) in *. destruct He as (_ & _ & _ & Hl & _).
  assert (Hmap : list_to_map (named <$> filter (fun p => ~ isIndexed p) pairs) ∪ list_to_map (named <$> filter isIndexed pairs) =
                 (list_to_map (zip (inName <$> Inputs e) vs) : gmap bytes eventValue)).
  { rewrite <- list_to_map_app, <- fmap_app. rewrite <- named_zip. fold pairs. apply list_to_map_proper.
    - rewrite filter_partition. unfold pairs. rewrite named_zip, fst_zip by (rewrite length_fmap; lia). done.
    - by rewrite filter_partition. }
  case_bool_decide.
  - injection E2 as E2. rewrite <- E2, (left_id_L ∅ (∪)) in Hmap. by rewrite Hmap.
  - rewrite E2. cbn. by rewrite Hmap.
Qed.

(** ** The table of events *)

Section Topics.
Context `{EthLibLaws}.

Lemma lower_hexDigit n : 0 <= n < 16 -> lowerByte (hexDigit n) = hexDigit n.
Proof. intros Hn. unfold lowerByte, hexDigit. destruct (Z.ltb_spec n 10); destruct (_ && _) eqn:E; lia. Qed.

Lemma lower_encode b : is_bytes b -> toLowerBytes (EncodeToString b) = EncodeToString b.
Proof.
  induction 1 as [|x b Hx Hb IH]; [done|]. unfold is_byte in Hx. cbn [EncodeToString]. unfold toLowerBytes in *. cbn [fmap list_fmap].
  rewrite !lower_hexDigit; [by f_equal; f_equal|apply Z.mod_pos_bound; lia|].
  split; [apply Z.div_pos; lia|apply Z.div_lt_upper_bound; lia].
Qed.

Lemma topic_key e topic : abiToTopicHash e = Ok topic -> toLowerBytes topic = zeroX ++ EncodeToString (Keccak256 (signature e)).
Proof.
  unfold abiToTopicHash. do 3 (case_match; [done|]). intros [= <-].
  change (zeroX ++ toLowerBytes (EncodeToString (Keccak256 (signature e))) = zeroX ++ EncodeToString (Keccak256 (signature e))).
  f_equal. apply lower_encode, Keccak256_bytes.
Qed.

Definition keyOf (e : AbiEvent) : bytes := zeroX ++ EncodeToString (Keccak256 (signature e)).

(** Every entry of the table is an event under its own key, and every event has an entry. *)
Lemma addTopics_spec items m m' : addTopics items m = Ok m' -> map_Forall (fun k e => k = keyOf e) m ->
  map_Forall (fun k e => k = keyOf e) m' /\
  forall e, (e ∈ items /\ isEvent e = true) \/ is_Some (m !! keyOf e) -> is_Some (m' !! keyOf e).
Proof.
  revert m. induction items as [|item items IH]; intros m Hm Hk; cbn in Hm.
  { injection Hm as <-. split; [done|]. by intros e [[He%elem_of_nil _]|?]. }
  destruct (isEvent item) eqn:Hi; cbn in Hm.
  - destruct (abiToTopicHash item) as [topic| | |] eqn:Ht; [|done..]. rewrite (topic_key _ _ Ht) in Hm. fold (keyOf item) in Hm.
    destruct (IH _ Hm) as [I1 I2]; [by apply map_Forall_insert_2|]. split; [done|].
    intros e [[[->|He]%elem_of_cons Hev]|Hs]; apply I2; [right| |right].
    + apply lookup_insert_is_Some'. by left.
    + by left.
    + apply lookup_insert_is_Some'. by right.
  - destruct (IH _ Hm Hk) as [I1 I2]. split; [done|]. intros e [[[->|He]%elem_of_cons Hev]|Hs]; [congruence| |]; apply I2; [by left|by right].
Qed.

(** The entry that the table has for the topic of an event is an event with the same
    signature, or the two signatures collide under Keccak-256. *)
Theorem topic_map_finds unmarshal json items m e :
  unmarshal json = Some items -> BuildTopicMapFromAbiJson unmarshal json = Ok m -> e ∈ items -> isEvent e = true ->
  exists e', m !! keyOf e = Some e' /\
    (signature e' = signature e \/ (signature e' <> signature e /\ Keccak256 (signature e') = Keccak256 (signature e))).
Proof.
  intros Hu Hb He Hev. unfold BuildTopicMapFromAbiJson in Hb. rewrite Hu in Hb. case_bool_decide; [done|].
  destruct (addTopics_spec _ _ _ Hb) as [Hk Hall]; [apply map_Forall_empty|].
  destruct (Hall e) as [e' He']; [by left|]. exists e'. split; [done|].
  pose proof (Hk _ _ He') as Hkey. cbn in Hkey. unfold keyOf in Hkey. injection Hkey as Hkey.
  apply EncodeToString_inj in Hkey; [|apply Keccak256_bytes..].
  destruct (decide (signature e' = signature e)); [by left|right]. done.
Qed.
End Topics.

(** ** What the decoding does not do *)

(** An indexed input whose topic does not unpack as its type, such as the hash that stands
    for an indexed string, makes the whole log undecodable. *)
Theorem indexed_hash_undecodable `{EthLib} `{!FromHexLaw} `{EventAbi} e i rest log topic0 topic more t :
  Inputs e = i :: rest -> Indexed i = true -> eTopics log = topic0 :: topic :: more -> is_bytes topic ->
  newType (inType i) = Some t -> unpackArgs [t] topic = None ->
  DecodeEventLog e (Some log) = Err (ErrText "failed to parse indexed topic").
Proof.
  intros Hi Hx Ht Hb Hn Hu. unfold DecodeEventLog. rewrite Hi. cbn [indexedValues]. rewrite Hx. unfold Log_Topics. rewrite Ht.
  cbn [fmap list_fmap lookup list_lookup]. unfold parseIndexedTopic. rewrite withZeroX_encode by done. rewrite FromHex_0x by done.
  by rewrite Hn, Hu.
Qed.

(** The clean form of a hex string has whole bytes. *)
Theorem CleanHex_even input : Nat.even (length (CleanHex input)) = true.
Proof.
  unfold CleanHex. cbv zeta. destruct (Nat.odd _) eqn:E; [cbn [length]; by rewrite Nat.even_succ|]. by rewrite <- Nat.negb_odd, E.
Qed.

(** ** An executable codec *)

(** Words of one byte, and strings behind their length. *)
Definition packOne (str : bool) (v : eventValue) : option bytes :=
  match str, v with
  | false, EvBig z => Some [z mod 256]
  | true, EvString s =>
      if (length s <? 256)%nat && forallb (fun c => (0 <=? c) && (c <? 256)) s then Some (Z.of_nat (length s) :: s) else None
  | _, _ => None
  end.

Definition unpackOne (str : bool) (b : bytes) : option (eventValue * bytes) :=
  match b with
  | [] => None
  | z :: r =>
      if negb str then Some (EvBig z, r)
      else if (Z.to_nat z <=? length r)%nat then Some (EvString (take (Z.to_nat z) r), drop (Z.to_nat z) r) else None
  end.

Fixpoint packAll (ts : list bool) (vs : list eventValue) : option bytes :=
  match ts, vs with
  | [], [] => Some []
  | t :: ts, v :: vs => b ← packOne t v; r ← packAll ts vs; Some (b ++ r)
  | _, _ => None
  end.

Fixpoint unpackAll (ts : list bool) (b : bytes) : option (list eventValue) :=
  match ts with
  | [] => Some []
  | t :: ts => '(v, r) ← unpackOne t b; vs ← unpackAll ts r; Some (v :: vs)
  end.

#[export] Instance toyEventAbi : EventAbi := {|
  abiType := bool;
  newType name := Some (bool_decide (name = bytesOfString "string"));
  wordType := negb;
  fits t v := match v with EvBig z => (0 <=? z) && (z <? 256) | _ => t end;
  packArgs := packAll;
  unpackArgs := unpackAll;
  indexedBytes _ v := match v with EvString s => Some s | _ => None end
|}.

Lemma packOne_bytes t v b : packOne t v = Some b -> is_bytes b.
Proof.
  destruct t, v; cbn; try done; [|intros [= <-]; constructor; [apply Z.mod_pos_bound; lia|constructor]].
  destruct (_ && _) eqn:E; [|done]. apply andb_true_iff in E as [El Eb]. apply Nat.leb_le in El. intros [= <-].
  constructor; [unfold is_byte; lia|]. apply Forall_forall. intros x Hx.
  rewrite forallb_forall in Eb. specialize (Eb x). rewrite <- list_elem_of_In in Eb. specialize (Eb Hx). unfold is_byte. lia.
Qed.

Lemma unpackOne_packOne t v b r : fits t v = true -> packOne t v = Some b -> unpackOne t (b ++ r) = Some (v, r).
Proof.
  destruct t, v; cbn; try done.
  - intros _. destruct (_ && _); [|done]. intros [= <-]. cbn. rewrite Nat2Z.id, length_app.
    destruct (Nat.leb_spec (length s) (length s + length r)); [|lia]. by rewrite take_app_length, drop_app_length.
  - intros Hz [= <-]. cbn. rewrite Z.mod_small by lia. done.
Qed.

#[export] Instance toyEventAbiLaws : EventAbiLaws.
Proof.
  split; cbn [packArgs unpackArgs toyEventAbi].
  - intros ts vs b Hf. revert b. induction Hf as [|t v ts vs Ht Hf IH]; intros b; cbn; [done|].
    destruct (packOne t v) as [b1|] eqn:E1; [|done]. cbn. destruct (packAll ts vs) as [b2|]; [|done]. cbn. intros [= <-].
    rewrite (unpackOne_packOne t v b1 b2 Ht E1). cbn. by rewrite (IH b2 eq_refl).
  - intros ts. induction ts as [|t ts IH]; intros [|v vs] b; cbn; try done; [intros [= <-]; constructor|].
    destruct (packOne t v) as [b1|] eqn:E1; [|done]. cbn. destruct (packAll ts vs) as [b2|] eqn:E2; [|done]. cbn. intros [= <-].
    apply Forall_app. split; [by eapply packOne_bytes|by eapply IH].
Qed.

#[export] Instance toyFromHexLaw : FromHexLaw.
Proof. split. intros b Hb. change (toyFromHex (48 :: 120 :: EncodeToString b) = b). unfold toyFromHex. cbn [Z.eqb Pos.eqb orb]. by rewrite even_encode, unhex_encode. Qed.

(** An event with two indexed inputs around a plain string. *)
Definition sampleEvent : AbiEvent :=
  mkEvent false [mkInput true [] (bytesOfString "from") (bytesOfString "address"); mkInput false [] (bytesOfString "memo") (bytesOfString "string");
                 mkInput true [] (bytesOfString "value") (bytesOfString "uint256")] (bytesOfString "Transfer") (bytesOfString "event").
Definition sampleLog : PbEventLog := mkEventLog [] [] [2; 104; 105] [[1]; [7]; [9]].
Definition sampleValues : list eventValue := [EvBig 7; EvString [104; 105]; EvBig 9].

Lemma decode_emitted_witness :
  DecodeEventLog sampleEvent (Some sampleLog) = Ok (list_to_map (zip (inName <$> Inputs sampleEvent) sampleValues)).
Proof.
  apply (decode_emitted sampleEvent sampleValues sampleLog).
  - exists [1], [[7]; [9]], [true]. split_and!; try reflexivity; [done|]. repeat constructor; eexists; vm_compute; split; reflexivity.
  - by apply (bool_decide_unpack _); vm_compute.
  - repeat constructor; try discriminate; intros _; eexists; split; reflexivity.
Defined.

(** Two indexed inputs without a name share one entry, while plain ones are numbered. *)
Example unnamed_indexed_lost :
  let input i := mkInput i [] [] (bytesOfString "uint8") in
  DecodeEventLog (mkEvent false [input true; input true; input false; input false] (bytesOfString "E") (bytesOfString "event"))
    (Some (mkEventLog [] [] [8; 9] [[1]; [7]; [5]])) =
    Ok {[[] := EvBig 5; bytesOfString "arg0" := EvBig 8; bytesOfString "arg1" := EvBig 9]}.
Proof. vm_compute. reflexivity. Qed.
