(* ===== verification/RemoteStorage.v ===== *)
(** * Storage behind a connection

    Models [pkg/storage/remote_storage_service.go], the service that runs the
    requests it gets on its own store, and [remote_storage_client.go], a store
    whose methods send such requests and wait for the answers.

    A method of the client is a caller that goes through [sendRequest] step by
    step; the goroutine [handleResponses] takes messages from the connection.
    The workers of the service run requests and send answers in any order.  A
    [World] has all of them; an [Action] says who takes the next step, whether a
    send succeeds, and when the connection fails.  [uuid.New] gives the
    identifiers [uuid 0], [uuid 1] and so on.  [Open] and [Close] of the client
    do nothing. *)

From S2P Require Import Prelude Message.

Local Open Scope Z_scope.

(** ** Messages *)

Definition GET : Z := 1.
Definition PUT : Z := 2.
Definition DELETE : Z := 3.
Definition BATCH_PUT : Z := 4.
Definition BATCH_DELETE : Z := 5.
Definition GET_BACKUP_PATH : Z := 6.

Inductive RequestPayload :=
| StorageGetRequest (key : bytes)
| StoragePutRequest (key value : bytes)
| StorageDeleteRequest (key : bytes)
| StorageBatchPutRequest (kvs : list (bytes * bytes))
| StorageBatchDeleteRequest (keys : list bytes)
| StorageGetBackupPathRequest.

Record DatabaseOperationRequest := mkDbRequest { qType : Z; qId : string; qPayload : option RequestPayload }.

Inductive ResponsePayload :=
| StorageGetResponse (value : bytes) (error : string)
| StoragePutResponse (error : string)
| StorageDeleteResponse (error : string)
| StorageBatchPutResponse (error : string)
| StorageBatchDeleteResponse (error : string)
| StorageGetBackupPathResponse (path error : string).

Record DatabaseOperationResponse := mkDbResponse { aType : Z; aId : string; aError : string; aPayload : option ResponsePayload }.

(** [proto.Marshal] fails on a string that is not UTF-8. *)
Class RemoteProto := {
  marshalDbRequest : DatabaseOperationRequest -> option bytes;
  unmarshalDbRequest : bytes -> option DatabaseOperationRequest;
  marshalDbResponse : DatabaseOperationResponse -> option bytes;
  unmarshalDbResponse : bytes -> option DatabaseOperationResponse
}.

Class RemoteProtoLaws `{RemoteProto} : Prop := {
  db_request_codec q b : marshalDbRequest q = Some b -> unmarshalDbRequest b = Some q;
  db_response_codec a b : marshalDbResponse a = Some b -> unmarshalDbResponse b = Some a
}.

(** The methods of [storage.Storage] that the service calls. *)
Class Store (S : Type) := {
  stGet : S -> bytes -> outcome bytes;
  stPut : bytes -> bytes -> stm S unit;
  stDelete : bytes -> stm S unit;
  stBatchPut : list (bytes * bytes) -> stm S unit;
  stBatchDelete : list bytes -> stm S unit;
  stGetBackupPath : S -> string
}.

(** ** The service *)

Definition DatabaseOperationCommand : string := "DATABASE_OPERATION".
Definition Response : string := "Response".

Section Service.
Context {S : Type} `{Store S} `{RemoteProto}.
(** [err.Error()] *)
Context (errorString : GoError -> string).

Definition payloadError (err : option GoError) : string := from_option errorString ""%string err.

(** The wrapper has the error, and so has the payload, if there is one. *)
Definition createResponseWrapper (q : DatabaseOperationRequest) (payload : option ResponsePayload) (err : option GoError) :
  DatabaseOperationResponse :=
  let withError p :=
    match err with
    | None => p
    | Some _ =>
        match p with
        | StorageGetResponse value _ => StorageGetResponse value (payloadError err)
        | StoragePutResponse _ => StoragePutResponse (payloadError err)
        | StorageDeleteResponse _ => StorageDeleteResponse (payloadError err)
        | StorageBatchPutResponse _ => StorageBatchPutResponse (payloadError err)
        | StorageBatchDeleteResponse _ => StorageBatchDeleteResponse (payloadError err)
        | StorageGetBackupPathResponse path _ => StorageGetBackupPathResponse path (payloadError err)
        end
    end in
  mkDbResponse (qType q) (qId q) (payloadError err) (withError <$> payload).

(** A method that returns only an error. *)
Definition respond (q : DatabaseOperationRequest) (payload : ResponsePayload) (m : stm S unit) : stm S DatabaseOperationResponse := fun s =>
  match m s with
  | (Ok _, s) => (Ok (createResponseWrapper q (Some payload) None), s)
  | (Err e, s) => (Ok (createResponseWrapper q (Some payload) (Some e)), s)
  | (Panic, s) => (Panic, s)
  | (NoFuel, s) => (NoFuel, s)
  end.

(** The switch on the operation: a request without the payload of its type is a
    nil pointer. *)
Definition runOperation (q : DatabaseOperationRequest) : stm S DatabaseOperationResponse :=
  if qType q =? GET then
    match qPayload q with
    | Some (StorageGetRequest key) => fun s =>
        match stGet s key with
        | Ok value => (Ok (createResponseWrapper q (Some (StorageGetResponse value "")) None), s)
        | Err e => (Ok (createResponseWrapper q (Some (StorageGetResponse [] "")) (Some e)), s)
        | Panic => (Panic, s)
        | NoFuel => (NoFuel, s)
        end
    | _ => lift Panic
    end
  else if qType q =? PUT then
    match qPayload q with
    | Some (StoragePutRequest key value) => respond q (StoragePutResponse "") (stPut key value)
    | _ => lift Panic
    end
  else if qType q =? DELETE then
    match qPayload q with
    | Some (StorageDeleteRequest key) => respond q (StorageDeleteResponse "") (stDelete key)
    | _ => lift Panic
    end
  else if qType q =? BATCH_PUT then
    match qPayload q with
    | Some (StorageBatchPutRequest kvs) => respond q (StorageBatchPutResponse "") (stBatchPut kvs)
    | _ => lift Panic
    end
  else if qType q =? BATCH_DELETE then
    match qPayload q with
    | Some (StorageBatchDeleteRequest keys) => respond q (StorageBatchDeleteResponse "") (stBatchDelete keys)
    | _ => lift Panic
    end
  else if qType q =? GET_BACKUP_PATH then fun s =>
    (Ok (createResponseWrapper q (Some (StorageGetBackupPathResponse (stGetBackupPath s) "")) None), s)
  else lift (Ok (createResponseWrapper q None (Some (ErrText "unsupported operation type")))).

(** The handler up to its [SendMessage]. *)
Definition handleDatabaseOperation (body : bytes) : stm S DatabaseOperationResponse :=
  match unmarshalDbRequest body with
  | None => lift (Err (ErrText "failed to unmarshal request wrapper"))
  | Some q => runOperation q
  end.
End Service.

(** ** The methods of the client *)

Inductive Call :=
| CallGet (key : bytes)
| CallPut (key value : bytes)
| CallDelete (key : bytes)
| CallBatchPut (kvs : list (bytes * bytes))
| CallBatchDelete (keys : list bytes)
| CallGetBackupPath.

Definition callType (c : Call) : Z :=
  match c with
  | CallGet _ => GET | CallPut _ _ => PUT | CallDelete _ => DELETE | CallBatchPut _ => BATCH_PUT
  | CallBatchDelete _ => BATCH_DELETE | CallGetBackupPath => GET_BACKUP_PATH
  end.

Definition callPayload (c : Call) : RequestPayload :=
  match c with
  | CallGet key => StorageGetRequest key
  | CallPut key value => StoragePutRequest key value
  | CallDelete key => StorageDeleteRequest key
  | CallBatchPut kvs => StorageBatchPutRequest kvs
  | CallBatchDelete keys => StorageBatchDeleteRequest keys
  | CallGetBackupPath => StorageGetBackupPathRequest
  end.

(** The wrapper that [sendRequest] builds. *)
Definition requestOf (c : Call) (id : string) : DatabaseOperationRequest := mkDbRequest (callType c) id (Some (callPayload c)).

Inductive Reply :=
| ReplyValue (value : bytes)
| ReplyDone
| ReplyPath (path : string).

Definition orError (error : string) (r : Reply) : outcome Reply :=
  if bool_decide (error = ""%string) then Ok r else Err (ErrText error).

(** What a method does with the response: a payload of another kind is a nil
    pointer. *)
Definition Remote_Get (resp : outcome DatabaseOperationResponse) : outcome Reply :=
  resp ← resp;
  match aPayload resp with Some (StorageGetResponse value error) => orError error (ReplyValue value) | _ => Panic end.
Definition Remote_Put (resp : outcome DatabaseOperationResponse) : outcome Reply :=
  resp ← resp; match aPayload resp with Some (StoragePutResponse error) => orError error ReplyDone | _ => Panic end.
Definition Remote_Delete (resp : outcome DatabaseOperationResponse) : outcome Reply :=
  resp ← resp; match aPayload resp with Some (StorageDeleteResponse error) => orError error ReplyDone | _ => Panic end.
Definition Remote_BatchPut (resp : outcome DatabaseOperationResponse) : outcome Reply :=
  resp ← resp; match aPayload resp with Some (StorageBatchPutResponse error) => orError error ReplyDone | _ => Panic end.
Definition Remote_BatchDelete (resp : outcome DatabaseOperationResponse) : outcome Reply :=
  resp ← resp; match aPayload resp with Some (StorageBatchDeleteResponse error) => orError error ReplyDone | _ => Panic end.

(** Errors are logged, and the path is empty. *)
Definition Remote_GetBackupPath (resp : outcome DatabaseOperationResponse) : outcome Reply :=
  match resp with
  | Err _ => Ok (ReplyPath "")
  | Ok resp =>
      match aPayload resp with
      | Some (StorageGetBackupPathResponse path error) => Ok (ReplyPath (if bool_decide (error = ""%string) then path else ""))
      | _ => Panic
      end
  | Panic => Panic
  | NoFuel => NoFuel
  end.

Definition finish (c : Call) : outcome DatabaseOperationResponse -> outcome Reply :=
  match c with
  | CallGet _ => Remote_Get | CallPut _ _ => Remote_Put | CallDelete _ => Remote_Delete
  | CallBatchPut _ => Remote_BatchPut | CallBatchDelete _ => Remote_BatchDelete | CallGetBackupPath => Remote_GetBackupPath
  end.

(** [sendRequest] returns an error when the wrapper has one. *)
Definition received (resp : DatabaseOperationResponse) : outcome DatabaseOperationResponse :=
  if bool_decide (aError resp = ""%string) then Ok resp else Err (ErrText (aError resp)).

(** ** Callers, the handler of responses and the service together *)

(** A caller before [sendRequest]; with its channels stored; waiting; with a
    response or an error before the deferred [Delete]; and after the method. *)
Inductive Caller :=
| CStart (c : Call)
| CStored (c : Call) (id : string)
| CWait (c : Call) (id : string)
| CGot (c : Call) (id : string) (r : outcome DatabaseOperationResponse)
| CDone (c : Call) (id : string) (r : outcome Reply).

(** The two channels of a request, of one place each. *)
Record pendingResponse := mkPending { ch : option DatabaseOperationResponse; errc : option GoError }.

(** [handleResponses]: in its loop; in [Range] after an error, with the keys
    that were there at the beginning and are still to visit; returned. *)
Inductive Handler :=
| HListen
| HNotify (err : GoError) (todo : gset string)
| HStopped.

(** [RemoteStorage] with its callers.  [pending] has the keys of the map; the
    objects are kept apart, since a caller still has its own when the key is
    deleted. *)
Record RemoteStorage := mkRemote {
  callers : list Caller;
  nextId : nat;
  pending : gset string;
  objects : gmap string pendingResponse;
  handler : Handler
}.

(** The service and the connection: messages on their way, by command and body;
    answers that a worker has still to send; the store; the requests that were
    run, with their answers. *)
Record RemoteStorageService (S : Type) := mkService {
  toServer : list (string * bytes);
  toClient : list (string * bytes);
  working : list DatabaseOperationResponse;
  actualStorage : S;
  serviceUp : bool;
  served : list (DatabaseOperationRequest * DatabaseOperationResponse)
}.
Arguments mkService {S}. Arguments toServer {S}. Arguments toClient {S}. Arguments working {S}. Arguments actualStorage {S}.
Arguments serviceUp {S}. Arguments served {S}.

Record World (S : Type) := mkWorld { client : RemoteStorage; service : RemoteStorageService S }.
Arguments mkWorld {S}. Arguments client {S}. Arguments service {S}.

Inductive Action :=
| ACall (i : nat)
| ASend (i : nat) (sent : bool)
| ATake (i : nat)
| ATakeErr (i : nat)
| ATimeout (i : nat)
| AReturn (i : nat)
| AServe (j : nat)
| AReply (j : nat) (sent : bool)
| AOther (command : string) (body : bytes)
| ADeliver
| AConnError (err : GoError)
| ANotify (id : string)
| ANotifyEnd
| AChanClosed.

Definition errSend : GoError := ErrText "failed to send request".
Definition errConn : GoError := ErrText "connection error".
Definition errTimeout : GoError := ErrText "request timed out".

Definition setCaller (i : nat) (cl : Caller) (rs : RemoteStorage) : RemoteStorage :=
  mkRemote (<[i := cl]> (callers rs)) (nextId rs) (pending rs) (objects rs) (handler rs).
Definition setObject (id : string) (p : pendingResponse) (rs : RemoteStorage) : RemoteStorage :=
  mkRemote (callers rs) (nextId rs) (pending rs) (<[id := p]> (objects rs)) (handler rs).
Definition setPending (ids : gset string) (rs : RemoteStorage) : RemoteStorage :=
  mkRemote (callers rs) (nextId rs) ids (objects rs) (handler rs).
Definition setHandler (h : Handler) (rs : RemoteStorage) : RemoteStorage :=
  mkRemote (callers rs) (nextId rs) (pending rs) (objects rs) h.

Section Steps.
Context {S : Type} `{Store S} `{RemoteProto} (errorString : GoError -> string) (uuid : nat -> string).

(** *** The callers *)

(** A new identifier, the wrapper, the channels. *)
Definition startRequest (i : nat) (rs : RemoteStorage) : option RemoteStorage :=
  match callers rs !! i with
  | Some (CStart c) =>
      let reqID := uuid (nextId rs) in
      Some (setCaller i (CStored c reqID)
              (mkRemote (callers rs) (nextId rs + 1) ({[reqID]} ∪ pending rs) (<[reqID := mkPending None None]> (objects rs)) (handler rs)))
  | _ => None
  end.

Definition sendStep (i : nat) (sent : bool) (w : World S) : option (World S) :=
  match callers (client w) !! i with
  | Some (CStored c id) =>
      match marshalDbRequest (requestOf c id), sent with
      | Some body, true =>
          let sv := service w in
          Some (mkWorld (setCaller i (CWait c id) (client w))
                  (mkService (toServer sv ++ [(DatabaseOperationCommand, body)]) (toClient sv) (working sv) (actualStorage sv) (serviceUp sv) (served sv)))
      | _, _ => Some (mkWorld (setCaller i (CGot c id (Err errSend)) (client w)) (service w))
      end
  | _ => None
  end.

(** The three cases of the [select]. *)
Definition takeResponse (i : nat) (rs : RemoteStorage) : option RemoteStorage :=
  match callers rs !! i with
  | Some (CWait c id) =>
      p ← objects rs !! id;
      resp ← ch p;
      Some (setCaller i (CGot c id (received resp)) (setObject id (mkPending None (errc p)) rs))
  | _ => None
  end.
Definition takeError (i : nat) (rs : RemoteStorage) : option RemoteStorage :=
  match callers rs !! i with
  | Some (CWait c id) =>
      p ← objects rs !! id;
      _ ← errc p;
      Some (setCaller i (CGot c id (Err errConn)) (setObject id (mkPending (ch p) None) rs))
  | _ => None
  end.
Definition timeout (i : nat) (rs : RemoteStorage) : option RemoteStorage :=
  match callers rs !! i with
  | Some (CWait c id) => Some (setCaller i (CGot c id (Err errTimeout)) rs)
  | _ => None
  end.

(** The deferred [Delete], and the rest of the method. *)
Definition returnStep (i : nat) (rs : RemoteStorage) : option RemoteStorage :=
  match callers rs !! i with
  | Some (CGot c id r) => Some (setCaller i (CDone c id (finish c r)) (setPending (pending rs ∖ {[id]}) rs))
  | _ => None
  end.

(** *** [handleResponses] *)

(** A response goes to the channel of its request, if it is still there; a full
    channel blocks the handler. *)
Definition deliver (command : string) (body : bytes) (rs : RemoteStorage) : option RemoteStorage :=
  if bool_decide (command = Response) then
    match unmarshalDbResponse body with
    | None => Some rs
    | Some resp =>
        if bool_decide (aId resp ∈ pending rs) then
          p ← objects rs !! aId resp;
          match ch p with
          | None => Some (setObject (aId resp) (mkPending (Some resp) (errc p)) rs)
          | Some _ => None
          end
        else Some rs
    end
  else Some rs.

(** One key of [Range]. *)
Definition notify (id : string) (rs : RemoteStorage) : option RemoteStorage :=
  match handler rs with
  | HNotify err todo =>
      if bool_decide (id ∈ pending rs) then
        p ← objects rs !! id;
        match errc p with
        | None =>
            Some (setHandler (HNotify err (todo ∖ {[id]})) (setPending (pending rs ∖ {[id]}) (setObject id (mkPending (ch p) (Some err)) rs)))
        | Some _ => None
        end
      else None
  | _ => None
  end.

(** [Range] has visited every key that was there all the time. *)
Definition notifyEnd (rs : RemoteStorage) : option RemoteStorage :=
  match handler rs with
  | HNotify _ todo => if bool_decide (todo ∩ pending rs = ∅) then Some (setHandler HStopped rs) else None
  | _ => None
  end.

(** *** The service *)

(** A worker takes a request off the connection and runs it. *)
Definition serve (j : nat) (sv : RemoteStorageService S) : option (RemoteStorageService S) :=
  if negb (serviceUp sv) then None
  else
    m ← toServer sv !! j;
    let rest := delete j (toServer sv) in
    if bool_decide (m.1 = DatabaseOperationCommand) then
      match handleDatabaseOperation errorString m.2 (actualStorage sv), unmarshalDbRequest m.2 with
      | (Ok resp, s), Some q => Some (mkService rest (toClient sv) (working sv ++ [resp]) s true (served sv ++ [(q, resp)]))
      | (Err _, s), _ => Some (mkService rest (toClient sv) (working sv) s true (served sv))
      | (_, s), _ => Some (mkService rest (toClient sv) (working sv) s false (served sv))
      end
    else Some (mkService rest (toClient sv) (working sv) (actualStorage sv) true (served sv)).

Definition reply (j : nat) (sent : bool) (sv : RemoteStorageService S) : option (RemoteStorageService S) :=
  resp ← working sv !! j;
  let rest := delete j (working sv) in
  match marshalDbResponse resp, sent with
  | Some body, true => Some (mkService (toServer sv) (toClient sv ++ [(Response, body)]) rest (actualStorage sv) (serviceUp sv) (served sv))
  | _, _ => Some (mkService (toServer sv) (toClient sv) rest (actualStorage sv) (serviceUp sv) (served sv))
  end.

Definition onClient (f : RemoteStorage -> option RemoteStorage) (w : World S) : option (World S) :=
  rs ← f (client w); Some (mkWorld rs (service w)).
Definition onService (f : RemoteStorageService S -> option (RemoteStorageService S)) (w : World S) : option (World S) :=
  sv ← f (service w); Some (mkWorld (client w) sv).

Definition step (a : Action) (w : World S) : option (World S) :=
  match a with
  | ACall i => onClient (startRequest i) w
  | ASend i sent => sendStep i sent w
  | ATake i => onClient (takeResponse i) w
  | ATakeErr i => onClient (takeError i) w
  | ATimeout i => onClient (timeout i) w
  | AReturn i => onClient (returnStep i) w
  | AServe j => onService (serve j) w
  | AReply j sent => onService (reply j sent) w
  | AOther command body =>
      if bool_decide (command = Response) then None
      else onService (fun sv => Some (mkService (toServer sv) (toClient sv ++ [(command, body)]) (working sv)
                                        (actualStorage sv) (serviceUp sv) (served sv))) w
  | ADeliver =>
      match handler (client w), toClient (service w) with
      | HListen, m :: rest =>
          let sv := service w in
          rs ← deliver m.1 m.2 (client w);
          Some (mkWorld rs (mkService (toServer sv) rest (working sv) (actualStorage sv) (serviceUp sv) (served sv)))
      | _, _ => None
      end
  | AConnError err =>
      onClient (fun rs => match handler rs with HListen => Some (setHandler (HNotify err (pending rs)) rs) | _ => None end) w
  | ANotify id => onClient (notify id) w
  | ANotifyEnd => onClient notifyEnd w
  | AChanClosed => onClient (fun rs => match handler rs with HListen => Some (setHandler HStopped rs) | _ => None end) w
  end.

Fixpoint run (sch : list Action) (w : World S) : option (World S) :=
  match sch with
  | [] => Some w
  | a :: sch => w ← step a w; run sch w
  end.

Definition NewRemoteStorage (cs : list Call) : RemoteStorage := mkRemote (CStart <$> cs) 0 ∅ ∅ HListen.
Definition NewRemoteStorageService (s : S) : RemoteStorageService S := mkService [] [] [] s true [].
Definition start (cs : list Call) (s : S) : World S := mkWorld (NewRemoteStorage cs) (NewRemoteStorageService s).

(** ** Direct calls *)

(** The same call made on the store itself. *)
Definition direct (c : Call) : stm S Reply :=
  match c with
  | CallGet key => fun s => (v ← stGet s key; Ok (ReplyValue v), s)
  | CallPut key value => stPut key value;; mret ReplyDone
  | CallDelete key => stDelete key;; mret ReplyDone
  | CallBatchPut kvs => stBatchPut kvs;; mret ReplyDone
  | CallBatchDelete keys => stBatchDelete keys;; mret ReplyDone
  | CallGetBackupPath => fun s => (Ok (ReplyPath (stGetBackupPath s)), s)
  end.

(** An error crosses the connection as its text. *)
Definition asText (r : outcome Reply) : outcome Reply :=
  match r with Err e => Err (ErrText (errorString e)) | _ => r end.

Fixpoint directRun (cs : list Call) (s : S) : S :=
  match cs with [] => s | c :: cs => directRun cs (direct c s).2 end.
End Steps.

(** * Storage behind a connection: theorems

    Whatever the interleaving, a store behind a connection is linearizable: the
    calls that are answered return what direct calls on the store return, in one
    order that agrees with the order of calls that do not overlap. *)

Section Remote.
Context {S : Type} {ST : Store S} {RP : RemoteProto} {RL : RemoteProtoLaws} (errorString : GoError -> string) (uuid : nat -> string).

(** Error texts are not empty, and identifiers are not drawn twice. *)
Hypothesis error_text : forall e, errorString e <> ""%string.
Hypothesis uuid_inj : Inj (=) (=) uuid.

Abbreviation step := (step errorString uuid).
Abbreviation run := (run errorString uuid).
Abbreviation runOperation := (runOperation errorString).
Abbreviation asText := (asText errorString).

(** ** One request *)

Lemma received_ok q p : received (createResponseWrapper errorString q p None) = Ok (createResponseWrapper errorString q p None).
Proof. done. Qed.

Lemma received_err q p e : received (createResponseWrapper errorString q p (Some e)) = Err (ErrText (errorString e)).
Proof. unfold received. cbn. by rewrite bool_decide_false by apply error_text. Qed.

(** The service gives a call's request the answer of the direct call. *)
Definition answers (c : Call) (id : string) (s : S) : Prop :=
  match direct c s with
  | (Panic, s') => runOperation (requestOf c id) s = (Panic, s')
  | (NoFuel, s') => runOperation (requestOf c id) s = (NoFuel, s')
  | (r, s') => exists resp, runOperation (requestOf c id) s = (Ok resp, s') /\ aId resp = id /\ finish c (received resp) = asText r
  end.

Lemma answers_respond c id s m p :
  runOperation (requestOf c id) s = respond errorString (requestOf c id) p m s -> direct c s = (m;; mret ReplyDone) s ->
  finish c (Ok (createResponseWrapper errorString (requestOf c id) (Some p) None)) = Ok ReplyDone -> (forall e, finish c (Err e) = Err e) -> answers c id s.
Proof.
  intros E1 E2 Hok Herr. unfold answers. rewrite E1, E2. unfold respond, mbind, stm_bind, mret, stm_ret.
  destruct (m s) as [[u|e| |] s']; [..|done|done]; eexists; (split; [reflexivity|]); (split; [done|]).
  - by rewrite received_ok.
  - by rewrite received_err, Herr.
Qed.

Lemma runOperation_direct c id s : answers c id s.
Proof.
  destruct c as [key|key value|key|kvs|keys|]; [|by eapply answers_respond..|].
  - unfold answers. cbn. destruct (stGet s key) as [v|e| |]; cbn; [..|done|done]; eexists; (split; [reflexivity|]); (split; [done|]).
    + done.
    + by rewrite received_err.
  - cbn. eexists. by split.
Qed.

(** ** Invariants *)

Definition callOf (cl : Caller) : Call :=
  match cl with CStart c | CStored c _ | CWait c _ | CGot c _ _ | CDone c _ _ => c end.
Definition idOf (cl : Caller) : option string :=
  match cl with CStart _ => None | CStored _ id | CWait _ id | CGot _ id _ | CDone _ id _ => Some id end.
Definition tried (cl : Caller) : bool := match cl with CStart _ | CStored _ _ => false | _ => true end.

Abbreviation Served := (list (DatabaseOperationRequest * DatabaseOperationResponse)).

(** What [sendRequest] returned: an error of its own, or the answer of the
    service to this request. *)
Definition localError (e : GoError) : Prop := e = errSend \/ e = errConn \/ e = errTimeout.
Definition fromService (l : Served) (c : Call) (id : string) (r : outcome DatabaseOperationResponse) : Prop :=
  (exists e, localError e /\ r = Err e) \/ (exists resp, (requestOf c id, resp) ∈ l /\ r = received resp).
Definition resultOk (l : Served) (cl : Caller) : Prop :=
  match cl with
  | CGot c id r => fromService l c id r
  | CDone c id r => exists r0, fromService l c id r0 /\ r = finish c r0
  | _ => True
  end.

Record clientInv (cs : list Call) (l : Served) (rs : RemoteStorage) : Prop := {
  c_calls : callOf <$> callers rs = cs;
  c_ids : forall i cl id, callers rs !! i = Some cl -> idOf cl = Some id -> exists n, id = uuid n /\ (n < nextId rs)%nat;
  c_uniq : forall i j cl cl' id, callers rs !! i = Some cl -> callers rs !! j = Some cl' -> idOf cl = Some id -> idOf cl' = Some id -> i = j;
  c_objects : forall id p resp, objects rs !! id = Some p -> ch p = Some resp -> aId resp = id /\ resp ∈ l.*2;
  c_results : forall i cl, callers rs !! i = Some cl -> resultOk l cl
}.

(** A caller that has sent, or tried to. *)
Definition owner (rs : RemoteStorage) (c : Call) (id : string) : Prop :=
  exists i cl, callers rs !! i = Some cl /\ callOf cl = c /\ idOf cl = Some id /\ tried cl = true.

Definition requestId (q : DatabaseOperationRequest) : option string := Some (qId q).
Definition wireId (m : string * bytes) : option string := unmarshalDbRequest m.2 ≫= requestId.
Definition servedId (e : DatabaseOperationRequest * DatabaseOperationResponse) : option string := requestId e.1.

Inductive replay (s0 : S) : Served -> S -> Prop :=
| replay_nil : replay s0 [] s0
| replay_snoc l q resp s s' : replay s0 l s -> runOperation q s = (Ok resp, s') -> replay s0 (l ++ [(q, resp)]) s'.

Record serviceInv (own : Call -> string -> Prop) (s0 : S) (sv : RemoteStorageService S) : Prop := {
  v_toServer : Forall (fun m => exists c id, m.1 = DatabaseOperationCommand /\ unmarshalDbRequest m.2 = Some (requestOf c id) /\ own c id) (toServer sv);
  v_once : NoDup ((wireId <$> toServer sv) ++ (servedId <$> served sv));
  v_served : Forall (fun e => exists c id, e.1 = requestOf c id /\ own c id /\ aId e.2 = id) (served sv);
  v_working : Forall (fun resp => resp ∈ (served sv).*2) (working sv);
  v_toClient : Forall (fun m => m.1 = Response -> exists resp, unmarshalDbResponse m.2 = Some resp /\ resp ∈ (served sv).*2) (toClient sv);
  v_replay : exists s, replay s0 (served sv) s /\ (serviceUp sv = true -> actualStorage sv = s)
}.

Definition inv (cs : list Call) (s0 : S) (w : World S) : Prop :=
  clientInv cs (served (service w)) (client w) /\ serviceInv (owner (client w)) s0 (service w).

Lemma fromService_mono l l' c id r : l ⊆ l' -> fromService l c id r -> fromService l' c id r.
Proof. intros Hl [He|(resp & Hr & ->)]; [by left|right]. exists resp. split; [by apply Hl|done]. Qed.

Lemma resultOk_mono l l' cl : l ⊆ l' -> resultOk l cl -> resultOk l' cl.
Proof.
  intros Hl. destruct cl as [| | |c id r|c id r]; cbn; try done.
  - by apply fromService_mono.
  - intros (r0 & Hr & ->). exists r0. split; [by eapply fromService_mono|done].
Qed.

Lemma clientInv_mono cs l l' rs : l ⊆ l' -> clientInv cs l rs -> clientInv cs l' rs.
Proof.
  intros Hl [Hc Hi Hu Ho Hr]. split; try done.
  - intros id p resp Hp Hch. destruct (Ho _ _ _ Hp Hch) as [? Hin]. split; [done|].
    apply list_elem_of_fmap in Hin as (e & -> & He). apply list_elem_of_fmap. exists e. split; [done|by apply Hl].
  - intros i cl Hcl. by eapply resultOk_mono, Hr.
Qed.

Lemma serviceInv_mono (own own' : Call -> string -> Prop) s0 sv : (forall c id, own c id -> own' c id) -> serviceInv own s0 sv -> serviceInv own' s0 sv.
Proof.
  intros Hown [Ht Ho Hs Hw Hc Hr]. split; try done.
  - eapply Forall_impl; [exact Ht|]. intros m (c & id & ? & ? & ?). exists c, id. auto.
  - eapply Forall_impl; [exact Hs|]. intros m (c & id & ? & ? & ?). exists c, id. auto.
Qed.

(** *** The callers *)

(** A caller takes a step within its call. *)
Lemma clientInv_setCaller cs l rs i cl cl' :
  clientInv cs l rs -> callers rs !! i = Some cl -> callOf cl' = callOf cl -> idOf cl' = idOf cl -> resultOk l cl' ->
  clientInv cs l (setCaller i cl' rs).
Proof.
  intros [Hc Hi Hu Ho Hr] Hcl Ecall Eid Hres.
  assert (Hlook : forall j x, <[i := cl']> (callers rs) !! j = Some x -> exists y, callers rs !! j = Some y /\ idOf x = idOf y).
  { intros j x [(<- & <- & _)|(_ & Hx)]%list_lookup_insert_Some; eauto. }
  split; cbn [setCaller callers nextId objects].
  - rewrite list_fmap_insert, Ecall, <- Hc. apply list_insert_id. by rewrite list_lookup_fmap, Hcl.
  - intros j x id (y & Hy & E)%Hlook Hid. eapply Hi; [done|by rewrite <- E].
  - intros j k x y id (x' & Hx & Ex)%Hlook (y' & Hy & Ey)%Hlook H1 H2. eapply Hu; [exact Hx|exact Hy|by rewrite <- Ex|by rewrite <- Ey].
  - done.
  - intros j x [(<- & <- & _)|(_ & Hx)]%list_lookup_insert_Some; [done|by eapply Hr].
Qed.

Lemma owner_setCaller rs i cl cl' c id :
  callers rs !! i = Some cl -> callOf cl' = callOf cl -> idOf cl' = idOf cl -> (tried cl = true -> tried cl' = true) ->
  owner rs c id -> owner (setCaller i cl' rs) c id.
Proof.
  intros Hcl Ecall Eid Ht (j & x & Hx & H1 & H2 & H3). destruct (decide (i = j)) as [<-|Hne].
  - exists i, cl'. simplify_eq. cbn [setCaller callers]. rewrite list_lookup_insert_eq by (by eapply lookup_lt_Some). split_and!; [done|congruence..|auto].
  - exists j, x. cbn [setCaller callers]. by rewrite list_lookup_insert_ne.
Qed.

Lemma clientInv_setObject cs l rs id p :
  clientInv cs l rs -> (forall resp, ch p = Some resp -> aId resp = id /\ resp ∈ l.*2) -> clientInv cs l (setObject id p rs).
Proof.
  intros [Hc Hi Hu Ho Hr] Hp. split; try done. intros id' p' resp. cbn [setObject objects].
  rewrite lookup_insert_Some. intros [[<- <-]|[_ Hl]]; [by apply Hp|by apply Ho].
Qed.

Lemma clientInv_start cs l rs rs' i : clientInv cs l rs -> startRequest uuid i rs = Some rs' ->
  clientInv cs l rs' /\ forall c id, owner rs c id -> owner rs' c id.
Proof.
  intros [Hc Hi Hu Ho Hr] Hs. unfold startRequest in Hs. destruct (callers rs !! i) as [[c| | | |]|] eqn:Hcl; try discriminate Hs.
  injection Hs as <-. set (new := CStored c (uuid (nextId rs))).
  assert (Hfresh : forall j x, callers rs !! j = Some x -> idOf x <> Some (uuid (nextId rs))).
  { intros j x Hx Hid. destruct (Hi _ _ _ Hx Hid) as (n & Hn & Hlt). apply uuid_inj in Hn. lia. }
  split.
  - split; cbn [setCaller callers nextId objects].
    + rewrite list_fmap_insert, <- Hc. apply list_insert_id. by rewrite list_lookup_fmap, Hcl.
    + intros j x id [(<- & <- & _)|(_ & Hx)]%list_lookup_insert_Some Hid; [injection Hid as <-; exists (nextId rs); split; [done|lia]|].
      destruct (Hi _ _ _ Hx Hid) as (n & -> & Hlt). exists n. split; [done|lia].
    + intros j k x y id [(<- & <- & _)|(_ & Hx)]%list_lookup_insert_Some [(<- & <- & _)|(_ & Hy)]%list_lookup_insert_Some H1 H2.
      * done.
      * injection H1 as <-. by apply Hfresh in Hy.
      * injection H2 as <-. by apply Hfresh in Hx.
      * by eapply Hu.
    + intros id p resp. rewrite lookup_insert_Some. intros [[<- <-]|[_ Hl]]; [done|by apply Ho].
    + intros j x [(<- & <- & _)|(_ & Hx)]%list_lookup_insert_Some; [done|by eapply Hr].
  - intros c' id (j & x & Hx & H1 & H2 & H3). exists j, x. split; [|done]. cbn [setCaller callers].
    rewrite list_lookup_insert_ne; [done|]. intros <-. simplify_eq.
Qed.

Lemma inv_setCaller cs s0 w i cl cl' :
  inv cs s0 w -> callers (client w) !! i = Some cl -> callOf cl' = callOf cl -> idOf cl' = idOf cl ->
  (tried cl = true -> tried cl' = true) -> resultOk (served (service w)) cl' ->
  inv cs s0 (mkWorld (setCaller i cl' (client w)) (service w)).
Proof.
  intros [Hc Hs] Hcl E1 E2 Ht Hr. split.
  - by eapply clientInv_setCaller.
  - eapply serviceInv_mono; [|exact Hs]. intros c id. by eapply owner_setCaller.
Qed.

Lemma inv_setObject cs s0 w id p :
  inv cs s0 w -> (forall resp, ch p = Some resp -> aId resp = id /\ resp ∈ (served (service w)).*2) ->
  inv cs s0 (mkWorld (setObject id p (client w)) (service w)).
Proof. intros [Hc Hs] Hp. split; [by apply clientInv_setObject|done]. Qed.

Lemma inv_pending cs s0 w ids h :
  inv cs s0 w -> inv cs s0 (mkWorld (mkRemote (callers (client w)) (nextId (client w)) ids (objects (client w)) h) (service w)).
Proof. intros [[Hc Hi Hu Ho Hr] Hs]. split; [by split|done]. Qed.

(** An answer with the identifier of a caller is the answer to its request. *)
Lemma inv_answer cs s0 w i cl id resp :
  inv cs s0 w -> callers (client w) !! i = Some cl -> idOf cl = Some id -> aId resp = id -> resp ∈ (served (service w)).*2 ->
  (requestOf (callOf cl) id, resp) ∈ served (service w).
Proof.
  intros [Hc Hs] Hcl Hid Hr Hin. apply list_elem_of_fmap in Hin as ([q resp'] & -> & Hin). cbn [snd] in *.
  pose proof (proj1 (Forall_forall _ _) (v_served _ _ _ Hs) _ Hin) as (c & id' & Eq & (j & x & Hx & Ec & Ex & _) & Ea). cbn [fst snd] in *.
  rewrite Hr in Ea. subst id'. assert (i = j) as <- by (by eapply (c_uniq _ _ _ Hc)). by simplify_eq.
Qed.

Lemma inv_takeResponse cs s0 w i rs' : inv cs s0 w -> takeResponse i (client w) = Some rs' -> inv cs s0 (mkWorld rs' (service w)).
Proof.
  intros Hinv Hs. unfold takeResponse in Hs. destruct (callers (client w) !! i) as [[| |c id| |]|] eqn:Hcl; try discriminate Hs.
  destruct (objects (client w) !! id) as [p|] eqn:Hp; [|discriminate Hs]. cbn in Hs.
  destruct (ch p) as [resp|] eqn:Hch; [|discriminate Hs]. injection Hs as <-.
  destruct (c_objects _ _ _ (proj1 Hinv) _ _ _ Hp Hch) as [Hid Hin].
  apply (inv_setCaller cs s0 (mkWorld (setObject id (mkPending None (errc p)) (client w)) (service w)) i (CWait c id)); try done.
  - by apply inv_setObject.
  - right. exists resp. split; [|done]. by apply (inv_answer cs s0 w i (CWait c id)).
Qed.

Lemma inv_takeError cs s0 w i rs' : inv cs s0 w -> takeError i (client w) = Some rs' -> inv cs s0 (mkWorld rs' (service w)).
Proof.
  intros Hinv Hs. unfold takeError in Hs. destruct (callers (client w) !! i) as [[| |c id| |]|] eqn:Hcl; try discriminate Hs.
  destruct (objects (client w) !! id) as [p|] eqn:Hp; [|discriminate Hs]. cbn in Hs.
  destruct (errc p) as [e|]; [|discriminate Hs]. injection Hs as <-.
  apply (inv_setCaller cs s0 (mkWorld (setObject id (mkPending (ch p) None) (client w)) (service w)) i (CWait c id)); try done.
  - apply inv_setObject; [done|]. intros resp Hch. by apply (c_objects _ _ _ (proj1 Hinv) id p).
  - left. exists errConn. split; [right; by left|done].
Qed.

Lemma inv_timeout cs s0 w i rs' : inv cs s0 w -> timeout i (client w) = Some rs' -> inv cs s0 (mkWorld rs' (service w)).
Proof.
  intros Hinv Hs. unfold timeout in Hs. destruct (callers (client w) !! i) as [[| |c id| |]|] eqn:Hcl; try discriminate Hs.
  injection Hs as <-. apply (inv_setCaller cs s0 w i (CWait c id)); try done.
  left. exists errTimeout. split; [right; by right|done].
Qed.

Lemma inv_return cs s0 w i rs' : inv cs s0 w -> returnStep i (client w) = Some rs' -> inv cs s0 (mkWorld rs' (service w)).
Proof.
  intros Hinv Hs. unfold returnStep in Hs. destruct (callers (client w) !! i) as [[| | |c id r|]|] eqn:Hcl; try discriminate Hs.
  injection Hs as <-.
  apply (inv_setCaller cs s0 (mkWorld (setPending (pending (client w) ∖ {[id]}) (client w)) (service w)) i (CGot c id r)); try done.
  - by apply inv_pending.
  - exists r. split; [|done]. by apply (c_results _ _ _ (proj1 Hinv) i (CGot c id r)).
Qed.

Lemma inv_deliver cs s0 w command body rs' :
  inv cs s0 w -> (command = Response -> exists resp, unmarshalDbResponse body = Some resp /\ resp ∈ (served (service w)).*2) ->
  deliver command body (client w) = Some rs' -> inv cs s0 (mkWorld rs' (service w)).
Proof.
  intros Hinv Hm Hs. assert (Hsame : inv cs s0 (mkWorld (client w) (service w))) by (by destruct w).
  unfold deliver in Hs. case_bool_decide as Ec; [|by injection Hs as <-]. destruct (Hm Ec) as (resp & Er & Hin). rewrite Er in Hs.
  case_bool_decide; [|by injection Hs as <-]. destruct (objects (client w) !! aId resp) as [p|]; [|discriminate Hs]. cbn in Hs.
  destruct (ch p); [discriminate Hs|]. injection Hs as <-. apply inv_setObject; [done|]. by intros ? [= <-].
Qed.

Lemma inv_notify cs s0 w id rs' : inv cs s0 w -> notify id (client w) = Some rs' -> inv cs s0 (mkWorld rs' (service w)).
Proof.
  intros Hinv Hs. unfold notify in Hs. destruct (handler (client w)) as [|err todo|]; try discriminate Hs.
  case_bool_decide; [|discriminate Hs]. destruct (objects (client w) !! id) as [p|] eqn:Hp; [|discriminate Hs]. cbn in Hs.
  destruct (errc p); [discriminate Hs|]. injection Hs as <-.
  apply (inv_pending cs s0 (mkWorld (setObject id (mkPending (ch p) (Some err)) (client w)) (service w))).
  apply inv_setObject; [done|]. intros resp Hch. by apply (c_objects _ _ _ (proj1 Hinv) id p).
Qed.

Lemma inv_send cs s0 w i sent w' : inv cs s0 w -> sendStep i sent w = Some w' -> inv cs s0 w'.
Proof.
  intros Hinv Hs. unfold sendStep in Hs. destruct (callers (client w) !! i) as [[|c id| | |]|] eqn:Hcl; try discriminate Hs.
  assert (Hfail : inv cs s0 (mkWorld (setCaller i (CGot c id (Err errSend)) (client w)) (service w))).
  { apply (inv_setCaller cs s0 w i (CStored c id)); try done. left. exists errSend. split; [by left|done]. }
  destruct (marshalDbRequest (requestOf c id)) as [body|] eqn:Hb; [|by injection Hs as <-].
  destruct sent; [|by injection Hs as <-]. injection Hs as <-. clear Hfail.
  pose proof (inv_setCaller cs s0 w i (CStored c id) (CWait c id) Hinv Hcl eq_refl eq_refl (fun _ => eq_refl) I) as [Hc' [Ht Ho Hs Hw Hcl' Hr]].
  cbn [client service] in *. split; [done|]. apply db_request_codec in Hb.
  assert (Hown : owner (setCaller i (CWait c id) (client w)) c id).
  { exists i, (CWait c id). cbn [setCaller callers]. by rewrite list_lookup_insert_eq by (by eapply lookup_lt_Some). }
  split; cbn [client service toServer served working toClient serviceUp actualStorage]; try done.
  - apply Forall_app. split; [done|]. apply Forall_singleton. by exists c, id.
  - rewrite fmap_app, <- app_assoc. cbn [fmap list_fmap app]. rewrite <- Permutation_middle. apply NoDup_cons. split; [|done].
    (* only a caller that has tried to send has a request on its way *)
    assert (Hnot : forall c', ~ owner (client w) c' id).
    { intros c' (j & x & Hx & _ & Hid & Htr). assert (i = j) as <- by (by eapply (c_uniq _ _ _ (proj1 Hinv) i j)). simplify_eq. }
    destruct Hinv as [_ [Ht0 _ Hs0 _ _ _]]. unfold wireId at 1. cbn [snd]. rewrite Hb. cbn. unfold requestId. cbn [qId requestOf].
    rewrite elem_of_app, !list_elem_of_fmap. intros [(m & Em & Hm)|(e & Ee & He)].
    + rewrite Forall_forall in Ht0. destruct (Ht0 m Hm) as (c' & id' & _ & Em' & Ho'). unfold wireId in Em. rewrite Em' in Em.
      injection Em as <-. by apply (Hnot c').
    + rewrite Forall_forall in Hs0. destruct (Hs0 e He) as (c' & id' & Ee' & Ho' & _). unfold servedId in Ee. rewrite Ee' in Ee.
      injection Ee as <-. by apply (Hnot c').
Qed.

Lemma served_incl (l : Served) e : l ⊆ l ++ [e].
Proof. intros x Hx. apply elem_of_app. by left. Qed.

Lemma served_answers (l : Served) e resp : resp ∈ l.*2 -> resp ∈ (l ++ [e]).*2.
Proof. intros Hr. rewrite fmap_app. apply elem_of_app. by left. Qed.

(** The service without the request it takes off the connection. *)
Lemma serviceInv_take own s0 sv j m c id up s' :
  serviceInv own s0 sv -> toServer sv !! j = Some m -> unmarshalDbRequest m.2 = Some (requestOf c id) -> (up = true -> s' = actualStorage sv /\ serviceUp sv = true) ->
  serviceInv own s0 (mkService (delete j (toServer sv)) (toClient sv) (working sv) s' up (served sv)) /\
  Some id ∉ (wireId <$> delete j (toServer sv)) ++ (servedId <$> served sv).
Proof.
  intros [Ht Ho Hsv Hw Hcl (s & Hrep & Hst)] Hm Eun Hup.
  assert (Hnd : NoDup (Some id :: (wireId <$> delete j (toServer sv)) ++ (servedId <$> served sv))).
  { rewrite (delete_Permutation _ _ _ Hm) in Ho. cbn [fmap list_fmap app] in Ho. unfold wireId at 1 in Ho. by rewrite Eun in Ho. }
  apply NoDup_cons in Hnd as [Hn Hnd]. split; [|done].
  split; cbn [toServer served working toClient serviceUp actualStorage]; try done.
  - by apply Forall_delete.
  - exists s. split; [done|]. intros [-> Hu]%Hup. by apply Hst.
Qed.

(** A worker has run a request. *)
Lemma serviceInv_run own s0 sv c id resp s' :
  serviceInv own s0 sv -> own c id -> serviceUp sv = true -> Some id ∉ (wireId <$> toServer sv) ++ (servedId <$> served sv) ->
  runOperation (requestOf c id) (actualStorage sv) = (Ok resp, s') -> aId resp = id ->
  serviceInv own s0 (mkService (toServer sv) (toClient sv) (working sv ++ [resp]) s' true (served sv ++ [(requestOf c id, resp)])).
Proof.
  intros [Ht Ho Hsv Hw Hcl (s & Hrep & Hst)] Hown Hup Hn E Hid.
  split; cbn [toServer served working toClient serviceUp actualStorage]; try done.
  - rewrite fmap_app, app_assoc. apply NoDup_app. split_and!; [done| |by apply NoDup_singleton].
    intros x Hx ->%list_elem_of_singleton. by apply Hn.
  - apply Forall_app. split; [done|]. apply Forall_singleton. by exists c, id.
  - apply Forall_app. split.
    + eapply Forall_impl; [exact Hw|]. intros r. apply served_answers.
    + apply Forall_singleton. rewrite fmap_app. apply elem_of_app. right. by apply list_elem_of_singleton.
  - eapply Forall_impl; [exact Hcl|]. intros m Hm Ec. destruct (Hm Ec) as (r & Er & Hr). exists r. split; [done|by apply served_answers].
  - exists s'. split; [|done]. eapply replay_snoc; [exact Hrep|]. by rewrite <- (Hst Hup).
Qed.

Lemma inv_serve cs s0 w j sv' : inv cs s0 w -> serve errorString j (service w) = Some sv' -> inv cs s0 (mkWorld (client w) sv').
Proof.
  intros [Hc Hv] Hs. unfold serve in Hs. destruct (serviceUp (service w)) eqn:Hup; [cbn [negb] in Hs|discriminate Hs].
  destruct (toServer (service w) !! j) as [m|] eqn:Hm; [|discriminate Hs]. cbn in Hs.
  pose proof (proj1 (Forall_lookup _ _) (v_toServer _ _ _ Hv) _ _ Hm) as (c & id & Ecmd & Eun & Hown). rewrite bool_decide_true in Hs by done.
  unfold handleDatabaseOperation in Hs. rewrite Eun in Hs.
  assert (Hans := runOperation_direct c id (actualStorage (service w))). unfold answers in Hans.
  assert (Hok : forall resp s', RemoteStorage.runOperation errorString (requestOf c id) (actualStorage (service w)) = (Ok resp, s') -> aId resp = id -> inv cs s0 (mkWorld (client w) sv')).
  { intros resp s' E Hid. rewrite E in Hs. injection Hs as <-.
    destruct (serviceInv_take _ _ _ j m c id true (actualStorage (service w)) Hv Hm Eun) as [Hv1 Hn]; [done|].
    split; [by eapply clientInv_mono, Hc; apply served_incl|]. by apply (serviceInv_run _ _ _ c id resp s' Hv1). }
  destruct (direct c (actualStorage (service w))) as [[r|e| |] s']; [destruct Hans as (resp & E & Hid & _); by eapply Hok..| |].
  all: rewrite Hans in Hs; injection Hs as <-; split; [done|]; by eapply serviceInv_take.
Qed.

Lemma remote_inv_reply cs s0 w j sent sv' : inv cs s0 w -> reply j sent (service w) = Some sv' -> inv cs s0 (mkWorld (client w) sv').
Proof.
  intros [Hc [Ht Ho Hsv Hw Hcl Hrep]] Hs. unfold reply in Hs. destruct (working (service w) !! j) as [resp|] eqn:Hj; [|discriminate Hs]. cbn in Hs.
  assert (Hw' : Forall (fun resp => resp ∈ (served (service w)).*2) (delete j (working (service w)))) by (by apply Forall_delete).
  destruct (marshalDbResponse resp) as [body|] eqn:Eb; [|injection Hs as <-; by split].
  destruct sent; injection Hs as <-; (split; [done|]); split; try done; cbn [client service toServer served working toClient serviceUp actualStorage].
  apply Forall_app. split; [done|]. apply Forall_singleton. intros _. exists resp. split; [by apply db_response_codec|].
  by eapply Forall_lookup_1 in Hj; [|exact Hw].
Qed.

Lemma inv_step cs s0 a w w' : inv cs s0 w -> step a w = Some w' -> inv cs s0 w'.
Proof.
  intros Hinv Hs. destruct a as [i|i sent|i|i|i|i|j|j sent|command body| |err|id| |]; cbn [RemoteStorage.step] in Hs;
    try (unfold onClient in Hs; match type of Hs with (?f ≫= _) = _ => destruct f as [rs'|] eqn:E; [injection Hs as <-|discriminate Hs] end);
    try (unfold onService in Hs; match type of Hs with (?f ≫= _) = _ => destruct f as [sv'|] eqn:E; [injection Hs as <-|discriminate Hs] end).
  - destruct Hinv as [Hc Hv]. destruct (clientInv_start _ _ _ _ _ Hc E) as [Hc' Hown]. split; [done|]. by eapply serviceInv_mono.
  - by eapply inv_send.
  - by eapply inv_takeResponse.
  - by eapply inv_takeError.
  - by eapply inv_timeout.
  - by eapply inv_return.
  - by eapply inv_serve.
  - by eapply remote_inv_reply.
  - case_bool_decide as Ec; [discriminate Hs|]. injection Hs as <-. destruct Hinv as [Hc [Ht Ho Hsv Hw Hcl Hrep]].
    split; [done|]. split; try done. apply Forall_app. split; [done|]. by apply Forall_singleton.
  - destruct (handler (client w)); try discriminate Hs. destruct (toClient (service w)) as [|m rest] eqn:Em; [discriminate Hs|].
    destruct (deliver m.1 m.2 (client w)) as [rs'|] eqn:E; [injection Hs as <-|discriminate Hs].
    pose proof (proj2 Hinv) as Hv. apply v_toClient in Hv. rewrite Em in Hv. apply Forall_cons in Hv as [Hm Hrest].
    destruct (inv_deliver _ _ _ _ _ _ Hinv Hm E) as [Hc [Ht Ho Hsv Hw Hcl Hrep]]. split; [done|]. by split.
  - destruct (handler (client w)); try discriminate E. injection E as <-. by apply inv_pending.
  - by eapply inv_notify.
  - unfold notifyEnd in E. destruct (handler (client w)); try discriminate E. case_bool_decide; [|discriminate E]. injection E as <-. by apply inv_pending.
  - destruct (handler (client w)); try discriminate E. injection E as <-. by apply inv_pending.
Qed.

Lemma inv_run cs s0 sch w w' : inv cs s0 w -> run sch w = Some w' -> inv cs s0 w'.
Proof.
  revert w. induction sch as [|a sch IH]; intros w Hinv Hr; cbn [RemoteStorage.run] in Hr; [by injection Hr as <-|].
  destruct (RemoteStorage.step errorString uuid a w) as [w1|] eqn:E; [|discriminate Hr]. eapply IH; [|exact Hr]. by eapply inv_step.
Qed.

Lemma inv_start cs s0 : inv cs s0 (start cs s0).
Proof.
  assert (Hl : forall i cl, callers (NewRemoteStorage cs) !! i = Some cl -> exists c, cl = CStart c).
  { intros i cl. cbn. rewrite list_lookup_fmap. intros (c & _ & ->)%fmap_Some. eauto. }
  split.
  - split.
    + cbn. rewrite <- list_fmap_compose. apply list_fmap_id.
    + by intros i cl id [c ->]%Hl.
    + by intros i j cl cl' id [c ->]%Hl.
    + intros id p resp. cbn. by rewrite lookup_empty.
    + by intros i cl [c ->]%Hl.
  - split; cbn; try constructor. exists s0. split; [constructor|done].
Qed.

(** ** The order of the calls *)

Definition callerOf (rs : RemoteStorage) (id : string) : option nat := fst <$> list_find (fun cl => idOf cl = Some id) (callers rs).
Definition orderOf (rs : RemoteStorage) (l : Served) : list nat := omap (fun e => callerOf rs (qId e.1)) l.

(** The callers in the order in which the service ran their requests, and their
    calls. *)
Definition order (w : World S) : list nat := orderOf (client w) (served (service w)).
Definition callsOf (cs : list Call) (l : list nat) : list Call := omap (fun i => cs !! i) l.

Definition owned (rs : RemoteStorage) (l : Served) : Prop :=
  Forall (fun e => exists c id, e.1 = requestOf c id /\ owner rs c id /\ aId e.2 = id) l.

Lemma callerOf_spec cs l rs i cl id : clientInv cs l rs -> callers rs !! i = Some cl -> idOf cl = Some id -> callerOf rs id = Some i.
Proof.
  intros Hc Hcl Hid. unfold callerOf. destruct (list_find _ (callers rs)) as [[j x]|] eqn:E; cbn.
  - apply list_find_Some in E as (Hx & Hx' & _). f_equal. by eapply (c_uniq _ _ _ Hc).
  - apply list_find_None in E. rewrite Forall_lookup in E. by apply E in Hcl.
Qed.

Lemma orderOf_snoc cs l0 rs l e i cl c id :
  clientInv cs l0 rs -> callers rs !! i = Some cl -> callOf cl = c -> idOf cl = Some id -> e.1 = requestOf c id ->
  orderOf rs (l ++ [e]) = orderOf rs l ++ [i] /\ cs !! i = Some c.
Proof.
  intros Hc Hcl Ec Hid Ee. split.
  - unfold orderOf. rewrite omap_app. cbn [omap list_omap]. rewrite Ee. cbn [requestOf qId]. by rewrite (callerOf_spec cs l0 rs i cl id).
  - rewrite <- (c_calls _ _ _ Hc), list_lookup_fmap, Hcl. cbn. by rewrite Ec.
Qed.

Lemma directRun_app cs cs' s : directRun (cs ++ cs') s = directRun cs' (directRun cs s).
Proof. revert s. induction cs as [|c cs IH]; intros s; cbn; [done|by rewrite IH]. Qed.

Lemma runOperation_Ok c id s resp s' : runOperation (requestOf c id) s = (Ok resp, s') ->
  (direct c s).2 = s' /\ finish c (received resp) = asText (direct c s).1.
Proof.
  intros E. pose proof (runOperation_direct c id s) as Ha. unfold answers in Ha.
  destruct (direct c s) as [[r|e| |] s1]; [destruct Ha as (resp' & E' & _ & Hf)..| |]; rewrite E in *; simplify_eq; done.
Qed.

Lemma replay_order cs l0 rs s0 l s : clientInv cs l0 rs -> replay s0 l s -> owned rs l -> directRun (callsOf cs (orderOf rs l)) s0 = s.
Proof.
  intros Hc. induction 1 as [|l q resp s s' Hrep IH E]; intros Hown; [done|].
  apply Forall_app in Hown as [Hown He]. apply Forall_singleton in He as (c & id & Eq & (i & cl & Hcl & Ec & Eid & _) & _). cbn in Eq. subst q.
  destruct (orderOf_snoc cs l0 rs l (requestOf c id, resp) i cl c id) as [-> Hcs]; try done.
  unfold callsOf. rewrite omap_app, directRun_app. fold (callsOf cs (orderOf rs l)). rewrite (IH Hown). cbn. rewrite Hcs. cbn.
  by apply (runOperation_Ok c id s resp s').
Qed.

Lemma replay_split s0 l1 q resp l2 s : replay s0 (l1 ++ (q, resp) :: l2) s ->
  exists s1 s2, replay s0 l1 s1 /\ runOperation q s1 = (Ok resp, s2).
Proof.
  intros Hrep. remember (l1 ++ (q, resp) :: l2) as l eqn:El. revert l2 El. induction Hrep as [|l q' resp' s s' Hrep IH E]; intros l2 El.
  - by destruct l1.
  - destruct l2 as [|e l2 _] using rev_ind.
    + apply app_inj_tail in El as [-> [= -> ->]]. eauto.
    + rewrite app_comm_cons, app_assoc in El. apply app_inj_tail in El as [-> _]. by eapply IH.
Qed.

Lemma order_NoDup cs l0 rs l : clientInv cs l0 rs -> owned rs l -> NoDup (servedId <$> l) -> NoDup (orderOf rs l).
Proof.
  intros Hc. induction l as [|e l IH]; intros Hown Hnd; [constructor|].
  apply Forall_cons in Hown as [(c & id & Ee & (i & cl & Hcl & _ & Eid & _) & _) Hown].
  cbn [fmap list_fmap] in Hnd. apply NoDup_cons in Hnd as [Hn Hnd]. cbn [orderOf omap list_omap]. rewrite Ee. cbn [requestOf qId].
  rewrite (callerOf_spec cs l0 rs i cl id) by done. apply NoDup_cons. split; [|by apply IH].
  intros Hin. apply Hn. apply list_elem_of_omap in Hin as (e' & He' & E'). unfold owned in Hown. rewrite Forall_forall in Hown.
  destruct (Hown e' He') as (c' & id' & Ee' & (i' & cl' & Hcl' & _ & Eid' & _) & _). rewrite Ee' in E'. cbn [requestOf qId] in E'.
  rewrite (callerOf_spec cs l0 rs i' cl' id') in E' by done. injection E' as ->. assert (id' = id) as -> by congruence.
  apply list_elem_of_fmap. exists e'. split; [|done]. unfold servedId. by rewrite Ee, Ee'.
Qed.

(** *** Later states *)

(** Callers keep their identifiers, and what was served stays. *)
Record later (w w' : World S) : Prop := {
  l_ids : forall i cl id, callers (client w) !! i = Some cl -> idOf cl = Some id ->
    exists cl', callers (client w') !! i = Some cl' /\ idOf cl' = Some id;
  l_served : served (service w) `prefix_of` served (service w')
}.

Lemma later_trans w1 w2 w3 : later w1 w2 -> later w2 w3 -> later w1 w3.
Proof.
  intros [H1 H2] [H3 H4]. split; [|by etrans].
  intros i cl id Hcl Hid. destruct (H1 _ _ _ Hcl Hid) as (cl' & Hcl' & Hid'). by eapply H3.
Qed.

Lemma later_same w w' : callers (client w') = callers (client w) -> served (service w) `prefix_of` served (service w') -> later w w'.
Proof. intros E Hp. split; [|done]. intros i cl id. rewrite E. eauto. Qed.

Lemma later_setCaller w rs sv i cl cl' :
  callers (client w) !! i = Some cl -> callers rs = callers (client w) -> (forall id, idOf cl = Some id -> idOf cl' = Some id) ->
  served sv = served (service w) -> later w (mkWorld (setCaller i cl' rs) sv).
Proof.
  intros Hcl Ers Hid Esv. split; cbn [client service setCaller callers]; [|by rewrite Esv].
  intros j x id Hx Ex. rewrite Ers. destruct (decide (i = j)) as [<-|Hne].
  - exists cl'. simplify_eq. rewrite list_lookup_insert_eq by (by eapply lookup_lt_Some). auto.
  - exists x. by rewrite list_lookup_insert_ne.
Qed.

(** The callers after a step of the client. *)
Lemma onClient_later f w w' :
  (forall rs', f (client w) = Some rs' -> callers rs' = callers (client w) \/
    exists i cl cl' rs, rs' = setCaller i cl' rs /\ callers rs = callers (client w) /\ callers (client w) !! i = Some cl /\
      forall id, idOf cl = Some id -> idOf cl' = Some id) ->
  onClient f w = Some w' -> later w w'.
Proof.
  intros Hf Hs. unfold onClient in Hs. destruct (f (client w)) as [rs'|] eqn:E; [injection Hs as <-|discriminate Hs].
  destruct (Hf rs' eq_refl) as [Hsame|(i & cl & cl' & rs & -> & Ers & Hcl & Hid)]; [by apply later_same|by eapply later_setCaller].
Qed.

Ltac caller_step :=
  let rs' := fresh in intros rs' Hf; repeat (case_match || apply bind_Some in Hf as (? & ? & Hf)); simplify_eq;
  first [by left|right; eexists _, _, _, _; split_and!; [reflexivity|reflexivity|eassumption|]; cbn; congruence].

Lemma step_later a w w' : step a w = Some w' -> later w w'.
Proof.
  destruct a as [i|i sent|i|i|i|i|j|j sent|command body| |err|id| |]; cbn [RemoteStorage.step]; try (apply onClient_later).
  - unfold startRequest. caller_step.
  - unfold sendStep. intros Hs. destruct (callers (client w) !! i) as [[|c id| | |]|] eqn:Hcl; try discriminate Hs.
    repeat case_match; injection Hs as <-; by eapply later_setCaller.
  - unfold takeResponse. caller_step.
  - unfold takeError. caller_step.
  - unfold timeout. caller_step.
  - unfold returnStep. caller_step.
  - intros Hs. unfold onService in Hs. destruct (serve errorString j (service w)) as [sv'|] eqn:E; [injection Hs as <-|discriminate Hs].
    apply later_same; [done|]. unfold serve in E. repeat (case_match || apply bind_Some in E as (? & ? & E)); simplify_eq; cbn [service served];
      try done; by apply prefix_app_r.
  - intros Hs. unfold onService in Hs. destruct (reply j sent (service w)) as [sv'|] eqn:E; [injection Hs as <-|discriminate Hs].
    apply later_same; [done|]. unfold reply in E. repeat (case_match || apply bind_Some in E as (? & ? & E)); by simplify_eq.
  - intros Hs. case_bool_decide; [done|]. injection Hs as <-. by apply later_same.
  - intros Hs. repeat case_match; try discriminate Hs. apply bind_Some in Hs as (rs' & E & Hs). injection Hs as <-.
    apply later_same; [|done]. unfold deliver in E. repeat (case_match || apply bind_Some in E as (? & ? & E)); by simplify_eq.
  - caller_step.
  - unfold notify. caller_step.
  - unfold notifyEnd. caller_step.
  - caller_step.
Qed.

Lemma run_later sch w w' : run sch w = Some w' -> later w w'.
Proof.
  revert w. induction sch as [|a sch IH]; intros w Hr; cbn [RemoteStorage.run] in Hr; [injection Hr as <-; by apply later_same|].
  apply bind_Some in Hr as (w1 & E & Hr). eapply later_trans; [by eapply step_later|by apply IH].
Qed.

Lemma orderOf_later cs l l' rs rs' k :
  clientInv cs l rs -> clientInv cs l' rs' -> owned rs k ->
  (forall i cl id, callers rs !! i = Some cl -> idOf cl = Some id -> exists cl', callers rs' !! i = Some cl' /\ idOf cl' = Some id) ->
  orderOf rs' k = orderOf rs k.
Proof.
  intros Hc Hc' Hown Hids. unfold orderOf. induction Hown as [|e k (c & id & Ee & (i & cl & Hcl & _ & Eid & _) & _) _ IH]; [done|].
  destruct (Hids _ _ _ Hcl Eid) as (cl' & Hcl' & Eid'). cbn [omap list_omap]. rewrite Ee. cbn [requestOf qId].
  rewrite (callerOf_spec _ _ _ _ _ _ Hc Hcl Eid), (callerOf_spec _ _ _ _ _ _ Hc' Hcl' Eid'). by f_equal.
Qed.

Lemma order_later cs s0 w w' : inv cs s0 w -> inv cs s0 w' -> later w w' -> order w `prefix_of` order w'.
Proof.
  intros [Hc Hv] [Hc' Hv'] [Hids [k Hk]]. unfold order. rewrite Hk, <- (orderOf_later _ _ _ _ _ _ Hc Hc' (v_served _ _ _ Hv) Hids).
  unfold orderOf. rewrite omap_app. by apply prefix_app_r.
Qed.

(** ** Linearizability *)

(** The service has run the calls of [order w], each at most once; its store is
    what direct calls in this order give, and a caller that is done has an error
    of [sendRequest], or the result of its direct call in its place. *)
Record linearized (cs : list Call) (s0 : S) (w : World S) : Prop := {
  lin_once : NoDup (order w);
  lin_calls : Forall (fun i => (i < length cs)%nat) (order w);
  lin_store : serviceUp (service w) = true -> actualStorage (service w) = directRun (callsOf cs (order w)) s0;
  lin_result i c id r : callers (client w) !! i = Some (CDone c id r) -> cs !! i = Some c /\
    ((exists e, localError e /\ r = finish c (Err e)) \/
     exists l1 l2, order w = l1 ++ i :: l2 /\ r = asText (direct c (directRun (callsOf cs l1) s0)).1)
}.

Lemma inv_linearized cs s0 w : inv cs s0 w -> linearized cs s0 w.
Proof.
  intros [Hc Hv]. assert (Hown : owned (client w) (served (service w))) by apply (v_served _ _ _ Hv).
  destruct (v_replay _ _ _ Hv) as (s & Hrep & Hst). split.
  - eapply order_NoDup; [done|done|]. pose proof (v_once _ _ _ Hv) as Hnd. by apply NoDup_app in Hnd as (_ & _ & Hnd).
  - apply Forall_forall. intros i (e & He & Ei)%list_elem_of_omap. unfold callerOf in Ei.
    apply fmap_Some in Ei as ([j x] & (Hx & _)%list_find_Some & ->). rewrite <- (c_calls _ _ _ Hc), length_fmap. by eapply lookup_lt_Some.
  - intros Hup. rewrite (Hst Hup). symmetry. by eapply replay_order.
  - intros i c id r Hcl. split; [by rewrite <- (c_calls _ _ _ Hc), list_lookup_fmap, Hcl|].
    destruct (c_results _ _ _ Hc _ _ Hcl) as (r0 & [(e & He & ->)|(resp & Hin & ->)] & ->); [left; eauto|right].
    apply list_elem_of_split in Hin as (l1 & l2 & El). rewrite El in Hrep, Hown.
    destruct (replay_split _ _ _ _ _ _ Hrep) as (s1 & s2 & Hrep1 & E). apply Forall_app in Hown as [Hown1 _].
    exists (orderOf (client w) l1), (orderOf (client w) l2). split.
    + unfold order. rewrite El. unfold orderOf. rewrite omap_app. f_equal. cbn [omap list_omap fst requestOf qId].
      by rewrite (callerOf_spec _ _ _ _ _ _ Hc Hcl eq_refl).
    + rewrite (replay_order cs _ _ _ _ _ Hc Hrep1 Hown1). by apply (runOperation_Ok c id s1 resp s2).
Qed.

Lemma order_started cs s0 w i c : inv cs s0 w -> callers (client w) !! i = Some (CStart c) -> i ∉ order w.
Proof.
  intros [Hc Hv] Hcl (e & He & Ei)%list_elem_of_omap. unfold callerOf in Ei.
  apply fmap_Some in Ei as ([j x] & (Hx & Hid & _)%list_find_Some & ->). cbn [fst] in Hcl. by simplify_eq.
Qed.

(** C19 (refinement). Calls of a store behind a connection are linearizable, in any
    interleaving of callers, the handler of responses and the workers of the
    service, with lost messages, timeouts and errors of the connection.  There
    is one order, [order w], in which the service has run calls, each at most
    once: its store is what direct calls on the store give in this order, and a
    call that has returned has an error of [sendRequest] or the result of its
    direct call in its place.  The order only grows, and a call that has not
    begun is not in it: calls that do not overlap keep their order. *)
Theorem remote_linearizable cs s0 sch1 sch2 w1 w2 :
  run sch1 (start cs s0) = Some w1 -> run sch2 w1 = Some w2 ->
  linearized cs s0 w1 /\ linearized cs s0 w2 /\ order w1 `prefix_of` order w2 /\
  forall j c, callers (client w1) !! j = Some (CStart c) -> j ∉ order w1.
Proof.
  intros H1 H2. pose proof (inv_run _ _ _ _ _ (inv_start cs s0) H1) as I1. pose proof (inv_run _ _ _ _ _ I1 H2) as I2.
  split_and!; [by apply inv_linearized..| |].
  - by eapply order_later, run_later.
  - intros j c. by eapply order_started.
Qed.

(** A call returns when its two messages arrive: after its request
    is sent, run and answered and the answer is delivered, the caller takes it and
    has the result of the direct call; the store has changed as the direct call
    changes it, and nothing is left pending. *)
Theorem remote_call_returns c s b r s' :
  marshalDbRequest (requestOf c (uuid 0)) = Some b -> (forall resp, is_Some (marshalDbResponse resp)) ->
  direct c s = (r, s') -> r <> Panic -> r <> NoFuel ->
  exists w, run [ACall 0; ASend 0 true; AServe 0; AReply 0 true; ADeliver; ATake 0; AReturn 0] (start [c] s) = Some w /\
    callers (client w) = [CDone c (uuid 0) (asText r)] /\ actualStorage (service w) = s' /\ pending (client w) = ∅.
Proof using RL error_text.
  clear uuid_inj. intros Hb Hm Hd Hp Hn. pose proof (runOperation_direct c (uuid 0) s) as Ha. unfold answers in Ha. rewrite Hd in Ha.
  assert (exists resp, RemoteStorage.runOperation errorString (requestOf c (uuid 0)) s = (Ok resp, s') /\ aId resp = uuid 0 /\
    finish c (received resp) = asText r) as (resp & E & Hid & Hf) by (by destruct r). clear Ha.
  destruct (Hm resp) as [b' Hb']. cbn [RemoteStorage.run RemoteStorage.step onClient startRequest start client NewRemoteStorage callers fmap list_fmap lookup list_lookup].
  cbn. rewrite Hb. cbn. rewrite bool_decide_true by done. unfold handleDatabaseOperation.
  rewrite (db_request_codec _ _ Hb). rewrite E. cbn. rewrite Hb'. cbn. unfold deliver. rewrite bool_decide_true by done.
  rewrite (db_response_codec _ _ Hb'), Hid. cbn. rewrite bool_decide_true by set_solver. rewrite lookup_insert_eq. cbn.
  rewrite lookup_insert_eq. cbn. eexists. split; [reflexivity|]. cbn. split_and!; [by rewrite Hf|done|set_solver].
Qed.
End Remote.

(** ** Concrete parameters *)

Definition payloadSum (p : RequestPayload) : bytes + (bytes * bytes) + (bytes + list (bytes * bytes)) + (list bytes + unit) :=
  match p with
  | StorageGetRequest key => inl (inl (inl key))
  | StoragePutRequest key value => inl (inl (inr (key, value)))
  | StorageDeleteRequest key => inl (inr (inl key))
  | StorageBatchPutRequest kvs => inl (inr (inr kvs))
  | StorageBatchDeleteRequest keys => inr (inl keys)
  | StorageGetBackupPathRequest => inr (inr tt)
  end.
Definition sumPayload (x : bytes + (bytes * bytes) + (bytes + list (bytes * bytes)) + (list bytes + unit)) : RequestPayload :=
  match x with
  | inl (inl (inl key)) => StorageGetRequest key
  | inl (inl (inr (key, value))) => StoragePutRequest key value
  | inl (inr (inl key)) => StorageDeleteRequest key
  | inl (inr (inr kvs)) => StorageBatchPutRequest kvs
  | inr (inl keys) => StorageBatchDeleteRequest keys
  | inr (inr _) => StorageGetBackupPathRequest
  end.

Definition answerSum (p : ResponsePayload) : (bytes * string) + string + (string + string) + (string + string * string) :=
  match p with
  | StorageGetResponse value error => inl (inl (inl (value, error)))
  | StoragePutResponse error => inl (inl (inr error))
  | StorageDeleteResponse error => inl (inr (inl error))
  | StorageBatchPutResponse error => inl (inr (inr error))
  | StorageBatchDeleteResponse error => inr (inl error)
  | StorageGetBackupPathResponse path error => inr (inr (path, error))
  end.
Definition sumAnswer (x : (bytes * string) + string + (string + string) + (string + string * string)) : ResponsePayload :=
  match x with
  | inl (inl (inl (value, error))) => StorageGetResponse value error
  | inl (inl (inr error)) => StoragePutResponse error
  | inl (inr (inl error)) => StorageDeleteResponse error
  | inl (inr (inr error)) => StorageBatchPutResponse error
  | inr (inl error) => StorageBatchDeleteResponse error
  | inr (inr (path, error)) => StorageGetBackupPathResponse path error
  end.

Definition toyDecode {A} `{Countable A} (b : bytes) : option A :=
  match b with [Zpos p] => decode p | _ => None end.

#[export] Instance toyRemoteProto : RemoteProto := {|
  marshalDbRequest q := Some [Zpos (encode (qType q, qId q, payloadSum <$> qPayload q))];
  unmarshalDbRequest b := (fun '(t, i, p) => mkDbRequest t i (sumPayload <$> p)) <$> toyDecode b;
  marshalDbResponse a := Some [Zpos (encode (aType a, aId a, aError a, answerSum <$> aPayload a))];
  unmarshalDbResponse b := (fun '(t, i, e, p) => mkDbResponse t i e (sumAnswer <$> p)) <$> toyDecode b
|}.

#[export] Instance toyRemoteProtoLaws : RemoteProtoLaws.
Proof.
  split.
  - intros [t i p] b [= <-]. cbn [unmarshalDbRequest toyRemoteProto toyDecode]. rewrite decode_encode. cbn. by destruct p as [[]|].
  - intros [t i e p] b [= <-]. cbn [unmarshalDbResponse toyRemoteProto toyDecode]. rewrite decode_encode. cbn. by destruct p as [[]|].
Qed.

#[export] Instance toyStore : Store (gmap bytes bytes) := {|
  stGet m key := match m !! key with Some v => Ok v | None => Err (KeyNotFound key) end;
  stPut key value := modify <[key := value]>;
  stDelete key := modify (delete key);
  stBatchPut kvs := modify (fun m => foldl (fun m kv => <[kv.1 := kv.2]> m) m kvs);
  stBatchDelete keys := modify (fun m => foldl (fun m key => delete key m) m keys);
  stGetBackupPath _ := "backup"%string
|}.

Definition toyErrorString (e : GoError) : string := match e with KeyNotFound _ => "key not found" | _ => "error" end.

Definition toyUuid (n : nat) : string := String.string_of_list_ascii (replicate n (Ascii.ascii_of_nat 48)).

Lemma toyUuid_inj : Inj (=) (=) toyUuid.
Proof.
  intros n m E%(f_equal String.list_ascii_of_string). unfold toyUuid in E. rewrite !String.list_ascii_of_string_of_list_ascii in E.
  apply (f_equal length) in E. by rewrite !length_replicate in E.
Qed.

(** Two calls overlap, and the read is answered first; a third call, made after
    they have returned, runs into a timeout. *)
Definition sampleCalls : list Call := [CallGet [1]; CallPut [1] [7]; CallDelete [1]; CallGet [1]].
Definition sampleFirst : list Action :=
  [ACall 0; ACall 1; ASend 0 true; ASend 1 true; AServe 1; AServe 0; AReply 1 true; AOther "Ping" []; AReply 0 true;
   ADeliver; ADeliver; ADeliver; ATake 0; AReturn 0; ATake 1; AReturn 1].
Definition sampleSecond : list Action :=
  [ACall 2; ASend 2 true; ATimeout 2; AServe 0; AReturn 2; AReply 0 true; ADeliver; ACall 3; ASend 3 true; AServe 0; AReply 0 true; ADeliver; ATake 3; AReturn 3].

Definition runFrom (sch : list Action) (w : World (gmap bytes bytes)) : World (gmap bytes bytes) :=
  default w (run toyErrorString toyUuid sch w).

Lemma runFrom_run sch w : bool_decide (is_Some (run toyErrorString toyUuid sch w)) = true ->
  run toyErrorString toyUuid sch w = Some (runFrom sch w).
Proof. intros [w' Hw]%bool_decide_eq_true_1. unfold runFrom. by rewrite Hw. Qed.

Lemma remote_linearizable_witness :
  let w1 := runFrom sampleFirst (start sampleCalls ∅) in let w2 := runFrom sampleSecond w1 in
  (linearized toyErrorString sampleCalls ∅ w1 /\ linearized toyErrorString sampleCalls ∅ w2 /\ order w1 `prefix_of` order w2 /\
   forall j c, callers (client w1) !! j = Some (CStart c) -> j ∉ order w1) /\
  order w2 = [1; 0; 2; 3]%nat /\
  (callers (client w2)) = [CDone (CallGet [1]) "" (Ok (ReplyValue [7])); CDone (CallPut [1] [7]) "0" (Ok ReplyDone);
    CDone (CallDelete [1]) "00" (Err errTimeout); CDone (CallGet [1]) "000" (Err (ErrText "key not found"))].
Proof.
  cbv zeta. split; [|split; vm_compute; reflexivity].
  apply (remote_linearizable toyErrorString toyUuid) with (sch1 := sampleFirst) (sch2 := sampleSecond).
  - by intros [].
  - apply toyUuid_inj.
  - apply runFrom_run. vm_compute. reflexivity.
  - apply runFrom_run. vm_compute. reflexivity.
Defined.

Lemma remote_call_returns_witness :
  exists w, run toyErrorString toyUuid [ACall 0; ASend 0 true; AServe 0; AReply 0 true; ADeliver; ATake 0; AReturn 0]
      (start [CallPut [1] [7]] ∅) = Some w /\
    callers (client w) = [CDone (CallPut [1] [7]) (toyUuid 0) (Ok ReplyDone)] /\
    actualStorage (service w) = <[[1] := [7]]> ∅ /\ pending (client w) = ∅.
Proof.
  eapply (remote_call_returns toyErrorString toyUuid) with (r := Ok ReplyDone).
  - by intros [].
  - reflexivity.
  - intros resp. by eexists.
  - reflexivity.
  - done.
  - done.
Defined.
