(* ===== verification/Wire.v ===== *)
(** * Messages on the wire

    Models [pkg/network/config.go] and the byte level of the two I/O loops of
    [pkg/network/connection.go]: [writeLoop] puts the length of each message, a
    little-endian [uint64], before its encoding; [readLoop] cuts the stream back
    into messages, within the configured limit.

    A TCP connection delivers the bytes written, in order, up to the point where
    it breaks; how they are split into packets does not show through
    [io.ReadFull] and [io.CopyN].  The [select] that hands a request over is
    resolved by a schedule. *)

From S2P Require Import Prelude Binary TrieEncoding TrieNode Instances AccountState BatchStore Message.

Local Open Scope Z_scope.

(** ** [Config] *)

(** Durations are nanoseconds. *)
Record Config := mkConfig {
  MaxMessageLength : Z;
  RequestChanSize : Z;
  ErrorChanSize : Z;
  WriteTimeout : Z;
  RequestChanWaitTimeout : Z;
  DialTimeout : Z;
  RetryParentInterval : Z;
  HandlerWorkerPoolSize : Z;
  SendChanSize : Z
}.

Definition second : Z := 1000000000.

Definition DefaultConfig (numCPU : Z) : Config :=
  let numWorkers :=
    if numCPU <? 4 then 8
    else if numCPU <? 8 then 16
    else if numCPU <? 16 then 32
    else let n := 124 in if n >? 256 then 256 else n in
  let requestQueueSize := numWorkers * 10 in
  mkConfig (1024 * 1024 * 1024) requestQueueSize 2000 (10 * second) (30 * second) (10 * second) (5 * second)
    numWorkers 65536.

(** ** Errors that end a reader *)

Definition EOF : GoError := ErrText "EOF".
Definition ErrUnexpectedEOF : GoError := ErrText "unexpected EOF".
Definition ErrExceedMessageLength : GoError := ErrText "error: message exceeds allowed length limit".
Definition ErrUnmarshal : GoError := ErrText "unmarshal error".

(** ** Reading *)

(** One turn of the loop on the bytes received so far: too few of them (with
    the error this is when no more come), an empty message that is skipped, a
    message, or an error that ends the loop. *)
Inductive ReadStep :=
| RMore (e : GoError)
| RSkip (rest : bytes)
| RGot (m : Message) (rest : bytes)
| RFail (e : GoError).

Section Loops.
Context `{NetProto}.

(** [io.ReadFull] answers EOF when nothing could be read and "unexpected EOF"
    inside the length; [io.CopyN] answers EOF, and reads nothing when the
    [int64] of the length is negative. *)
Definition readOne (config : Config) (input : bytes) : ReadStep :=
  if (length input <? 8)%nat then RMore (if (length input =? 0)%nat then EOF else ErrUnexpectedEOF)
  else
    let messageLength := undigits 256 (take 8 input) in
    let rest := drop 8 input in
    if messageLength =? 0 then RSkip rest
    else if messageLength >? MaxMessageLength config then RFail ErrExceedMessageLength
    else
      let n := Z.to_nat (to_int64 messageLength) in
      if (length rest <? n)%nat then RMore EOF
      else
        match unmarshalMessage (take n rest) with
        | None => RFail ErrUnmarshal
        | Some msgProto => RGot (NewMessage (Some msgProto)) (drop n rest)
        end.

(** The three outcomes of handing the request of a message over. *)
Inductive Delivery := Delivered | Dropped | QuitSeen.

(** How the loop ends: with the error it signals, or on the quit signal. *)
Inductive ReadEnd := EndError (e : GoError) | EndQuit.

(** [schedule i] resolves the select for the [i]th message. *)
Fixpoint readLoopFrom (config : Config) (schedule : nat -> Delivery) (fuel : nat) (i : nat) (input : bytes) :
  outcome (list Message * ReadEnd) :=
  match fuel with
  | O => NoFuel
  | S fuel =>
      match readOne config input with
      | RMore e | RFail e => Ok ([], EndError e)
      | RSkip rest => readLoopFrom config schedule fuel i rest
      | RGot m rest =>
          match schedule i with
          | QuitSeen => Ok ([], EndQuit)
          | Dropped => readLoopFrom config schedule fuel (S i) rest
          | Delivered => r ← readLoopFrom config schedule fuel (S i) rest; Ok (m :: r.1, r.2)
          end
      end
  end.

(** The stream of a connection that ends: every turn takes eight bytes at
    least. *)
Definition readLoop (config : Config) (schedule : nat -> Delivery) (input : bytes) : outcome (list Message * ReadEnd) :=
  readLoopFrom config schedule (S (length input)) 0 input.

(** ** Writing *)

(** The bytes that reach the peer.  [room] is the number of bytes the
    connection still takes before a write fails, [None] when it never does; a
    message that does not marshal is skipped. *)
Fixpoint writeLoop (room : option nat) (queue : list Message) : bytes :=
  match queue with
  | [] => []
  | message :: queue =>
      match Msg_Marshal message with
      | Ok b =>
          let f := frame b in
          match room with
          | None => f ++ writeLoop None queue
          | Some r => if (r <? length f)%nat then take r f else f ++ writeLoop (Some (r - length f)%nat) queue
          end
      | _ => writeLoop room queue
      end
  end.

(** ** What is read is what was written *)

(** Messages that can be sent: built by [NewMessage], ASCII text fields, and an
    encoding within the limit. *)
Definition sendable (config : Config) (m : Message) : Prop :=
  exists p b, m = Some p /\ is_Some (pHeader p) /\ asciiMessage p /\ marshalMessage p = Some b /\
    Z.of_nat (length b) <= MaxMessageLength config.

Definition encoding (m : Message) : bytes := match Msg_Marshal m with Ok b => b | _ => [] end.

(** The messages handed over under a schedule, when the stream ends with [e]. *)
Fixpoint deliver (schedule : nat -> Delivery) (i : nat) (ms : list Message) (e : GoError) : list Message * ReadEnd :=
  match ms with
  | [] => ([], EndError e)
  | m :: ms =>
      match schedule i with
      | QuitSeen => ([], EndQuit)
      | Dropped => deliver schedule (S i) ms e
      | Delivered => let r := deliver schedule (S i) ms e in (m :: r.1, r.2)
      end
  end.

(** The number of messages whose frames fit in [room] bytes. *)
Fixpoint fitting (room : option nat) (ms : list Message) : nat :=
  match ms with
  | [] => 0
  | m :: ms =>
      match room with
      | None => S (fitting None ms)
      | Some r => if (r <? length (frame (encoding m)))%nat then 0%nat
                  else S (fitting (Some (r - length (frame (encoding m)))%nat) ms)
      end
  end.

Context `{!NetProtoLaws}.

Lemma frame_len (b : bytes) : Z.of_nat (length b) < 2 ^ 63 ->
  undigits 256 (leBytes 8 (wrap64 (Z.of_nat (length b)))) = Z.of_nat (length b).
Proof.
  intros Hl. rewrite undigits_leBytes. change (256 ^ Z.of_nat 8) with (2 ^ 64).
  rewrite (wrap64_id (Z.of_nat _)) by lia. by rewrite Z.mod_small by lia.
Qed.

(** The length that a stream starting with a frame announces. *)
Lemma readOne_frame config (b rest : bytes) :
  Z.of_nat (length b) < 2 ^ 63 -> b <> [] ->
  readOne config (frame b ++ rest) =
    if Z.of_nat (length b) >? MaxMessageLength config then RFail ErrExceedMessageLength
    else match unmarshalMessage b with None => RFail ErrUnmarshal | Some p => RGot (NewMessage (Some p)) rest end.
Proof.
  intros Hl Hb. unfold readOne. rewrite length_app, length_frame. rewrite (proj2 (Nat.ltb_ge _ _)) by lia.
  unfold frame. rewrite <- !app_assoc. rewrite take_app_length', drop_app_length' by (by rewrite length_leBytes).
  rewrite frame_len by done. assert (0 < length b)%nat by (destruct b; [done|simpl; lia]).
  rewrite (proj2 (Z.eqb_neq _ _)) by lia. destruct (_ >? _); [done|].
  rewrite to_int64_id, Nat2Z.id by lia. rewrite length_app, (proj2 (Nat.ltb_ge _ _)) by lia.
  by rewrite take_app_length, drop_app_length.
Qed.

Lemma readOne_torn config (b : bytes) cut :
  Z.of_nat (length b) < 2 ^ 63 -> b <> [] -> Z.of_nat (length b) <= MaxMessageLength config ->
  (cut < length (frame b))%nat -> exists e, readOne config (take cut (frame b)) = RMore e.
Proof.
  intros Hl Hb Hm Hc. unfold readOne. pose proof (length_frame b) as Lf.
  assert (Lt : length (take cut (frame b)) = cut) by (rewrite length_take; lia). rewrite Lt.
  destruct (Nat.ltb_spec cut 8); [by eexists|]. rewrite take_take, Nat.min_l by lia.
  replace (undigits 256 (take 8 (frame b))) with (Z.of_nat (length b))
    by (unfold frame; rewrite take_app_length' by (by rewrite length_leBytes); by rewrite frame_len).
  assert (0 < length b)%nat by (destruct b; [done|simpl; lia]).
  rewrite (proj2 (Z.eqb_neq _ _)) by lia. rewrite Z.gtb_ltb, (proj2 (Z.ltb_ge _ _)) by lia.
  rewrite to_int64_id, Nat2Z.id, length_drop, Lt, (proj2 (Nat.ltb_lt _ _)) by lia. by eexists.
Qed.

Lemma sendable_encoding config m : MaxMessageLength config < 2 ^ 63 -> sendable config m ->
  Msg_Marshal m = Ok (encoding m) /\ encoding m <> [] /\ Z.of_nat (length (encoding m)) < 2 ^ 63 /\
  Z.of_nat (length (encoding m)) <= MaxMessageLength config /\
  exists p, unmarshalMessage (encoding m) = Some p /\ NewMessage (Some p) = m.
Proof.
  intros Hmax (p & b & -> & Hh & Ha & Hb & Hl). unfold encoding, Msg_Marshal. rewrite Hb. split_and!; [done| |lia|lia|].
  - by eapply message_nonempty.
  - destruct (message_codec p Ha) as (b' & Hb' & Hu). exists p. assert (b' = b) as -> by congruence.
    split; [done|]. unfold NewMessage. destruct Hh as [h ->]. done.
Qed.

(** Every turn that does not end the loop takes eight bytes. *)
Lemma readOne_shrinks config input rest :
  (readOne config input = RSkip rest \/ exists m, readOne config input = RGot m rest) ->
  (length rest + 8 <= length input)%nat.
Proof.
  unfold readOne. destruct (Nat.ltb_spec (length input) 8); [by intros [?|[? ?]]|].
  destruct (_ =? 0).
  - intros [[= <-]|[? ?]]; [|done]. rewrite length_drop. lia.
  - destruct (_ >? _); [by intros [?|[? ?]]|]. destruct (length (drop 8 input) <? _)%nat; [by intros [?|[? ?]]|].
    destruct (unmarshalMessage _); [|by intros [?|[? ?]]]. intros [?|[m [= _ <-]]]; [done|].
    rewrite !length_drop. lia.
Qed.

Lemma readLoopFrom_total config schedule fuel i input :
  (length input < fuel)%nat -> exists r, readLoopFrom config schedule fuel i input = Ok r.
Proof.
  revert i input. induction fuel as [|fuel IH]; intros i input Hf; [lia|]. simpl.
  destruct (readOne config input) as [e|rest|m rest|e] eqn:E; [by eexists| | |by eexists].
  - apply IH. pose proof (readOne_shrinks config input rest (or_introl E)). lia.
  - pose proof (readOne_shrinks config input rest (or_intror (ex_intro _ m E))).
    destruct (schedule i); [|apply IH; lia|by eexists].
    destruct (IH (S i) rest) as [r ->]; [lia|]. by eexists.
Qed.

Definition framesOf (ms : list Message) : bytes := mjoin ((fun m => frame (encoding m)) <$> ms).

(** Whole frames, then bytes on which the next turn ends with [e]. *)
Lemma readLoopFrom_frames config schedule ms tail e fuel i :
  MaxMessageLength config < 2 ^ 63 -> Forall (sendable config) ms ->
  (readOne config tail = RMore e \/ readOne config tail = RFail e) -> (length ms < fuel)%nat ->
  readLoopFrom config schedule fuel i (framesOf ms ++ tail) = Ok (deliver schedule i ms e).
Proof.
  intros Hmax Hms Ht. revert fuel i. induction Hms as [|m ms Hm Hms IH]; intros fuel i Hf;
    destruct fuel as [|fuel]; simpl in Hf; [lia| |lia|].
  - simpl. by destruct Ht as [-> | ->].
  - change (framesOf (m :: ms) ++ tail) with ((frame (encoding m) ++ framesOf ms) ++ tail).
    destruct (sendable_encoding config m Hmax Hm) as (_ & Hne & Hl & Hle & p & Hu & Hp).
    cbn [readLoopFrom]. rewrite <- app_assoc, readOne_frame by done.
    rewrite Z.gtb_ltb, (proj2 (Z.ltb_ge _ _)), Hu by lia. rewrite Hp. cbn [deliver].
    destruct (schedule i); [|by apply IH; lia|done]. rewrite IH by lia. done.
Qed.

(** What a broken connection lets through: the frames that fit, and a part of
    the next one. *)
Lemma writeLoop_frames config room ms :
  MaxMessageLength config < 2 ^ 63 -> Forall (sendable config) ms ->
  exists tail e, writeLoop room ms = framesOf (take (fitting room ms) ms) ++ tail /\ readOne config tail = RMore e /\
    (room = None -> tail = []).
Proof.
  intros Hmax Hms. revert room. induction Hms as [|m ms Hm Hms IH]; intros room.
  - exists [], EOF. destruct room; done.
  - destruct (sendable_encoding config m Hmax Hm) as (Hen & Hne & Hl & Hle & _).
    cbn [writeLoop fitting]. rewrite Hen. destruct room as [r|].
    + destruct (Nat.ltb_spec r (length (frame (encoding m)))).
      * destruct (readOne_torn config (encoding m) r) as [e He]; [done..|]. by exists (take r (frame (encoding m))), e.
      * destruct (IH (Some (r - length (frame (encoding m)))%nat)) as (tail & e & -> & He & _). exists tail, e.
        split; [|done]. cbn [take]. by rewrite app_assoc.
    + destruct (IH None) as (tail & e & -> & He & Ht). exists tail, e. split; [|done].
      cbn [take]. by rewrite app_assoc.
Qed.

Lemma length_framesOf ms : (length ms <= length (framesOf ms))%nat.
Proof.
  induction ms as [|m ms IH]; [simpl; lia|]. change (framesOf (m :: ms)) with (frame (encoding m) ++ framesOf ms).
  rewrite length_app, length_frame. simpl. lia.
Qed.

Lemma deliver_all ms i e : deliver (fun _ => Delivered) i ms e = (ms, EndError e).
Proof. revert i. induction ms as [|m ms IH]; intros i; simpl; [done|]. by rewrite IH. Qed.

Lemma deliver_sublist schedule i ms e : (deliver schedule i ms e).1 `sublist_of` ms.
Proof.
  revert i. induction ms as [|m ms IH]; intros i; simpl; [done|].
  destruct (schedule i); simpl; [by constructor|by constructor|apply sublist_nil_l].
Qed.

Lemma fitting_None ms : fitting None ms = length ms.
Proof. induction ms as [|m ms IH]; simpl; [done|by f_equal]. Qed.
End Loops.

(** C33 (roundtrip). Whatever the point at which the connection breaks, and
    however the receiver's selects are resolved, the reader hands over exactly
    what its schedule says of the messages whose frames were written whole, in
    the order sent, never a torn or altered one.  When nothing breaks and
    nothing is dropped, every message arrives and the reader ends with EOF. *)
Theorem wire_roundtrip `{NetProtoLaws} config room schedule (ms : list Message) :
  MaxMessageLength config < 2 ^ 63 -> Forall (sendable config) ms ->
  (exists e, readLoop config schedule (writeLoop room ms) =
    Ok (deliver schedule 0 (take (fitting room ms) ms) e)) /\
  readLoop config (fun _ => Delivered) (writeLoop None ms) = Ok (ms, EndError EOF).
Proof.
  intros Hmax Hms. split.
  - destruct (writeLoop_frames config room ms Hmax Hms) as (tail & e & -> & He & _). exists e.
    apply readLoopFrom_frames; [done|by apply Forall_take|by left|].
    rewrite length_app. pose proof (length_framesOf (take (fitting room ms) ms)). lia.
  - destruct (writeLoop_frames config None ms Hmax Hms) as (tail & e & -> & He & Ht).
    rewrite Ht, fitting_None, firstn_all by done. rewrite Ht in He by done. injection He as <-.
    unfold readLoop. rewrite (readLoopFrom_frames _ _ _ _ EOF); [by rewrite deliver_all|done|done|by left|].
    rewrite length_app. pose proof (length_framesOf ms). lia.
Qed.

(** C38 (error). A message longer than the configured limit ends the
    reader with [ErrExceedMessageLength]: the messages before it are handed
    over, nothing after it is, and the loop terminates on every input. *)
Theorem wire_limit `{NetProtoLaws} config schedule (ms : list Message) (big : PbMessage) (b rest : bytes) :
  MaxMessageLength config < 2 ^ 63 -> Forall (sendable config) ms ->
  marshalMessage big = Some b -> MaxMessageLength config < Z.of_nat (length b) < 2 ^ 63 -> 0 <= MaxMessageLength config ->
  readLoop config schedule (writeLoop None ms ++ frame b ++ rest) =
    Ok (deliver schedule 0 ms ErrExceedMessageLength).
Proof.
  intros Hmax Hms Hb Hl Hpos. destruct (writeLoop_frames config None ms Hmax Hms) as (tail & e & -> & He & Ht).
  rewrite Ht, fitting_None, firstn_all, app_nil_r by done.
  apply readLoopFrom_frames; [done|done| |].
  - right. rewrite readOne_frame; [|lia|intros ->; simpl in Hl; lia]. rewrite Z.gtb_ltb. by rewrite (proj2 (Z.ltb_lt _ _)) by lia.
  - rewrite length_app. pose proof (length_framesOf ms). lia.
Qed.

Definition sampleConfig (max : Z) : Config := mkConfig max 4 2 second second second second 2 4.

Definition sampleMessages : list Message :=
  [generateMessage "id-1" (replicate 20 7) "Ping" [] "1"; generateMessage "id-2" (replicate 20 7) "Receipt" [1;2;3] "1";
   generateMessage "id-3" (replicate 20 7) "Ping" [9] "1"].

Lemma sampleMessages_sendable : Forall (sendable (sampleConfig 1000)) sampleMessages.
Proof.
  repeat (apply Forall_cons; split; [eexists _, _; split_and!;
    [reflexivity|by eexists|by apply (bool_decide_unpack _); vm_compute|reflexivity|by vm_compute]|]). apply Forall_nil. exact I.
Qed.

Lemma wire_roundtrip_witness :
  (exists e, readLoop (sampleConfig 1000) (fun i => if (i =? 0)%nat then Dropped else Delivered)
      (writeLoop (Some 110%nat) sampleMessages) =
    Ok (deliver (fun i => if (i =? 0)%nat then Dropped else Delivered) 0
      (take (fitting (Some 110%nat) sampleMessages) sampleMessages) e)) /\
  readLoop (sampleConfig 1000) (fun _ => Delivered) (writeLoop None sampleMessages) = Ok (sampleMessages, EndError EOF).
Proof. apply (wire_roundtrip (sampleConfig 1000)); [by vm_compute|apply sampleMessages_sendable]. Defined.

Lemma wire_limit_witness :
  let big := mkPbMessage (Some emptyHeader) (replicate 1000 5) in
  readLoop (sampleConfig 1000) (fun _ => Delivered)
    (writeLoop None sampleMessages ++ frame (default [] (marshalMessage big)) ++ [1; 2]) =
    Ok (deliver (fun _ => Delivered) 0 sampleMessages ErrExceedMessageLength).
Proof.
  intros big.
  apply (wire_limit (sampleConfig 1000) (fun _ => Delivered) sampleMessages big (default [] (marshalMessage big)) [1; 2]);
    [by vm_compute|apply sampleMessages_sendable|reflexivity|by vm_compute|by vm_compute].
Defined.

(** Three messages, a break after 110 bytes: the first two arrive.  The break
    is inside the third body, and the error is the one of an orderly end. *)
Example wire_cut :
  readLoop (sampleConfig 1000) (fun _ => Delivered) (writeLoop (Some 110%nat) sampleMessages) =
    Ok (take 2 sampleMessages, EndError EOF).
Proof. vm_compute. reflexivity. Qed.

(** An empty frame is skipped: a keep-alive of eight zero bytes is harmless. *)
Example wire_empty_frame :
  readLoop (sampleConfig 1000) (fun _ => Delivered) (replicate 8 0 ++ writeLoop None sampleMessages) =
    Ok (sampleMessages, EndError EOF).
Proof. vm_compute. reflexivity. Qed.
