(* ===== verification/Connection.v ===== *)
(** * A connection and its goroutines

    Models [pkg/network/connection.go].  A connection is a goroutine [run] that
    owns the state and takes commands from [cmdChan] one at a time, a reader and
    a writer goroutine for each TCP connection it was given, and callers of the
    public methods, which read cached fields, queue commands and put messages
    straight into [sendChan].

    - The local variables of [run] are [Locals], the cached fields [Meta], and
      [Connection] is everything the goroutines share.  [startIO] makes the four
      channels of a TCP connection together; a [Session] holds them with the two
      I/O goroutines.  A channel is its buffer and whether it is closed.
    - A public method is a program [prog]: atomic actions on the shared state
      (a critical section of a mutex, a channel operation, a [select]) in the
      order of the code.
    - [exec] performs one step of one goroutine.  An event names the goroutine
      and resolves what is not determined: the outcome of a dial or a write, which
      ready case a [select] takes, whether a timeout has expired.

    A panic is recorded where it happens; the process would end there.  Times are
    nanoseconds. *)

From S2P Require Import Prelude Binary TrieEncoding TrieNode Instances AccountState BatchStore Message Wire.

Local Open Scope Z_scope.

Definition millisecond : Z := 1000000.
Definition postDisconnectGrace : Z := 3 * second.

Definition ErrDisconnected : GoError := ErrText "error: connection is disconnected".

(** A [net.Conn]: its two addresses. *)
Record NetConn := mkNetConn { RemoteAddrOf : string; LocalAddrOf : string }.

#[export] Instance NetConn_eq_dec : EqDecision NetConn.
Proof. solve_decision. Defined.

(** ** Sessions *)

(** Where the reader is: reading, with a request to hand over, with an error to
    signal, finished; or stopped by a send on a closed channel. *)
Inductive Reader := Reading | Delivering (m : Message) | Failing (e : GoError) | ReaderDone | ReaderPanic.
Inductive Writer := Writing | WriterDone.

(** [sAccepted] records every message that was put into [sendChan]. *)
Record Session := mkSession {
  sConn : NetConn;
  sTcpClosed : bool;
  sSend : list Message;
  sSendClosed : bool;
  sRequests : list Message;
  sRequestClosed : bool;
  sErrors : list GoError;
  sErrorClosed : bool;
  sQuit : bool;
  sInput : bytes;
  sOutput : bytes;
  sReader : Reader;
  sWriter : Writer;
  sAccepted : list Message
}.

Definition newSession (conn : NetConn) : Session :=
  mkSession conn false [] false [] false [] false false [] [] Reading Writing [].

Definition withSend (q : list Message) (acc : list Message) (s : Session) : Session :=
  mkSession (sConn s) (sTcpClosed s) q (sSendClosed s) (sRequests s) (sRequestClosed s) (sErrors s) (sErrorClosed s)
    (sQuit s) (sInput s) (sOutput s) (sReader s) (sWriter s) acc.
Definition withWriter (q : list Message) (out : bytes) (w : Writer) (s : Session) : Session :=
  mkSession (sConn s) (sTcpClosed s) q (sSendClosed s) (sRequests s) (sRequestClosed s) (sErrors s) (sErrorClosed s)
    (sQuit s) (sInput s) out (sReader s) w (sAccepted s).
Definition withReader (input : bytes) (reqs : list Message) (errs : list GoError) (r : Reader) (s : Session) : Session :=
  mkSession (sConn s) (sTcpClosed s) (sSend s) (sSendClosed s) reqs (sRequestClosed s) errs (sErrorClosed s)
    (sQuit s) input (sOutput s) r (sWriter s) (sAccepted s).
Definition withIoClosed (s : Session) : Session :=
  mkSession (sConn s) true (sSend s) true (sRequests s) (sRequestClosed s) (sErrors s) (sErrorClosed s)
    true (sInput s) (sOutput s) (sReader s) (sWriter s) (sAccepted s).
Definition withChansClosed (s : Session) : Session :=
  mkSession (sConn s) (sTcpClosed s) (sSend s) (sSendClosed s) (sRequests s) true (sErrors s) true
    (sQuit s) (sInput s) (sOutput s) (sReader s) (sWriter s) (sAccepted s).

(** ** Commands and answers *)

(** The response channel of a command is its number. *)
Inductive Cmd :=
| cmdInit (address : bytes) (cType realConnAddr : string)
| cmdAccept (tcpConn : NetConn)
| cmdConnect (realConnAddr : string) (resp : nat)
| cmdSendMessage (message : Message) (resp : nat)
| cmdDisconnect
| cmdClone (resp : nat)
| getIsConnectRequest (resp : nat)
| getAddressRequest (resp : nat)
| getChannelsRequest (resp : nat)
| getTypeRequest (resp : nat)
| getRemoteAddrRequest (resp : nat)
| getTCPAddrRequest (isLocal : bool) (resp : nat).

#[export] Instance Cmd_eq_dec : EqDecision Cmd.
Proof. solve_decision. Defined.

(** The channels of a session are named by its number; a clone is the new
    connection's address, type and remote address. *)
Inductive Reply :=
| ErrorReply (e : option GoError)
| BoolReply (b : bool)
| AddressReply (a : bytes)
| StringReply (s : string)
| ChannelsReply (session : option nat)
| NetAddrReply (a : option string)
| CloneReply (address : bytes) (cType realConnAddr : string).

(** ** The state *)

(** Where [run] is: at the head of its loop; before [startIO], with the command
    to answer; in [cmdDisconnect] before [sendChan] is cleared, before [cleanup],
    and waiting for the I/O goroutines; ended; or stopped by a panic. *)
Inductive RunPc :=
| PLoop | PStart (resp : option nat) | PClear | PCleanup | PWait | PEnd | PPanic.

Record Locals := mkLocals {
  address : bytes;
  cType : string;
  tcpConn : option NetConn;
  connect : bool;
  realConnAddr : string;
  chans : option nat;
  shutdownTimer : bool
}.

Record Meta := mkMeta {
  cachedAddr : bytes;
  cachedType : string;
  cachedAddrStr : string;
  cachedConnected : bool;
  cachedTcpRemoteAddr : option string;
  cachedTcpLocalAddr : option string;
  metaLastUpdate : Z
}.

(** [cmdSenders] counts the goroutines started to send [cmdDisconnect]. *)
Record Connection := mkConnection {
  locals : Locals;
  pc : RunPc;
  cmdChan : list Cmd;
  cmdSenders : nat;
  sendChan : option nat;
  meta : Meta;
  sessions : list Session;
  replies : gmap nat Reply;
  nextResp : nat;
  clock : Z
}.

Definition cmdChanSize : Z := 1000.

Definition setRun (l : Locals) (p : RunPc) (c : Connection) : Connection :=
  mkConnection l p (cmdChan c) (cmdSenders c) (sendChan c) (meta c) (sessions c) (replies c) (nextResp c) (clock c).
Definition setQueue (q : list Cmd) (c : Connection) : Connection :=
  mkConnection (locals c) (pc c) q (cmdSenders c) (sendChan c) (meta c) (sessions c) (replies c) (nextResp c) (clock c).
Definition setSenders (n : nat) (c : Connection) : Connection :=
  mkConnection (locals c) (pc c) (cmdChan c) n (sendChan c) (meta c) (sessions c) (replies c) (nextResp c) (clock c).
Definition setSendChan (ch : option nat) (c : Connection) : Connection :=
  mkConnection (locals c) (pc c) (cmdChan c) (cmdSenders c) ch (meta c) (sessions c) (replies c) (nextResp c) (clock c).
Definition setMeta (m : Meta) (c : Connection) : Connection :=
  mkConnection (locals c) (pc c) (cmdChan c) (cmdSenders c) (sendChan c) m (sessions c) (replies c) (nextResp c) (clock c).
Definition setSessions (l : list Session) (c : Connection) : Connection :=
  mkConnection (locals c) (pc c) (cmdChan c) (cmdSenders c) (sendChan c) (meta c) l (replies c) (nextResp c) (clock c).
Definition setReplies (r : gmap nat Reply) (n : nat) (c : Connection) : Connection :=
  mkConnection (locals c) (pc c) (cmdChan c) (cmdSenders c) (sendChan c) (meta c) (sessions c) r n (clock c).
Definition setClock (t : Z) (c : Connection) : Connection :=
  mkConnection (locals c) (pc c) (cmdChan c) (cmdSenders c) (sendChan c) (meta c) (sessions c) (replies c) (nextResp c) t.

Definition reply (resp : nat) (r : Reply) (c : Connection) : Connection :=
  setReplies (<[resp := r]> (replies c)) (nextResp c) c.

Definition withTimer (b : bool) (l : Locals) : Locals :=
  mkLocals (address l) (cType l) (tcpConn l) (connect l) (realConnAddr l) (chans l) b.
Definition withConnect (b : bool) (l : Locals) : Locals :=
  mkLocals (address l) (cType l) (tcpConn l) b (realConnAddr l) (chans l) (shutdownTimer l).
Definition withChans (ch : nat) (l : Locals) : Locals :=
  mkLocals (address l) (cType l) (tcpConn l) (connect l) (realConnAddr l) (Some ch) (shutdownTimer l).
Definition withTcp (conn : NetConn) (real : string) (l : Locals) : Locals :=
  mkLocals (address l) (cType l) (Some conn) true real (chans l) (shutdownTimer l).

Definition cacheDisconnected (m : Meta) (now : Z) : Meta :=
  mkMeta (cachedAddr m) (cachedType m) (cachedAddrStr m) false (cachedTcpRemoteAddr m) (cachedTcpLocalAddr m) now.
Definition cacheConnected (conn : NetConn) (real : string) (m : Meta) (now : Z) : Meta :=
  mkMeta (cachedAddr m) (cachedType m) real true (Some (RemoteAddrOf conn)) (Some (LocalAddrOf conn)) now.

(** ** [run] *)

Definition stopShutdownTimer (c : Connection) : Connection := setRun (withTimer false (locals c)) (pc c) c.
Definition startShutdownTimer (c : Connection) : Connection := setRun (withTimer true (locals c)) (pc c) c.

Definition isDisconnect (cmd : Cmd) : bool := match cmd with cmdDisconnect => true | _ => false end.

Definition pushMessage (i : nat) (m : Message) (c : Connection) : Connection :=
  setSessions (alter (fun s => withSend (sSend s ++ [m]) (sAccepted s ++ [m]) s) i (sessions c)) c.

(** The command taken from the channel.  [dial] is the outcome of
    [net.DialTimeout]; [expired] says that the timeout of the select is taken. *)
Definition runCmd (config : Config) (dial : NetConn + GoError) (expired : bool) (cmd : Cmd) (c0 : Connection) : Connection :=
  let c := if isDisconnect cmd then c0 else stopShutdownTimer c0 in
  let l := locals c in
  let now := clock c in
  match cmd with
  | cmdInit a t real =>
      let m := meta c in
      setRun (mkLocals a t (tcpConn l) (connect l) real (chans l) (shutdownTimer l)) PLoop
        (setMeta (mkMeta a t real (cachedConnected m) (cachedTcpRemoteAddr m) (cachedTcpLocalAddr m) now) c)
  | cmdAccept conn =>
      if connect l then c
      else
        let real := RemoteAddrOf conn in
        setRun (withTcp conn real l) (PStart None) (setMeta (cacheConnected conn real (meta c) now) c)
  | cmdConnect real resp =>
      if connect l then reply resp (ErrorReply None) c
      else
        match dial with
        | inr err => reply resp (ErrorReply (Some err)) c
        | inl conn => setRun (withTcp conn real l) (PStart (Some resp)) (setMeta (cacheConnected conn real (meta c) now) c)
        end
  | cmdSendMessage message resp =>
      if negb (connect l) then reply resp (ErrorReply (Some ErrDisconnected)) c
      else
        let room := match chans l ≫= (sessions c !!.) with
                    | Some s => (Z.of_nat (length (sSend s)) <? SendChanSize config) | None => false end in
        if room && negb expired then reply resp (ErrorReply None) (pushMessage (default 0%nat (chans l)) message c)
        else setSenders (S (cmdSenders c)) (reply resp (ErrorReply (Some (ErrText "sendChan timeout"))) c)
  | cmdDisconnect => setRun l PClear (setMeta (cacheDisconnected (meta c) now) c)
  | cmdClone resp => reply resp (CloneReply (address l) (cType l) (realConnAddr l)) c
  | getIsConnectRequest resp => reply resp (BoolReply (connect l)) c
  | getAddressRequest resp => reply resp (AddressReply (address l)) c
  | getChannelsRequest resp => reply resp (ChannelsReply (chans l)) c
  | getTypeRequest resp => reply resp (StringReply (cType l)) c
  | getRemoteAddrRequest resp => reply resp (StringReply (realConnAddr l)) c
  | getTCPAddrRequest isLocal resp =>
      reply resp (NetAddrReply ((fun conn => if isLocal then LocalAddrOf conn else RemoteAddrOf conn) <$> tcpConn l)) c
  end.

(** [startIO]: four new channels, [sendChan] exposed, both goroutines started;
    then the answer to [cmdConnect]. *)
Definition startIO (resp : option nat) (c : Connection) : Connection :=
  match tcpConn (locals c) with
  | None => setRun (locals c) PPanic c
  | Some conn =>
      let ch := length (sessions c) in
      let c' := setRun (withChans ch (locals c)) PLoop
                  (setSendChan (Some ch) (setSessions (sessions c ++ [newSession conn]) c)) in
      match resp with Some id => reply id (ErrorReply None) c' | None => c' end
  end.

(** The first two steps of [cleanup]: quit, the TCP connection and [sendChan]
    are closed; closing a closed channel panics. *)
Definition cleanup (c : Connection) : Connection :=
  let l := locals c in
  if negb (connect l) then setRun (withTimer true l) PLoop c
  else
    let l' := withConnect false l in
    match chans l with
    | None => setRun l' PWait c
    | Some ch =>
        match sessions c !! ch with
        | None => setRun l' PPanic c
        | Some s =>
            if sQuit s || sSendClosed s then setRun l' PPanic c
            else setRun l' PWait (setSessions (<[ch := withIoClosed s]> (sessions c)) c)
        end
    end.

(** Once both goroutines have finished, the channels downstream are closed and
    the timer is started. *)
Definition cleanupDone (c : Connection) : option Connection :=
  let l := withTimer true (locals c) in
  match chans l with
  | None => Some (setRun l PLoop c)
  | Some ch =>
      match sessions c !! ch with
      | None => Some (setRun l PPanic c)
      | Some s =>
          match sReader s, sWriter s with
          | ReaderDone, WriterDone =>
              if sRequestClosed s || sErrorClosed s then Some (setRun l PPanic c)
              else Some (setRun l PLoop (setSessions (<[ch := withChansClosed s]> (sessions c)) c))
          | _, _ => None
          end
      end
  end.

(** One step of [run]. *)
Definition runStep (config : Config) (dial : NetConn + GoError) (expired : bool) (c : Connection) : option Connection :=
  match pc c with
  | PLoop => match cmdChan c with [] => None | cmd :: q => Some (runCmd config dial expired cmd (setQueue q c)) end
  | PStart resp => Some (startIO resp c)
  | PClear => Some (setRun (locals c) PCleanup (setSendChan None c))
  | PCleanup => Some (cleanup c)
  | PWait => cleanupDone c
  | PEnd | PPanic => None
  end.

(** The timer fires while [run] waits for a command. *)
Definition timerStep (c : Connection) : option Connection :=
  match pc c with
  | PLoop => if shutdownTimer (locals c) then Some (setRun (withTimer false (locals c)) PEnd c) else None
  | _ => None
  end.

(** ** The I/O goroutines *)

Section IO.
Context `{NetProto}.

(** How the select of the reader is resolved; [PickFail] is a read that fails
    although this side is open: the end of the stream, a reset. *)
Inductive Pick := PickSend | PickQuit | PickTimeout | PickFail (e : GoError).

Definition readerStep (config : Config) (pick : Pick) (s : Session) : option Session :=
  match sReader s with
  | Reading =>
      match readOne config (sInput s) with
      | RMore e =>
          match pick with
          | PickFail e' => Some (withReader [] (sRequests s) (sErrors s) (Failing e') s)
          | _ => if sTcpClosed s then Some (withReader [] (sRequests s) (sErrors s) (Failing e) s) else None
          end
      | RSkip rest => Some (withReader rest (sRequests s) (sErrors s) Reading s)
      | RGot m rest => Some (withReader rest (sRequests s) (sErrors s) (Delivering m) s)
      | RFail e => Some (withReader (sInput s) (sRequests s) (sErrors s) (Failing e) s)
      end
  | Delivering m =>
      match pick with
      | PickSend =>
          if sRequestClosed s then Some (withReader (sInput s) (sRequests s) (sErrors s) ReaderPanic s)
          else if Z.of_nat (length (sRequests s)) <? RequestChanSize config
          then Some (withReader (sInput s) (sRequests s ++ [m]) (sErrors s) Reading s) else None
      | PickQuit => if sQuit s then Some (withReader (sInput s) (sRequests s) (sErrors s) ReaderDone s) else None
      | PickTimeout => Some (withReader (sInput s) (sRequests s) (sErrors s) Reading s)
      | PickFail _ => None
      end
  | Failing e =>
      let room := Z.of_nat (length (sErrors s)) <? ErrorChanSize config in
      match pick with
      | PickSend =>
          if sErrorClosed s then Some (withReader (sInput s) (sRequests s) (sErrors s) ReaderPanic s)
          else if room then Some (withReader (sInput s) (sRequests s) (sErrors s ++ [e]) ReaderDone s) else None
      | PickQuit => if sQuit s then Some (withReader (sInput s) (sRequests s) (sErrors s) ReaderDone s) else None
      | PickTimeout =>
          if room || sErrorClosed s || sQuit s then None
          else Some (withReader (sInput s) (sRequests s) (sErrors s) ReaderDone s)
      | PickFail _ => None
      end
  | ReaderDone | ReaderPanic => None
  end.

(** [cut] is the number of bytes that still go out when the write fails. *)
Definition writerStep (cut : option nat) (s : Session) : option Session :=
  match sWriter s with
  | WriterDone => None
  | Writing =>
      match sSend s with
      | [] => if sSendClosed s then Some (withWriter [] (sOutput s) WriterDone s) else None
      | m :: q =>
          match Msg_Marshal m with
          | Ok b =>
              match cut with
              | None => if sTcpClosed s then None else Some (withWriter q (sOutput s ++ frame b) Writing s)
              | Some n => if (n <? length (frame b))%nat
                          then Some (withWriter q (sOutput s ++ take n (frame b)) WriterDone s) else None
              end
          | _ => Some (withWriter q (sOutput s) Writing s)
          end
      end
  end.
End IO.

(** ** The callers *)

(** How a command is put into [cmdChan]: block until there is room, give up when
    it is full, or give up after a timeout. *)
Inductive SendMode := SendBlocking | SendDefault | SendTimed.

(** What a caller does in one step. *)
Inductive action : Type -> Type :=
| AMeta : action (Meta * Z)
| AUpdate (f : Meta -> Z -> Meta) : action unit
| ASendChan : action (option nat)
| ASend (ch : nat) (m : Message) : action bool
| ACommand (mode : SendMode) (cmd : Cmd) : action bool
| ARequest (mode : SendMode) (mk : nat -> Cmd) : action (option nat)
| AAwait (timed : bool) (resp : nat) : action (option Reply)
| AGoDisconnect : action unit.

Inductive prog (A : Type) : Type :=
| Ret (a : A)
| Act (X : Type) (act : action X) (k : X -> prog A)
| Go (p : prog unit) (k : prog A)
| Crash.
Arguments Ret {A} a.
Arguments Act {A X} act k.
Arguments Go {A} p k.
Arguments Crash {A}.

Fixpoint progBind {A B} (p : prog A) (f : A -> prog B) : prog B :=
  match p with
  | Ret a => f a
  | Act act k => Act act (fun x => progBind (k x) f)
  | Go q k => Go q (progBind k f)
  | Crash => Crash
  end.

Notation "x <- p ;; q" := (progBind p (fun x => q)) (at level 100, p at next level, right associativity, only parsing) : go_scope.
Definition act {X} (a : action X) : prog X := Act a Ret.
Local Open Scope go_scope.

(** *** Getters *)

Definition refreshConnected : prog unit :=
  id <- act (ARequest SendDefault getIsConnectRequest) ;;
  match id with
  | None => Ret tt
  | Some id =>
      r <- act (AAwait true id) ;;
      match r with
      | Some (BoolReply b) =>
          act (AUpdate (fun m now =>
            if now - metaLastUpdate m >? 500 * millisecond
            then mkMeta (cachedAddr m) (cachedType m) (cachedAddrStr m) b (cachedTcpRemoteAddr m) (cachedTcpLocalAddr m) now
            else m))
      | _ => Ret tt
      end
  end.

Definition IsConnect : prog bool :=
  r <- act AMeta ;;
  let '(m, now) := r in
  if now - metaLastUpdate m >? 500 * millisecond
  then Go refreshConnected (Ret (cachedConnected m))
  else Ret (cachedConnected m).

Definition Address : prog bytes :=
  r <- act AMeta ;;
  let '(m, now) := r in
  if now - metaLastUpdate m <? 100 * millisecond then Ret (cachedAddr m)
  else
    id <- act (ARequest SendDefault getAddressRequest) ;;
    match id with
    | None => Ret (cachedAddr m)
    | Some id =>
        r <- act (AAwait true id) ;;
        match r with
        | Some (AddressReply a) =>
            _ <- act (AUpdate (fun m now =>
              if now - metaLastUpdate m >=? 100 * millisecond
              then mkMeta a (cachedType m) (cachedAddrStr m) (cachedConnected m) (cachedTcpRemoteAddr m)
                     (cachedTcpLocalAddr m) now
              else m)) ;;
            Ret a
        | _ => Ret (cachedAddr m)
        end
    end.

(** [RemoteAddrSafe] and [Type]: the cached text unless it is empty, else the
    answer of [run], which is then cached; the empty text on a full channel or a
    timeout. *)
Definition cachedText (get : Meta -> string) (set : string -> Meta -> Meta) (request : nat -> Cmd) : prog string :=
  r <- act AMeta ;;
  if negb (bool_decide (get r.1 = ""%string)) then Ret (get r.1)
  else
    id <- act (ARequest SendDefault request) ;;
    match id with
    | None => Ret (get r.1)
    | Some id =>
        a <- act (AAwait true id) ;;
        match a with
        | Some (StringReply s) => _ <- act (AUpdate (fun m _ => set s m)) ;; Ret s
        | _ => Ret (get r.1)
        end
    end.

Definition setAddrStr (s : string) (m : Meta) : Meta :=
  mkMeta (cachedAddr m) (cachedType m) s (cachedConnected m) (cachedTcpRemoteAddr m) (cachedTcpLocalAddr m) (metaLastUpdate m).
Definition setType (s : string) (m : Meta) : Meta :=
  mkMeta (cachedAddr m) s (cachedAddrStr m) (cachedConnected m) (cachedTcpRemoteAddr m) (cachedTcpLocalAddr m) (metaLastUpdate m).
Definition setTcpAddr (isLocal : bool) (a : option string) (m : Meta) : Meta :=
  mkMeta (cachedAddr m) (cachedType m) (cachedAddrStr m) (cachedConnected m)
    (if isLocal then cachedTcpRemoteAddr m else a) (if isLocal then a else cachedTcpLocalAddr m) (metaLastUpdate m).

Definition RemoteAddrSafe : prog string := cachedText cachedAddrStr setAddrStr getRemoteAddrRequest.
Definition Type_ : prog string := cachedText cachedType setType getTypeRequest.
Definition RemoteAddr : prog string := RemoteAddrSafe.

Definition ConnectionAddress : prog (string + GoError) :=
  addr <- RemoteAddrSafe ;;
  if bool_decide (addr = ""%string) then Ret (inr (ErrText "realConnAddr not set")) else Ret (inl addr).

Definition tcpAddr (isLocal : bool) : prog (option string) :=
  r <- act AMeta ;;
  let cached := if isLocal then cachedTcpLocalAddr r.1 else cachedTcpRemoteAddr r.1 in
  match cached with
  | Some a => Ret (Some a)
  | None =>
      id <- act (ARequest SendDefault (getTCPAddrRequest isLocal)) ;;
      match id with
      | None => Ret None
      | Some id =>
          a <- act (AAwait true id) ;;
          match a with
          | Some (NetAddrReply a) => _ <- act (AUpdate (fun m _ => setTcpAddr isLocal a m)) ;; Ret a
          | _ => Ret None
          end
      end
  end.
Definition TcpLocalAddr : prog (option string) := tcpAddr true.
Definition TcpRemoteAddr : prog (option string) := tcpAddr false.

(** These two wait for [run] without a timeout. *)
Definition RequestChan : prog (option nat) :=
  id <- act (ARequest SendBlocking getChannelsRequest) ;;
  match id with
  | None => Crash
  | Some id =>
      r <- act (AAwait false id) ;;
      match r with Some (ChannelsReply ch) => Ret ch | _ => Crash end
  end.

Definition Clone : prog (bytes * string * string) :=
  id <- act (ARequest SendBlocking cmdClone) ;;
  match id with
  | None => Crash
  | Some id =>
      r <- act (AAwait false id) ;;
      match r with Some (CloneReply a t real) => Ret (a, t, real) | _ => Crash end
  end.

(** *** Setters *)

Definition Init (address : bytes) (cType : string) : prog unit :=
  _ <- act (AUpdate (fun m now =>
    mkMeta address cType (cachedAddrStr m) (cachedConnected m) (cachedTcpRemoteAddr m) (cachedTcpLocalAddr m) now)) ;;
  _ <- act (ACommand SendDefault (cmdInit address cType "")) ;;
  Ret tt.

Definition SetRealConnAddr (realConnAddr : string) : prog unit :=
  address <- Address ;;
  cType <- Type_ ;;
  _ <- act (AUpdate (fun m now =>
    mkMeta (cachedAddr m) (cachedType m) realConnAddr (cachedConnected m) (cachedTcpRemoteAddr m) (cachedTcpLocalAddr m) now)) ;;
  _ <- act (ACommand SendDefault (cmdInit address cType realConnAddr)) ;;
  Ret tt.

(** *** [Connect], [Disconnect], [SendMessage] *)

Definition Connect : prog (option GoError) :=
  addr <- RemoteAddrSafe ;;
  if bool_decide (addr = ""%string) then Ret (Some (ErrText "realConnAddr not set"))
  else
    id <- act (ARequest SendTimed (cmdConnect addr)) ;;
    match id with
    | None => Ret (Some (ErrText "cmdChan full"))
    | Some id =>
        r <- act (AAwait true id) ;;
        match r with
        | Some (ErrorReply e) => Ret e
        | _ => Ret (Some (ErrText "timeout waiting for cmdConnect"))
        end
    end.

Definition Disconnect : prog (option GoError) :=
  _ <- act (ACommand SendDefault cmdDisconnect) ;; Ret None.

(** [n] attempts remain. *)
Fixpoint sendAttempts (n : nat) (message : Message) : prog (option GoError) :=
  match n with
  | O => Ret (Some ErrDisconnected)
  | S n =>
      sendChan <- act ASendChan ;;
      match sendChan with
      | None =>
          match n with
          | S _ => sendAttempts n message
          | O => _ <- act (AUpdate cacheDisconnected) ;; Ret (Some ErrDisconnected)
          end
      | Some ch =>
          sent <- act (ASend ch message) ;;
          if (sent : bool) then Ret None
          else
            match n with
            | S _ => sendAttempts n message
            | O =>
                _ <- act (AUpdate cacheDisconnected) ;;
                _ <- act AGoDisconnect ;;
                Ret (Some (ErrText "sendChan timeout"))
            end
      end
  end.

Definition maxRetries : nat := 3.

Definition Conn_SendMessage (message : Message) : prog (option GoError) :=
  connected <- IsConnect ;;
  if (connected : bool) then sendAttempts maxRetries message else Ret (Some ErrDisconnected).

Definition ReadRequest : prog unit := Ret tt.

(** [String]: the fields it prints. *)
Definition Conn_String : prog (bytes * string * string * bool) :=
  addr <- Address ;; cType <- Type_ ;; connAddr <- RemoteAddrSafe ;; isConnect <- IsConnect ;;
  Ret (addr, cType, connAddr, isConnect).

(** ** Actions on the state *)

Definition enqueue (cmd : Cmd) (c : Connection) : Connection := setQueue (cmdChan c ++ [cmd]) c.
Definition cmdRoom (c : Connection) : bool := (Z.of_nat (length (cmdChan c)) <? cmdChanSize).

(** [Some None] is a panic; [None] an action that cannot be taken now. *)
Definition doAction {X} (config : Config) (expired : bool) (a : action X) (c : Connection) : option (option (X * Connection)) :=
  match a in action X return option (option (X * Connection)) with
  | AMeta => Some (Some ((meta c, clock c), c))
  | AUpdate f => Some (Some (tt, setMeta (f (meta c) (clock c)) c))
  | ASendChan => Some (Some (sendChan c, c))
  | ASend ch m =>
      match sessions c !! ch with
      | None => None
      | Some s =>
          if expired then Some (Some (false, c))
          else if sSendClosed s then Some None
          else if Z.of_nat (length (sSend s)) <? SendChanSize config then Some (Some (true, pushMessage ch m c))
          else None
      end
  | ACommand mode cmd =>
      if cmdRoom c then Some (Some (true, enqueue cmd c))
      else match mode with
           | SendDefault => Some (Some (false, c))
           | SendTimed => if expired then Some (Some (false, c)) else None
           | SendBlocking => None
           end
  | ARequest mode mk =>
      if cmdRoom c then Some (Some (Some (nextResp c), enqueue (mk (nextResp c)) (setReplies (replies c) (S (nextResp c)) c)))
      else match mode with
           | SendDefault => Some (Some (None, c))
           | SendTimed => if expired then Some (Some (None, c)) else None
           | SendBlocking => None
           end
  | AAwait timed resp =>
      if timed && expired then Some (Some (None, c))
      else match replies c !! resp with
           | Some r => Some (Some (Some r, setReplies (delete resp (replies c)) (nextResp c) c))
           | None => None
           end
  | AGoDisconnect => Some (Some (tt, setSenders (S (cmdSenders c)) c))
  end.

(** ** The system *)

(** The result of a caller, whatever the method. *)
Inductive Result :=
| ResUnit | ResBool (b : bool) | ResError (e : option GoError) | ResBytes (b : bytes) | ResString (s : string)
| ResAddr (a : option string) | ResChans (ch : option nat) | ResClone (a : bytes) (t real : string).

Record System := mkSystem { conn : Connection; callers : list (prog Result) }.

Definition callerStep (config : Config) (expired : bool) (i : nat) (s : System) : option System :=
  p ← callers s !! i;
  match p with
  | Ret _ | Crash => None
  | Go q k => Some (mkSystem (conn s) (<[i := k]> (callers s) ++ [progBind q (fun _ => Ret ResUnit)]))
  | Act a k =>
      match doAction config expired a (conn s) with
      | None => None
      | Some None => Some (mkSystem (conn s) (<[i := Crash]> (callers s)))
      | Some (Some (x, c')) => Some (mkSystem c' (<[i := k x]> (callers s)))
      end
  end.

Inductive Event :=
| ERun (dial : NetConn + GoError) (expired : bool)
| ETimer
| EReader (i : nat) (pick : Pick)
| EWriter (i : nat) (cut : option nat)
| ESender
| EArrive (i : nat) (b : bytes)
| ETakeRequest (i : nat)
| ETakeError (i : nat)
| ECaller (i : nat) (expired : bool)
| ECall (p : prog Result)
| ETick (d : N).

Definition onSession (i : nat) (f : Session -> option Session) (c : Connection) : option Connection :=
  s ← sessions c !! i; s' ← f s; Some (setSessions (<[i := s']> (sessions c)) c).

Definition onConn (f : Connection -> option Connection) (s : System) : option System :=
  c' ← f (conn s); Some (mkSystem c' (callers s)).

(** Bytes arrive while the TCP connection is open. *)
Definition arrive (b : bytes) (s : Session) : option Session :=
  if sTcpClosed s then None
  else match sReader s with
       | ReaderDone | ReaderPanic => None
       | _ => Some (withReader (sInput s ++ b) (sRequests s) (sErrors s) (sReader s) s)
       end.

Definition takeRequest (s : Session) : option Session :=
  match sRequests s with [] => None | _ :: q => Some (withReader (sInput s) q (sErrors s) (sReader s) s) end.
Definition takeError (s : Session) : option Session :=
  match sErrors s with [] => None | _ :: q => Some (withReader (sInput s) (sRequests s) q (sReader s) s) end.

Definition senderStep (c : Connection) : option Connection :=
  match cmdSenders c with
  | O => None
  | S n => if cmdRoom c then Some (enqueue cmdDisconnect (setSenders n c)) else None
  end.

Definition exec `{NetProto} (config : Config) (e : Event) (s : System) : option System :=
  match e with
  | ERun dial expired => onConn (runStep config dial expired) s
  | ETimer => onConn timerStep s
  | EReader i pick => onConn (onSession i (readerStep config pick)) s
  | EWriter i cut => onConn (onSession i (writerStep cut)) s
  | ESender => onConn senderStep s
  | EArrive i b => onConn (onSession i (arrive b)) s
  | ETakeRequest i => onConn (onSession i takeRequest) s
  | ETakeError i => onConn (onSession i takeError) s
  | ECaller i expired => callerStep config expired i s
  | ECall p => Some (mkSystem (conn s) (callers s ++ [p]))
  | ETick d => onConn (fun c => Some (setClock (clock c + Z.of_N d) c)) s
  end.

Fixpoint execs `{NetProto} (config : Config) (es : list Event) (s : System) : option System :=
  match es with
  | [] => Some s
  | e :: es => s' ← exec config e s; execs config es s'
  end.

(** ** Construction *)

(** [newConnectionBase], with [run] started. *)
Definition newConnectionBase (now : Z) : Connection :=
  mkConnection (mkLocals zeroAddress "" None false "" None false) PLoop [] 0 None
    (mkMeta zeroAddress "" "" false None None now) [] ∅ 0 now.

(** [NewConnection] calls [Init]. *)
Definition NewConnection (now : Z) (address : bytes) (cType : string) : System :=
  mkSystem
    (enqueue (cmdInit address cType "")
       (setMeta (mkMeta address cType "" false None None now) (newConnectionBase now))) [].

Definition ConnectionFromTcpConnection (now : Z) (tcpConn : option NetConn) : outcome System :=
  match tcpConn with
  | None => Err (ErrText "tcpConn nil")
  | Some conn => Ok (mkSystem (enqueue (cmdAccept conn) (newConnectionBase now)) [])
  end.

(** The new connection of [cmdClone]: [NewConnection], then [SetRealConnAddr],
    which finds the address and the type in the cache (an empty type is asked
    for, and answered with the empty type). *)
Definition cloneConnection (now : Z) (address : bytes) (cType realConnAddr : string) : System :=
  let s := NewConnection now address cType in
  let m := meta (conn s) in
  mkSystem (enqueue (cmdInit address cType realConnAddr)
    (setMeta (mkMeta (cachedAddr m) (cachedType m) realConnAddr false None None now) (conn s))) [].
