(* ===== verification/ConnectionTheorems.v ===== *)
(** * What a connection guarantees

    The invariant of the goroutine [run] and of its sessions under every
    interleaving, the end of a disconnected connection, the order of the bytes on
    the wire, and the races that the code leaves open. *)

From S2P Require Import Prelude Binary TrieEncoding TrieNode Instances AccountState BatchStore Message Wire Connection.

Local Open Scope Z_scope.

(** ** The invariant *)

(** A session in use, one being closed, and one that is over. *)
Definition live (s : Session) : Prop :=
  sTcpClosed s = false /\ sSendClosed s = false /\ sQuit s = false /\ sRequestClosed s = false /\ sErrorClosed s = false /\
  sReader s <> ReaderPanic.
Definition closing (s : Session) : Prop :=
  sTcpClosed s = true /\ sSendClosed s = true /\ sQuit s = true /\ sRequestClosed s = false /\ sErrorClosed s = false /\
  sReader s <> ReaderPanic.
Definition dead (s : Session) : Prop :=
  sTcpClosed s = true /\ sSendClosed s = true /\ sQuit s = true /\ sRequestClosed s = true /\ sErrorClosed s = true /\
  sReader s = ReaderDone /\ sWriter s = WriterDone.

Definition onlyActive (P : Session -> Prop) (i : nat) (l : list Session) : Prop :=
  exists s, l !! i = Some s /\ P s /\ forall j s', j <> i -> l !! j = Some s' -> dead s'.

Definition connectedOk (c : Connection) : Prop :=
  is_Some (tcpConn (locals c)) /\ shutdownTimer (locals c) = false /\
  exists i, chans (locals c) = Some i /\ sendChan c = Some i /\ onlyActive live i (sessions c).

Definition Inv (c : Connection) : Prop :=
  match pc c with
  | PLoop | PClear =>
      if connect (locals c) then connectedOk c else sendChan c = None /\ Forall dead (sessions c)
  | PStart _ =>
      connect (locals c) = true /\ is_Some (tcpConn (locals c)) /\ shutdownTimer (locals c) = false /\
      sendChan c = None /\ Forall dead (sessions c)
  | PCleanup =>
      sendChan c = None /\
      if connect (locals c) then exists i, chans (locals c) = Some i /\ onlyActive live i (sessions c)
      else Forall dead (sessions c)
  | PWait =>
      sendChan c = None /\ connect (locals c) = false /\
      exists i, chans (locals c) = Some i /\ onlyActive closing i (sessions c)
  | PEnd => sendChan c = None /\ connect (locals c) = false /\ Forall dead (sessions c)
  | PPanic => False
  end.

(** A step of an I/O goroutine or of a caller keeps the status of its session. *)
Definition keeps (s s' : Session) : Prop :=
  (live s -> live s') /\ (closing s -> closing s') /\ (dead s -> dead s').

Lemma onlyActive_insert (P : Session -> Prop) i l j s s' :
  onlyActive P i l -> l !! j = Some s -> (P s -> P s') -> (dead s -> dead s') -> onlyActive P i (<[j := s']> l).
Proof.
  intros (a & Ha & HP & Hd) Hj HPs Hds. destruct (decide (i = j)) as [->|N].
  - exists s'. rewrite list_lookup_insert_eq by (by eapply lookup_lt_Some). split_and!; [done|apply HPs; congruence|].
    intros k b Hk. rewrite list_lookup_insert_ne by done. by apply Hd.
  - exists a. rewrite list_lookup_insert_ne by done. split_and!; [done..|]. intros k b Hk.
    destruct (decide (k = j)) as [->|Nk].
    + rewrite list_lookup_insert_eq by (by eapply lookup_lt_Some). intros [= <-]. eauto.
    + rewrite list_lookup_insert_ne by done. by apply Hd.
Qed.

Lemma allDead_insert l j s s' : Forall dead l -> l !! j = Some s -> (dead s -> dead s') -> Forall dead (<[j := s']> l).
Proof. intros Hl Hj Hd. apply Forall_insert; [done|]. apply Hd. by eapply Forall_lookup_1. Qed.

Lemma inv_session c i s s' :
  Inv c -> sessions c !! i = Some s -> keeps s s' -> Inv (setSessions (<[i := s']> (sessions c)) c).
Proof.
  intros HI Hi (Kl & Kc & Kd). unfold Inv, connectedOk in *. cbn [setSessions pc locals sendChan sessions].
  destruct (pc c); try destruct (connect (locals c)); try done;
    naive_solver eauto using onlyActive_insert, allDead_insert.
Qed.

Lemma onlyActive_snoc l s : Forall dead l -> live s -> onlyActive live (length l) (l ++ [s]).
Proof.
  intros Hl Hs. exists s. rewrite lookup_app_r, Nat.sub_diag by lia. split_and!; [done..|].
  intros j s' Hj Hl'. apply lookup_snoc_Some in Hl' as [[Hlt Hl']|[-> _]]; [|done]. by eapply Forall_lookup_1.
Qed.

Lemma onlyActive_close l i s (P : Session -> Prop) s' :
  onlyActive P i l -> l !! i = Some s -> dead s' -> Forall dead (<[i := s']> l).
Proof.
  intros (a & Ha & _ & Hd) Hi Hs'. apply Forall_lookup_2. intros j b.
  destruct (decide (j = i)) as [->|N].
  - rewrite list_lookup_insert_eq by (by eapply lookup_lt_Some). by intros [= <-].
  - rewrite list_lookup_insert_ne by done. by apply Hd.
Qed.

(** *** The steps of [run] *)

Lemma pushMessage_keeps m s : keeps s (withSend (sSend s ++ [m]) (sAccepted s ++ [m]) s).
Proof. by split_and!. Qed.

Lemma alter_Some {A} (f : A -> A) (l : list A) i x : l !! i = Some x -> alter f i l = <[i := f x]> l.
Proof. intros Hx. rewrite list_insert_alter. apply list_alter_ext; [|done]. intros y Hy. congruence. Qed.
Lemma alter_None {A} (f : A -> A) (l : list A) i : l !! i = None -> alter f i l = l.
Proof.
  intros Hx. rewrite <- (list_alter_id id l i) at 2 by done. apply list_alter_ext; [|done]. intros y Hy. congruence.
Qed.

Lemma inv_push c i m : Inv c -> Inv (pushMessage i m c).
Proof.
  intros HI. unfold pushMessage. destruct (sessions c !! i) as [s|] eqn:E.
  - rewrite (alter_Some _ _ _ _ E). eapply inv_session; [done..|apply pushMessage_keeps].
  - rewrite alter_None by done. by destruct c.
Qed.

(** The parts of the state the invariant does not look at. *)
Lemma inv_reply c id r : Inv c -> Inv (reply id r c).
Proof. done. Qed.

Lemma inv_stop c : Inv c -> pc c = PLoop -> Inv (stopShutdownTimer c).
Proof.
  intros HI Hp. unfold Inv, connectedOk, stopShutdownTimer in *. cbn. rewrite Hp in *. destruct (connect (locals c)); [|done].
  destruct HI as (? & ? & ?). done.
Qed.

Lemma inv_runCmd config dial expired cmd c : Inv c -> pc c = PLoop -> Inv (runCmd config dial expired cmd c).
Proof.
  intros HI Hp. unfold runCmd. destruct (isDisconnect cmd) eqn:Ed.
  { destruct cmd; try done. unfold Inv in *. cbn. by rewrite Hp in HI. }
  pose proof (inv_stop c HI Hp) as HS. pose proof Hp as Hp'. set (d := stopShutdownTimer c) in *.
  assert (Hpd : pc d = PLoop) by done. assert (Ht : shutdownTimer (locals d) = false) by done. clearbody d. clear c HI Hp Hp'.
  destruct cmd; try done; try (by apply inv_reply).
  - unfold Inv, connectedOk in *. cbn. rewrite Hpd in HS. done.
  - destruct (connect (locals d)) eqn:Ec; [done|]. unfold Inv in *. cbn. rewrite Hpd, Ec in HS. naive_solver.
  - destruct (connect (locals d)) eqn:Ec; [done|]. destruct dial as [conn|err]; [|done].
    unfold Inv in *. cbn. rewrite Hpd, Ec in HS. naive_solver.
  - destruct (negb (connect (locals d))); [done|]. destruct (_ && _); [|done]. apply inv_reply. by apply inv_push.
Qed.

Lemma inv_startIO resp c : Inv c -> pc c = PStart resp -> Inv (startIO resp c).
Proof.
  intros HI Hp. unfold Inv in HI. rewrite Hp in HI. destruct HI as (Hc & [conn Ht] & Hs & _ & Hd).
  unfold startIO. rewrite Ht. assert (HI : Inv (setRun (withChans (length (sessions c)) (locals c)) PLoop
    (setSendChan (Some (length (sessions c))) (setSessions (sessions c ++ [newSession conn]) c)))).
  { unfold Inv, connectedOk. cbn. rewrite Hc, Ht. split_and!; [by eexists|done|].
    exists (length (sessions c)). split_and!; [done..|]. by apply onlyActive_snoc. }
  by destruct resp.
Qed.

Lemma inv_cleanup c : Inv c -> pc c = PCleanup -> Inv (cleanup c).
Proof.
  intros HI Hp. unfold Inv in HI. rewrite Hp in HI. destruct HI as (Hs & HI). unfold cleanup.
  destruct (connect (locals c)) eqn:Ec; cbn [negb].
  - destruct HI as (i & Hi & s & Hl & Hlive & Hd). rewrite Hi, Hl. pose proof Hlive as (Ht & Hsc & Hq & Hr & He & Hrd).
    rewrite Hq, Hsc. unfold Inv. cbn. split_and!; [done..|]. exists i. split; [done|].
    exists (withIoClosed s). rewrite list_lookup_insert_eq by (by eapply lookup_lt_Some). split_and!; [done|by split_and!|].
    intros j s' Hj. rewrite list_lookup_insert_ne by done. by apply Hd.
  - unfold Inv. cbn. rewrite Ec. done.
Qed.

Lemma inv_cleanupDone c c' : Inv c -> pc c = PWait -> cleanupDone c = Some c' -> Inv c'.
Proof.
  intros HI Hp. unfold Inv in HI. rewrite Hp in HI. destruct HI as (Hs & Hc & i & Hi & Ha). unfold cleanupDone.
  pose proof Ha as (s & Hl & Hcl & Hd). cbn [withTimer chans]. rewrite Hi, Hl. destruct Hcl as (Ht & Hsc & Hq & Hr & He & _).
  destruct (sReader s) eqn:Er; try done. destruct (sWriter s) eqn:Ew; [done|]. rewrite Hr, He. cbn [orb]. intros [= <-].
  unfold Inv. cbn. rewrite Hc. split; [done|]. eapply onlyActive_close; [done..|]. by split_and!.
Qed.

Lemma inv_runStep config dial expired c c' : Inv c -> runStep config dial expired c = Some c' -> Inv c'.
Proof.
  intros HI. unfold runStep. destruct (pc c) eqn:Hp.
  - destruct (cmdChan c) as [|cmd q]; [done|]. intros [= <-]. by apply inv_runCmd.
  - intros [= <-]. by apply inv_startIO.
  - intros [= <-]. unfold Inv in *. cbn. rewrite Hp in HI. split; [done|]. destruct (connect (locals c)); [|naive_solver].
    destruct HI as (? & ? & i & ? & ? & ?). eauto.
  - intros [= <-]. by apply inv_cleanup.
  - by apply inv_cleanupDone.
  - done.
  - done.
Qed.

Lemma inv_timer c c' : Inv c -> timerStep c = Some c' -> Inv c'.
Proof.
  intros HI. unfold timerStep. destruct (pc c) eqn:Hp; try done. destruct (shutdownTimer (locals c)) eqn:Et; [|done].
  intros [= <-]. unfold Inv, connectedOk in *. cbn. rewrite Hp in HI. destruct (connect (locals c)); [|by destruct HI].
  destruct HI as (_ & ? & _). congruence.
Qed.

(** *** The steps of the other goroutines *)

Section Reach.
Context `{NetProto}.
Context (config : Config).

Ltac session_step :=
  repeat (done || case_match); intros; simplify_eq/=; unfold keeps, live, closing, dead; cbn; naive_solver congruence.

Lemma keeps_reader pick s s' : readerStep config pick s = Some s' -> keeps s s'.
Proof. unfold readerStep. session_step. Qed.

Lemma keeps_writer cut s s' : writerStep cut s = Some s' -> keeps s s'.
Proof. unfold writerStep. session_step. Qed.

Lemma keeps_arrive b s s' : arrive b s = Some s' -> keeps s s'.
Proof. unfold arrive. session_step. Qed.

Lemma keeps_takes s s' : takeRequest s = Some s' \/ takeError s = Some s' -> keeps s s'.
Proof. unfold takeRequest, takeError. intros [E|E]; revert E; session_step. Qed.

Lemma inv_onSession i f c c' :
  Inv c -> (forall s s', f s = Some s' -> keeps s s') -> onSession i f c = Some c' -> Inv c'.
Proof.
  intros HI Hk. unfold onSession. destruct (sessions c !! i) as [s|] eqn:E; [|done]. simpl.
  destruct (f s) as [s'|] eqn:Ef; [|done]. simpl. intros [= <-]. eapply inv_session; eauto.
Qed.

Lemma inv_action {X} expired (a : action X) c x c' :
  Inv c -> doAction config expired a c = Some (Some (x, c')) -> Inv c'.
Proof.
  intros HI. destruct a; simpl; repeat (done || case_match); intros [= <- <-]; try done. by apply inv_push.
Qed.

Lemma inv_exec e s s' : Inv (conn s) -> exec config e s = Some s' -> Inv (conn s').
Proof.
  intros HI. destruct e; cbn [exec]; unfold onConn;
    try (match goal with |- mbind _ ?o = _ -> _ => destruct o as [c'|] eqn:E; [|done] end; simpl; intros [= <-]; cbn [conn]).
  - by eapply inv_runStep.
  - by eapply inv_timer.
  - eapply inv_onSession; [done| |done]. intros. by eapply keeps_reader.
  - eapply inv_onSession; [done| |done]. intros. by eapply keeps_writer.
  - unfold senderStep in E. destruct (cmdSenders (conn s)); [done|]. destruct (cmdRoom _); [|done]. by injection E as <-.
  - eapply inv_onSession; [done| |done]. intros. by eapply keeps_arrive.
  - eapply inv_onSession; [done| |done]. intros. apply keeps_takes. by left.
  - eapply inv_onSession; [done| |done]. intros. apply keeps_takes. by right.
  - unfold callerStep. destruct (callers s !! i) as [[|X a k|q k|]|]; simpl; try done.
    + destruct (doAction config expired a (conn s)) as [[[x c']|]|] eqn:E; [|by intros [= <-]|done].
      intros [= <-]. by eapply inv_action.
    + by intros [= <-].
  - by intros [= <-].
  - by injection E as <-.
Qed.

Lemma inv_execs es s s' : Inv (conn s) -> execs config es s = Some s' -> Inv (conn s').
Proof.
  revert s. induction es as [|e es IH]; intros s HI; simpl; [by intros [= <-]|].
  destruct (exec config e s) as [s1|] eqn:E; [|done]. simpl. apply IH. by eapply inv_exec.
Qed.
End Reach.

(** A connection as its two constructors make it. *)
Definition fresh (s : System) : Prop :=
  (exists now a t, s = NewConnection now a t) \/
  (exists now conn, ConnectionFromTcpConnection now (Some conn) = Ok s) \/
  (exists now a t real, s = cloneConnection now a t real).

Lemma inv_fresh s : fresh s -> Inv (conn s).
Proof.
  intros [(now & a & t & ->)|[(now & cn & [= <-])|(now & a & t & real & ->)]]; unfold Inv; cbn; split; done || constructor.
Qed.

(** C9 (invariant). Under every interleaving of the goroutines and callers of
    a connection: [run] never closes a channel twice and the reader never sends on
    a closed one; at the head of the loop the connection is connected exactly when
    [sendChan] is exposed, and then it is the channel of the current session, open;
    a session other than the current one is over, with its channels closed and its
    goroutines finished. *)
Theorem connection_invariant `{NetProto} config s0 es s :
  fresh s0 -> execs config es s0 = Some s ->
  pc (conn s) <> PPanic /\
  (forall i x, sessions (conn s) !! i = Some x -> sReader x <> ReaderPanic) /\
  (forall ch, sendChan (conn s) = Some ch ->
     chans (locals (conn s)) = Some ch /\ exists x, sessions (conn s) !! ch = Some x /\ live x) /\
  (pc (conn s) = PLoop -> connect (locals (conn s)) = true <-> is_Some (sendChan (conn s))) /\
  (forall i x, sessions (conn s) !! i = Some x -> chans (locals (conn s)) <> Some i -> dead x).
Proof.
  intros Hf Hes. pose proof (inv_execs config es s0 s (inv_fresh s0 Hf) Hes) as HI. clear Hes.
  set (c := conn s) in *. clearbody c. unfold Inv, connectedOk in HI. split_and!.
  - intros Hp. by rewrite Hp in HI.
  - intros i x Hx. assert (Hdr : dead x -> sReader x <> ReaderPanic) by (intros (_ & _ & _ & _ & _ & -> & _); done).
    assert (Hal : Forall dead (sessions c) -> sReader x <> ReaderPanic)
      by (intros Hl; apply Hdr; by eapply Forall_lookup_1).
    assert (Ho : forall P k, (P = live \/ P = closing) -> onlyActive P k (sessions c) -> sReader x <> ReaderPanic).
    { intros P k HP (y & Hy & HPy & Hd). destruct (decide (i = k)) as [->|N]; [|by eapply Hdr, Hd].
      assert (y = x) as -> by congruence. destruct HP as [-> | ->]; apply HPy. }
    destruct (pc c); try destruct (connect (locals c)); naive_solver.
  - intros ch Hch. rewrite Hch in HI.
    destruct (pc c); try destruct (connect (locals c)); try naive_solver;
      destruct HI as (_ & _ & i & Hi & [= <-] & x & Hx & Hl & _); eauto.
  - intros Hp. rewrite Hp in HI. destruct (connect (locals c)).
    + destruct HI as (_ & _ & i & _ & -> & _). split; [by eexists|done].
    + destruct HI as [-> _]. split; [done|by intros [? ?]].
  - intros i x Hx Hn. assert (Hal : Forall dead (sessions c) -> dead x) by (intros; by eapply Forall_lookup_1).
    assert (Ho : forall P k, chans (locals c) = Some k -> onlyActive P k (sessions c) -> dead x).
    { intros P k Hk (y & _ & _ & Hd). eapply (Hd i); [congruence|done]. }
    destruct (pc c); try destruct (connect (locals c)); naive_solver.
Qed.

(** ** Liveness of disconnection *)

Definition internal (e : Event) : bool :=
  match e with ERun _ _ | ETimer | EReader _ _ | EWriter _ _ | ESender => true | _ => false end.

(** Every internal step uses up some of this. *)
Definition cmdWeight (cmd : Cmd) : nat :=
  match cmd with cmdDisconnect => 5 | cmdSendMessage _ _ => 10 | _ => 8 end.
Definition readerWeight (s : Session) : nat :=
  match sReader s with
  | Reading => 2 * length (sInput s) + 2
  | Delivering _ => 2 * length (sInput s) + 3
  | Failing _ => 1
  | _ => 0
  end.
Definition writerWeight (s : Session) : nat := match sWriter s with Writing => S (length (sSend s)) | WriterDone => 0 end.
Definition sessionWeight (s : Session) : nat := readerWeight s + writerWeight s.
Definition pcWeight (p : RunPc) : nat :=
  match p with PLoop => 1 | PStart _ => 5 | PClear => 4 | PCleanup => 3 | PWait => 2 | PEnd | PPanic => 0 end.
Definition weight (c : Connection) : nat :=
  sum_list_with cmdWeight (cmdChan c) + 6 * cmdSenders c + pcWeight (pc c) + sum_list_with sessionWeight (sessions c).

Lemma sum_list_insert {A} (f : A -> nat) (l : list A) i x y :
  l !! i = Some x -> (sum_list_with f (<[i := y]> l) + f x = sum_list_with f l + f y)%nat.
Proof.
  revert i. induction l as [|z l IH]; intros [|i]; simpl; intros E; simplify_eq; [lia|].
  specialize (IH i E). lia.
Qed.

Lemma sum_list_snoc {A} (f : A -> nat) (l : list A) x : sum_list_with f (l ++ [x]) = (sum_list_with f l + f x)%nat.
Proof. rewrite sum_list_with_app. simpl. lia. Qed.

Section Liveness.
Context `{NetProto}.
Context (config : Config).

Lemma weight_reader pick s s' : readerStep config pick s = Some s' -> (sessionWeight s' < sessionWeight s)%nat.
Proof.
  unfold readerStep. destruct (sReader s) as [|m|e| |] eqn:Er; try done.
  - destruct (readOne config (sInput s)) as [e|rest|m rest|e] eqn:E;
      [destruct pick; try (destruct (sTcpClosed s); [|done])|..];
      intros [= <-]; unfold sessionWeight, readerWeight, writerWeight; cbn; rewrite Er; try lia.
    + pose proof (readOne_shrinks config _ _ (or_introl E)). lia.
    + pose proof (readOne_shrinks config _ _ (or_intror (ex_intro _ m E))). lia.
  - destruct pick; repeat case_match; intros [= <-]; unfold sessionWeight, readerWeight, writerWeight; cbn; rewrite Er; lia.
  - destruct pick; repeat case_match; intros [= <-]; unfold sessionWeight, readerWeight, writerWeight; cbn; rewrite Er; lia.
Qed.

Lemma weight_writer cut s s' : writerStep cut s = Some s' -> (sessionWeight s' < sessionWeight s)%nat.
Proof.
  unfold writerStep. destruct (sWriter s) eqn:Ew; [|done].
  destruct (sSend s) as [|m q] eqn:Eq; repeat case_match; intros [= <-];
    unfold sessionWeight, readerWeight, writerWeight; cbn; rewrite Ew, Eq; cbn; lia.
Qed.

Lemma weight_onSession i f c c' :
  (forall s s', f s = Some s' -> (sessionWeight s' < sessionWeight s)%nat) -> onSession i f c = Some c' -> (weight c' < weight c)%nat.
Proof.
  intros Hf. unfold onSession. destruct (sessions c !! i) as [s|] eqn:E; [|done]. simpl.
  destruct (f s) as [s'|] eqn:Ef; [|done]. simpl. intros [= <-]. unfold weight. cbn [setSessions cmdChan cmdSenders pc sessions].
  pose proof (sum_list_insert sessionWeight _ _ _ s' E). specialize (Hf _ _ Ef). lia.
Qed.

Lemma weight_push c i m : (sum_list_with sessionWeight (sessions (pushMessage i m c)) <= 1 + sum_list_with sessionWeight (sessions c))%nat.
Proof.
  unfold pushMessage. cbn [setSessions sessions]. destruct (sessions c !! i) as [s|] eqn:E.
  - rewrite (alter_Some _ _ _ _ E).
    pose proof (sum_list_insert sessionWeight _ _ _ (withSend (sSend s ++ [m]) (sAccepted s ++ [m]) s) E) as Hs.
    assert (sessionWeight (withSend (sSend s ++ [m]) (sAccepted s ++ [m]) s) <= 1 + sessionWeight s)%nat; [|lia].
    unfold sessionWeight, readerWeight, writerWeight. cbn. rewrite length_app. cbn [length].
    destruct (sWriter s); lia.
  - rewrite alter_None by done. lia.
Qed.

Lemma weight_runCmd dial expired cmd c : pc c = PLoop ->
  (weight (runCmd config dial expired cmd c) < cmdWeight cmd + weight c)%nat.
Proof.
  intros Hp. destruct cmd; cbn [runCmd isDisconnect]; cbv zeta; try (unfold weight; cbn; rewrite Hp; cbn; lia).
  - destruct (connect _); unfold weight; cbn; rewrite ?Hp; cbn; lia.
  - destruct (connect _); [|destruct dial]; unfold weight; cbn; rewrite ?Hp; cbn; lia.
  - destruct (negb _); [unfold weight; cbn; rewrite ?Hp; cbn; lia|]. destruct (_ && _).
    + set (i := default _ _). pose proof (weight_push (stopShutdownTimer c) i message) as Hw.
      unfold weight. cbn [reply setReplies sessions cmdChan cmdSenders pc].
      cbn in Hw |- *. rewrite Hp. cbn. lia.
    + unfold weight. cbn. rewrite Hp. cbn. lia.
Qed.

Lemma weight_runStep dial expired c c' : runStep config dial expired c = Some c' -> (weight c' < weight c)%nat.
Proof.
  unfold runStep. destruct (pc c) eqn:Hp; try done.
  - destruct (cmdChan c) as [|cmd q] eqn:Eq; [done|]. intros [= <-].
    pose proof (weight_runCmd dial expired cmd (setQueue q c) Hp) as Hw. unfold weight in Hw |- *.
    cbn [setQueue cmdChan cmdSenders pc sessions] in Hw. rewrite Eq. cbn [sum_list_with]. lia.
  - intros [= <-]. unfold startIO. destruct (tcpConn (locals c)) as [cn|]; [|unfold weight; cbn; rewrite Hp; cbn; lia].
    destruct resp; unfold weight; cbn [reply setReplies setRun setSendChan setSessions cmdChan cmdSenders pc sessions];
      rewrite sum_list_snoc, Hp; cbn; lia.
  - intros [= <-]. unfold weight. cbn. rewrite Hp. cbn. lia.
  - intros [= <-]. unfold cleanup. destruct (negb _); [unfold weight; cbn; rewrite Hp; cbn; lia|].
    destruct (chans (locals c)) as [ch|]; [|unfold weight; cbn; rewrite Hp; cbn; lia].
    destruct (sessions c !! ch) as [x|] eqn:Ex; [|unfold weight; cbn; rewrite Hp; cbn; lia].
    destruct (_ || _); [unfold weight; cbn; rewrite Hp; cbn; lia|].
    unfold weight. cbn [setRun setSessions cmdChan cmdSenders pc sessions].
    pose proof (sum_list_insert sessionWeight _ _ _ (withIoClosed x) Ex) as Hs. rewrite Hp. cbn [pcWeight].
    change (sessionWeight (withIoClosed x)) with (sessionWeight x) in Hs. lia.
  - unfold cleanupDone. cbn [withTimer chans]. destruct (chans (locals c)) as [ch|]; [|intros [= <-]; unfold weight; cbn; rewrite Hp; cbn; lia].
    destruct (sessions c !! ch) as [x|] eqn:Ex; [|intros [= <-]; unfold weight; cbn; rewrite Hp; cbn; lia].
    destruct (sReader x); try done. destruct (sWriter x); [done|].
    destruct (_ || _); intros [= <-]; [unfold weight; cbn; rewrite Hp; cbn; lia|].
    unfold weight. cbn [setRun setSessions cmdChan cmdSenders pc sessions].
    pose proof (sum_list_insert sessionWeight _ _ _ (withChansClosed x) Ex) as Hs. rewrite Hp. cbn [pcWeight].
    change (sessionWeight (withChansClosed x)) with (sessionWeight x) in Hs. lia.
Qed.

Lemma weight_exec e s s' : internal e = true -> exec config e s = Some s' -> (weight (conn s') < weight (conn s))%nat.
Proof.
  intros Hi. destruct e; try done; cbn [exec]; unfold onConn;
    match goal with |- mbind _ ?o = _ -> _ => destruct o as [c'|] eqn:E; [|done] end; simpl; intros [= <-]; cbn [conn].
  - by eapply weight_runStep.
  - unfold timerStep in E. destruct (pc (conn s)) eqn:Hp; try done. destruct (shutdownTimer _); [|done].
    injection E as <-. unfold weight. cbn. rewrite Hp. cbn. lia.
  - eapply weight_onSession; [|done]. intros. by eapply weight_reader.
  - eapply weight_onSession; [|done]. intros. by eapply weight_writer.
  - unfold senderStep in E. destruct (cmdSenders (conn s)) as [|n] eqn:En; [done|]. destruct (cmdRoom _); [|done].
    injection E as <-. unfold weight. cbn [enqueue setQueue setSenders cmdChan cmdSenders pc sessions].
    rewrite sum_list_snoc, En. cbn [cmdWeight]. lia.
Qed.

(** The next commands end with a disconnection, or one is under way. *)
Definition ending (c : Connection) : Prop :=
  match pc c with
  | PEnd => True
  | PClear | PCleanup | PWait => cmdChan c = [] \/ last (cmdChan c) = Some cmdDisconnect
  | PLoop => (cmdChan c = [] /\ shutdownTimer (locals c) = true) \/ last (cmdChan c) = Some cmdDisconnect
  | _ => last (cmdChan c) = Some cmdDisconnect
  end.

Lemma queue_runCmd dial expired cmd c : cmdChan (runCmd config dial expired cmd c) = cmdChan c.
Proof.
  destruct cmd; cbn [runCmd isDisconnect]; cbv zeta; try done; repeat case_match; try done.
Qed.

Lemma pc_runCmd dial expired cmd c : pc c = PLoop -> cmd <> cmdDisconnect ->
  pc (runCmd config dial expired cmd c) = PLoop \/ exists r, pc (runCmd config dial expired cmd c) = PStart r.
Proof.
  intros Hp Hn. destruct cmd; cbn [runCmd isDisconnect]; cbv zeta; try (by left); try done; repeat case_match; eauto.
Qed.

Lemma ending_runStep dial expired c c' : Inv c -> ending c -> runStep config dial expired c = Some c' -> ending c'.
Proof.
  intros HI He. pose proof (inv_runStep config dial expired c) as HI'. unfold ending, runStep in *.
  destruct (pc c) eqn:Hp.
  - destruct (cmdChan c) as [|cmd q] eqn:Eq; [done|]. intros [= <-].
    destruct He as [[? _]|He]; [done|]. rewrite queue_runCmd. cbn [setQueue cmdChan].
    destruct (decide (cmd = cmdDisconnect)) as [->|Hn].
    + cbn. destruct q; [by left|by right].
    + assert (Hq : last q = Some cmdDisconnect) by (destruct q; [by simplify_eq/=|done]).
      destruct (pc_runCmd dial expired cmd (setQueue q c) Hp Hn) as [-> | [r ->]]; [by right|done].
  - intros [= <-]. unfold Inv in HI. rewrite Hp in HI. destruct HI as (_ & [cn Ht] & _). unfold startIO. rewrite Ht.
    destruct resp; cbn; by right.
  - intros [= <-]. cbn. done.
  - intros [= <-]. pose proof (HI' _ HI eq_refl) as HI2. revert HI2. unfold cleanup, Inv.
    destruct (negb _); [cbn; naive_solver|]. destruct (chans (locals c)); [|cbn; done].
    destruct (sessions c !! _); [|done]. destruct (_ || _); [done|]. cbn. done.
  - intros E. pose proof (HI' _ HI E) as HI2. revert E HI2. unfold cleanupDone. cbn [withTimer chans].
    destruct (chans (locals c)) as [ch|]; [|intros [= <-] _; cbn; naive_solver].
    destruct (sessions c !! ch) as [x|]; [|by intros [= <-]]. destruct (sReader x); try done. destruct (sWriter x); [done|].
    destruct (_ || _); intros [= <-]; [done|]. cbn. naive_solver.
  - done.
  - done.
Qed.

Lemma ending_exec e s s' : Inv (conn s) -> ending (conn s) -> internal e = true -> exec config e s = Some s' -> ending (conn s').
Proof.
  intros HI He Hi. destruct e; try done; cbn [exec]; unfold onConn;
    match goal with |- mbind _ ?o = _ -> _ => destruct o as [c'|] eqn:E; [|done] end; simpl; intros [= <-]; cbn [conn].
  - by eapply ending_runStep.
  - unfold timerStep in E. destruct (pc (conn s)); try done. destruct (shutdownTimer _); [|done]. by injection E as <-.
  - unfold onSession in E. destruct (sessions _ !! i) as [x|]; [|done]. simpl in E.
    destruct (readerStep _ _ x); [|done]. by injection E as <-.
  - unfold onSession in E. destruct (sessions _ !! i) as [x|]; [|done]. simpl in E.
    destruct (writerStep _ x); [|done]. by injection E as <-.
  - unfold senderStep in E. destruct (cmdSenders _); [done|]. destruct (cmdRoom _); [|done]. injection E as <-.
    unfold ending in *. cbn. rewrite last_snoc. destruct (pc (conn s)); try naive_solver.
Qed.

(** A session being closed: its goroutines can go on until both have finished. *)
Lemma closing_progress x : closing x ->
  (sReader x = ReaderDone /\ sWriter x = WriterDone) \/
  (exists pick x', readerStep config pick x = Some x') \/ (exists cut x', writerStep cut x = Some x').
Proof.
  intros (Ht & Hs & Hq & Hr & He & Hp). destruct (sReader x) eqn:Er.
  - right; left. exists PickQuit. unfold readerStep. rewrite Er, Ht. destruct (readOne _ _); eauto.
  - right; left. exists PickQuit. unfold readerStep. rewrite Er, Hq. eauto.
  - right; left. exists PickQuit. unfold readerStep. rewrite Er, Hq. eauto.
  - destruct (sWriter x) eqn:Ew; [|by left]. right; right. destruct (sSend x) as [|m q] eqn:Eq.
    + exists None. unfold writerStep. rewrite Ew, Eq, Hs. eauto.
    + exists (Some 0%nat). unfold writerStep. rewrite Ew, Eq. destruct (Msg_Marshal m); eauto.
  - done.
Qed.

Lemma onConn_Some f c cs c' : f c = Some c' -> onConn f (mkSystem c cs) = Some (mkSystem c' cs).
Proof. intros E. unfold onConn. cbn [conn]. by rewrite E. Qed.

Lemma onSession_Some i f c x x' : sessions c !! i = Some x -> f x = Some x' ->
  onSession i f c = Some (setSessions (<[i := x']> (sessions c)) c).
Proof. intros Hx E. unfold onSession. rewrite Hx. cbn. by rewrite E. Qed.

Lemma run_progress c cs : (exists c', runStep config (inr EOF) false c = Some c') ->
  exists e s', internal e = true /\ exec config e (mkSystem c cs) = Some s'.
Proof.
  intros [c' E]. exists (ERun (inr EOF) false), (mkSystem c' cs). split; [done|]. by apply onConn_Some.
Qed.

Lemma ending_progress s : Inv (conn s) -> ending (conn s) ->
  pc (conn s) = PEnd \/ exists e s', internal e = true /\ exec config e s = Some s'.
Proof.
  intros HI He. destruct s as [c cs]. cbn [conn] in *. unfold ending in He.
  destruct (pc c) eqn:Hp; [right| | | | |by left|by (unfold Inv in HI; rewrite Hp in HI)].
  2-4: right; apply run_progress; unfold runStep; rewrite Hp; by eexists.
  - destruct (cmdChan c) as [|cmd q] eqn:Eq.
    + destruct He as [[_ Ht]|?]; [|done]. exists ETimer. eexists. split; [done|]. apply onConn_Some.
      unfold timerStep. by rewrite Hp, Ht.
    + apply run_progress. unfold runStep. rewrite Hp, Eq. by eexists.
  - right. unfold Inv in HI. rewrite Hp in HI. destruct HI as (_ & _ & i & Hi & x & Hx & Hcl & _).
    destruct (closing_progress x Hcl) as [[Hr Hw]|[(pick & x' & Ex)|(cut & x' & Ex)]].
    + apply run_progress. unfold runStep. rewrite Hp. unfold cleanupDone. cbn [withTimer chans].
      rewrite Hi, Hx, Hr, Hw. destruct (_ || _); by eexists.
    + exists (EReader i pick). eexists. split; [done|]. apply onConn_Some. by apply (onSession_Some i _ c x x').
    + exists (EWriter i cut). eexists. split; [done|]. apply onConn_Some. by apply (onSession_Some i _ c x x').
Qed.

Lemma internal_run es s s' : Inv (conn s) -> ending (conn s) -> forallb internal es = true -> execs config es s = Some s' ->
  Inv (conn s') /\ ending (conn s') /\ (length es + weight (conn s') <= weight (conn s))%nat.
Proof.
  revert s. induction es as [|e es IH]; intros s HI He Hi; simpl.
  - intros [= <-]. split_and!; [done..|lia].
  - simpl in Hi. apply andb_true_iff in Hi as [Hi Hr]. destruct (exec config e s) as [s1|] eqn:E; [|done]. simpl.
    intros Hx. destruct (IH s1) as (? & ? & ?); [by eapply inv_exec|by eapply ending_exec|done|done|].
    pose proof (weight_exec e s s1 Hi E). split_and!; [done..|lia].
Qed.
End Liveness.

(** C32 (liveness). When the last command queued is a disconnection, then
    whatever the goroutines do next, without further input, they stop after a
    bounded number of steps, some goroutine can always go on until [run] has
    ended, and in the end every session is over: the TCP connections and all
    channels closed, the readers and writers finished. *)
Theorem disconnect_ends `{NetProto} config s0 es s :
  fresh s0 -> execs config es s0 = Some s -> last (cmdChan (conn s)) = Some cmdDisconnect -> pc (conn s) <> PEnd ->
  forall es' s', forallb internal es' = true -> execs config es' s = Some s' ->
  (length es' <= weight (conn s))%nat /\
  ((pc (conn s') = PEnd /\ sendChan (conn s') = None /\ Forall dead (sessions (conn s'))) \/
   exists e s'', internal e = true /\ exec config e s' = Some s'').
Proof.
  intros Hf Hes Hl Hp es' s' Hi Hr. pose proof (inv_execs config es s0 s (inv_fresh s0 Hf) Hes) as HI.
  assert (He : ending (conn s)).
  { unfold ending. destruct (pc (conn s)); try done; by right. }
  destruct (internal_run config es' s s' HI He Hi Hr) as (HI' & He' & Hw). split; [lia|].
  destruct (ending_progress config s' HI' He') as [Hend|Hgo]; [left|by right].
  unfold Inv in HI'. rewrite Hend in HI'. naive_solver.
Qed.

(** ** A run *)

Definition sampleNet : NetConn := mkNetConn "10.0.0.1:4000" "10.0.0.2:5000".
Definition accepted (cn : NetConn) : System := mkSystem (enqueue (cmdAccept cn) (newConnectionBase 0)) [].

Definition go : Event := ERun (inr EOF) false.

(** The connection is accepted, a message is queued, then a disconnection. *)
Definition sampleRun : list Event :=
  [go; go; ECall (progBind (Conn_SendMessage (hd None sampleMessages)) (fun e => Ret (ResError e)));
   ECaller 0 false; ECaller 0 false; ECaller 0 false;
   ECall (progBind Disconnect (fun e => Ret (ResError e))); ECaller 1 false].

Definition afterRun : System := default (accepted sampleNet) (execs (sampleConfig 1000) sampleRun (accepted sampleNet)).

Lemma sampleRun_ok : execs (sampleConfig 1000) sampleRun (accepted sampleNet) = Some afterRun.
Proof. vm_compute. reflexivity. Qed.

Lemma fresh_accepted cn : fresh (accepted cn).
Proof. right; left. by exists 0, cn. Qed.

Lemma connection_invariant_witness :
  let s := afterRun in
  pc (conn s) <> PPanic /\
  (forall i x, sessions (conn s) !! i = Some x -> sReader x <> ReaderPanic) /\
  (forall ch, sendChan (conn s) = Some ch ->
     chans (locals (conn s)) = Some ch /\ exists x, sessions (conn s) !! ch = Some x /\ live x) /\
  (pc (conn s) = PLoop -> connect (locals (conn s)) = true <-> is_Some (sendChan (conn s))) /\
  (forall i x, sessions (conn s) !! i = Some x -> chans (locals (conn s)) <> Some i -> dead x).
Proof.
  exact (connection_invariant (sampleConfig 1000) (accepted sampleNet) sampleRun afterRun (fresh_accepted _) sampleRun_ok).
Defined.

(** What the goroutines do after it. *)
Definition sampleEnd : list Event :=
  [go; go; go; EReader 0 PickQuit; EReader 0 PickQuit; EWriter 0 (Some 3%nat); go; ETimer].

Definition afterEnd : System := default afterRun (execs (sampleConfig 1000) sampleEnd afterRun).

Lemma disconnect_ends_witness :
  (length sampleEnd <= weight (conn afterRun))%nat /\
  ((pc (conn afterEnd) = PEnd /\ sendChan (conn afterEnd) = None /\ Forall dead (sessions (conn afterEnd))) \/
   exists e s'', internal e = true /\ exec (sampleConfig 1000) e afterEnd = Some s'').
Proof.
  apply (disconnect_ends (sampleConfig 1000) (accepted sampleNet) sampleRun afterRun (fresh_accepted _) sampleRun_ok);
    vm_compute; done.
Defined.

Example sampleEnd_ended : pc (conn afterEnd) = PEnd.
Proof. vm_compute. reflexivity. Qed.

(** * Messages through a connection, and the races of its callers

    What [SendMessage] accepted reaches the peer in order; what can go wrong
    between a caller and the goroutine [run]. *)

(** ** The writer's output *)

Section Output.
Context `{NetProto}.
Context (config : Config).

Lemma writeLoop_app a b : writeLoop None (a ++ b) = writeLoop None a ++ writeLoop None b.
Proof.
  induction a as [|m a IH]; [done|]. cbn [writeLoop app]. destruct (Msg_Marshal m); [|done..]. by rewrite IH, app_assoc.
Qed.

Lemma writeLoop_room a b n :
  writeLoop (Some (length (writeLoop None a) + n)%nat) (a ++ b) = writeLoop None a ++ writeLoop (Some n) b.
Proof.
  induction a as [|m a IH]; [done|]. cbn [writeLoop app]. destruct (Msg_Marshal m) as [x| | |]; [|done..].
  rewrite length_app. rewrite (proj2 (Nat.ltb_ge _ _)) by lia.
  replace (length (frame x) + length (writeLoop None a) + n - length (frame x))%nat
    with (length (writeLoop None a) + n)%nat by lia.
  by rewrite IH, app_assoc.
Qed.

(** Everything accepted was written, or is in the channel; once the writer has
    stopped, a part of it was written, up to a torn last frame. *)
Definition outputOk (s : Session) : Prop :=
  match sWriter s with
  | Writing => exists done, sAccepted s = done ++ sSend s /\ sOutput s = writeLoop None done
  | WriterDone => exists done rest room, sAccepted s = done ++ rest /\ sOutput s = writeLoop room done
  end.

Lemma output_new cn : outputOk (newSession cn).
Proof. by exists []. Qed.

Lemma output_push m s : outputOk s -> outputOk (withSend (sSend s ++ [m]) (sAccepted s ++ [m]) s).
Proof.
  unfold outputOk. cbn. destruct (sWriter s).
  - intros (d & -> & Ho). exists d. by rewrite app_assoc.
  - intros (d & rest & room & -> & Ho). exists d, (rest ++ [m]), room. by rewrite app_assoc.
Qed.

Lemma output_writer cut s s' : outputOk s -> writerStep cut s = Some s' -> outputOk s'.
Proof.
  unfold outputOk, writerStep. destruct (sWriter s); [|done]. intros (d & Ha & Ho).
  destruct (sSend s) as [|m q] eqn:Eq.
  - destruct (sSendClosed s); [|done]. intros [= <-]. cbn. by exists d, [], None.
  - assert (Ha' : sAccepted s = (d ++ [m]) ++ q) by (by rewrite <- app_assoc).
    destruct (Msg_Marshal m) as [b| | |] eqn:Em.
    + destruct cut as [n|].
      * destruct (Nat.ltb_spec n (length (frame b))); [|done]. intros [= <-]. cbn.
        exists (d ++ [m]), q, (Some (length (writeLoop None d) + n)%nat). split; [done|].
        rewrite writeLoop_room, Ho. cbn [writeLoop]. rewrite Em. by rewrite (proj2 (Nat.ltb_lt _ _)) by done.
      * destruct (sTcpClosed s); [done|]. intros [= <-]. cbn. exists (d ++ [m]). split; [done|].
        rewrite writeLoop_app, Ho. cbn [writeLoop]. rewrite Em. by rewrite app_nil_r.
    + intros [= <-]. cbn. exists (d ++ [m]). split; [done|]. rewrite writeLoop_app, Ho. cbn [writeLoop]. rewrite Em.
      by rewrite app_nil_r.
    + intros [= <-]. cbn. exists (d ++ [m]). split; [done|]. rewrite writeLoop_app, Ho. cbn [writeLoop]. rewrite Em.
      by rewrite app_nil_r.
    + intros [= <-]. cbn. exists (d ++ [m]). split; [done|]. rewrite writeLoop_app, Ho. cbn [writeLoop]. rewrite Em.
      by rewrite app_nil_r.
Qed.

Definition outputsOk (c : Connection) : Prop := Forall outputOk (sessions c).

Lemma outputs_session c i s s' : outputsOk c -> sessions c !! i = Some s -> (outputOk s -> outputOk s') ->
  outputsOk (setSessions (<[i := s']> (sessions c)) c).
Proof. intros Hc Hi Hs. apply Forall_insert; [done|]. apply Hs. by eapply Forall_lookup_1. Qed.

Lemma outputs_push c i m : outputsOk c -> outputsOk (pushMessage i m c).
Proof.
  intros Hc. unfold pushMessage. destruct (sessions c !! i) as [s|] eqn:E.
  - rewrite (alter_Some _ _ _ _ E). eapply outputs_session; [done..|apply output_push].
  - rewrite alter_None by done. by destruct c.
Qed.

Lemma outputs_runCmd dial expired cmd c : outputsOk c -> outputsOk (runCmd config dial expired cmd c).
Proof.
  intros Hc. destruct cmd; cbn [runCmd isDisconnect]; cbv zeta; try done; repeat (done || case_match).
  by apply (outputs_push (stopShutdownTimer c)).
Qed.

Lemma outputs_runStep dial expired c c' : outputsOk c -> runStep config dial expired c = Some c' -> outputsOk c'.
Proof.
  intros Hc. unfold runStep. destruct (pc c); try done.
  - destruct (cmdChan c); [done|]. intros [= <-]. by apply outputs_runCmd.
  - intros [= <-]. unfold startIO. destruct (tcpConn (locals c)) as [cn|]; [|done].
    assert (Forall outputOk (sessions c ++ [newSession cn])) by (apply Forall_app; split; [done|]; apply Forall_singleton, output_new).
    by destruct resp.
  - by intros [= <-].
  - intros [= <-]. unfold cleanup. repeat (done || case_match).
    by eapply outputs_session.
  - unfold cleanupDone. repeat (done || case_match); intros [= <-]; try done.
    by eapply outputs_session.
Qed.

Ltac output_reader := repeat (done || case_match); intros; simplify_eq/=; done.

Lemma outputs_onSession i f c c' :
  outputsOk c -> (forall s s', outputOk s -> f s = Some s' -> outputOk s') -> onSession i f c = Some c' -> outputsOk c'.
Proof.
  intros Hc Hf. unfold onSession. destruct (sessions c !! i) as [s|] eqn:E; [|done]. simpl.
  destruct (f s) as [s'|] eqn:Ef; [|done]. simpl. intros [= <-]. eapply outputs_session; eauto.
Qed.

Lemma outputs_exec e s s' : outputsOk (conn s) -> exec config e s = Some s' -> outputsOk (conn s').
Proof.
  intros Hc. destruct e; cbn [exec]; unfold onConn;
    try (match goal with |- mbind _ ?o = _ -> _ => destruct o as [c'|] eqn:E; [|done] end; simpl; intros [= <-]; cbn [conn]).
  - by eapply outputs_runStep.
  - unfold timerStep in E. repeat (done || case_match); by injection E as <-.
  - eapply outputs_onSession; [done| |done]. intros x x' Hx. unfold readerStep. output_reader.
  - eapply outputs_onSession; [done| |done]. intros. by eapply output_writer.
  - unfold senderStep in E. repeat (done || case_match). by injection E as <-.
  - eapply outputs_onSession; [done| |done]. intros x x' Hx. unfold arrive. output_reader.
  - eapply outputs_onSession; [done| |done]. intros x x' Hx. unfold takeRequest. output_reader.
  - eapply outputs_onSession; [done| |done]. intros x x' Hx. unfold takeError. output_reader.
  - unfold callerStep. destruct (callers s !! i) as [[|X a k|q k|]|]; simpl; try done.
    + destruct a; simpl; repeat (done || case_match); intros [= <-]; simplify_eq/=; try done. by apply outputs_push.
    + by intros [= <-].
  - by intros [= <-].
  - by injection E as <-.
Qed.

Lemma outputs_execs es s s' : outputsOk (conn s) -> execs config es s = Some s' -> outputsOk (conn s').
Proof.
  revert s. induction es as [|e es IH]; intros s Hc; simpl; [by intros [= <-]|].
  destruct (exec config e s) as [s1|] eqn:E; [|done]. simpl. apply IH. by eapply outputs_exec.
Qed.

Lemma outputs_fresh s : fresh s -> outputsOk (conn s).
Proof. intros [(now & a & t & ->)|[(now & cn & [= <-])|(now & a & t & real & ->)]]; constructor. Qed.
End Output.

(** C10 (functional). Under every interleaving, what the peer's reader makes
    of the bytes a session has put on the wire is a prefix of the messages that
    were accepted into [sendChan], in that order; while the writer runs, exactly
    those that are not waiting in the channel. *)
Theorem session_wire `{NetProtoLaws} config s0 es s i x :
  MaxMessageLength config < 2 ^ 63 -> fresh s0 -> execs config es s0 = Some s ->
  sessions (conn s) !! i = Some x -> Forall (sendable config) (sAccepted x) ->
  exists k e, readLoop config (fun _ => Delivered) (sOutput x) = Ok (take k (sAccepted x), EndError e) /\
    (sWriter x = Writing -> drop k (sAccepted x) = sSend x /\ e = EOF).
Proof.
  intros Hmax Hf Hes Hx Ha. pose proof (outputs_execs config es s0 s (outputs_fresh s0 Hf) Hes) as Ho.
  pose proof (proj1 (Forall_lookup _ _) Ho _ _ Hx) as Hox. unfold outputOk in Hox.
  destruct (sWriter x).
  - destruct Hox as (d & Hd & ->). rewrite Hd in *. apply Forall_app in Ha as [Ha _].
    exists (length d), EOF. rewrite take_app_length, drop_app_length. split; [|done].
    destruct (writeLoop_frames config None d Hmax Ha) as (tail & e & -> & He & Ht).
    rewrite Ht, fitting_None, firstn_all by done. unfold readLoop. rewrite (readLoopFrom_frames _ _ _ _ EOF);
      [by rewrite deliver_all|done|done|by left|].
    rewrite length_app. pose proof (length_framesOf d). lia.
  - destruct Hox as (d & rest & room & Hd & ->). rewrite Hd in *. apply Forall_app in Ha as [Ha _].
    destruct (writeLoop_frames config room d Hmax Ha) as (tail & e & -> & He & _).
    assert (Hk : (fitting room d <= length d)%nat).
    { clear. revert room. induction d as [|m d IH]; intros room; simpl; [lia|].
      destruct room as [r|]; [destruct (_ <? _)%nat|]; [lia|..]; apply le_n_S, IH. }
    exists (fitting room d), e. rewrite take_app_le by done. split; [|done].
    unfold readLoop. rewrite (readLoopFrom_frames _ _ _ _ e); [by rewrite deliver_all|done|by apply Forall_take|by left|].
    rewrite length_app. pose proof (length_framesOf (take (fitting room d) d)). lia.
Qed.

Definition sampleSession : Session := default (newSession sampleNet) (sessions (conn afterRun) !! 0%nat).

Lemma session_wire_witness :
  exists k e, readLoop (sampleConfig 1000) (fun _ => Delivered) (sOutput sampleSession) =
      Ok (take k (sAccepted sampleSession), EndError e) /\
    (sWriter sampleSession = Writing -> drop k (sAccepted sampleSession) = sSend sampleSession /\ e = EOF).
Proof.
  apply (session_wire (sampleConfig 1000) (accepted sampleNet) sampleRun afterRun 0 sampleSession);
    [by vm_compute|apply fresh_accepted|apply sampleRun_ok|vm_compute; reflexivity|].
  replace (sAccepted sampleSession) with (take 1 sampleMessages) by (vm_compute; reflexivity).
  apply Forall_take, sampleMessages_sendable.
Defined.

(** ** Races *)

(** [SendMessage] looks up [sendChan] and sends on it in two
    steps: for every message and every accepted connection there is an
    interleaving with [Disconnect] in which the channel is closed in between and
    the send panics, although [sendChan] is cleared before it is closed. *)
Theorem send_close_race `{NetProto} config (cn : NetConn) (m : Message) :
  exists es s, execs config es (accepted cn) = Some s /\
    (exists p, ECall (progBind (Conn_SendMessage m) p) ∈ es) /\ callers s !! 0%nat = Some Crash /\ pc (conn s) <> PPanic.
Proof.
  pose (es := [go; go; ECall (progBind (Conn_SendMessage m) (fun e => Ret (ResError e))); ECaller 0 false; ECaller 0 false;
     ECall (progBind Disconnect (fun e => Ret (ResError e))); ECaller 1 false; go; go; go; ECaller 0 false]).
  assert (Hr : match execs config es (accepted cn) with
               | Some s => callers s !! 0%nat = Some Crash /\ pc (conn s) <> PPanic | None => False end).
  { vm_compute. done. }
  exists es. destruct (execs config es (accepted cn)) as [s|]; [|done]. exists s. split_and!; [done| |apply Hr..].
  exists (fun e => Ret (ResError e)). unfold es. set_solver.
Qed.

(** Once [run] has ended, three seconds after a
    disconnection, nothing restarts it and no command is ever answered again:
    whatever happens next, the pending answers can only be taken.  A caller of
    [RequestChan] or [Clone], which wait without a timeout, then waits for ever. *)
Theorem ended_unanswered `{NetProto} config es s s' :
  pc (conn s) = PEnd -> execs config es s = Some s' ->
  pc (conn s') = PEnd /\ replies (conn s') ⊆ replies (conn s).
Proof.
  revert s. induction es as [|e es IH]; intros s Hp; simpl; [by intros [= <-]|].
  destruct (exec config e s) as [s1|] eqn:E; [|done]. simpl. intros Hr.
  assert (Hs : pc (conn s1) = PEnd /\ replies (conn s1) ⊆ replies (conn s)).
  { clear Hr. destruct e; cbn [exec] in E; unfold onConn in E;
      try (match type of E with mbind _ ?o = _ => destruct o as [c'|] eqn:Ec; [|done] end; simpl in E; injection E as <-; cbn [conn]).
    - unfold runStep in Ec. by rewrite Hp in Ec.
    - unfold timerStep in Ec. by rewrite Hp in Ec.
    - unfold onSession in Ec. destruct (sessions _ !! i); [|done]. simpl in Ec. destruct (readerStep _ _ _); [|done]. by injection Ec as <-.
    - unfold onSession in Ec. destruct (sessions _ !! i); [|done]. simpl in Ec. destruct (writerStep _ _); [|done]. by injection Ec as <-.
    - unfold senderStep in Ec. repeat (done || case_match). by injection Ec as <-.
    - unfold onSession in Ec. destruct (sessions _ !! i); [|done]. simpl in Ec. destruct (arrive _ _); [|done]. by injection Ec as <-.
    - unfold onSession in Ec. destruct (sessions _ !! i); [|done]. simpl in Ec. destruct (takeRequest _); [|done]. by injection Ec as <-.
    - unfold onSession in Ec. destruct (sessions _ !! i); [|done]. simpl in Ec. destruct (takeError _); [|done]. by injection Ec as <-.
    - unfold callerStep in E. destruct (callers s !! i) as [[|X a k|q k|]|]; simpl in E; try done.
      + destruct a; simpl in E; repeat (done || case_match); simplify_eq/=; try done.
        split; [done|]. apply delete_subseteq.
      + by injection E as <-.
    - by injection E as <-.
    - by injection Ec as <-. }
  destruct Hs as [Hp1 Hsub]. destruct (IH s1 Hp1 Hr) as [Hp2 Hsub2]. split; [done|]. by etransitivity.
Qed.

Lemma ended_unanswered_witness :
  let es := [ECall (progBind Clone (fun '(a, t, real) => Ret (ResClone a t real))); ECaller 2 false] in
  let s := default afterEnd (execs (sampleConfig 1000) es afterEnd) in
  pc (conn s) = PEnd /\ replies (conn s) ⊆ replies (conn afterEnd).
Proof. intros es s. apply (ended_unanswered (sampleConfig 1000) es afterEnd s); vm_compute; reflexivity. Defined.

(** [Init] sends [cmdInit] with an empty [realConnAddr]: an accepted connection
    that is then initialised, as the handler of [InitConnection] does, no longer
    knows its remote address, which the TCP connection still has. *)
Example init_forgets_address `{NetProto} config cn a t :
  let es := [go; go; ECall (progBind (Init a t) (fun _ => Ret ResUnit)); ECaller 0 false; ECaller 0 false; go;
             ECall (progBind RemoteAddrSafe (fun s => Ret (ResString s))); ECaller 1 false; ECaller 1 false; go;
             ECaller 1 false; ECaller 1 false;
             ECall (progBind TcpRemoteAddr (fun s => Ret (ResAddr s))); ECaller 2 false] in
  (fun s => (callers s !! 1%nat, callers s !! 2%nat)) <$> execs config es (accepted cn) =
    Some (Some (Ret (ResString "")), Some (Ret (ResAddr (Some (RemoteAddrOf cn))))).
Proof. vm_compute. reflexivity. Qed.
