(* ===== verification/Server.v ===== *)
(** * The socket server and its router

    Models [pkg/network/handler.go] (the routes and the request counters) and
    [pkg/network/server.go]: one loop per connection that forwards requests to a
    central channel, a pool of workers that handle them, the reconnection to the
    parent, and the shutdown.

    The state [ServerState] is shared by the goroutines; [serverStep] performs
    one step of one of them.  The connections are those of the registry
    ([Connections]); what they answer is read from the environment [ConnEnv].  A
    route is a function on the state [W] of the rest of the program. *)

From stdpp Require Import pretty sorting.
From S2P Require Import Prelude Binary TrieEncoding TrieNode Instances AccountState BatchStore Message Wire Connections.

Local Open Scope Z_scope.

(** ** [handler.go] *)

Definition ServerBusy : string := "ServerBusy".
Definition InitConnection : string := "InitConnection".

Section Handler.
Context {C W : Type}.

Abbreviation route := (Request C -> stm W unit).

(** [tpsTracker]: the requests of each command since the last report. *)
Record tpsTracker := mkTracker { counts : gmap string Z; lastLogTime : Z }.

Record Handler := mkHandler { routes : gmap string route; tps : tpsTracker }.

Definition handleServerBusy : route := fun _ => mret tt.

Definition NewHandler (rs : option (gmap string route)) (now : Z) : Handler :=
  let rs := default ∅ rs in
  let rs := match rs !! ServerBusy with Some _ => rs | None => <[ServerBusy := handleServerBusy]> rs end in
  mkHandler rs (mkTracker ∅ now).

(** [counts[cmd]++] on an [int64]. *)
Definition countRequest (cmd : string) (t : tpsTracker) : tpsTracker :=
  mkTracker (<[cmd := to_int64 (default 0 (counts t !! cmd) + 1)]> (counts t)) (lastLogTime t).

(** A nil request is [None]; so is its message. *)
Definition HandleRequest (r : option (Request C)) : stm (Handler * W) unit :=
  match r with
  | None => lift (Err (ErrText "invalid request or message"))
  | Some r =>
      match rMessage r with
      | None => lift (Err (ErrText "invalid request or message"))
      | Some _ =>
          fun '(h, w) =>
            let cmd := Msg_Command (rMessage r) in
            let h' := mkHandler (routes h) (countRequest cmd (tps h)) in
            match routes h' !! cmd with
            | None => (Err (ErrText "command not found"), (h', w))
            | Some f => let '(o, w') := f r w in (o, (h', w'))
            end
      end
  end.

(** One tick of [logTPS]: the routes with requests, sorted, and the counters
    reset; nothing when the last report is too recent. *)
Definition logTPS (now : Z) (h : Handler) : list (string * Z) * Handler :=
  if now - lastLogTime (tps h) <? 50000000 then ([], h)
  else
    let names := merge_sort String.le (map_to_list (counts (tps h))).*1 in
    let report := filter (fun p => 0 < p.2) ((fun r => (r, default 0 (counts (tps h) !! r))) <$> names) in
    (report, mkHandler (routes h) (mkTracker ∅ now)).
End Handler.
Arguments Handler : clear implicits.

(** ** [server.go] *)

Inductive Worker := WIdle | WBusy (r : Request Conn) | WStopped.

(** [inbox] holds the request channels of the connections whose loop runs;
    [sentOn], [disconnected], [handled] and [dropped] record, oldest first, the
    messages sent on connections, the calls of [Disconnect], the requests given to
    the handler and those refused.  The callbacks of the rest of the program run at
    the two ends of a connection and are not part of the state. *)
Record ServerState := mkServer {
  manager : ConnectionsManager;
  ctxDone : bool;
  central : list (Request Conn);
  centralClosed : bool;
  workers : list Worker;
  inbox : gmap Conn (list (Request Conn));
  sentOn : list (Conn * Message);
  disconnected : list Conn;
  handled : list (Request Conn);
  dropped : list (Request Conn);
  stopping : bool;
  crashed : bool
}.

Definition newServer (cm : ConnectionsManager) : ServerState :=
  mkServer cm false [] false [] ∅ [] [] [] [] false false.

(** [None] is a nil argument; the configuration in force and the server. *)
Definition NewSocketServer {K H : Type} (numCPU : Z) (cfg : option Config) (keyPair : option K)
    (connectionsManager : option ConnectionsManager) (handler : option H) : outcome (Config * ServerState) :=
  let cfg := default (DefaultConfig numCPU) cfg in
  match keyPair, connectionsManager, handler with
  | None, _, _ => Err (ErrText "NewSocketServer: keyPair cannot be nil")
  | _, None, _ => Err (ErrText "NewSocketServer: connectionsManager cannot be nil")
  | _, _, None => Err (ErrText "NewSocketServer: handler cannot be nil")
  | Some _, Some cm, Some _ => Ok (cfg, newServer cm)
  end.

Definition startWorkerPool (config : Config) (s : ServerState) : ServerState :=
  mkServer (manager s) (ctxDone s) (central s) (centralClosed s)
    (workers s ++ replicate (Z.to_nat (HandlerWorkerPoolSize config)) WIdle) (inbox s) (sentOn s) (disconnected s)
    (handled s) (dropped s) (stopping s) (crashed s).

Definition setWorker (i : nat) (w : Worker) (q : list (Request Conn)) (h : list (Request Conn)) (s : ServerState) : ServerState :=
  mkServer (manager s) (ctxDone s) q (centralClosed s) (<[i := w]> (workers s)) (inbox s) (sentOn s) (disconnected s)
    h (dropped s) (stopping s) (crashed s).

Definition crash (s : ServerState) : ServerState :=
  mkServer (manager s) (ctxDone s) (central s) (centralClosed s) (workers s) (inbox s) (sentOn s) (disconnected s)
    (handled s) (dropped s) (stopping s) true.

Section Server.
Context `{EthLib}.
Context (config : Config) (version nodeType : string) (ownAddress : bytes).
Context (encodeInit : bytes -> string -> bool -> option bytes).

(** [OnConnect]: the InitConnection message carries the address of the parent
    connection when there is one, else the server's own.  [sends] says whether
    [SendMessage] accepts the message; its error is logged. *)
Definition initMessage (env : ConnEnv) (uuid : string) (c : Conn) (s : ServerState) : option Message :=
  let a := match parentConnection (manager s) with Some p => Address env p | None => ownAddress end in
  body ← encodeInit a nodeType true;
  Some (generateMessage uuid (Address env c) InitConnection body version).

Definition sendOn (sends : bool) (c : Conn) (m : option Message) (s : ServerState) : ServerState :=
  mkServer (manager s) (ctxDone s) (central s) (centralClosed s) (workers s) (inbox s)
    (sentOn s ++ from_option (fun m => if sends then [(c, m)] else []) [] m) (disconnected s) (handled s) (dropped s) (stopping s) (crashed s).

Definition OnConnect (env : ConnEnv) (uuid : string) (sends : bool) (c : Conn) (s : ServerState) : ServerState :=
  sendOn sends c (initMessage env uuid c s) s.

(** [HandleConnection] starts its loop. *)
Definition openInbox (c : Conn) (s : ServerState) : ServerState :=
  mkServer (manager s) (ctxDone s) (central s) (centralClosed s) (workers s) (<[c := []]> (inbox s)) (sentOn s)
    (disconnected s) (handled s) (dropped s) (stopping s) (crashed s).

(** [RetryConnectToParent] once its [Connect] has succeeded: the connection becomes
    the parent, gets the InitConnection message, and its loop starts. *)
Definition reconnectParent (env : ConnEnv) (uuid : string) (sends : bool) (c : Conn) (s : ServerState) : ServerState :=
  openInbox c (OnConnect env uuid sends c
    (mkServer (AddParentConnection (Some c) (manager s)) (ctxDone s) (central s) (centralClosed s) (workers s) (inbox s)
       (sentOn s) (disconnected s) (handled s) (dropped s) (stopping s) (crashed s))).

(** The loop ends: [OnDisconnect] removes the connection from the registry and
    [Disconnect] is called. *)
Definition OnDisconnect (env : ConnEnv) (c : Conn) (s : ServerState) : ServerState :=
  mkServer (RemoveConnection env (Some c) (manager s)) (ctxDone s) (central s) (centralClosed s) (workers s) (inbox s)
    (sentOn s) (disconnected s) (handled s) (dropped s) (stopping s) (crashed s).

Definition exitConnection (env : ConnEnv) (c : Conn) (s : ServerState) : ServerState :=
  let s' := OnDisconnect env c s in
  mkServer (manager s') (ctxDone s') (central s') (centralClosed s') (workers s') (delete c (inbox s')) (sentOn s')
    (disconnected s' ++ [c]) (handled s') (dropped s') (stopping s') (crashed s').

(** A request taken from the connection's channel: to the central channel, or
    refused with a ServerBusy message when that is full; [sends] says whether
    [SendMessage] accepts that message, its error is dropped.  A send on the closed
    channel panics. *)
Definition forward (env : ConnEnv) (uuid : string) (sends : bool) (c : Conn) (s : ServerState) : option ServerState :=
  q ← inbox s !! c;
  match q with
  | [] => None
  | r :: q =>
      let s1 := mkServer (manager s) (ctxDone s) (central s) (centralClosed s) (workers s) (<[c := q]> (inbox s)) (sentOn s)
                  (disconnected s) (handled s) (dropped s) (stopping s) (crashed s) in
      if centralClosed s then Some (crash s1)
      else if Z.of_nat (length (central s)) <? RequestChanSize config
      then Some (mkServer (manager s1) (ctxDone s1) (central s1 ++ [r]) (centralClosed s1) (workers s1) (inbox s1) (sentOn s1)
                   (disconnected s1) (handled s1) (dropped s1) (stopping s1) (crashed s1))
      else
        let busyMsg := generateMessage uuid (Address env c) ServerBusy [] version in
        Some (mkServer (manager s1) (ctxDone s1) (central s1) (centralClosed s1) (workers s1) (inbox s1)
                (sentOn s1 ++ (if sends then [(c, busyMsg)] else [])) (disconnected s1) (handled s1) (dropped s1 ++ [r]) (stopping s1) (crashed s1))
  end.

(** The body of a worker, one step at a time: take a request, then give it to
    the handler; stop when the context is done or the channel is closed and
    empty. *)
Definition workerStep (i : nat) (seesDone : bool) (s : ServerState) : option ServerState :=
  w ← workers s !! i;
  match w with
  | WStopped => None
  | WBusy r => Some (setWorker i WIdle (central s) (handled s ++ [r]) s)
  | WIdle =>
      if seesDone && ctxDone s then Some (setWorker i WStopped (central s) (handled s) s)
      else
        match central s with
        | r :: q => Some (setWorker i (WBusy r) q (handled s) s)
        | [] => if centralClosed s then Some (setWorker i WStopped [] (handled s) s) else None
        end
  end.

(** [Stop]: cancel the context; then close the central channel; then wait for
    the workers.  A second call closes the channel again, which panics. *)
Definition stopCancel (s : ServerState) : option ServerState :=
  Some (mkServer (manager s) true (central s) (centralClosed s) (workers s) (inbox s) (sentOn s) (disconnected s)
    (handled s) (dropped s) true (crashed s)).
Definition stopClose (s : ServerState) : option ServerState :=
  if negb (stopping s) then None
  else if centralClosed s then Some (crash s)
  else Some (mkServer (manager s) (ctxDone s) (central s) true (workers s) (inbox s) (sentOn s) (disconnected s)
    (handled s) (dropped s) (stopping s) (crashed s)).

Inductive ServerEvent :=
| SvAccept (env : ConnEnv) (uuid : string) (sends : bool) (c : Conn)
| SvParent (env : ConnEnv) (uuid : string) (sends : bool) (c : Conn)
| SvRequest (c : Conn) (m : Message)
| SvForward (env : ConnEnv) (uuid : string) (sends : bool) (c : Conn)
| SvExit (env : ConnEnv) (c : Conn)
| SvWorker (i : nat) (seesDone : bool)
| SvCancel
| SvClose.

(** A request arrives in the channel of a connection whose loop runs. *)
Definition arriveRequest (c : Conn) (m : Message) (s : ServerState) : option ServerState :=
  q ← inbox s !! c;
  Some (mkServer (manager s) (ctxDone s) (central s) (centralClosed s) (workers s) (<[c := q ++ [mkRequest c m]]> (inbox s))
    (sentOn s) (disconnected s) (handled s) (dropped s) (stopping s) (crashed s)).

Definition serverStep (e : ServerEvent) (s : ServerState) : option ServerState :=
  if crashed s then None
  else
    match e with
    | SvAccept env uuid sends c =>
        match inbox s !! c with Some _ => None | None => Some (openInbox c (OnConnect env uuid sends c s)) end
    | SvParent env uuid sends c =>
        match inbox s !! c with Some _ => None | None => Some (reconnectParent env uuid sends c s) end
    | SvRequest c m => arriveRequest c m s
    | SvForward env uuid sends c => forward env uuid sends c s
    | SvExit env c => _ ← inbox s !! c; Some (exitConnection env c s)
    | SvWorker i d => workerStep i d s
    | SvCancel => stopCancel s
    | SvClose => stopClose s
    end.

Fixpoint serverRun (es : list ServerEvent) (s : ServerState) : option ServerState :=
  match es with [] => Some s | e :: es => s' ← serverStep e s; serverRun es s' end.

(** ** Where the requests are *)

Definition busyRequests (ws : list Worker) : list (Request Conn) :=
  mjoin ((fun w => match w with WBusy r => [r] | _ => [] end) <$> ws).
Definition inboxRequests (m : gmap Conn (list (Request Conn))) : list (Request Conn) := mjoin ((map_to_list m).*2).

(** The requests that came in, and those left in the channels of connections
    whose loop has ended. *)
Definition arrivals (es : list ServerEvent) : list (Request Conn) :=
  mjoin ((fun e => match e with SvRequest c m => [mkRequest c m] | _ => [] end) <$> es).

Fixpoint abandoned (es : list ServerEvent) (s : ServerState) : list (Request Conn) :=
  match es with
  | [] => []
  | e :: es =>
      match e with SvExit _ c => default [] (inbox s !! c) | _ => [] end ++
      match serverStep e s with Some s' => abandoned es s' | None => [] end
  end.

Definition pending (s : ServerState) : list (Request Conn) :=
  inboxRequests (inbox s) ++ central s ++ busyRequests (workers s) ++ handled s ++ dropped s.

(** The requests of the inboxes around the one of [c]. *)
Lemma inboxRequests_split m c q : m !! c = Some q ->
  inboxRequests m ≡ₚ q ++ inboxRequests (delete c m) /\
  forall q', inboxRequests (<[c := q']> m) ≡ₚ q' ++ inboxRequests (delete c m).
Proof.
  intros Hc. unfold inboxRequests.
  assert (Hi : forall q', mjoin ((map_to_list (<[c := q']> m)).*2) ≡ₚ q' ++ mjoin ((map_to_list (delete c m)).*2)).
  { intros q'. rewrite <- insert_delete_eq. by rewrite map_to_list_insert by apply lookup_delete_eq. }
  split; [|done]. rewrite <- Hi. by rewrite insert_id.
Qed.

Lemma inboxRequests_open m c : m !! c = None -> inboxRequests (<[c := []]> m) ≡ₚ inboxRequests m.
Proof. intros Hc. unfold inboxRequests. rewrite map_to_list_insert by done. done. Qed.

Lemma busy_insert ws i w w' : ws !! i = Some w ->
  busyRequests (<[i := w']> ws) ++ busyRequests [w] ≡ₚ busyRequests ws ++ busyRequests [w'].
Proof.
  revert i. induction ws as [|x ws IH]; intros [|i]; simpl; intros E; simplify_eq.
  - unfold busyRequests, mjoin. cbn. rewrite !app_nil_r. solve_Permutation.
  - specialize (IH i E). unfold busyRequests, mjoin in *. cbn in *. rewrite !app_nil_r in *. rewrite <- !app_assoc, IH. done.
Qed.

Definition busyMessages (s : ServerState) : list (Conn * Message) :=
  filter (fun p => Msg_Command p.2 = ServerBusy) (sentOn s).

(** A refusal whose ServerBusy message is accepted by [SendMessage]. *)
Definition sendsOk (e : ServerEvent) : Prop := match e with SvForward _ _ sends _ => sends = true | _ => True end.

Record accounted (es : list ServerEvent) (s0 s : ServerState) : Prop := {
  acc_requests : pending s0 ++ arrivals es ≡ₚ pending s ++ abandoned es s0;
  acc_busy : (length (busyMessages s) + length (dropped s0) <= length (busyMessages s0) + length (dropped s))%nat;
  acc_answered : Forall sendsOk es ->
    (length (busyMessages s) + length (dropped s0) = length (busyMessages s0) + length (dropped s))%nat
}.

Lemma workerStep_pending i d s s' : workerStep i d s = Some s' -> pending s' ≡ₚ pending s.
Proof.
  unfold workerStep. destruct (workers s !! i) as [w|] eqn:Ew; [|done]. simpl.
  pose proof (fun w' => busy_insert (workers s) i w w' Ew) as Hb. unfold pending, setWorker.
  destruct w as [|r|]; [| |done].
  - destruct (d && ctxDone s).
    + intros [= <-]. cbn. specialize (Hb WStopped). unfold busyRequests, mjoin in *. cbn in Hb. rewrite !app_nil_r in Hb. by rewrite Hb.
    + destruct (central s) as [|r q] eqn:Eq.
      * destruct (centralClosed s); [|done]. intros [= <-]. cbn. specialize (Hb WStopped).
        unfold busyRequests, mjoin in *. cbn in Hb. rewrite !app_nil_r in Hb. by rewrite Hb.
      * intros [= <-]. cbn. specialize (Hb (WBusy r)). unfold busyRequests, mjoin in *. cbn in Hb.
        rewrite !app_nil_r in Hb. rewrite Hb. solve_Permutation.
  - intros [= <-]. cbn. specialize (Hb WIdle). unfold busyRequests, mjoin in *. cbn in Hb. rewrite !app_nil_r in Hb.
    rewrite <- Hb. solve_Permutation.
Qed.

Lemma workerStep_sent i d s s' : workerStep i d s = Some s' -> sentOn s' = sentOn s /\ dropped s' = dropped s.
Proof. unfold workerStep, setWorker. destruct (workers s !! i) as [w|]; [|done]. simpl. repeat case_match; intros [= <-]; done. Qed.

Lemma busy_init env uuid sends c s : busyMessages (openInbox c (OnConnect env uuid sends c s)) = busyMessages s.
Proof.
  unfold busyMessages. cbn [openInbox OnConnect sendOn sentOn]. rewrite filter_app. unfold initMessage.
  destruct (encodeInit _ _ _); cbn [mbind option_bind from_option]; [|by rewrite app_nil_r].
  destruct sends; [rewrite filter_cons_False by done|]; by rewrite app_nil_r.
Qed.

Lemma step_accounted e s s' : serverStep e s = Some s' -> crashed s' = false -> accounted [e] s s'.
Proof.
  intros Hs Hc. pose proof Hs as Hs0. unfold serverStep in Hs. destruct (crashed s); [done|].
  assert (Busy : (length (busyMessages s') + length (dropped s) <= length (busyMessages s) + length (dropped s') /\
    (sendsOk e -> length (busyMessages s') + length (dropped s) = length (busyMessages s) + length (dropped s')))%nat).
  { clear Hs0. destruct e as [env uuid sends c|env uuid sends c|c m|env uuid sends c|env c|i d| |]; cbn [sendsOk].
    - destruct (inbox s !! c); [done|]. injection Hs as <-. by rewrite busy_init.
    - destruct (inbox s !! c); [done|]. injection Hs as <-. unfold reconnectParent. by rewrite busy_init.
    - unfold arriveRequest in Hs. destruct (inbox s !! c); [|done]. by injection Hs as <-.
    - unfold forward in Hs. destruct (inbox s !! c) as [[|r q]|]; [done| |done]. simpl in Hs.
      destruct (centralClosed s); [by injection Hs as <-|].
      destruct (_ <? _); injection Hs as <-; unfold busyMessages; cbn [sentOn dropped]; [done|].
      rewrite filter_app, !length_app. cbn. destruct sends; [rewrite filter_cons_True by done|]; cbn; (split; [lia|]); [lia|done].
    - destruct (inbox s !! c); [|done]. simpl in Hs. by injection Hs as <-.
    - apply workerStep_sent in Hs as [Hs1 Hs2]. unfold busyMessages. rewrite Hs1, Hs2. done.
    - by injection Hs as <-.
    - unfold stopClose in Hs. destruct (negb _); [done|]. destruct (centralClosed s); by injection Hs as <-. }
  split; [|exact (proj1 Busy)|intros [Hok _]%Forall_cons; exact (proj2 Busy Hok)].
  - cbn [abandoned arrivals fmap list_fmap]. unfold mjoin. cbn [list_join]. rewrite Hs0, !app_nil_r.
    destruct e as [env uuid sends c|env uuid sends c|c m|env uuid sends c|env c|i d| |].
    + destruct (inbox s !! c) as [q|] eqn:Eq; [done|]. injection Hs as <-. rewrite !app_nil_r. unfold pending. cbn.
      by rewrite inboxRequests_open.
    + destruct (inbox s !! c) as [q|] eqn:Eq; [done|]. injection Hs as <-. rewrite !app_nil_r. unfold pending. cbn.
      by rewrite inboxRequests_open.
    + unfold arriveRequest in Hs. destruct (inbox s !! c) as [q|] eqn:Eq; [|done]. injection Hs as <-.
      rewrite app_nil_r. unfold pending. cbn.
      destruct (inboxRequests_split _ _ _ Eq) as [-> Hi]. rewrite Hi. solve_Permutation.
    + unfold forward in Hs. destruct (inbox s !! c) as [[|r q]|] eqn:Eq; [done| |done]. simpl in Hs.
      destruct (inboxRequests_split _ _ _ Eq) as [Hp Hi]. rewrite !app_nil_r.
      destruct (centralClosed s); [by injection Hs as <-|]. unfold pending.
      destruct (_ <? _); injection Hs as <-; cbn; rewrite Hp, Hi; solve_Permutation.
    + destruct (inbox s !! c) as [q|] eqn:Eq; [|done]. simpl in Hs. injection Hs as <-. rewrite app_nil_r. unfold pending. cbn.
      destruct (inboxRequests_split _ _ _ Eq) as [-> _]. solve_Permutation.
    + rewrite !app_nil_r. symmetry. by eapply workerStep_pending.
    + injection Hs as <-. by rewrite !app_nil_r.
    + unfold stopClose in Hs. destruct (negb _); [done|]. destruct (centralClosed s); [by injection Hs as <-|].
      injection Hs as <-. by rewrite !app_nil_r.
Qed.

Lemma run_accounted es s s' : serverRun es s = Some s' -> crashed s' = false -> accounted es s s'.
Proof.
  revert s. induction es as [|e es IH]; intros s; simpl.
  - intros [= <-] _. split; [by rewrite !app_nil_r|done..].
  - destruct (serverStep e s) as [s1|] eqn:E; [|done]. simpl. intros Hr Hc.
    assert (Hc1 : crashed s1 = false).
    { destruct es as [|e' es]; [by injection Hr as <-|]. simpl in Hr. unfold serverStep in Hr at 1. by destruct (crashed s1). }
    destruct (step_accounted e s s1 E Hc1) as [P1 B1 A1]. destruct (IH s1 Hr Hc) as [P2 B2 A2].
    split; [|lia|intros [He Hes]%Forall_cons; specialize (A1 ltac:(by constructor)); specialize (A2 Hes); lia].
    revert P1 P2. unfold arrivals, mjoin. cbn [fmap list_fmap list_join abandoned]. rewrite E, !app_nil_r.
    set (x := match e with SvRequest c m => _ | _ => [] end). set (y := match e with SvExit _ c => _ | _ => [] end).
    intros P1 P2. rewrite app_assoc, P1. rewrite <- (app_assoc (pending s1)), (Permutation_app_comm y), app_assoc, P2.
    solve_Permutation.
Qed.

Lemma central_bounded es s s' : 0 <= RequestChanSize config ->
  Z.of_nat (length (central s)) <= RequestChanSize config -> serverRun es s = Some s' ->
  Z.of_nat (length (central s')) <= RequestChanSize config.
Proof.
  intros H0. revert s. induction es as [|e es IH]; intros s Hl; simpl; [by intros [= <-]|].
  destruct (serverStep e s) as [s1|] eqn:E; [|done]. simpl. apply IH. clear IH. unfold serverStep in E.
  destruct (crashed s); [done|]. destruct e as [env uuid sends c|env uuid sends c|c m|env uuid sends c|env c|i d| |].
  - destruct (inbox s !! c); [done|]. by injection E as <-.
  - destruct (inbox s !! c); [done|]. by injection E as <-.
  - unfold arriveRequest in E. destruct (inbox s !! c); [|done]. by injection E as <-.
  - unfold forward in E. destruct (inbox s !! c) as [[|r q]|]; [done| |done]. simpl in E.
    destruct (centralClosed s); [by injection E as <-|].
    destruct (Z.ltb_spec (Z.of_nat (length (central s))) (RequestChanSize config)); injection E as <-; cbn; [|done].
    rewrite length_app. cbn. lia.
  - destruct (inbox s !! c); [|done]. simpl in E. by injection E as <-.
  - unfold workerStep, setWorker in E. destruct (workers s !! i) as [[|r|]|]; simpl in E; try done.
    + destruct (d && ctxDone s); [by injection E as <-|]. destruct (central s) eqn:Eq.
      * destruct (centralClosed s); [|done]. injection E as <-. cbn. lia.
      * injection E as <-. cbn in *. lia.
    + by injection E as <-.
  - by injection E as <-.
  - unfold stopClose in E. destruct (negb _); [done|]. destruct (centralClosed s); by injection E as <-.
Qed.
End Server.

(** C31 (invariant). No request is lost silently or handled twice: in every run
    of the server that has not crashed, the requests that came in are, each exactly
    once, in a connection's channel, in the central channel (which never holds more
    than its capacity), with a worker, handled, refused, or left behind when their
    connection's loop ended; and there is at most one ServerBusy message sent per refused
    request, and exactly one when no [SendMessage] of such a message fails (its error
    is dropped). *)
Theorem server_requests `{EthLib} config version nodeType own encodeInit cm es s :
  0 <= RequestChanSize config ->
  serverRun config version nodeType own encodeInit es (startWorkerPool config (newServer cm)) = Some s ->
  crashed s = false ->
  arrivals es ≡ₚ pending s ++
    abandoned config version nodeType own encodeInit es (startWorkerPool config (newServer cm)) /\
  Z.of_nat (length (central s)) <= RequestChanSize config /\ (length (busyMessages s) <= length (dropped s))%nat /\
  (Forall sendsOk es -> length (busyMessages s) = length (dropped s)).
Proof.
  intros Hq Hr Hc. destruct (run_accounted config version nodeType own encodeInit es _ s Hr Hc) as [P B A]. split_and!.
  - rewrite <- P. unfold pending. cbn [startWorkerPool newServer inbox central workers handled dropped app]. assert (E : busyRequests (replicate (Z.to_nat (HandlerWorkerPoolSize config)) WIdle) = []).
    { unfold busyRequests, mjoin. induction (Z.to_nat (HandlerWorkerPoolSize config)); [done|]. simpl. done. }
    rewrite E. unfold inboxRequests. by rewrite map_to_list_empty.
  - eapply central_bounded; [done| |done]. cbn. lia.
  - cbn in B. lia.
  - intros Hok. specialize (A Hok). cbn in A. lia.
Qed.

Definition sampleServer : ServerState := startWorkerPool (sampleConfig 1000) (newServer NewConnectionsManager).
Definition ping (c : Conn) (n : Z) : ServerEvent := SvRequest c (generateMessage "id" [] "Ping" [n] "1").

(** Two workers and a central channel of four: of seven requests, one is refused. *)
Definition serverSample : list ServerEvent :=
  [SvAccept sampleEnv "u" true 1%positive; SvAccept sampleEnv "u" true 3%positive;
   ping 1 1; ping 1 2; ping 3 3; ping 1 4; ping 3 5; ping 3 6; ping 1 7;
   SvForward sampleEnv "u" true 1%positive; SvForward sampleEnv "u" true 3%positive; SvWorker 0 false;
   SvForward sampleEnv "u" true 1%positive; SvForward sampleEnv "u" true 3%positive; SvForward sampleEnv "u" true 1%positive;
   SvForward sampleEnv "u" true 3%positive; SvWorker 1 false; SvWorker 0 false; SvExit sampleEnv 1%positive].

Definition sampleInit (a : bytes) (t : string) (r : bool) : option bytes := Some a.

Definition serverAfter : ServerState :=
  default sampleServer (serverRun (sampleConfig 1000) "1" "node" (replicate 20 9) sampleInit serverSample sampleServer).

Example serverSample_dropped : length (dropped serverAfter) = 1%nat /\ length (handled serverAfter) = 1%nat.
Proof. vm_compute. done. Qed.

Lemma server_requests_witness :
  arrivals serverSample ≡ₚ pending serverAfter ++
    abandoned (sampleConfig 1000) "1" "node" (replicate 20 9) sampleInit serverSample sampleServer /\
  Z.of_nat (length (central serverAfter)) <= RequestChanSize (sampleConfig 1000) /\
  (length (busyMessages serverAfter) <= length (dropped serverAfter))%nat /\
  (Forall sendsOk serverSample -> length (busyMessages serverAfter) = length (dropped serverAfter)).
Proof.
  apply (server_requests (sampleConfig 1000) "1" "node" (replicate 20 9) sampleInit NewConnectionsManager serverSample serverAfter);
    [done|vm_compute; reflexivity|vm_compute; reflexivity].
Defined.

(** ** Shutdown *)

Definition workerWeight (w : Worker) : nat := match w with WIdle => 1 | WBusy _ => 2 | WStopped => 0 end.
Definition poolWeight (s : ServerState) : nat := 2 * length (central s) + sum_list_with workerWeight (workers s).

Lemma workerStep_weight i d s s' : workerStep i d s = Some s' -> (poolWeight s' < poolWeight s)%nat.
Proof.
  unfold workerStep, setWorker, poolWeight. destruct (workers s !! i) as [w|] eqn:Ew; [|done]. simpl.
  pose proof (fun y => sum_with_insert workerWeight _ _ _ y Ew) as Hw.
  destruct w as [|r|]; [| |done].
  - destruct (d && ctxDone s); [|destruct (central s) as [|r q]; [destruct (centralClosed s); [|done]|]]; intros [= <-]; cbn.
    + specialize (Hw WStopped). cbn in Hw. lia.
    + specialize (Hw WStopped). cbn in Hw. lia.
    + specialize (Hw (WBusy r)). cbn in Hw. lia.
  - intros [= <-]. cbn. specialize (Hw WIdle). cbn in Hw. lia.
Qed.

Lemma workerStep_closed i d s s' : workerStep i d s = Some s' -> centralClosed s' = centralClosed s.
Proof. unfold workerStep, setWorker. destruct (workers s !! i) as [w|]; [|done]. simpl. repeat case_match; by intros [= <-]. Qed.

Fixpoint workerRun (es : list (nat * bool)) (s : ServerState) : option ServerState :=
  match es with [] => Some s | (i, d) :: es => s' ← workerStep i d s; workerRun es s' end.

(** Once [Stop] has closed the central channel, the workers it
    waits for all finish, whatever the order in which they run: they can take only
    a bounded number of steps, and as long as one has not stopped it can take a
    step. *)
Theorem stop_workers (s : ServerState) es s' :
  centralClosed s = true -> workerRun es s = Some s' ->
  (length es <= poolWeight s)%nat /\
  forall i w, workers s' !! i = Some w -> w = WStopped \/ exists d s'', workerStep i d s' = Some s''.
Proof.
  intros Hc Hr. assert (Hx : centralClosed s' = true /\ (length es + poolWeight s' <= poolWeight s)%nat).
  { revert s Hc Hr. induction es as [|[i d] es IH]; intros s Hc; simpl; [intros [= <-]; split; [done|lia]|].
    destruct (workerStep i d s) as [s1|] eqn:E; [|done]. simpl. intros Hr.
    pose proof (workerStep_weight i d s s1 E). rewrite <- (workerStep_closed i d s s1 E) in Hc.
    destruct (IH s1 Hc Hr). split; [done|lia]. }
  destruct Hx as [Hc' Hw]. split; [lia|]. intros i w Hi. unfold workerStep. destruct w as [|r|]; [right|right|by left].
  - exists false. rewrite Hi. cbn. destruct (central s'); [rewrite Hc'|]; by eexists.
  - exists false. rewrite Hi. by eexists.
Qed.

Definition stoppedServer : ServerState :=
  default serverAfter (serverRun (sampleConfig 1000) "1" "node" (replicate 20 9) sampleInit [SvCancel; SvClose] serverAfter).

Definition stopSample : list (nat * bool) := [(0%nat, false); (1%nat, false); (1%nat, true)].

Lemma stop_workers_witness :
  let s' := default stoppedServer (workerRun stopSample stoppedServer) in
  (length stopSample <= poolWeight stoppedServer)%nat /\
  forall i w, workers s' !! i = Some w -> w = WStopped \/ exists d s'', workerStep i d s' = Some s''.
Proof. intros s'. apply (stop_workers stoppedServer stopSample s'); vm_compute; reflexivity. Defined.

(** [Stop] closes the central channel without waiting for the
    loops of the connections: a loop whose [select] then takes a request sends it on
    the closed channel and panics, for every server that serves a connection with a
    request waiting. *)
Theorem stop_send_race `{EthLib} config version nodeType own encodeInit env uuid sends c r q s :
  crashed s = false -> centralClosed s = false -> inbox s !! c = Some (r :: q) ->
  exists s', serverRun config version nodeType own encodeInit [SvCancel; SvClose; SvForward env uuid sends c] s = Some s' /\
    crashed s' = true.
Proof.
  intros Hc Hcl Hi. destruct s. cbn in Hc, Hcl, Hi. subst. eexists. cbn. unfold serverStep, forward. cbn. rewrite Hi. cbn.
  split; reflexivity.
Qed.

Lemma stop_send_race_witness :
  exists s', serverRun (sampleConfig 1000) "1" "node" (replicate 20 9) sampleInit
      [SvCancel; SvClose; SvForward sampleEnv "u" true 3%positive]
      (default sampleServer (serverRun (sampleConfig 1000) "1" "node" (replicate 20 9) sampleInit (take 9 serverSample) sampleServer))
      = Some s' /\ crashed s' = true.
Proof.
  eapply (stop_send_race (sampleConfig 1000)); [vm_compute; reflexivity|vm_compute; reflexivity|vm_compute; reflexivity].
Defined.

(** ** The registry after a connection *)

(** When the loop of a connection ends, the connection is
    no longer what the registry answers for its type and address, every other
    entry is as before, it is not the parent any more, and [Disconnect] was called
    on it. *)
Theorem exit_unregisters `{EthLibLaws} config version nodeType own encodeInit env c s s' m :
  rep (manager s) m -> env_wf env ->
  serverStep config version nodeType own encodeInit (SvExit env c) s = Some s' ->
  let k := (MapConnectionTypeToIndex (Type_ env c), Address env c) in
  ConnectionByTypeAndAddress k.1 k.2 (manager s') <> Some c /\
  (forall cType a, is_address a -> (cType, a) <> k ->
     ConnectionByTypeAndAddress cType a (manager s') = ConnectionByTypeAndAddress cType a (manager s)) /\
  parentConnection (manager s') <> Some c /\ last (disconnected s') = Some c /\ inbox s' !! c = None.
Proof.
  intros R Hw Hs k. unfold serverStep in Hs. destruct (crashed s); [done|]. destruct (inbox s !! c); [|done].
  simpl in Hs. injection Hs as <-. unfold exitConnection. cbn [OnDisconnect manager disconnected inbox].
  destruct (remove_rep env c (manager s) m R Hw) as [R' P']. split_and!.
  - rewrite (lookup_rep _ _ _ _ R') by apply Hw. cbn. fold k.
    change (k.1, k.2) with k. case_bool_decide as Hk; [by rewrite lookup_delete_eq|done].
  - intros cType a La Hne. rewrite (lookup_rep _ _ _ _ R'), (lookup_rep _ _ _ _ R) by done. cbn. fold k.
    case_bool_decide; [by rewrite lookup_delete_ne by done|done].
  - rewrite P'. cbn. by case_bool_decide.
  - by rewrite last_snoc.
  - apply lookup_delete_eq.
Qed.

Definition registered : ConnectionsManager := foldl runOp NewConnectionsManager (take 4 sampleOps).
Definition registeredSpec : gmap (Z * bytes) Conn := (foldl specOp (∅, None) (take 4 sampleOps)).1.

Lemma sampleEnv_wf : env_wf sampleEnv.
Proof.
  intros c. split; [done|]. apply Forall_app. split.
  - apply Forall_replicate. done.
  - apply Forall_singleton. unfold is_byte. apply Z.mod_pos_bound. done.
Qed.

Lemma registered_rep : rep registered registeredSpec.
Proof.
  apply (registry_runs (take 4 sampleOps) NewConnectionsManager ∅ rep_new).
  repeat (apply Forall_cons; split; [apply sampleEnv_wf || done|]). by apply Forall_nil.
Qed.

Lemma exit_unregisters_witness :
  let s := openInbox 1%positive (newServer registered) in
  let s' := exitConnection sampleEnv 1%positive s in
  let k := (MapConnectionTypeToIndex (Type_ sampleEnv 1%positive), Address sampleEnv 1%positive) in
  ConnectionByTypeAndAddress k.1 k.2 (manager s') <> Some 1%positive /\
  (forall cType a, is_address a -> (cType, a) <> k ->
     ConnectionByTypeAndAddress cType a (manager s') = ConnectionByTypeAndAddress cType a (manager s)) /\
  parentConnection (manager s') <> Some 1%positive /\ last (disconnected s') = Some 1%positive /\ inbox s' !! 1%positive = None.
Proof.
  intros s s'. apply (exit_unregisters (sampleConfig 1000) "1" "node" [] sampleInit sampleEnv 1%positive s s' registeredSpec);
    [apply registered_rep|apply sampleEnv_wf|reflexivity].
Defined.

(** ** The counters *)

(** A history of handled messages and report ticks. *)
Inductive tpsOp := TpsRequest (cmd : string) | TpsTick (now : Z).

#[export] Instance tpsOp_eq_dec : EqDecision tpsOp.
Proof. solve_decision. Defined.

Definition tpsRun (st : list (string * Z) * tpsTracker) (o : tpsOp) : list (string * Z) * tpsTracker :=
  match o with
  | TpsRequest cmd => (st.1, countRequest cmd st.2)
  | TpsTick now =>
      let r := logTPS (C := unit) (W := unit) now (mkHandler ∅ st.2) in
      (st.1 ++ r.1, tps r.2)
  end.

Definition reported (cmd : string) (l : list (string * Z)) : Z :=
  foldr (fun p z => (if bool_decide (p.1 = cmd) then p.2 else 0) + z) 0 l.
Definition requestsFor (cmd : string) (l : list tpsOp) : Z :=
  Z.of_nat (length (filter (fun o => o = TpsRequest cmd) l)).

Lemma reported_app cmd a b : reported cmd (a ++ b) = reported cmd a + reported cmd b.
Proof. unfold reported. induction a as [|p a IH]; simpl; [done|]. rewrite IH. lia. Qed.

(** The reported counters of one tick are the counters. *)
Lemma reported_counts cmd (m : gmap string Z) l :
  (forall k z, m !! k = Some z -> 0 <= z) -> l ≡ₚ (map_to_list m).*1 ->
  reported cmd (filter (fun p => 0 < p.2) ((fun r => (r, default 0 (m !! r))) <$> l)) = default 0 (m !! cmd).
Proof.
  intros Hpos Hl. assert (Hn : NoDup l) by (rewrite Hl; apply NoDup_fst_map_to_list).
  assert (Hin : forall k, k ∈ l <-> is_Some (m !! k)).
  { intros k. rewrite Hl. rewrite list_elem_of_fmap. split.
    - intros ([k' z] & -> & Hk). apply elem_of_map_to_list in Hk. by eexists.
    - intros [z Hz]. exists (k, z). split; [done|]. by apply elem_of_map_to_list. }
  assert (Hgen : forall l', NoDup l' -> reported cmd (filter (fun p => 0 < p.2) ((fun r => (r, default 0 (m !! r))) <$> l')) =
    if bool_decide (cmd ∈ l') then default 0 (m !! cmd) else 0).
  { clear l Hl Hn Hin. induction 1 as [|k l' Hk Hn IH]; [done|]. cbn [fmap list_fmap].
    assert (H0 : 0 <= default 0 (m !! k)) by (destruct (m !! k) eqn:E; [by eapply Hpos|done]).
    assert (Hd : (default 0 (m !! k) <= 0 -> default 0 (m !! k) = 0)) by lia.
    destruct (decide (cmd = k)) as [->|Hne].
    - rewrite (bool_decide_true (k ∈ k :: l')) by set_solver. rewrite (bool_decide_false (k ∈ l')) in IH by done.
      destruct (decide (0 < default 0 (m !! k))).
      + rewrite filter_cons_True by done. cbn [reported foldr fst snd]. rewrite bool_decide_true by done.
        fold (reported k (filter (fun p : string * Z => 0 < p.2) ((fun r => (r, default 0 (m !! r))) <$> l'))). rewrite IH. lia.
      + rewrite filter_cons_False by done. rewrite IH. lia.
    - rewrite (bool_decide_ext (cmd ∈ k :: l') (cmd ∈ l')) by set_solver.
      destruct (decide (0 < default 0 (m !! k))).
      + rewrite filter_cons_True by done. cbn [reported foldr fst snd]. rewrite bool_decide_false by done.
        fold (reported cmd (filter (fun p : string * Z => 0 < p.2) ((fun r => (r, default 0 (m !! r))) <$> l'))). rewrite IH. lia.
      + rewrite filter_cons_False by done. done. }
  rewrite Hgen by done. case_bool_decide as Hc; [done|]. rewrite Hin in Hc. apply eq_None_not_Some in Hc. by rewrite Hc.
Qed.

(** The reports account for every request: for each command,
    the numbers printed so far and the current counter add up to the requests
    handled, whenever the ticks come. *)
Theorem tps_accounts (ops : list tpsOp) (cmd : string) (t0 : Z) :
  Z.of_nat (length ops) < 2 ^ 63 ->
  let st := foldl tpsRun ([], mkTracker ∅ t0) ops in
  reported cmd st.1 + default 0 (counts st.2 !! cmd) = requestsFor cmd ops.
Proof.
  intros Hl st.
  assert (Hx : forall c, (reported c st.1 + default 0 (counts st.2 !! c) = requestsFor c ops /\ 0 <= reported c st.1) /\
    forall k z, counts st.2 !! k = Some z -> 0 <= z); [|apply Hx].
  unfold st. clear cmd st. revert Hl. induction ops as [|o ops IH] using rev_ind; intros Hl c.
  - cbn. split; [split; [done|lia]|]. intros k z. by rewrite lookup_empty.
  - rewrite length_app in Hl. cbn in Hl. specialize (IH ltac:(lia)). rewrite foldl_app. cbn [foldl].
    set (st := foldl tpsRun ([], mkTracker ∅ t0) ops) in *. unfold requestsFor. rewrite filter_app, length_app.
    assert (Hle : forall k, requestsFor k ops <= Z.of_nat (length ops)).
    { intros k. unfold requestsFor. pose proof (length_filter (fun o => o = TpsRequest k) ops). lia. }
    destruct (IH c) as [[IHc IHr] IHp]. destruct o as [k|now].
    + cbn [tpsRun fst snd countRequest counts]. destruct (IH k) as [[IHk IHrk] _]. specialize (Hle k).
      assert (Hk : to_int64 (default 0 (counts st.2 !! k) + 1) = default 0 (counts st.2 !! k) + 1).
      { apply to_int64_id. assert (0 <= default 0 (counts st.2 !! k)) by (destruct (counts st.2 !! k) eqn:E; [by eapply IHp|done]). lia. }
      rewrite Hk. split.
      * split; [|done]. destruct (decide (k = c)) as [->|N].
        -- rewrite lookup_insert_eq, filter_cons_True by done. cbn. unfold requestsFor in IHc. lia.
        -- rewrite lookup_insert_ne by done. rewrite filter_cons_False by congruence. cbn. unfold requestsFor in IHc. lia.
      * intros j z. destruct (decide (j = k)) as [->|N].
        -- rewrite lookup_insert_eq. intros [= <-]. destruct (counts st.2 !! k) eqn:E; cbn; [|lia]. specialize (IHp _ _ E). lia.
        -- rewrite lookup_insert_ne by done. apply IHp.
    + rewrite filter_cons_False by done. cbn [tpsRun]. unfold logTPS. cbn [tps]. destruct (_ <? _).
      * cbn [fst snd tps]. rewrite app_nil_r. cbn. rewrite Nat.add_0_r. auto.
      * cbn [fst snd tps counts]. rewrite reported_app, reported_counts; [|done|apply merge_sort_Permutation].
        rewrite lookup_empty. cbn. rewrite Nat.add_0_r. unfold requestsFor in IHc. split; [split|].
        -- lia.
        -- assert (0 <= default 0 (counts st.2 !! c)) by (destruct (counts st.2 !! c) eqn:E; [by eapply IHp|done]). lia.
        -- intros k z. by rewrite lookup_empty.
Qed.

Lemma tps_accounts_witness :
  let ops := [TpsRequest "Ping"; TpsRequest "Receipt"; TpsTick 40; TpsTick 60000000; TpsRequest "Ping"] in
  let st := foldl tpsRun ([], mkTracker ∅ 0) ops in
  reported "Ping" st.1 + default 0 (counts st.2 !! "Ping"%string) = requestsFor "Ping" ops.
Proof. intros ops. apply (tps_accounts ops "Ping" 0). done. Defined.
