(* ===== verification/ConnectionsRace.v ===== *)
(** * Concurrent calls of the registry

    [connections_manager.go] reads a shard and writes it in two steps, each of
    them atomic ([sync.Map]).  Here a call of [AddConnectionWithAddress] or
    [RemoveConnection] is a thread that takes these steps, and threads interleave.
    [Connections] has the calls as single steps; a thread that runs alone does the
    same. *)

From S2P Require Import Prelude TrieEncoding TrieNode Instances Connections.

Local Open Scope Z_scope.

Section Threads.
Context `{EthLib}.

(** A thread before its [Load], before its [Store] or [Delete], before it looks
    at the parent connection, and at its end. *)
Inductive RegThread :=
| TAdd (env : ConnEnv) (c : Conn) (a : bytes) (replace : bool) (ov : string)
| TAddStore (cType : Z) (a : bytes) (c : Conn)
| TRemove (env : ConnEnv) (c : Conn)
| TRemoveDelete (cType : Z) (a : bytes) (c : Conn)
| TRemoveParent (c : Conn)
| TEnd.

Definition regThreadStep (t : RegThread) (cm : ConnectionsManager) : option (RegThread * ConnectionsManager) :=
  match t with
  | TAdd env c a replace ov =>
      let cTypeStr := if bool_decide (ov = ""%string) then Type_ env c else ov in
      let cType := MapConnectionTypeToIndex cTypeStr in
      match getShard cType a cm with
      | None => Some (TEnd, cm)
      | Some shard =>
          match shard !! addressKey a with
          | Some _ => if negb replace then Some (TEnd, cm) else Some (TAddStore cType a c, cm)
          | None => Some (TAddStore cType a c, cm)
          end
      end
  | TAddStore cType a c =>
      Some (TEnd, setShard cType (calculateShardIndex a)
                    (<[addressKey a := mkRecord a c]> (shardAt cm cType (calculateShardIndex a))) cm)
  | TRemove env c =>
      let a := Address env c in
      let cType := MapConnectionTypeToIndex (Type_ env c) in
      match getShard cType a cm with
      | None => Some (TEnd, cm)
      | Some shard =>
          match shard !! addressKey a with
          | Some record => if bool_decide (rconn record = c) then Some (TRemoveDelete cType a c, cm) else Some (TRemoveParent c, cm)
          | None => Some (TRemoveParent c, cm)
          end
      end
  | TRemoveDelete cType a c =>
      Some (TRemoveParent c, setShard cType (calculateShardIndex a)
                               (delete (addressKey a) (shardAt cm cType (calculateShardIndex a))) cm)
  | TRemoveParent c =>
      Some (TEnd, if bool_decide (parentConnection cm = Some c) then mkManager None (typeToShards cm) else cm)
  | TEnd => None
  end.

(** The threads and the registry; a schedule is the list of the threads that
    take the next step. *)
Fixpoint regSchedule (sch : list nat) (ts : list RegThread) (cm : ConnectionsManager) : option (list RegThread * ConnectionsManager) :=
  match sch with
  | [] => Some (ts, cm)
  | i :: sch =>
      t ← ts !! i;
      r ← regThreadStep t cm;
      regSchedule sch (<[i := r.1]> ts) r.2
  end.

Lemma regSchedule_cons i sch ts cm t t1 cm1 : ts !! i = Some t -> regThreadStep t cm = Some (t1, cm1) ->
  regSchedule (i :: sch) ts cm = regSchedule sch (<[i := t1]> ts) cm1.
Proof. intros Ht Hs. cbn [regSchedule]. rewrite Ht. cbn. by rewrite Hs. Qed.
End Threads.

(** ** A thread alone *)

Section Alone.
Context `{EthLibLaws}.

Lemma add_alone env c a replace ov cm m : rep cm m ->
  exists n, regSchedule (replicate n 0%nat) [TAdd env c a replace ov] cm =
    Some ([TEnd], (AddConnectionWithAddress env (Some c) a replace ov cm).2).
Proof.
  intros R. unfold AddConnectionWithAddress. rewrite (getShard_rep cm m) by done.
  set (s := if bool_decide (ov = ""%string) then Type_ env c else ov).
  destruct (shardAt cm (MapConnectionTypeToIndex s) (calculateShardIndex a) !! addressKey a) as [r|] eqn:E.
  - destruct replace; cbn [negb].
    + exists 2%nat. cbn. fold s. rewrite (getShard_rep cm m) by done. rewrite E. cbn. by destruct (_ && _).
    + exists 1%nat. cbn. fold s. rewrite (getShard_rep cm m) by done. by rewrite E.
  - exists 2%nat. cbn. fold s. rewrite (getShard_rep cm m) by done. by rewrite E.
Qed.

Lemma remove_alone env c cm m : rep cm m ->
  exists n, regSchedule (replicate n 0%nat) [TRemove env c] cm = Some ([TEnd], RemoveConnection env (Some c) cm).
Proof.
  intros R. unfold RemoveConnection. rewrite (getShard_rep cm m) by done.
  destruct (shardAt cm _ _ !! addressKey (Address env c)) as [r|] eqn:E.
  - destruct (decide (rconn r = c)) as [Ec|Ec].
    + exists 3%nat. cbn. rewrite (getShard_rep cm m) by done. rewrite E, bool_decide_true by done. done.
    + exists 2%nat. cbn. rewrite (getShard_rep cm m) by done. rewrite E, bool_decide_false by done. done.
  - exists 2%nat. cbn. rewrite (getShard_rep cm m) by done. by rewrite E.
Qed.

(** The threads a caller starts, and what they hold after their first step. *)
Definition thread_wf (t : RegThread) : Prop :=
  match t with
  | TAdd env c a _ _ => is_address a
  | TRemove env c => env_wf env
  | TAddStore cType a _ | TRemoveDelete cType a _ => 0 <= cType < Z.of_nat MaxConnectionTypes /\ is_address a
  | _ => True
  end.

Lemma threadStep_rep t cm m t' cm' : rep cm m -> thread_wf t -> regThreadStep t cm = Some (t', cm') ->
  thread_wf t' /\ exists m', rep cm' m' /\ forall k c, m' !! k = Some c -> m !! k = Some c \/
    exists cType a, t = TAddStore cType a c /\ k = (cType, a).
Proof.
  intros R Hw. destruct t as [env c a replace ov|cType a c|env c|cType a c|c|]; cbn [regThreadStep]; cbv zeta.
  - set (s := if bool_decide (ov = ""%string) then Type_ env c else ov). rewrite (getShard_rep cm m) by done.
    pose proof (typeIndex_range s). repeat case_match; intros [= <- <-]; (split; [done|]); exists m; auto.
  - intros [= <- <-]. split; [done|]. destruct Hw as [Hc Ha]. exists (<[(cType, a) := c]> m). split; [by apply rep_insert|].
    intros k d. destruct (decide (k = (cType, a))) as [->|N].
    + rewrite lookup_insert_eq. intros [= <-]. right. by exists cType, a.
    + rewrite lookup_insert_ne by done. by left.
  - rewrite (getShard_rep cm m) by done. pose proof (typeIndex_range (Type_ env c)).
    repeat case_match; intros [= <- <-]; (split; [done || (split; [done|apply Hw])|]); exists m; auto.
  - intros [= <- <-]. split; [done|]. destruct Hw as [Hc Ha]. exists (delete (cType, a) m). split; [by apply rep_delete|].
    intros k d. rewrite lookup_delete_Some. intros [_ ?]. by left.
  - intros [= <- <-]. split; [done|]. exists m. split; [|auto]. case_bool_decide; [by apply rep_parent|done].
  - done.
Qed.

(** The additions among the threads started. *)
Definition adds (ts : list RegThread) (cType : Z) (a : bytes) (c : Conn) : Prop :=
  (exists env replace ov, TAdd env c a replace ov ∈ ts /\ cType = typeOf env c ov) \/ TAddStore cType a c ∈ ts.

Lemma step_new t cm t' cm' cType a c : regThreadStep t cm = Some (t', cm') ->
  (forall env c a replace ov, t' <> TAdd env c a replace ov) /\
  (t' = TAddStore cType a c -> exists env replace ov, t = TAdd env c a replace ov /\ cType = typeOf env c ov).
Proof.
  destruct t as [env d b replace ov|ct b d|env d|ct b d|d|]; cbn [regThreadStep]; cbv zeta.
  - fold (typeOf env d ov). destruct (getShard _ _ _) as [sh|]; [|by intros [= <- <-]].
    destruct (sh !! addressKey b); [destruct replace|]; intros [= <- <-]; (split; [done|]); try done;
      intros [= <- <- <-]; by eexists _, _, _.
  - by intros [= <- <-].
  - repeat case_match; by intros [= <- <-].
  - by intros [= <- <-].
  - by intros [= <- <-].
  - done.
Qed.

Lemma adds_step ts i t t' cm cm' cType a c :
  ts !! i = Some t -> regThreadStep t cm = Some (t', cm') -> adds (<[i := t']> ts) cType a c -> adds ts cType a c.
Proof.
  intros Hi Hs Ha. assert (Ht : t ∈ ts) by (by eapply list_elem_of_lookup_2).
  assert (Hin : forall u, u ∈ <[i := t']> ts -> u = t' \/ u ∈ ts).
  { intros u [j Hj]%list_elem_of_lookup_1. destruct (decide (j = i)) as [->|N].
    - rewrite list_lookup_insert_eq in Hj by (by eapply lookup_lt_Some). left. congruence.
    - rewrite list_lookup_insert_ne in Hj by done. right. by eapply list_elem_of_lookup_2. }
  destruct (step_new t cm t' cm' cType a c Hs) as [Hna Hns].
  destruct Ha as [(env & replace & ov & Ha & ->)|Ha]; apply Hin in Ha as [Ha|Ha].
  - by apply symmetry, Hna in Ha.
  - left. by exists env, replace, ov.
  - destruct (Hns (eq_sym Ha)) as (env & replace & ov & -> & ->). left. by exists env, replace, ov.
  - by right.
Qed.

Lemma threads_rep sch ts cm m ts' cm' : rep cm m -> Forall thread_wf ts -> regSchedule sch ts cm = Some (ts', cm') ->
  exists m', rep cm' m' /\ forall cType a c, m' !! (cType, a) = Some c -> m !! (cType, a) = Some c \/ adds ts cType a c.
Proof.
  revert ts cm m. induction sch as [|i sch IH]; intros ts cm m R Hw; cbn [regSchedule].
  - intros [= <- <-]. eauto.
  - destruct (ts !! i) as [t|] eqn:Et; [|done]. cbn. destruct (regThreadStep t cm) as [[t1 cm1]|] eqn:Es; [|done].
    cbn. intros Hr. pose proof (proj1 (Forall_lookup _ _) Hw _ _ Et) as Ht.
    destruct (threadStep_rep t cm m t1 cm1 R Ht Es) as (Hw1 & m1 & R1 & Hm1).
    destruct (IH _ cm1 m1 R1 (Forall_insert _ _ _ _ Hw Hw1) Hr) as (m' & R' & Hm'). exists m'. split; [done|].
    intros cType a c Hc. destruct (Hm' _ _ _ Hc) as [H1|H1].
    + destruct (Hm1 _ _ H1) as [?|(ct & b & -> & [= -> ->])]; [by left|]. right. right. by eapply list_elem_of_lookup_2.
    + right. by eapply adds_step.
Qed.
End Alone.

(** However concurrent additions and removals interleave, the
    registry stays a well-filed map: what a lookup answers was there before or was
    added by one of the calls, under that type and address.  But the calls are not
    atomic: when a connection is replaced while the loop of the old one ends, the
    new connection can be removed, in an interleaving of the two calls, although
    with either call first it would stay. *)
Theorem registry_interleaving `{EthLibLaws} cm m :
  rep cm m ->
  (forall ts sch ts' cm', Forall thread_wf ts -> regSchedule sch ts cm = Some (ts', cm') ->
     forall cType a c, is_address a -> ConnectionByTypeAndAddress cType a cm' = Some c ->
     m !! (cType, a) = Some c \/ adds ts cType a c) /\
  (forall env c1 c2, env_wf env -> c1 <> c2 -> Type_ env c1 = Type_ env c2 -> Address env c1 = Address env c2 ->
     let cType := MapConnectionTypeToIndex (Type_ env c1) in
     let a := Address env c1 in
     m !! (cType, a) = Some c1 ->
     let add := OpAddWithAddress env (Some c2) a true "" in
     let remove := OpRemove env (Some c1) in
     (exists cm', regSchedule [0; 1; 1; 0; 0]%nat [TRemove env c1; TAdd env c2 a true ""] cm = Some ([TEnd; TEnd], cm') /\
        ConnectionByTypeAndAddress cType a cm' = None) /\
     ConnectionByTypeAndAddress cType a (runOp (runOp cm add) remove) = Some c2 /\
     ConnectionByTypeAndAddress cType a (runOp (runOp cm remove) add) = Some c2).
Proof.
  intros R. split.
  - intros ts sch ts' cm' Hw Hr cType a c La Hc. destruct (threads_rep sch ts cm m ts' cm' R Hw Hr) as (m' & R' & Hm').
    apply Hm'. by rewrite <- (lookup_rep cm' m').
  - intros env c1 c2 Hw Hne Et Ea cType a Hm add remove. pose proof (Hw c1) as La. fold a in La.
    pose proof (typeIndex_range (Type_ env c1)) as Hr. fold cType in Hr.
    assert (Hty : typeOf env c2 "" = cType) by (unfold typeOf; rewrite bool_decide_true by done; by rewrite <- Et).
    split_and!.
    + pose proof (rep_insert cm m cType a c2 R Hr La) as R2. set (cm2 := setShard _ _ _ _) in R2.
      pose proof (rep_delete cm2 _ cType a R2 Hr La) as R3. set (cm3 := setShard _ _ _ _) in R3.
      assert (L1 : regThreadStep (TRemove env c1) cm = Some (TRemoveDelete cType a c1, cm)).
      { cbn [regThreadStep]. cbv zeta. rewrite (getShard_rep cm m) by done. fold a cType.
        rewrite (lookup_shard cm m) by (done || lia). rewrite Hm. cbn. by rewrite bool_decide_true. }
      assert (L2 : regThreadStep (TAdd env c2 a true "") cm = Some (TAddStore cType a c2, cm)).
      { cbn [regThreadStep]. cbv zeta. rewrite bool_decide_true by done. rewrite (getShard_rep cm m) by done.
        rewrite <- Et. fold cType. rewrite (lookup_shard cm m) by (done || lia). by rewrite Hm. }
      eexists. split.
      * erewrite regSchedule_cons; [|reflexivity|exact L1]. erewrite regSchedule_cons; [|reflexivity|exact L2].
        erewrite regSchedule_cons; [|reflexivity|reflexivity]. fold cm2.
        erewrite regSchedule_cons; [|reflexivity|reflexivity]. fold cm3.
        erewrite regSchedule_cons; [|reflexivity|reflexivity]. reflexivity.
      * assert (Hl : forall p, ConnectionByTypeAndAddress cType a (mkManager p (typeToShards cm3)) = None).
        { intros p. rewrite (lookup_rep _ _ _ _ (rep_parent _ _ p R3)) by done. by rewrite lookup_delete_eq. }
        case_bool_decide; [apply Hl|]. rewrite (lookup_rep _ _ _ _ R3) by done. by rewrite lookup_delete_eq.
    + destruct (registry_runs [add; remove] cm m R) as [R2 _].
      { repeat (apply Forall_cons; split; [done|]). by apply Forall_nil. }
      rewrite (lookup_rep _ _ _ _ R2) by done. cbn. rewrite Hty. fold cType a. unfold addSpec. rewrite Hm.
      rewrite lookup_insert_eq. rewrite bool_decide_false by congruence. by rewrite lookup_insert_eq.
    + destruct (registry_runs [remove; add] cm m R) as [R2 _].
      { repeat (apply Forall_cons; split; [done|]). by apply Forall_nil. }
      rewrite (lookup_rep _ _ _ _ R2) by done. cbn. rewrite Hty. fold cType a. rewrite Hm.
      rewrite bool_decide_true by done. unfold addSpec. rewrite lookup_delete_eq. by rewrite lookup_insert_eq.
Qed.

(** A second connection to the same node, registered in place of the first while
    the first one is being removed. *)
Definition replaceEnv : ConnEnv := mkEnv (fun _ => replicate 20 5) (fun _ => "node"%string) (fun _ => true).
Definition replaceManager : ConnectionsManager := runOp NewConnectionsManager (OpAdd replaceEnv (Some 1%positive) false "").

Lemma replaceEnv_wf : env_wf replaceEnv.
Proof. intros c. split; [done|]. by apply Forall_replicate. Qed.

Lemma registry_interleaving_witness :
  let cm := replaceManager in
  let env := replaceEnv in
  let a := replicate 20 5 in
  (exists cm', regSchedule [0; 1; 1; 0; 0]%nat [TRemove env 1%positive; TAdd env 2%positive a true ""] cm = Some ([TEnd; TEnd], cm') /\
     ConnectionByTypeAndAddress 2 a cm' = None) /\
  ConnectionByTypeAndAddress 2 a
    (runOp (runOp cm (OpAddWithAddress env (Some 2%positive) a true "")) (OpRemove env (Some 1%positive))) = Some 2%positive /\
  ConnectionByTypeAndAddress 2 a
    (runOp (runOp cm (OpRemove env (Some 1%positive))) (OpAddWithAddress env (Some 2%positive) a true "")) = Some 2%positive.
Proof.
  destruct (registry_runs [OpAdd replaceEnv (Some 1%positive) false ""] NewConnectionsManager ∅ rep_new) as [R _].
  { apply Forall_singleton. apply replaceEnv_wf. }
  apply (proj2 (registry_interleaving replaceManager _ R) replaceEnv 1%positive 2%positive replaceEnv_wf);
    [done|reflexivity|reflexivity|vm_compute; reflexivity].
Defined.
