(* ===== verification/ReceiptRouter.v ===== *)
(** * The receipt router of the client

    Models [runReceiptRouter] of [pkg/client-tcp/client.go]: the goroutine that
    hands receipts coming from the node to the callers waiting for them, and keeps
    a receipt for a while for a caller that registers late; and the register and
    cancel requests of [waitReceipt].

    The router is one goroutine: an event is one turn of its loop.  A response
    channel is a number; every call of [waitReceipt] makes a new one, with room for
    one receipt.  Times are nanoseconds. *)

From S2P Require Import Prelude Receipts Instances.

Local Open Scope Z_scope.

Inductive receiptMatchType := matchByTxHash | matchByReceiptHash.

#[export] Instance receiptMatchType_eq_dec : EqDecision receiptMatchType.
Proof. solve_decision. Defined.

Record receiptWaiter := mkWaiter { wCh : nat; wMatch : receiptMatchType; wTxHash : bytes }.
Record pendingReceipt := mkPending { pValue : Receipt; pExpiresAt : Z }.

(** [delivered] holds, for each channel, the receipts that were put into it. *)
Record Router := mkRouter {
  waiters : gmap bytes (list receiptWaiter);
  pendingReceipts : gmap bytes pendingReceipt;
  delivered : gmap nat (list Receipt)
}.

Definition emptyRouter : Router := mkRouter ∅ ∅ ∅.

Definition pendingReceiptTTL : Z := 60 * 1000000000.

(** The send with a default: a receipt for a full channel is dropped. *)
Definition trySend (ch : nat) (r : Receipt) (d : gmap nat (list Receipt)) : gmap nat (list Receipt) :=
  match d !! ch with
  | None => <[ch := [r]]> d
  | Some _ => d
  end.

Section Router.
Context `{EthLib}.

(** The loop over the waiters of a hash: the matched ones get the receipt, the
    others remain. *)
Definition giveStep (matched : receiptWaiter -> bool) (r : Receipt) (p : list receiptWaiter * gmap nat (list Receipt))
  (w : receiptWaiter) : list receiptWaiter * gmap nat (list Receipt) :=
  if matched w then (p.1, trySend (wCh w) r p.2) else (p.1 ++ [w], p.2).

Definition giveAll (matched : receiptWaiter -> bool) (r : Receipt) (ws : list receiptWaiter) (d : gmap nat (list Receipt)) :
  list receiptWaiter * gmap nat (list Receipt) :=
  foldl (giveStep matched r) ([], d) ws.

Definition giveHash (mt : receiptMatchType) (h : bytes) (r : Receipt) (st : Router) : Router :=
  match waiters st !! h with
  | None => st
  | Some ws =>
      let '(remaining, d) := giveAll (fun w => bool_decide (wMatch w = mt) && bool_decide (wTxHash w = h)) r ws (delivered st) in
      mkRouter (if (length remaining =? 0)%nat then delete h (waiters st) else <[h := remaining]> (waiters st))
        (pendingReceipts st) d
  end.

Definition onReceipt (now : Z) (r : Receipt) (st : Router) : Router :=
  let txHash := TransactionHash r in
  let receiptHash := RHash r in
  let st := giveHash matchByTxHash txHash r st in
  let st := giveHash matchByReceiptHash receiptHash r st in
  mkRouter (waiters st) (<[txHash := mkPending r (now + pendingReceiptTTL)]> (pendingReceipts st)) (delivered st).

(** A receipt that came before is handed over at once, one that has expired is
    forgotten; the [break] then leaves the switch without a registration. *)
Definition onRegister (now : Z) (ch : nat) (mt : receiptMatchType) (txHash : bytes) (st : Router) : Router :=
  match pendingReceipts st !! txHash with
  | Some pending =>
      let st' := mkRouter (waiters st) (delete txHash (pendingReceipts st)) (delivered st) in
      if pExpiresAt pending <? now then st'
      else mkRouter (waiters st') (pendingReceipts st') (trySend ch (pValue pending) (delivered st'))
  | None =>
      mkRouter (<[txHash := default [] (waiters st !! txHash) ++ [mkWaiter ch mt txHash]]> (waiters st))
        (pendingReceipts st) (delivered st)
  end.

(** The first waiter with that channel is cut out. *)
Fixpoint removeFirst (ch : nat) (ws : list receiptWaiter) : list receiptWaiter :=
  match ws with
  | [] => []
  | w :: ws => if (wCh w =? ch)%nat then ws else w :: removeFirst ch ws
  end.

Definition onCancel (ch : nat) (txHash : bytes) (st : Router) : Router :=
  match waiters st !! txHash with
  | None => st
  | Some ws =>
      let ws' := removeFirst ch ws in
      mkRouter (if (length ws' =? 0)%nat then delete txHash (waiters st) else <[txHash := ws']> (waiters st))
        (pendingReceipts st) (delivered st)
  end.

Definition onCleanup (now : Z) (st : Router) : Router :=
  mkRouter (waiters st) (filter (fun '(_, p) => ¬ (pExpiresAt p < now)) (pendingReceipts st)) (delivered st).

Inductive RouterEvent :=
| RvReceipt (now : Z) (r : Receipt)
| RvRegister (now : Z) (ch : nat) (mt : receiptMatchType) (txHash : bytes)
| RvCancel (ch : nat) (txHash : bytes)
| RvCleanup (now : Z).

Definition routerStep (st : Router) (e : RouterEvent) : Router :=
  match e with
  | RvReceipt now r => onReceipt now r st
  | RvRegister now ch mt h => onRegister now ch mt h st
  | RvCancel ch h => onCancel ch h st
  | RvCleanup now => onCleanup now st
  end.

(** ** Invariant *)

(** The channels registered by a history. *)
Definition registered (es : list RouterEvent) : list nat :=
  omap (fun e => match e with RvRegister _ ch _ _ => Some ch | _ => None end) es.

Lemma filter_ext_in {A} (P Q : A -> Prop) `{forall x, Decision (P x)} `{forall x, Decision (Q x)} (l : list A) :
  (forall x, x ∈ l -> P x <-> Q x) -> filter P l = filter Q l.
Proof.
  induction l as [|x l IH]; intros Hx; [done|]. assert (Hl : filter P l = filter Q l) by (apply IH; intros; apply Hx; by right).
  pose proof (Hx x ltac:(by left)) as Hpq. destruct (decide (P x)).
  - rewrite !filter_cons_True by tauto. by f_equal.
  - by rewrite !filter_cons_False by tauto.
Qed.

(** [used]: the channels of earlier registrations.  A waiter is filed under its
    hash, its channel is its own, and nothing was put into it. *)
Record routerOk (used : list nat) (st : Router) : Prop := {
  ok_filed : forall h ws w, waiters st !! h = Some ws -> w ∈ ws -> wTxHash w = h;
  ok_distinct : forall h ws, waiters st !! h = Some ws -> NoDup (wCh <$> ws);
  ok_across : forall h1 h2 ws1 ws2 w1 w2, waiters st !! h1 = Some ws1 -> waiters st !! h2 = Some ws2 ->
    w1 ∈ ws1 -> w2 ∈ ws2 -> wCh w1 = wCh w2 -> h1 = h2;
  ok_used : forall h ws w, waiters st !! h = Some ws -> w ∈ ws -> wCh w ∈ used;
  ok_empty : forall h ws w, waiters st !! h = Some ws -> w ∈ ws -> delivered st !! wCh w = None;
  ok_delivered : forall ch l, delivered st !! ch = Some l -> ch ∈ used /\ length l = 1%nat;
  ok_pending : forall h p, pendingReceipts st !! h = Some p -> TransactionHash (pValue p) = h
}.

Lemma giveAll_spec matched r ws d acc :
  foldl (giveStep matched r) (acc, d) ws =
  (acc ++ filter (fun w => matched w = false) ws,
   foldl (fun d w => trySend (wCh w) r d) d (filter (fun w => matched w = true) ws)).
Proof.
  revert acc d. induction ws as [|w ws IH]; intros acc d; cbn [foldl].
  - by rewrite app_nil_r.
  - unfold giveStep at 2. cbn [fst snd]. destruct (matched w) eqn:E; rewrite IH.
    + rewrite (filter_cons_False _ w), (filter_cons_True _ w) by congruence. done.
    + rewrite (filter_cons_True _ w), (filter_cons_False _ w) by congruence. by rewrite <- app_assoc.
Qed.

Lemma trySend_all r ws d ch :
  NoDup (wCh <$> ws) -> (forall w, w ∈ ws -> d !! wCh w = None) ->
  foldl (fun d w => trySend (wCh w) r d) d ws !! ch = if bool_decide (ch ∈ wCh <$> ws) then Some [r] else d !! ch.
Proof.
  revert d. induction ws as [|w ws IH]; intros d Hn Hd; cbn [foldl fmap list_fmap].
  - by rewrite bool_decide_false by apply not_elem_of_nil.
  - apply NoDup_cons in Hn as [Hw Hn].
    assert (Ht : trySend (wCh w) r d = <[wCh w := [r]]> d).
    { unfold trySend. by rewrite Hd by by left. }
    rewrite Ht, IH; [|done|].
    + destruct (decide (ch = wCh w)) as [->|N].
      * rewrite (bool_decide_false (wCh w ∈ wCh <$> ws)) by done. rewrite lookup_insert_eq, bool_decide_true; [done|by left].
      * rewrite lookup_insert_ne by done. erewrite bool_decide_ext; [reflexivity|]. rewrite elem_of_cons. naive_solver.
    + intros w' Hw'. rewrite lookup_insert_ne; [by apply Hd; right|]. intros E. apply Hw. rewrite E. by apply list_elem_of_fmap_2.
Qed.

Lemma NoDup_chans (l k : list receiptWaiter) : l `sublist_of` k -> NoDup (wCh <$> k) -> NoDup (wCh <$> l).
Proof. intros Hs Hn. eapply sublist_NoDup; [exact Hn|]. by apply fmap_sublist. Qed.

(** What [giveHash] does to a router in order. *)
Lemma giveHash_spec used mt h r st : routerOk used st ->
  let ws := default [] (waiters st !! h) in
  let st' := giveHash mt h r st in
  (forall h', waiters st' !! h' =
     if decide (h' = h) then (match filter (fun w => wMatch w <> mt) ws with [] => None | l => Some l end) else waiters st !! h') /\
  (forall ch, delivered st' !! ch =
     if bool_decide (ch ∈ wCh <$> filter (fun w => wMatch w = mt) ws) then Some [r] else delivered st !! ch) /\
  pendingReceipts st' = pendingReceipts st.
Proof.
  intros HI. unfold giveHash. destruct (waiters st !! h) as [ws|] eqn:E; cbn [from_option]; unfold id.
  - unfold giveAll. rewrite giveAll_spec. cbn [app waiters delivered pendingReceipts].
    assert (Hf : forall w, w ∈ ws -> bool_decide (wMatch w = mt) && bool_decide (wTxHash w = h) = bool_decide (wMatch w = mt)).
    { intros w Hw. rewrite (bool_decide_true (wTxHash w = h)) by (by eapply ok_filed). by rewrite andb_true_r. }
    assert (F1 : filter (fun w => (bool_decide (wMatch w = mt) && bool_decide (wTxHash w = h)) = false) ws =
                 filter (fun w => wMatch w <> mt) ws).
    { apply filter_ext_in. intros w Hw. rewrite (Hf w Hw). rewrite bool_decide_eq_false. done. }
    assert (F2 : filter (fun w => (bool_decide (wMatch w = mt) && bool_decide (wTxHash w = h)) = true) ws =
                 filter (fun w => wMatch w = mt) ws).
    { apply filter_ext_in. intros w Hw. rewrite (Hf w Hw). rewrite bool_decide_eq_true. done. }
    rewrite F1, F2. split_and!; [|intros ch; apply trySend_all|done].
    + intros h'. destruct (filter (fun w => wMatch w <> mt) ws) as [|w l]; cbn [length Nat.eqb]; destruct (decide (h' = h)) as [->|N].
      * apply lookup_delete_eq.
      * by apply lookup_delete_ne.
      * apply lookup_insert_eq.
      * by apply lookup_insert_ne.
    + eapply NoDup_chans; [apply sublist_filter|]. by eapply ok_distinct.
    + intros w [_ Hw]%list_elem_of_filter. by eapply ok_empty.
  - split_and!; [|intros ch; by rewrite bool_decide_false by apply not_elem_of_nil|done].
    intros h'. cbn. by destruct (decide (h' = h)) as [->|].
Qed.

(** *** Every turn of the loop keeps the invariant *)

Lemma ok_giveHash used mt h r st : routerOk used st -> routerOk used (giveHash mt h r st).
Proof.
  intros HI. destruct (giveHash_spec used mt h r st HI) as (Hw & Hd & Hp).
  set (st' := giveHash mt h r st) in *. clearbody st'. cbv zeta in Hw, Hd.
  assert (Hold : forall h' ws' , waiters st' !! h' = Some ws' -> exists ws, waiters st !! h' = Some ws /\
    ws' `sublist_of` ws /\ (h' = h -> forall w, w ∈ ws' -> wMatch w <> mt)).
  { intros h' ws'. rewrite Hw. destruct (decide (h' = h)) as [->|N]; [|intros Hx; exists ws'; by split_and!].
    destruct (waiters st !! h) as [ws|]; cbn [from_option]; unfold id; [|done].
    destruct (filter _ ws) as [|w l] eqn:Ef; [done|]. intros [= <-]. exists ws. split_and!; [done| |].
    - rewrite <- Ef. apply sublist_filter.
    - intros _ x Hx. rewrite <- Ef in Hx. by apply list_elem_of_filter in Hx as [? _]. }
  assert (Hsub : forall ws' ws (w : receiptWaiter), ws' `sublist_of` ws -> w ∈ ws' -> w ∈ ws).
  { intros ws' ws w Hs Hin. by eapply elem_of_sublist. }
  split.
  - intros h' ws' w H1 H2. destruct (Hold _ _ H1) as (ws & Hws & Hs & _). eapply ok_filed; eauto.
  - intros h' ws' H1. destruct (Hold _ _ H1) as (ws & Hws & Hs & _).
    eapply NoDup_chans; [done|]. by eapply ok_distinct.
  - intros h1 h2 ws1 ws2 w1 w2 H1 H2 I1 I2. destruct (Hold _ _ H1) as (? & ? & ? & _), (Hold _ _ H2) as (? & ? & ? & _).
    eapply ok_across; eauto.
  - intros h' ws' w H1 H2. destruct (Hold _ _ H1) as (ws & Hws & Hs & _). eapply ok_used; eauto.
  - intros h' ws' w H1 H2. destruct (Hold _ _ H1) as (ws & Hws & Hs & Hm). rewrite Hd.
    rewrite bool_decide_false; [by eapply ok_empty; eauto|]. intros (w0 & Ec & [Hm0 Hw0]%list_elem_of_filter)%list_elem_of_fmap.
    destruct (waiters st !! h) as [ws0|] eqn:E0; cbn in Hw0; [|by apply not_elem_of_nil in Hw0]. unfold id in Hw0.
    assert (h' = h) as -> by (eapply (ok_across _ _ HI h' h ws ws0 w w0); eauto).
    assert (ws0 = ws) as -> by congruence. assert (w = w0) as ->.
    { pose proof (ok_distinct _ _ HI _ _ Hws) as Hn. apply list_elem_of_lookup_1 in Hw0 as [i Hi].
      apply (Hsub _ _ _ Hs) in H2. apply list_elem_of_lookup_1 in H2 as [j Hj].
      assert (i = j) as -> by (eapply (NoDup_lookup _ _ _ (wCh w) Hn); rewrite list_lookup_fmap; [rewrite Hi; cbn; congruence|by rewrite Hj]).
      congruence. }
    by apply (Hm eq_refl w0 H2).
  - intros ch l. rewrite Hd. case_bool_decide as Hc; [|by apply (ok_delivered _ _ HI)]. intros [= <-]. split; [|done].
    apply list_elem_of_fmap in Hc as (w & -> & [_ Hc]%list_elem_of_filter).
    destruct (waiters st !! h) eqn:E0; cbn in Hc; [|by apply not_elem_of_nil in Hc]. by eapply ok_used.
  - intros h' p. rewrite Hp. apply (ok_pending _ _ HI).
Qed.

Lemma ok_receipt used now r st : routerOk used st -> routerOk used (onReceipt now r st).
Proof.
  intros HI. unfold onReceipt. apply (ok_giveHash _ matchByTxHash (TransactionHash r) r) in HI.
  apply (ok_giveHash _ matchByReceiptHash (RHash r) r) in HI. destruct HI as [? ? ? ? ? ? Hp]. split; try done.
  cbn. intros h p. destruct (decide (h = TransactionHash r)) as [->|N].
  - rewrite lookup_insert_eq. by intros [= <-].
  - rewrite lookup_insert_ne by done. apply Hp.
Qed.

(** Fewer waiters and pending receipts, nothing delivered. *)
Lemma ok_less used st wts pnd : routerOk used st ->
  (forall h ws, wts !! h = Some ws -> exists ws0, waiters st !! h = Some ws0 /\ ws `sublist_of` ws0) ->
  (forall h p, pnd !! h = Some p -> pendingReceipts st !! h = Some p) ->
  routerOk used (mkRouter wts pnd (delivered st)).
Proof.
  intros HI Hw Hp. split; cbn.
  - intros h ws w H1 H2. destruct (Hw _ _ H1) as (? & ? & ?). eapply ok_filed; eauto using elem_of_sublist.
  - intros h ws H1. destruct (Hw _ _ H1) as (? & ? & ?). eapply NoDup_chans; [done|]. by eapply ok_distinct.
  - intros h1 h2 ws1 ws2 w1 w2 H1 H2 I1 I2. destruct (Hw _ _ H1) as (? & ? & ?), (Hw _ _ H2) as (? & ? & ?).
    eapply ok_across; eauto using elem_of_sublist.
  - intros h ws w H1 H2. destruct (Hw _ _ H1) as (? & ? & ?). eapply ok_used; eauto using elem_of_sublist.
  - intros h ws w H1 H2. destruct (Hw _ _ H1) as (? & ? & ?). eapply ok_empty; eauto using elem_of_sublist.
  - apply (ok_delivered _ _ HI).
  - intros h p Hh. apply (ok_pending _ _ HI). by apply Hp.
Qed.

Lemma removeFirst_sublist ch ws : removeFirst ch ws `sublist_of` ws.
Proof. induction ws as [|w ws IH]; cbn; [done|]. destruct (_ =? _)%nat; [by constructor|]. by constructor. Qed.

Lemma ok_cancel used ch h st : routerOk used st -> routerOk used (onCancel ch h st).
Proof.
  intros HI. unfold onCancel. destruct (waiters st !! h) as [ws|] eqn:E; [|done]. apply ok_less; [done| |done].
  intros h' ws'. destruct (length _ =? 0)%nat.
  - rewrite lookup_delete_Some. intros [_ ?]. eauto.
  - destruct (decide (h' = h)) as [->|N].
    + rewrite lookup_insert_eq. intros [= <-]. eauto using removeFirst_sublist.
    + rewrite lookup_insert_ne by done. eauto.
Qed.

Lemma ok_cleanup used now st : routerOk used st -> routerOk used (onCleanup now st).
Proof.
  intros HI. apply ok_less; [done|eauto|]. intros h p. rewrite map_lookup_filter_Some. by intros [? _].
Qed.

Lemma ok_mono used used' st : (forall ch, ch ∈ used -> ch ∈ used') -> routerOk used st -> routerOk used' st.
Proof. intros Hu [H1 H2 H3 H4 H5 H6 H7]. split; eauto. intros ch l Hl. destruct (H6 _ _ Hl). eauto. Qed.

Lemma ok_register used now ch mt h st : routerOk used st -> ch ∉ used -> routerOk (ch :: used) (onRegister now ch mt h st).
Proof.
  intros HI Hch. unfold onRegister.
  assert (Hno : delivered st !! ch = None).
  { destruct (delivered st !! ch) eqn:E; [|done]. by apply (ok_delivered _ _ HI) in E as [? _]. }
  destruct (pendingReceipts st !! h) as [p|] eqn:Ep.
  - assert (HI' : routerOk used (mkRouter (waiters st) (delete h (pendingReceipts st)) (delivered st))).
    { apply ok_less; [done|eauto|]. intros h' p'. rewrite lookup_delete_Some. by intros [_ ?]. }
    destruct (_ <? _); [by eapply ok_mono; [|done]; intros; right|].
    cbn [waiters pendingReceipts delivered]. unfold trySend. rewrite Hno.
    destruct HI' as [H1 H2 H3 H4 H5 H6 H7]. cbn in *. split; cbn; try done.
    + intros h' ws w Hw Hin. right. by eapply H4.
    + intros h' ws w Hw Hin. rewrite lookup_insert_ne; [by eapply H5|]. intros ->. by apply Hch, (H4 _ _ _ Hw Hin).
    + intros ch' l. destruct (decide (ch' = ch)) as [->|N].
      * rewrite lookup_insert_eq. intros [= <-]. split; [by left|done].
      * rewrite lookup_insert_ne by done. intros Hl. destruct (H6 _ _ Hl). split; [by right|done].
  - destruct HI as [H1 H2 H3 H4 H5 H6 H7].
    set (new := mkWaiter ch mt h). set (old := default [] (waiters st !! h)).
    assert (Hold : forall w, w ∈ old -> exists ws, waiters st !! h = Some ws /\ w ∈ ws).
    { unfold old. intros w. destruct (waiters st !! h); [by eauto|]. intros Hx. by apply not_elem_of_nil in Hx. }
    assert (Hlook : forall h' ws, (<[h := old ++ [new]]> (waiters st) : gmap bytes (list receiptWaiter)) !! h' = Some ws ->
      (h' = h /\ ws = old ++ [new]) \/ (h' <> h /\ waiters st !! h' = Some ws)).
    { intros h' ws. destruct (decide (h' = h)) as [->|N]; [rewrite lookup_insert_eq|rewrite lookup_insert_ne by done]; naive_solver. }
    assert (Hin : forall h' ws w, (<[h := old ++ [new]]> (waiters st) : gmap bytes (list receiptWaiter)) !! h' = Some ws -> w ∈ ws ->
      (h' = h /\ w = new) \/ exists ws0, waiters st !! h' = Some ws0 /\ w ∈ ws0).
    { intros h' ws w Hw Hi. destruct (Hlook _ _ Hw) as [[-> ->]|[_ Hx]]; [|by eauto].
      apply elem_of_app in Hi as [Hi|Hi%list_elem_of_singleton]; [right; by apply Hold|by left]. }
    split; cbn.
    + intros h' ws w Hw Hi. destruct (Hin _ _ _ Hw Hi) as [[-> ->]|(ws0 & ? & ?)]; eauto.
    + intros h' ws Hw. destruct (Hlook _ _ Hw) as [[-> ->]|[_ Hx]]; [|by eapply H2]. rewrite fmap_app. apply NoDup_app. split_and!.
      * unfold old. destruct (waiters st !! h) eqn:E; [by eapply H2|constructor].
      * intros x (w & -> & Hw')%list_elem_of_fmap Hx%list_elem_of_singleton. cbn in Hx.
        destruct (Hold _ Hw') as (ws & Hws & Hi). apply Hch. rewrite <- Hx. by eapply H4.
      * apply NoDup_singleton.
    + intros h1 h2 ws1 ws2 w1 w2 Hw1 Hw2 Hi1 Hi2 Ec.
      destruct (Hin _ _ _ Hw1 Hi1) as [[-> ->]|(x1 & Hx1 & Hy1)], (Hin _ _ _ Hw2 Hi2) as [[-> ->]|(x2 & Hx2 & Hy2)];
        [done| | |by eapply (H3 h1 h2)].
      * exfalso. apply Hch. change ch with (wCh new). rewrite Ec. by eapply H4.
      * exfalso. apply Hch. change ch with (wCh new). rewrite <- Ec. by eapply H4.
    + intros h' ws w Hw Hi. destruct (Hin _ _ _ Hw Hi) as [[-> ->]|(ws0 & ? & ?)]; [by left|right; by eapply H4].
    + intros h' ws w Hw Hi. destruct (Hin _ _ _ Hw Hi) as [[-> ->]|(ws0 & ? & ?)]; [done|by eapply H5].
    + intros ch' l Hl. destruct (H6 _ _ Hl). split; [by right|done].
    + done.
Qed.

Lemma ok_step used e st : routerOk used st -> NoDup (registered [e] ++ used) -> routerOk (registered [e] ++ used) (routerStep st e).
Proof.
  intros HI Hn. destruct e; cbn in *.
  - by apply ok_receipt.
  - apply NoDup_cons in Hn as [? _]. by apply ok_register.
  - by apply ok_cancel.
  - by apply ok_cleanup.
Qed.

Lemma ok_run es used st : routerOk used st -> NoDup (registered es ++ used) ->
  exists used', routerOk used' (foldl routerStep st es) /\ used' ≡ₚ registered es ++ used.
Proof.
  revert used st. induction es as [|e es IH]; intros used st HI Hn; cbn [foldl]; [by exists used|].
  assert (Er : registered (e :: es) = registered [e] ++ registered es) by (by destruct e). rewrite Er in *.
  assert (Hp : (registered [e] ++ registered es) ++ used ≡ₚ registered es ++ (registered [e] ++ used)) by solve_Permutation.
  rewrite Hp in Hn. pose proof Hn as Hn'. apply NoDup_app in Hn' as (_ & _ & Hn').
  destruct (IH _ _ (ok_step used e st HI Hn') Hn) as (used' & ? & E'). exists used'. split; [done|]. by rewrite E', Hp.
Qed.

Lemma ok_empty_router : routerOk [] emptyRouter.
Proof. split; cbn; intros *; rewrite lookup_empty; done. Qed.

(** ** Where the receipts come from *)

(** What a receipt in a channel has to do with the request of the channel: a
    receipt kept for later is looked up by its transaction hash, whatever the
    request asks for. *)
Definition matches (mt : receiptMatchType) (h : bytes) (r : Receipt) : Prop :=
  TransactionHash r = h \/ (mt = matchByReceiptHash /\ RHash r = h).

Record origin (es : list RouterEvent) (st : Router) : Prop := {
  or_waiter : forall h ws w, waiters st !! h = Some ws -> w ∈ ws -> exists now, RvRegister now (wCh w) (wMatch w) h ∈ es;
  or_pending : forall h p, pendingReceipts st !! h = Some p -> exists now, RvReceipt now (pValue p) ∈ es;
  or_delivered : forall ch r l, delivered st !! ch = Some l -> r ∈ l ->
    exists now now' mt h, RvRegister now ch mt h ∈ es /\ RvReceipt now' r ∈ es /\ matches mt h r
}.

Lemma origin_mono es es' st : (forall e, e ∈ es -> e ∈ es') -> origin es st -> origin es' st.
Proof.
  intros Hs [Hw Hp Hd]. split.
  - intros h ws w H1 H2. destruct (Hw _ _ _ H1 H2) as [now ?]. eauto.
  - intros h p H1. destruct (Hp _ _ H1) as [now ?]. eauto.
  - intros ch r l H1 H2. destruct (Hd _ _ _ H1 H2) as (now & now' & mt & h & ? & ? & ?). eauto 10.
Qed.

Lemma origin_give used es mt h r now st : routerOk used st -> origin es st -> RvReceipt now r ∈ es ->
  (h = TransactionHash r \/ (mt = matchByReceiptHash /\ h = RHash r)) -> origin es (giveHash mt h r st).
Proof.
  intros HI HO Hr Hm. destruct (giveHash_spec used mt h r st HI) as (Hw & Hd & Hp). cbv zeta in Hw, Hd.
  set (st' := giveHash mt h r st) in *. clearbody st'. destruct HO as [Ow Op Od]. split.
  - intros h' ws w. rewrite Hw. destruct (decide (h' = h)) as [->|N]; [|by apply Ow].
    destruct (waiters st !! h) as [ws0|] eqn:E; cbn [from_option]; unfold id; [|done].
    destruct (filter _ ws0) as [|x l] eqn:Ef; [done|]. intros [= <-] Hi. rewrite <- Ef in Hi.
    apply list_elem_of_filter in Hi as [_ Hi]. by eapply Ow.
  - intros h' p. rewrite Hp. apply Op.
  - intros ch x l. rewrite Hd. case_bool_decide as Hc; [|by apply Od]. intros [= <-] ->%list_elem_of_singleton.
    apply list_elem_of_fmap in Hc as (w & -> & [Hwm Hi]%list_elem_of_filter).
    destruct (waiters st !! h) as [ws0|] eqn:E; cbn in Hi; [|by apply not_elem_of_nil in Hi].
    destruct (Ow _ _ _ E Hi) as [n Hn]. exists n, now, (wMatch w), h. split_and!; [done..|]. unfold matches. rewrite Hwm. naive_solver.
Qed.

Lemma origin_less es st wts pnd : origin es st ->
  (forall h ws, wts !! h = Some ws -> exists ws0, waiters st !! h = Some ws0 /\ ws `sublist_of` ws0) ->
  (forall h p, pnd !! h = Some p -> pendingReceipts st !! h = Some p) ->
  origin es (mkRouter wts pnd (delivered st)).
Proof.
  intros [Ow Op Od] Hw Hp. split; cbn; [|eauto|done].
  intros h ws w H1 H2. destruct (Hw _ _ H1) as (? & ? & ?). eauto using elem_of_sublist.
Qed.

Lemma origin_step used e es st : routerOk used st -> NoDup (registered [e] ++ used) -> origin es st ->
  origin (e :: es) (routerStep st e).
Proof.
  intros HI Hn HO. apply (origin_mono es (e :: es)) in HO; [|by intros; right].
  destruct e as [now r|now ch mt h|ch h|now]; cbn [routerStep].
  - unfold onReceipt. assert (Hr : RvReceipt now r ∈ RvReceipt now r :: es) by by left.
    pose proof (origin_give used _ matchByTxHash (TransactionHash r) r now st HI HO Hr ltac:(by left)) as HO1.
    pose proof (ok_giveHash used matchByTxHash (TransactionHash r) r st HI) as HI1.
    pose proof (origin_give used _ matchByReceiptHash (RHash r) r now _ HI1 HO1 Hr ltac:(by right)) as [Ow Op Od].
    split; cbn; [done| |done]. intros h p. destruct (decide (h = TransactionHash r)) as [->|N].
    + rewrite lookup_insert_eq. intros [= <-]. by exists now.
    + rewrite lookup_insert_ne by done. apply Op.
  - assert (Hr : RvRegister now ch mt h ∈ RvRegister now ch mt h :: es) by by left.
    unfold onRegister. destruct (pendingReceipts st !! h) as [p|] eqn:Ep.
    + assert (HO' : origin (RvRegister now ch mt h :: es) (mkRouter (waiters st) (delete h (pendingReceipts st)) (delivered st))).
      { apply origin_less; [done|eauto|]. intros h' p'. rewrite lookup_delete_Some. by intros [_ ?]. }
      destruct (_ <? _); [done|]. destruct HO' as [Ow Op Od]. split; cbn; [done|done|].
      unfold trySend. destruct (delivered st !! ch) eqn:Ed; [done|]. intros ch' r l.
      destruct (decide (ch' = ch)) as [->|N].
      * rewrite lookup_insert_eq. intros [= <-] ->%list_elem_of_singleton. destruct (or_pending _ _ HO _ _ Ep) as [n Hnn].
        exists now, n, mt, h. split_and!; [done..|]. left. by apply (ok_pending _ _ HI).
      * rewrite lookup_insert_ne by done. apply Od.
    + destruct HO as [Ow Op Od]. split; cbn; [|done|done]. intros h' ws w. destruct (decide (h' = h)) as [->|N].
      * rewrite lookup_insert_eq. intros [= <-] [Hi| ->%list_elem_of_singleton]%elem_of_app; [|by exists now].
        destruct (waiters st !! h) eqn:E; cbn in Hi; [by eapply Ow|by apply not_elem_of_nil in Hi].
      * rewrite lookup_insert_ne by done. apply Ow.
  - unfold onCancel. destruct (waiters st !! h) as [ws|] eqn:E; [|done]. apply origin_less; [done| |done].
    intros h' ws'. destruct (length _ =? 0)%nat; [rewrite lookup_delete_Some; intros [_ ?]; eauto|].
    destruct (decide (h' = h)) as [->|N]; [rewrite lookup_insert_eq|rewrite lookup_insert_ne by done; eauto].
    intros [= <-]. eauto using removeFirst_sublist.
  - apply origin_less; [done|eauto|]. intros h p. rewrite map_lookup_filter_Some. by intros [? _].
Qed.

Lemma registered_app a b : registered (a ++ b) = registered a ++ registered b.
Proof. unfold registered. induction a as [|e a IH]; cbn; [done|]. destruct e; cbn; by rewrite IH. Qed.

Lemma origin_run es : NoDup (registered es) ->
  exists used, routerOk used (foldl routerStep emptyRouter es) /\ used ≡ₚ registered es /\
    origin es (foldl routerStep emptyRouter es).
Proof.
  induction es as [|e es IH] using rev_ind; intros Hn.
  - exists []. split_and!; [apply ok_empty_router|done|]. split; cbn; intros *; rewrite lookup_empty; done.
  - rewrite registered_app in Hn |- *. pose proof Hn as Hn'. apply NoDup_app in Hn' as (Hn1 & _ & _).
    destruct (IH Hn1) as (used & HI & Hu & HO). rewrite foldl_app. cbn [foldl].
    assert (Hd : NoDup (registered [e] ++ used)) by (rewrite Hu, Permutation_app_comm; done).
    exists (registered [e] ++ used). split_and!; [by apply ok_step|rewrite Hu; solve_Permutation|].
    eapply origin_mono; [|by eapply origin_step]. intros x. rewrite elem_of_app, elem_of_cons, list_elem_of_singleton. tauto.
Qed.

(** ** A waiter waits until its receipt comes *)

Definition waits (ch : nat) (mt : receiptMatchType) (h : bytes) (st : Router) : Prop :=
  exists ws, waiters st !! h = Some ws /\ mkWaiter ch mt h ∈ ws.

Lemma waits_give used mt h r st ch mt' h' : routerOk used st -> waits ch mt' h' st -> (mt <> mt' \/ h <> h') ->
  waits ch mt' h' (giveHash mt h r st).
Proof.
  intros HI (ws & Hws & Hin) Hne. destruct (giveHash_spec used mt h r st HI) as (Hw & _ & _). cbv zeta in Hw.
  unfold waits. rewrite Hw. destruct (decide (h' = h)) as [->|N]; [|by eauto]. rewrite Hws. cbn [from_option]. unfold id.
  assert (Hf : mkWaiter ch mt' h ∈ filter (fun w => wMatch w <> mt) ws).
  { apply list_elem_of_filter. cbn. destruct Hne as [?|?]; [|done]. split; [congruence|done]. }
  destruct (filter _ ws) as [|x l]; [by apply not_elem_of_nil in Hf|]. eauto.
Qed.

(** The event that would end the wait, or be the receipt waited for. *)
Definition disturbs (ch : nat) (mt : receiptMatchType) (h : bytes) (e : RouterEvent) : Prop :=
  match e with
  | RvReceipt _ r => match mt with matchByTxHash => TransactionHash r = h | matchByReceiptHash => RHash r = h end
  | RvCancel ch' h' => ch' = ch /\ h' = h
  | _ => False
  end.

Lemma removeFirst_other ch ws w : w ∈ ws -> wCh w <> ch -> w ∈ removeFirst ch ws.
Proof.
  induction ws as [|x ws IH]; intros Hin Hne; [by apply not_elem_of_nil in Hin|]. cbn.
  destruct (Nat.eqb_spec (wCh x) ch) as [E|E]; apply elem_of_cons in Hin as [->|Hin]; try done; [by left|right; by apply IH].
Qed.

Lemma waits_step used e st ch mt h : routerOk used st -> waits ch mt h st -> ~ disturbs ch mt h e ->
  waits ch mt h (routerStep st e).
Proof.
  intros HI Hw Hd. destruct e as [now r|now ch' mt' h'|ch' h'|now]; cbn [routerStep].
  - unfold onReceipt. set (st1 := giveHash matchByTxHash (TransactionHash r) r st).
    assert (H1 : waits ch mt h st1). { eapply waits_give; [done|done|]. destruct mt; cbn in Hd; [right; congruence|by left]. }
    assert (HI1 : routerOk used st1) by by apply ok_giveHash.
    assert (H2 : waits ch mt h (giveHash matchByReceiptHash (RHash r) r st1)).
    { eapply waits_give; [done|done|]. destruct mt; cbn in Hd; [by left|right; congruence]. }
    exact H2.
  - unfold onRegister. destruct (pendingReceipts st !! h'); [by destruct (_ <? _)|]. destruct Hw as (ws & Hws & Hin).
    unfold waits. cbn. destruct (decide (h = h')) as [->|N].
    + rewrite lookup_insert_eq, Hws. cbn. eexists. split; [done|]. apply elem_of_app. by left.
    + rewrite lookup_insert_ne by done. eauto.
  - unfold onCancel. destruct (waiters st !! h') as [ws'|] eqn:E; [|done]. destruct Hw as (ws & Hws & Hin). unfold waits. cbn.
    destruct (decide (h = h')) as [->|N].
    + assert (ws' = ws) as -> by congruence. assert (Hne : ch <> ch') by (intros ->; by apply Hd).
      pose proof (removeFirst_other ch' ws _ Hin Hne) as Hr. destruct (removeFirst ch' ws) as [|x l] eqn:Er; [by apply not_elem_of_nil in Hr|].
      cbn [length Nat.eqb]. rewrite lookup_insert_eq. eauto.
    + destruct (length _ =? 0)%nat; [rewrite lookup_delete_ne by done|rewrite lookup_insert_ne by done]; eauto.
  - exact Hw.
Qed.

Lemma waits_run used es st ch mt h : routerOk used st -> NoDup (registered es ++ used) -> waits ch mt h st ->
  (forall e, e ∈ es -> ~ disturbs ch mt h e) -> waits ch mt h (foldl routerStep st es).
Proof.
  revert used st. induction es as [|e es IH]; intros used st HI Hn Hw Hd; cbn [foldl]; [done|].
  assert (Er : registered (e :: es) = registered [e] ++ registered es) by (by destruct e). rewrite Er in Hn.
  assert (Hp : (registered [e] ++ registered es) ++ used ≡ₚ registered es ++ (registered [e] ++ used)) by solve_Permutation.
  rewrite Hp in Hn. pose proof Hn as Hn'. apply NoDup_app in Hn' as (_ & _ & Hn').
  eapply (IH (registered [e] ++ used)); [by apply ok_step|done| |intros; apply Hd; by right].
  eapply waits_step; [done|done|]. apply Hd. by left.
Qed.

Lemma give_delivers used mt h r st ch : routerOk used st -> waits ch mt h st -> delivered (giveHash mt h r st) !! ch = Some [r].
Proof.
  intros HI (ws & Hws & Hin). destruct (giveHash_spec used mt h r st HI) as (_ & Hd & _). cbv zeta in Hd. rewrite Hd, Hws.
  rewrite bool_decide_true; [done|]. cbn. unfold id. apply list_elem_of_fmap. exists (mkWaiter ch mt h). split; [done|].
  by apply list_elem_of_filter.
Qed.

Lemma give_keeps used mt h r st ch x : routerOk used st -> delivered st !! ch = Some x -> delivered (giveHash mt h r st) !! ch = Some x.
Proof.
  intros HI Hx. destruct (giveHash_spec used mt h r st HI) as (_ & Hd & _). cbv zeta in Hd. rewrite Hd.
  rewrite bool_decide_false; [done|]. intros (w & -> & [_ Hi]%list_elem_of_filter)%list_elem_of_fmap.
  destruct (waiters st !! h) eqn:E; cbn in Hi; [|by apply not_elem_of_nil in Hi].
  rewrite (ok_empty _ _ HI _ _ _ E Hi) in Hx. done.
Qed.

Lemma receipt_delivers used now r st ch mt h : routerOk used st -> waits ch mt h st -> disturbs ch mt h (RvReceipt now r) ->
  delivered (onReceipt now r st) !! ch = Some [r].
Proof.
  intros HI Hw Hm. unfold onReceipt. cbn [delivered]. pose proof (ok_giveHash used matchByTxHash (TransactionHash r) r st HI) as HI1.
  destruct mt; cbn in Hm; subst h.
  - eapply give_keeps; [done|]. by eapply give_delivers.
  - eapply give_delivers; [done|]. eapply waits_give; [done|done|by left].
Qed.
End Router.

(** In every history of the router whose registrations use
    channels of their own: a channel receives at most one receipt, and only one
    that really came in and that its request asked for, by transaction hash (or,
    for a request by receipt hash, by either hash). *)
Theorem router_safe `{EthLib} (es : list RouterEvent) ch l :
  NoDup (registered es) -> delivered (foldl routerStep emptyRouter es) !! ch = Some l ->
  exists r now now' mt h, l = [r] /\ RvRegister now ch mt h ∈ es /\ RvReceipt now' r ∈ es /\ matches mt h r.
Proof.
  intros Hn Hd. destruct (origin_run es Hn) as (used & HI & _ & HO). destruct (ok_delivered _ _ HI _ _ Hd) as [_ Hl].
  destruct l as [|r [|? ?]]; try done. destruct (or_delivered _ _ HO ch r _ Hd ltac:(by left)) as (now & now' & mt & h & ? & ? & ?).
  by exists r, now, now', mt, h.
Qed.

(** A caller that registers before its receipt comes gets
    it: when no receipt for the hash is kept, then after the registration, however
    many other receipts, registrations, cancellations and cleanups go by, the first
    receipt with that hash is put into the caller's channel, unless the caller has
    cancelled. *)
Theorem router_delivers `{EthLib} (es1 es2 : list RouterEvent) t now ch mt h r :
  NoDup (registered (es1 ++ [RvRegister t ch mt h] ++ es2)) ->
  pendingReceipts (foldl routerStep emptyRouter es1) !! h = None ->
  (forall e, e ∈ es2 -> ~ disturbs ch mt h e) -> disturbs ch mt h (RvReceipt now r) ->
  delivered (foldl routerStep emptyRouter (es1 ++ [RvRegister t ch mt h] ++ es2 ++ [RvReceipt now r])) !! ch = Some [r].
Proof.
  intros Hn Hp Hd Hr. rewrite !foldl_app. cbn [foldl routerStep]. rewrite !registered_app in Hn.
  set (st1 := foldl routerStep emptyRouter es1) in *.
  pose proof Hn as Hn'. apply NoDup_app in Hn' as (Hn1 & _ & _). destruct (origin_run es1 Hn1) as (used & HI & Hu & _). fold st1 in HI.
  assert (Hn2 : NoDup (registered es2 ++ (ch :: used))).
  { rewrite Hu. change (ch :: registered es1) with ([ch] ++ registered es1).
    assert (Hperm : registered es2 ++ [ch] ++ registered es1 ≡ₚ registered es1 ++ registered [RvRegister t ch mt h] ++ registered es2)
      by (cbn; solve_Permutation). by rewrite Hperm. }
  assert (Hc : ch ∉ used).
  { apply NoDup_app in Hn2 as (_ & _ & Hn2). by apply NoDup_cons in Hn2 as [? _]. }
  pose proof (ok_register used t ch mt h st1 HI Hc) as HI2.
  assert (Hw : waits ch mt h (onRegister t ch mt h st1)).
  { unfold onRegister. rewrite Hp. unfold waits. cbn. rewrite lookup_insert_eq. eexists. split; [done|]. apply elem_of_app. right. by left. }
  destruct (ok_run es2 _ _ HI2 Hn2) as (used' & HI3 & _).
  eapply receipt_delivers; [exact HI3| |exact Hr]. by eapply waits_run.
Qed.

(** A caller that registers for a receipt that came and has
    expired, but was not yet cleaned up, is not registered at all: no later
    receipt reaches it. *)
Theorem router_expired `{EthLib} (st : Router) p t ch mt h es used :
  routerOk used st -> ch ∉ used -> NoDup (registered es ++ ch :: used) ->
  pendingReceipts st !! h = Some p -> pExpiresAt p < t ->
  delivered (foldl routerStep (onRegister t ch mt h st) es) !! ch = None.
Proof.
  intros HI Hc Hn Hp Ht.
  assert (HI1 : routerOk used (onRegister t ch mt h st)).
  { unfold onRegister. rewrite Hp, (proj2 (Z.ltb_lt _ _)) by done. apply ok_less; [done|eauto|].
    intros h' p'. rewrite lookup_delete_Some. by intros [_ ?]. }
  assert (Hn' : NoDup (registered es ++ used) /\ ch ∉ registered es).
  { rewrite <- Permutation_middle in Hn. apply NoDup_cons in Hn as [Hx ?]. split; [done|]. intros Hy. apply Hx, elem_of_app. by left. }
  destruct Hn' as [Hn1 Hn2]. destruct (ok_run es used _ HI1 Hn1) as (used' & HI2 & Hu).
  destruct (delivered _ !! ch) eqn:Ed; [|done]. apply (ok_delivered _ _ HI2) in Ed as [Hin _].
  rewrite Hu, elem_of_app in Hin. tauto.
Qed.

(** *** A history *)

Definition sampleReceipt (tx rh : Z) : Receipt :=
  mkReceipt (replicate 32 tx) [] [] [] 0 [] 0 21000 1 [] 0 0 (replicate 32 rh).

Definition sampleHistory : list RouterEvent :=
  [RvRegister 1 1 matchByTxHash (replicate 32 7); RvReceipt 2 (sampleReceipt 8 9);
   RvRegister 3 2 matchByReceiptHash (replicate 32 5); RvCleanup 4; RvReceipt 5 (sampleReceipt 7 6);
   RvRegister 6 3 matchByTxHash (replicate 32 8)].

Example sampleHistory_delivered :
  let d := delivered (foldl routerStep emptyRouter sampleHistory) in
  d !! 1%nat = Some [sampleReceipt 7 6] /\ d !! 2%nat = None /\ d !! 3%nat = Some [sampleReceipt 8 9].
Proof. vm_compute. done. Qed.

Lemma router_safe_witness :
  exists r now now' mt h, [sampleReceipt 7 6] = [r] /\ RvRegister now 1 mt h ∈ sampleHistory /\
    RvReceipt now' r ∈ sampleHistory /\ matches mt h r.
Proof.
  apply (router_safe sampleHistory 1 [sampleReceipt 7 6]); [|vm_compute; reflexivity].
  apply (bool_decide_unpack _). vm_compute. exact I.
Defined.

Lemma router_delivers_witness :
  let es1 := [RvReceipt 2 (sampleReceipt 8 9)] in
  let es2 := [RvRegister 3 2 matchByReceiptHash (replicate 32 5); RvCleanup 4; RvCancel 2 (replicate 32 7)] in
  delivered (foldl routerStep emptyRouter
    (es1 ++ [RvRegister 2 1 matchByTxHash (replicate 32 7)] ++ es2 ++ [RvReceipt 9 (sampleReceipt 7 6)])) !! 1%nat
    = Some [sampleReceipt 7 6].
Proof.
  intros es1 es2. apply (router_delivers es1 es2).
  - apply (bool_decide_unpack _). vm_compute. exact I.
  - vm_compute. reflexivity.
  - intros e He Hx. unfold es2 in He. rewrite !elem_of_cons, elem_of_nil in He.
    destruct He as [->|[->|[->|[]]]]; cbn in Hx; naive_solver.
  - vm_compute. reflexivity.
Defined.

Lemma router_expired_witness :
  let st := foldl routerStep emptyRouter [RvReceipt 2 (sampleReceipt 8 9)] in
  delivered (foldl routerStep (onRegister 70000000000 1 matchByTxHash (replicate 32 8) st)
    [RvReceipt 70000000001 (sampleReceipt 8 9)]) !! 1%nat = None.
Proof.
  intros st. apply (router_expired st (mkPending (sampleReceipt 8 9) 60000000002) _ _ _ _ _ []).
  - apply (ok_receipt [] 2 (sampleReceipt 8 9) emptyRouter). apply ok_empty_router.
  - apply not_elem_of_nil.
  - apply NoDup_singleton.
  - vm_compute. reflexivity.
  - vm_compute. reflexivity.
Defined.

(** A receipt that came before the request is kept under its transaction hash
    only: a request by receipt hash does not find it. *)
Example early_receipt_by_rhash :
  let st := foldl routerStep emptyRouter
    [RvReceipt 1 (sampleReceipt 8 9); RvRegister 2 1 matchByReceiptHash (replicate 32 9)] in
  delivered st !! 1%nat = None /\ is_Some (waiters st !! replicate 32 9).
Proof. vm_compute. split; [done|by eexists]. Qed.
