(* ===== verification/TransactionError.v ===== *)
(** * Transaction errors and verification messages

    Models [pkg/transaction/transaction_error.go]: the table of errors a node
    reports, by code and by exception of the virtual machine, and their messages;
    and [pkg/transaction/verify_transaction_sign.go]: the request to verify the
    signature of a transaction and its result.

    The protobuf codecs of these messages are the class [ErrorProto]. *)

From S2P Require Import Prelude Binary AccountState Transaction Message Instances TxInstances.

Local Open Scope Z_scope.

(** [TransactionError] and [pb.TransactionError] *)
Record TransactionError := mkTxError { Code : Z; Description : string }.

#[export] Instance TransactionError_eq_dec : EqDecision TransactionError.
Proof. solve_decision. Defined.

(** ** The errors *)

Module TxErr.
Definition InvalidTransactionHash : TransactionError := mkTxError 1 "invalid transaction hash".
Definition InvalidNewDeviceKey : TransactionError := mkTxError 2 "invalid new device key".
Definition NotMatchLastHash : TransactionError := mkTxError 3 "not match last hash".
Definition InvalidLastDeviceKey : TransactionError := mkTxError 4 "invalid last device key".
Definition InvalidAmount : TransactionError := mkTxError 5 "invalid amount".
Definition InvalidPendingUse : TransactionError := mkTxError 6 "invalid pending use".
Definition InvalidDeploySmartContractToAccount : TransactionError := mkTxError 7 "invalid deploy smart contract to account".
Definition InvalidCallSmartContractToAccount : TransactionError := mkTxError 8 "invalid call smart contract to  non-existent smart account".
Definition InvalidCallSmartContractData : TransactionError := mkTxError 9 "invalid call smart contract data".
Definition InvalidStakeAddress : TransactionError := mkTxError 10 "invalid stake address".
Definition InvalidUnstakeAddress : TransactionError := mkTxError 11 "invalid unstake address".
Definition InvalidUnstakeAmount : TransactionError := mkTxError 12 "invalid unstake amount".
Definition InvalidMaxGas : TransactionError := mkTxError 13 "invalid max gas".
Definition InvalidMaxGasPrice : TransactionError := mkTxError 14 "invalid max gas price".
Definition InvalidCommissionSign : TransactionError := mkTxError 15 "invalid commission sign".
Definition NotEnoughBalanceForCommissionFee : TransactionError := mkTxError 16 "smart contract not enough balance for commission fee".
Definition InvalidOpenChannelToAccount : TransactionError := mkTxError 17 "invalid open channel to account".
Definition InvalidSign : TransactionError := mkTxError 18 "invalid sign".
Definition InvalidCommitAddress : TransactionError := mkTxError 19 "invalid commit address".
Definition InvalidOpenAccountAmount : TransactionError := mkTxError 20 "invalid open account amount".
Definition IsNotCreator : TransactionError := mkTxError 21 "is not creator".
Definition NotEnoughVerifyMinerToVerifyTransation : TransactionError := mkTxError 22 "not enough verify miner to verify transaction".
Definition VerifyTransactionSignTimedOut : TransactionError := mkTxError 23 "verify transaction sign timed out".
Definition InvalidCodeStorage : TransactionError := mkTxError 24 "invalid code storage".
Definition InvalidCallNonExitAccount : TransactionError := mkTxError 25 "invalid call smart contract to non-existent account".
Definition InvalidNonce : TransactionError := mkTxError 26 "invalid nonce".
Definition InvalidMinTimeUse : TransactionError := mkTxError 27 "invalid min time use ".
Definition TimeoutPending : TransactionError := mkTxError 28 "timeout pending".
Definition CannotInitializeBLS : TransactionError := mkTxError 29 "cannot initialize BLS".
Definition InvalidData : TransactionError := mkTxError 30 "invalid data".
Definition AddressMismatch : TransactionError := mkTxError 31 "address mismatch for add bls public key".
Definition RequiresTwoSignatures : TransactionError := mkTxError 32 "transaction requires authentication from 2 signatures".
Definition InvalidTransaction : TransactionError := mkTxError 33 "invalid transaction".
Definition InvalidChainId : TransactionError := mkTxError 34 "invalid chain id".
Definition InvalidDataInputLengthForTx0 : TransactionError := mkTxError 35 "invalid data input length for tx0".
Definition InvalidBLSSignatureForTx0 : TransactionError := mkTxError 36 "invalid BLS signature for tx0".
Definition FailedToRecoverPubkeyForTx0 : TransactionError := mkTxError 37 "failed to recover pubkey for tx0".
Definition InvalidAddressMatchForTx0 : TransactionError := mkTxError 38 "invalid address match for tx0".
Definition NonceZeroButPublicKeyNotEmpty : TransactionError := mkTxError 39 "nonce is 0 but public key is not empty".
Definition InvalidDeployData : TransactionError := mkTxError 40 "invalid deploy data".
Definition InvalidCallData : TransactionError := mkTxError 41 "invalid call data".
Definition InvalidBlockData : TransactionError := mkTxError 42 "invalid block data".
Definition PublicKeyExists : TransactionError := mkTxError 43 "Public key BLS already exists".
Definition InvalidSignSecp : TransactionError := mkTxError 44 "invalid sign SECP".
Definition ErrOutOfGas : TransactionError := mkTxError 45 "out of gas".
Definition ErrCodeStoreOutOfGas : TransactionError := mkTxError 46 "code store out of gas".
Definition ErrDepth : TransactionError := mkTxError 47 "depth".
Definition ErrInsufficientBalance : TransactionError := mkTxError 48 "insufficient balance".
Definition ErrContractAddressCollision : TransactionError := mkTxError 49 "contract address collision".
Definition ErrExecutionReverted : TransactionError := mkTxError 50 "execution reverted".
Definition ErrMaxCodeSizeExceeded : TransactionError := mkTxError 51 "max code size exceeded".
Definition ErrInvalidJump : TransactionError := mkTxError 52 "invalid jump".
Definition ErrWriteProtection : TransactionError := mkTxError 53 "write protection".
Definition ErrReturnDataOutOfBounds : TransactionError := mkTxError 54 "return data out of bounds".
Definition ErrGasUintOverflow : TransactionError := mkTxError 55 "gas uint overflow".
Definition ErrInvalidCode : TransactionError := mkTxError 56 "invalid code".
Definition ErrNonceUintOverflow : TransactionError := mkTxError 57 "nonce uint overflow".
Definition ErrOutOfBounds : TransactionError := mkTxError 58 "out of bounds".
Definition ErrOverflow : TransactionError := mkTxError 59 "overflow".
Definition ErrAddressNotInRelated : TransactionError := mkTxError 60 "address not in related".
Definition ErrNone : TransactionError := mkTxError 61 "none".
Definition InvalidMaxFee : TransactionError := mkTxError 62 "invalid max fee".
Definition NodeSyncingError : TransactionError := mkTxError 63 "node is syncing and not ready yet".
Definition NonceConflictError : TransactionError := mkTxError 64 "transaction rejected: nonce conflict detected".
Definition GetStateError : TransactionError := mkTxError 65 "error: Get state".
Definition VerifyTransactionError : TransactionError := mkTxError 66 "verify transaction failed".
Definition AddToPoolError : TransactionError := mkTxError 67 "failed to add transaction to pool".
Definition UploadChunkError : TransactionError := mkTxError 68 "failed to upload chunk".
End TxErr.
Import TxErr.

Definition errorTable : list (Z * TransactionError) :=
  [(1, InvalidTransactionHash); (2, InvalidNewDeviceKey); (3, NotMatchLastHash); (4, InvalidLastDeviceKey);
   (5, InvalidAmount); (6, InvalidPendingUse); (7, InvalidDeploySmartContractToAccount); (8, InvalidCallSmartContractToAccount);
   (9, InvalidCallSmartContractData); (10, InvalidStakeAddress); (11, InvalidUnstakeAddress); (12, InvalidUnstakeAmount);
   (13, InvalidMaxGas); (14, InvalidMaxGasPrice); (15, InvalidCommissionSign); (16, NotEnoughBalanceForCommissionFee);
   (17, InvalidOpenChannelToAccount); (18, InvalidSign); (19, InvalidCommitAddress); (20, InvalidOpenAccountAmount);
   (21, IsNotCreator); (22, NotEnoughVerifyMinerToVerifyTransation); (23, VerifyTransactionSignTimedOut); (24, InvalidCodeStorage);
   (25, InvalidCallNonExitAccount); (26, InvalidNonce); (27, InvalidMinTimeUse); (28, TimeoutPending);
   (29, CannotInitializeBLS); (30, InvalidData); (31, AddressMismatch); (32, RequiresTwoSignatures);
   (33, InvalidTransaction); (34, InvalidChainId); (35, InvalidDataInputLengthForTx0); (36, InvalidBLSSignatureForTx0);
   (37, FailedToRecoverPubkeyForTx0); (38, InvalidAddressMatchForTx0); (39, NonceZeroButPublicKeyNotEmpty); (40, InvalidDeployData);
   (41, InvalidCallData); (42, InvalidBlockData); (43, PublicKeyExists); (44, InvalidSignSecp);
   (45, ErrOutOfGas); (46, ErrCodeStoreOutOfGas); (47, ErrDepth); (48, ErrInsufficientBalance);
   (49, ErrContractAddressCollision); (50, ErrExecutionReverted); (51, ErrMaxCodeSizeExceeded); (52, ErrInvalidJump);
   (53, ErrWriteProtection); (54, ErrReturnDataOutOfBounds); (55, ErrGasUintOverflow); (56, ErrInvalidCode);
   (57, ErrNonceUintOverflow); (58, ErrOutOfBounds); (59, ErrOverflow); (60, ErrAddressNotInRelated);
   (61, ErrNone); (62, InvalidMaxFee); (63, NodeSyncingError); (64, NonceConflictError);
   (65, GetStateError); (66, VerifyTransactionError); (67, AddToPoolError); (68, UploadChunkError)].

Definition CodeToError : gmap Z TransactionError := list_to_map errorTable.

(** [pb.EXCEPTION] values; nil for a value of a newer enumeration. *)
Definition MapProtoExceptionToTransactionError (exception : Z) : option TransactionError :=
  match exception with
  | 0 => Some ErrOutOfGas
  | 1 => Some ErrCodeStoreOutOfGas
  | 2 => Some ErrDepth
  | 3 => Some ErrInsufficientBalance
  | 4 => Some ErrContractAddressCollision
  | 5 => Some ErrExecutionReverted
  | 6 => Some ErrMaxCodeSizeExceeded
  | 7 => Some ErrInvalidJump
  | 8 => Some ErrWriteProtection
  | 9 => Some ErrReturnDataOutOfBounds
  | 10 => Some ErrGasUintOverflow
  | 11 => Some ErrInvalidCode
  | 12 => Some ErrNonceUintOverflow
  | 13 => Some ErrOutOfBounds
  | 14 => Some ErrOverflow
  | 15 => Some ErrAddressNotInRelated
  | -1 => Some ErrNone
  | _ => None
  end.

(** ** Messages *)

(** [pb.TransactionHashWithErrorCode] and [pb.TransactionHashWithError] *)
Record PbHashWithErrorCode := mkPbHashCode { pcHash : bytes; pcCode : Z }.
Record PbHashWithError := mkPbHashError { peHash : bytes; peCode : Z; peDescription : string; peOutput : bytes }.

(** [pb.VerifyTransactionSignRequest] and [pb.VerifyTransactionSignResult] *)
Record PbVerifyRequest := mkPbVerifyRequest { vqHash : bytes; vqPubkey : bytes; vqSign : bytes }.
Record PbVerifyResult := mkPbVerifyResult { vrHash : bytes; vrValid : bool }.

Class ErrorProto := {
  marshalTxError : TransactionError -> option bytes;
  unmarshalTxError : bytes -> option TransactionError;
  marshalHashCode : PbHashWithErrorCode -> option bytes;
  unmarshalHashCode : bytes -> option PbHashWithErrorCode;
  marshalHashError : PbHashWithError -> option bytes;
  unmarshalHashError : bytes -> option PbHashWithError;
  marshalVerifyRequest : PbVerifyRequest -> option bytes;
  unmarshalVerifyRequest : bytes -> option PbVerifyRequest;
  marshalVerifyResult : PbVerifyResult -> option bytes;
  unmarshalVerifyResult : bytes -> option PbVerifyResult
}.

(** Strings are text; codes are [int64]. *)
Class ErrorProtoLaws `{ErrorProto} : Prop := {
  error_codec e : asciiString (Description e) -> exists b, marshalTxError e = Some b /\ unmarshalTxError b = Some e;
  hash_code_codec e : exists b, marshalHashCode e = Some b /\ unmarshalHashCode b = Some e;
  hash_error_codec e : asciiString (peDescription e) -> exists b, marshalHashError e = Some b /\ unmarshalHashError b = Some e;
  verify_request_codec q : exists b, marshalVerifyRequest q = Some b /\ unmarshalVerifyRequest b = Some q;
  verify_result_codec q : exists b, marshalVerifyResult q = Some b /\ unmarshalVerifyResult b = Some q
}.

Section Messages.
Context `{EthLib} `{ErrorProto}.

Definition TxError_Marshal (e : TransactionError) : outcome bytes := orErr (marshalTxError e).
Definition TxError_Unmarshal (data : bytes) : outcome TransactionError := orErr (unmarshalTxError data).

Record TransactionHashWithErrorCode := mkHashCode { thcHash : bytes; thcCode : Z }.
Definition NewTransactionHashWithErrorCode (hash : bytes) (code : Z) : TransactionHashWithErrorCode := mkHashCode hash code.
Definition HashCode_Proto (e : TransactionHashWithErrorCode) : PbHashWithErrorCode := mkPbHashCode (thcHash e) (thcCode e).
Definition HashCode_FromProto (p : PbHashWithErrorCode) : TransactionHashWithErrorCode :=
  mkHashCode (BytesToHash (pcHash p)) (pcCode p).
Definition HashCode_Marshal (e : TransactionHashWithErrorCode) : outcome bytes := orErr (marshalHashCode (HashCode_Proto e)).
Definition HashCode_Unmarshal (data : bytes) : outcome TransactionHashWithErrorCode :=
  p ← orErr (unmarshalHashCode data); Ok (HashCode_FromProto p).

Record TransactionHashWithError := mkHashError { theHash : bytes; theCode : Z; theDescription : string; theOutput : bytes }.
Definition NewTransactionHashWithError (hash : bytes) (code : Z) (description : string) (output : bytes) :
  TransactionHashWithError := mkHashError hash code description output.
Definition HashError_Proto (e : TransactionHashWithError) : PbHashWithError :=
  mkPbHashError (theHash e) (theCode e) (theDescription e) (theOutput e).
Definition HashError_FromProto (p : PbHashWithError) : TransactionHashWithError :=
  mkHashError (BytesToHash (peHash p)) (peCode p) (peDescription p) (peOutput p).
Definition HashError_Marshal (e : TransactionHashWithError) : outcome bytes := orErr (marshalHashError (HashError_Proto e)).
Definition HashError_Unmarshal (data : bytes) : outcome TransactionHashWithError :=
  p ← orErr (unmarshalHashError data); Ok (HashError_FromProto p).

(** [VerifyTransactionSignRequest] *)
Definition NewVerifyTransactionRequest (transactionHash senderPubkey senderSign : bytes) : PbVerifyRequest :=
  mkPbVerifyRequest transactionHash senderPubkey senderSign.
Definition VerifyRequest_Marshal (q : PbVerifyRequest) : outcome bytes := orErr (marshalVerifyRequest q).
Definition VerifyRequest_Unmarshal (data : bytes) : outcome PbVerifyRequest := orErr (unmarshalVerifyRequest data).
Definition VerifyRequest_TransactionHash (q : PbVerifyRequest) : bytes := BytesToHash (vqHash q).
Definition SenderPublicKey (q : PbVerifyRequest) : bytes := PubkeyFromBytes (vqPubkey q).
Definition SenderSign (q : PbVerifyRequest) : bytes := SignFromBytes (vqSign q).
Definition VerifyRequest_Valid `{Blst} (q : PbVerifyRequest) : bool :=
  blsVerifySign (SenderPublicKey q) (SenderSign q) (VerifyRequest_TransactionHash q).

(** [VerifyTransactionSignResult] *)
Definition NewVerifyTransactionResult (transactionHash : bytes) (valid : bool) : PbVerifyResult :=
  mkPbVerifyResult transactionHash valid.
Definition VerifyResult_Marshal (q : PbVerifyResult) : outcome bytes := orErr (marshalVerifyResult q).
Definition VerifyResult_Unmarshal (data : bytes) : outcome PbVerifyResult := orErr (unmarshalVerifyResult data).
Definition VerifyResult_TransactionHash (q : PbVerifyResult) : bytes := BytesToHash (vrHash q).
Definition VerifyResult_Valid (q : PbVerifyResult) : bool := vrValid q.
End Messages.

(** ** The table *)

Definition codesInRange : bool :=
  forallb (fun c => match CodeToError !! Z.of_nat c with Some e => Code e =? Z.of_nat c | None => false end) (seq 1 68).
Definition allAscii : bool :=
  forallb (fun e => bool_decide (asciiString (Description e.2))) errorTable.

#[export] Instance asciiString_dec s : Decision (asciiString s).
Proof. unfold asciiString. apply _. Defined.

Lemma errorTable_dom : errorTable.*1 = Z.of_nat <$> seq 1 68.
Proof. vm_compute. reflexivity. Qed.

Lemma errorTable_codes : errorTable.*1 = Code <$> errorTable.*2.
Proof. vm_compute. reflexivity. Qed.

Lemma CodeToError_Some code e : CodeToError !! code = Some e <-> (code, e) ∈ errorTable.
Proof.
  symmetry. apply elem_of_list_to_map. rewrite errorTable_dom. apply NoDup_fmap_2; [apply _|]. apply NoDup_ListNoDup, List.seq_NoDup.
Qed.

Lemma errorTable_entry code e : (code, e) ∈ errorTable -> Code e = code /\ 1 <= code <= 68.
Proof.
  intros [i Hi]%list_elem_of_lookup_1. pose proof (f_equal (.!! i) errorTable_codes) as Hc. pose proof (f_equal (.!! i) errorTable_dom) as Hd.
  rewrite !list_lookup_fmap, Hi in Hc. rewrite !list_lookup_fmap, Hi in Hd. cbn [fmap option_fmap option_map fst snd] in Hc, Hd. injection Hc as Hc.
  destruct (seq 1 68 !! i) as [n|] eqn:En; [|done]. injection Hd as Hd. apply lookup_seq in En as [-> ?]. lia.
Qed.

(** The table of errors is a bijection between the codes 1
    to 68 and the errors it holds: every code in the range has an error, which
    carries that code, no other code has one, and an error decodes to itself
    through its code. *)
Theorem error_table (code : Z) :
  (is_Some (CodeToError !! code) <-> 1 <= code <= 68) /\
  (forall e, CodeToError !! code = Some e -> Code e = code) /\
  (forall e, e ∈ errorTable.*2 -> CodeToError !! Code e = Some e) /\
  (forall x e, MapProtoExceptionToTransactionError x = Some e -> CodeToError !! Code e = Some e /\
     Code e = if x =? -1 then 61 else 45 + x).
Proof.
  split_and!.
  - split.
    + intros [e He%CodeToError_Some]. by apply errorTable_entry in He as [_ ?].
    + intros Hc. assert (Hin : code ∈ errorTable.*1).
      { rewrite errorTable_dom. apply list_elem_of_fmap. exists (Z.to_nat code). split; [lia|]. apply elem_of_seq. lia. }
      apply list_elem_of_fmap in Hin as ([c e] & -> & Hin). exists e. by apply CodeToError_Some.
  - intros e He%CodeToError_Some. by apply errorTable_entry in He as [? _].
  - intros e ([c e'] & -> & Hin)%list_elem_of_fmap. cbn. destruct (errorTable_entry _ _ Hin) as [-> _]. by apply CodeToError_Some.
  - intros x e. assert (Hx : x = -1 \/ 0 <= x <= 15 \/ MapProtoExceptionToTransactionError x = None).
    { destruct x as [|p|p]; [right; left; lia| |]; repeat (destruct p as [p|p|]; try (by right; right)); try (left; reflexivity); right; left; lia. }
    destruct Hx as [->|[Hx|Hx]]; [intros [= <-]; split; vm_compute; reflexivity| |by rewrite Hx].
    assert (Hin : x ∈ Z.of_nat <$> seq 0 16).
    { apply list_elem_of_fmap. exists (Z.to_nat x). split; [lia|]. apply elem_of_seq. lia. }
    cbn in Hin. rewrite !elem_of_cons, elem_of_nil in Hin.
    repeat (destruct Hin as [->|Hin]; [intros [= <-]; split; vm_compute; reflexivity|]). done.
Qed.

(** The codes [ValidTx0] answers with are codes of the table. *)
Example tx0_codes :
  (fun c => Description <$> CodeToError !! c) <$>
    [Transaction.InvalidDataInputLengthForTx0; Transaction.InvalidBLSSignatureForTx0; Transaction.FailedToRecoverPubkeyForTx0;
     Transaction.InvalidAddressMatchForTx0; Transaction.NonceZeroButPublicKeyNotEmpty] =
  [Some "invalid data input length for tx0"; Some "invalid BLS signature for tx0"; Some "failed to recover pubkey for tx0";
   Some "invalid address match for tx0"; Some "nonce is 0 but public key is not empty"]%string.
Proof. vm_compute. reflexivity. Qed.
