(* ===== verification/BlsKeys.v ===== *)
(** * BLS keys and signatures

    Models [pkg/bls/key_pair.go] and the key functions of [pkg/bls/bls.go]; the
    signing and verifying wrappers are in [Transaction].  The C library's secret
    keys and public keys are the class [BlstKeys]. *)

From S2P Require Import Prelude Binary AccountState Transaction TransactionTheorems Message TransactionError Instances TxInstances.

Local Open Scope Z_scope.

(** [SecretKey.Deserialize] followed by [Serialize], nil when the bytes are not a
    scalar; [P1Affine.From] of the key, compressed. *)
Class BlstKeys := {
  blstDeserialize : bytes -> option bytes;
  blstPublic : bytes -> bytes
}.

(** A key that the code accepts is a scalar; a signature is 96 bytes, a public key
    48, and a signature verifies under the public key of its secret key. *)
Class BlstLaws `{Blst} `{BlstKeys} : Prop := {
  blst_deserialize k : ValidateBlsPrivateKey k = true -> blstDeserialize k = Some k;
  blst_public_len k : length (blstPublic k) = 48%nat;
  blst_sign k m : ValidateBlsPrivateKey k = true -> exists sig, blstSign k m = Some sig /\ length sig = 96%nat /\
    blstVerify sig (blstPublic k) m = Some true
}.

(** ** [hex.DecodeString] *)

Definition unhexDigit (c : Z) : option Z :=
  if (48 <=? c) && (c <=? 57) then Some (c - 48)
  else if (97 <=? c) && (c <=? 102) then Some (c - 87)
  else if (65 <=? c) && (c <=? 70) then Some (c - 55)
  else None.

Fixpoint DecodeString (s : bytes) : option bytes :=
  match s with
  | [] => Some []
  | [_] => None
  | c :: d :: s => a ← unhexDigit c; b ← unhexDigit d; r ← DecodeString s; Some (16 * a + b :: r)
  end.

Lemma unhexDigit_hex n : 0 <= n < 16 -> unhexDigit (hexDigit n) = Some n.
Proof.
  intros Hn. unfold unhexDigit, hexDigit. destruct (Z.ltb_spec n 10).
  - rewrite (proj2 (Z.leb_le 48 _)), (proj2 (Z.leb_le _ 57)) by lia. cbn. f_equal. lia.
  - rewrite (proj2 (Z.leb_gt _ 57)), andb_false_r by lia.
    rewrite (proj2 (Z.leb_le 97 _)), (proj2 (Z.leb_le _ 102)) by lia. cbn. f_equal. lia.
Qed.

Lemma DecodeString_Encode b : is_bytes b -> DecodeString (EncodeToString b) = Some b.
Proof.
  induction 1 as [|x b Hx Hb IH]; [done|]. unfold is_byte in Hx. cbn [EncodeToString DecodeString].
  rewrite !unhexDigit_hex by (first [split; [apply Z.div_pos; lia|apply Z.div_lt_upper_bound; lia] | apply Z.mod_pos_bound; lia]).
  cbn [mbind option_bind]. rewrite IH. cbn. f_equal. f_equal. pose proof (Z.div_mod x 16). lia.
Qed.

(** ** Key pairs *)

Record KeyPair := mkKeyPair { publicKey : bytes; privateKey : bytes; kpAddress : bytes }.

Section Keys.
Context `{EthLib} `{Blst} `{BlstKeys}.

Definition NewKeyPair (k : bytes) : option KeyPair :=
  sec ← blstDeserialize k;
  let pub := blstPublic sec in
  let hash := Keccak256 pub in
  Some (mkKeyPair (PubkeyFromBytes pub) (PrivateKeyFromBytes sec) (BytesToAddress (drop 12 hash))).

Definition GetByteAddress (pubkey : bytes) : bytes := drop 12 (Keccak256 pubkey).

Definition GetAddressFromPublicKey (pubKey : bytes) : bytes :=
  if (length pubKey =? 0)%nat then zeroAddress else BytesToAddress (drop 12 (Keccak256 pubKey)).

(** The private key, the public key and the address, zero when the text is not a
    key. *)
Definition GenerateKeyPairFromSecretKey (hexSecretKey : bytes) : bytes * bytes * bytes :=
  let zero := (replicate 32 0, replicate 48 0, zeroAddress) in
  match DecodeString hexSecretKey with
  | None => zero
  | Some secByte =>
      if negb (length secByte =? 32)%nat then zero
      else if negb (ValidateBlsPrivateKey secByte) then zero
      else
        match blstDeserialize secByte with
        | None => zero
        | Some sec =>
            let pk := blstPublic sec in
            let hash := Keccak256 pk in
            (PrivateKeyFromBytes sec, PubkeyFromBytes pk, BytesToAddress (drop 12 hash))
        end
  end.

Context `{TxProto} `{!EthLibLaws} `{!BlstLaws} `{ErrorProto} `{!ErrorProtoLaws}.

Lemma valid_key_len k : ValidateBlsPrivateKey k = true -> length k = 32%nat.
Proof. unfold ValidateBlsPrivateKey. destruct (Nat.eqb_spec (length k) 32); [done|by intros]. Qed.

Lemma NewKeyPair_valid k : ValidateBlsPrivateKey k = true ->
  NewKeyPair k = Some (mkKeyPair (blstPublic k) k (BytesToAddress (drop 12 (Keccak256 (blstPublic k))))).
Proof.
  intros Hk. unfold NewKeyPair. rewrite blst_deserialize by done. cbn. unfold PubkeyFromBytes, PrivateKeyFromBytes.
  by rewrite !arrayFromBytes_id by (apply blst_public_len || by apply valid_key_len).
Qed.

Lemma blsSign_verify k m : ValidateBlsPrivateKey k = true ->
  blsVerifySign (blstPublic k) (blsSign k m) m = true /\ length (blsSign k m) = 96%nat.
Proof.
  intros Hk. destruct (blst_sign k m Hk) as (sig & Es & Ls & Hv). unfold blsSign, blsVerifySign, SignFromBytes. rewrite Hk, Es. cbn [negb].
  rewrite arrayFromBytes_id by done. by rewrite Hv.
Qed.

Lemma SetSign_run k t : coherent t ->
  (SetSign k t).1 = Ok tt /\ coherent (SetSign k t).2 /\
  Sign (SetSign k t).2 = SignFromBytes (blsSign k (hashOf (hashData (proto t)))) /\
  hashData (proto (SetSign k t).2) = hashData (proto t).
Proof.
  intros C. unfold SetSign. destruct (Hash_spec t C) as (Eh & C' & Ep). destruct (Hash t) as [o t'] eqn:Et. cbn in Eh, C', Ep. subst o.
  rewrite (stm_bind_Ok Hash _ t t' _ Et). cbn. split_and!; [done|by apply coherent_sign|done|]. cbn. by rewrite Ep.
Qed.

Lemma ValidSign_spec pk t : coherent t ->
  (ValidSign pk t).1 = Ok (blsVerifySign pk (Sign t) (hashOf (hashData (proto t)))).
Proof.
  intros C. unfold ValidSign. destruct (Hash_spec t C) as (Eh & _ & _). destruct (Hash t) as [o t'] eqn:Et. cbn in Eh. subst o.
  by rewrite (stm_bind_Ok Hash _ t t' _ Et).
Qed.
End Keys.

(** A transaction signed with a key that the checks accept
    verifies under the public key of its key pair; the verification request built
    from its hash, that public key and the signature survives its encoding and is
    valid; and the key pair's address is the one derived from the public key,
    whichever way the pair was made. *)
Theorem bls_sign_verify `{EthLibLaws} `{TxProto} `{BlstLaws} `{ErrorProtoLaws} (k : bytes) (t : Transaction) :
  ValidateBlsPrivateKey k = true -> coherent t ->
  exists kp, NewKeyPair k = Some kp /\
    let t' := (SetSign (privateKey kp) t).2 in
    (ValidSign (publicKey kp) t').1 = Ok true /\
    (let q := NewVerifyTransactionRequest (hashOf (hashData (proto t))) (publicKey kp) (Sign t') in
     exists q', VerifyRequest_Marshal q ≫= VerifyRequest_Unmarshal = Ok q' /\ VerifyRequest_Valid q' = true) /\
    kpAddress kp = GetAddressFromPublicKey (publicKey kp) /\
    (is_bytes k -> GenerateKeyPairFromSecretKey (EncodeToString k) = (privateKey kp, publicKey kp, kpAddress kp)).
Proof.
  intros Hk C. eexists. split; [by apply NewKeyPair_valid|]. cbn [privateKey publicKey kpAddress]. cbv zeta.
  destruct (SetSign_run k t C) as (_ & C' & Hs & Hh). destruct (blsSign_verify k (hashOf (hashData (proto t))) Hk) as [Hv Hl].
  assert (Hs' : Sign (SetSign k t).2 = blsSign k (hashOf (hashData (proto t)))).
  { rewrite Hs. unfold SignFromBytes. by rewrite arrayFromBytes_id. }
  split_and!.
  - rewrite ValidSign_spec by done. by rewrite Hs', Hh, Hv.
  - set (q := NewVerifyTransactionRequest _ _ _). destruct (verify_request_codec q) as (b & Em & Eu). exists q.
    unfold VerifyRequest_Marshal, VerifyRequest_Unmarshal. rewrite Em. cbn. rewrite Eu. split; [done|].
    unfold VerifyRequest_Valid, SenderPublicKey, SenderSign, VerifyRequest_TransactionHash, PubkeyFromBytes, SignFromBytes, q.
    cbn [NewVerifyTransactionRequest vqHash vqPubkey vqSign]. rewrite Hs'.
    rewrite BytesToHash_id by apply Keccak256_len. by rewrite !arrayFromBytes_id by (apply blst_public_len || done).
  - unfold GetAddressFromPublicKey. by rewrite blst_public_len.
  - intros Hb. unfold GenerateKeyPairFromSecretKey. rewrite DecodeString_Encode by done. rewrite (valid_key_len k Hk), Hk. cbn.
    rewrite blst_deserialize by done. unfold PubkeyFromBytes, PrivateKeyFromBytes.
    by rewrite !arrayFromBytes_id by (apply blst_public_len || by apply valid_key_len).
Qed.

(** ** Executable parameters *)

#[export] Instance toyBlstKeys : BlstKeys := {|
  blstDeserialize k := if ValidateBlsPrivateKey k then Some k else None;
  blstPublic k := arrayFromBytes 48 k
|}.

#[export] Instance toyBlstLaws : BlstLaws.
Proof.
  split.
  - intros k Hk. cbn. by rewrite Hk.
  - intros k. apply length_arrayFromBytes.
  - intros k m _. eexists. split; [reflexivity|]. split; [apply length_arrayFromBytes|]. cbn. f_equal.
    apply bool_decide_eq_true. assert (L : length (toyKeccak m) = 32%nat) by done.
    unfold arrayFromBytes. rewrite (take_app_le (take _ _)) by (rewrite length_take, length_app, L; lia).
    rewrite take_take, Nat.min_l by lia. by rewrite take_app_length'.
Qed.

Definition encTxError (e : TransactionError) : bytes := Code e :: bytesOfString (Description e).
Definition decTxError (b : bytes) : option TransactionError :=
  match b with c :: d => Some (mkTxError c (stringOfBytes d)) | [] => None end.

#[export] Instance toyErrorProto : ErrorProto := {|
  marshalTxError e := Some (encTxError e);
  unmarshalTxError := decTxError;
  marshalHashCode e := Some (pcCode e :: pcHash e);
  unmarshalHashCode b := match b with c :: h => Some (mkPbHashCode h c) | [] => None end;
  marshalHashError e := Some (encFields [[peCode e]; peHash e; bytesOfString (peDescription e); peOutput e]);
  unmarshalHashError b :=
    match decFields b with [c; h; d; o] => Some (mkPbHashError h (decZ c) (stringOfBytes d) o) | _ => None end;
  marshalVerifyRequest q := Some (encFields [vqHash q; vqPubkey q; vqSign q]);
  unmarshalVerifyRequest b := match decFields b with [h; p; s] => Some (mkPbVerifyRequest h p s) | _ => None end;
  marshalVerifyResult q := Some ((if vrValid q then 1 else 0) :: vrHash q);
  unmarshalVerifyResult b := match b with v :: h => Some (mkPbVerifyResult h (v =? 1)) | [] => None end
|}.

#[export] Instance toyErrorProtoLaws : ErrorProtoLaws.
Proof.
  split.
  - intros [c d] Hd. eexists; split; [reflexivity|]. unfold unmarshalTxError, toyErrorProto, encTxError, decTxError, Code, Description.
    by rewrite stringOfBytes_of.
  - intros [h c]. by eexists; split.
  - intros [h c d o] _. eexists; split; [reflexivity|]. cbn [unmarshalHashError toyErrorProto]. rewrite decFields_enc.
    by rewrite stringOfBytes_of.
  - intros [h p s]. eexists; split; [reflexivity|]. cbn [unmarshalVerifyRequest toyErrorProto]. by rewrite decFields_enc.
  - intros [h []]; by eexists; split.
Qed.

Definition sampleKey : bytes := replicate 31 0 ++ [5].

Lemma bls_sign_verify_witness :
  exists kp, NewKeyPair sampleKey = Some kp /\
    let t := TransactionFromProto (mkPbTx [1] [] 0 0 0 [] [] [] [] [] [] [2] false 991 0 [] [] [] None None []) in
    let t' := (SetSign (privateKey kp) t).2 in
    (ValidSign (publicKey kp) t').1 = Ok true /\
    (let q := NewVerifyTransactionRequest (hashOf (hashData (proto t))) (publicKey kp) (Sign t') in
     exists q', VerifyRequest_Marshal q ≫= VerifyRequest_Unmarshal = Ok q' /\ VerifyRequest_Valid q' = true) /\
    kpAddress kp = GetAddressFromPublicKey (publicKey kp) /\
    (is_bytes sampleKey -> GenerateKeyPairFromSecretKey (EncodeToString sampleKey) = (privateKey kp, publicKey kp, kpAddress kp)).
Proof. apply (bls_sign_verify sampleKey); [vm_compute; reflexivity|apply coherent_fresh]. Defined.
