(* ===== verification/ClientProg.v ===== *)
(** * The goroutines of the TCP client

    The state that the client's goroutines share ([pkg/client-tcp]) and what one
    of them does in one step: the programs of [ClientHandler] and [Client] are
    written in the monad [prog], and [clientStep] lets one thread take its next
    step.  Time and the network are outside: each step gets an [Oracle] with what
    the connections answer, the identifier drawn, and whether a timer has fired.

    A channel made for a request is an entry of [chans]; it remembers the
    identifier it was stored under and all the answers put into it. *)

From S2P Require Import Prelude Binary TrieEncoding TrieNode AccountState Receipts Message Connections ReceiptRouter TransactionError.

Local Open Scope Z_scope.

(** ** Messages of the RPC server *)

(** [pb.RpcError] and [pb.RpcResponse] *)
Record RpcError := mkRpcError { reCode : Z; reMessage : string; reData : string }.
Record RpcResponse := mkRpcResponse { rpJsonrpc : string; rpResult : bytes; rpError : option RpcError; rpId : string }.

(** [types.LastDeviceKey] *)
Record LastDeviceKey := mkDeviceKey { dkTransactionHash : bytes; dkLastDeviceKeyFromServer : bytes }.

(** ** Requests waiting for an answer *)

(** The two [sync.Map]s: [pendingChainRequests] holds channels of messages,
    [pendingRpcRequests] channels of RPC responses. *)
Inductive table := ChainTable | RpcTable.

#[export] Instance table_eq_dec : EqDecision table.
Proof. solve_decision. Defined.

Inductive Answer := ChainAnswer (m : Message) | RpcAnswer (r : RpcResponse).

Definition answerTable (a : Answer) : table := match a with ChainAnswer _ => ChainTable | RpcAnswer _ => RpcTable end.
Definition answerId (a : Answer) : string := match a with ChainAnswer m => Msg_ID m | RpcAnswer r => rpId r end.

Record Chan := mkChan { chTable : table; chId : string; chCap : nat; chBuf : list Answer; chLog : list Answer }.

Record Requests := mkRequests { chainTable : gmap string nat; rpcTable : gmap string nat; chans : list Chan }.

Definition tableOf (t : table) (r : Requests) : gmap string nat :=
  match t with ChainTable => chainTable r | RpcTable => rpcTable r end.
Definition setTable (t : table) (m : gmap string nat) (r : Requests) : Requests :=
  match t with
  | ChainTable => mkRequests m (rpcTable r) (chans r)
  | RpcTable => mkRequests (chainTable r) m (chans r)
  end.
Definition setChans (l : list Chan) (r : Requests) : Requests := mkRequests (chainTable r) (rpcTable r) l.

(** [make(chan ..., cap)] and [Store] *)
Definition storeRequest (t : table) (id : string) (cap : nat) (r : Requests) : nat * Requests :=
  let ch := length (chans r) in
  (ch, setTable t (<[id := ch]> (tableOf t r)) (setChans (chans r ++ [mkChan t id cap [] []]) r)).

Definition deleteRequest (t : table) (id : string) (r : Requests) : Requests := setTable t (delete id (tableOf t r)) r.

(** A send that waits for room. *)
Definition sendAnswer (ch : nat) (a : Answer) (r : Requests) : option Requests :=
  c ← chans r !! ch;
  if (length (chBuf c) <? chCap c)%nat
  then Some (setChans (<[ch := mkChan (chTable c) (chId c) (chCap c) (chBuf c ++ [a]) (chLog c ++ [a])]> (chans r)) r)
  else None.

Definition receiveAnswer (ch : nat) (r : Requests) : option (Answer * Requests) :=
  c ← chans r !! ch;
  match chBuf c with
  | [] => None
  | a :: q => Some (a, setChans (<[ch := mkChan (chTable c) (chId c) (chCap c) q (chLog c)]> (chans r)) r)
  end.

(** ** The state *)

(** The connection manager's parent and what was done with connections: messages
    accepted by [SendMessage], calls of [Init], loops started. *)
Record Net := mkNet {
  parent : option Conn;
  nextConn : Conn;
  sent : list (Conn * Message);
  inits : list (Conn * bytes * string);
  serving : list Conn
}.

(** The channels shared by all calls, oldest first. *)
Record Inboxes := mkInboxes {
  accountStateChan : list AccountState;
  receiptChan : list Receipt;
  deviceKeyChan : list LastDeviceKey;
  transactionErrorChan : list TransactionHashWithError
}.

Definition accountStateCap : nat := 2000.

(** The router, the requests and receipts it has seen, and the channels a
    receipt was taken from. *)
Record Waits := mkWaits { router : Router; routerLog : list RouterEvent; taken : list nat; nextWaiter : nat }.

(** [Handler] of [client-tcp/network/handler.go]: a callback is a name, its calls
    are recorded. *)
Record Handler := mkHandler {
  hasReceiptChan : bool;
  hasDeviceKeyChan : bool;
  hasRpcRequests : bool;
  hasChainRequests : bool;
  eventLogChan : option nat;
  eventCallbacks : gmap string nat;
  receiptCallback : option nat;
  blockDataChan : option nat
}.

Record Outputs := mkOutputs {
  called : list (nat * bytes);
  eventLogsOut : list (nat * list PbEventLog);
  blocksOut : list (nat * bytes);
  files : gmap bytes bytes
}.

(** The keep-alive goroutine's stop channel ([keepAliveStop], a number; it reads
    the field each time), the channels of this kind that were closed, and whether
    the socket server was stopped. *)
Record Life := mkLife { keepAliveStop : option nat; closedChans : list nat; serverStopped : bool }.

(** [nonceCache] is the variable of the package [tx_helper]. *)
Record ClientState := mkClient {
  net : Net;
  requests : Requests;
  inboxes : Inboxes;
  waits : Waits;
  handler : Handler;
  outputs : Outputs;
  subscribed : list bytes;
  clock : Z;
  life : Life;
  nonceCache : gmap bytes Z
}.

Definition setNet (x : Net) (s : ClientState) : ClientState :=
  mkClient x (requests s) (inboxes s) (waits s) (handler s) (outputs s) (subscribed s) (clock s) (life s) (nonceCache s).
Definition setRequests (x : Requests) (s : ClientState) : ClientState :=
  mkClient (net s) x (inboxes s) (waits s) (handler s) (outputs s) (subscribed s) (clock s) (life s) (nonceCache s).
Definition setInboxes (x : Inboxes) (s : ClientState) : ClientState :=
  mkClient (net s) (requests s) x (waits s) (handler s) (outputs s) (subscribed s) (clock s) (life s) (nonceCache s).
Definition setWaits (x : Waits) (s : ClientState) : ClientState :=
  mkClient (net s) (requests s) (inboxes s) x (handler s) (outputs s) (subscribed s) (clock s) (life s) (nonceCache s).
Definition setHandler (x : Handler) (s : ClientState) : ClientState :=
  mkClient (net s) (requests s) (inboxes s) (waits s) x (outputs s) (subscribed s) (clock s) (life s) (nonceCache s).
Definition setOutputs (x : Outputs) (s : ClientState) : ClientState :=
  mkClient (net s) (requests s) (inboxes s) (waits s) (handler s) x (subscribed s) (clock s) (life s) (nonceCache s).
Definition setSubscribed (x : list bytes) (s : ClientState) : ClientState :=
  mkClient (net s) (requests s) (inboxes s) (waits s) (handler s) (outputs s) x (clock s) (life s) (nonceCache s).
Definition setClock (x : Z) (s : ClientState) : ClientState :=
  mkClient (net s) (requests s) (inboxes s) (waits s) (handler s) (outputs s) (subscribed s) x (life s) (nonceCache s).
Definition setLife (x : Life) (s : ClientState) : ClientState :=
  mkClient (net s) (requests s) (inboxes s) (waits s) (handler s) (outputs s) (subscribed s) (clock s) x (nonceCache s).
Definition setNonceCache (x : gmap bytes Z) (s : ClientState) : ClientState :=
  mkClient (net s) (requests s) (inboxes s) (waits s) (handler s) (outputs s) (subscribed s) (clock s) (life s) x.

(** ** Programs *)

(** What [waitReceipt] finds in its [select]. *)
Inductive Waited := GotReceipt (r : Receipt) | GotError (e : TransactionHashWithError) | GotTimeout.

(** One step of a goroutine, with its result.  [ANoParent] is the call of
    [AddParentConnection] with nil, which the manager ignores; [AClose] answers
    whether the channel was open; [ATick] is the [select] of the keep-alive loop and
    answers whether the stop channel was the case taken; what [Disconnect] does is in
    the connection. *)
Inductive action : Type -> Type :=
| AParent : action (option Conn)
| AIsConnect (c : Conn) : action bool
| AAddress (c : Conn) : action bytes
| ANewConnection (address : bytes) (cType realConnAddr : string) : action Conn
| AConnect (c : Conn) : action (option GoError)
| AAddParent (c : Conn) : action unit
| ANoParent : action unit
| AServe (c : Conn) : action unit
| ASend (c : Conn) (m : Message) : action (option GoError)
| ASendBytes (c : option Conn) (command : string) (b : bytes) : action (option GoError)
| AInit (c : Conn) (address : bytes) (cType : string) : action unit
| ANewId : action string
| AStore (t : table) (id : string) (cap : nat) : action nat
| ADelete (t : table) (id : string) : action unit
| ALoad (t : table) (id : string) : action (option nat)
| ALoadAndDelete (t : table) (id : string) : action (option nat)
| ADeliver (ch : nat) (a : Answer) : action unit
| AReceive (ch : nat) : action (option Answer)
| ATakeAccount : action AccountState
| APutAccount (a : AccountState) : action unit
| ATakeDeviceKey : action LastDeviceKey
| APutDeviceKey (k : LastDeviceKey) : action unit
| APutError (e : TransactionHashWithError) : action unit
| APutReceipt (r : Receipt) : action unit
| ARegister (mt : receiptMatchType) (h : bytes) : action nat
| ACancel (ch : nat) (h : bytes) : action unit
| AWait (ch : nat) (timed : bool) : action Waited
| ATryReceipt (ch : nat) : action (option Receipt)
| AHandler : action Handler
| ASetHandler (f : Handler -> Handler) : action unit
| AMakeChan : action nat
| ACall (cb : nat) (b : bytes) : action unit
| APutEventLogs (ch : nat) (l : list PbEventLog) : action unit
| ATryPutBlock (ch : nat) (b : bytes) : action unit
| ASubscribed : action (list bytes)
| ASubscribe (l : list bytes) : action unit
| ANow : action Z
| ADone : action bool
| AStopServer : action unit
| AStopChan : action (option nat)
| AClose (ch : nat) : action bool
| ASetStop (ch : option nat) : action unit
| ATick (stop : option nat) : action bool
| ADisconnect (c : Conn) : action unit
| AWriteFile (name b : bytes) : action (option GoError)
| AReadFile (name : bytes) : action (option bytes)
| AListFiles : action (option (list bytes))
| ACachedNonce (a : bytes) : action (option Z)
| ACacheNonce (a : bytes) (nonce : Z) : action unit.

(** [Iter body k] repeats [body] until it returns a value for [k]. *)
Inductive prog (A : Type) : Type :=
| Ret (a : A)
| Act (X : Type) (act : action X) (k : X -> prog A)
| Go (p : prog unit) (k : prog A)
| Iter (B : Type) (body : prog (option B)) (k : B -> prog A)
| Crash.
Arguments Ret {A} a.
Arguments Act {A X} act k.
Arguments Go {A} p k.
Arguments Iter {A B} body k.
Arguments Crash {A}.

Fixpoint progBind {A B} (p : prog A) (f : A -> prog B) : prog B :=
  match p with
  | Ret a => f a
  | Act act k => Act act (fun x => progBind (k x) f)
  | Go q k => Go q (progBind k f)
  | Iter body k => Iter body (fun b => progBind (k b) f)
  | Crash => Crash
  end.

Definition act {X} (a : action X) : prog X := Act a Ret.

(** Calls that can fail return an [outcome]: an error ends the caller too. *)
Definition progTry {A B} (p : prog (outcome A)) (f : A -> prog (outcome B)) : prog (outcome B) :=
  progBind p (fun o => match o with Ok a => f a | Err e => Ret (Err e) | Panic => Crash | NoFuel => Ret NoFuel end).

Declare Scope client_scope.
Notation "x <- p ;; q" := (progBind p (fun x => q)) (at level 100, p at next level, right associativity, only parsing) : client_scope.
Notation "x <-? p ;; q" := (progTry p (fun x => q)) (at level 100, p at next level, right associativity, only parsing) : client_scope.

Definition fail {A} (msg : string) : prog (outcome A) := Ret (Err (ErrText msg)).
Definition ok {A} (a : A) : prog (outcome A) := Ret (Ok a).

(** ** Steps *)

(** What the world answers in a step: the connections, the error of a send or a
    dial, an identifier, whether a timer has fired (or the server's context is
    done), and whether the other case of a [select] or the far side of a channel
    is ready. *)
Record Oracle := mkOracle {
  oEnv : ConnEnv;
  oError : option GoError;
  oId : string;
  oExpired : bool;
  oReady : bool
}.

Definition pushSent (c : Conn) (m : Message) (n : Net) : Net :=
  mkNet (parent n) (nextConn n) (sent n ++ [(c, m)]) (inits n) (serving n).

(** [SendMessage] of a connection, as the message sender sees it. *)
Definition connOps (o : Oracle) (c : Conn) : ConnOps Net :=
  mkConnOps _ (Connections.Address (oEnv o) c) (fun m n =>
    match oError o with Some e => (Err e, n) | None => (Ok tt, pushSent c m n) end).

Definition errorOf {A} (o : outcome A) : option GoError := match o with Err e => Some e | _ => None end.

Section Steps.
Context `{EthLib}.
Context (version : string).

Definition logRouter (e : RouterEvent) (w : Waits) : Waits :=
  mkWaits (routerStep (router w) e) (routerLog w ++ [e]) (taken w) (nextWaiter w).

(** The receipt in a waiter's channel, if it is still there. *)
Definition takeReceipt (ch : nat) (w : Waits) : option (Receipt * Waits) :=
  if bool_decide (ch ∈ taken w) then None
  else match delivered (router w) !! ch with
       | Some (r :: _) => Some (r, mkWaits (router w) (routerLog w) (ch :: taken w) (nextWaiter w))
       | _ => None
       end.

Definition room {A} (cap : nat) (l : list A) : bool := (length l <? cap)%nat.

(** [None] when the step cannot be taken now. *)
Definition doAction {X} (o : Oracle) (a : action X) (s : ClientState) : option (X * ClientState) :=
  match a in action X return option (X * ClientState) with
  | AParent => Some (parent (net s), s)
  | AIsConnect c => Some (Connections.IsConnect (oEnv o) c, s)
  | AAddress c => Some (Connections.Address (oEnv o) c, s)
  | ANewConnection _ _ _ =>
      let n := net s in
      Some (nextConn n, setNet (mkNet (parent n) (Pos.succ (nextConn n)) (sent n) (inits n) (serving n)) s)
  | AConnect c => Some (oError o, s)
  | AAddParent c =>
      let n := net s in Some (tt, setNet (mkNet (Some c) (nextConn n) (sent n) (inits n) (serving n)) s)
  | ANoParent => Some (tt, s)
  | AServe c =>
      let n := net s in Some (tt, setNet (mkNet (parent n) (nextConn n) (sent n) (inits n) (serving n ++ [c])) s)
  | ASend c m =>
      match oError o with
      | Some e => Some (Some e, s)
      | None => Some (None, setNet (pushSent c m (net s)) s)
      end
  | ASendBytes c command b =>
      let '(r, n) := Sender_SendBytes (NewMessageSender version) (oId o) (connOps o <$> c) command b (net s) in
      Some (errorOf r, setNet n s)
  | AInit c address cType =>
      let n := net s in
      Some (tt, setNet (mkNet (parent n) (nextConn n) (sent n) (inits n ++ [(c, address, cType)]) (serving n)) s)
  | ANewId => Some (oId o, s)
  | AStore t id cap => let '(ch, r) := storeRequest t id cap (requests s) in Some (ch, setRequests r s)
  | ADelete t id => Some (tt, setRequests (deleteRequest t id (requests s)) s)
  | ALoad t id => Some (tableOf t (requests s) !! id, s)
  | ALoadAndDelete t id => Some (tableOf t (requests s) !! id, setRequests (deleteRequest t id (requests s)) s)
  | ADeliver ch a => r ← sendAnswer ch a (requests s); Some (tt, setRequests r s)
  | AReceive ch =>
      if oExpired o then Some (None, s)
      else '(a, r) ← receiveAnswer ch (requests s); Some (Some a, setRequests r s)
  | ATakeAccount =>
      let b := inboxes s in
      match accountStateChan b with
      | [] => None
      | a :: q => Some (a, setInboxes (mkInboxes q (receiptChan b) (deviceKeyChan b) (transactionErrorChan b)) s)
      end
  | APutAccount a =>
      let b := inboxes s in
      if room accountStateCap (accountStateChan b)
      then Some (tt, setInboxes (mkInboxes (accountStateChan b ++ [a]) (receiptChan b) (deviceKeyChan b) (transactionErrorChan b)) s)
      else None
  | ATakeDeviceKey =>
      let b := inboxes s in
      match deviceKeyChan b with
      | [] => None
      | k :: q => Some (k, setInboxes (mkInboxes (accountStateChan b) (receiptChan b) q (transactionErrorChan b)) s)
      end
  | APutDeviceKey k =>
      let b := inboxes s in
      if room 1 (deviceKeyChan b)
      then Some (tt, setInboxes (mkInboxes (accountStateChan b) (receiptChan b) (deviceKeyChan b ++ [k]) (transactionErrorChan b)) s)
      else None
  | APutError e =>
      let b := inboxes s in
      if room 1 (transactionErrorChan b)
      then Some (tt, setInboxes (mkInboxes (accountStateChan b) (receiptChan b) (deviceKeyChan b) (transactionErrorChan b ++ [e])) s)
      else None
  | APutReceipt r =>
      let b := inboxes s in
      if room 1 (receiptChan b)
      then Some (tt, setInboxes (mkInboxes (accountStateChan b) (receiptChan b ++ [r]) (deviceKeyChan b) (transactionErrorChan b)) s)
      else None
  | ARegister mt h =>
      let w := waits s in
      let ch := nextWaiter w in
      let w' := logRouter (RvRegister (clock s) ch mt h) w in
      Some (ch, setWaits (mkWaits (router w') (routerLog w') (taken w') (S ch)) s)
  | ACancel ch h => Some (tt, setWaits (logRouter (RvCancel ch h) (waits s)) s)
  | AWait ch timed =>
      if timed && oExpired o then Some (GotTimeout, s)
      else if timed && oReady o then
        let b := inboxes s in
        match transactionErrorChan b with
        | [] => None
        | e :: q => Some (GotError e, setInboxes (mkInboxes (accountStateChan b) (receiptChan b) (deviceKeyChan b) q) s)
        end
      else '(r, w) ← takeReceipt ch (waits s); Some (GotReceipt r, setWaits w s)
  | ATryReceipt ch =>
      match takeReceipt ch (waits s) with
      | Some (r, w) => Some (Some r, setWaits w s)
      | None => Some (None, s)
      end
  | AHandler => Some (handler s, s)
  | ASetHandler f => Some (tt, setHandler (f (handler s)) s)
  | AMakeChan =>
      let w := waits s in Some (nextWaiter w, setWaits (mkWaits (router w) (routerLog w) (taken w) (S (nextWaiter w))) s)
  | ACall cb b =>
      let u := outputs s in
      Some (tt, setOutputs (mkOutputs (called u ++ [(cb, b)]) (eventLogsOut u) (blocksOut u) (files u)) s)
  | APutEventLogs ch l =>
      let u := outputs s in
      if oReady o then Some (tt, setOutputs (mkOutputs (called u) (eventLogsOut u ++ [(ch, l)]) (blocksOut u) (files u)) s)
      else None
  | ATryPutBlock ch b =>
      let u := outputs s in
      if oReady o then Some (tt, setOutputs (mkOutputs (called u) (eventLogsOut u) (blocksOut u ++ [(ch, b)]) (files u)) s)
      else Some (tt, s)
  | ASubscribed => Some (subscribed s, s)
  | ASubscribe l => Some (tt, setSubscribed (subscribed s ++ l) s)
  | ANow => Some (clock s, s)
  | ADone => Some (serverStopped (life s), s)
  | AStopServer => Some (tt, setLife (mkLife (keepAliveStop (life s)) (closedChans (life s)) true) s)
  | AStopChan => Some (keepAliveStop (life s), s)
  | AClose ch =>
      let l := life s in
      if bool_decide (ch ∈ closedChans l) then Some (false, s)
      else Some (true, setLife (mkLife (keepAliveStop l) (ch :: closedChans l) (serverStopped l)) s)
  | ASetStop ch => Some (tt, setLife (mkLife ch (closedChans (life s)) (serverStopped (life s))) s)
  | ATick stop =>
      if oReady o
      then match stop with
           | Some ch => if bool_decide (ch ∈ closedChans (life s)) then Some (true, s) else None
           | None => None
           end
      else Some (false, s)
  | ADisconnect c => Some (tt, s)
  | AWriteFile name b =>
      let u := outputs s in
      match oError o with
      | Some e => Some (Some e, s)
      | None => Some (None, setOutputs (mkOutputs (called u) (eventLogsOut u) (blocksOut u) (<[name := b]> (files u))) s)
      end
  | AReadFile name => Some (files (outputs s) !! name, s)
  | AListFiles =>
      match oError o with
      | Some _ => Some (None, s)
      | None => Some (Some (map_to_list (files (outputs s))).*1, s)
      end
  | ACachedNonce a => Some (nonceCache s !! a, s)
  | ACacheNonce a nonce => Some (tt, setNonceCache (<[a := nonce]> (nonceCache s)) s)
  end.

(** ** The system *)

(** The result of a call, as far as a statement speaks of it. *)
Inductive Value :=
| VReceipt (o : outcome Receipt)
| VAccount (o : outcome AccountState)
| VNumber (o : outcome Z)
| VHash (o : outcome bytes)
| VDone.

Definition Thread : Type := prog Value.
Definition returning {A} (f : A -> Value) (p : prog A) : Thread := progBind p (fun a => Ret (f a)).
Definition done {A} (p : prog A) : Thread := returning (fun _ => VDone) p.

Record System := mkSystem { client : ClientState; threads : list Thread }.

(** The next step of a thread: the state, the rest of it, a goroutine it starts. *)
Definition threadStep (o : Oracle) (t : Thread) (s : ClientState) : option (ClientState * Thread * list Thread) :=
  match t with
  | Ret _ | Crash => None
  | Act a k => '(x, s') ← doAction o a s; Some (s', k x, [])
  | Go q k => Some (s, k, [done q])
  | Iter body k => Some (s, progBind body (fun r => match r with Some b => k b | None => Iter body k end), [])
  end.

(** [CRouter] is the router's goroutine taking a receipt; a call is a new thread. *)
Inductive ClientEvent :=
| CThread (i : nat) (o : Oracle)
| CCall (t : Thread)
| CRouter
| CCleanup
| CTick (d : N).

Definition clientStep (e : ClientEvent) (y : System) : option System :=
  let s := client y in
  match e with
  | CThread i o =>
      t ← threads y !! i;
      '(s', t', new) ← threadStep o t s;
      Some (mkSystem s' (<[i := t']> (threads y) ++ new))
  | CCall t => Some (mkSystem s (threads y ++ [t]))
  | CRouter =>
      let b := inboxes s in
      match receiptChan b with
      | [] => None
      | r :: q =>
          Some (mkSystem (setWaits (logRouter (RvReceipt (clock s) r) (waits s))
                  (setInboxes (mkInboxes (accountStateChan b) q (deviceKeyChan b) (transactionErrorChan b)) s)) (threads y))
      end
  | CCleanup => Some (mkSystem (setWaits (logRouter (RvCleanup (clock s)) (waits s)) s) (threads y))
  | CTick d => Some (mkSystem (setClock (clock s + Z.of_N d) s) (threads y))
  end.

Fixpoint clientRun (es : list ClientEvent) (y : System) : option System :=
  match es with [] => Some y | e :: es => y' ← clientStep e y; clientRun es y' end.

(** The state [NewClient] starts from: empty channels, the handler's maps set. *)
Definition newClientState (now : Z) : ClientState :=
  mkClient (mkNet None 1 [] [] []) (mkRequests ∅ ∅ []) (mkInboxes [] [] [] []) (mkWaits emptyRouter [] [] 0)
    (mkHandler true true true true None ∅ None None) (mkOutputs [] [] [] ∅) [] now (mkLife None [] false) ∅.
End Steps.
