(* ===== verification/ClientHandler.v ===== *)
(** * The handler of the TCP client

    Models [client-tcp/command/commands.go], [client-tcp/network/handler.go]
    and [client-tcp/network/tps.go]: the commands, and what a worker does with a
    message from the node.  Answers to requests go to the channel stored under
    the identifier of the message; other messages go to the shared channels.  The
    constructor and the setters of the handler are the fields of
    [ClientProg.Handler]. *)

From S2P Require Import Prelude Binary TrieEncoding TrieNode AccountState Receipts SmartContract Message Connections ReceiptRouter TransactionError ClientProg.

Local Open Scope Z_scope.
Local Open Scope client_scope.

(** ** [commands.go] *)

Module Command.
Definition InitConnection : string := "InitConnection".
Definition Ping : string := "Ping".
Definition GetStats : string := "GetStats".
Definition Stats : string := "Stats".
Definition ChangeLogLevel : string := "ChangeLogLevel".
Definition ReadTransaction : string := "ReadTransaction".
Definition EstimateGas : string := "EstimateGas".
Definition SendTransaction : string := "SendTransaction".
Definition SendTransactionWithDeviceKey : string := "SendTransactionWithDeviceKey".
Definition SendTransactions : string := "SendTransactions".
Definition SendRawTransaction : string := "SendRawTransaction".
Definition SendRawTransactions : string := "SendRawTransactions".
Definition GetAccountState : string := "GetAccountState".
Definition SubscribeToAddress : string := "SubscribeToAddress".
Definition GetStakeState : string := "GetStakeState".
Definition GetSmartContractData : string := "GetSmartContractData".
Definition GetNonce : string := "GetNonce".
Definition GetDeviceKey : string := "GetDeviceKey".
Definition Nonce : string := "Nonce".
Definition AccountState : string := "AccountState".
Definition StakeState : string := "StakeState".
Definition Receipt : string := "Receipt".
Definition TransactionError : string := "TransactionError".
Definition EventLogs : string := "EventLogs".
Definition QueryLogs : string := "QueryLogs".
Definition SmartContractData : string := "SmartContractData".
Definition DeviceKey : string := "DeviceKey".
Definition ServerBusy : string := "ServerBusy".
Definition RpcNetVersion : string := "NetVersion".
Definition RpcEthChainId : string := "eth_chainId".
Definition RpcEthSendRawTransaction : string := "eth_sendRawTransaction".
Definition TcpGetChainId : string := "tcp_getChainId".
Definition RpcResponse : string := "RpcResponse".
Definition RpcEvent : string := "RpcEvent".
Definition GetChainId : string := "GetChainId".
Definition ChainId : string := "ChainId".
Definition GetTransactionReceipt : string := "GetTransactionReceipt".
Definition TransactionReceipt : string := "TransactionReceipt".
Definition GetBlockNumber : string := "GetBlockNumber".
Definition BlockNumber : string := "BlockNumber".
Definition GetLogs : string := "GetLogs".
Definition Logs : string := "Logs".
Definition GetTransactionByHash : string := "GetTransactionByHash".
Definition TransactionByHash : string := "TransactionByHash".
Definition TransactionSuccess : string := "TransactionSuccess".
Definition GetBlockDataByNumberFromMaster : string := "GetBlockDataByNumberFromMaster".
Definition BlockDataFromMainMaster : string := "BlockDataFromMainMaster".
Definition GetRegistrationMessage : string := "GetRegistrationMessage".
Definition RegistrationMessage : string := "RegistrationMessage".
Definition RegisterAccount : string := "RegisterAccount".
Definition RegisterAccountAck : string := "RegisterAccountAck".
Definition RegistrationResult : string := "RegistrationResult".
Definition GetRegistrationStatus : string := "GetRegistrationStatus".
Definition RegistrationStatus : string := "RegistrationStatus".
End Command.

(** ** Codecs *)

(** [pb.InitConnection] *)
Record PbInitConnection := mkPbInit { piAddress : bytes; piType : string; piPublicConnectionAddress : string; piReplace : bool }.

(** [proto.Unmarshal] of the messages the handler reads; of an RPC event, its
    subscription and the address of its log. *)
Class HandlerProto := {
  unmarshalInit : bytes -> option PbInitConnection;
  unmarshalRpcResponse : bytes -> option RpcResponse;
  unmarshalRpcEvent : bytes -> option (string * option string);
  unmarshalStats : bytes -> option unit
}.

Definition ErrorCommandNotFound : GoError := ErrText "command not found".

(** ** Setters of the handler *)

Definition SetEventLogsChan (ch : nat) (h : Handler) : Handler :=
  mkHandler (hasReceiptChan h) (hasDeviceKeyChan h) (hasRpcRequests h) (hasChainRequests h) (Some ch) (eventCallbacks h)
    (receiptCallback h) (blockDataChan h).
Definition SetPendingRpcRequests (h : Handler) : Handler :=
  mkHandler (hasReceiptChan h) (hasDeviceKeyChan h) true (hasChainRequests h) (eventLogChan h) (eventCallbacks h)
    (receiptCallback h) (blockDataChan h).
Definition SetPendingChainRequests (h : Handler) : Handler :=
  mkHandler (hasReceiptChan h) (hasDeviceKeyChan h) (hasRpcRequests h) true (eventLogChan h) (eventCallbacks h)
    (receiptCallback h) (blockDataChan h).
Definition SetBlockDataChan (ch : option nat) (h : Handler) : Handler :=
  mkHandler (hasReceiptChan h) (hasDeviceKeyChan h) (hasRpcRequests h) (hasChainRequests h) (eventLogChan h) (eventCallbacks h)
    (receiptCallback h) ch.
Definition setCallbacks (m : gmap string nat) (h : Handler) : Handler :=
  mkHandler (hasReceiptChan h) (hasDeviceKeyChan h) (hasRpcRequests h) (hasChainRequests h) (eventLogChan h) m
    (receiptCallback h) (blockDataChan h).
Definition RegisterEventCallback (subID : string) (cb : nat) (h : Handler) : Handler :=
  setCallbacks (<[subID := cb]> (eventCallbacks h)) h.
Definition RemoveEventCallback (subID : string) (h : Handler) : Handler := setCallbacks (delete subID (eventCallbacks h)) h.
Definition SetEventCallback (cb : nat) (h : Handler) : Handler := RegisterEventCallback "_default" cb h.
Definition AddEventCallback (cb : nat) (h : Handler) : Handler := RegisterEventCallback "_default" cb h.
Definition RegisterReceiptCallback (cb : nat) (h : Handler) : Handler :=
  mkHandler (hasReceiptChan h) (hasDeviceKeyChan h) (hasRpcRequests h) (hasChainRequests h) (eventLogChan h) (eventCallbacks h)
    (Some cb) (blockDataChan h).

(** [NewHandler] with channels that are not nil. *)
Definition NewHandler : Handler := mkHandler true true false false None ∅ None None.

(** ** [handler.go] *)

Section Handler.
Context `{EthLib} `{StateProto} `{ReceiptProto} `{ScProto} `{ErrorProto} `{HandlerProto}.

Definition nonEmpty (s : string) : bool := negb (bool_decide (s = ""%string)).

(** A message with an identifier goes to the request that waits under it; if
    there is none, [rest] handles it. *)
Definition answerOr (msg : Message) (rest : prog (outcome unit)) : prog (outcome unit) :=
  h <- act AHandler ;;
  if nonEmpty (Msg_ID msg) && hasChainRequests h then
    val <- act (ALoadAndDelete ChainTable (Msg_ID msg)) ;;
    match val with
    | Some ch => _ <- act (ADeliver ch (ChainAnswer msg)) ;; ok tt
    | None => rest
    end
  else rest.

Definition handleInitConnection (conn : Conn) (msg : Message) : prog (outcome unit) :=
  initData <-? Ret (Msg_Unmarshal msg (Some unmarshalInit)) ;;
  _ <- act (AInit conn (BytesToAddress (piAddress initData)) (piType initData)) ;; ok tt.

Definition decodeAccount (b : bytes) : outcome AccountState :=
  match AccountState.Unmarshal b zeroAccount with
  | (Ok _, a) => Ok a
  | (Err e, _) => Err e
  | (Panic, _) => Panic
  | (NoFuel, _) => NoFuel
  end.

Definition handleAccountState (msg : Message) : prog (outcome unit) :=
  answerOr msg (
    accountState <-? Ret (decodeAccount (Msg_Body msg)) ;;
    _ <- act (APutAccount accountState) ;; ok tt).

(** The error is decoded first, and logged; it is sent on undecoded. *)
Definition handleTransactionError (msg : Message) : prog (outcome unit) :=
  transactionError <-? Ret (HashError_Unmarshal (Msg_Body msg)) ;;
  answerOr msg (_ <- act (APutError transactionError) ;; ok tt).

Definition handleDeviceKey (msg : Message) : prog (outcome unit) :=
  let data := Msg_Body msg in
  if negb (length data =? 64)%nat && negb (length data =? 32)%nat then fail "unable to parse wrong len"
  else
    let lastDeviceKeyFromServer := if (length data =? 32)%nat then zeroHash else drop 32 data in
    h <- act AHandler ;;
    if hasDeviceKeyChan h then
      _ <- act (APutDeviceKey (mkDeviceKey (take 32 data) lastDeviceKeyFromServer)) ;; ok tt
    else fail "deviceKeyChan is nil".

Definition decodeReceipt (b : bytes) : outcome Receipt :=
  match unmarshalReceipt b with Some r => Ok r | None => Err (ErrText "proto") end.

(** Without a receipt channel the receipt is only logged. *)
Definition handleReceipt (msg : Message) : prog (outcome unit) :=
  answerOr msg (
    h <- act AHandler ;;
    _ <- match receiptCallback h with Some cb => act (ACall cb (Msg_Body msg)) | None => Ret tt end ;;
    receipt <-? Ret (decodeReceipt (Msg_Body msg)) ;;
    if hasReceiptChan h then _ <- act (APutReceipt receipt) ;; ok tt else ok tt).

Definition handleEventLogs (msg : Message) : prog (outcome unit) :=
  eventLogs <-? Ret (UnmarshalEventLogs (Msg_Body msg)) ;;
  h <- act AHandler ;;
  match eventLogChan h with
  | Some ch => _ <- act (APutEventLogs ch eventLogs) ;; ok tt
  | None => ok tt
  end.

Definition handleStats (msg : Message) : prog (outcome unit) :=
  match unmarshalStats (Msg_Body msg) with Some _ => ok tt | None => fail "proto" end.

Definition handleRpcResponse (msg : Message) : prog (outcome unit) :=
  match unmarshalRpcResponse (Msg_Body msg) with
  | None => fail "proto"
  | Some resp =>
      h <- act AHandler ;;
      if negb (hasRpcRequests h) then ok tt
      else
        val <- act (ALoadAndDelete RpcTable (rpId resp)) ;;
        match val with
        | Some ch => _ <- act (ADeliver ch (RpcAnswer resp)) ;; ok tt
        | None => ok tt
        end
  end.

Definition handleRpcEvent (msg : Message) : prog (outcome unit) :=
  match unmarshalRpcEvent (Msg_Body msg) with
  | None => fail "proto"
  | Some (subscriptionId, _) =>
      h <- act AHandler ;;
      match eventCallbacks h !! subscriptionId with
      | Some cb => _ <- act (ACall cb (Msg_Body msg)) ;; ok tt
      | None => ok tt
      end
  end.

(** The acknowledgement of a registration leaves the request in the table. *)
Definition handleChainResponse (msg : Message) : prog (outcome unit) :=
  let id := Msg_ID msg in
  h <- act AHandler ;;
  if negb (hasChainRequests h) then ok tt
  else
    val <- (if bool_decide (Msg_Command msg = Command.RegisterAccountAck) then act (ALoad ChainTable id)
            else act (ALoadAndDelete ChainTable id)) ;;
    match val with
    | Some ch => _ <- act (ADeliver ch (ChainAnswer msg)) ;; ok tt
    | None => ok tt
    end.

Definition chainResponses : list string :=
  [Command.ChainId; Command.TransactionReceipt; Command.BlockNumber; Command.Logs; Command.TransactionByHash;
   Command.Nonce; Command.TransactionSuccess; Command.RegistrationMessage; Command.RegisterAccountAck;
   Command.RegistrationResult; Command.RegistrationStatus].

Definition HandleRequest (request : Request Conn) : prog (outcome unit) :=
  let msg := rMessage request in
  let cmd := Msg_Command msg in
  if bool_decide (cmd = Command.InitConnection) then handleInitConnection (rConnection request) msg
  else if bool_decide (cmd = Command.AccountState) then handleAccountState msg
  else if bool_decide (cmd = Command.TransactionError) then handleTransactionError msg
  else if bool_decide (cmd = Command.Receipt) then handleReceipt msg
  else if bool_decide (cmd = Command.DeviceKey) then handleDeviceKey msg
  else if bool_decide (cmd = Command.EventLogs) then handleEventLogs msg
  else if bool_decide (cmd = Command.QueryLogs) then handleEventLogs msg
  else if bool_decide (cmd = Command.Stats) then handleStats msg
  else if bool_decide (cmd = Command.ServerBusy) then ok tt
  else if bool_decide (cmd = Command.RpcResponse) then handleRpcResponse msg
  else if bool_decide (cmd = Command.RpcEvent) then handleRpcEvent msg
  else if bool_decide (cmd ∈ chainResponses) then handleChainResponse msg
  else if bool_decide (cmd = Command.BlockDataFromMainMaster) then
    h <- act AHandler ;;
    match blockDataChan h with
    | Some ch => _ <- act (ATryPutBlock ch (Msg_Body msg)) ;; ok tt
    | None => ok tt
    end
  else Ret (Err ErrorCommandNotFound).

(** ** [tps.go] *)

(** The handler of the load generator knows four commands. *)
Definition Tps_handleAccountState (msg : Message) : prog (outcome unit) :=
  accountState <-? Ret (decodeAccount (Msg_Body msg)) ;;
  _ <- act (APutAccount accountState) ;; ok tt.

Definition Tps_handleReceipt (msg : Message) : prog (outcome unit) :=
  _ <-? Ret (decodeReceipt (Msg_Body msg)) ;; ok tt.

Definition Tps_HandleRequest (request : Request Conn) : prog (outcome unit) :=
  let msg := rMessage request in
  let cmd := Msg_Command msg in
  if bool_decide (cmd = Command.InitConnection) then handleInitConnection (rConnection request) msg
  else if bool_decide (cmd = Command.AccountState) then Tps_handleAccountState msg
  else if bool_decide (cmd = Command.Nonce) then Tps_handleAccountState msg
  else if bool_decide (cmd = Command.Receipt) then Tps_handleReceipt msg
  else fail "command not found".
End Handler.
