(* ===== verification/ClientRequests.v ===== *)
(** * Requests of the TCP client

    Models [client-tcp/config/config.go], [client-tcp/client_chain.go] and the
    RPC part of [client-tcp/client.go]: the parent connection, the two ways of
    sending a request and waiting for its answer, and the calls that decode the
    answers.  A call is a program of [ClientProg]; the duration of a timer is
    left out, since a timer may fire at any time. *)

From stdpp Require Import pretty.
From S2P Require Import Prelude Binary TrieEncoding TrieNode AccountState Receipts SmartContract Transaction Message Connections ReceiptRouter TransactionError BlsKeys ClientProg ClientHandler.

Local Open Scope Z_scope.
Local Open Scope client_scope.

(** ** Configuration *)

(** The JSON value of [parent_connection_address]. *)
Inductive jsonValue := JNull | JString (s : string) | JList (l : list jsonValue) | JOther.

Record ClientConfig := mkClientConfig {
  cfgPrivateKey : bytes;
  cfgVersion : string;
  cfgParentAddress : bytes;
  cfgParentConnectionAddress : jsonValue;
  cfgParentConnectionType : string;
  cfgChainId : Z;
  cfgEthPrivateKey : bytes
}.

Definition GetParentConnectionAddress (c : ClientConfig) : string :=
  match cfgParentConnectionAddress c with
  | JString v => v
  | JList (JString str :: _) => str
  | _ => ""
  end.

(** ** Codecs *)

(** [pb.GetLogsRequest]; a nil topic filter is [None]. *)
Record PbLogsRequest := mkLogsRequest {
  lqBlockHash : bytes;
  lqFromBlock : bytes;
  lqToBlock : bytes;
  lqAddresses : list bytes;
  lqTopics : list (option (list bytes))
}.

(** [pb.RegistrationResult] *)
Record RegistrationResult := mkRegistration {
  rgStatus : string;
  rgAddress : string;
  rgHomeCluster : string;
  rgReason : string
}.

(** [proto.Marshal] and [proto.Unmarshal] of the messages of the requests, and
    [encoding/json] on strings.  The receipts and logs of an answer are opaque. *)
Class ClientCodec := {
  RpcReceipt : Type;
  LogEntry : Type;
  marshalInit : PbInitConnection -> option bytes;
  marshalReceiptRequest : bytes -> option bytes;
  unmarshalReceiptResponse : bytes -> option (option RpcReceipt * string);
  marshalLogsRequest : PbLogsRequest -> option bytes;
  unmarshalLogsResponse : bytes -> option (list LogEntry * string);
  marshalRegister : bytes * bytes -> option bytes;
  unmarshalRegistration : bytes -> option RegistrationResult;
  marshalDeviceTx : option PbTransaction * bytes -> option bytes;
  unmarshalDeviceTx : bytes -> option (option PbTransaction * bytes);
  marshalSendTx : bytes -> option bytes;
  marshalHashParam : bytes -> option bytes;
  unmarshalHashParam : bytes -> option bytes;
  marshalEthCall : bytes * bytes -> option bytes;
  marshalSubscribe : list bytes * list bytes -> option bytes;
  marshalUnsubscribe : string -> option bytes;
  unmarshalRpcReceipt : bytes -> option RpcReceipt;
  jsonString : bytes -> option string;
  jsonStrings : list string -> bytes
}.

(** A failed encoding is returned as an error. *)
Definition encoded {A B} (o : option A) (f : A -> prog (outcome B)) : prog (outcome B) :=
  match o with Some a => f a | None => fail "failed to marshal" end.
Definition decoded {A B} (o : option A) (f : A -> prog (outcome B)) : prog (outcome B) :=
  match o with Some a => f a | None => fail "failed to unmarshal" end.

(** A [string] that holds hexadecimal text is the list of its characters. *)
Definition trim0x (s : bytes) : bytes := match s with 48 :: 120 :: r => r | _ => s end.
Definition HashHex (h : bytes) : bytes := 48 :: 120 :: EncodeToString h.
Definition HexToHash `{EthLib} (s : bytes) : bytes := BytesToHash (FromHex s).

Section Requests.
Context `{EthLib} `{StateProto} `{ReceiptProto} `{TxProto} `{ErrorProto} `{ClientCodec}.
Context (config : ClientConfig) (keyPair : KeyPair).

(** ** The parent connection *)

(** [parentConn != nil && parentConn.IsConnect()] *)
Definition isUp (parentConn : option Conn) : prog bool :=
  match parentConn with None => Ret false | Some c => act (AIsConnect c) end.

Definition connectedParent : prog (option Conn) :=
  p <- act AParent ;; b <- isUp p ;; Ret (if b : bool then p else None).

(** [OnConnect] of the server: the InitConnection message with the address of the
    parent connection. *)
Definition OnConnect (c : Conn) : prog unit :=
  p <- act AParent ;;
  a <- match p with Some q => act (AAddress q) | None => Ret (kpAddress keyPair) end ;;
  match marshalInit (mkPbInit a "client" "" true) with
  | None => Ret tt
  | Some body => _ <- act (ASendBytes (Some c) Command.InitConnection body) ;; Ret tt
  end.

Definition ReconnectToParent : prog (outcome unit) :=
  parentConn <- act (ANewConnection (HexToAddress (cfgParentAddress config)) (cfgParentConnectionType config)
                       (GetParentConnectionAddress config)) ;;
  err <- act (AConnect parentConn) ;;
  match err with
  | Some e => Ret (Err e)
  | None =>
      _ <- act (AAddParent parentConn) ;;
      _ <- OnConnect parentConn ;;
      _ <- act (AServe parentConn) ;;
      ok tt
  end.

(** The guard of the calls that need the parent: reconnect if it is not there. *)
Definition ensureUp (parentConn : option Conn) : prog (outcome unit) :=
  b <- isUp parentConn ;; if b : bool then ok tt else ReconnectToParent.

Definition ensureParent : prog (outcome unit) := p <- act AParent ;; ensureUp p.

(** The same, with the connection to use afterwards. *)
Definition parentUp : prog (outcome (option Conn)) :=
  p <- act AParent ;;
  b <- isUp p ;;
  if b : bool then ok p else _ <-? ReconnectToParent ;; p <- act AParent ;; ok p.

Definition IsParentConnected : prog bool := p <- connectedParent ;; Ret (bool_decide (is_Some p)).

(** [NewClient] connects, trying again every second with a new connection. *)
Definition connectLoop : prog Conn :=
  Iter (c <- act (ANewConnection (HexToAddress (cfgParentAddress config)) (cfgParentConnectionType config)
                    (GetParentConnectionAddress config)) ;;
        err <- act (AConnect c) ;;
        Ret (match err with Some _ => None | None => Some c end)) Ret.

(** [startKeepAliveLoop]: the stop channel is read from the client at the start of
    each turn. *)
Definition keepAlive : prog unit :=
  p <- connectedParent ;;
  match p with
  | None => Ret tt
  | Some c => _ <- act (ASendBytes (Some c) Command.Ping []) ;; Ret tt
  end.

Definition startKeepAliveLoop : prog unit :=
  ch <- act AMakeChan ;;
  _ <- act (ASetStop (Some ch)) ;;
  Go (Iter (ch <- act AStopChan ;;
            stop <- act (ATick ch) ;;
            if stop : bool then Ret (Some tt) else _ <- keepAlive ;; Ret None) Ret)
     (Ret tt).

(** The listener that the source starts here is the server's. *)
Definition NewClient : prog unit :=
  parentConn <- connectLoop ;;
  _ <- act (AAddParent parentConn) ;;
  _ <- OnConnect parentConn ;;
  _ <- act (AServe parentConn) ;;
  startKeepAliveLoop.

(** ** Requests to the chain *)

Definition requestMessage (cmd : string) (toAddress : bytes) (id : string) (body : bytes) : Message :=
  NewMessage (Some (mkPbMessage (Some (mkHeader cmd [] toAddress [] "" id)) body)).

Definition sendChainRequest (cmd : string) (body : bytes) : prog (outcome Message) :=
  p <- connectedParent ;;
  match p with
  | None => fail "parent connection not available"
  | Some parentConn =>
      id <- act ANewId ;;
      respCh <- act (AStore ChainTable id 1) ;;
      err <- act (ASend parentConn (requestMessage cmd [] id body)) ;;
      match err with
      | Some _ => _ <- act (ADelete ChainTable id) ;; fail "failed to send"
      | None =>
          resp <- act (AReceive respCh) ;;
          match resp with
          | Some (ChainAnswer m) => ok m
          | Some (RpcAnswer _) => Crash
          | None => _ <- act (ADelete ChainTable id) ;; fail "timeout waiting"
          end
      end
  end.

Definition sendRpcRequest (cmd : string) (body : bytes) : prog (outcome RpcResponse) :=
  p <- connectedParent ;;
  match p with
  | None => fail "parent connection not available"
  | Some parentConn =>
      reqID <- act ANewId ;;
      respCh <- act (AStore RpcTable reqID 1) ;;
      err <- act (ASend parentConn (requestMessage cmd (HexToAddress (cfgParentAddress config)) reqID body)) ;;
      match err with
      | Some _ => _ <- act (ADelete RpcTable reqID) ;; fail "failed to send"
      | None =>
          resp <- act (AReceive respCh) ;;
          match resp with
          | Some (RpcAnswer r) => ok r
          | Some (ChainAnswer _) => Crash
          | None => _ <- act (ADelete RpcTable reqID) ;; fail "timeout waiting for response"
          end
      end
  end.

(** A TransactionError answer, as several calls report it. *)
Definition txErrorText {A} (m : Message) : prog (outcome A) :=
  txErr <-? Ret (HashError_Unmarshal (Msg_Body m)) ;;
  fail (String.append "transaction error: " (theDescription txErr)).

Definition GetAccountState (address : bytes) : prog (outcome AccountState) :=
  m <-? sendChainRequest Command.GetAccountState address ;;
  if bool_decide (Msg_Command m = Command.TransactionError) then txErrorText m
  else if bool_decide (Msg_Command m = Command.AccountState) then Ret (decodeAccount (Msg_Body m))
  else fail "unexpected command".

(** A big-endian number of at least eight bytes. *)
Definition ChainGetChainId : prog (outcome Z) :=
  m <-? sendChainRequest Command.GetChainId [] ;;
  if (length (Msg_Body m) <? 8)%nat then fail "invalid chain id response" else Ret (Uint64 (Msg_Body m)).

(** A shorter answer is the nonce 0. *)
Definition ChainGetNonce (address : bytes) : prog (outcome Z) :=
  m <-? sendChainRequest Command.GetNonce address ;;
  if (8 <=? length (Msg_Body m))%nat then Ret (Uint64 (Msg_Body m)) else ok 0.

Definition ChainGetBlockNumber : prog (outcome Z) :=
  m <-? sendChainRequest Command.GetBlockNumber [] ;;
  if (length (Msg_Body m) <? 8)%nat then fail "invalid block number response" else Ret (Uint64 (Msg_Body m)).

Definition ChainGetTransactionReceipt (txHash : bytes) : prog (outcome (option RpcReceipt)) :=
  encoded (marshalReceiptRequest txHash) (fun requestBytes =>
    m <-? sendChainRequest Command.GetTransactionReceipt requestBytes ;;
    decoded (unmarshalReceiptResponse (Msg_Body m)) (fun resp =>
      if bool_decide (resp.2 = ""%string) then ok resp.1 else fail (String.append "server error: " resp.2))).

Definition SendRawEthTransaction (rawTx : bytes) : prog (outcome bytes) :=
  if (length rawTx =? 0)%nat then fail "raw Ethereum transaction is empty"
  else
    m <-? sendChainRequest Command.SendRawTransaction rawTx ;;
    if bool_decide (Msg_Command m = Command.TransactionSuccess) then
      if negb (length (Msg_Body m) =? 32)%nat then fail "invalid TransactionSuccess hash length"
      else ok (BytesToHash (Msg_Body m))
    else if bool_decide (Msg_Command m = Command.TransactionError) then txErrorText m
    else fail "unexpected command".

(** Empty arguments are left out of the filter, and so is an empty topic list. *)
Definition logsFilter (blockHash fromBlock toBlock : bytes) (addresses : list bytes) (topics : list (list bytes)) :
  PbLogsRequest :=
  mkLogsRequest blockHash fromBlock toBlock addresses
    ((fun topicList => if (0 <? length topicList)%nat then Some topicList else None) <$> topics).

Definition ChainGetLogs (blockHash fromBlock toBlock : bytes) (addresses : list bytes) (topics : list (list bytes)) :
  prog (outcome (list LogEntry)) :=
  encoded (marshalLogsRequest (logsFilter blockHash fromBlock toBlock addresses topics)) (fun requestBytes =>
    m <-? sendChainRequest Command.GetLogs requestBytes ;;
    decoded (unmarshalLogsResponse (Msg_Body m)) (fun response =>
      if bool_decide (response.2 = ""%string) then ok response.1
      else fail (String.append "server error: " response.2))).

Definition ChainGetRegistrationMessage (addr : bytes) : prog (outcome bytes) :=
  m <-? sendChainRequest Command.GetRegistrationMessage addr ;;
  if negb (length (Msg_Body m) =? 32)%nat then fail "invalid registration message hash length"
  else ok (BytesToHash (Msg_Body m)).

Definition ChainGetRegistrationStatus (addr : bytes) : prog (outcome RegistrationResult) :=
  m <-? sendChainRequest Command.GetRegistrationStatus addr ;;
  decoded (unmarshalRegistration (Msg_Body m)) ok.

(** An acknowledgement ends the call only with a final status; [None] waits on. *)
Definition onAck (addr : bytes) (body : bytes) : option (outcome RegistrationResult) :=
  match unmarshalRegistration body with
  | Some ackRes =>
      if bool_decide (rgStatus ackRes = "FAILED"%string) || bool_decide (rgStatus ackRes = "REJECTED"%string)
      then Some (Err (ErrText "node registration error"))
      else if bool_decide (rgStatus ackRes = "CONFIRMED"%string) || bool_decide (rgStatus ackRes = "PROVISIONAL"%string)
      then Some (Ok ackRes)
      else None
  | None =>
      let ackStr := stringOfBytes body in
      if String.prefix "ERROR" ackStr then Some (Err (ErrText "node rejected registration"))
      else if bool_decide (ackStr = "CONFIRMED"%string) || bool_decide (ackStr = "PROVISIONAL"%string)
      then Some (Ok (mkRegistration ackStr (stringOfBytes (Hex addr)) "" ""))
      else None
  end.

Definition ChainRegisterAccountWait (addr sig : bytes) : prog (outcome RegistrationResult) :=
  p <- connectedParent ;;
  match p with
  | None => fail "parent connection not available"
  | Some parentConn =>
      if negb (length sig =? 65)%nat then fail "invalid signature length"
      else encoded (marshalRegister (addr, sig)) (fun reqBody =>
        id <- act ANewId ;;
        respCh <- act (AStore ChainTable id 2) ;;
        err <- act (ASend parentConn (requestMessage Command.RegisterAccount [] id reqBody)) ;;
        match err with
        | Some _ => _ <- act (ADelete ChainTable id) ;; fail "failed to send"
        | None =>
            Iter (resp <- act (AReceive respCh) ;;
                  match resp with
                  | None => Ret (Some (Err (ErrText "timeout waiting for registration confirmation")))
                  | Some (RpcAnswer _) => Crash
                  | Some (ChainAnswer m) =>
                      if bool_decide (Msg_Command m = Command.RegisterAccountAck) then Ret (onAck addr (Msg_Body m))
                      else if bool_decide (Msg_Command m = Command.RegistrationResult) then
                        Ret (Some (match unmarshalRegistration (Msg_Body m) with
                                   | Some info => Ok info
                                   | None => Err (ErrText "failed to unmarshal RegistrationResult")
                                   end))
                      else Ret None
                  end)
                 (fun r => _ <- act (ADelete ChainTable id) ;; Ret r)
        end)
  end.

(** ** Calls without a signature *)

Definition buildCallTransactionProto (to data : bytes) (from : option bytes) (value : option Z) (chainId : Z) :
  outcome (Transaction * bytes) :=
  bData ← (if (0 <? length data)%nat then CallData_Marshal (NewCallData data) else Ok []);
  let amount := match value with Some v => if 0 <? v then v else 0 | None => 0 end in
  let chainId := if chainId =? 0 then 991 else chainId in
  let tx := NewTransactionWithoutNonce (default zeroAddress from) to amount 50000000 0 0 bData [] zeroHash zeroHash chainId in
  body ← Transaction.Marshal tx;
  Ok (tx, body).

Definition parseReceiptResponse (m : Message) : outcome Receipt :=
  if bool_decide (Msg_Command m = Command.TransactionError) then Err (ErrText "rejected")
  else decodeReceipt (Msg_Body m).

Definition callChainId : Z := if cfgChainId config =? 0 then 991 else cfgChainId config.

Definition ChainCall (to data : bytes) (from : option bytes) : prog (outcome Receipt) :=
  txBody <-? Ret (buildCallTransactionProto to data from None callChainId) ;;
  m <-? sendChainRequest Command.ReadTransaction txBody.2 ;;
  Ret (parseReceiptResponse m).

Definition ChainEstimateGas (to data : bytes) (from : option bytes) (value : option Z) : prog (outcome Z) :=
  txBody <-? Ret (buildCallTransactionProto to data from value callChainId) ;;
  m <-? sendChainRequest Command.EstimateGas txBody.2 ;;
  rcp <-? Ret (parseReceiptResponse m) ;;
  if negb (rStatus rcp =? RECEIPT_STATUS_RETURNED) && negb (rStatus rcp =? RECEIPT_STATUS_HALTED)
  then fail "execution reverted" else ok (rGasUsed rcp).

(** ** RPC *)

(** The error of a response is returned as an error. *)
Definition rpcCall (cmd : string) (body : bytes) : prog (outcome bytes) :=
  resp <-? sendRpcRequest cmd body ;;
  match rpError resp with Some _ => fail "RPC error" | None => ok (rpResult resp) end.

Definition RpcNetVersion : prog (outcome bytes) := ok (bigString (cfgChainId config)).

(** A result that is no JSON string is returned as it is. *)
Definition jsonOrRaw (result : bytes) : bytes :=
  match jsonString result with Some s => bytesOfString s | None => result end.

Definition RpcGetChainId : prog (outcome bytes) :=
  result <-? rpcCall "eth_getChainId" [] ;; ok (jsonOrRaw result).

Definition RpcSendRawTransaction (rawTxHex : bytes) : prog (outcome bytes) :=
  decoded (DecodeString (trim0x rawTxHex)) (fun rawBytes =>
    encoded (marshalSendTx rawBytes) (fun body =>
      result <-? rpcCall "eth_sendRawTransaction" body ;;
      decoded (unmarshalHashParam result) (fun hash => ok (HashHex (BytesToHash hash))))).

(** The receipt's bytes when the answer is a receipt, no bytes when it is a hash. *)
Definition RpcSendRawTransactionWithReceipt (rawTxHex : bytes) : prog (outcome (bytes * bytes)) :=
  decoded (DecodeString (trim0x rawTxHex)) (fun rawBytes =>
    encoded (marshalSendTx rawBytes) (fun body =>
      result <-? rpcCall "eth_sendRawTransaction" body ;;
      match unmarshalReceipt result with
      | Some rcpt =>
          if (0 <? length (rTransactionHash rcpt))%nat then ok (HashHex (BytesToHash (rTransactionHash rcpt)), result)
          else decoded (unmarshalHashParam result) (fun hash => ok (HashHex (BytesToHash hash), []))
      | None => decoded (unmarshalHashParam result) (fun hash => ok (HashHex (BytesToHash hash), []))
      end)).

Definition RpcSendRawTransactionReceipt (rawTxHex : bytes) : prog (outcome (bytes * option Receipt)) :=
  r <-? RpcSendRawTransactionWithReceipt rawTxHex ;;
  ok (r.1, if (0 <? length r.2)%nat then
             match unmarshalReceipt r.2 with
             | Some rcpt => if (0 <? length (rTransactionHash rcpt))%nat then Some rcpt else None
             | None => None
             end
           else None).

Definition RpcHttpSendRawTransaction (rawTxHex : string) : prog (outcome bytes) :=
  result <-? rpcCall "http_sendRawTransaction" (jsonStrings [rawTxHex]) ;; ok (jsonOrRaw result).

Definition RpcEthCall (to data : bytes) : prog (outcome bytes) :=
  encoded (marshalEthCall (to, data)) (fun body => rpcCall "eth_call" body).

(** Bytes that are no receipt are the returned value, decoded when they are a
    JSON string of hexadecimal digits. *)
Definition callReceipt (rawBytes : bytes) : Receipt :=
  match unmarshalReceipt rawBytes with
  | Some rcpt => rcpt
  | None =>
      let resultBytes :=
        match rawBytes with
        | 34 :: _ => default rawBytes (s ← jsonString rawBytes; DecodeString (trim0x (bytesOfString s)))
        | _ => rawBytes
        end in
      mkReceipt [] [] [] [] RECEIPT_STATUS_RETURNED resultBytes 0 0 0 [] 0 0 []
  end.

Definition RpcEthCallReceipt (to data : bytes) : prog (outcome Receipt) :=
  rawBytes <-? RpcEthCall to data ;; ok (callReceipt rawBytes).

Definition RpcGetPendingNonce (address : bytes) : prog (outcome Z) := ChainGetNonce address.

Definition RpcGetTransactionReceipt (txHash : bytes) : prog (outcome (option RpcReceipt)) :=
  encoded (marshalHashParam (HexToHash txHash)) (fun body =>
    result <-? rpcCall "eth_getTransactionReceipt" body ;;
    if (length result =? 0)%nat then ok None
    else decoded (unmarshalRpcReceipt result) (fun receipt => ok (Some receipt))).

Definition RpcSubscribe (contractAddrs topics : list bytes) (callback : nat) : prog (outcome string) :=
  encoded (marshalSubscribe (HexToAddress <$> contractAddrs, HexToHash <$> topics)) (fun body =>
    result <-? rpcCall "eth_subscribe" body ;;
    let subID := stringOfBytes result in
    _ <- act (ASetHandler (RegisterEventCallback subID callback)) ;;
    ok subID).

Definition RpcUnsubscribe (subID : string) : prog (outcome bool) :=
  encoded (marshalUnsubscribe subID) (fun body =>
    result <-? rpcCall "eth_unsubscribe" body ;;
    _ <- act (ASetHandler (RemoveEventCallback subID)) ;;
    ok (bool_decide (head result = Some 1))).

Definition RpcCustomCall (method : string) (params : bytes) : prog (outcome bytes) := rpcCall method params.
End Requests.
