(* ===== verification/ClientTransactions.v ===== *)
(** * Transactions sent by the TCP client

    Models [client-tcp/controllers/transaction_controller.go], the calls of
    [client-tcp/client.go] that build, sign and send transactions and wait for
    their receipts, [SendTransactionWithDeviceKeySync] of [client_chain.go], and
    the subscriptions.  The parameter [ready] of a section says that the client's
    context and connection manager are not nil. *)

From stdpp Require Import pretty.
From S2P Require Import Prelude Binary TrieEncoding TrieNode AccountState Receipts SmartContract Transaction EthTransaction Message Connections ReceiptRouter TransactionError BlsKeys ClientProg ClientHandler ClientRequests.

Local Open Scope Z_scope.
Local Open Scope client_scope.

(** go-ethereum's [crypto.HexToECDSA], [abi.Pack] of the call of
    [setBlsPublicKey], [types.SignTx], [types.LatestSignerForChainID], and
    [MarshalBinary] and [Hash] of a transaction. *)
Class EthWallet `{EthTypes} := {
  HexToECDSA : bytes -> option bytes;
  packSetBlsPublicKey : bytes -> option bytes;
  SignTx : EthTx -> Signer -> bytes -> option EthTx;
  LatestSignerForChainID : Z -> Signer;
  MarshalBinary : EthTx -> option bytes;
  ethTxHash : EthTx -> bytes
}.

(** The answer to a send: the value if there is no error. *)
Definition unlessError {A} (a : A) (err : option GoError) : outcome A :=
  match err with Some e => Err e | None => Ok a end.

(** A method of a transaction that cannot fail. *)
Definition runTx {A} (m : stm Transaction A) (t : Transaction) : Transaction := (m t).2.

Definition txHash `{EthLib} `{TxProto} (t : Transaction) : bytes := match (Transaction.Hash t).1 with Ok h => h | _ => [] end.

(** ** [transaction_controller.go] *)

Section Controller.
Context `{EthLib} `{TxProto} `{Blst} `{ClientCodec}.
Context (keyPair : KeyPair).

Definition signed (t : Transaction) : Transaction := runTx (SetSign (privateKey keyPair)) t.

(** Marshal, and send to the parent connection. *)
Definition sendTx (command : string) (t : Transaction) : prog (outcome Transaction) :=
  bTransaction <-? Ret (Transaction.Marshal t) ;;
  parentConnection <- act AParent ;;
  err <- act (ASendBytes parentConnection command bTransaction) ;;
  Ret (unlessError t err).

Definition sendDeviceTx (t : Transaction) (deviceKey : bytes) : prog (outcome Transaction) :=
  encoded (marshalDeviceTx (Some (proto t), deviceKey)) (fun b =>
    parentConnection <- act AParent ;;
    err <- act (ASendBytes parentConnection Command.SendTransactionWithDeviceKey b) ;;
    Ret (unlessError t err)).

Definition TC_SendTransaction (fromAddress toAddress : bytes) (amount maxGas maxGasFee maxTimeUse : Z) (data : bytes)
    (relatedAddress : list bytes) (lastDeviceKey newDeviceKey : bytes) (nonce chainId : Z) : prog (outcome Transaction) :=
  sendTx Command.SendTransaction (signed (NewTransaction fromAddress toAddress amount maxGas maxGasFee maxTimeUse data
    relatedAddress lastDeviceKey newDeviceKey nonce chainId)).

Definition TC_ReadTransaction (fromAddress toAddress : bytes) (amount maxGas maxGasFee maxTimeUse : Z) (data : bytes)
    (relatedAddress : list bytes) (lastDeviceKey newDeviceKey : bytes) (nonce chainId : Z) : prog (outcome Transaction) :=
  sendTx Command.ReadTransaction (signed (NewTransaction fromAddress toAddress amount maxGas maxGasFee maxTimeUse data
    relatedAddress lastDeviceKey newDeviceKey nonce chainId)).

Definition TC_ReadTransactionWithoutNonce (fromAddress toAddress : bytes) (amount maxGas maxGasFee maxTimeUse : Z) (data : bytes)
    (relatedAddress : list bytes) (lastDeviceKey newDeviceKey : bytes) (chainId : Z) : prog (outcome Transaction) :=
  sendTx Command.ReadTransaction (signed (NewTransactionWithoutNonce fromAddress toAddress amount maxGas maxGasFee maxTimeUse data
    relatedAddress lastDeviceKey newDeviceKey chainId)).

Definition TC_EstimateGas (fromAddress toAddress : bytes) (amount maxGas maxGasFee maxTimeUse : Z) (data : bytes)
    (relatedAddress : list bytes) (lastDeviceKey newDeviceKey : bytes) (chainId : Z) : prog (outcome Transaction) :=
  sendTx Command.EstimateGas (signed (NewTransactionWithoutNonce fromAddress toAddress amount maxGas maxGasFee maxTimeUse data
    relatedAddress lastDeviceKey newDeviceKey chainId)).

Definition TC_SendTransactions (transactions : list Transaction) : prog (outcome unit) :=
  bTransaction <-? Ret (MarshalTransactions transactions) ;;
  parentConnection <- act AParent ;;
  err <- act (ASendBytes parentConnection Command.SendTransactions bTransaction) ;;
  Ret (unlessError tt err).

Definition TC_SendTransactionWithDeviceKey (fromAddress toAddress : bytes) (amount maxGas maxGasFee maxTimeUse : Z) (data : bytes)
    (relatedAddress : list bytes) (lastDeviceKey newDeviceKey : bytes) (nonce : Z) (deviceKey : bytes) (chainId : Z) :
  prog (outcome Transaction) :=
  sendDeviceTx (signed (NewTransaction fromAddress toAddress amount maxGas maxGasFee maxTimeUse data relatedAddress
    lastDeviceKey newDeviceKey nonce chainId)) deviceKey.

Definition SendNewTransaction (t : Transaction) : prog (outcome Transaction) := sendTx Command.SendTransaction (signed t).

Definition SendNewTransactionWithDeviceKey (t : Transaction) (deviceKey : bytes) : prog (outcome Transaction) :=
  sendDeviceTx (signed t) deviceKey.

(** Files are named by the hash. *)
Definition TC_SaveTransactionWithDeviceKeyToFile (fromAddress toAddress : bytes) (amount maxGas maxGasFee maxTimeUse : Z)
    (data : bytes) (relatedAddress : list bytes) (lastDeviceKey newDeviceKey : bytes) (nonce : Z) (deviceKey : bytes) (chainId : Z) :
  prog (outcome unit) :=
  let t := signed (NewTransaction fromAddress toAddress amount maxGas maxGasFee maxTimeUse data relatedAddress
    lastDeviceKey newDeviceKey nonce chainId) in
  encoded (marshalDeviceTx (Some (proto t), deviceKey)) (fun b =>
    err <- act (AWriteFile (HashHex (txHash t)) b) ;; Ret (unlessError tt err)).

(** A missing transaction of the message is [None]. *)
Definition LoadTransactionWithDeviceKeyFromFile (filePath : bytes) : prog (outcome (option PbTransaction * bytes)) :=
  b <- act (AReadFile filePath) ;;
  match b with
  | None => fail "failed to read transaction from file"
  | Some b => decoded (unmarshalDeviceTx b) ok
  end.

Definition LoadedTransactionWithDeviceKeyFromFile (filePath : bytes) : prog (outcome bytes) :=
  r <-? LoadTransactionWithDeviceKeyFromFile filePath ;;
  encoded (marshalDeviceTx r) ok.

(** Both directory calls open a second connection to the parent's address, which
    ends the program when it fails, and then send on the parent connection. *)
Definition openClientConn : prog (Conn * Conn) :=
  parentConnection <- act AParent ;;
  match parentConnection with
  | None => Crash
  | Some p =>
      clientConn <- act (ANewConnection zeroAddress "CLIENT_CONN" "") ;;
      err <- act (AConnect clientConn) ;;
      match err with Some _ => Crash | None => Ret (p, clientConn) end
  end.

(** A file that cannot be loaded is logged, and sent as no bytes. *)
Fixpoint sendFiles (parentConnection : option Conn) (names : list bytes) : prog unit :=
  match names with
  | [] => Ret tt
  | name :: names =>
      byteT <- LoadedTransactionWithDeviceKeyFromFile name ;;
      _ <- act (ASendBytes parentConnection Command.SendTransactionWithDeviceKey (match byteT with Ok b => b | _ => [] end)) ;;
      sendFiles parentConnection names
  end.

(** The names in the directory; the second connection is closed at the end. *)
Definition inDirectory (body : Conn -> list bytes -> prog (outcome unit)) : prog (outcome unit) :=
  conns <- openClientConn ;;
  names <- act AListFiles ;;
  r <- match names with None => fail "failed to read directory" | Some names => body conns.1 names end ;;
  _ <- act (ADisconnect conns.2) ;;
  Ret r.

Definition SendAllTransactionsWidthDeviceKeyInDirectory : prog (outcome unit) :=
  inDirectory (fun parentConnection names => _ <- sendFiles (Some parentConnection) names ;; ok tt).

Fixpoint loadFiles (names : list bytes) : prog (list Transaction) :=
  match names with
  | [] => Ret []
  | name :: names =>
      r <- LoadTransactionWithDeviceKeyFromFile name ;;
      txs <- loadFiles names ;;
      Ret (match r with
           | Ok (p, _) => TransactionFromProto (default zeroPbTransaction p) :: txs
           | _ => txs
           end)
  end.

(** The error of the send is logged. *)
Definition SendAllTransactionsInDirectory : prog (outcome unit) :=
  inDirectory (fun parentConnection names =>
    txs <- loadFiles names ;;
    bTransaction <-? Ret (MarshalTransactions txs) ;;
    _ <- act (ASendBytes (Some parentConnection) Command.SendTransactions bTransaction) ;;
    ok tt).
End Controller.

(** ** Waiting for a receipt *)

Section Wait.
Context `{EthLib}.

(** The loop of a timed wait: the errors of other transactions are taken from the
    channel and dropped. *)
Definition waitLoop (responseCh : nat) (h : bytes) : prog (outcome Receipt) :=
  Iter (w <- act (AWait responseCh true) ;;
        match w with
        | GotReceipt receipt => Ret (Some (Ok receipt))
        | GotError txErr =>
            if negb (bool_decide (BytesToHash (theHash txErr) = h)) then Ret None
            else _ <- act (ACancel responseCh h) ;; Ret (Some (Err (ErrText "transaction error")))
        | GotTimeout =>
            _ <- act (ACancel responseCh h) ;;
            r <- act (ATryReceipt responseCh) ;;
            Ret (Some (match r with Some receipt => Ok receipt | None => Err (ErrText "timeout waiting for receipt") end))
        end) Ret.

Definition waitReceipt (h : bytes) (matchType : receiptMatchType) (timed : bool) : prog (outcome Receipt) :=
  responseCh <- act (ARegister matchType h) ;;
  if negb timed then
    w <- act (AWait responseCh false) ;;
    match w with GotReceipt receipt => ok receipt | _ => Crash end
  else waitLoop responseCh h.

Definition FindReceiptByHash (h : bytes) : prog (outcome Receipt) := waitReceipt h matchByTxHash true.
Definition FindReceiptByHashWithType (h : bytes) (matchType : receiptMatchType) : prog (outcome Receipt) :=
  waitReceipt h matchType true.
End Wait.

(** ** [client.go] *)

Section Client.
Context `{EthLib} `{StateProto} `{TxProto} `{Blst} `{Secp} `{ErrorProto} `{ClientCodec}.
Context (config : ClientConfig) (keyPair : KeyPair) (ready : bool).

(** The calls that first look for the client's context. *)
Definition whenReady {A} (p : prog (outcome A)) : prog (outcome A) :=
  if ready then p else fail "client not ready: clientContext or ConnectionsManager is nil".

(** Whatever account comes first. *)
Definition AccountState (address : bytes) : prog (outcome AccountState.AccountState) :=
  parentConn <- act AParent ;;
  _ <- act (ASendBytes parentConn Command.GetAccountState address) ;;
  a <- act ATakeAccount ;;
  ok a.

Definition SendSecpProtoTransactionWithNonce (privKey toAddress : bytes) (amount maxGas maxGasPrice : Z) (data : bytes)
    (nonce : Z) : prog (outcome (Receipt * Transaction)) :=
  whenReady (
    parentConn <-? parentUp config keyPair ;;
    let tx := NewTransaction (PubkeyToAddress (pubkeyOf privKey)) toAddress amount maxGas maxGasPrice 0 data [] zeroHash zeroHash
                nonce (cfgChainId config) in
    let tx := SetType 255 tx in
    let tx := if 0 <? maxGasPrice then SetGasFeeCap (Some maxGasPrice) tx else tx in
    match SignSecpProto privKey tx with
    | (Err _, _) => fail "failed to sign secp proto tx"
    | (Ok _, tx) =>
        bTransaction <-? Ret (Transaction.Marshal tx) ;;
        err <- act (ASendBytes parentConn Command.SendTransaction bTransaction) ;;
        match err with
        | Some _ => fail "failed to send bytes via TCP"
        | None => receipt <-? waitReceipt (txHash tx) matchByTxHash true ;; ok (receipt, tx)
        end
    | (_, _) => Crash
    end).

Definition SendSecpProtoTransaction (privKey toAddress : bytes) (amount maxGas maxGasPrice : Z) (data : bytes) :
  prog (outcome (Receipt * Transaction)) :=
  a <-? AccountState (PubkeyToAddress (pubkeyOf privKey)) ;;
  SendSecpProtoTransactionWithNonce privKey toAddress amount maxGas maxGasPrice data (AccountState.nonce a).

Definition SendTransaction (fromAddress toAddress : bytes) (amount : Z) (data : bytes) (relatedAddress : list bytes)
    (maxGas maxGasPrice maxTimeUse nonce : Z) : prog (outcome Receipt) :=
  whenReady (
    _ <-? ensureParent config keyPair ;;
    tx <-? TC_SendTransaction keyPair fromAddress toAddress amount maxGas maxGasPrice maxTimeUse data relatedAddress
             zeroHash zeroHash nonce (cfgChainId config) ;;
    FindReceiptByHash (txHash tx)).

(** The connection read before the reconnection is the one asked afterwards. *)
Definition ReadTransaction (fromAddress toAddress : bytes) (amount : Z) (data : bytes) (relatedAddress : list bytes)
    (maxGas maxGasPrice maxTimeUse : Z) : prog (outcome Receipt) :=
  whenReady (
    parentConn <- act AParent ;;
    _ <-? ensureUp config keyPair parentConn ;;
    _ <- act (ASendBytes parentConn Command.GetAccountState fromAddress) ;;
    _ <- act (ASendBytes parentConn Command.GetNonce fromAddress) ;;
    _ <- act ATakeAccount ;;
    m <-? sendChainRequest Command.GetNonce fromAddress ;;
    nonce <-? Ret (if (8 <=? length (Msg_Body m))%nat then Uint64 (Msg_Body m) else Ok 0) ;;
    tx <-? TC_ReadTransaction keyPair fromAddress toAddress amount maxGas maxGasPrice maxTimeUse data relatedAddress
             zeroHash zeroHash nonce (cfgChainId config) ;;
    FindReceiptByHash (txHash tx)).

Definition ReadTransactionWithoutNonce (fromAddress toAddress : bytes) (amount : Z) (data : bytes) (relatedAddress : list bytes)
    (maxGas maxGasPrice maxTimeUse : Z) : prog (outcome Receipt) :=
  whenReady (
    parentConn <- act AParent ;;
    _ <-? ensureUp config keyPair parentConn ;;
    _ <- act (ASendBytes parentConn Command.GetAccountState fromAddress) ;;
    _ <- act ATakeAccount ;;
    tx <-? TC_ReadTransactionWithoutNonce keyPair fromAddress toAddress amount maxGas maxGasPrice maxTimeUse data relatedAddress
             zeroHash zeroHash (cfgChainId config) ;;
    FindReceiptByHashWithType (txHash tx) matchByReceiptHash).

Definition EstimateGas (fromAddress toAddress : bytes) (amount : Z) (data : bytes) (relatedAddress : list bytes)
    (maxGas maxGasPrice maxTimeUse : Z) : prog (outcome Receipt) :=
  whenReady (
    _ <-? ensureParent config keyPair ;;
    tx <-? TC_EstimateGas keyPair fromAddress toAddress amount maxGas maxGasPrice maxTimeUse data relatedAddress
             zeroHash zeroHash (cfgChainId config) ;;
    FindReceiptByHash (txHash tx)).

(** *** Device keys *)

(** Take accounts until the one asked for comes; the others are put back. *)
Definition accountFor (fromAddress : bytes) : prog AccountState.AccountState :=
  Iter (a <- act ATakeAccount ;;
        if negb (bool_decide (address a = fromAddress)) then _ <- act (APutAccount a) ;; Ret None
        else Ret (Some a)) Ret.

(** The new device key, its hash, and the last one. *)
Definition deviceKeysOf (k : LastDeviceKey) (now : Z) : bytes * bytes * bytes :=
  let raw := Keccak256 (EncodeToString (dkTransactionHash k) ++ [45] ++ bigString (now / 1000000000)) in
  (HexToHash (EncodeToString (dkLastDeviceKeyFromServer k)), raw, Keccak256 raw).

(** The account and the device keys (last, raw new, new) of a sender. *)
Definition deviceKeys (fromAddress : bytes) : prog (outcome (AccountState.AccountState * (bytes * bytes * bytes))) :=
  parentConn <-? parentUp config keyPair ;;
  _ <- act (ASendBytes parentConn Command.GetAccountState fromAddress) ;;
  a <- accountFor fromAddress ;;
  err <- act (ASendBytes parentConn Command.GetDeviceKey (lastHash a)) ;;
  match err with
  | Some e => Ret (Err e)
  | None =>
      k <- act ATakeDeviceKey ;;
      now <- act ANow ;;
      ok (a, deviceKeysOf k now)
  end.

Definition SendTransactionWithDeviceKey (fromAddress toAddress : bytes) (amount : Z) (data : bytes) (relatedAddress : list bytes)
    (maxGas maxGasPrice maxTimeUse : Z) : prog (outcome Receipt) :=
  r <-? deviceKeys fromAddress ;;
  let '(a, (lastDeviceKey, rawNewDeviceKey, newDeviceKey)) := r in
  tx <-? TC_SendTransactionWithDeviceKey keyPair fromAddress toAddress amount maxGas maxGasPrice maxTimeUse data relatedAddress
           lastDeviceKey newDeviceKey (AccountState.nonce a) rawNewDeviceKey (cfgChainId config) ;;
  waitReceipt (txHash tx) matchByTxHash true.

Definition SendTransactionWithDeviceKeySync (fromAddress toAddress : bytes) (amount maxGas maxGasPrice maxTimeUse : Z) (data : bytes)
    (relatedAddress : list bytes) (lastDeviceKey newDeviceKey : bytes) (nonce : Z) (deviceKey : bytes) (chainId : Z) :
  prog (outcome bytes) :=
  let t := signed keyPair (NewTransaction fromAddress toAddress amount maxGas maxGasPrice maxTimeUse data relatedAddress
             lastDeviceKey newDeviceKey nonce chainId) in
  encoded (marshalDeviceTx (Some (proto t), deviceKey)) (fun b =>
    m <-? sendChainRequest Command.SendTransactionWithDeviceKey b ;;
    if bool_decide (Msg_Command m = Command.TransactionError) then txErrorText m
    else if bool_decide (Msg_Command m = Command.TransactionSuccess) && (0 <? length (Msg_Body m))%nat
    then ok (BytesToHash (Msg_Body m))
    else fail "unexpected command").

Definition SendTransactionWithDeviceKeyAsync (fromAddress toAddress : bytes) (amount : Z) (data : bytes) (relatedAddress : list bytes)
    (maxGas maxGasPrice maxTimeUse : Z) : prog (outcome bytes) :=
  r <-? deviceKeys fromAddress ;;
  let '(a, (lastDeviceKey, rawNewDeviceKey, newDeviceKey)) := r in
  SendTransactionWithDeviceKeySync fromAddress toAddress amount maxGas maxGasPrice maxTimeUse data relatedAddress
    lastDeviceKey newDeviceKey (AccountState.nonce a) rawNewDeviceKey (cfgChainId config).

(** The sender and the recipient are added to the related addresses. *)
Definition SaveTransactionWithDeviceKeyToFile (fromAddress toAddress : bytes) (amount : Z) (data : bytes)
    (relatedAddress : list bytes) (maxGas maxGasPrice maxTimeUse : Z) : prog (outcome unit) :=
  r <-? deviceKeys fromAddress ;;
  let '(a, (lastDeviceKey, rawNewDeviceKey, newDeviceKey)) := r in
  TC_SaveTransactionWithDeviceKeyToFile keyPair fromAddress toAddress amount maxGas maxGasPrice maxTimeUse data
    (relatedAddress ++ [fromAddress; toAddress]) lastDeviceKey newDeviceKey (AccountState.nonce a) rawNewDeviceKey (cfgChainId config).

(** Without a timeout, and on the connection read before the reconnection. *)
Definition SendTransactionWithFullInfo (fromAddress toAddress : bytes) (amount maxGas maxGasFee maxTimeUse : Z) (data : bytes)
    (relatedAddress : list bytes) (lastDeviceKey newDeviceKey : bytes) : prog (outcome Receipt) :=
  parentConn <- act AParent ;;
  _ <-? ensureUp config keyPair parentConn ;;
  _ <- act (ASendBytes parentConn Command.GetAccountState fromAddress) ;;
  a <- act ATakeAccount ;;
  tx <-? TC_SendTransaction keyPair fromAddress toAddress amount maxGas maxGasFee maxTimeUse data relatedAddress
           lastDeviceKey newDeviceKey (AccountState.nonce a) (cfgChainId config) ;;
  waitReceipt (txHash tx) matchByTxHash false.

(** *** Registration of a BLS key *)

Context `{EthTypes} `{!EthWallet}.

Definition setBlsContract : bytes := replicate 16 0 ++ [0xD8; 0x44; 0xbb; 0x55].

Definition CreateSignedSetBLSPublicKeyTx (privateKeyHex blsPubKeyHex : bytes) (chainID : Z) : outcome EthTx :=
  match HexToECDSA (trim0x privateKeyHex) with
  | None => Err (ErrText "private key")
  | Some k =>
      match DecodeString (trim0x blsPubKeyHex) with
      | None => Err (ErrText "BLS public key")
      | Some blsPubKeyBytes =>
          match packSetBlsPublicKey blsPubKeyBytes with
          | None => Err (ErrText "ABI")
          | Some data =>
              let tx := NewTx (LegacyTx 0 100000 1000000000 (Some setBlsContract) 0 data None) in
              let signer := if 0 <? chainID then EIP155Signer chainID else HomesteadSigner in
              match SignTx tx signer k with Some signedTx => Ok signedTx | None => Err (ErrText "sign") end
          end
      end
  end.

Definition buildBlsTx (privateKeyHex publickey chainId : bytes) : prog (outcome Transaction) :=
  match bigSetString chainId with
  | None => fail "chain id"
  | Some bigIntChainId =>
      ethTx <-? Ret (CreateSignedSetBLSPublicKeyTx privateKeyHex publickey bigIntChainId) ;;
      _ <-? ensureParent config keyPair ;;
      match Sender (EIP155Signer bigIntChainId) ethTx with
      | None => fail "transaction not found Sender"
      | Some _ => t <-? Ret (NewTransactionFromEth ethTx) ;; ok (signed keyPair t)
      end
  end.

Definition RegisterBlsForAccount (privateKeyHex publickey chainId : bytes) : prog (outcome Receipt) :=
  t <-? buildBlsTx privateKeyHex publickey chainId ;;
  tx <-? SendNewTransaction keyPair t ;;
  waitReceipt (txHash tx) matchByTxHash true.

Definition RegisterBlsForAccountAsync (privateKeyHex publickey chainId : bytes) : prog (outcome bytes) :=
  t <-? buildBlsTx privateKeyHex publickey chainId ;;
  tx <-? SendNewTransaction keyPair t ;;
  ok (txHash tx).

Definition AddAccountForClient (privateKeyHex chainId : bytes) : prog (outcome Receipt) :=
  RegisterBlsForAccount privateKeyHex (EncodeToString (publicKey keyPair)) chainId.

(** *** Subscriptions *)

Fixpoint sendSubscriptions (c : option Conn) (l : list bytes) : prog (outcome unit) :=
  match l with
  | [] => ok tt
  | a :: l =>
      err <- act (ASendBytes c Command.SubscribeToAddress a) ;;
      match err with Some _ => fail "unable to send subscribe" | None => sendSubscriptions c l end
  end.

Definition NewEventLogsChan : prog nat :=
  ch <- act AMakeChan ;; _ <- act (ASetHandler (SetEventLogsChan ch)) ;; Ret ch.

Definition Subcribes (storageAddress : bytes) (listSCAddress : list bytes) : prog (outcome nat) :=
  storageConnection <- act (ANewConnection storageAddress "storage" "") ;;
  err <- act (AConnect storageConnection) ;;
  match err with
  | Some _ => fail "unable to connect to storage"
  | None =>
      _ <- act (AServe storageConnection) ;;
      _ <-? sendSubscriptions (Some storageConnection) listSCAddress ;;
      ch <- NewEventLogsChan ;; ok ch
  end.

Definition Subcribe (storageAddress smartContractAddress : bytes) : prog (outcome nat) :=
  Subcribes storageAddress [smartContractAddress].

(** The parent connection is looked up for each address. *)
Fixpoint subscribeParent (l : list bytes) : prog (outcome unit) :=
  match l with
  | [] => ok tt
  | a :: l =>
      c <- act AParent ;;
      err <- act (ASendBytes c Command.SubscribeToAddress a) ;;
      match err with Some _ => fail "unable to send subscribe" | None => subscribeParent l end
  end.

Definition ParentSubcribes (listSCAddress : list bytes) : prog (outcome nat) :=
  _ <- act (ASubscribe listSCAddress) ;;
  _ <-? subscribeParent listSCAddress ;;
  ch <- NewEventLogsChan ;; ok ch.

Definition reSubscribeToAddresses : prog (outcome unit) :=
  p <- connectedParent ;;
  match p with
  | None => fail "parent connection not available"
  | Some c => l <- act ASubscribed ;; sendSubscriptions (Some c) l
  end.

(** A goroutine that tries once a second until it is connected again or the
    server stops. *)
Definition handleParentDisconnectWithResubscribe : prog unit :=
  Go (Iter (stop <- act ADone ;;
            if stop : bool then Ret (Some tt)
            else
              r <- ReconnectToParent config keyPair ;;
              match r with
              | Ok _ =>
                  l <- act ASubscribed ;;
                  (if (0 <? length l)%nat then _ <- reSubscribeToAddresses ;; Ret (Some tt) else Ret (Some tt))
              | _ => Ret None
              end) Ret)
     (Ret tt).

Definition SendQueryLogs (bQuery : bytes) : prog unit :=
  parentConn <- act AParent ;; _ <- act (ASendBytes parentConn Command.QueryLogs bQuery) ;; Ret tt.

(** Five seconds apart, until the parent is connected; then the panic. *)
Definition RetryConnectToStorage : prog unit :=
  Iter (r <- ensureParent config keyPair ;; Ret (match r with Ok _ => Some tt | _ => None end)) (fun _ => Crash).

(** The stop channel is closed if there is one; the parent connection is asked to
    be nil, which the manager ignores; the server is stopped. *)
Definition Close : prog unit :=
  ch <- act AStopChan ;;
  _ <- match ch with
       | None => Ret tt
       | Some ch => opened <- act (AClose ch) ;; if opened : bool then act (ASetStop None) else Crash
       end ;;
  _ <- act ANoParent ;;
  act AStopServer.
End Client.
