(* ===== verification/TxHelper.v ===== *)
(** * Sending transactions with defaults and cached nonces

    Models [client-tcp/utils/tx_helper/tx_helper.go], with the options of
    [models/main.go] and the defaults of [common/gas.go]: calls on top of the
    client that fill in missing options, check the arguments, send, and look at
    the status of the receipt.  The package keeps the next nonce of each address
    it has sent from, in a map that all calls share.

    [present] says that client and configuration are not nil.  The client never
    returns a nil receipt without an error. *)

From S2P Require Import Prelude Binary TrieEncoding TrieNode AccountState Receipts SmartContract Transaction EthTransaction Message Connections ReceiptRouter TransactionError BlsKeys ClientProg ClientHandler ClientRequests ClientTransactions.

Local Open Scope Z_scope.
Local Open Scope client_scope.

Definition DefaultMaxGas : Z := 10000000.
Definition DefaultMaxGasPrice : Z := 1000000.
Definition DefaultMaxExecution : Z := 0.

Record TxOptions := mkTxOptions { oAmount : option Z; oRelated : list bytes; oMaxGas : Z; oMaxGasPrice : Z; oMaxTimeUse : Z }.

Definition NormalizeTxOptions (opts : option TxOptions) : TxOptions :=
  match opts with None => mkTxOptions None [] 0 0 0 | Some o => o end.

Definition ChooseOrDefault (value fallback : Z) : Z := if value =? 0 then fallback else value.

(** The arguments that the calls make of their options. *)
Definition optAmount (opts : option TxOptions) : Z := default 0 (oAmount (NormalizeTxOptions opts)).
Definition optGas (opts : option TxOptions) : Z := ChooseOrDefault (oMaxGas (NormalizeTxOptions opts)) DefaultMaxGas.
Definition optGasPrice (opts : option TxOptions) : Z := ChooseOrDefault (oMaxGasPrice (NormalizeTxOptions opts)) DefaultMaxGasPrice.
Definition optTime (opts : option TxOptions) : Z := ChooseOrDefault (oMaxTimeUse (NormalizeTxOptions opts)) DefaultMaxExecution.

Section Helper.
Context `{EthLib} `{StateProto} `{TxProto} `{Blst} `{BlstKeys} `{Secp} `{ErrorProto} `{ClientCodec} `{EthTypes} `{!EthWallet}.
Context (config : ClientConfig) (keyPair : KeyPair) (ready : bool).

Definition configAddress : bytes := (GenerateKeyPairFromSecretKey (cfgPrivateKey config)).2.

Definition optRelated (opts : option TxOptions) : list bytes := oRelated (NormalizeTxOptions opts) ++ [configAddress].

(** The checks that the calls begin with. *)
Definition withArguments {A} (present needContract : bool) (contract from : bytes) (p : prog (outcome A)) : prog (outcome A) :=
  if negb present then fail "client and config are required"
  else if bool_decide (contract = zeroAddress) && needContract then fail "contract address is required"
  else if bool_decide (from = zeroAddress) then fail "from address is required"
  else p.

Definition notDeploy (action : string) : bool := negb (bool_decide (action = "deploy"%string)).

Definition payloadOf (input : bytes) : outcome bytes := CallData_Marshal (NewCallData input).

Definition statusOk (r : Receipt) : bool := (rStatus r =? RECEIPT_STATUS_RETURNED) || (rStatus r =? RECEIPT_STATUS_HALTED).

(** The end of a call: a receipt with another status is an error. *)
Definition checkStatus (p : prog (outcome Receipt)) : prog (outcome Receipt) :=
  receipt <-? p ;;
  if statusOk receipt then ok receipt else fail "transaction failed with status".

Definition Helper_SendReadTransactionWithoutNonce (present : bool) (contract from input : bytes) (opts : option TxOptions) : prog (outcome Receipt) :=
  withArguments present true contract from (
    payload <-? Ret (payloadOf input) ;;
    checkStatus (ReadTransactionWithoutNonce config keyPair ready from contract (optAmount opts) payload (optRelated opts)
      (optGas opts) (optGasPrice opts) (optTime opts))).

Definition Helper_SendEstimateGas (present : bool) (contract from input : bytes) (opts : option TxOptions) : prog (outcome Receipt) :=
  withArguments present true contract from (
    payload <-? Ret (payloadOf input) ;;
    checkStatus (EstimateGas config keyPair ready from contract (optAmount opts) payload (optRelated opts)
      (optGas opts) (optGasPrice opts) (optTime opts))).

Definition Helper_SendReadTransaction (present : bool) (contract from input : bytes) (opts : option TxOptions) : prog (outcome Receipt) :=
  withArguments present true contract from (
    payload <-? Ret (payloadOf input) ;;
    checkStatus (ReadTransaction config keyPair ready from contract (optAmount opts) payload (optRelated opts)
      (optGas opts) (optGasPrice opts) (optTime opts))).

(** *** Nonces *)

(** The cached nonce when it is ahead of the node's. *)
Definition chooseNonce (cached : option Z) (usedNonce : Z) : Z :=
  let cachedNonce := default 0 cached in
  if negb (cachedNonce =? 0) && (usedNonce <? cachedNonce) then cachedNonce else usedNonce.

(** Chain id 0 of the configuration stands for 991. *)
Definition secpChainID : Z := if cfgChainId config =? 0 then 991 else cfgChainId config.

Definition secpTx (contract input : bytes) (opts : option TxOptions) (nonce : Z) : EthTx :=
  NewTx (LegacyTx nonce (optGasPrice opts) (optGas opts) (if bool_decide (contract = zeroAddress) then None else Some contract)
    (optAmount opts) input None).

(** A receipt with another status is returned together with the error. *)
Definition SendSecpTransaction (action : string) (present : bool) (privKey : option bytes) (contract from input : bytes)
    (opts : option TxOptions) : prog (outcome (Receipt * option GoError)) :=
  if negb present then fail "client and config are required"
  else
    match privKey with
    | None => fail "ecdsa private key is required"
    | Some privKey =>
        if bool_decide (contract = zeroAddress) && notDeploy action then fail "contract address is required"
        else
          let from := if bool_decide (from = zeroAddress) then PubkeyToAddress (pubkeyOf privKey) else from in
          cached <- act (ACachedNonce from) ;;
          a <-? ClientTransactions.AccountState from ;;
          let usedNonce := chooseNonce cached (AccountState.nonce a) in
          match SignTx (secpTx contract input opts usedNonce) (LatestSignerForChainID secpChainID) privKey with
          | None => fail "sign Ethereum transaction"
          | Some signed =>
              match MarshalBinary signed with
              | None => fail "marshal EIP-2718 transaction"
              | Some rawTx =>
                  acceptedHash <-? SendRawEthTransaction rawTx ;;
                  if negb (bool_decide (acceptedHash = ethTxHash signed)) then fail "node acknowledged unexpected transaction hash"
                  else
                    _ <- act (ACacheNonce from (wrap64 (usedNonce + 1))) ;;
                    receipt <-? FindReceiptByHash acceptedHash ;;
                    ok (receipt, if statusOk receipt then None else Some (ErrText "transaction failed with status"))
              end
          end
    end.

(** With a key in the configuration the transaction is sent as an Ethereum
    transaction, otherwise with a device key. *)
Definition Helper_SendTransaction (action : string) (present : bool) (contract from input : bytes) (opts : option TxOptions) :
  prog (outcome (Receipt * option GoError)) :=
  if negb present then fail "client and config are required"
  else
    let keyHex := if bool_decide (cfgEthPrivateKey config = []) then cfgPrivateKey config else cfgEthPrivateKey config in
    match (if bool_decide (keyHex = []) then None else HexToECDSA (trim0x keyHex)) with
    | Some privKey => SendSecpTransaction action present (Some privKey) contract from input opts
    | None =>
        withArguments present (notDeploy action) contract from (
          payload <-? Ret (payloadOf input) ;;
          receipt <-? checkStatus (SendTransactionWithDeviceKey config keyPair from contract (optAmount opts) payload (optRelated opts)
                       (optGas opts) (optGasPrice opts) (optTime opts)) ;;
          ok (receipt, None))
    end.

Definition SendTransactionAsync (action : string) (present : bool) (contract from input : bytes) (opts : option TxOptions) : prog (outcome bytes) :=
  withArguments present (notDeploy action) contract from (
    payload <-? Ret (payloadOf input) ;;
    SendTransactionWithDeviceKeyAsync config keyPair from contract (optAmount opts) payload (optRelated opts)
      (optGas opts) (optGasPrice opts) (optTime opts)).

(** The nonce is cached once the receipt is there, whatever its status. *)
Definition SendTransactionNoneKey (action : string) (present : bool) (contract from input : bytes) (opts : option TxOptions) : prog (outcome Receipt) :=
  withArguments present (notDeploy action) contract from (
    payload <-? Ret (payloadOf input) ;;
    cached <- act (ACachedNonce from) ;;
    a <-? GetAccountState from ;;
    let usedNonce := chooseNonce cached (AccountState.nonce a) in
    checkStatus (
      receipt <-? SendTransaction config keyPair ready from contract (optAmount opts) payload (optRelated opts)
                   (optGas opts) (optGasPrice opts) (optTime opts) usedNonce ;;
      _ <- act (ACacheNonce from (wrap64 (usedNonce + 1))) ;;
      ok receipt)).
End Helper.
