(* ===== verification/ClientDiscipline.v ===== *)
(** * The discipline of the request channels

    An answer is put into a request's channel only right after the channel was
    taken out of (or, for an acknowledgement, looked up in) the table under the
    identifier of the answer.  [obeys] states this of a program, as a typestate:
    the mode of a thread says which channel it owns, and [allowed] which step it
    may take next.  Every call of the client and every run of the handler obeys it
    ([calls_obey]). *)

From S2P Require Import Prelude Binary TrieEncoding TrieNode AccountState Receipts SmartContract Transaction EthTransaction Message Connections ReceiptRouter TransactionError BlsKeys ClientProg ClientHandler ClientRequests ClientTransactions TxHelper.

Local Open Scope Z_scope.

(** ** Modes *)

(** A thread owns a channel it took out of a table, and borrows one it only
    looked up. *)
Inductive mode := Free | Owns (t : table) (id : string) (ch : nat) | Borrows (t : table) (id : string) (ch : nat).

(** With [strict], channels are not borrowed. *)
Definition allowed (strict : bool) (m : mode) {X} (a : action X) : Prop :=
  match a with
  | ADeliver ch x =>
      match m with
      | Owns t id c | Borrows t id c => c = ch /\ answerTable x = t /\ answerId x = id
      | Free => False
      end
  | ALoad _ _ => m = Free /\ strict = false
  | AStore _ _ cap => m = Free /\ (0 < cap)%nat
  | _ => m = Free
  end.

Definition after {X} (a : action X) : X -> mode :=
  match a in action X return X -> mode with
  | ALoad t id => fun o => match o with Some ch => Borrows t id ch | None => Free end
  | ALoadAndDelete t id => fun o => match o with Some ch => Owns t id ch | None => Free end
  | _ => fun _ => Free
  end.

Fixpoint obeys (strict : bool) (m : mode) {A} (p : prog A) : Prop :=
  match p with
  | Ret _ | Crash => m = Free
  | Act a k => allowed strict m a /\ forall x, obeys strict (after a x) (k x)
  | Go q k => m = Free /\ obeys strict Free q /\ obeys strict Free k
  | Iter body k => m = Free /\ obeys strict Free body /\ forall b, obeys strict Free (k b)
  end.

Lemma obeys_bind {A B} strict m (p : prog A) (f : A -> prog B) :
  obeys strict m p -> (forall a, obeys strict Free (f a)) -> obeys strict m (progBind p f).
Proof.
  intros Hp Hf. revert m Hp. induction p as [A a|A X a k IH|A q _ k IH|A C body _ k IH|A]; cbn; intros m.
  - by intros ->.
  - intros [Ha Hk]. split; [done|]. intros x. by apply IH.
  - intros (-> & Hq & Hk). split_and!; [done..|]. by apply IH.
  - intros (-> & Hb & Hk). split_and!; [done..|]. intros b. by apply IH.
  - done.
Qed.

Lemma obeys_try {A B} strict m (p : prog (outcome A)) (f : A -> prog (outcome B)) :
  obeys strict m p -> (forall a, obeys strict Free (f a)) -> obeys strict m (progTry p f).
Proof. intros Hp Hf. apply obeys_bind; [done|]. by intros [a|e| |]. Qed.

Lemma obeys_iter {A B} strict (body : prog (option B)) (k : B -> prog A) :
  obeys strict Free body -> (forall b, obeys strict Free (k b)) -> obeys strict Free (Iter body k).
Proof. done. Qed.

Lemma obeys_go {A} strict q (k : prog A) : obeys strict Free q -> obeys strict Free k -> obeys strict Free (Go q k).
Proof. done. Qed.

(** A step that takes no channel. *)
Lemma obeys_act {X} strict (a : action X) : allowed strict Free a -> (forall x, after a x = Free) -> obeys strict Free (act a).
Proof. intros Ha Hf. by split. Qed.

Lemma obeys_encoded {A B} strict (o : option A) (f : A -> prog (outcome B)) :
  (forall a, obeys strict Free (f a)) -> obeys strict Free (encoded o f).
Proof. intros Hf. destruct o; [apply Hf|done]. Qed.
Lemma obeys_decoded {A B} strict (o : option A) (f : A -> prog (outcome B)) :
  (forall a, obeys strict Free (f a)) -> obeys strict Free (decoded o f).
Proof. intros Hf. destruct o; [apply Hf|done]. Qed.

(** The lemmas of the calls are added to this database. *)
Create HintDb obeys.

(** ** The handler *)

(** Take a channel under the identifier of the answer and deliver it. *)
Lemma obeys_deliver strict t id x (rest : prog (outcome unit)) : answerTable x = t -> answerId x = id ->
  obeys strict Free rest ->
  obeys strict Free (progBind (act (ALoadAndDelete t id)) (fun val =>
    match val with Some ch => progBind (act (ADeliver ch x)) (fun _ => ok tt) | None => rest end)).
Proof. intros Ht Hi Hr. cbn. split; [done|]. intros [ch|]; cbn; [by repeat split|done]. Qed.

Lemma answerOr_obeys strict msg rest : obeys strict Free rest -> obeys strict Free (answerOr msg rest).
Proof.
  intros Hr. unfold answerOr. apply obeys_bind; [by apply obeys_act|]. intros h.
  destruct (_ && _); [by apply obeys_deliver|done].
Qed.

(** Follows the structure of a program. *)
Ltac solve_obeys :=
  repeat first
    [ progress intros
    | reflexivity
    | solve [auto with obeys nocore]
    | match goal with
      | |- obeys _ _ (progTry _ _) => apply obeys_try
      | |- obeys _ _ (progBind _ _) => apply obeys_bind
      | |- obeys _ _ (encoded _ _) => apply obeys_encoded
      | |- obeys _ _ (decoded _ _) => apply obeys_decoded
      | |- obeys _ _ (Iter _ _) => apply obeys_iter
      | |- obeys _ _ (Go _ _) => apply obeys_go
      | |- obeys _ _ (answerOr _ _) => apply answerOr_obeys
      end
    | apply obeys_act; [done || (split; [done|lia])|done]
    | match goal with |- obeys _ _ (match ?x with _ => _ end) => destruct x end
    | match goal with |- obeys _ _ (let '_ := ?x in _) => destruct x end ].

Section Handler.
Context `{EthLib} `{StateProto} `{ReceiptProto} `{ScProto} `{ErrorProto} `{HandlerProto}.

Lemma handleRpcResponse_obeys strict msg : obeys strict Free (handleRpcResponse msg).
Proof.
  unfold handleRpcResponse. destruct (unmarshalRpcResponse _) as [resp|]; [|done].
  apply obeys_bind; [by apply obeys_act|]. intros h. destruct (negb _); [done|]. by apply obeys_deliver.
Qed.

(** An acknowledgement borrows the channel. *)
Definition isAck (msg : Message) : Prop := Msg_Command msg = Command.RegisterAccountAck.

Lemma handleChainResponse_obeys strict msg : (strict = true -> ~ isAck msg) -> obeys strict Free (handleChainResponse msg).
Proof.
  intros Hs. unfold handleChainResponse. apply obeys_bind; [by apply obeys_act|]. intros h.
  destruct (negb _); [done|]. case_bool_decide as Hc; [|by apply obeys_deliver].
  assert (strict = false) as -> by (destruct strict; [by destruct Hs|done]).
  cbn. split; [done|]. intros [ch|]; cbn; by repeat split.
Qed.

#[local] Hint Resolve handleRpcResponse_obeys : obeys.

Lemma HandleRequest_obeys strict r : (strict = true -> ~ isAck (rMessage r)) -> obeys strict Free (HandleRequest r).
Proof.
  intros Hs. unfold HandleRequest.
  repeat match goal with |- obeys _ _ (if bool_decide (_ ∈ chainResponses) then _ else _) => destruct (bool_decide _); [by apply handleChainResponse_obeys|]
    | |- obeys _ _ (if ?b then _ else _) => destruct b end;
  unfold handleInitConnection, handleAccountState, handleTransactionError, handleReceipt, handleDeviceKey, handleEventLogs,
    handleStats, handleRpcEvent; solve_obeys.
Qed.

Lemma Tps_HandleRequest_obeys strict r : obeys strict Free (Tps_HandleRequest r).
Proof.
  unfold Tps_HandleRequest, handleInitConnection, Tps_handleAccountState, Tps_handleReceipt. solve_obeys.
Qed.
End Handler.

(** ** The calls *)

(** Every public call of the client, and a message given to one of its handlers. *)
Inductive Call :=
| CallHandle (r : Request Conn)
| CallHandleTps (r : Request Conn)
| CallNewClient
| CallReconnect
| CallIsParentConnected
| CallParentLost
| CallRetryConnectToStorage
| CallClose
| CallGetAccountState (a : bytes)
| CallChainGetChainId
| CallChainGetNonce (a : bytes)
| CallChainGetBlockNumber
| CallChainGetTransactionReceipt (h : bytes)
| CallSendRawEthTransaction (raw : bytes)
| CallChainGetLogs (blockHash fromBlock toBlock : bytes) (addresses : list bytes) (topics : list (list bytes))
| CallChainGetRegistrationMessage (a : bytes)
| CallChainGetRegistrationStatus (a : bytes)
| CallChainRegisterAccountWait (a sig : bytes)
| CallChainCall (to data : bytes) (from : option bytes)
| CallChainEstimateGas (to data : bytes) (from : option bytes) (value : option Z)
| CallRpcNetVersion
| CallRpcGetChainId
| CallRpcSendRawTransaction (raw : bytes)
| CallRpcSendRawTransactionWithReceipt (raw : bytes)
| CallRpcSendRawTransactionReceipt (raw : bytes)
| CallRpcHttpSendRawTransaction (raw : string)
| CallRpcEthCall (to data : bytes)
| CallRpcEthCallReceipt (to data : bytes)
| CallRpcGetPendingNonce (a : bytes)
| CallRpcGetTransactionReceipt (h : bytes)
| CallRpcSubscribe (addrs topics : list bytes) (cb : nat)
| CallRpcUnsubscribe (id : string)
| CallRpcCustomCall (method : string) (params : bytes)
| CallFindReceipt (h : bytes) (mt : receiptMatchType)
| CallAccountState (a : bytes)
| CallSendSecpProtoTransaction (key to : bytes) (amount gas price : Z) (data : bytes)
| CallSendSecpProtoTransactionWithNonce (key to : bytes) (amount gas price : Z) (data : bytes) (nonce : Z)
| CallSendTransaction (from to : bytes) (amount : Z) (data : bytes) (related : list bytes) (gas price time nonce : Z)
| CallReadTransaction (from to : bytes) (amount : Z) (data : bytes) (related : list bytes) (gas price time : Z)
| CallReadTransactionWithoutNonce (from to : bytes) (amount : Z) (data : bytes) (related : list bytes) (gas price time : Z)
| CallEstimateGas (from to : bytes) (amount : Z) (data : bytes) (related : list bytes) (gas price time : Z)
| CallSendTransactionWithDeviceKey (from to : bytes) (amount : Z) (data : bytes) (related : list bytes) (gas price time : Z)
| CallSendTransactionWithDeviceKeyAsync (from to : bytes) (amount : Z) (data : bytes) (related : list bytes) (gas price time : Z)
| CallSaveTransactionWithDeviceKeyToFile (from to : bytes) (amount : Z) (data : bytes) (related : list bytes) (gas price time : Z)
| CallSendTransactionWithFullInfo (from to : bytes) (amount gas fee time : Z) (data : bytes) (related : list bytes) (last new : bytes)
| CallRegisterBls (key publickey chainId : bytes)
| CallRegisterBlsAsync (key publickey chainId : bytes)
| CallAddAccount (key chainId : bytes)
| CallSendTransactions (ts : list Transaction)
| CallSendNewTransactionWithDeviceKey (t : Transaction) (key : bytes)
| CallSendDirectory
| CallSendDirectoryWithDeviceKey
| CallSubcribe (storage sc : bytes)
| CallSubcribes (storage : bytes) (scs : list bytes)
| CallParentSubcribes (scs : list bytes)
| CallNewEventLogsChan
| CallSetBlockDataChan (ch : option nat)
| CallRegisterReceiptCallback (cb : nat)
| CallSendQueryLogs (q : bytes)
| CallHelperReadWithoutNonce (present : bool) (contract from input : bytes) (opts : option TxOptions)
| CallHelperEstimateGas (present : bool) (contract from input : bytes) (opts : option TxOptions)
| CallHelperRead (present : bool) (contract from input : bytes) (opts : option TxOptions)
| CallHelperSecp (what : string) (present : bool) (key : option bytes) (contract from input : bytes) (opts : option TxOptions)
| CallHelperSend (what : string) (present : bool) (contract from input : bytes) (opts : option TxOptions)
| CallHelperSendAsync (what : string) (present : bool) (contract from input : bytes) (opts : option TxOptions)
| CallHelperSendNoneKey (what : string) (present : bool) (contract from input : bytes) (opts : option TxOptions).

(** The receipt of a call, unless an error came with it. *)
Definition receiptOr (o : outcome (Receipt * option GoError)) : outcome Receipt :=
  match o with Ok (r, None) => Ok r | Ok (_, Some e) => Err e | Err e => Err e | Panic => Panic | NoFuel => NoFuel end.

(** The receipt of a call that returns its transaction too. *)
Definition receiptOfPair {A} (o : outcome (Receipt * A)) : outcome Receipt :=
  match o with Ok (r, _) => Ok r | Err e => Err e | Panic => Panic | NoFuel => NoFuel end.

Section Calls.
Context `{EthLib} `{StateProto} `{ReceiptProto} `{ScProto} `{TxProto} `{Blst} `{BlstKeys} `{Secp} `{ErrorProto} `{HandlerProto}
  `{ClientCodec} `{EthTypes} `{!EthWallet}.
Context (config : ClientConfig) (keyPair : KeyPair) (ready : bool).

Definition callProg (c : Call) : Thread :=
  match c with
  | CallHandle r => done (HandleRequest r)
  | CallHandleTps r => done (Tps_HandleRequest r)
  | CallNewClient => done (NewClient config keyPair)
  | CallReconnect => done (ReconnectToParent config keyPair)
  | CallIsParentConnected => done IsParentConnected
  | CallParentLost => done (handleParentDisconnectWithResubscribe config keyPair)
  | CallRetryConnectToStorage => done (RetryConnectToStorage config keyPair)
  | CallClose => done Close
  | CallGetAccountState a => returning VAccount (GetAccountState a)
  | CallChainGetChainId => returning VNumber ChainGetChainId
  | CallChainGetNonce a => returning VNumber (ChainGetNonce a)
  | CallChainGetBlockNumber => returning VNumber ChainGetBlockNumber
  | CallChainGetTransactionReceipt h => done (ChainGetTransactionReceipt h)
  | CallSendRawEthTransaction raw => returning VHash (SendRawEthTransaction raw)
  | CallChainGetLogs b f t a l => done (ChainGetLogs b f t a l)
  | CallChainGetRegistrationMessage a => returning VHash (ChainGetRegistrationMessage a)
  | CallChainGetRegistrationStatus a => done (ChainGetRegistrationStatus a)
  | CallChainRegisterAccountWait a sig => done (ChainRegisterAccountWait a sig)
  | CallChainCall to data from => returning VReceipt (ChainCall config to data from)
  | CallChainEstimateGas to data from value => returning VNumber (ChainEstimateGas config to data from value)
  | CallRpcNetVersion => done (RpcNetVersion config)
  | CallRpcGetChainId => done (RpcGetChainId config)
  | CallRpcSendRawTransaction raw => done (RpcSendRawTransaction config raw)
  | CallRpcSendRawTransactionWithReceipt raw => done (RpcSendRawTransactionWithReceipt config raw)
  | CallRpcSendRawTransactionReceipt raw => done (RpcSendRawTransactionReceipt config raw)
  | CallRpcHttpSendRawTransaction raw => done (RpcHttpSendRawTransaction config raw)
  | CallRpcEthCall to data => done (RpcEthCall config to data)
  | CallRpcEthCallReceipt to data => returning VReceipt (RpcEthCallReceipt config to data)
  | CallRpcGetPendingNonce a => returning VNumber (RpcGetPendingNonce a)
  | CallRpcGetTransactionReceipt h => done (RpcGetTransactionReceipt config h)
  | CallRpcSubscribe addrs topics cb => done (RpcSubscribe config addrs topics cb)
  | CallRpcUnsubscribe id => done (RpcUnsubscribe config id)
  | CallRpcCustomCall method params => done (RpcCustomCall config method params)
  | CallFindReceipt h mt => returning VReceipt (FindReceiptByHashWithType h mt)
  | CallAccountState a => returning VAccount (ClientTransactions.AccountState a)
  | CallSendSecpProtoTransaction k to n g p d => returning (fun o => VReceipt (receiptOfPair o)) (SendSecpProtoTransaction config keyPair ready k to n g p d)
  | CallSendSecpProtoTransactionWithNonce k to n g p d x => returning (fun o => VReceipt (receiptOfPair o)) (SendSecpProtoTransactionWithNonce config keyPair ready k to n g p d x)
  | CallSendTransaction f to n d l g p t x => returning VReceipt (SendTransaction config keyPair ready f to n d l g p t x)
  | CallReadTransaction f to n d l g p t => returning VReceipt (ReadTransaction config keyPair ready f to n d l g p t)
  | CallReadTransactionWithoutNonce f to n d l g p t => returning VReceipt (ReadTransactionWithoutNonce config keyPair ready f to n d l g p t)
  | CallEstimateGas f to n d l g p t => returning VReceipt (EstimateGas config keyPair ready f to n d l g p t)
  | CallSendTransactionWithDeviceKey f to n d l g p t => returning VReceipt (SendTransactionWithDeviceKey config keyPair f to n d l g p t)
  | CallSendTransactionWithDeviceKeyAsync f to n d l g p t => returning VHash (SendTransactionWithDeviceKeyAsync config keyPair f to n d l g p t)
  | CallSaveTransactionWithDeviceKeyToFile f to n d l g p t => done (SaveTransactionWithDeviceKeyToFile config keyPair f to n d l g p t)
  | CallSendTransactionWithFullInfo f to n g fee t d l k k' => returning VReceipt (SendTransactionWithFullInfo config keyPair f to n g fee t d l k k')
  | CallRegisterBls k pk c => returning VReceipt (RegisterBlsForAccount config keyPair k pk c)
  | CallRegisterBlsAsync k pk c => returning VHash (RegisterBlsForAccountAsync config keyPair k pk c)
  | CallAddAccount k c => returning VReceipt (AddAccountForClient config keyPair k c)
  | CallSendTransactions ts => done (TC_SendTransactions ts)
  | CallSendNewTransactionWithDeviceKey t key => done (SendNewTransactionWithDeviceKey keyPair t key)
  | CallSendDirectory => done SendAllTransactionsInDirectory
  | CallSendDirectoryWithDeviceKey => done SendAllTransactionsWidthDeviceKeyInDirectory
  | CallSubcribe st sc => done (Subcribe st sc)
  | CallSubcribes st scs => done (Subcribes st scs)
  | CallParentSubcribes scs => done (ParentSubcribes scs)
  | CallNewEventLogsChan => done NewEventLogsChan
  | CallSetBlockDataChan ch => done (act (ASetHandler (SetBlockDataChan ch)))
  | CallRegisterReceiptCallback cb => done (act (ASetHandler (RegisterReceiptCallback cb)))
  | CallSendQueryLogs q => done (SendQueryLogs q)
  | CallHelperReadWithoutNonce p c f i o => returning VReceipt (Helper_SendReadTransactionWithoutNonce config keyPair ready p c f i o)
  | CallHelperEstimateGas p c f i o => returning VReceipt (Helper_SendEstimateGas config keyPair ready p c f i o)
  | CallHelperRead p c f i o => returning VReceipt (Helper_SendReadTransaction config keyPair ready p c f i o)
  | CallHelperSecp a p k c f i o => returning (fun r => VReceipt (receiptOr r)) (SendSecpTransaction config a p k c f i o)
  | CallHelperSend a p c f i o => returning (fun r => VReceipt (receiptOr r)) (Helper_SendTransaction config keyPair a p c f i o)
  | CallHelperSendAsync a p c f i o => returning VHash (SendTransactionAsync config keyPair a p c f i o)
  | CallHelperSendNoneKey a p c f i o => returning VReceipt (SendTransactionNoneKey config keyPair ready a p c f i o)
  end.

(** Calls that bring no acknowledgement of a registration. *)
Definition noAck (c : Call) : Prop := match c with CallHandle r => ~ isAck (rMessage r) | _ => True end.

Lemma isUp_obeys strict p : obeys strict Free (isUp p).
Proof. unfold isUp. solve_obeys. Qed.
#[local] Hint Resolve isUp_obeys : obeys.
Lemma connectedParent_obeys strict : obeys strict Free connectedParent.
Proof. unfold connectedParent. solve_obeys. Qed.
Lemma OnConnect_obeys strict c : obeys strict Free (OnConnect keyPair c).
Proof. unfold OnConnect. solve_obeys. Qed.
#[local] Hint Resolve connectedParent_obeys OnConnect_obeys : obeys.
Lemma ReconnectToParent_obeys strict : obeys strict Free (ReconnectToParent config keyPair).
Proof. unfold ReconnectToParent. solve_obeys. Qed.
#[local] Hint Resolve ReconnectToParent_obeys : obeys.
Lemma ensureUp_obeys strict p : obeys strict Free (ensureUp config keyPair p).
Proof. unfold ensureUp. solve_obeys. Qed.
Lemma parentUp_obeys strict : obeys strict Free (parentUp config keyPair).
Proof. unfold parentUp. solve_obeys. Qed.
#[local] Hint Resolve ensureUp_obeys parentUp_obeys : obeys.
Lemma ensureParent_obeys strict : obeys strict Free (ensureParent config keyPair).
Proof. unfold ensureParent. solve_obeys. Qed.
Lemma sendChainRequest_obeys strict cmd b : obeys strict Free (sendChainRequest cmd b).
Proof. unfold sendChainRequest. solve_obeys. Qed.
Lemma sendRpcRequest_obeys strict cmd b : obeys strict Free (sendRpcRequest config cmd b).
Proof. unfold sendRpcRequest. solve_obeys. Qed.
#[local] Hint Resolve ensureParent_obeys sendChainRequest_obeys sendRpcRequest_obeys : obeys.
Lemma rpcCall_obeys strict cmd b : obeys strict Free (rpcCall config cmd b).
Proof. unfold rpcCall. solve_obeys. Qed.
Lemma txErrorText_obeys (A : Type) strict m : obeys strict Free (txErrorText (A := A) m).
Proof. unfold txErrorText. solve_obeys. Qed.
Lemma ChainGetNonce_obeys strict a : obeys strict Free (ChainGetNonce a).
Proof. unfold ChainGetNonce. solve_obeys. Qed.
Lemma waitReceipt_obeys strict h mt timed : obeys strict Free (waitReceipt h mt timed).
Proof. unfold waitReceipt, waitLoop. solve_obeys. Qed.
Lemma sendTx_obeys strict c t : obeys strict Free (sendTx c t).
Proof. unfold sendTx. solve_obeys. Qed.
Lemma sendDeviceTx_obeys strict t k : obeys strict Free (sendDeviceTx t k).
Proof. unfold sendDeviceTx. solve_obeys. Qed.
#[local] Hint Resolve rpcCall_obeys txErrorText_obeys ChainGetNonce_obeys waitReceipt_obeys sendTx_obeys sendDeviceTx_obeys : obeys.
Lemma load_obeys strict n : obeys strict Free (LoadTransactionWithDeviceKeyFromFile n).
Proof. unfold LoadTransactionWithDeviceKeyFromFile. solve_obeys. Qed.
#[local] Hint Resolve load_obeys : obeys.
Lemma sendFiles_obeys strict c l : obeys strict Free (sendFiles c l).
Proof. induction l; cbn [sendFiles]; unfold LoadedTransactionWithDeviceKeyFromFile; solve_obeys. Qed.
Lemma loadFiles_obeys strict l : obeys strict Free (loadFiles l).
Proof. induction l; cbn [loadFiles]; solve_obeys. Qed.
Lemma openClientConn_obeys strict : obeys strict Free openClientConn.
Proof. unfold openClientConn. solve_obeys. Qed.
Lemma deviceKeys_obeys strict a : obeys strict Free (deviceKeys config keyPair a).
Proof. unfold deviceKeys, accountFor. solve_obeys. Qed.
Lemma sendSubscriptions_obeys strict c l : obeys strict Free (sendSubscriptions c l).
Proof. induction l; cbn [sendSubscriptions]; solve_obeys. Qed.
Lemma subscribeParent_obeys strict l : obeys strict Free (subscribeParent l).
Proof. induction l; cbn [subscribeParent]; solve_obeys. Qed.
#[local] Hint Resolve sendFiles_obeys loadFiles_obeys openClientConn_obeys deviceKeys_obeys sendSubscriptions_obeys subscribeParent_obeys : obeys.
Lemma reSubscribe_obeys strict : obeys strict Free reSubscribeToAddresses.
Proof. unfold reSubscribeToAddresses. solve_obeys. Qed.
Lemma secp_obeys strict k to n g p d x : obeys strict Free (SendSecpProtoTransactionWithNonce config keyPair ready k to n g p d x).
Proof. unfold SendSecpProtoTransactionWithNonce, whenReady. solve_obeys. Qed.
Lemma buildBlsTx_obeys strict k pk c : obeys strict Free (buildBlsTx config keyPair k pk c).
Proof. unfold buildBlsTx. solve_obeys. Qed.
#[local] Hint Resolve reSubscribe_obeys secp_obeys buildBlsTx_obeys : obeys.

(** Every call obeys the discipline; without acknowledgements, strictly. *)
Lemma calls_obey strict c : (strict = true -> noAck c) -> obeys strict Free (callProg c).
Proof.
  intros Hn. destruct c; cbn [callProg]; unfold done, returning;
    [apply obeys_bind; [by apply HandleRequest_obeys|done]|apply obeys_bind; [apply Tps_HandleRequest_obeys|done]|..].
  all: unfold Helper_SendReadTransactionWithoutNonce, Helper_SendEstimateGas, Helper_SendReadTransaction, Helper_SendTransaction,
    SendSecpTransaction, SendTransactionAsync, SendTransactionNoneKey, withArguments, checkStatus.
  all: unfold NewClient, connectLoop, startKeepAliveLoop, keepAlive, RetryConnectToStorage, IsParentConnected, handleParentDisconnectWithResubscribe, Close, GetAccountState,
    ChainGetChainId, ChainGetBlockNumber, ChainGetTransactionReceipt, SendRawEthTransaction, ChainGetLogs,
    ChainGetRegistrationMessage, ChainGetRegistrationStatus, ChainRegisterAccountWait, ChainCall, ChainEstimateGas,
    RpcNetVersion, RpcGetChainId, RpcSendRawTransaction, RpcSendRawTransactionReceipt, RpcSendRawTransactionWithReceipt,
    RpcHttpSendRawTransaction, RpcEthCall, RpcEthCallReceipt, RpcEthCall, RpcGetPendingNonce, RpcGetTransactionReceipt,
    RpcSubscribe, RpcUnsubscribe, RpcCustomCall, FindReceiptByHashWithType, ClientTransactions.AccountState,
    SendSecpProtoTransaction, ClientTransactions.AccountState, SendTransaction, ReadTransaction, ReadTransactionWithoutNonce,
    EstimateGas, whenReady, TC_SendTransaction, TC_ReadTransaction, TC_ReadTransactionWithoutNonce, TC_EstimateGas,
    FindReceiptByHash, FindReceiptByHashWithType, SendTransactionWithDeviceKey, TC_SendTransactionWithDeviceKey,
    SendTransactionWithDeviceKeyAsync, SendTransactionWithDeviceKeySync, SaveTransactionWithDeviceKeyToFile,
    TC_SaveTransactionWithDeviceKeyToFile, SendTransactionWithFullInfo, TC_SendTransaction, AddAccountForClient,
    RegisterBlsForAccount, RegisterBlsForAccountAsync, SendNewTransaction, TC_SendTransactions, SendNewTransactionWithDeviceKey,
    SendAllTransactionsInDirectory, SendAllTransactionsWidthDeviceKeyInDirectory, inDirectory, Subcribe, Subcribes, ParentSubcribes,
    NewEventLogsChan, SendQueryLogs; solve_obeys.
Qed.
End Calls.
