(* ===== verification/ClientInvariant.v ===== *)
(** * The requests of the client, whatever the interleaving

    The invariant [requestsOk] of the request tables and channels, which follows
    from the discipline of [ClientDiscipline]: it is preserved by every step of
    the system, and gives that an answer reaches only the request it answers, at
    most once, and that the worker that delivers it does not have to wait. *)

From S2P Require Import Prelude Binary TrieEncoding TrieNode AccountState Receipts SmartContract Transaction EthTransaction Message Connections ReceiptRouter TransactionError BlsKeys ClientProg ClientHandler ClientRequests ClientTransactions TxHelper ClientDiscipline.

Local Open Scope Z_scope.

(** ** The invariant *)

(** The channel belongs to the identifier. *)
Definition belongs (r : Requests) (t : table) (id : string) (ch : nat) : Prop :=
  exists c, chans r !! ch = Some c /\ chTable c = t /\ chId c = id.

Definition modeOk (strict : bool) (r : Requests) (m : mode) : Prop :=
  match m with
  | Free => True
  | Owns t id ch => belongs r t id ch
  | Borrows t id ch => strict = false /\ belongs r t id ch
  end.

(** The answers of a channel are answers to its request; those not yet received
    are the last ones. *)
Record chanOk (c : Chan) : Prop := {
  chan_answers : Forall (fun a => answerTable a = chTable c /\ answerId a = chId c) (chLog c);
  chan_buffer : chBuf c `suffix_of` chLog c;
  chan_cap : (length (chBuf c) <= chCap c)%nat /\ (0 < chCap c)%nat
}.

Definition ownsChan (ch : nat) (m : mode) : nat := match m with Owns _ _ c => if (c =? ch)%nat then 1 else 0 | _ => 0 end.

(** Who can still answer on a channel: the table and the threads that own it. *)
Definition claims (ch : nat) (c : Chan) (r : Requests) (ms : list mode) : nat :=
  (if bool_decide (tableOf (chTable c) r !! chId c = Some ch) then 1 else 0) + sum_list_with (ownsChan ch) ms.

Record requestsOk (strict : bool) (r : Requests) (ms : list mode) : Prop := {
  ok_modes : Forall (modeOk strict r) ms;
  ok_tables : forall t id ch, tableOf t r !! id = Some ch -> belongs r t id ch;
  ok_chans : Forall chanOk (chans r);
  ok_once : strict = true -> forall ch c, chans r !! ch = Some c -> (claims ch c r ms + length (chLog c) <= 1)%nat
}.

(** Only these steps touch the requests. *)
Definition onRequests {X} (a : action X) : bool :=
  match a with
  | AStore _ _ _ | ADelete _ _ | ALoad _ _ | ALoadAndDelete _ _ | ADeliver _ _ | AReceive _ => true
  | _ => false
  end.

Lemma doAction_requests `{EthLib} version {X} o (a : action X) s x s' :
  onRequests a = false -> doAction version o a s = Some (x, s') -> requests s' = requests s.
Proof.
  intros Ha. destruct a; cbn in Ha; try done; cbn [doAction]; repeat case_match; intros; simplify_eq/=; try done.
  - destruct (takeReceipt _ _) as [[? ?]|]; simplify_eq/=. done.
Qed.

Lemma free_action strict {X} (a : action X) m x : onRequests a = false -> allowed strict m a -> m = Free /\ after a x = Free.
Proof. by destruct a. Qed.

(** ** The steps on the requests *)

Lemma tableOf_setTable t t' m r : tableOf t' (setTable t m r) = if decide (t' = t) then m else tableOf t' r.
Proof. by destruct t, t'. Qed.

Lemma chans_setTable t m r : chans (setTable t m r) = chans r.
Proof. by destruct t. Qed.

Lemma belongs_chans r r' t id ch : chans r' = chans r -> belongs r t id ch -> belongs r' t id ch.
Proof. intros E [c Hc]. exists c. by rewrite E. Qed.

Lemma modeOk_mono strict r r' m : (forall t id ch, belongs r t id ch -> belongs r' t id ch) -> modeOk strict r m -> modeOk strict r' m.
Proof. intros Hb. destruct m; cbn; [done|auto|]. intros [-> ?]. auto. Qed.

Lemma modeOk_chans strict r r' m : chans r' = chans r -> modeOk strict r m -> modeOk strict r' m.
Proof. intros E. apply modeOk_mono. intros *. by apply belongs_chans. Qed.

(** What keeps the channels and lets go of entries of the tables. *)
Lemma requestsOk_less strict r r' ms : chans r' = chans r ->
  (forall t id ch, tableOf t r' !! id = Some ch -> tableOf t r !! id = Some ch) ->
  requestsOk strict r ms -> requestsOk strict r' ms.
Proof.
  intros E Ht [Hm Hb Hc Ho]. split.
  - eapply Forall_impl; [done|]. intros m. by apply modeOk_chans.
  - intros t id ch Hl. by apply (belongs_chans r), Hb, Ht.
  - by rewrite E.
  - intros Hs ch c. rewrite E. intros Hl. specialize (Ho Hs ch c Hl). unfold claims in *.
    pose proof (Ht (chTable c) (chId c) ch). repeat case_bool_decide; try lia; tauto.
Qed.

Lemma storeRequest_ok strict t id cap r ms : (0 < cap)%nat -> requestsOk strict r ms ->
  requestsOk strict (storeRequest t id cap r).2 ms.
Proof.
  intros Hcap [Hm Hb Hc Ho]. set (r' := (storeRequest t id cap r).2).
  assert (Ec : chans r' = chans r ++ [mkChan t id cap [] []]) by (unfold r', storeRequest; cbn; by rewrite chans_setTable).
  assert (Et : forall t' id', tableOf t' r' !! id' =
    if decide (t' = t /\ id' = id) then Some (length (chans r)) else tableOf t' r !! id').
  { intros t' id'. unfold r', storeRequest. cbn. rewrite tableOf_setTable.
    destruct (decide (t' = t)) as [->|N]; [|rewrite decide_False by naive_solver; by destruct t'].
    replace (tableOf t (setChans (chans r ++ [mkChan t id cap [] []]) r)) with (tableOf t r) by by destruct t.
    destruct (decide (id' = id)) as [->|N]; [rewrite decide_True by done; apply lookup_insert_eq|].
    rewrite decide_False by naive_solver. by rewrite lookup_insert_ne. }
  assert (Hbel : forall t' id' ch, belongs r t' id' ch -> belongs r' t' id' ch /\ (ch < length (chans r))%nat).
  { intros t' id' ch (c & Hl & ?). pose proof (lookup_lt_Some _ _ _ Hl). split; [|done]. exists c. rewrite Ec.
    by rewrite lookup_app_l. }
  split.
  - eapply Forall_impl; [done|]. intros m. apply modeOk_mono. by intros * [? _]%Hbel.
  - intros t' id' ch. rewrite Et. destruct (decide _) as [[-> ->]|N]; [|intros ?%Hb%Hbel; tauto].
    intros [= <-]. exists (mkChan t id cap [] []). rewrite Ec, lookup_app_r, Nat.sub_diag by done. done.
  - rewrite Ec. apply Forall_app. split; [done|]. apply Forall_singleton. split; cbn; [by apply Forall_nil|done|lia].
  - intros Hs ch c. rewrite Ec, lookup_app_Some. intros [Hl|[Hge Hl]].
    + specialize (Ho Hs ch c Hl). unfold claims in *. pose proof (lookup_lt_Some _ _ _ Hl).
      rewrite Et. destruct (decide _); [|done]. rewrite bool_decide_false by (intros [= ?]; lia). lia.
    + apply list_lookup_singleton_Some in Hl as [Hch <-]. assert (ch = length (chans r)) as -> by lia. unfold claims. cbn.
      assert (E : sum_list_with (ownsChan (length (chans r))) ms = 0%nat).
      { clear -Hm Hbel. induction Hm as [|m ms H1 H2 IH]; cbn; [done|]. rewrite IH. destruct m; cbn in *; try done.
        apply Hbel in H1 as [_ ?]. destruct (Nat.eqb_spec ch (length (chans r))); [lia|done]. }
      rewrite E. destruct (bool_decide _); lia.
Qed.

(** Taking a channel out of the table makes the thread its owner. *)
Lemma take_ok strict t id ch r ms i : ms !! i = Some Free -> tableOf t r !! id = Some ch -> requestsOk strict r ms ->
  requestsOk strict (deleteRequest t id r) (<[i := Owns t id ch]> ms).
Proof.
  intros Hi Hl [Hm Hb Hc Ho]. set (r' := deleteRequest t id r).
  assert (Ec : chans r' = chans r) by apply chans_setTable.
  assert (Et : forall t' id', tableOf t' r' !! id' = if decide (t' = t /\ id' = id) then None else tableOf t' r !! id').
  { intros t' id'. unfold r', deleteRequest. rewrite tableOf_setTable. destruct (decide (t' = t)) as [->|N].
    - destruct (decide (id' = id)) as [->|N]; [rewrite decide_True by done; apply lookup_delete_eq|].
      rewrite decide_False by naive_solver. by rewrite lookup_delete_ne.
    - by rewrite decide_False by naive_solver. }
  split.
  - apply Forall_insert; [|cbn; by apply (belongs_chans r), Hb]. eapply Forall_impl; [done|]. intros m. by apply modeOk_chans.
  - intros t' id' ch'. rewrite Et. destruct (decide _); [done|]. intros ?. by apply (belongs_chans r), Hb.
  - by rewrite Ec.
  - intros Hs ch' c. rewrite Ec. intros Hl'. specialize (Ho Hs ch' c Hl'). unfold claims in *. rewrite Et.
    pose proof (sum_with_insert (ownsChan ch') ms i Free (Owns t id ch) Hi) as Hsum. cbn [ownsChan] in Hsum.
    destruct (Nat.eqb_spec ch ch') as [->|N].
    + destruct (Hb _ _ _ Hl) as (c' & Hc' & <- & <-). assert (c' = c) as -> by congruence.
      rewrite bool_decide_true in Ho by done. rewrite decide_True by done. rewrite bool_decide_false by done. lia.
    + destruct (decide _); [rewrite bool_decide_false by done|]; lia.
Qed.

(** The owner, or a borrower, puts the answer into the channel. *)
Lemma deliver_ok strict ch x m r r' ms i : ms !! i = Some m -> allowed strict m (ADeliver ch x) ->
  sendAnswer ch x r = Some r' -> requestsOk strict r ms -> requestsOk strict r' (<[i := Free]> ms).
Proof.
  intros Hi Ha Hs [Hm Hb Hc Ho]. unfold sendAnswer in Hs.
  assert (Hown : strict = true -> ownsChan ch m = 1%nat).
  { intros ->. pose proof (Forall_lookup_1 _ _ _ _ Hm Hi). destruct m; cbn in *; [done| |naive_solver].
    destruct Ha as [-> _]. by rewrite Nat.eqb_refl. } destruct (chans r !! ch) as [c|] eqn:El; [|done]. cbn [mbind option_bind] in Hs.
  destruct (Nat.ltb_spec (length (chBuf c)) (chCap c)) as [Hroom|]; [|done]. injection Hs as <-.
  set (c' := mkChan (chTable c) (chId c) (chCap c) (chBuf c ++ [x]) (chLog c ++ [x])).
  assert (Hx : answerTable x = chTable c /\ answerId x = chId c).
  { pose proof (Forall_lookup_1 _ _ _ _ Hm Hi) as Hmo. destruct m as [|t id ch'|t id ch']; cbn in Ha; [done|destruct Hmo as (c0 & ? & <- & <-)|destruct Hmo as (_ & c0 & ? & <- & <-)];
      destruct Ha as (-> & -> & ->); assert (c0 = c) as -> by congruence; done. }
  assert (Hbel : forall t id ch', belongs r t id ch' -> belongs (setChans (<[ch := c']> (chans r)) r) t id ch').
  { intros t id ch' (c0 & Hl & <- & <-). unfold belongs. cbn. destruct (decide (ch' = ch)) as [->|N].
    - exists c'. rewrite list_lookup_insert_eq by by eapply lookup_lt_Some. assert (c0 = c) as -> by congruence. done.
    - exists c0. by rewrite list_lookup_insert_ne by done. }
  destruct (Forall_lookup_1 _ _ _ _ Hc El) as [Hans Hbuf [Hcap Hpos]]. split.
  - apply Forall_insert; [|done]. eapply Forall_impl; [done|]. intros m'. by apply modeOk_mono.
  - intros t id ch' Hl. apply Hbel, Hb. by destruct t.
  - cbn. apply Forall_insert; [done|]. split; cbn.
    + apply Forall_app. split; [done|by apply Forall_singleton].
    + destruct Hbuf as [k ->]. exists k. by rewrite <- app_assoc.
    + rewrite length_app. cbn. lia.
  - intros Hst ch' c0. cbn. pose proof (sum_with_insert (ownsChan ch') ms i m Free Hi) as Hsum. cbn [ownsChan] in Hsum.
    destruct (decide (ch' = ch)) as [->|N].
    + rewrite list_lookup_insert_eq by by eapply lookup_lt_Some. intros [= <-]. specialize (Ho Hst ch c El).
      rewrite (Hown Hst) in Hsum. unfold claims in *. cbn. rewrite length_app. cbn.
      replace (tableOf (chTable c) (setChans (<[ch := c']> (chans r)) r)) with (tableOf (chTable c) r) by by destruct (chTable c). lia.
    + rewrite list_lookup_insert_ne by done. intros Hl. specialize (Ho Hst ch' c0 Hl). unfold claims in *.
      replace (tableOf (chTable c0) (setChans (<[ch := c']> (chans r)) r)) with (tableOf (chTable c0) r) by by destruct (chTable c0). lia.
Qed.

Lemma receive_ok strict ch x r r' ms : receiveAnswer ch r = Some (x, r') -> requestsOk strict r ms -> requestsOk strict r' ms.
Proof.
  unfold receiveAnswer. destruct (chans r !! ch) as [c|] eqn:El; [|done]. cbn. destruct (chBuf c) as [|a q] eqn:Eb; [done|].
  intros [= -> <-] [Hm Hb Hc Ho]. set (c' := mkChan (chTable c) (chId c) (chCap c) q (chLog c)).
  assert (Hlk : forall ch' c0, <[ch := c']> (chans r) !! ch' = Some c0 -> exists c1, chans r !! ch' = Some c1 /\
    chTable c0 = chTable c1 /\ chId c0 = chId c1 /\ chLog c0 = chLog c1).
  { intros ch' c0. destruct (decide (ch' = ch)) as [->|N].
    - rewrite list_lookup_insert_eq by by eapply lookup_lt_Some. intros [= <-]. by exists c.
    - rewrite list_lookup_insert_ne by done. by exists c0. }
  assert (Hbel : forall t id ch', belongs r t id ch' -> belongs (setChans (<[ch := c']> (chans r)) r) t id ch').
  { intros t id ch' (c0 & Hl & <- & <-). unfold belongs. cbn. destruct (decide (ch' = ch)) as [->|N].
    - exists c'. rewrite list_lookup_insert_eq by by eapply lookup_lt_Some. assert (c0 = c) as -> by congruence. done.
    - exists c0. by rewrite list_lookup_insert_ne by done. }
  destruct (Forall_lookup_1 _ _ _ _ Hc El) as [Hans Hbuf Hcap]. rewrite Eb in Hbuf, Hcap. cbn in Hcap. split.
  - eapply Forall_impl; [done|]. intros m'. by apply modeOk_mono.
  - intros t id ch' Hl. apply Hbel, Hb. by destruct t.
  - cbn. apply Forall_insert; [done|]. split; cbn; [done| |lia]. by eapply suffix_cons_l.
  - intros Hst ch' c0 Hl. apply Hlk in Hl as (c1 & Hl & E1 & E2 & E3). specialize (Ho Hst ch' c1 Hl). unfold claims in *.
    rewrite E1, E2, E3. by destruct (chTable c1).
Qed.

(** Any step of a thread, from its mode to the next one. *)
Lemma action_ok `{EthLib} version strict {X} o (a : action X) s x s' m i ms :
  ms !! i = Some m -> allowed strict m a -> doAction version o a s = Some (x, s') ->
  requestsOk strict (requests s) ms -> requestsOk strict (requests s') (<[i := after a x]> ms).
Proof.
  intros Hi Ha Hd Hok. destruct (onRequests a) eqn:Er.
  - assert (Hdel : forall t id, requestsOk strict (deleteRequest t id (requests s)) ms).
    { intros t id. eapply requestsOk_less; [apply chans_setTable| |done].
      intros t' id' ch. unfold deleteRequest. rewrite tableOf_setTable. destruct (decide _) as [->|]; [|done].
      rewrite lookup_delete_Some. by intros [_ ?]. }
    destruct a; try done.
    + destruct Ha as [-> Hcap]. cbn in Hd. simplify_eq. cbn [after]. rewrite list_insert_id by done. by apply storeRequest_ok.
    + cbn in Ha, Hd. simplify_eq. rewrite list_insert_id by done. apply Hdel.
    + destruct Ha as [-> ->]. cbn in Hd. simplify_eq. destruct (tableOf t (requests s') !! id) as [ch|] eqn:El; cbn [after];
        [|by rewrite list_insert_id]. destruct Hok as [Hm Hb Hc Ho]. split; [|done..].
      apply Forall_insert; [done|]. cbn. split; [done|]. by apply Hb.
    + cbn in Ha, Hd. simplify_eq. destruct (tableOf t (requests s) !! id) as [ch|] eqn:El; cbn [after]; [by apply take_ok|].
      rewrite list_insert_id by done. apply Hdel.
    + cbn in Hd. destruct (sendAnswer ch a (requests s)) as [r'|] eqn:Es; [|done]. cbn in Hd. simplify_eq. cbn [after].
      by eapply deliver_ok.
    + cbn in Ha, Hd. subst m. cbn [after]. rewrite list_insert_id by done. destruct (oExpired o); [by simplify_eq|].
      destruct (receiveAnswer ch (requests s)) as [[y r']|] eqn:Ers; [|done]. cbn in Hd. simplify_eq. by eapply receive_ok.
  - destruct (free_action strict a m x Er Ha) as [-> ->]. rewrite list_insert_id by done.
    by rewrite (doAction_requests version o a s x s' Er Hd).
Qed.

(** ** The system *)

(** Each thread is in a mode, and the requests agree with the modes. *)
Definition systemOk (strict : bool) (y : System) : Prop :=
  exists ms, Forall2 (fun m t => obeys strict m t) ms (threads y) /\ requestsOk strict (requests (client y)) ms.

Lemma sum_owns_app ch ms ms' : Forall (fun m => m = Free) ms' -> sum_list_with (ownsChan ch) (ms ++ ms') = sum_list_with (ownsChan ch) ms.
Proof. intros Hf. rewrite sum_list_with_app. assert (E : sum_list_with (ownsChan ch) ms' = 0%nat) by (induction Hf; cbn; [done|]; subst; done). lia. Qed.

(** New threads start without a channel. *)
Lemma requestsOk_app strict r ms ms' : Forall (fun m => m = Free) ms' -> requestsOk strict r ms -> requestsOk strict r (ms ++ ms').
Proof.
  intros Hf [Hm Hb Hc Ho]. split; [|done..|].
  - apply Forall_app. split; [done|]. eapply Forall_impl; [done|]. by intros ? ->.
  - intros Hs ch c Hl. specialize (Ho Hs ch c Hl). unfold claims in *. by rewrite sum_owns_app.
Qed.

Section Run.
Context `{EthLib} (version : string).

Lemma threadStep_ok strict o t s s' t' new m i ms :
  ms !! i = Some m -> obeys strict m t -> threadStep version o t s = Some (s', t', new) ->
  requestsOk strict (requests s) ms ->
  exists m', obeys strict m' t' /\ Forall (fun t => obeys strict Free t) new /\ requestsOk strict (requests s') (<[i := m']> ms).
Proof.
  intros Hi Ht Hs Hok. destruct t as [a|X a k|q k|B body k|]; cbn in Hs, Ht.
  - done.
  - destruct Ht as [Ha Hk]. destruct (doAction version o a s) as [[x s1]|] eqn:Ed; [|done]. cbn in Hs. simplify_eq.
    exists (after a x). split_and!; [apply Hk|by apply Forall_nil|by eapply action_ok].
  - destruct Ht as (-> & Hq & Hk). simplify_eq. exists Free. rewrite list_insert_id by done. split_and!; [done| |done].
    apply Forall_singleton. by apply obeys_bind.
  - destruct Ht as (-> & Hb & Hk). simplify_eq. exists Free. rewrite list_insert_id by done. split_and!; [|by apply Forall_nil|done].
    apply obeys_bind; [done|]. intros [b|]; [apply Hk|by split_and!].
  - done.
Qed.

Lemma clientStep_ok strict e y y' : (forall t, e = CCall t -> obeys strict Free t) ->
  clientStep version e y = Some y' -> systemOk strict y -> systemOk strict y'.
Proof.
  intros Hc Hs (ms & Hms & Hok). destruct e as [i o|t| | |d]; cbn in Hs.
  - destruct (threads y !! i) as [t|] eqn:Et; [|done]. cbn in Hs.
    destruct (threadStep version o t (client y)) as [[[s' t'] new]|] eqn:Es; [|done]. cbn in Hs. simplify_eq.
    destruct (Forall2_lookup_r _ _ _ _ _ Hms Et) as (m & Hi & Hm).
    destruct (threadStep_ok strict o t (client y) s' t' new m i ms Hi Hm Es Hok) as (m' & Hm' & Hnew & Hok').
    exists (<[i := m']> ms ++ replicate (length new) Free). split; cbn.
    + apply Forall2_app; [by apply Forall2_insert|]. clear -Hnew. induction Hnew; cbn; by constructor.
    + apply requestsOk_app; [by apply Forall_replicate|done].
  - simplify_eq. exists (ms ++ [Free]). split; cbn.
    + apply Forall2_app; [done|]. constructor; [by apply Hc|constructor].
    + apply requestsOk_app; [by apply Forall_singleton|done].
  - destruct (receiptChan _); [done|]. simplify_eq. by exists ms.
  - simplify_eq. by exists ms.
  - simplify_eq. by exists ms.
Qed.

Lemma clientRun_ok strict es y y' : Forall (fun e => forall t, e = CCall t -> obeys strict Free t) es ->
  clientRun version es y = Some y' -> systemOk strict y -> systemOk strict y'.
Proof.
  intros He. revert y. induction He as [|e es He Hes IH]; intros y; cbn; [by intros [= <-]|].
  destruct (clientStep version e y) as [y1|] eqn:E; [|done]. cbn. intros Hr Hy. apply (IH y1 Hr). by eapply clientStep_ok.
Qed.

Lemma new_ok strict now : systemOk strict (mkSystem (newClientState now) []).
Proof.
  exists []. split; [constructor|]. split; cbn; [by apply Forall_nil| |by apply Forall_nil|done].
  intros [] id ch; cbn; by rewrite lookup_empty.
Qed.
End Run.
