(* ===== verification/ClientReceipts.v ===== *)
(** * What a wait for a receipt returns

    A weakest precondition [wp] for programs of the client: the assertions speak
    of the registrations made so far ([regs]), which only grow, so that the steps
    of other threads do not disturb them.  With the router's invariant it gives
    what a wait for a receipt returns in any interleaving. *)

From S2P Require Import Prelude Binary TrieEncoding TrieNode AccountState Receipts SmartContract Transaction EthTransaction Message Connections ReceiptRouter TransactionError BlsKeys ClientProg ClientHandler ClientRequests ClientTransactions.

Local Open Scope Z_scope.

(** ** Weakest preconditions *)

(** Which channel was registered with which request. *)
Definition regs : Type := nat -> receiptMatchType -> bytes -> Prop.

Section Logic.
Context `{EthLib}.

(** What is known of the result of a step. *)
Definition good (R : regs) {X} (a : action X) : X -> Prop :=
  match a in action X return X -> Prop with
  | AWait ch _ => fun w => match w with GotReceipt r => forall mt h, R ch mt h -> matches mt h r | _ => True end
  | ATryReceipt ch => fun o => match o with Some r => forall mt h, R ch mt h -> matches mt h r | None => True end
  | _ => fun _ => True
  end.

Definition extend (R : regs) {X} (a : action X) : X -> regs :=
  match a in action X return X -> regs with
  | ARegister mt h => fun ch ch' mt' h' => R ch' mt' h' \/ (ch' = ch /\ mt' = mt /\ h' = h)
  | _ => fun _ => R
  end.

Fixpoint wp (R : regs) {A} (p : prog A) (Q : A -> Prop) : Prop :=
  match p with
  | Ret a => Q a
  | Crash => True
  | Act a k => forall x, good R a x -> wp (extend R a x) (k x) Q
  | Go q k => wp R q (fun _ => True) /\ wp R k Q
  | Iter body k => wp R body (fun o => match o with Some b => wp R (k b) Q | None => True end)
  end.

Definition regs_le (R R' : regs) : Prop := forall ch mt h, R ch mt h -> R' ch mt h.

Lemma regs_le_refl R : regs_le R R.
Proof. by intros ? ? ?. Qed.

Lemma good_le R R' {X} (a : action X) x : regs_le R R' -> good R' a x -> good R a x.
Proof.
  intros HR. destruct a; cbn; try (by intros).
  - destruct x as [r|e|]; try (by intros). intros Hg mt h Hr. by apply Hg, HR.
  - destruct x as [r|]; try (by intros). intros Hg mt h Hr. by apply Hg, HR.
Qed.

Lemma extend_le R R' {X} (a : action X) x : regs_le R R' -> regs_le (extend R a x) (extend R' a x).
Proof. intros HR. destruct a; try exact HR. cbn. intros ch mt' h' [?|?]; [left; by apply HR|by right]. Qed.

Lemma extend_more R {X} (a : action X) x : regs_le R (extend R a x).
Proof. destruct a; intros ch' mt' h' ?; try done. by left. Qed.

Lemma wp_mono {A} (p : prog A) : forall R R' (Q Q' : A -> Prop), regs_le R R' -> (forall a, Q a -> Q' a) -> wp R p Q -> wp R' p Q'.
Proof.
  induction p as [A a|A X a k IH|A q IHq k IHk|A B body IHb k IHk|A]; cbn; intros R R' Q Q' HR HQ Hp.
  - by apply HQ.
  - intros x Hx. eapply IH; [|done|by apply Hp, (good_le R R')]. by apply extend_le.
  - destruct Hp as [Hq Hk]. split; [by eapply IHq|by eapply IHk].
  - eapply IHb; [done| |done]. intros [b|]; [|done]. by apply IHk.
  - done.
Qed.

Lemma wp_bind {A B} (p : prog A) : forall R (f : A -> prog B) Q, wp R p (fun a => wp R (f a) Q) -> wp R (progBind p f) Q.
Proof.
  induction p as [A a|A X a k IH|A q IHq k IHk|A C body IHb k IHk|A]; cbn; intros R f Q Hp.
  - done.
  - intros x Hx. apply IH. eapply wp_mono; [apply regs_le_refl| |by apply Hp]. intros a'. cbn. apply wp_mono; [apply extend_more|done].
  - destruct Hp as [Hq Hk]. split; [done|by apply IHk].
  - eapply wp_mono; [apply regs_le_refl| |done]. intros [b|]; [|done]. apply IHk.
  - done.
Qed.

Lemma wp_any {A} (p : prog A) : forall R, wp R p (fun _ => True).
Proof.
  induction p as [A a|A X a k IH|A q IHq k IHk|A C body IHb k IHk|A]; cbn; intros R; [done|by intros; apply IH| |..|done].
  - split; [by apply IHq|by apply IHk].
  - eapply wp_mono; [apply regs_le_refl| |apply IHb]. intros [b|]; [|done]. intros _. apply IHk.
Qed.

(** A call that fails returns no value. *)
Lemma wp_try {A B} R (p : prog (outcome A)) (f : A -> prog (outcome B)) (Q : outcome B -> Prop) :
  (forall e, Q (Err e)) -> Q NoFuel -> wp R p (fun o => match o with Ok a => wp R (f a) Q | _ => True end) -> wp R (progTry p f) Q.
Proof.
  intros He Hn Hp. apply wp_bind. eapply wp_mono; [apply regs_le_refl| |done]. intros [a|e| |]; [done|..]; intros _; cbn; [apply He|done|done].
Qed.

(** ** Waiting *)

Definition returnsOwn (mt : receiptMatchType) (h : bytes) (o : outcome Receipt) : Prop :=
  match o with Ok r => matches mt h r | _ => True end.

Lemma wp_waitLoop (R : regs) ch mt h : R ch mt h -> wp R (waitLoop ch h) (returnsOwn mt h).
Proof.
  intros Hr. cbn. intros [r|e|] Hg; cbn in *.
  - by apply Hg.
  - destruct (negb _); cbn; [done|]. done.
  - intros _ _ [r|] Hg'; cbn in *; [by apply Hg'|done].
Qed.

Lemma wp_waitReceipt (R : regs) h mt timed : wp R (waitReceipt h mt timed) (returnsOwn mt h).
Proof.
  cbn. intros ch _. set (R' := fun _ _ _ => _). assert (Hr : R' ch mt h) by by right. destruct timed; cbn [negb].
  - by apply wp_waitLoop.
  - cbn. intros [r|e|] Hg; cbn in *; [by apply Hg|done|done].
Qed.

(** ** The router *)

Record waitsOk (w : Waits) : Prop := {
  ok_router : router w = foldl routerStep emptyRouter (routerLog w);
  ok_registered : NoDup (registered (routerLog w));
  ok_next : Forall (fun ch => (ch < nextWaiter w)%nat) (registered (routerLog w))
}.

Definition regsOf (w : Waits) : regs := fun ch mt h => exists now, RvRegister now ch mt h ∈ routerLog w.

Lemma registered_elem now ch mt h es : RvRegister now ch mt h ∈ es -> ch ∈ registered es.
Proof. intros Hi. apply list_elem_of_omap. by exists (RvRegister now ch mt h). Qed.

Lemma registered_unique es ch n mt h n' mt' h' : NoDup (registered es) ->
  RvRegister n ch mt h ∈ es -> RvRegister n' ch mt' h' ∈ es -> mt' = mt /\ h' = h.
Proof.
  induction es as [|e es IH]; cbn; [by intros _ ?%not_elem_of_nil|]. intros Hn.
  assert (Hn' : NoDup (registered es)) by (destruct e; cbn in Hn; [done|by apply NoDup_cons in Hn as [_ ?]|done..]).
  assert (Hx : forall n0 mt0 h0, e = RvRegister n0 ch mt0 h0 -> ch ∉ registered es).
  { intros n0 mt0 h0 ->. cbn in Hn. by apply NoDup_cons in Hn as [? _]. }
  rewrite !elem_of_cons. intros [E|H1] [E'|H2].
  - rewrite <- E in E'. by injection E'.
  - destruct (Hx _ _ _ (eq_sym E)). by eapply registered_elem.
  - destruct (Hx _ _ _ (eq_sym E')). by eapply registered_elem.
  - by apply IH.
Qed.

Lemma take_good w ch r w' mt h : waitsOk w -> takeReceipt ch w = Some (r, w') -> regsOf w ch mt h -> matches mt h r.
Proof.
  intros [Hr Hn _]. unfold takeReceipt. case_bool_decide; [done|]. rewrite Hr.
  destruct (origin_run _ Hn) as (used & _ & _ & [_ _ Hd]).
  destruct (delivered _ !! ch) as [[|x l]|] eqn:Ed; [done| |done]. intros [= <- <-] [now Hin].
  destruct (Hd ch x (x :: l) Ed) as (n & n' & mt' & h' & H1 & _ & Hm); [by left|].
  by destruct (registered_unique _ _ _ _ _ _ _ _ Hn Hin H1) as [-> ->].
Qed.

Lemma takeReceipt_ok ch w r w' : takeReceipt ch w = Some (r, w') ->
  router w' = router w /\ routerLog w' = routerLog w /\ nextWaiter w' = nextWaiter w.
Proof. unfold takeReceipt. repeat case_match; intros; by simplify_eq. Qed.

Lemma log_ok e w : registered [e] = [] -> waitsOk w -> waitsOk (logRouter e w) /\ regs_le (regsOf w) (regsOf (logRouter e w)).
Proof.
  intros He [Hr Hn Hx]. split; [split; cbn|].
  - by rewrite Hr, foldl_app.
  - by rewrite registered_app, He, app_nil_r.
  - by rewrite registered_app, He, app_nil_r.
  - intros ch mt h [now Hi]. exists now. cbn. apply elem_of_app. by left.
Qed.

Lemma waits_same w w' : router w' = router w -> routerLog w' = routerLog w -> (nextWaiter w <= nextWaiter w')%nat ->
  waitsOk w -> waitsOk w' /\ regs_le (regsOf w) (regsOf w').
Proof.
  intros E1 E2 E3 [Hr Hn Hx]. split; [split|].
  - by rewrite E1, E2.
  - by rewrite E2.
  - rewrite E2. eapply Forall_impl; [done|]. cbn. lia.
  - intros ch mt h [now Hi]. exists now. by rewrite E2.
Qed.

Lemma register_ok t mt h w : waitsOk w ->
  let w1 := logRouter (RvRegister t (nextWaiter w) mt h) w in
  let w' := mkWaits (router w1) (routerLog w1) (taken w1) (S (nextWaiter w)) in
  waitsOk w' /\ regs_le (extend (regsOf w) (ARegister mt h) (nextWaiter w)) (regsOf w').
Proof.
  intros [Hr Hn Hx]. split; [split; cbn|].
  - by rewrite Hr, foldl_app.
  - rewrite registered_app. cbn. apply NoDup_app. split_and!; [done| |by apply NoDup_singleton].
    intros ch Hc ->%list_elem_of_singleton. rewrite Forall_forall in Hx. specialize (Hx _ Hc). lia.
  - rewrite registered_app. apply Forall_app. split; [|cbn; by apply Forall_singleton; lia].
    eapply Forall_impl; [done|]. cbn. lia.
  - intros ch mt' h' [[now Hi]|(-> & -> & ->)]; cbn.
    + exists now. cbn. apply elem_of_app. by left.
    + exists t. cbn. apply elem_of_app. right. by apply list_elem_of_singleton.
Qed.

(** ** The system *)

(** Only these steps touch the router. *)
Definition onWaits {X} (a : action X) : bool :=
  match a with ARegister _ _ | ACancel _ _ | AWait _ _ | ATryReceipt _ | AMakeChan => true | _ => false end.

Lemma doAction_same_waits version {X} o (a : action X) s x s' :
  onWaits a = false -> doAction version o a s = Some (x, s') -> waits s' = waits s /\ good (regsOf (waits s)) a x.
Proof.
  intros Ha. destruct a; cbn in Ha; try done; cbn [doAction good]; repeat case_match; intros; simplify_eq/=; try done.
  - destruct (sendAnswer _ _ _); by simplify_eq/=.
  - destruct (receiveAnswer _ _) as [[? ?]|]; by simplify_eq/=.
Qed.

Lemma doAction_waits version {X} o (a : action X) s x s' :
  doAction version o a s = Some (x, s') -> waitsOk (waits s) ->
  waitsOk (waits s') /\ good (regsOf (waits s)) a x /\ regs_le (extend (regsOf (waits s)) a x) (regsOf (waits s')).
Proof.
  intros Hd Hw. destruct (onWaits a) eqn:Ea.
  - destruct a; try done; cbn in Hd.
    + simplify_eq. destruct (register_ok (clock s) mt h (waits s) Hw). by split_and!.
    + simplify_eq. destruct (log_ok (RvCancel ch h) (waits s) eq_refl Hw). by split_and!.
    + destruct (timed && oExpired o); [by simplify_eq; split_and!; [|..|apply regs_le_refl]|].
      destruct (timed && oReady o); [destruct (transactionErrorChan _); simplify_eq; by split_and!; [|..|apply regs_le_refl]|].
      destruct (takeReceipt ch (waits s)) as [[r w]|] eqn:Et; [|done]. cbn in Hd. simplify_eq.
      destruct (takeReceipt_ok _ _ _ _ Et) as (E1 & E2 & E3). destruct (waits_same (waits s) w E1 E2) as [Hw' Hle]; [lia|done|].
      split_and!; [done| |done]. cbn. intros mt h. by eapply take_good.
    + destruct (takeReceipt ch (waits s)) as [[r w]|] eqn:Et; simplify_eq; [|by split_and!; [|..|apply regs_le_refl]].
      destruct (takeReceipt_ok _ _ _ _ Et) as (E1 & E2 & E3). destruct (waits_same (waits s) w E1 E2) as [Hw' Hle]; [lia|done|].
      split_and!; [done| |done]. cbn. intros mt h. by eapply take_good.
    + simplify_eq. destruct (waits_same (waits s) (mkWaits (router (waits s)) (routerLog (waits s)) (taken (waits s)) (S (nextWaiter (waits s)))))
        as [Hw' Hle]; [done|done|cbn; lia|done|]. by split_and!.
  - destruct (doAction_same_waits version o a s x s' Ea Hd) as [-> Hg]. split_and!; [done|done|]. destruct a; try done; apply regs_le_refl.
Qed.

Definition waitingOk (Qs : list (Value -> Prop)) (y : System) : Prop :=
  Forall2 (fun Q t => wp (regsOf (waits (client y))) t Q) Qs (threads y) /\ waitsOk (waits (client y)).

Lemma all_wp_le R R' Qs ts : regs_le R R' -> Forall2 (fun Q t => wp R t Q) Qs ts -> Forall2 (fun (Q : Value -> Prop) t => wp R' t Q) Qs ts.
Proof. intros HR HQ. eapply Forall2_impl; [exact HQ|]. intros Q t. by apply wp_mono. Qed.

Lemma threadStep_wp version o t s s' t' new Q : threadStep version o t s = Some (s', t', new) ->
  waitsOk (waits s) -> wp (regsOf (waits s)) t Q ->
  waitsOk (waits s') /\ regs_le (regsOf (waits s)) (regsOf (waits s')) /\ wp (regsOf (waits s')) t' Q.
Proof.
  intros Hs Hw Hp. destruct t as [a|X a k|q k|B body k|]; cbn in Hs, Hp; try done.
  - destruct (doAction version o a s) as [[x s1]|] eqn:Ed; [|done]. cbn in Hs. simplify_eq.
    destruct (doAction_waits version o a s x s' Ed Hw) as (Hw' & Hg & Hle). split_and!; [done| |].
    + intros ch mt h Hr. by apply Hle, extend_more.
    + eapply wp_mono; [exact Hle| |by apply Hp]. done.
  - simplify_eq. split_and!; [done|apply regs_le_refl|by destruct Hp].
  - simplify_eq. split_and!; [done|apply regs_le_refl|]. apply wp_bind. eapply wp_mono; [apply regs_le_refl| |done]. by intros [b|].
Qed.

Lemma clientStep_wp version e y y' Qs : clientStep version e y = Some y' -> waitingOk Qs y ->
  exists Qs', waitingOk (Qs ++ Qs') y'.
Proof.
  intros Hs [HQ Hw]. destruct e as [i o|t| | |d]; cbn in Hs.
  - destruct (threads y !! i) as [t|] eqn:Et; [|done]. cbn in Hs.
    destruct (threadStep version o t (client y)) as [[[s' t'] new]|] eqn:Es; [|done]. cbn in Hs. simplify_eq.
    destruct (Forall2_lookup_r _ _ _ _ _ HQ Et) as (Q & Hi & Hp).
    destruct (threadStep_wp version o t (client y) s' t' new Q Es Hw Hp) as (Hw' & Hle & Hp').
    exists (replicate (length new) (fun _ => True)). split; [|done]. cbn. apply Forall2_app.
    + rewrite <- (list_insert_id Qs i Q) by done. apply Forall2_insert; [|done]. by eapply all_wp_le.
    + clear -Hle; induction new as [|? ? IHnew]; cbn; [constructor|]. constructor; [apply wp_any|apply IHnew].
  - simplify_eq. exists [fun _ => True]. split; [|done]. cbn. apply Forall2_app; [done|]. constructor; [apply wp_any|constructor].
  - destruct (receiptChan _) as [|r q]; [done|]. simplify_eq. exists []. rewrite app_nil_r.
    destruct (log_ok (RvReceipt (clock (client y)) r) (waits (client y)) eq_refl Hw). split; [|done]. by eapply all_wp_le.
  - simplify_eq. exists []. rewrite app_nil_r.
    destruct (log_ok (RvCleanup (clock (client y))) (waits (client y)) eq_refl Hw). split; [|done]. by eapply all_wp_le.
  - simplify_eq. exists []. by rewrite app_nil_r.
Qed.

Lemma clientRun_wp version es y y' Qs : clientRun version es y = Some y' -> waitingOk Qs y -> exists Qs', waitingOk (Qs ++ Qs') y'.
Proof.
  revert y Qs. induction es as [|e es IH]; intros y Qs; cbn; [intros [= <-] ?; exists []; by rewrite app_nil_r|].
  destruct (clientStep version e y) as [y1|] eqn:E; [|done]. cbn. intros Hr Hy.
  destruct (clientStep_wp version e y y1 Qs E Hy) as [Q1 H1]. destruct (IH y1 (Qs ++ Q1) Hr H1) as [Q2 H2].
  exists (Q1 ++ Q2). by rewrite app_assoc.
Qed.

Lemma waitingOk_new now : waitingOk [] (mkSystem (newClientState now) []).
Proof. split; [constructor|]. split; cbn; [done|constructor|constructor]. Qed.

(** A thread started at any time with a program that meets its postcondition
    leaves, when it returns, a value that meets it. *)
Lemma call_post version now es0 y0 (t : Thread) (Q : Value -> Prop) es y v :
  clientRun version es0 (mkSystem (newClientState now) []) = Some y0 ->
  (forall R, wp R t Q) ->
  clientRun version (CCall t :: es) y0 = Some y ->
  threads y !! length (threads y0) = Some (Ret v) -> Q v.
Proof.
  intros H0 Ht Hr Hv. destruct (clientRun_wp version es0 _ y0 [] H0 (waitingOk_new now)) as [Q0 [HQ0 Hw0]]. cbn in HQ0.
  cbn in Hr. set (y1 := mkSystem (client y0) (threads y0 ++ [t])) in Hr.
  assert (H1 : waitingOk (Q0 ++ [Q]) y1). { split; [|done]. cbn. apply Forall2_app; [done|]. by constructor. }
  destruct (clientRun_wp version es y1 y _ Hr H1) as [Q2 [HQ _]].
  destruct (Forall2_lookup_r _ _ _ _ _ HQ Hv) as (Q' & HQ' & Hp).
  assert (El : length (threads y0) = length Q0) by (symmetry; exact (Forall2_length _ _ _ HQ0)).
  rewrite El, <- app_assoc, lookup_app_r, Nat.sub_diag in HQ' by done.
  cbn in HQ'. injection HQ' as <-. done.
Qed.
End Logic.
