(* ===== verification/ClientInstances.v ===== *)
(** * Concrete parameters of the TCP client

    Executable instances of the messages the client decodes and encodes, a
    configuration, and a world in which sends succeed: the witnesses of the
    client's theorems are evaluated on them. *)

From S2P Require Import Prelude Binary TrieEncoding TrieNode Instances AccountState AccountTheorems Receipts SmartContract SmartContractTheorems Transaction EthTransaction TxInstances.
From S2P Require Import Message Connections ReceiptRouter TransactionError BlsKeys ClientProg ClientHandler ClientRequests ClientTransactions ClientDiscipline.

Local Open Scope Z_scope.

(** ** Codecs: lists of framed fields *)

#[export] Instance toyHandlerProto : HandlerProto := {|
  unmarshalInit b := match decFields b with [a; t; p; r] => Some (mkPbInit a (stringOfBytes t) (stringOfBytes p) (decBool r)) | _ => None end;
  unmarshalRpcResponse b :=
    match decFields b with [i; r] => Some (mkRpcResponse "2.0" r None (stringOfBytes i)) | _ => None end;
  unmarshalRpcEvent b := match decFields b with [s] => Some (stringOfBytes s, None) | _ => None end;
  unmarshalStats b := Some tt
|}.

#[export] Instance toyClientCodec : ClientCodec := {|
  RpcReceipt := bytes;
  LogEntry := bytes;
  marshalInit p := Some (encFields [piAddress p; bytesOfString (piType p); bytesOfString (piPublicConnectionAddress p); encBool (piReplace p)]);
  marshalReceiptRequest h := Some h;
  unmarshalReceiptResponse b := match decFields b with [r; e] => Some (Some r, stringOfBytes e) | _ => None end;
  marshalLogsRequest q := Some (encFields [lqBlockHash q; lqFromBlock q; lqToBlock q; encFields (lqAddresses q)]);
  unmarshalLogsResponse b := match decFields b with e :: l => Some (l, stringOfBytes e) | _ => None end;
  marshalRegister p := Some (encFields [p.1; p.2]);
  unmarshalRegistration b :=
    match decFields b with
    | [s; a; h; r] => Some (mkRegistration (stringOfBytes s) (stringOfBytes a) (stringOfBytes h) (stringOfBytes r))
    | _ => None
    end;
  marshalDeviceTx p := Some (encFields [encTx (default zeroPbTransaction p.1); p.2]);
  unmarshalDeviceTx b := match decFields b with [t; k] => Some (decTx t, k) | _ => None end;
  marshalSendTx b := Some b;
  marshalHashParam b := Some b;
  unmarshalHashParam b := Some b;
  marshalEthCall p := Some (encFields [p.1; p.2]);
  marshalSubscribe p := Some (encFields [encFields p.1; encFields p.2]);
  marshalUnsubscribe s := Some (bytesOfString s);
  unmarshalRpcReceipt b := Some b;
  jsonString b := None;
  jsonStrings l := encFields (bytesOfString <$> l)
|}.

Definition toyRaw (d : TxData) : bytes :=
  encFields [bigBytes (dataNonce d); bigBytes (dataGas d); default [] (dataTo d); bigBytes (dataValue d); dataData d].

#[export] Instance toyWallet : EthWallet := {|
  HexToECDSA b := if (length b =? 64)%nat then DecodeString b else None;
  packSetBlsPublicKey b := Some ([1; 2; 3; 4] ++ b);
  SignTx tx sg k := Some tx;
  LatestSignerForChainID c := CancunSigner c;
  MarshalBinary tx := Some (toyRaw tx);
  ethTxHash tx := toyKeccak (toyRaw tx)
|}.

(** ** A client and its world *)

Definition sampleConfig : ClientConfig :=
  mkClientConfig [] "1" (replicate 40 48) (JList [JString "127.0.0.1:4000"]) "client" 991 [].
Definition sampleKeyPair : KeyPair := mkKeyPair (arrayFromBytes 48 sampleKey) sampleKey (replicate 20 1).

(** Every connection is up and every send succeeds; the identifier drawn is [id]. *)
Definition up (id : string) : Oracle := mkOracle (mkEnv (fun _ => replicate 20 1) (fun _ => "client"%string) (fun _ => true)) None id false false.
(** The timer of the step has fired. *)
Definition timer : Oracle := mkOracle (oEnv (up "")) None "" true false.
(** The other case of the [select] is taken. *)
Definition other : Oracle := mkOracle (oEnv (up "")) None "" false true.

Definition incoming (cmd id : string) (body : bytes) : Call := CallHandle (mkRequest 1%positive (requestMessage cmd [] id body)).
