(* ===== verification/ClientTheorems.v ===== *)
(** * The TCP client: theorems

    Properties of the client's goroutines in any interleaving ([ClientProg]): the
    discipline of the request channels as a typestate, answers and requests,
    receipts and waits, and what the client's own transactions look like on the
    wire.  The witnesses run on executable instances of the parameters. *)

From S2P Require Import Prelude Binary TrieEncoding TrieNode Instances AccountState AccountTheorems Receipts SmartContract SmartContractTheorems Transaction EthTransaction TxInstances TransactionTheorems.
From S2P Require Import Message Connections ReceiptRouter TransactionError BlsKeys ClientProg ClientHandler ClientRequests ClientTransactions TxHelper ClientDiscipline ClientInvariant ClientReceipts ClientInstances.

Local Open Scope Z_scope.

Section Runs.
Context `{EthLib} `{StateProto} `{ReceiptProto} `{ScProto} `{TxProto} `{Blst} `{BlstKeys} `{Secp} `{ErrorProto} `{HandlerProto}
  `{ClientCodec} `{EthTypes} `{!EthWallet}.
Context (config : ClientConfig) (keyPair : KeyPair) (ready : bool).

(** Runs in which every thread is a call of the client or a message given to its
    handler; with [strict], no acknowledgement of a registration. *)
Definition callsOnly (strict : bool) (es : list ClientEvent) : Prop :=
  Forall (fun e => forall t, e = CCall t -> exists c, t = callProg config keyPair ready c /\ (strict = true -> noAck c)) es.

Definition start (c : Call) : ClientEvent := CCall (callProg config keyPair ready c).
Definition steps (n i : nat) (o : Oracle) : list ClientEvent := replicate n (CThread i o).

Lemma callsOnly_start strict c es : (strict = true -> noAck c) -> callsOnly strict es -> callsOnly strict (start c :: es).
Proof. intros Hc Hes. apply Forall_cons. split; [|done]. intros t [= <-]. by exists c. Qed.

Lemma callsOnly_steps strict n i o es : callsOnly strict es -> callsOnly strict (steps n i o ++ es).
Proof. intros Hes. apply Forall_app. split; [|done]. apply Forall_replicate. by intros t. Qed.

Lemma callsOnly_nil strict : callsOnly strict [].
Proof. by apply Forall_nil. Qed.

Lemma run_systemOk strict version now es y : callsOnly strict es ->
  clientRun version es (mkSystem (newClientState now) []) = Some y -> systemOk strict y.
Proof.
  intros Hes Hr. eapply clientRun_ok; [|done|apply new_ok]. eapply Forall_impl; [done|]. intros e He t ->.
  destruct (He t eq_refl) as (c & -> & Hc). by apply calls_obey.
Qed.
End Runs.

(** Runs of the sample client: connected, a question asked, the answer in the
    hands of a worker, and returned.  Thread 1 is the keep-alive loop. *)
Abbreviation startS := (start sampleConfig sampleKeyPair true).
Definition connecting : list ClientEvent := startS CallNewClient :: steps 11 0 (up "init").
Definition asking : list ClientEvent := startS CallChainGetChainId :: steps 5 2 (up "7").
Definition answering : list ClientEvent := startS (incoming Command.ChainId "7" [0; 0; 0; 0; 0; 0; 3; 223]) :: steps 2 3 (up "").
Definition returned : list ClientEvent := steps 1 3 (up "") ++ steps 1 2 (up "").

Definition freshClient : System := mkSystem (newClientState 0) [].
Definition endOf (es : list ClientEvent) : System := default freshClient (clientRun "1" es freshClient).

Lemma endOf_run es : bool_decide (is_Some (clientRun "1" es freshClient)) = true -> clientRun "1" es freshClient = Some (endOf es).
Proof. intros [y Hy]%bool_decide_eq_true. unfold endOf. by rewrite Hy. Qed.

Lemma callsOnly_app `{EthLib} `{StateProto} `{ReceiptProto} `{ScProto} `{TxProto} `{Blst} `{BlstKeys} `{Secp} `{ErrorProto} `{HandlerProto}
    `{ClientCodec} `{EthTypes} `{!EthWallet} config keyPair ready strict es es' :
  callsOnly config keyPair ready strict es -> callsOnly config keyPair ready strict es' ->
  callsOnly config keyPair ready strict (es ++ es').
Proof. apply Forall_app_2. Qed.

Lemma callsOnly_answering strict : callsOnly sampleConfig sampleKeyPair true strict (connecting ++ asking ++ answering).
Proof.
  repeat first [apply callsOnly_app | apply callsOnly_start; [done|] | rewrite <- (app_nil_r (steps _ _ _)); apply callsOnly_steps, callsOnly_nil].
Qed.

(** ** The discipline *)

(** C29 (type). The typestate of the request channels is sound: in every
    state that any interleaving of calls and incoming messages reaches, each thread
    is in a mode that allows its next step and every step after it; and a thread
    that is about to deliver an answer holds a channel stored under the identifier
    of that answer. *)
Theorem client_typestate `{EthLib} `{StateProto} `{ReceiptProto} `{ScProto} `{TxProto} `{Blst} `{BlstKeys} `{Secp} `{ErrorProto}
    `{HandlerProto} `{ClientCodec} `{EthTypes} `{!EthWallet} config keyPair ready strict version now es y :
  callsOnly config keyPair ready strict es ->
  clientRun version es (mkSystem (newClientState now) []) = Some y ->
  exists ms, Forall2 (fun m t => obeys strict m t) ms (threads y) /\ Forall (modeOk strict (requests (client y))) ms.
Proof.
  intros Hes Hr. destruct (run_systemOk config keyPair ready strict version now es y Hes Hr) as (ms & Hms & [Hm _ _ _]). by exists ms.
Qed.

Lemma client_typestate_witness : exists ms,
  Forall2 (fun m t => obeys true m t) ms (threads (endOf (connecting ++ asking ++ answering))) /\
  Forall (modeOk true (requests (client (endOf (connecting ++ asking ++ answering))))) ms.
Proof.
  apply (client_typestate sampleConfig sampleKeyPair true true "1" 0 (connecting ++ asking ++ answering)).
  - apply callsOnly_answering.
  - by apply endOf_run.
Defined.

(** C6 (safety). Answers reach only the request they answer: in any
    interleaving, everything that was ever put into the channel of a request carries
    the identifier of that request and is of its kind, what the caller has not
    received yet is the last part of it, and unless acknowledgements of
    registrations come in, it is at most one answer. *)
Theorem answers_own_request `{EthLib} `{StateProto} `{ReceiptProto} `{ScProto} `{TxProto} `{Blst} `{BlstKeys} `{Secp} `{ErrorProto}
    `{HandlerProto} `{ClientCodec} `{EthTypes} `{!EthWallet} config keyPair ready strict version now es y ch c :
  callsOnly config keyPair ready strict es ->
  clientRun version es (mkSystem (newClientState now) []) = Some y ->
  chans (requests (client y)) !! ch = Some c ->
  (forall a, a ∈ chLog c -> answerTable a = chTable c /\ answerId a = chId c) /\
  chBuf c `suffix_of` chLog c /\
  (strict = true -> (length (chLog c) <= 1)%nat).
Proof.
  intros Hes Hr Hc. destruct (run_systemOk config keyPair ready strict version now es y Hes Hr) as (ms & _ & [_ _ Hch Ho]).
  destruct (Forall_lookup_1 _ _ _ _ Hch Hc) as [Ha Hb _]. rewrite Forall_forall in Ha. split_and!; [done|done|].
  intros Hs. specialize (Ho Hs ch c Hc). lia.
Qed.

Lemma answers_own_request_witness :
  let y := endOf (connecting ++ asking ++ answering ++ returned) in
  exists c, chans (requests (client y)) !! 0%nat = Some c /\ length (chLog c) = 1%nat /\
    (forall a, a ∈ chLog c -> answerTable a = chTable c /\ answerId a = "7"%string) /\
    threads y !! 2%nat = Some (Ret (VNumber (Ok 991))).
Proof.
  eexists. split; [vm_compute; reflexivity|]. split; [done|]. split; [|vm_compute; reflexivity].
  apply (answers_own_request sampleConfig sampleKeyPair true false "1" 0 (connecting ++ asking ++ answering ++ returned)
    (endOf (connecting ++ asking ++ answering ++ returned)) 0); [|by apply endOf_run|vm_compute; reflexivity].
  rewrite !app_assoc. apply callsOnly_app; [rewrite <- !app_assoc; apply callsOnly_answering|].
  by repeat constructor.
Defined.

(** C30 (liveness). The worker that has taken a request out of the table
    never waits: unless acknowledgements of registrations come in, a thread whose
    next step puts an answer into a channel can take that step at once, whatever the
    other threads did. *)
Theorem delivery_never_blocks `{EthLib} `{StateProto} `{ReceiptProto} `{ScProto} `{TxProto} `{Blst} `{BlstKeys} `{Secp} `{ErrorProto}
    `{HandlerProto} `{ClientCodec} `{EthTypes} `{!EthWallet} config keyPair ready version now es y i ch a k o :
  callsOnly config keyPair ready true es ->
  clientRun version es (mkSystem (newClientState now) []) = Some y ->
  threads y !! i = Some (Act (ADeliver ch a) k) ->
  exists y', clientStep version (CThread i o) y = Some y'.
Proof.
  intros Hes Hr Hi. destruct (run_systemOk config keyPair ready true version now es y Hes Hr) as (ms & Hms & [Hm _ Hch Ho]).
  destruct (Forall2_lookup_r _ _ _ _ _ Hms Hi) as (m & Hmi & [Ha _]).
  pose proof (Forall_lookup_1 _ _ _ _ Hm Hmi) as Hmo. destruct m as [|t id ch'|t id ch']; cbn in Ha, Hmo; [done| |naive_solver].
  destruct Ha as (-> & _ & _), Hmo as (c & Hc & Ht & Hid). specialize (Ho eq_refl ch c Hc).
  pose proof (sum_with_insert (ownsChan ch) ms i _ Free Hmi) as Hsum. cbn [ownsChan] in Hsum. rewrite Nat.eqb_refl in Hsum.
  destruct (Forall_lookup_1 _ _ _ _ Hch Hc) as [_ Hb [_ Hcap]]. unfold claims in Ho.
  assert (Eb : length (chBuf c) = 0%nat) by (apply suffix_length in Hb; lia).
  unfold clientStep. rewrite (Hi : threads y !! i = @Some Thread _). cbn [mbind option_bind threadStep doAction]. unfold sendAnswer. rewrite Hc.
  cbn [mbind option_bind]. rewrite Eb. destruct (Nat.ltb_spec 0 (chCap c)); [|lia]. by eexists.
Qed.

Lemma delivery_never_blocks_witness :
  exists ch a k, threads (endOf (connecting ++ asking ++ answering)) !! 3%nat = Some (Act (ADeliver ch a) k) /\
    exists y', clientStep "1" (CThread 3 (up "")) (endOf (connecting ++ asking ++ answering)) = Some y'.
Proof.
  do 3 eexists. split; [vm_compute; reflexivity|].
  eapply (delivery_never_blocks sampleConfig sampleKeyPair true "1" 0 (connecting ++ asking ++ answering)).
  - apply callsOnly_answering.
  - by apply endOf_run.
  - vm_compute; reflexivity.
Defined.

(** ** Waiting for a receipt *)

(** The transaction that [SendSecpProtoTransactionWithNonce] signs. *)
Definition secpProtoTx `{EthLib} `{TxProto} `{Secp} (config : ClientConfig) (key to : bytes) (amount gas price : Z) (data : bytes) (nonce : Z) : Transaction :=
  let tx := SetType 255 (NewTransaction (PubkeyToAddress (pubkeyOf key)) to amount gas price 0 data [] zeroHash zeroHash nonce (cfgChainId config)) in
  if 0 <? price then SetGasFeeCap (Some price) tx else tx.

(** The calls of the client that wait for a receipt by a hash: what they match, and
    the hashes they may wait for.  A nonce or device keys fetched during the call
    are any; all the rest of the transaction is fixed by the arguments. *)
Definition awaits `{EthLib} `{TxProto} `{Blst} `{Secp} `{ClientCodec} `{EthTypes} `{!EthWallet} (config : ClientConfig) (keyPair : KeyPair)
    (c : Call) (mt : receiptMatchType) (h : bytes) : Prop :=
  let numbered f to n d l g p t x k k' := txHash (signed keyPair (NewTransaction f to n g p t d l k k' x (cfgChainId config))) in
  let unnumbered f to n d l g p t :=
    txHash (signed keyPair (NewTransactionWithoutNonce f to n g p t d l zeroHash zeroHash (cfgChainId config))) in
  let secp k to n g p d x := exists tx, SignSecpProto k (secpProtoTx config k to n g p d x) = (Ok tt, tx) /\ h = txHash tx in
  let bls k pk c := exists id ethTx t, bigSetString c = Some id /\ CreateSignedSetBLSPublicKeyTx k pk id = Ok ethTx /\
    NewTransactionFromEth ethTx = Ok t /\ h = txHash (signed keyPair (signed keyPair t)) in
  match c with
  | CallFindReceipt h' mt' => mt = mt' /\ h = h'
  | CallSendTransaction f to n d l g p t x => mt = matchByTxHash /\ h = numbered f to n d l g p t x zeroHash zeroHash
  | CallReadTransaction f to n d l g p t => mt = matchByTxHash /\ exists x, h = numbered f to n d l g p t x zeroHash zeroHash
  | CallReadTransactionWithoutNonce f to n d l g p t => mt = matchByReceiptHash /\ h = unnumbered f to n d l g p t
  | CallEstimateGas f to n d l g p t => mt = matchByTxHash /\ h = unnumbered f to n d l g p t
  | CallSendTransactionWithDeviceKey f to n d l g p t => mt = matchByTxHash /\ exists x k k', h = numbered f to n d l g p t x k k'
  | CallSendTransactionWithFullInfo f to n g fee t d l k k' => mt = matchByTxHash /\ exists x, h = numbered f to n d l g fee t x k k'
  | CallSendSecpProtoTransaction k to n g p d => mt = matchByTxHash /\ exists x, secp k to n g p d x
  | CallSendSecpProtoTransactionWithNonce k to n g p d x => mt = matchByTxHash /\ secp k to n g p d x
  | CallRegisterBls k pk c => mt = matchByTxHash /\ bls k pk c
  | CallAddAccount k c => mt = matchByTxHash /\ bls k (EncodeToString (publicKey keyPair)) c
  | _ => False
  end.

(** These calls. *)
Definition waitsForReceipt (c : Call) : bool :=
  match c with
  | CallFindReceipt _ _ | CallSendTransaction _ _ _ _ _ _ _ _ _ | CallReadTransaction _ _ _ _ _ _ _ _
  | CallReadTransactionWithoutNonce _ _ _ _ _ _ _ _ | CallEstimateGas _ _ _ _ _ _ _ _
  | CallSendTransactionWithDeviceKey _ _ _ _ _ _ _ _ | CallSendTransactionWithFullInfo _ _ _ _ _ _ _ _ _ _
  | CallSendSecpProtoTransaction _ _ _ _ _ _ | CallSendSecpProtoTransactionWithNonce _ _ _ _ _ _ _
  | CallRegisterBls _ _ _ | CallAddAccount _ _ => true
  | _ => false
  end.

(** A send returns the transaction it was given. *)
Lemma wp_sendTx `{EthLib} `{TxProto} R cmd t : wp R (sendTx cmd t) (fun o => forall t', o = Ok t' -> t' = t).
Proof.
  unfold sendTx. apply wp_try; [done|done|]. cbn. destruct (Transaction.Marshal t); [|done..]. cbn.
  intros p _ [e|] _; cbn; [done|by intros t' [= <-]].
Qed.

Lemma wp_returning {A} `{EthLib} R (p : prog A) (f : A -> Value) (Q : Value -> Prop) :
  wp R p (fun a => Q (f a)) -> wp R (returning f p) Q.
Proof. intros Hp. apply wp_bind. exact Hp. Qed.

Section Awaiting.
Context `{EthLib} `{StateProto} `{ReceiptProto} `{ScProto} `{TxProto} `{Blst} `{BlstKeys} `{Secp} `{ErrorProto} `{HandlerProto}
  `{ClientCodec} `{EthTypes} `{!EthWallet}.
Context (config : ClientConfig) (keyPair : KeyPair) (ready : bool).

(** A receipt of one of the given hashes. *)
Definition owned (B : receiptMatchType -> bytes -> Prop) (o : outcome Receipt) : Prop :=
  match o with Ok r => exists mt h, B mt h /\ matches mt h r | _ => True end.

(** Nothing is needed of the first program. *)
Lemma wp_try_any {A B} R (p : prog (outcome A)) (f : A -> prog (outcome B)) (Q : outcome B -> Prop) :
  (forall e, Q (Err e)) -> Q NoFuel -> (forall a, wp R (f a) Q) -> wp R (progTry p f) Q.
Proof.
  intros He Hn Hf. apply wp_try; [done..|]. eapply wp_mono; [apply regs_le_refl| |apply wp_any]. intros [a|e| |] _; [apply Hf|done..].
Qed.

Lemma wp_then {A B} R (p : prog A) (f : A -> prog B) (Q : B -> Prop) : (forall a, wp R (f a) Q) -> wp R (progBind p f) Q.
Proof. intros Hf. apply wp_bind. eapply wp_mono; [apply regs_le_refl| |apply wp_any]. intros a _. apply Hf. Qed.

Lemma wp_owned (R : regs) (B : receiptMatchType -> bytes -> Prop) mt h timed : B mt h -> wp R (waitReceipt h mt timed) (owned B).
Proof. intros Hb. eapply wp_mono; [apply regs_le_refl| |apply wp_waitReceipt]. intros [r|e| |] Hr; [by exists mt, h|done..]. Qed.

(** Sending a transaction and waiting for it. *)
Lemma wp_sendAwait (R : regs) (B : receiptMatchType -> bytes -> Prop) cmd t mt : B mt (txHash t) ->
  wp R (progTry (sendTx cmd t) (fun tx => waitReceipt (txHash tx) mt true)) (owned B).
Proof.
  intros Hb. apply wp_try; [done..|]. eapply wp_mono; [apply regs_le_refl| |apply wp_sendTx]. intros [t'|e| |] Ht; [|done..].
  rewrite (Ht t' eq_refl). by apply wp_owned.
Qed.

Lemma wp_sendDeviceTx (R : regs) t k : wp R (sendDeviceTx t k) (fun o => forall t', o = Ok t' -> t' = t).
Proof.
  unfold sendDeviceTx, encoded. destruct (marshalDeviceTx _); [|done]. cbn. intros p _ [e|] _; cbn; [done|by intros t' [= <-]].
Qed.

Lemma wp_whenReady {A} (R : regs) (p : prog (outcome A)) (Q : outcome A -> Prop) :
  (forall e, Q (Err e)) -> wp R p Q -> wp R (whenReady ready p) Q.
Proof. intros He Hp. unfold whenReady. destruct ready; [done|]. apply He. Qed.

Lemma wp_SendTransaction (R : regs) (B : receiptMatchType -> bytes -> Prop) f to n d l g p t x :
  B matchByTxHash (txHash (signed keyPair (NewTransaction f to n g p t d l zeroHash zeroHash x (cfgChainId config)))) ->
  wp R (SendTransaction config keyPair ready f to n d l g p t x) (owned B).
Proof. intros Hb. apply wp_whenReady; [done|]. apply wp_try_any; [done..|]. intros _. by apply wp_sendAwait. Qed.

Lemma wp_EstimateGas (R : regs) (B : receiptMatchType -> bytes -> Prop) f to n d l g p t :
  B matchByTxHash (txHash (signed keyPair (NewTransactionWithoutNonce f to n g p t d l zeroHash zeroHash (cfgChainId config)))) ->
  wp R (EstimateGas config keyPair ready f to n d l g p t) (owned B).
Proof. intros Hb. apply wp_whenReady; [done|]. apply wp_try_any; [done..|]. intros _. by apply wp_sendAwait. Qed.

Lemma wp_ReadTransaction (R : regs) (B : receiptMatchType -> bytes -> Prop) f to n d l g p t :
  (forall x, B matchByTxHash (txHash (signed keyPair (NewTransaction f to n g p t d l zeroHash zeroHash x (cfgChainId config))))) ->
  wp R (ReadTransaction config keyPair ready f to n d l g p t) (owned B).
Proof.
  intros Hb. apply wp_whenReady; [done|]. apply wp_then. intros c. apply wp_try_any; [done..|]. intros _. do 3 (apply wp_then; intros ?).
  do 2 (apply wp_try_any; [done..|]; intros ?). by apply wp_sendAwait.
Qed.

Lemma wp_ReadTransactionWithoutNonce (R : regs) (B : receiptMatchType -> bytes -> Prop) f to n d l g p t :
  B matchByReceiptHash (txHash (signed keyPair (NewTransactionWithoutNonce f to n g p t d l zeroHash zeroHash (cfgChainId config)))) ->
  wp R (ReadTransactionWithoutNonce config keyPair ready f to n d l g p t) (owned B).
Proof.
  intros Hb. apply wp_whenReady; [done|]. apply wp_then. intros c. apply wp_try_any; [done..|]. intros _. do 2 (apply wp_then; intros ?).
  by apply wp_sendAwait.
Qed.

Lemma wp_deviceKey (R : regs) (B : receiptMatchType -> bytes -> Prop) f to n d l g p t :
  (forall x k k', B matchByTxHash (txHash (signed keyPair (NewTransaction f to n g p t d l k k' x (cfgChainId config))))) ->
  wp R (SendTransactionWithDeviceKey config keyPair f to n d l g p t) (owned B).
Proof.
  intros Hb. apply wp_try_any; [done..|]. intros (a & [last raw] & new). apply wp_try; [done..|].
  eapply wp_mono; [apply regs_le_refl| |apply wp_sendDeviceTx]. intros [t'|e| |] Ht; [|done..]. rewrite (Ht t' eq_refl). by apply wp_owned.
Qed.

Lemma wp_fullInfo (R : regs) (B : receiptMatchType -> bytes -> Prop) f to n g fee t d l k k' :
  (forall x, B matchByTxHash (txHash (signed keyPair (NewTransaction f to n g fee t d l k k' x (cfgChainId config))))) ->
  wp R (SendTransactionWithFullInfo config keyPair f to n g fee t d l k k') (owned B).
Proof.
  intros Hb. apply wp_then. intros c. apply wp_try_any; [done..|]. intros _. apply wp_then. intros _. apply wp_then. intros a.
  apply wp_try; [done..|]. eapply wp_mono; [apply regs_le_refl| |apply wp_sendTx]. intros [t'|e| |] Ht; [|done..].
  rewrite (Ht t' eq_refl). by apply wp_owned.
Qed.

Lemma wp_secpProto (R : regs) (B : receiptMatchType -> bytes -> Prop) k to n g p d x :
  (forall tx, SignSecpProto k (secpProtoTx config k to n g p d x) = (Ok tt, tx) -> B matchByTxHash (txHash tx)) ->
  wp R (SendSecpProtoTransactionWithNonce config keyPair ready k to n g p d x) (fun o => owned B (receiptOfPair o)).
Proof.
  intros Hb. apply wp_whenReady; [done|]. apply wp_try_any; [done..|]. intros c. cbv zeta. unfold secpProtoTx in Hb. cbv zeta in Hb.
  destruct (SignSecpProto _ _) as [[[]|e| |] tx] eqn:Es; [|done..]. apply wp_try_any; [done..|]. intros b. apply wp_then. intros [e|]; [done|].
  apply wp_try; [done..|]. eapply wp_mono; [apply regs_le_refl| |apply (wp_owned R B matchByTxHash), (Hb tx eq_refl)]. intros [r|e| |] Hr; done.
Qed.

Lemma wp_bls (R : regs) (B : receiptMatchType -> bytes -> Prop) k pk c :
  (forall id ethTx t, bigSetString c = Some id -> CreateSignedSetBLSPublicKeyTx k pk id = Ok ethTx -> NewTransactionFromEth ethTx = Ok t ->
     B matchByTxHash (txHash (signed keyPair (signed keyPair t)))) ->
  wp R (RegisterBlsForAccount config keyPair k pk c) (owned B).
Proof.
  intros Hb. apply wp_try; [done..|].
  eapply wp_mono; [apply regs_le_refl| |apply (wp_mono (buildBlsTx config keyPair k pk c) R R
    (fun o => match o with Ok t => B matchByTxHash (txHash (signed keyPair t)) | _ => True end) _ (regs_le_refl R) (fun _ x => x))].
  - intros [t|e| |] Ht; [|done..]. by apply wp_sendAwait.
  - unfold buildBlsTx. destruct (bigSetString c) as [id|] eqn:Ei; [|done]. apply wp_try; [done..|]. cbn [wp].
    destruct (CreateSignedSetBLSPublicKeyTx k pk id) as [ethTx|e| |] eqn:Ee; [|done..]. apply wp_try_any; [done..|]. intros _.
    destruct (Sender _ ethTx); [|done]. apply wp_try; [done..|]. cbn [wp].
    destruct (NewTransactionFromEth ethTx) as [t|e| |] eqn:Et; [|done..]. by eapply Hb.
Qed.

Lemma awaits_wp (R : regs) c : waitsForReceipt c = true ->
  wp R (callProg config keyPair ready c) (fun v => match v with VReceipt o => owned (awaits config keyPair c) o | _ => True end).
Proof.
  intros Hc. destruct c; try done; cbn [callProg]; apply wp_returning; cbv beta iota.
  - by apply wp_owned.
  - apply wp_try_any; [done..|]. intros a. apply (wp_secpProto R). intros tx Hs. split; [done|]. eauto.
  - apply (wp_secpProto R). intros tx Hs. split; [done|]. eauto.
  - by apply wp_SendTransaction.
  - apply wp_ReadTransaction. intros x. split; [done|]. eauto.
  - by apply wp_ReadTransactionWithoutNonce.
  - by apply wp_EstimateGas.
  - apply wp_deviceKey. intros x k1 k2. split; [done|]. eauto.
  - apply wp_fullInfo. intros x. split; [done|]. eauto.
  - apply wp_bls. intros id ethTx t Hi He Ht. split; [done|]. eauto 8.
  - apply wp_bls. intros id ethTx t Hi He Ht. split; [done|]. eauto 8.
Qed.
End Awaiting.

(** C7 (safety). A call of the client that waits for a receipt by a hash
    returns only a receipt that matches it, whatever else the client does
    meanwhile: [FindReceiptByHashWithType] one that matches the hash it was given,
    and [SendTransaction], [ReadTransaction], [ReadTransactionWithoutNonce],
    [EstimateGas], [SendTransactionWithDeviceKey], [SendTransactionWithFullInfo],
    [SendSecpProtoTransaction], [SendSecpProtoTransactionWithNonce],
    [RegisterBlsForAccount] and [AddAccountForClient] one that matches the hash of a
    transaction with the arguments of this call (and any nonce or device keys, where
    the call fetches them), signed with the key of the call. *)
Theorem receipt_for_own_transaction `{EthLib} `{StateProto} `{ReceiptProto} `{ScProto} `{TxProto} `{Blst} `{BlstKeys} `{Secp} `{ErrorProto}
    `{HandlerProto} `{ClientCodec} `{EthTypes} `{!EthWallet} config keyPair ready version now es0 y0 c es y r :
  waitsForReceipt c = true ->
  clientRun version es0 (mkSystem (newClientState now) []) = Some y0 ->
  clientRun version (start config keyPair ready c :: es) y0 = Some y ->
  threads y !! length (threads y0) = Some (Ret (VReceipt (Ok r))) ->
  exists mt h, awaits config keyPair c mt h /\ matches mt h r.
Proof.
  intros Hc Hr0 Hr Hv.
  apply (call_post version now es0 y0 (callProg config keyPair ready c)
           (fun v => match v with VReceipt o => owned (awaits config keyPair c) o | _ => True end) es y (VReceipt (Ok r)) Hr0); [|exact Hr|done].
  intros R. by apply awaits_wp.
Qed.

Definition sampleSend : Call := CallSendTransaction (replicate 20 1) (replicate 20 2) 5 [] [] 21000 1 0 3.
Definition sampleHash : bytes :=
  txHash (signed sampleKeyPair (NewTransaction (replicate 20 1) (replicate 20 2) 5 21000 1 0 [] [] zeroHash zeroHash 3 (cfgChainId sampleConfig))).
Definition sampleReceipt : Receipt := NewReceipt sampleHash (replicate 20 1) (replicate 20 2) 5 0 [] 0 1 21000 [] 0 [] 7.
Definition sendAndAnswer : list ClientEvent :=
  steps 6 2 (up "8") ++ startS (incoming Command.Receipt "" (receiptBytes sampleReceipt)) :: steps 3 3 (up "") ++
  [CRouter] ++ steps 1 2 (up "").

Lemma receipt_for_own_transaction_witness :
  threads (endOf (connecting ++ startS sampleSend :: sendAndAnswer)) !! 2%nat = Some (Ret (VReceipt (Ok sampleReceipt))) /\
  exists mt h, awaits sampleConfig sampleKeyPair sampleSend mt h /\ matches mt h sampleReceipt.
Proof.
  assert (Hv : threads (endOf (connecting ++ startS sampleSend :: sendAndAnswer)) !! 2%nat =
    Some (Ret (VReceipt (Ok sampleReceipt)))) by (vm_compute; reflexivity).
  split; [exact Hv|].
  apply (receipt_for_own_transaction sampleConfig sampleKeyPair true "1" 0 connecting (endOf connecting) sampleSend
    sendAndAnswer (endOf (connecting ++ startS sampleSend :: sendAndAnswer))).
  - reflexivity.
  - by apply endOf_run.
  - vm_compute; reflexivity.
  - exact Hv.
Defined.
