(* ===== verification/ClientHazards.v ===== *)
(** * The TCP client: what its shared channels do not promise

    The account channel and the error channel are shared by all calls, and the
    acknowledgement of a registration leaves its request in the table: what calls
    can lose, or get in place of their own answer. *)

From S2P Require Import Prelude Binary TrieEncoding TrieNode Instances AccountState AccountTheorems Receipts SmartContract SmartContractTheorems Transaction EthTransaction TxInstances TransactionTheorems.
From S2P Require Import Message Connections ReceiptRouter TransactionError BlsKeys ClientProg ClientHandler ClientRequests ClientTransactions TxHelper ClientDiscipline ClientInvariant ClientReceipts ClientInstances ClientTheorems.

Local Open Scope Z_scope.

(** One step of a thread, by its program. *)
Lemma thread_step `{EthLib} version i o y (t t' : Thread) s' :
  threads y !! i = Some t -> threadStep version o t (client y) = Some (s', t', []) ->
  clientStep version (CThread i o) y = Some (mkSystem s' (<[i := t']> (threads y))).
Proof. intros Hi Ht. unfold clientStep. rewrite Hi. cbn [mbind option_bind]. rewrite Ht. cbn. by rewrite app_nil_r. Qed.

(** ** Errors *)

(** An error can be taken by a call it is not for: when the
    error of a transaction is in the shared channel and a call that waits for
    another transaction takes it, that call waits on as before and the error is
    gone, so that no other call can receive it. *)
Theorem error_stolen `{EthLib} version y i ch h e q o :
  threads y !! i = Some (returning VReceipt (waitLoop ch h)) ->
  transactionErrorChan (inboxes (client y)) = e :: q ->
  BytesToHash (theHash e) <> h ->
  oExpired o = false -> oReady o = true ->
  exists y', clientRun version [CThread i o; CThread i o] y = Some y' /\
    threads y' = threads y /\
    transactionErrorChan (inboxes (client y')) = q /\
    waits (client y') = waits (client y).
Proof.
  intros Hi He Hh Hx Hr. set (w := returning VReceipt (waitLoop ch h)) in *.
  cbn [clientRun]. erewrite thread_step by (exact Hi || reflexivity). cbn [mbind option_bind].
  erewrite thread_step; [| |].
  2:{ cbn [threads]. apply list_lookup_insert_eq. by eapply lookup_lt_Some. }
  2:{ cbn [threadStep progBind act doAction client mbind option_bind]. rewrite Hx, Hr, He. cbn [andb]. cbn [mbind option_bind fst snd progBind].
      rewrite bool_decide_eq_false_2 by done. reflexivity. }
  cbn [mbind option_bind]. eexists. split; [reflexivity|]. cbn [threads client inboxes waits setInboxes transactionErrorChan].
  split; [|done]. rewrite list_insert_insert_eq. by apply list_insert_id.
Qed.

(** Two calls wait for the receipts of [hash1] and [hash2]; the error of [hash2]
    has come in. *)
Definition twoWaiting : list ClientEvent :=
  connecting ++ startS (CallFindReceipt hash1 matchByTxHash) :: steps 1 2 (up "") ++
  startS (CallFindReceipt hash2 matchByTxHash) :: steps 1 3 (up "") ++
  startS (incoming Command.TransactionError "" (default [] (marshalHashError (mkPbHashError hash2 5 "rejected" [])))) ::
  steps 2 4 (up "").

Lemma error_stolen_witness : exists y', clientRun "1" [CThread 2 other; CThread 2 other] (endOf twoWaiting) = Some y' /\
  threads y' = threads (endOf twoWaiting) /\ transactionErrorChan (inboxes (client y')) = [] /\
  waits (client y') = waits (client (endOf twoWaiting)).
Proof.
  apply (error_stolen "1" (endOf twoWaiting) 2 1 hash1 (mkHashError hash2 5 "rejected" []) [] other);
    [vm_compute; reflexivity..|vm_compute; discriminate|done|done].
Defined.

(** ** Accounts *)

(** [AccountState] returns the account that is first in the
    shared channel, whichever address it was asked for, and it drops the error of
    the request: without a parent connection nothing is sent, and with no account in
    the channel the call waits. *)
Theorem account_state_any `{EthLib} `{StateProto} `{ReceiptProto} `{ScProto} `{TxProto} `{Blst} `{BlstKeys} `{Secp} `{ErrorProto}
    `{HandlerProto} `{ClientCodec} `{EthTypes} `{!EthWallet} config keyPair version y i addr o1 o2 o3 :
  threads y !! i = Some (callProg config keyPair true (CallAccountState addr)) ->
  exists y', clientRun version [CThread i o1; CThread i o2] y = Some y' /\
    (parent (net (client y)) = None -> net (client y') = net (client y)) /\
    match accountStateChan (inboxes (client y)) with
    | [] => clientStep version (CThread i o3) y' = None
    | a :: _ => exists y'', clientStep version (CThread i o3) y' = Some y'' /\ threads y'' !! i = Some (Ret (VAccount (Ok a)))
    end.
Proof.
  intros Hi. pose proof (lookup_lt_Some _ _ _ Hi) as Hl. cbn [clientRun]. erewrite thread_step by (exact Hi || reflexivity). cbn [mbind option_bind].
  set (p := parent (net (client y))).
  destruct (Sender_SendBytes (NewMessageSender version) (oId o2) (connOps o2 <$> p) Command.GetAccountState addr (net (client y)))
    as [x n] eqn:Er.
  erewrite thread_step; [| |].
  2:{ cbn [threads]. by apply list_lookup_insert_eq. }
  2:{ cbn [threadStep progBind act doAction client mbind option_bind fst snd]. fold p. rewrite Er. reflexivity. }
  cbn [mbind option_bind threads]. rewrite list_insert_insert_eq. eexists. split; [reflexivity|]. cbn [client net setNet]. split.
  { intros Hp. subst p. rewrite Hp in Er. by injection Er. }
  destruct (accountStateChan _) as [|a q] eqn:Ea.
  - unfold clientStep. cbn [threads client]. rewrite list_lookup_insert_eq by done.
    cbn [mbind option_bind threadStep progBind act doAction client setNet inboxes]. by rewrite Ea.
  - eexists. split; [eapply thread_step with (t' := Ret (VAccount (Ok a)))|].
    + cbn [threads]. by apply list_lookup_insert_eq.
    + cbn [threadStep progBind act doAction client setNet inboxes]. by rewrite Ea.
    + cbn [threads]. apply list_lookup_insert_eq. by rewrite length_insert.
Qed.

(** The account of another address answers the call. *)
Definition otherAccount : list ClientEvent :=
  connecting ++ startS (incoming Command.AccountState "" (AccountState.Marshal sampleAccount)) :: steps 2 2 (up "") ++
  [startS (CallAccountState (replicate 20 2))].

Definition received : AccountState.AccountState :=
  match decodeAccount (AccountState.Marshal sampleAccount) with Ok a => a | _ => zeroAccount end.

Lemma account_state_any_witness : address received <> replicate 20 2 /\
  exists y', clientRun "1" [CThread 3 (up ""); CThread 3 (up "")] (endOf otherAccount) = Some y' /\
  exists y'', clientStep "1" (CThread 3 (up "")) y' = Some y'' /\ threads y'' !! 3%nat = Some (Ret (VAccount (Ok received))).
Proof.
  split; [vm_compute; discriminate|].
  destruct (account_state_any sampleConfig sampleKeyPair "1" (endOf otherAccount) 3 (replicate 20 2) (up "") (up "") (up ""))
    as (y' & Hr & _ & Hy).
  - vm_compute; reflexivity.
  - exists y'. split; [exact Hr|].
    replace (accountStateChan (inboxes (client (endOf otherAccount)))) with [received] in Hy by (vm_compute; reflexivity).
    exact Hy.
Defined.

(** ** Acknowledgements *)

(** A registration is asked for, three acknowledgements come in before the first
    is read, and the registration runs into its timeout. *)
Definition ackBody : bytes := bytesOfString "PENDING".
Definition threeAcks : list ClientEvent :=
  connecting ++ startS (CallChainRegisterAccountWait (replicate 20 2) (replicate 65 3)) :: steps 6 2 (up "9") ++
  startS (incoming Command.RegisterAccountAck "9" ackBody) :: steps 3 3 (up "") ++
  startS (incoming Command.RegisterAccountAck "9" ackBody) :: steps 3 4 (up "") ++
  startS (incoming Command.RegisterAccountAck "9" ackBody) :: steps 2 5 (up "") ++
  steps 2 2 timer.

(** An acknowledgement of a registration that comes in too often
    stops a worker of the handler: with two acknowledgements in the channel of the
    request, the third one's worker, which found the channel in the table, is still
    waiting for room when the caller has given up and nobody reads the channel any
    more.  Besides the keep-alive loop (thread 1), no thread can take a step. *)
Theorem ack_blocks_worker :
  let y := endOf threeAcks in
  clientRun "1" threeAcks freshClient = Some y /\
  (exists ch a k, threads y !! 5%nat = Some (Act (ADeliver ch a) k) /\ chainTable (requests (client y)) = ∅) /\
  threads y !! 2%nat = Some (Ret VDone) /\
  forall i o, i <> 1%nat -> clientStep "1" (CThread i o) y = None.
Proof.
  split_and!; [by apply endOf_run|do 3 eexists; split; vm_compute; reflexivity|vm_compute; reflexivity|].
  intros i o Hi. destruct i as [|[|i]]; [vm_compute; reflexivity|done|].
  do 4 (destruct i as [|i]; [vm_compute; reflexivity|]). vm_compute. by destruct i.
Qed.

(** ** Keep-alive *)

(** [Close] while the keep-alive loop handles a tick: the loop finds no channel in
    the field when it looks again, and its only step is the next tick. *)
Definition closeDuringTick : list ClientEvent :=
  connecting ++ steps 3 1 (up "") ++ startS CallClose :: steps 5 2 (up "") ++ steps 5 1 (up "").

Example close_misses_keepalive :
  let y := endOf closeDuringTick in
  clientRun "1" closeDuringTick freshClient = Some y /\
  threads y !! 2%nat = Some (Ret VDone) /\ serverStopped (life (client y)) = true /\
  (exists k, threads y !! 1%nat = Some (Act (ATick None) k)) /\
  forall o, oReady o = true -> clientStep "1" (CThread 1 o) y = None.
Proof.
  split_and!; [by apply endOf_run|vm_compute; reflexivity..|eexists; vm_compute; reflexivity|].
  intros [e err id ex re] Hr. cbn in Hr. subst re. vm_compute. reflexivity.
Qed.
