(* ===== verification/ClientSigned.v ===== *)
(** * The TCP client: what it puts on the wire

    [sends] states of a program that every message it sends satisfies a property
    of its command and body; [sent_run] carries this over to any interleaving of
    threads.  With it, every SendTransaction message of the client holds a
    transaction that the node's signature checks accept. *)

From S2P Require Import Prelude Binary TrieEncoding TrieNode Instances AccountState AccountTheorems Receipts SmartContract SmartContractTheorems Transaction EthTransaction TxInstances TransactionTheorems.
From S2P Require Import Message Connections ReceiptRouter TransactionError BlsKeys ClientProg ClientHandler ClientRequests ClientTransactions TxHelper ClientDiscipline ClientInstances ClientTheorems.

Local Open Scope Z_scope.

(** ** Programs and what they send *)

Section Sends.
Context (P : string -> bytes -> Prop).

Definition sendOk {X} (a : action X) : Prop :=
  match a with
  | ASend _ m => P (Msg_Command m) (Msg_Body m)
  | ASendBytes _ cmd b => P cmd b
  | _ => True
  end.

(** Every message sent satisfies [P], and the result satisfies [Q]. *)
Fixpoint sends {A} (p : prog A) (Q : A -> Prop) : Prop :=
  match p with
  | Ret a => Q a
  | Act a k => sendOk a /\ forall x, sends (k x) Q
  | Go q k => sends q (fun _ => True) /\ sends k Q
  | Iter body k => sends body (fun _ => True) /\ forall b, sends (k b) Q
  | Crash => True
  end.

Lemma sends_mono {A} (p : prog A) (Q Q' : A -> Prop) : (forall a, Q a -> Q' a) -> sends p Q -> sends p Q'.
Proof.
  revert Q Q'. induction p as [A a|A X a k IH|A q _ k IH|A C body _ k IH|A]; cbn; intros Q Q' HQ; [auto| | | |done].
  - intros [Ha Hk]. split; [done|]. intros x. by eapply IH.
  - intros [Hq Hk]. split; [done|]. by eapply IH.
  - intros [Hb Hk]. split; [done|]. intros b. by eapply IH.
Qed.

Lemma sends_bind {A B} (p : prog A) (f : A -> prog B) (Q : B -> Prop) :
  sends p (fun a => sends (f a) Q) -> sends (progBind p f) Q.
Proof.
  induction p as [A a|A X a k IH|A q _ k IH|A C body _ k IH|A]; cbn; [done| | | |done].
  - intros [Ha Hk]. split; [done|]. intros x. by apply IH.
  - intros [Hq Hk]. split; [done|]. by apply IH.
  - intros [Hb Hk]. split; [done|]. intros b. by apply IH.
Qed.

Lemma sends_then {A B} (p : prog A) (f : A -> prog B) (Q : B -> Prop) :
  sends p (fun _ => True) -> (forall a, sends (f a) Q) -> sends (progBind p f) Q.
Proof. intros Hp Hf. apply sends_bind. eapply sends_mono; [|exact Hp]. auto. Qed.

Lemma sends_try {A B} (p : prog (outcome A)) (f : A -> prog (outcome B)) (Q : outcome B -> Prop) :
  (forall e, Q (Err e)) -> Q NoFuel -> sends p (fun o => forall a, o = Ok a -> sends (f a) Q) -> sends (progTry p f) Q.
Proof. intros He Hn Hp. apply sends_bind. eapply sends_mono; [|exact Hp]. intros [a|e| |] Ha; cbn; auto. Qed.

Lemma sends_encoded {A B} (o : option A) (f : A -> prog (outcome B)) :
  (forall a, sends (f a) (fun _ => True)) -> sends (encoded o f) (fun _ => True).
Proof. intros Hf. by destruct o; [apply Hf|]. Qed.
Lemma sends_decoded {A B} (o : option A) (f : A -> prog (outcome B)) :
  (forall a, sends (f a) (fun _ => True)) -> sends (decoded o f) (fun _ => True).
Proof. intros Hf. by destruct o; [apply Hf|]. Qed.

(** ** Runs *)

Definition sentOk (s : ClientState) : Prop := Forall (fun cm => P (Msg_Command cm.2) (Msg_Body cm.2)) (sent (net s)).

Lemma doAction_sent `{EthLib} version {X} o (a : action X) s x s' :
  doAction version o a s = Some (x, s') -> sendOk a -> sentOk s -> sentOk s'.
Proof.
  intros Hd Ha Hs. assert (Hpush : forall c m, P (Msg_Command m) (Msg_Body m) -> sentOk (setNet (pushSent c m (net s)) s)).
  { intros c m Hm. unfold sentOk. cbn. apply Forall_app. by repeat constructor. }
  destruct a; cbn in Hd, Ha; try (repeat (case_match || simplify_option_eq); by try apply Hpush).
  unfold Sender_SendBytes, SendBytes in Hd. destruct c as [c|]; cbn in Hd; [destruct (oError o)|]; simplify_eq/=; try done.
  by apply Hpush.
Qed.

Abbreviation fine := (fun t : Thread => sends t (fun _ => True)).

Lemma threadStep_sent `{EthLib} version o t s s' t' new :
  threadStep version o t s = Some (s', t', new) -> sends t (fun _ => True) -> sentOk s ->
  sentOk s' /\ sends t' (fun _ => True) /\ Forall fine new.
Proof.
  destruct t as [v|X a k|q k|B body k|]; cbn; try done.
  - intros Ht [Ha Hk] Hs. destruct (doAction version o a s) as [[x s1]|] eqn:Ed; simplify_eq/=.
    split_and!; [by eapply doAction_sent|apply Hk|done].
  - intros [= <- <- <-] [Hq Hk] Hs. split_and!; [done..|]. repeat constructor. by apply sends_then.
  - intros [= <- <- <-] [Hb Hk] Hs. split_and!; [done| |done]. apply sends_then; [done|]. by intros [b|]; [apply Hk|].
Qed.

Lemma sent_step `{EthLib} version e y y' : clientStep version e y = Some y' ->
  (forall t, e = CCall t -> sends t (fun _ => True)) ->
  sentOk (client y) /\ Forall fine (threads y) -> sentOk (client y') /\ Forall fine (threads y').
Proof.
  intros Hstep He [Hs Ht]. destruct e as [i o|t| | |d]; unfold clientStep in Hstep.
  - destruct (threads y !! i) as [t|] eqn:Hi; [|done]. cbn [mbind option_bind] in Hstep.
    destruct (threadStep version o t (client y)) as [[[s' t'] new]|] eqn:Et; [|done]. injection Hstep as <-.
    destruct (threadStep_sent version o t _ _ _ _ Et (Forall_lookup_1 _ _ _ _ Ht Hi) Hs) as (Hs' & Ht' & Hn).
    split; [done|]. apply Forall_app_2; [by apply Forall_insert|done].
  - injection Hstep as <-. split; [done|]. apply Forall_app_2; [done|]. repeat constructor. by apply He.
  - case_match; [done|]. by injection Hstep as <-.
  - by injection Hstep as <-.
  - by injection Hstep as <-.
Qed.

Lemma sent_run `{EthLib} version es y y' : clientRun version es y = Some y' ->
  Forall (fun e => forall t, e = CCall t -> sends t (fun _ => True)) es ->
  sentOk (client y) /\ Forall fine (threads y) -> sentOk (client y') /\ Forall fine (threads y').
Proof.
  revert y. induction es as [|e es IH]; intros y; cbn [clientRun]; [by intros [= ->]|].
  destruct (clientStep version e y) as [y1|] eqn:E1; [|done]. cbn [mbind option_bind].
  intros Hr [He Hes]%Forall_cons Hy. eapply IH; [exact Hr|done|]. by eapply sent_step.
Qed.
End Sends.

(** ** Transactions on the wire *)

Section Accepted.
Context `{EthLibLaws} `{TxProtoLaws} `{SecpLaws} `{BlstLaws}.

Lemma hashOf_wire p : hashOf (hashData (wire p)) = hashOf (hashData p).
Proof. unfold hashOf. change (hashData (wire p)) with (wireHash (hashData p)). by rewrite hash_codec_wire. Qed.

Lemma signingHashOf_wire p : signingHashOf (wire p) = signingHashOf p.
Proof. unfold signingHashOf. change (signingData (wire p)) with (wireHash (signingData p)). by rewrite hash_codec_wire. Qed.

Lemma secp_accepts_wire p : secp_accepts p -> secp_accepts (wire p).
Proof. unfold secp_accepts. by rewrite signingHashOf_wire. Qed.

(** The bytes decode to a transaction with a valid signature: by the key of its
    sender (type 0xFF), or by the BLS key of the client. *)
Definition accepted (pk b : bytes) : Prop :=
  exists p, unmarshalTx b = Some p /\
    (pType p = 255 /\ (ValidSecpProtoSign (TransactionFromProto p)).1 = Ok true \/
     (ValidSign pk (TransactionFromProto p)).1 = Ok true).

Lemma marshal_wire t b : Transaction.Marshal t = Ok b -> unmarshalTx b = Some (wire (proto t)).
Proof. destruct (tx_codec (proto t)) as (b' & Em & Eu). unfold Transaction.Marshal. rewrite Em. by intros [= <-]. Qed.

Lemma signed_bls_accepted k t b : ValidateBlsPrivateKey k = true -> coherent t ->
  Transaction.Marshal (runTx (SetSign k) t) = Ok b -> accepted (blstPublic k) b.
Proof.
  intros Hk C Hb%marshal_wire. eexists. split; [exact Hb|]. right.
  rewrite ValidSign_spec by apply coherent_fresh. cbn [proto TransactionFromProto]. rewrite hashOf_wire. unfold runTx.
  destruct (SetSign_run k t C) as (_ & _ & Hs & Hh). rewrite Hh.
  change (Sign (TransactionFromProto (wire (proto (SetSign k t).2)))) with (Sign (SetSign k t).2). rewrite Hs.
  destruct (blsSign_verify k (hashOf (hashData (proto t))) Hk) as [Hv Hl]. unfold SignFromBytes. by rewrite arrayFromBytes_id, Hv.
Qed.

Lemma SignSecpProto_ok k t t' : SignSecpProto k t = (Ok tt, t') ->
  exists sig, cryptoSign (signingHashOf (set_pSign [] (set_pType 255 (proto t)))) k = Ok sig.
Proof.
  unfold SignSecpProto, modify, lift, mbind, stm_bind. simpl. set (t1 := ClearCacheHash _).
  destruct (SigningHash_spec t1 (coherent_clear _)) as (E & _ & _). destruct (SigningHash t1) as [r t2] eqn:Et. simpl in E. subst r.
  change (proto t1) with (set_pSign [] (set_pType 255 (proto t))). destruct (cryptoSign _ k) as [sig|e| |]; [eauto|done..].
Qed.

Lemma signed_secp_accepted pk k t t' b : pChainID (proto t) <> 0 -> FromAddress t = PubkeyToAddress (pubkeyOf k) ->
  SignSecpProto k t = (Ok tt, t') -> Transaction.Marshal t' = Ok b -> accepted pk b.
Proof.
  intros Hc Hf Hs Hb%marshal_wire. exists (wire (proto t')). split; [done|]. left.
  assert (Ha : secp_accepts (proto t')).
  { destruct (SignSecpProto_ok k t t' Hs) as [sig Es]. destruct (cryptoSign_ok _ _ _ Es) as (L & _).
    rewrite (SignSecpProto_run k t sig) in Hs by done. injection Hs as <-. by apply (signed_accepts k). }
  split; [by destruct Ha|].
  destruct (ValidSecpProtoSign_spec (TransactionFromProto (wire (proto t')))) as [[_ Hv]|[N _]]; [apply coherent_fresh|done|].
  destruct N. by apply secp_accepts_wire.
Qed.
End Accepted.

(** ** The calls *)

Create HintDb sends.

Lemma sends_try_any {A B} P (p : prog (outcome A)) (f : A -> prog (outcome B)) :
  sends P p (fun _ => True) -> (forall a, sends P (f a) (fun _ => True)) -> sends P (progTry p f) (fun _ => True).
Proof. intros Hp Hf. apply sends_then; [done|]. by intros [a|e| |]. Qed.

Lemma sends_act {X} P (a : action X) : sendOk P a -> sends P (act a) (fun _ => True).
Proof. done. Qed.

Lemma sends_iter {A B} P (body : prog (option B)) (k : B -> prog A) :
  sends P body (fun _ => True) -> (forall b, sends P (k b) (fun _ => True)) -> sends P (Iter body k) (fun _ => True).
Proof. done. Qed.

Lemma sends_go {A} P q (k : prog A) :
  sends P q (fun _ => True) -> sends P k (fun _ => True) -> sends P (Go q k) (fun _ => True).
Proof. done. Qed.

(** Follows the structure of a program; a message with a known other command is
    of no interest. *)
Ltac solve_sends :=
  repeat first
    [ progress intros
    | solve [auto with sends nocore]
    | match goal with
      | |- sends _ (Ret _) _ => exact I
      | |- sends _ Crash _ => exact I
      | |- sends _ (fail _) _ => exact I
      | |- sends _ (ok _) _ => exact I
      | |- sends _ (progTry _ _) _ => apply sends_try_any
      | |- sends _ (progBind _ _) _ => apply sends_then
      | |- sends _ (encoded _ _) _ => apply sends_encoded
      | |- sends _ (decoded _ _) _ => apply sends_decoded
      | |- sends _ (Iter _ _) _ => apply sends_iter
      | |- sends _ (Go _ _) _ => apply sends_go
      | |- sends _ (act _) _ => apply sends_act; solve [exact I | intros ?; discriminate | auto with sends nocore]
      | |- sends _ (match ?x with _ => _ end) _ => destruct x
      | |- sends _ (let '_ := ?x in _) _ => destruct x
      end ].

Section Calls.
Context `{EthLibLaws} `{StateProto} `{ReceiptProto} `{ScProto} `{TxProtoLaws} `{SecpLaws} `{BlstLaws} `{ErrorProto} `{HandlerProto}
  `{ClientCodec} `{EthTypes} `{!EthWallet}.
Context (config : ClientConfig) (keyPair : KeyPair) (ready : bool).
Context (Hkey : ValidateBlsPrivateKey (privateKey keyPair) = true) (Hpub : publicKey keyPair = blstPublic (privateKey keyPair))
  (Hchain : cfgChainId config <> 0).

Definition signedSend (cmd : string) (b : bytes) : Prop := cmd = Command.SendTransaction -> accepted (publicKey keyPair) b.

(** A signed transaction is sent as it is, and returned. *)
Lemma sendTx_sends cmd t : coherent t -> sends signedSend (sendTx cmd (signed keyPair t)) (fun _ => True).
Proof.
  intros C. unfold sendTx. apply sends_try; [done..|]. cbn [sends]. intros b Hb. cbn. split; [done|]. intros p. split; [|done].
  intros _. rewrite Hpub. by eapply signed_bls_accepted.
Qed.

Lemma sends_other cmd t : cmd <> Command.SendTransaction -> sends signedSend (sendTx cmd t) (fun _ => True).
Proof. intros Hc. unfold sendTx. solve_sends. apply sends_act. by intros ?. Qed.

Lemma isUp_sends p : sends signedSend (isUp p) (fun _ => True).
Proof. unfold isUp. solve_sends. Qed.
#[local] Hint Resolve isUp_sends : sends.
Lemma connectedParent_sends : sends signedSend connectedParent (fun _ => True).
Proof. unfold connectedParent. solve_sends. Qed.
Lemma OnConnect_sends c : sends signedSend (OnConnect keyPair c) (fun _ => True).
Proof. unfold OnConnect. solve_sends. Qed.
#[local] Hint Resolve connectedParent_sends OnConnect_sends : sends.
Lemma ReconnectToParent_sends : sends signedSend (ReconnectToParent config keyPair) (fun _ => True).
Proof. unfold ReconnectToParent. solve_sends. Qed.
#[local] Hint Resolve ReconnectToParent_sends : sends.
Lemma ensureUp_sends p : sends signedSend (ensureUp config keyPair p) (fun _ => True).
Proof. unfold ensureUp. solve_sends. Qed.
Lemma parentUp_sends : sends signedSend (parentUp config keyPair) (fun _ => True).
Proof. unfold parentUp. solve_sends. Qed.
#[local] Hint Resolve ensureUp_sends parentUp_sends : sends.
Lemma ensureParent_sends : sends signedSend (ensureParent config keyPair) (fun _ => True).
Proof. unfold ensureParent. solve_sends. Qed.
#[local] Hint Resolve ensureParent_sends : sends.

(** A request has the command of its message. *)
Lemma sendChainRequest_sends cmd b : cmd <> Command.SendTransaction ->
  sends signedSend (sendChainRequest cmd b) (fun _ => True).
Proof. intros Hc. unfold sendChainRequest. solve_sends. all: apply sends_act; by intros ?. Qed.
Lemma sendRpcRequest_sends cmd b : cmd <> Command.SendTransaction ->
  sends signedSend (sendRpcRequest config cmd b) (fun _ => True).
Proof. intros Hc. unfold sendRpcRequest. solve_sends. all: apply sends_act; by intros ?. Qed.
Lemma rpcCall_sends cmd b : cmd <> Command.SendTransaction -> sends signedSend (rpcCall config cmd b) (fun _ => True).
Proof. intros Hc. unfold rpcCall. apply sends_try_any; [by apply sendRpcRequest_sends|]. solve_sends. Qed.
#[local] Hint Extern 1 (sends _ (sendTx _ _) _) => apply sends_other; discriminate : sends.
#[local] Hint Extern 1 (sends _ (sendChainRequest _ _) _) => apply sendChainRequest_sends; discriminate : sends.
#[local] Hint Extern 1 (sends _ (rpcCall _ _ _) _) => apply rpcCall_sends; discriminate : sends.

Lemma txErrorText_sends (A : Type) m : sends signedSend (txErrorText (A := A) m) (fun _ => True).
Proof. unfold txErrorText. solve_sends. Qed.
Lemma ChainGetNonce_sends a : sends signedSend (ChainGetNonce a) (fun _ => True).
Proof. unfold ChainGetNonce. solve_sends. Qed.
Lemma waitReceipt_sends h mt timed : sends signedSend (waitReceipt h mt timed) (fun _ => True).
Proof. unfold waitReceipt, waitLoop. solve_sends. Qed.
Lemma sendDeviceTx_sends t k : sends signedSend (sendDeviceTx t k) (fun _ => True).
Proof. unfold sendDeviceTx. solve_sends. Qed.
#[local] Hint Resolve txErrorText_sends ChainGetNonce_sends waitReceipt_sends sendDeviceTx_sends : sends.
Lemma load_sends n : sends signedSend (LoadTransactionWithDeviceKeyFromFile n) (fun _ => True).
Proof. unfold LoadTransactionWithDeviceKeyFromFile. solve_sends. Qed.
#[local] Hint Resolve load_sends : sends.
Lemma sendFiles_sends c l : sends signedSend (sendFiles c l) (fun _ => True).
Proof. induction l; cbn [sendFiles]; unfold LoadedTransactionWithDeviceKeyFromFile; solve_sends. Qed.
Lemma loadFiles_sends l : sends signedSend (loadFiles l) (fun _ => True).
Proof. induction l; cbn [loadFiles]; solve_sends. Qed.
Lemma openClientConn_sends : sends signedSend openClientConn (fun _ => True).
Proof. unfold openClientConn. solve_sends. Qed.
Lemma deviceKeys_sends a : sends signedSend (deviceKeys config keyPair a) (fun _ => True).
Proof. unfold deviceKeys, accountFor. solve_sends. Qed.
Lemma sendSubscriptions_sends c l : sends signedSend (sendSubscriptions c l) (fun _ => True).
Proof. induction l; cbn [sendSubscriptions]; solve_sends. Qed.
Lemma subscribeParent_sends l : sends signedSend (subscribeParent l) (fun _ => True).
Proof. induction l; cbn [subscribeParent]; solve_sends. Qed.
#[local] Hint Resolve sendFiles_sends loadFiles_sends openClientConn_sends deviceKeys_sends sendSubscriptions_sends subscribeParent_sends : sends.
Lemma reSubscribe_sends : sends signedSend reSubscribeToAddresses (fun _ => True).
Proof. unfold reSubscribeToAddresses. solve_sends. Qed.
#[local] Hint Resolve reSubscribe_sends : sends.

(** The transactions that are sent. *)
Lemma TC_SendTransaction_sends f to n g fee t d l k k' x :
  sends signedSend (TC_SendTransaction keyPair f to n g fee t d l k k' x (cfgChainId config)) (fun _ => True).
Proof. apply sendTx_sends, coherent_fresh. Qed.

Lemma buildBlsTx_sends k pk c :
  sends signedSend (buildBlsTx config keyPair k pk c) (fun o => forall t, o = Ok t -> coherent t).
Proof.
  unfold buildBlsTx. destruct (bigSetString c) as [z|]; [|done]. apply sends_try; [done..|]. cbn [sends]. intros tx _.
  apply sends_try; [done..|]. eapply sends_mono; [|apply ensureParent_sends]. intros _ _ _ _.
  destruct (Sender _ tx); [|done]. apply sends_try; [done..|]. cbn [sends]. intros t Ht t' [= <-]. apply SetSign_run.
  unfold NewTransactionFromEth in Ht. destruct (FromEthTransaction _ _) as [[] ?]; simplify_eq. apply coherent_fresh.
Qed.

Lemma sendBlsTx_sends {A} k pk c (f : Transaction -> prog (outcome A)) :
  (forall tx, sends signedSend (f tx) (fun _ => True)) ->
  sends signedSend (progTry (buildBlsTx config keyPair k pk c) (fun t => progTry (SendNewTransaction keyPair t) f)) (fun _ => True).
Proof.
  intros Hf. apply sends_try; [done..|]. eapply sends_mono; [|apply buildBlsTx_sends]. intros o Ho t ->.
  apply sends_try_any; [by apply sendTx_sends, Ho|done].
Qed.

Lemma secp_sends k to n g p d x :
  sends signedSend (SendSecpProtoTransactionWithNonce config keyPair ready k to n g p d x) (fun _ => True).
Proof.
  unfold SendSecpProtoTransactionWithNonce, whenReady. destruct ready; [|done]. apply sends_try_any; [apply parentUp_sends|]. intros pc.
  set (tx := if 0 <? p then _ else _). assert (Hc : pChainID (proto tx) = cfgChainId config) by (unfold tx; by destruct (0 <? p)).
  assert (Hf : FromAddress tx = PubkeyToAddress (pubkeyOf k)).
  { unfold tx, FromAddress. destruct (0 <? p); apply BytesToAddress_id, PubkeyToAddress_len. }
  cbv zeta. fold tx. destruct (SignSecpProto k tx) as [[[]|e| |] t'] eqn:Es; [|done..].
  apply sends_try; [done..|]. cbn [sends]. intros b Hb. apply sends_then; [|solve_sends].
  apply sends_act. intros _. by eapply (signed_secp_accepted _ k tx); [rewrite Hc|..].
Qed.
#[local] Hint Resolve TC_SendTransaction_sends secp_sends : sends.

Lemma handler_sends r : sends signedSend (HandleRequest r) (fun _ => True).
Proof.
  unfold HandleRequest, handleInitConnection, handleAccountState, handleTransactionError, handleReceipt, handleDeviceKey,
    handleEventLogs, handleStats, handleRpcEvent, handleRpcResponse, handleChainResponse, answerOr. solve_sends.
Qed.

Lemma tps_sends r : sends signedSend (Tps_HandleRequest r) (fun _ => True).
Proof. unfold Tps_HandleRequest, handleInitConnection, Tps_handleAccountState, Tps_handleReceipt. solve_sends. Qed.
#[local] Hint Resolve handler_sends tps_sends : sends.

(** [RpcCustomCall] sends whatever command it is given. *)
Definition ownCommand (c : Call) : Prop := match c with CallRpcCustomCall m _ => m <> Command.SendTransaction | _ => True end.

Lemma calls_send c : ownCommand c -> sends signedSend (callProg config keyPair ready c) (fun _ => True).
Proof.
  intros Hc. destruct c; cbn [callProg]; unfold done, returning; (apply sends_then; [|done]).
  all: try (by apply rpcCall_sends).
  all: unfold AddAccountForClient, RegisterBlsForAccount, RegisterBlsForAccountAsync; try (apply sendBlsTx_sends; solve_sends).
  all: unfold Helper_SendReadTransactionWithoutNonce, Helper_SendEstimateGas, Helper_SendReadTransaction, Helper_SendTransaction,
    SendSecpTransaction, SendTransactionAsync, SendTransactionNoneKey, withArguments, checkStatus.
  all: unfold NewClient, connectLoop, startKeepAliveLoop, keepAlive, RetryConnectToStorage, IsParentConnected, handleParentDisconnectWithResubscribe, Close, GetAccountState,
    ChainGetChainId, ChainGetBlockNumber, ChainGetTransactionReceipt, SendRawEthTransaction, ChainGetLogs,
    ChainGetRegistrationMessage, ChainGetRegistrationStatus, ChainRegisterAccountWait, ChainCall, ChainEstimateGas,
    RpcNetVersion, RpcGetChainId, RpcSendRawTransaction, RpcSendRawTransactionReceipt, RpcSendRawTransactionWithReceipt,
    RpcHttpSendRawTransaction, RpcEthCall, RpcEthCallReceipt, RpcEthCall, RpcGetPendingNonce, RpcGetTransactionReceipt,
    RpcSubscribe, RpcUnsubscribe, FindReceiptByHashWithType, ClientTransactions.AccountState,
    SendSecpProtoTransaction, ClientTransactions.AccountState, SendTransaction, ReadTransaction, ReadTransactionWithoutNonce,
    EstimateGas, whenReady, TC_ReadTransaction, TC_ReadTransactionWithoutNonce, TC_EstimateGas,
    FindReceiptByHash, FindReceiptByHashWithType, SendTransactionWithDeviceKey, TC_SendTransactionWithDeviceKey,
    SendTransactionWithDeviceKeyAsync, SendTransactionWithDeviceKeySync, SaveTransactionWithDeviceKeyToFile,
    TC_SaveTransactionWithDeviceKeyToFile, SendTransactionWithFullInfo, TC_SendTransactions, SendNewTransactionWithDeviceKey,
    SendAllTransactionsInDirectory, SendAllTransactionsWidthDeviceKeyInDirectory, inDirectory, Subcribe, Subcribes, ParentSubcribes,
    NewEventLogsChan, SendQueryLogs; solve_sends.
Qed.

Definition ownCalls (es : list ClientEvent) : Prop :=
  Forall (fun e => forall t, e = CCall t -> exists c, t = callProg config keyPair ready c /\ ownCommand c) es.

Lemma ownCalls_start c es : ownCommand c -> ownCalls es -> ownCalls (start config keyPair ready c :: es).
Proof. intros Hc Hes. apply Forall_cons. split; [|done]. intros t [= <-]. by exists c. Qed.
Lemma ownCalls_steps n i o es : ownCalls es -> ownCalls (steps n i o ++ es).
Proof. intros Hes. apply Forall_app. split; [|done]. apply Forall_replicate. by intros t. Qed.
End Calls.

(** C5 (safety). Everything the client sends as a transaction is signed: for a
    client with a non-zero chain id, a valid BLS private key and its public key,
    in any interleaving of calls and incoming messages (custom RPC calls with the
    command SendTransaction apart), each SendTransaction message on the wire decodes
    to a transaction that the checks of the node accept, either
    [ValidSecpProtoSign], or [ValidSign] with the public key of the client. *)
Theorem client_sends_signed `{EthLibLaws} `{StateProto} `{ReceiptProto} `{ScProto} `{TxProtoLaws} `{SecpLaws} `{BlstLaws}
    `{ErrorProto} `{HandlerProto} `{ClientCodec} `{EthTypes} `{!EthWallet} config keyPair ready version now es y c m :
  ValidateBlsPrivateKey (privateKey keyPair) = true -> publicKey keyPair = blstPublic (privateKey keyPair) ->
  cfgChainId config <> 0 ->
  ownCalls config keyPair ready es ->
  clientRun version es (mkSystem (newClientState now) []) = Some y ->
  (c, m) ∈ sent (net (client y)) -> Msg_Command m = Command.SendTransaction ->
  accepted (publicKey keyPair) (Msg_Body m).
Proof.
  intros Hk Hp Hc Hes Hr Hm Hcmd.
  destruct (sent_run (signedSend keyPair) version es _ y Hr) as [Hs _].
  - eapply Forall_impl; [exact Hes|]. intros e He t ->. destruct (He t eq_refl) as (call & -> & Hcall). by apply calls_send.
  - split; [by apply Forall_nil|by apply Forall_nil].
  - unfold sentOk in Hs. rewrite Forall_forall in Hs. exact (Hs (c, m) Hm Hcmd).
Qed.

(** A BLS-signed and a secp-signed transaction, sent by two threads. *)
Definition sampleSecpSend : Call := CallSendSecpProtoTransactionWithNonce toyKey (replicate 20 2) 5 21000 1 [] 3.
Definition twoSends : list ClientEvent :=
  connecting ++ startS sampleSend :: startS sampleSecpSend :: steps 4 2 (up "8") ++ steps 3 3 (up "9") ++ [].

Definition sentBody (n : nat) : bytes := default [] ((fun cm => Msg_Body cm.2) <$> sent (net (client (endOf twoSends))) !! n).

Lemma client_sends_signed_witness :
  accepted (publicKey sampleKeyPair) (sentBody 1) /\ accepted (publicKey sampleKeyPair) (sentBody 2).
Proof.
  assert (Hall : forall n c m, sent (net (client (endOf twoSends))) !! n = Some (c, m) ->
    Msg_Command m = Command.SendTransaction -> accepted (publicKey sampleKeyPair) (Msg_Body m)).
  { intros n c m Hn. apply (client_sends_signed sampleConfig sampleKeyPair true "1" 0 twoSends (endOf twoSends) c m).
    - vm_compute; reflexivity.
    - vm_compute; reflexivity.
    - vm_compute; discriminate.
    - apply ownCalls_start; [done|]. apply ownCalls_steps. by repeat (apply ownCalls_start || apply ownCalls_steps || apply Forall_nil).
    - by apply endOf_run.
    - by apply list_elem_of_lookup_2 with n. }
  split; [apply (Hall 1%nat 1%positive) | apply (Hall 2%nat 1%positive)]; vm_compute; reflexivity.
Defined.
