(* ===== verification/TxHelperTheorems.v ===== *)
(** * Transaction helpers: what they return

    The receipt that a call of [TxHelper] returns belongs to the transaction that
    this call built, and reports success; with two calls at the same time, the
    nonces they take from the shared cache need not differ. *)

From S2P Require Import Prelude Binary TrieEncoding TrieNode Instances AccountState AccountTheorems Receipts SmartContract SmartContractTheorems Transaction EthTransaction TxInstances.
From S2P Require Import Message Connections ReceiptRouter TransactionError BlsKeys ClientProg ClientHandler ClientRequests ClientTransactions TxHelper ClientDiscipline ClientReceipts ClientInstances ClientTheorems.

Local Open Scope Z_scope.

(** ** The transaction of a call *)

Section Built.
Context `{EthLib} `{StateProto} `{TxProto} `{Blst} `{BlstKeys} `{Secp} `{ErrorProto} `{ClientCodec} `{EthTypes} `{!EthWallet}.
Context (config : ClientConfig) (keyPair : KeyPair).

(** The transactions with the given arguments and defaults for missing options. *)
Definition numberedHash (contract from payload : bytes) (opts : option TxOptions) (nonce : Z) (lastKey newKey : bytes) : bytes :=
  txHash (signed keyPair (NewTransaction from contract (optAmount opts) (optGas opts) (optGasPrice opts) (optTime opts) payload
    (optRelated config opts) lastKey newKey nonce (cfgChainId config))).

Definition unnumberedHash (contract from payload : bytes) (opts : option TxOptions) : bytes :=
  txHash (signed keyPair (NewTransactionWithoutNonce from contract (optAmount opts) (optGas opts) (optGasPrice opts) (optTime opts)
    payload (optRelated config opts) zeroHash zeroHash (cfgChainId config))).

(** [h] is the hash of an Ethereum transaction that the key has signed. *)
Definition secpBuilt (privKey contract input : bytes) (opts : option TxOptions) (h : bytes) : Prop :=
  exists nonce tx, SignTx (secpTx contract input opts nonce) (LatestSignerForChainID (secpChainID config)) privKey = Some tx /\
    h = ethTxHash tx.

Definition deviceBuilt (contract from input : bytes) (opts : option TxOptions) (h : bytes) : Prop :=
  exists payload nonce lastKey newKey, payloadOf input = Ok payload /\ h = numberedHash contract from payload opts nonce lastKey newKey.

(** How the call waits, and for which hashes. *)
Definition builds (c : Call) (mt : receiptMatchType) (h : bytes) : Prop :=
  match c with
  | CallHelperReadWithoutNonce _ contract from input opts =>
      mt = matchByReceiptHash /\ exists payload, payloadOf input = Ok payload /\ h = unnumberedHash contract from payload opts
  | CallHelperEstimateGas _ contract from input opts =>
      mt = matchByTxHash /\ exists payload, payloadOf input = Ok payload /\ h = unnumberedHash contract from payload opts
  | CallHelperRead _ contract from input opts | CallHelperSendNoneKey _ _ contract from input opts =>
      mt = matchByTxHash /\ exists payload nonce, payloadOf input = Ok payload /\ h = numberedHash contract from payload opts nonce zeroHash zeroHash
  | CallHelperSecp _ _ key contract _ input opts =>
      mt = matchByTxHash /\ exists privKey, key = Some privKey /\ secpBuilt privKey contract input opts h
  | CallHelperSend _ _ contract from input opts =>
      mt = matchByTxHash /\ ((exists privKey, secpBuilt privKey contract input opts h) \/ deviceBuilt contract from input opts h)
  | _ => False
  end.

Definition isHelper (c : Call) : bool :=
  match c with
  | CallHelperReadWithoutNonce _ _ _ _ _ | CallHelperEstimateGas _ _ _ _ _ | CallHelperRead _ _ _ _ _
  | CallHelperSecp _ _ _ _ _ _ _ | CallHelperSend _ _ _ _ _ _ | CallHelperSendNoneKey _ _ _ _ _ _ => true
  | _ => false
  end.
End Built.

(** ** Postconditions of the calls *)

Section Calls.
Context `{EthLib} `{StateProto} `{ReceiptProto} `{ScProto} `{TxProto} `{Blst} `{BlstKeys} `{Secp} `{ErrorProto} `{HandlerProto}
  `{ClientCodec} `{EthTypes} `{!EthWallet}.
Context (config : ClientConfig) (keyPair : KeyPair) (ready : bool).

(** The same with a status that reports success. *)
Definition ownedOk (B : receiptMatchType -> bytes -> Prop) (o : outcome Receipt) : Prop :=
  match o with Ok r => statusOk r = true /\ exists mt h, B mt h /\ matches mt h r | _ => True end.

(** *** The helpers *)

Lemma wp_checkStatus (R : regs) (B : receiptMatchType -> bytes -> Prop) (p : prog (outcome Receipt)) :
  wp R p (owned B) -> wp R (checkStatus p) (ownedOk B).
Proof.
  intros Hp. apply wp_try; [done..|]. eapply wp_mono; [apply regs_le_refl| |exact Hp]. intros [r|e| |] Hr; [|done..].
  destruct (statusOk r) eqn:Es; [|done]. by split.
Qed.

Lemma wp_withArguments {A} (R : regs) present need contract from (p : prog (outcome A)) (Q : outcome A -> Prop) :
  (forall e, Q (Err e)) -> wp R p Q -> wp R (withArguments present need contract from p) Q.
Proof. intros He Hp. unfold withArguments. repeat case_match; try done; apply He. Qed.

Lemma wp_payload {A} (R : regs) input (f : bytes -> prog (outcome A)) (Q : outcome A -> Prop) :
  (forall e, Q (Err e)) -> Q NoFuel -> (forall payload, payloadOf input = Ok payload -> wp R (f payload) Q) ->
  wp R (progTry (Ret (payloadOf input)) f) Q.
Proof. intros He Hn Hf. apply wp_try; [done..|]. cbn [wp]. destruct (payloadOf input); [by apply Hf|done..]. Qed.

Lemma wp_secp (R : regs) action present key contract from input opts :
  wp R (SendSecpTransaction config action present key contract from input opts)
    (fun o => ownedOk (fun mt h => mt = matchByTxHash /\ exists k, key = Some k /\ secpBuilt config k contract input opts h) (receiptOr o)).
Proof.
  unfold SendSecpTransaction. destruct (negb present); [done|]. destruct key as [k|]; [|done]. destruct (_ && _); [done|].
  apply wp_then. intros cached. apply wp_try_any; [done..|]. intros a. set (nonce := chooseNonce _ _).
  destruct (SignTx _ _ k) as [tx|] eqn:Es; [|done]. destruct (MarshalBinary tx) as [raw|]; [|done]. apply wp_try_any; [done..|].
  intros acc. destruct (negb _) eqn:Eh; [done|]. apply negb_false_iff, bool_decide_eq_true in Eh. subst acc. apply wp_then. intros _.
  apply wp_try; [done..|]. eapply wp_mono; [apply regs_le_refl| |apply wp_waitReceipt]. intros [r|e| |] Hr; [|done..].
  cbn. destruct (statusOk r) eqn:Eo; cbn; [|done]. split; [done|]. exists matchByTxHash, (ethTxHash tx). split; [|done].
  split; [done|]. exists k. split; [done|]. by exists nonce, tx.
Qed.

Lemma helper_wp (R : regs) c : isHelper c = true ->
  wp R (callProg config keyPair ready c) (fun v => match v with VReceipt o => ownedOk (builds config keyPair c) o | _ => True end).
Proof.
  intros Hc. destruct c; try done; cbn [callProg]; apply wp_returning; cbv beta iota.
  1-3: apply wp_withArguments; [done|]; apply wp_payload; [done..|]; intros payload Hp; apply wp_checkStatus.
  - apply wp_ReadTransactionWithoutNonce. split; [done|]. by exists payload.
  - apply wp_EstimateGas. split; [done|]. by exists payload.
  - apply wp_ReadTransaction. intros x. split; [done|]. by exists payload, x.
  - apply wp_secp.
  - unfold Helper_SendTransaction. destruct (negb present); [done|]. set (k := if bool_decide (_ = []) then None else _).
    destruct k as [key|].
    + eapply wp_mono; [apply regs_le_refl| |apply wp_secp]. intros [[r [e|]]|e| |]; try done. intros (Hs & mt & h & [Hm (k' & _ & Hb)] & Hr).
      split; [done|]. exists mt, h. split; [|done]. split; [done|]. left. by exists k'.
    + apply wp_withArguments; [done|]. apply wp_payload; [done..|]. intros payload Hp. apply wp_try; [done..|].
      eapply wp_mono; [apply regs_le_refl| |apply (wp_checkStatus R (builds config keyPair (CallHelperSend what present contract from input opts)))].
      * intros [r|e| |] Hr; done.
      * apply wp_deviceKey. intros x k1 k2. split; [done|]. right. by exists payload, x, k1, k2.
  - apply wp_withArguments; [done|]. apply wp_payload; [done..|]. intros payload Hp. apply wp_then. intros cached.
    apply wp_try_any; [done..|]. intros a. apply wp_checkStatus. apply wp_try; [done..|].
    eapply wp_mono; [apply regs_le_refl| |apply (wp_SendTransaction config keyPair ready R (builds config keyPair (CallHelperSendNoneKey what present contract from input opts)))].
    + intros [r|e| |] Hr; [|done..]. by apply wp_then.
    + split; [done|]. by eexists payload, _.
Qed.
End Calls.

(** C8 (safety). Whatever other threads do meanwhile, a helper call that
    returns a receipt without an error returns one whose status is RETURNED or
    HALTED, and which matches the hash of the transaction that this call built from
    its own arguments: numbered, unnumbered or with device keys and signed with the
    client's key, or an Ethereum transaction signed with the given key. *)
Theorem helper_receipt `{EthLib} `{StateProto} `{ReceiptProto} `{ScProto} `{TxProto} `{Blst} `{BlstKeys} `{Secp} `{ErrorProto}
    `{HandlerProto} `{ClientCodec} `{EthTypes} `{!EthWallet} config keyPair ready version now es0 y0 c es y r :
  isHelper c = true ->
  clientRun version es0 (mkSystem (newClientState now) []) = Some y0 ->
  clientRun version (start config keyPair ready c :: es) y0 = Some y ->
  threads y !! length (threads y0) = Some (Ret (VReceipt (Ok r))) ->
  statusOk r = true /\ exists mt h, builds config keyPair c mt h /\ matches mt h r.
Proof.
  intros Hc Hr0 Hr Hv.
  apply (call_post version now es0 y0 (callProg config keyPair ready c)
           (fun v => match v with VReceipt o => ownedOk (builds config keyPair c) o | _ => True end) es y (VReceipt (Ok r)) Hr0);
    [|exact Hr|done].
  intros R. by apply helper_wp.
Qed.

(** ** Runs *)

Definition sampleSender : bytes := replicate 20 1.
Definition helperSend (input : bytes) : Call := CallHelperSendNoneKey "send" true (replicate 20 2) sampleSender input None.

Definition payloadOr (input : bytes) : bytes := match payloadOf input with Ok b => b | _ => [] end.
Definition helperHash (input : bytes) (nonce : Z) : bytes :=
  numberedHash sampleConfig sampleKeyPair (replicate 20 2) sampleSender (payloadOr input) None nonce zeroHash zeroHash.
Definition helperReceipt : Receipt := NewReceipt (helperHash [9] 0) sampleSender (replicate 20 2) 0 0 [] 0 1 21000 [] 0 [] 7.

Definition accountAnswer (id : string) : Call := incoming Command.AccountState id (AccountState.Marshal (NewAccountState sampleSender)).

(** The account is asked for and answered, the transaction is sent, its receipt
    comes in. *)
Definition helperRun : list ClientEvent :=
  steps 6 2 (up "7") ++ startS (accountAnswer "7") :: steps 3 3 (up "") ++ steps 7 2 (up "8") ++
  startS (incoming Command.Receipt "" (receiptBytes helperReceipt)) :: steps 3 4 (up "") ++ [CRouter] ++ steps 2 2 (up "").

Definition helperEnd : System := endOf (connecting ++ startS (helperSend [9]) :: helperRun).

Lemma endOf_app es es' : bool_decide (is_Some (clientRun "1" es freshClient)) = true ->
  bool_decide (is_Some (clientRun "1" (es ++ es') freshClient)) = true ->
  clientRun "1" es' (endOf es) = Some (endOf (es ++ es')).
Proof.
  intros He Hs. apply endOf_run in He, Hs. revert Hs. generalize (endOf (es ++ es')). revert He. generalize (endOf es), freshClient.
  induction es as [|e es IH]; cbn [clientRun app]; intros y1 y; [by intros [= ->]|].
  destruct (clientStep "1" e y) as [y2|]; [|done]. cbn [mbind option_bind]. apply IH.
Qed.

Lemma helperRun_run : clientRun "1" (startS (helperSend [9]) :: helperRun) (endOf connecting) = Some helperEnd.
Proof. apply endOf_app; vm_compute; reflexivity. Qed.

Lemma helperRun_returns : threads helperEnd !! length (threads (endOf connecting)) = Some (Ret (VReceipt (Ok helperReceipt))).
Proof. vm_compute; reflexivity. Qed.

Lemma helper_receipt_witness :
  statusOk helperReceipt = true /\ exists mt h, builds sampleConfig sampleKeyPair (helperSend [9]) mt h /\ matches mt h helperReceipt.
Proof.
  apply (helper_receipt sampleConfig sampleKeyPair true "1" 0 connecting (endOf connecting) (helperSend [9]) helperRun helperEnd).
  - reflexivity.
  - by apply endOf_run.
  - exact helperRun_run.
  - exact helperRun_returns.
Defined.

(** *** Nonces *)

(** The nonce of a send is not below the node's; after a send with [n] it is above
    [n], unless [n] is the last 64-bit number. *)
Lemma chooseNonce_node cached n : n <= chooseNonce cached n.
Proof. unfold chooseNonce. destruct (negb _ && _) eqn:E; [|done]. apply andb_true_iff in E as [_ E]. lia. Qed.

Lemma chooseNonce_next n node : 0 <= n < 2 ^ 64 - 1 -> n < chooseNonce (Some (wrap64 (n + 1))) node.
Proof.
  intros Hn. unfold chooseNonce, default. cbn [from_option id]. replace (wrap64 (n + 1)) with (n + 1) by (unfold wrap64; rewrite Z.mod_small; lia).
  destruct (negb _ && _) eqn:E; [lia|]. apply andb_false_iff in E as [E|E]; [apply negb_false_iff in E|]; lia.
Qed.

(** Two calls at the same time: both ask for the account before one of them sends. *)
Definition noncesRun : list ClientEvent :=
  connecting ++ startS (helperSend [9]) :: startS (helperSend [10]) :: steps 6 2 (up "7") ++ steps 6 3 (up "8") ++
  startS (accountAnswer "7") :: startS (accountAnswer "8") :: steps 3 4 (up "") ++ steps 3 5 (up "") ++
  steps 7 2 (up "9") ++ steps 7 3 (up "9").

Definition sentTx (n : nat) : option PbTransaction :=
  cm ← sent (net (client (endOf noncesRun))) !! n; unmarshalTx (Msg_Body cm.2).

(** The nonce cache does not number concurrent sends: two calls for
    the same sender with different inputs send two transactions with the same nonce,
    since the cache is read before the account is fetched and written only when the
    receipt is there. *)
Theorem helper_nonce_race :
  exists t1 t2, sentTx 3 = Some t1 /\ sentTx 4 = Some t2 /\
    pFromAddress t1 = pFromAddress t2 /\ pNonce t1 = pNonce t2 /\ pData t1 <> pData t2 /\
    hashOf (hashData t1) = helperHash [9] 0 /\ hashOf (hashData t2) = helperHash [10] 0.
Proof. do 2 eexists. split_and!; [vm_compute; reflexivity..| | |]; vm_compute; [discriminate|reflexivity..]. Qed.
