(* ===== verification/BlockChecker.v ===== *)
(** * The block hash checker: fetching and comparing blocks

    Models the core of [block/block_hash_checker/main.go]: the node list, the
    answers of the nodes, and [checkBatch], which fetches a range of blocks from
    every node, compares their fields, follows the parent hashes and looks for
    regressions from one block to the next.

    What the nodes answer is an argument ([Rpc]): the outcome of a post, by the
    position of the node in the list, the block and the number of the attempt.
    The goroutines of [checkBatch] each fill a slot of their own, so that a batch
    is a function of the answers.  [encoding/json] is the class [Json].  Strings
    are byte strings; of the white space of Unicode only ASCII is trimmed.  The
    texts of the alerts are not modelled, the events that cause them are. *)

From Stdlib Require Import Ascii.
From stdpp Require Import pretty.
From S2P Require Import Prelude GoStrings.

Local Open Scope Z_scope.

(** ** Strings *)

(** [s[:n]], which panics past the end. *)
Definition slicePrefix (s : string) (n : nat) : outcome string :=
  if (String.length s <? n)%nat then Panic else Ok (String.substring 0 n s).

Definition safePrefix (s : string) (n : nat) : string :=
  if (String.length s <=? n)%nat then s else String.substring 0 n s.

Definition shortHash (h : string) : string :=
  if (14 <? String.length h)%nat && String.prefix "0x" h
  then (String.substring 0 8 h +:+ "..." +:+ String.substring (String.length h - 4) 4 h)%string
  else h.

(** *** [fmt.Sscanf(hexStr, "0x%x", &num)] *)

Definition hexDigit (a : Ascii.ascii) : option Z :=
  let n := Z.of_nat (Ascii.nat_of_ascii a) in
  if (48 <=? n) && (n <=? 57) then Some (n - 48)
  else if (97 <=? n) && (n <=? 102) then Some (n - 87)
  else if (65 <=? n) && (n <=? 70) then Some (n - 55)
  else None.

(** The longest prefix of digits. *)
Fixpoint hexToken (s : string) : string :=
  match s with
  | EmptyString => EmptyString
  | String a s' =>
      if bool_decide (is_Some (hexDigit a)) then String a (hexToken s') else EmptyString
  end.

Fixpoint hexValue (acc : Z) (s : string) : option Z :=
  match s with
  | EmptyString => Some acc
  | String a s' => d ← hexDigit a; hexValue (acc * 16 + d) s'
  end.

(** [strconv.ParseUint(tok, 16, 64)]: a number that does not fit is an error, and
    so are no digits. *)
Definition parseUintHex (tok : string) : option Z :=
  match tok with
  | EmptyString => None
  | _ => v ← hexValue 0 tok; if v <? 2 ^ 64 then Some v else None
  end.

(** Blanks between the prefix and the number are skipped; a line end there is an
    error. *)
Fixpoint skipBlanks (s : string) : string :=
  match s with
  | String a s' => if isSpaceChar a && negb (Ascii.nat_of_ascii a =? 10)%nat then skipBlanks s' else s
  | EmptyString => s
  end.

(** A string that does not scan leaves 0. *)
Definition parseHexStr (hexStr : string) : Z :=
  match hexStr with
  | String "0" (String "x" rest) => default 0 (parseUintHex (hexToken (skipBlanks rest)))
  | _ => 0
  end.

(** ** Data *)

Record txOrderEntry := mkTxOrder { teHash : string; teGroupID : string; teTransactionIndex : string }.

Record blockInfo := mkBlockInfo {
  biHash : string;
  biParentHash : string;
  biStateRoot : string;
  biTransactionsRoot : string;
  biReceiptsRoot : string;
  biTimestamp : string;
  biMiner : string;
  biGlobalExecIndex : string;
  biEpoch : string;
  biStakeStatesRoot : string;
  biAggregateSignature : string;
  biCommitIndex : string;
  biTxCount : Z;
  biSysTxCount : Z;
  biError : string;
  biTxOrder : list txOrderEntry
}.

Definition zeroBlockInfo : blockInfo := mkBlockInfo "" "" "" "" "" "" "" "" "" "" "" "" 0 0 "" [].
Definition errorBlock (e : string) : blockInfo := mkBlockInfo "" "" "" "" "" "" "" "" "" "" "" "" 0 0 e [].
Definition setError (e : string) (b : blockInfo) : blockInfo :=
  mkBlockInfo (biHash b) (biParentHash b) (biStateRoot b) (biTransactionsRoot b) (biReceiptsRoot b) (biTimestamp b) (biMiner b)
    (biGlobalExecIndex b) (biEpoch b) (biStakeStatesRoot b) (biAggregateSignature b) (biCommitIndex b) (biTxCount b)
    (biSysTxCount b) e (biTxOrder b).

#[export] Instance txOrderEntry_eq_dec : EqDecision txOrderEntry.
Proof. solve_decision. Defined.
#[export] Instance blockInfo_eq_dec : EqDecision blockInfo.
Proof. solve_decision. Defined.

Definition IsError (b : blockInfo) : bool := negb (bool_decide (biError b = ""%string)).

Record nodeInfo := mkNode { nName : string; nURL : string }.
Record mismatch := mkMismatch { mBlockNumber : Z; mBlocks : gmap string blockInfo }.

Definition parseNode (p : string) : option nodeInfo :=
  let p := TrimSpace p in
  if bool_decide (p = ""%string) then None
  else
    match cutAt "=" p with
    | None => None
    | Some (u, v) =>
        let name := TrimSpace u in
        let url := TrimSpace v in
        if bool_decide (name = ""%string) || bool_decide (url = ""%string) then None else Some (mkNode name url)
    end.

Definition parseNodes (s : string) : list nodeInfo := omap parseNode (splitOn "," s).

(** The flag that [main] makes of the map [rpc_nodes] of the configuration, given
    with its keys in order. *)
Fixpoint joinComma (l : list string) : string :=
  match l with [] => "" | [x] => x | x :: l => (x +:+ "," +:+ joinComma l)%string end.

Definition nodesFlagOf (nodesMap : list (string * string)) : string := joinComma ((fun kv => (kv.1 +:+ "=" +:+ kv.2)%string) <$> nodesMap).

(** ** Answers *)

(** The members of a JSON-RPC answer that are read; a [RawMessage] is bytes. *)
Record rpcResponse := mkRpc { rpcResult : string; rpcErrorOf : option (Z * string) }.

Record blockResult := mkBlockResult {
  brHash : string;
  brNumber : string;
  brParentHash : string;
  brStateRoot : string;
  brTransactionsRoot : string;
  brReceiptsRoot : string;
  brTimestamp : string;
  brMiner : string;
  brGlobalExecIndex : string;
  brEpoch : string;
  brStakeStatesRoot : string;
  brAggregateSignature : string;
  brCommitIndex : string;
  brTransactions : list txOrderEntry
}.

(** [json.Unmarshal] into the types of the checker, with the text of its error. *)
Class Json := {
  unmarshalRpcResponse : string -> string + rpcResponse;
  unmarshalBlockResult : string -> string + blockResult;
  unmarshalList : string -> string + nat;
  unmarshalString : string -> string + string
}.

Section Answers.
Context `{Json}.

(** A post that returns an error or a body, and what the body means. *)
Abbreviation Post := (sum string string).

Definition decodeRpc (post : Post) : string + rpcResponse :=
  match post with
  | inl e => inl e
  | inr data =>
      match unmarshalRpcResponse data with
      | inl e => inl ("invalid JSON response: " +:+ e)%string
      | inr r => inr r
      end
  end.

Definition rpcErrorText (e : Z * string) : string := ("RPC error " +:+ pretty e.1 +:+ ": " +:+ e.2)%string.

Definition getSystemTxsCount (post : Post) : string + Z :=
  match decodeRpc post with
  | inl e => inl e
  | inr r =>
      match rpcErrorOf r with
      | Some e => inl (rpcErrorText e)
      | None =>
          if bool_decide (rpcResult r = "null"%string) then inr 0
          else match unmarshalList (rpcResult r) with
               | inl e => inl ("cannot parse system txs: " +:+ e)%string
               | inr n => inr (Z.of_nat n)
               end
      end
  end.

Definition missingBlock : string := "(block không tồn tại)".

(** The second post is made when the block has no transactions. *)
Definition getBlockInfo (post systemPost : Post) : string + blockInfo :=
  match decodeRpc post with
  | inl e => inl e
  | inr r =>
      match rpcErrorOf r with
      | Some e => inl (rpcErrorText e)
      | None =>
          if bool_decide (rpcResult r = "null"%string) then inr (errorBlock missingBlock)
          else
            match unmarshalBlockResult (rpcResult r) with
            | inl e => inl ("cannot parse block result: " +:+ e)%string
            | inr b =>
                let txCount := Z.of_nat (length (brTransactions b)) in
                let sysTxCount :=
                  if txCount =? 0 then match getSystemTxsCount systemPost with inr n => n | inl _ => 0 end else 0 in
                inr (mkBlockInfo (brHash b) (brParentHash b) (brStateRoot b) (brTransactionsRoot b) (brReceiptsRoot b)
                       (brTimestamp b) (brMiner b) (brGlobalExecIndex b) (brEpoch b) (brStakeStatesRoot b)
                       (brAggregateSignature b) (brCommitIndex b) txCount sysTxCount "" (brTransactions b))
            end
      end
  end.

Definition getLatestBlockNumber (post : Post) : string + Z :=
  match decodeRpc post with
  | inl e => inl e
  | inr r =>
      match rpcErrorOf r with
      | Some e => inl ("RPC error: " +:+ e.2)%string
      | None =>
          match unmarshalString (rpcResult r) with
          | inl e => inl ("cannot parse block number: " +:+ e)%string
          | inr hexStr => inr (parseHexStr hexStr)
          end
      end
  end.

(** What the nodes answer during a batch: by position of the node, block and
    attempt; and the latest block, asked for once at most per node and block. *)
Record Rpc := mkRpcWorld { askBlock : nat -> Z -> nat -> Post * Post; askLatest : nat -> Z -> Post }.

(** ** Fetching *)

Abbreviation Answer := (sum string blockInfo).

(** Up to [n] more attempts, until one is [good]; the answer and the number of
    the next attempt. *)
Fixpoint retryWhile (n : nat) (good : Answer -> bool) (ask : nat -> Answer) (attempt : nat) (cur : Answer) : Answer * nat :=
  match n with
  | O => (cur, attempt)
  | S n' => let cur := ask attempt in if good cur then (cur, S attempt) else retryWhile n' good ask (S attempt) cur
  end.

Definition fetched (a : Answer) : bool := match a with inr bi => negb (IsError bi) | inl _ => false end.
Definition isMissing (a : Answer) : bool := match a with inr bi => bool_decide (biError bi = missingBlock) | inl _ => false end.

Definition isPruned (a : Answer) : bool :=
  match a with inl e => contains "pruned" e | inr bi => IsError bi && contains "pruned" (biError bi) end.

Definition retriesMissing : nat := 10.
Definition retriesError : nat := 3.

(** A block that the node should have is asked for ten times more, another error
    three times more unless the block is pruned. *)
Definition fetchNode (ask : nat -> Answer) (latest : string + Z) (blockNum : Z) : Answer :=
  let bi := ask 0%nat in
  let '(bi, attempt) :=
    if isMissing bi && match latest with inr l => blockNum <=? l | inl _ => false end
    then retryWhile retriesMissing fetched ask 1%nat bi else (bi, 1%nat) in
  if fetched bi || isMissing bi || isPruned bi then bi
  else (retryWhile retriesError (fun a => fetched a || isMissing a) ask attempt bi).1.

Record result := mkResult { rBlockNum : Z; rBlocks : gmap string blockInfo; rHasError : bool }.

Definition answerBlock (a : Answer) : blockInfo :=
  match a with inl e => errorBlock ("ERROR: " +:+ e)%string | inr bi => bi end.

Definition nodeAnswer (w : Rpc) (blockNum : Z) (i : nat) : Answer :=
  fetchNode (fun k => getBlockInfo (askBlock w i blockNum k).1 (askBlock w i blockNum k).2)
    (getLatestBlockNumber (askLatest w i blockNum)) blockNum.

(** The goroutine of one block. *)
Definition fetchBlock (nodes : list nodeInfo) (w : Rpc) (blockNum : Z) : result :=
  let answers := imap (fun i node => (nName node, nodeAnswer w blockNum i)) nodes in
  mkResult blockNum
    (foldl (fun blocks na => <[na.1 := answerBlock na.2]> blocks) ∅ answers)
    (existsb (fun na => negb (fetched na.2)) answers).

(** [count] slots, computed in 64 bits. *)
Definition fetchAll (nodes : list nodeInfo) (w : Rpc) (from to : Z) : list result :=
  (fun i => fetchBlock nodes w (wrap64 (from + Z.of_nat i))) <$> seq 0 (Z.to_nat (wrap64 (to - from + 1))).
End Answers.

(** ** Comparing *)

(** The texts written besides the result: the events of [ghost_blocks.log], once
    per block, and the anomalies, each with the node and the numbers compared. *)
Inductive anomaly :=
| TimestampRegression (node : string) (ts prevTs : Z)
| GeiRegression (node : string) (gei prevGei : Z)
| EpochRegression (node : string) (epoch prevEpoch : Z)
| EpochJump (node : string) (epoch prevEpoch : Z)
| StateRootFreeze (node : string) (root : string) (streak : Z)
| NodeLagging (nodes : list string).

Inductive event :=
| NilBlock (blockNum : Z)
| EmptyBlock (blockNum : Z) (gei : string)
| Anomaly (a : anomaly) (blockNum : Z)
| StopFlag.

#[export] Instance anomaly_eq_dec : EqDecision anomaly.
Proof. solve_decision. Defined.
#[export] Instance event_eq_dec : EqDecision event.
Proof. solve_decision. Defined.

(** The globals of the program. *)
Record Globals := mkGlobals { loggedBlocks : gset Z; noStopFlag : bool; log : list event }.

Definition emit (e : event) (g : Globals) : Globals := mkGlobals (loggedBlocks g) (noStopFlag g) (log g ++ [e]).

Definition eventBlock (e : event) : Z :=
  match e with NilBlock n | EmptyBlock n _ | Anomaly _ n => n | StopFlag => 0 end.

Definition logBlockEvent (e : event) (g : Globals) : Globals :=
  if bool_decide (eventBlock e ∈ loggedBlocks g) then g
  else emit e (mkGlobals ({[eventBlock e]} ∪ loggedBlocks g) (noStopFlag g) (log g)).

Definition triggerStopFlag (g : Globals) : Globals := if noStopFlag g then g else emit StopFlag g.

(** A lagging node is reported; any other anomaly stops the tests. *)
Definition logAnomaly (a : anomaly) (blockNum : Z) (g : Globals) : Globals :=
  let g := emit (Anomaly a blockNum) g in
  match a with NodeLagging _ => g | _ => triggerStopFlag g end.

(** The names of the fields in which two blocks differ. *)
Definition differs {A} `{EqDecision A} (name : string) (x y : A) : list string := if bool_decide (x = y) then [] else [name].

Definition orderDiffers (b ref : list txOrderEntry) : list string :=
  if negb (length b =? length ref)%nat then ["txCount"%string]
  else if existsb (fun p => negb (bool_decide (teHash p.1 = teHash p.2) && bool_decide (teGroupID p.1 = teGroupID p.2) &&
                                  bool_decide (teTransactionIndex p.1 = teTransactionIndex p.2))) (zip b ref)
  then ["txOrder"%string] else [].

Definition headerFields (b ref : blockInfo) : list string :=
  differs "hash" (biHash b) (biHash ref) ++
  differs "parentHash" (biParentHash b) (biParentHash ref) ++
  differs "stateRoot" (biStateRoot b) (biStateRoot ref) ++
  differs "stakeStatesRoot" (biStakeStatesRoot b) (biStakeStatesRoot ref) ++
  differs "transactionsRoot" (biTransactionsRoot b) (biTransactionsRoot ref) ++
  differs "receiptsRoot" (biReceiptsRoot b) (biReceiptsRoot ref) ++
  differs "timestamp" (biTimestamp b) (biTimestamp ref) ++
  differs "miner" (biMiner b) (biMiner ref) ++
  differs "epoch" (biEpoch b) (biEpoch ref) ++
  differs "globalExecIndex" (biGlobalExecIndex b) (biGlobalExecIndex ref) ++
  differs "commitIndex" (biCommitIndex b) (biCommitIndex ref).

Definition differentFields (b ref : blockInfo) : list string := headerFields b ref ++ orderDiffers (biTxOrder b) (biTxOrder ref).

(** *** From one block to the next *)

Record prevBlockState := mkPrev {
  pvTimestamp : Z;
  pvGEI : Z;
  pvEpoch : Z;
  pvStateRoot : string;
  pvStateRootStreak : Z;
  pvBlockNum : Z;
  pvIsNil : bool;
  pvConsecutiveErrors : Z
}.

Record batchState := mkBatch {
  prevBlockHashes : gmap string string;
  prevState : gmap string prevBlockState;
  mismatches : list mismatch;
  matchCount : Z;
  errorCount : Z;
  skipCount : Z;
  nilBlocks : list Z;
  emptyBlocks : list Z;
  globals : Globals
}.

Definition setGlobals (g : Globals) (s : batchState) : batchState :=
  mkBatch (prevBlockHashes s) (prevState s) (mismatches s) (matchCount s) (errorCount s) (skipCount s) (nilBlocks s) (emptyBlocks s) g.
Definition setPrevHashes (p : gmap string string) (s : batchState) : batchState :=
  mkBatch p (prevState s) (mismatches s) (matchCount s) (errorCount s) (skipCount s) (nilBlocks s) (emptyBlocks s) (globals s).
Definition setPrevState (p : gmap string prevBlockState) (s : batchState) : batchState :=
  mkBatch (prevBlockHashes s) p (mismatches s) (matchCount s) (errorCount s) (skipCount s) (nilBlocks s) (emptyBlocks s) (globals s).
Definition addNil (n : Z) (s : batchState) : batchState :=
  mkBatch (prevBlockHashes s) (prevState s) (mismatches s) (matchCount s) (errorCount s) (skipCount s) (nilBlocks s ++ [n])
    (emptyBlocks s) (logBlockEvent (NilBlock n) (globals s)).
Definition addEmpty (n : Z) (gei : string) (s : batchState) : batchState :=
  mkBatch (prevBlockHashes s) (prevState s) (mismatches s) (matchCount s) (errorCount s) (skipCount s) (nilBlocks s)
    (emptyBlocks s ++ [n]) (logBlockEvent (EmptyBlock n gei) (globals s)).
Definition addError (s : batchState) : batchState :=
  mkBatch (prevBlockHashes s) (prevState s) (mismatches s) (matchCount s) (errorCount s + 1) (skipCount s) (nilBlocks s)
    (emptyBlocks s) (globals s).
Definition addSkip (s : batchState) : batchState :=
  mkBatch (prevBlockHashes s) (prevState s) (mismatches s) (matchCount s) (errorCount s) (skipCount s + 1) (nilBlocks s)
    (emptyBlocks s) (globals s).
Definition addMatch (s : batchState) : batchState :=
  mkBatch (prevBlockHashes s) (prevState s) (mismatches s) (matchCount s + 1) (errorCount s) (skipCount s) (nilBlocks s)
    (emptyBlocks s) (globals s).
Definition addMismatch (m : mismatch) (s : batchState) : batchState :=
  mkBatch (prevBlockHashes s) (prevState s) (mismatches s ++ [m]) (matchCount s) (errorCount s) (skipCount s) (nilBlocks s)
    (emptyBlocks s) (globals s).

Section Compare.
Context (nodes : list nodeInfo).

(** Reading a Go map gives the zero value where there is none. *)
Definition blockOf (blocks : gmap string blockInfo) (node : nodeInfo) : blockInfo := default zeroBlockInfo (blocks !! nName node).

Definition validBlocks (blocks : gmap string blockInfo) : list blockInfo :=
  filter (fun bi => IsError bi = false) (blockOf blocks <$> nodes).

Definition missingResponseCount (blocks : gmap string blockInfo) : nat :=
  length (filter (fun bi => biError bi = missingBlock) (blockOf blocks <$> nodes)).

(** The hash of every node that has the block; the others are forgotten. *)
Definition updatePrevHashes (blocks : gmap string blockInfo) (prev : gmap string string) : gmap string string :=
  foldl (fun prev node =>
    let bi := blockOf blocks node in
    if IsError bi then delete (nName node) prev else <[nName node := biHash bi]> prev) prev nodes.

(** Check 1: the first valid block against the others. *)
Definition fieldMismatches (valid : list blockInfo) : list string :=
  match valid with [] => [] | ref :: rest => concat ((fun b => differentFields b ref) <$> rest) end.

(** Check 2: the parent hash against the hash of the block before, on each node;
    the text of the error shows 18 characters of both. *)
Definition checkLink (prev : gmap string string) (acc : gmap string blockInfo * bool) (node : nodeInfo) :
  outcome (gmap string blockInfo * bool) :=
  let '(blocks, broken) := acc in
  let bi := blockOf blocks node in
  if IsError bi then Ok acc
  else
    match prev !! nName node with
    | Some prevHash =>
        if bool_decide (biParentHash bi = prevHash) then Ok acc
        else
          p ← slicePrefix (biParentHash bi) 18;
          q ← slicePrefix prevHash 18;
          Ok (<[nName node := setError ("CHAIN BROKEN: parentHash=" +:+ p +:+ "..." +:+ " but prev block hash=" +:+ q +:+ "...")%string bi]>
                blocks, true)
    | None => Ok acc
    end.

Fixpoint checkLinks (prev : gmap string string) (l : list nodeInfo) (acc : gmap string blockInfo * bool) :
  outcome (gmap string blockInfo * bool) :=
  match l with
  | [] => Ok acc
  | node :: l => acc ← checkLink prev acc node; checkLinks prev l acc
  end.

(** After a comparison the hashes of before the marking are kept. *)
Definition originalHashes (blocks : gmap string blockInfo) : gmap string string :=
  foldl (fun m node => let bi := blockOf blocks node in if IsError bi then m else <[nName node := biHash bi]> m) ∅ nodes.

Definition keepHashes (orig prev : gmap string string) : gmap string string :=
  foldl (fun m node => if bool_decide (is_Some (orig !! nName node)) then m else delete (nName node) m) (orig ∪ prev) nodes.

(** Checks 3 to 7: one node, one block. *)
Definition regressions (node : nodeInfo) (bi : blockInfo) (p : prevBlockState) : list anomaly :=
  let curTS := parseHexStr (biTimestamp bi) in
  let curGEI := parseHexStr (biGlobalExecIndex bi) in
  let curEpoch := parseHexStr (biEpoch bi) in
  (if (0 <? curTS) && (0 <? pvTimestamp p) && (curTS <? pvTimestamp p) && (30 <? pvTimestamp p - curTS)
   then [TimestampRegression (nName node) curTS (pvTimestamp p)] else []) ++
  (if (0 <? curGEI) && (0 <? pvGEI p) && (curGEI <=? pvGEI p) then [GeiRegression (nName node) curGEI (pvGEI p)] else []) ++
  (if (0 <? curEpoch) && (0 <? pvEpoch p) then
     if curEpoch <? pvEpoch p then [EpochRegression (nName node) curEpoch (pvEpoch p)]
     else if wrap64 (pvEpoch p + 1) <? curEpoch then [EpochJump (nName node) curEpoch (pvEpoch p)] else []
   else []) ++
  (if bool_decide (biStateRoot bi = pvStateRoot p) && (curEpoch =? pvEpoch p) && (5 <=? pvStateRootStreak p + 1) && (0 <? biTxCount bi)
   then [StateRootFreeze (nName node) (biStateRoot bi) (pvStateRootStreak p + 1)] else []).

Definition blockSummary (bi : blockInfo) (streak blockNum : Z) : prevBlockState :=
  mkPrev (parseHexStr (biTimestamp bi)) (parseHexStr (biGlobalExecIndex bi)) (parseHexStr (biEpoch bi)) (biStateRoot bi) streak
    blockNum false 0.

Definition nextStreak (bi : blockInfo) (p : prevBlockState) : Z :=
  if bool_decide (biStateRoot bi = pvStateRoot p) && (parseHexStr (biEpoch bi) =? pvEpoch p) then pvStateRootStreak p + 1 else 0.

Definition errorsInARow (bi : blockInfo) (p : option prevBlockState) : Z :=
  if bool_decide (biError bi = missingBlock) then 0
  else match p with Some p => pvConsecutiveErrors p + 1 | None => 1 end.

Definition checkNode (blockNum : Z) (blocks : gmap string blockInfo) (s : batchState) (node : nodeInfo) : batchState :=
  let bi := blockOf blocks node in
  let prev := prevState s !! nName node in
  let keep p := setPrevState (<[nName node := p]> (prevState s)) in
  if IsError bi then keep (mkPrev 0 0 0 "" 0 blockNum true (errorsInARow bi prev)) s
  else
    match prev with
    | Some p =>
        if pvIsNil p then keep (blockSummary bi 0 blockNum) s
        else keep (blockSummary bi (nextStreak bi p) blockNum)
               (setGlobals (foldl (fun g a => logAnomaly a blockNum g) (globals s) (regressions node bi p)) s)
    | None => keep (blockSummary bi 0 blockNum) s
    end.

(** The body of the loop over the results. *)
Definition checkResult (s : batchState) (r : result) : outcome batchState :=
  let n := rBlockNum r in
  let blocks := rBlocks r in
  let s := if rHasError r then addError s else s in
  let valid := validBlocks blocks in
  if (length valid <? 2)%nat then
    if (length valid =? 0)%nat && (0 <? missingResponseCount blocks)%nat
    then Ok (setPrevHashes (foldl (fun m node => delete (nName node) m) (prevBlockHashes s) nodes) (addNil n s))
    else Ok (setPrevHashes (updatePrevHashes blocks (prevBlockHashes s)) (addSkip s))
  else
    let ref := default zeroBlockInfo (head valid) in
    let s := if (biTxCount ref =? 0) && (biSysTxCount ref =? 0) then addEmpty n (biGlobalExecIndex ref) s else s in
    let fields := fieldMismatches valid in
    lb ← checkLinks (prevBlockHashes s) nodes (blocks, false);
    let s := setPrevHashes (keepHashes (originalHashes blocks) (prevBlockHashes s)) s in
    let s := if (0 <? length fields)%nat || lb.2 then addMismatch (mkMismatch n lb.1) s else addMatch s in
    Ok (foldl (checkNode n lb.1) s nodes).

Fixpoint checkResults (rs : list result) (s : batchState) : outcome batchState :=
  match rs with
  | [] => Ok s
  | r :: rs => s ← checkResult s r; checkResults rs s
  end.
End Compare.

Definition emptyBatch (g : Globals) : batchState := mkBatch ∅ ∅ [] 0 0 0 [] [] g.

Definition checkBatch `{Json} (nodes : list nodeInfo) (w : Rpc) (from to : Z) (g : Globals) : outcome batchState :=
  checkResults nodes (fetchAll nodes w from to) (emptyBatch g).
