(* ===== verification/BlockReports.v ===== *)
(** * The block hash checker: reports on a difference

    The texts that [block/block_hash_checker/main.go] makes to explain a difference:
    the order of the transactions on the nodes ([checkTxOrderMismatch]), the accounts
    that a block changed on two nodes ([compareNodeStateDiffs]), and the receipts of a
    block ([fetchReceiptSummary]).  Each has a line that says that all is well; the
    theorems say when it is written. *)

From Stdlib Require Import Ascii Bool.
From stdpp Require Import pretty sorting.
From S2P Require Import Prelude GoStrings BlockChecker.

Local Open Scope Z_scope.
Local Open Scope string_scope.

(** ** The order of transactions *)

Definition sameEntry (a b : txOrderEntry) : bool :=
  bool_decide (teHash a = teHash b) && bool_decide (teGroupID a = teGroupID b) &&
  bool_decide (teTransactionIndex a = teTransactionIndex b).

Definition sep (s : string) (l : list string) : string :=
  match l with [] => "" | x :: l => foldl (fun acc y => acc +:+ s +:+ y) x l end.

Definition entryReasons (cur ref : txOrderEntry) : list string :=
  (if bool_decide (teHash cur = teHash ref) then [] else ["Hash: " +:+ shortHash (teHash cur) +:+ " != " +:+ shortHash (teHash ref)]) ++
  (if bool_decide (teGroupID cur = teGroupID ref) then [] else ["Grp: " +:+ teGroupID cur +:+ " != " +:+ teGroupID ref]) ++
  (if bool_decide (teTransactionIndex cur = teTransactionIndex ref) then []
   else ["TxIdx: " +:+ teTransactionIndex cur +:+ " != " +:+ teTransactionIndex ref]).

Definition newline : string := String (Ascii.ascii_of_nat 10) "".

(** The loop over the entries: the text and the number of differences; five are
    shown. *)
Fixpoint entryDiffs (name refName : string) (i : nat) (ref cur : list txOrderEntry) (acc : string * nat) : string * nat :=
  match ref, cur with
  | r :: ref, c :: cur =>
      let '(sb, diffs) := acc in
      entryDiffs name refName (S i) ref cur
        (if sameEntry r c then acc
         else ((if (diffs <? 5)%nat
                then sb +:+ "    ❌ " +:+ name +:+ " pos[" +:+ pretty i +:+ "]: LỆCH so với " +:+ refName +:+ " [" +:+
                     sep " | " (entryReasons c r) +:+ "] (tx: " +:+ shortHash (teHash c) +:+ ", grp: " +:+ teGroupID c +:+ ")" +:+ newline
                else sb), S diffs))
  | _, _ => acc
  end.

Definition allSame : string := "  🔍 *TX Order:* ✅ Tất cả nodes cùng thứ tự giao dịch, group, và transactionIndex".
Definition noReference : string := "  🔍 *TX Order:* không thể fetch (các nodes error hoặc block rỗng)".

(** One node against the reference. *)
Definition nodeOrder (refName : string) (ref : list txOrderEntry) (acc : string * bool) (nb : string * blockInfo) : string * bool :=
  let '(sb, allMatch) := acc in
  let '(name, b) := nb in
  if IsError b then (sb +:+ "    ❌ " +:+ name +:+ ": fetch error: " +:+ biError b +:+ newline, false)
  else if negb (length (biTxOrder b) =? length ref)%nat then
    (sb +:+ "    ❌ " +:+ name +:+ ": " +:+ pretty (length (biTxOrder b)) +:+ " txs (ref=" +:+ refName +:+ ": " +:+ pretty (length ref) +:+
     " txs) — COUNT DIFF!" +:+ newline, false)
  else
    let '(sb, diffs) := entryDiffs name refName 0 ref (biTxOrder b) (sb, 0%nat) in
    (if (diffs =? 0)%nat then sb +:+ "    ✅ " +:+ name +:+ ": TX order identical (" +:+ pretty (length ref) +:+ " txs, groups match)" +:+ newline
     else if (5 <? diffs)%nat then sb +:+ "    ... và " +:+ pretty (diffs - 5)%nat +:+ " diff(s) khác (bỏ qua để tiết kiệm log)" +:+ newline
     else sb, allMatch && (diffs =? 0)%nat).

(** The first node with transactions is the reference. *)
Definition checkTxOrderMismatch (nodes : list nodeInfo) (blockNum : Z) (blocks : gmap string blockInfo) : string :=
  match filter (fun nb => IsError nb.2 = false /\ biTxOrder nb.2 <> []) ((fun n => (nName n, blockOf blocks n)) <$> nodes) with
  | [] => noReference
  | (refName, ref) :: _ =>
      let start := "  🔍 *TX Order Check* (block #" +:+ pretty blockNum +:+ ", " +:+ pretty (length (biTxOrder ref)) +:+ " txs trên " +:+
                   refName +:+ "):" +:+ newline in
      let '(sb, allMatch) := foldl (nodeOrder refName (biTxOrder ref)) (start, true) ((fun n => (nName n, blockOf blocks n)) <$> nodes) in
      if allMatch then allSame else sb
  end.

(** ** Changed accounts *)

Record ModifiedAccount := mkModified {
  maAddress : string;
  maPreBalance : string;
  maPostBalance : string;
  maPreNonce : Z;
  maPostNonce : Z;
  maPreCodeHash : string;
  maPostCodeHash : string;
  maPreStorageRoot : string;
  maPostStorageRoot : string;
  maPreDataHash : string;
  maPostDataHash : string;
  maIsNew : bool
}.

Definition formatAccountDiffCompact (acc : ModifiedAccount) : string := if maIsNew acc then "TẠO MỚI" else "CẬP NHẬT".

Definition versus {A} `{EqDecision A} `{Pretty A} (what : string) (x y : A) : list string :=
  if bool_decide (x = y) then [] else [what +:+ ": `" +:+ pretty x +:+ "` vs `" +:+ pretty y +:+ "`"].

#[local] Instance pretty_string : Pretty string := fun s => s.

Definition fieldDiffs (acc1 acc2 : ModifiedAccount) : list string :=
  versus "balance" (maPostBalance acc1) (maPostBalance acc2) ++
  versus "nonce" (maPostNonce acc1) (maPostNonce acc2) ++
  versus "codeHash" (maPostCodeHash acc1) (maPostCodeHash acc2) ++
  versus "storageRoot" (maPostStorageRoot acc1) (maPostStorageRoot acc2) ++
  versus "dataHash" (maPostDataHash acc1) (maPostDataHash acc2).

Definition onlyOn (addr here there : string) (acc : ModifiedAccount) : string :=
  "  - *Tài khoản " +:+ addr +:+ "*: Chỉ thay đổi ở `" +:+ here +:+ "` (không đổi ở `" +:+ there +:+ "`)" +:+ newline +:+
  "    * [" +:+ here +:+ "]: " +:+ formatAccountDiffCompact acc +:+ " (bal=" +:+ maPostBalance acc +:+ ", nonce=" +:+ pretty (maPostNonce acc) +:+
  ")" +:+ newline.

(** The lines of one address: none when the account is the same. *)
Definition addressDiff (name1 name2 : string) (m1 m2 : gmap string ModifiedAccount) (addr : string) : list string :=
  match m1 !! addr, m2 !! addr with
  | None, acc2 => [onlyOn addr name2 name1 (default (mkModified "" "" "" 0 0 "" "" "" "" "" "" false) acc2)]
  | Some acc1, None => [onlyOn addr name1 name2 acc1]
  | Some acc1, Some acc2 =>
      match fieldDiffs acc1 acc2 with
      | [] => []
      | ds => ["  - *Tài khoản " +:+ addr +:+ "*:" +:+ newline +:+
               foldl (fun sb fd => sb +:+ "    * ⚠️ *Khác biệt " +:+ fd +:+ "*" +:+ newline) "" ds]
      end
  end.

(** [sort.Strings]: byte order. *)
#[local] Definition byteOrder (a b : string) : Prop := String.leb a b = true.
#[local] Instance byteOrder_dec a b : Decision (byteOrder a b).
Proof. unfold byteOrder. apply _. Defined.

Definition sortedAddrs (m1 m2 : gmap string ModifiedAccount) : list string := merge_sort byteOrder (elements (dom m1 ∪ dom m2)).

Definition noDiffs : string := "  - ✅ Không phát hiện khác biệt nào trong dữ liệu các tài khoản bị thay đổi!" +:+ newline.

(** The answers of [debug_getBlockStateDiff]: an error, nothing, or the accounts. *)
Abbreviation StateDiff := (sum string (option (gmap string ModifiedAccount))).

Definition diffHeader (node1 node2 : nodeInfo) (blockNum : Z) : string :=
  newline +:+ "• 🔍 *ĐỐI CHIẾU CHI TIẾT TÀI KHOẢN GIỮA " +:+ nName node1 +:+ " VÀ " +:+ nName node2 +:+ " TẠI BLOCK #" +:+
  pretty blockNum +:+ ":*" +:+ newline.

Definition compareNodeStateDiffs (diff1 diff2 : StateDiff) (node1 node2 : nodeInfo) (blockNum : Z) : string :=
  let failed (node : nodeInfo) (d : StateDiff) :=
    match d with inl e => "  - [" +:+ nName node +:+ "] ❌ Lỗi lấy thông tin: `" +:+ e +:+ "`" +:+ newline | inr _ => "" end in
  let sb := diffHeader node1 node2 blockNum +:+ failed node1 diff1 +:+ failed node2 diff2 in
  match diff1, diff2 with
  | inr (Some m1), inr (Some m2) =>
      match concat (addressDiff (nName node1) (nName node2) m1 m2 <$> sortedAddrs m1 m2) with
      | [] => sb +:+ noDiffs
      | ls => foldl String.append sb ls
      end
  | inr _, inr _ => sb +:+ "  - ⚠️ Dữ liệu trả về từ RPC rỗng." +:+ newline
  | _, _ => sb
  end.

(** ** The receipts of a block *)

Record receiptResult := mkReceiptResult { rrStatus : string; rrGasUsed : string }.
Record txObjectResult := mkTxObject { toHash : string; toFrom : string; toNonce : string }.

Record receiptInfo := mkReceiptInfo { riTxHash : string; riFrom : string; riNonce : Z; riStatus : string; riGasUsed : Z }.

(** The goroutine of one transaction; the receipt is an error, missing, or there. *)
Definition receiptOf (tx : txObjectResult) (answer : string + option receiptResult) : receiptInfo :=
  match answer with
  | inr (Some rcp) =>
      mkReceiptInfo (toHash tx) (toFrom tx) (parseHexStr (toNonce tx)) (if bool_decide (rrStatus rcp = "0x1") then "ok" else "fail")
        (parseHexStr (rrGasUsed rcp))
  | _ => mkReceiptInfo (toHash tx) (toFrom tx) (parseHexStr (toNonce tx)) "missing" 0
  end.

Record Summary := mkSummary { okCount : nat; failCount : nat; missingCount : nat }.

Definition summarize (results : list receiptInfo) : Summary :=
  foldl (fun s ri =>
    if bool_decide (riStatus ri = "ok") then mkSummary (S (okCount s)) (failCount s) (missingCount s)
    else if bool_decide (riStatus ri = "fail") then mkSummary (okCount s) (S (failCount s)) (missingCount s)
    else mkSummary (okCount s) (failCount s) (S (missingCount s))) (mkSummary 0 0 0) results.

Definition nonceSample (ri : receiptInfo) : string :=
  (if (10 <? String.length (riFrom ri))%nat then String.substring 0 10 (riFrom ri) +:+ "..." else riFrom ri) +:+
  "→n=" +:+ pretty (riNonce ri) +:+ ":" +:+ riStatus ri.

(** The answer to the request for the block. *)
Inductive BlockTxs := RpcError | ReadError | ParseError | BlockNull | TxParseError | Txs (l : list txObjectResult).

Definition fetchReceiptSummary (block : BlockTxs) (receipt : nat -> string + option receiptResult) : string :=
  match block with
  | RpcError => "[receipts: rpc_error]"
  | ReadError => "[receipts: read_error]"
  | ParseError => "[receipts: parse_error]"
  | BlockNull => "[receipts: block_null]"
  | TxParseError => "[receipts: tx_parse_error]"
  | Txs [] => "[receipts: 0 txs in block body]"
  | Txs txs =>
      let results := imap (fun i tx => receiptOf tx (receipt i)) txs in
      let s := summarize results in
      "[receipts: " +:+ pretty (okCount s) +:+ "✅ / " +:+ pretty (failCount s) +:+ "❌ / " +:+ pretty (missingCount s) +:+
      "❓ | samples: " +:+ sep ", " (nonceSample <$> take 5 results) +:+ "]"
  end.

(** ** When the reports say that all is well *)

Lemma sameEntry_eq a b : sameEntry a b = true <-> a = b.
Proof.
  unfold sameEntry. rewrite !andb_true_iff, !bool_decide_eq_true. destruct a, b; cbn. naive_solver.
Qed.

(** The texts grow at the end. *)
Definition extends (s t : string) : Prop := exists u, t = s +:+ u.

Lemma extends_app s t u : extends s t -> extends s (t +:+ u).
Proof. intros [v ->]. exists (v +:+ u). by rewrite append_assoc'. Qed.
Lemma extends_refl s : extends s s.
Proof. exists "". by rewrite append_empty. Qed.

Lemma entryDiffs_spec name refName ref : forall i cur sb d start, length ref = length cur -> extends start sb ->
  let r := entryDiffs name refName i ref cur (sb, d) in extends start r.1 /\ (d <= r.2)%nat /\ (r.2 = d <-> ref = cur).
Proof.
  induction ref as [|r ref IH]; intros i [|c cur] sb d start Hl Hs; cbn [entryDiffs]; try done.
  injection Hl as Hl. destruct (sameEntry r c) eqn:E.
  - apply sameEntry_eq in E as ->. destruct (IH (S i) cur sb d start Hl Hs) as (? & ? & Hd). split_and!; [done..|]. rewrite Hd. naive_solver.
  - match goal with |- context [entryDiffs _ _ _ _ _ (?x, S d)] => assert (Hx : extends start x) by (destruct (d <? 5)%nat; [by apply extends_app|done]);
      destruct (IH (S i) cur x (S d) start Hl Hx) as (? & ? & Hd) end. split_and!; [done|lia|]. split; [lia|].
    intros [= -> ->]. assert (Hc : sameEntry c c = true) by by apply sameEntry_eq. congruence.
Qed.

Definition orderSame (ref : list txOrderEntry) (b : blockInfo) : bool := negb (IsError b) && bool_decide (biTxOrder b = ref).

Lemma nodeOrder_spec refName ref start sb all nb : extends start sb ->
  let r := nodeOrder refName ref (sb, all) nb in extends start r.1 /\ r.2 = all && orderSame ref nb.2.
Proof.
  intros Hs. destruct nb as [name b]. unfold nodeOrder, orderSame. cbn [snd]. destruct (IsError b); cbn [negb andb fst snd].
  { split; [by apply extends_app|]. by rewrite andb_false_r. }
  destruct (Nat.eqb_spec (length (biTxOrder b)) (length ref)) as [El|El]; cbn [negb].
  - destruct (entryDiffs_spec name refName ref 0 (biTxOrder b) sb 0 start (eq_sym El) Hs) as (He & _ & Hd).
    destruct (entryDiffs _ _ _ _ _ _) as [sb' d]. cbn [fst snd] in *. split; [repeat case_match; try done; by apply extends_app|]. f_equal.
    apply eq_true_iff_eq. rewrite Nat.eqb_eq, bool_decide_eq_true, Hd. naive_solver.
  - split; [by apply extends_app|]. rewrite bool_decide_eq_false_2; [by rewrite andb_false_r|]. intros E; by rewrite E in El.
Qed.

Lemma nodeOrders_spec refName ref start l : forall sb all, extends start sb ->
  let r := foldl (nodeOrder refName ref) (sb, all) l in extends start r.1 /\ r.2 = all && forallb (fun nb => orderSame ref nb.2) l.
Proof.
  induction l as [|nb l IH]; intros sb all Hs; cbn [foldl forallb]; [split; [done|]; by rewrite andb_true_r|].
  destruct (nodeOrder_spec refName ref start sb all nb Hs) as [H1 H2]. destruct (nodeOrder refName ref (sb, all) nb) as [sb' all'].
  destruct (IH sb' all' H1) as [H3 H4]. split; [done|]. rewrite H4. cbn [snd] in H2. rewrite H2. by rewrite andb_assoc.
Qed.

(** The transactions are reported to be the same exactly when every node has the
    block, all with the same transactions, and there are some. *)
Theorem tx_order_verdict nodes blockNum blocks :
  checkTxOrderMismatch nodes blockNum blocks = allSame <->
  exists txs, txs <> [] /\ nodes <> [] /\ forall n, n ∈ nodes -> IsError (blockOf blocks n) = false /\ biTxOrder (blockOf blocks n) = txs.
Proof.
  unfold checkTxOrderMismatch. set (l := (fun n => (nName n, blockOf blocks n)) <$> nodes).
  assert (Hl : forall n, n ∈ nodes <-> (nName n, blockOf blocks n) ∈ l /\ n ∈ nodes).
  { intros n. split; [|naive_solver]. intros Hn. split; [|done]. by apply (list_elem_of_fmap_2 (fun n => (nName n, blockOf blocks n))). }
  destruct (filter _ l) as [|[refName ref] fl] eqn:Ef.
  - split; [done|]. intros (txs & Ht & Hn & Hall). destruct nodes as [|n nodes']; [done|]. exfalso.
    assert (Hin : (nName n, blockOf blocks n) ∈ filter (fun nb : string * blockInfo => IsError nb.2 = false /\ biTxOrder nb.2 <> []) l).
    { apply list_elem_of_filter. destruct (Hall n ltac:(left)) as [He Ho]. split; [cbn; by rewrite Ho|]. apply Hl. left. }
    rewrite Ef in Hin. by apply elem_of_nil in Hin.
  - assert (Href : (refName, ref) ∈ filter (fun nb : string * blockInfo => IsError nb.2 = false /\ biTxOrder nb.2 <> []) l) by (rewrite Ef; left).
    apply list_elem_of_filter in Href as [[He Ho] Hin]. apply list_elem_of_fmap in Hin as (n0 & [= -> ->] & Hn0).
    set (start := "  🔍 *TX Order Check* (block #" +:+ _). destruct (nodeOrders_spec (nName n0) (biTxOrder (blockOf blocks n0)) start l start true (extends_refl _)) as [Hs Ha].
    destruct (foldl _ _ l) as [sb all]. cbn [fst snd] in *. rewrite andb_true_l in Ha. subst all.
    assert (Hall : forallb (fun nb => orderSame (biTxOrder (blockOf blocks n0)) nb.2) l = true <->
      forall n, n ∈ nodes -> IsError (blockOf blocks n) = false /\ biTxOrder (blockOf blocks n) = biTxOrder (blockOf blocks n0)).
    { rewrite forallb_forall. unfold orderSame. split.
      - intros H n Hn. specialize (H (nName n, blockOf blocks n)). rewrite <- list_elem_of_In in H. specialize (H (proj1 (proj1 (Hl n) Hn))).
        cbn in H. by rewrite andb_true_iff, negb_true_iff, bool_decide_eq_true in H.
      - intros H nb Hnb%list_elem_of_In. apply list_elem_of_fmap in Hnb as (n & -> & Hn). cbn. destruct (H n Hn) as [-> ->].
        by rewrite bool_decide_eq_true_2. }
    destruct (forallb _ l).
    + split; [intros _|done]. exists (biTxOrder (blockOf blocks n0)). split_and!; [done|by intros ->; apply elem_of_nil in Hn0|]. by apply Hall.
    + split.
      * intros E. exfalso. destruct Hs as [u ->]. unfold start in E. rewrite !append_assoc' in E. discriminate E.
      * intros (txs & _ & _ & Hsame). assert (Hb : false = true); [|done]. apply Hall. intros n Hn. destruct (Hsame n Hn) as [? ->].
        split; [done|]. symmetry. by apply Hsame.
Qed.

(** What a block left of an account. *)
Definition post (a : ModifiedAccount) := (maPostBalance a, maPostNonce a, maPostCodeHash a, maPostStorageRoot a, maPostDataHash a).

Lemma versus_nil {A} `{EqDecision A} `{Pretty A} what (x y : A) : versus what x y = [] <-> x = y.
Proof. unfold versus. case_bool_decide; naive_solver. Qed.

Lemma fieldDiffs_nil a b : fieldDiffs a b = [] <-> post a = post b.
Proof.
  unfold fieldDiffs, post. split.
  - intros E. repeat match goal with H : (_ ++ _)%list = [] |- _ => apply app_eq_nil in H as [? ?] end.
    repeat match goal with H : versus _ _ _ = [] |- _ => apply versus_nil in H end. congruence.
  - intros [=]. unfold versus. by rewrite !bool_decide_eq_true_2.
Qed.

Lemma addressDiff_nil n1 n2 m1 m2 addr : addr ∈ dom m1 ∪ dom m2 ->
  addressDiff n1 n2 m1 m2 addr = [] <-> post <$> m1 !! addr = post <$> m2 !! addr.
Proof.
  intros Hd. rewrite elem_of_union, !elem_of_dom in Hd. unfold addressDiff. destruct (m1 !! addr) as [a|], (m2 !! addr) as [b|]; cbn; try done.
  - destruct (fieldDiffs a b) eqn:E; split; try done.
    + intros _. f_equal. by apply fieldDiffs_nil.
    + intros [= E']. rewrite (proj2 (fieldDiffs_nil a b)) in E; [done|]. unfold post. congruence.
  - destruct Hd as [[? ?]|[? ?]]; done.
Qed.

Lemma addressDiff_lines n1 n2 m1 m2 addr : Forall (fun s => exists t, s = "  - *" +:+ t) (addressDiff n1 n2 m1 m2 addr).
Proof.
  unfold addressDiff, onlyOn. repeat case_match; repeat constructor; eexists;
    match goal with |- ?s = _ => lazymatch s with ?a +:+ ?b => change (a) with ("  - *" +:+ "Tài khoản ") end end;
    rewrite append_assoc'; reflexivity.
Qed.

Lemma foldl_append sb ls : exists t, foldl String.append sb ls = sb +:+ t /\ (forall l ls', ls = l :: ls' -> exists u, t = l +:+ u).
Proof.
  revert sb. induction ls as [|l ls IH]; intros sb; cbn [foldl]; [exists ""; split; [by rewrite append_empty|done]|].
  destruct (IH (sb +:+ l)) as (t & E & _). exists (l +:+ t). rewrite E, append_assoc'. split; [done|]. intros l' ls' [= <- _]. by exists t.
Qed.

Definition diffLines (node1 node2 : nodeInfo) (m1 m2 : gmap string ModifiedAccount) : list string :=
  concat (addressDiff (nName node1) (nName node2) m1 m2 <$> sortedAddrs m1 m2).

Lemma elem_sortedAddrs m1 m2 addr : addr ∈ sortedAddrs m1 m2 <-> addr ∈ dom m1 ∪ dom m2.
Proof. unfold sortedAddrs. rewrite merge_sort_Permutation. apply elem_of_elements. Qed.

Lemma elem_diffLines node1 node2 m1 m2 x :
  x ∈ diffLines node1 node2 m1 m2 <-> exists addr, addr ∈ dom m1 ∪ dom m2 /\ x ∈ addressDiff (nName node1) (nName node2) m1 m2 addr.
Proof.
  unfold diffLines. rewrite list_elem_of_In, in_concat. split.
  - intros (ll & Hll & Hx). apply list_elem_of_In, list_elem_of_fmap in Hll as (addr & -> & Ha%elem_sortedAddrs).
    exists addr. split; [done|]. by apply list_elem_of_In.
  - intros (addr & Ha & Hx). eexists. split; [|by apply list_elem_of_In]. apply list_elem_of_In, list_elem_of_fmap_2. by apply elem_sortedAddrs.
Qed.

Lemma diffLines_nil node1 node2 m1 m2 : diffLines node1 node2 m1 m2 = [] <-> forall addr, post <$> m1 !! addr = post <$> m2 !! addr.
Proof.
  split.
  - intros E addr. destruct (decide (addr ∈ dom m1 ∪ dom m2)) as [Hd|[H1%not_elem_of_dom H2%not_elem_of_dom]%not_elem_of_union];
      [|by rewrite H1, H2]. apply (addressDiff_nil (nName node1) (nName node2) m1 m2 addr Hd).
    destruct (addressDiff _ _ _ _ addr) as [|x l] eqn:Ea; [done|exfalso]. apply (elem_of_nil x). rewrite <- E. apply elem_diffLines.
    exists addr. split; [done|]. rewrite Ea. left.
  - intros Heq. destruct (diffLines node1 node2 m1 m2) as [|x l] eqn:E; [done|exfalso].
    assert (Hx : x ∈ diffLines node1 node2 m1 m2) by (rewrite E; left). apply elem_diffLines in Hx as (addr & Hd & Hx).
    rewrite (proj2 (addressDiff_nil (nName node1) (nName node2) m1 m2 addr Hd) (Heq addr)) in Hx. by apply elem_of_nil in Hx.
Qed.

(** The accounts are reported to be the same exactly when both nodes changed the
    same accounts and left the same balance, nonce, code, storage and data in them. *)
Theorem state_diff_verdict m1 m2 node1 node2 blockNum :
  compareNodeStateDiffs (inr (Some m1)) (inr (Some m2)) node1 node2 blockNum = diffHeader node1 node2 blockNum +:+ noDiffs <->
  forall addr, post <$> m1 !! addr = post <$> m2 !! addr.
Proof.
  rewrite <- (diffLines_nil node1 node2). unfold compareNodeStateDiffs. change ("" +:+ "") with "". rewrite append_empty.
  fold (diffLines node1 node2 m1 m2). destruct (diffLines node1 node2 m1 m2) as [|l ls] eqn:E; [done|]. split; [|done]. intros Ec. exfalso.
  destruct (foldl_append (diffHeader node1 node2 blockNum) (l :: ls)) as (t & Ef & Ht). destruct (Ht l ls eq_refl) as [u ->].
  rewrite Ef in Ec. apply append_cancel in Ec.
  assert (Hl : l ∈ diffLines node1 node2 m1 m2) by (rewrite E; left). apply elem_diffLines in Hl as (addr & _ & Hl).
  destruct (proj1 (Forall_forall _ _) (addressDiff_lines (nName node1) (nName node2) m1 m2 addr) l Hl) as [v ->].
  rewrite append_assoc' in Ec. discriminate Ec.
Qed.

(** Every transaction is counted once. *)
Theorem receipts_counted txs answers :
  let s := summarize (imap (fun i tx => receiptOf tx (answers i)) txs) in
  (okCount s + failCount s + missingCount s = length txs)%nat /\
  (missingCount s = 0%nat <-> forall i, (i < length txs)%nat -> exists rcp, answers i = inr (Some rcp)).
Proof.
  cbv zeta.
  assert (Hg : forall l s0 k, let s := foldl (fun s ri =>
      if bool_decide (riStatus ri = "ok") then mkSummary (S (okCount s)) (failCount s) (missingCount s)
      else if bool_decide (riStatus ri = "fail") then mkSummary (okCount s) (S (failCount s)) (missingCount s)
      else mkSummary (okCount s) (failCount s) (S (missingCount s))) s0 (imap (fun i tx => receiptOf tx (answers (k + i)%nat)) l) in
    (okCount s + failCount s + missingCount s = okCount s0 + failCount s0 + missingCount s0 + length l)%nat /\
    (missingCount s = 0%nat <-> missingCount s0 = 0%nat /\ forall i, (i < length l)%nat -> exists rcp, answers (k + i)%nat = inr (Some rcp))).
  { intros l. induction l as [|tx l IH]; intros s0 k; cbv zeta; cbn [imap foldl length].
    - split; [lia|]. split; [|naive_solver]. intros ->. split; [done|]. intros i Hi. lia.
    - match goal with |- context [foldl _ ?x _] => set (s1 := x) end.
      replace (imap ((fun i tx0 => receiptOf tx0 (answers (k + i)%nat)) ∘ S) l) with (imap (fun i tx0 => receiptOf tx0 (answers (S k + i)%nat)) l)
        by (apply imap_ext; intros i x _; cbn; by rewrite Nat.add_succ_r).
      destruct (IH s1 (S k)) as [E1 E2]. rewrite E1, E2. clear E1 E2 IH.
      assert (Hs : (okCount s1 + failCount s1 + missingCount s1 = S (okCount s0 + failCount s0 + missingCount s0))%nat /\
        (missingCount s1 = 0%nat <-> missingCount s0 = 0%nat /\ exists rcp, answers (k + 0)%nat = inr (Some rcp))).
      { unfold s1, receiptOf. destruct (answers (k + 0)%nat) as [e|[rcp|]]; cbn [riStatus].
        - rewrite !bool_decide_eq_false_2 by done. cbn. split; [lia|]. split; [done|]. by intros (_ & ? & ?).
        - destruct (bool_decide (rrStatus rcp = "0x1")).
          + rewrite bool_decide_eq_true_2 by done. cbn. split; [lia|]. naive_solver.
          + rewrite bool_decide_eq_false_2, bool_decide_eq_true_2 by done. cbn. split; [lia|]. naive_solver.
        - rewrite !bool_decide_eq_false_2 by done. cbn. split; [lia|]. split; [done|]. by intros (_ & ? & ?). }
      destruct Hs as [H1 H2]. split; [lia|]. rewrite H2. split.
      + intros [[? ?] Hr]. split; [done|]. intros [|i] Hi; [done|]. rewrite Nat.add_succ_r. apply (Hr i). lia.
      + intros [? Hr]. split; [split; [done|]; apply (Hr 0%nat); lia|]. intros i Hi. specialize (Hr (S i) ltac:(lia)). by rewrite Nat.add_succ_r in Hr. }
  destruct (Hg txs (mkSummary 0 0 0) 0%nat) as [E1 E2]. cbn [okCount failCount missingCount Nat.add] in E1, E2. split; [exact E1|].
  etransitivity; [exact E2|]. naive_solver.
Qed.
