(* ===== verification/BlockCheckerTheorems.v ===== *)
(** * The block hash checker: what a batch reports

    A batch classifies every block of its range once, as a mismatch, a match, a
    block that too few nodes have, or a block that no node has; it reports a
    mismatch exactly for the blocks on which two nodes disagree, or whose parent
    hash is not the hash of the block before on the same node. *)

From Stdlib Require Import Ascii.
From stdpp Require Import sorting.
From stdpp Require Import pretty.
From S2P Require Import Prelude GoStrings BlockChecker.

Local Open Scope Z_scope.

(** ** The node list *)

(** A name and a URL that the flag can hold. *)
Definition plain (kv : string * string) : Prop :=
  kv.1 <> ""%string /\ kv.2 <> ""%string /\ noSpaces kv.1 /\ noSpaces kv.2 /\ without "," kv.1 /\ without "," kv.2 /\ without "=" kv.1.

Lemma parseNode_plain kv : plain kv -> parseNode (kv.1 +:+ "=" +:+ kv.2) = Some (mkNode kv.1 kv.2).
Proof.
  intros (H1 & H2 & S1 & S2 & _ & _ & He). unfold parseNode. rewrite trim_noSpaces by (apply noSpaces_app; split; [done|]; by split).
  rewrite bool_decide_eq_false_2; [|by destruct kv.1]. change ("=" +:+ kv.2)%string with (String "=" kv.2). rewrite cutAt_app by done.
  rewrite !trim_noSpaces by done. by rewrite !bool_decide_eq_false_2 by done.
Qed.

(** The nodes of the configuration file come through: the flag that
    is made of a map of names and URLs, none of them empty or with blanks or commas,
    and no equals sign in a name, is parsed to the same names and URLs in the same
    order. *)
Theorem config_nodes_roundtrip nodesMap : Forall plain nodesMap ->
  parseNodes (nodesFlagOf nodesMap) = (fun kv => mkNode kv.1 kv.2) <$> nodesMap.
Proof.
  unfold parseNodes, nodesFlagOf. induction nodesMap as [|kv l IH]; intros Hl; [done|]. apply Forall_cons in Hl as [Hk Hl].
  assert (Hc : without "," (kv.1 +:+ "=" +:+ kv.2)) by (destruct Hk as (_ & _ & _ & _ & ? & ? & _); apply without_app; split; [done|]; by split).
  destruct l as [|kv' l].
  - cbn [fmap list_fmap joinComma]. rewrite (splitOn_without _ _ Hc). cbn [omap list_omap]. by rewrite (parseNode_plain kv Hk).
  - specialize (IH Hl). cbn [fmap list_fmap joinComma] in *. match goal with |- context [("," +:+ ?t)%string] => change ("," +:+ t)%string with (String "," t) end.
    rewrite (splitOn_app _ _ _ Hc). cbn [omap list_omap]. rewrite (parseNode_plain kv Hk). f_equal. exact IH.
Qed.

Lemma config_nodes_roundtrip_witness :
  parseNodes (nodesFlagOf [("m0", "http://10.0.0.1:8757"); ("node4", "http://10.0.0.2:8757/?a=b")]%string) =
  [mkNode "m0" "http://10.0.0.1:8757"; mkNode "node4" "http://10.0.0.2:8757/?a=b"].
Proof. apply (config_nodes_roundtrip [("m0", "http://10.0.0.1:8757"); ("node4", "http://10.0.0.2:8757/?a=b")]%string). repeat constructor; discriminate. Defined.

(** ** Fields *)

(** Two blocks agree when every compared field is the same. *)
Definition header (b : blockInfo) :=
  (biHash b, biParentHash b, biStateRoot b, biStakeStatesRoot b, biTransactionsRoot b, biReceiptsRoot b, biTimestamp b, biMiner b,
   biEpoch b, biGlobalExecIndex b, biCommitIndex b).
Definition agree (b c : blockInfo) : Prop := header b = header c /\ biTxOrder b = biTxOrder c.

#[export] Instance agree_equivalence : Equivalence agree.
Proof.
  split; [done|intros b c []; by split|]. intros b c d [H1 H2] [H3 H4]. split; congruence.
Qed.

Lemma differs_nil {A} `{EqDecision A} name (x y : A) : differs name x y = [] <-> x = y.
Proof. unfold differs. case_bool_decide; naive_solver. Qed.

Lemma app_nil_iff {A} (l k : list A) : l ++ k = [] <-> l = [] /\ k = [].
Proof. split; [apply app_eq_nil|]. by intros [-> ->]. Qed.

Lemma headerFields_nil b c : headerFields b c = [] <-> header b = header c.
Proof. unfold headerFields, header. rewrite !app_nil_iff, !differs_nil. split; [intros; destruct_and!; congruence|]. intros [=]. by split_and!. Qed.

Lemma zip_agree (l k : list txOrderEntry) : length l = length k ->
  existsb (fun p => negb (bool_decide (teHash p.1 = teHash p.2) && bool_decide (teGroupID p.1 = teGroupID p.2) &&
                          bool_decide (teTransactionIndex p.1 = teTransactionIndex p.2))) (zip l k) = false <-> l = k.
Proof.
  revert k. induction l as [|[h g t] l IH]; intros [|[h' g' t'] k]; cbn; [done..|]. intros [= El]. rewrite orb_false_iff, IH by done.
  rewrite negb_false_iff, !andb_true_iff, !bool_decide_eq_true. naive_solver.
Qed.

Lemma orderDiffers_nil l k : orderDiffers l k = [] <-> l = k.
Proof.
  unfold orderDiffers. destruct (length l =? length k)%nat eqn:El; cbn [negb].
  - apply Nat.eqb_eq in El. rewrite <- (zip_agree l k El). by destruct (existsb _ _).
  - split; [done|]. intros ->. by rewrite Nat.eqb_refl in El.
Qed.

Lemma differentFields_nil b c : differentFields b c = [] <-> agree b c.
Proof. unfold differentFields, agree. by rewrite app_nil_iff, headerFields_nil, orderDiffers_nil. Qed.

Lemma fieldMismatches_nil l : fieldMismatches l = [] <-> forall b c, b ∈ l -> c ∈ l -> agree b c.
Proof.
  destruct l as [|ref l]; cbn [fieldMismatches]; [split; [by intros _ b c ?%elem_of_nil|done]|].
  assert (Hc : concat ((fun b => differentFields b ref) <$> l) = [] <-> forall b, b ∈ l -> agree b ref).
  { induction l as [|b l IH]; cbn [fmap list_fmap concat]; [by split; [intros _ b ?%elem_of_nil|]|].
    rewrite app_nil_iff, differentFields_nil, IH. setoid_rewrite elem_of_cons. naive_solver. }
  rewrite Hc. setoid_rewrite elem_of_cons. split; [|naive_solver].
  intros Hl. assert (Hr : forall b, b = ref \/ b ∈ l -> agree b ref) by (intros b [->|Hb]; [done|by apply Hl]).
  intros b c Hb Hcc. transitivity ref; [by apply Hr|]. symmetry. by apply Hr.
Qed.

(** ** The previous block of a node *)

Section Batch.
Context (nodes : list nodeInfo).

Definition hashAt (r : result) (node : nodeInfo) : option string :=
  let bi := blockOf (rBlocks r) node in if IsError bi then None else Some (biHash bi).

(** What a batch remembers of the block before. *)
Definition remembers (prev : option result) (m : gmap string string) : Prop :=
  forall node, node ∈ nodes -> m !! nName node = prev ≫= fun r => hashAt r node.

(** A loop over the nodes that writes the entry of each by name only. *)
Lemma foldl_by_name {V} (upd : gmap string V -> nodeInfo -> gmap string V) (want : string -> option V) l m node :
  (forall m n, upd m n !! nName n = want (nName n)) ->
  (forall m n k, k <> nName n -> upd m n !! k = m !! k) ->
  node ∈ l -> foldl upd m l !! nName node = want (nName node).
Proof.
  intros Heq Hne. revert m. induction l as [|n l IH] using rev_ind; intros m; [by intros ?%elem_of_nil|].
  rewrite foldl_app. cbn. intros Hin. destruct (decide (nName node = nName n)) as [->|Hn]; [apply Heq|].
  rewrite Hne by done. apply elem_of_app in Hin as [Hin|Hin]; [by apply IH|]. apply list_elem_of_singleton in Hin. by subst.
Qed.

Lemma hashAt_name r node node' : nName node = nName node' -> hashAt r node = hashAt r node'.
Proof. unfold hashAt, blockOf. by intros ->. Qed.

Lemma updatePrevHashes_lookup r m node : node ∈ nodes -> updatePrevHashes nodes (rBlocks r) m !! nName node = hashAt r node.
Proof.
  unfold updatePrevHashes. apply (foldl_by_name _ (fun k => hashAt r (mkNode k ""))); clear.
  - intros m n. unfold hashAt, blockOf. cbn. destruct (IsError _); [by rewrite lookup_delete_eq|by rewrite lookup_insert_eq].
  - intros m n k Hk. unfold blockOf. destruct (IsError _); [by rewrite lookup_delete_ne|by rewrite lookup_insert_ne].
Qed.

Lemma deleteAll_lookup {V} (m : gmap string V) node : node ∈ nodes -> foldl (fun m n => delete (nName n) m) m nodes !! nName node = None.
Proof.
  apply (foldl_by_name _ (fun _ => None)); clear; [intros m n; by rewrite lookup_delete_eq|].
  intros m n k Hk. by rewrite lookup_delete_ne.
Qed.

Lemma originalHashes_lookup r node : node ∈ nodes -> originalHashes nodes (rBlocks r) !! nName node = hashAt r node.
Proof.
  unfold originalHashes. intros Hin.
  assert (H : forall (l : list nodeInfo) (m : gmap string string), node ∈ l \/ m !! nName node = hashAt r node ->
    (forall n, n ∈ l -> m !! nName n = None \/ m !! nName n = hashAt r n) ->
    foldl (fun m n => let bi := blockOf (rBlocks r) n in if IsError bi then m else <[nName n := biHash bi]> m) m l !! nName node = hashAt r node);
    [|apply H; [by left|intros n _; by left]].
  intros l. induction l as [|n l IH]; intros m Hn Hm; cbn [foldl]; [destruct Hn as [?%elem_of_nil|]; done|].
  apply IH.
  - destruct (decide (nName node = nName n)) as [E|E].
    + right. rewrite (hashAt_name r node n E), E. cbv zeta. unfold hashAt at 1.
      destruct (IsError (blockOf (rBlocks r) n)) eqn:Ei; [|by rewrite lookup_insert_eq].
      destruct (Hm n) as [?|Hm']; [apply elem_of_cons; by left|done|]. rewrite Hm'. unfold hashAt. by rewrite Ei.
    + destruct Hn as [Hn|Hn]; [apply elem_of_cons in Hn as [->|]; [done|by left]|right].
      cbv zeta. destruct (IsError _); [done|]. by rewrite lookup_insert_ne.
  - intros n' Hn'. cbv zeta. destruct (IsError (blockOf (rBlocks r) n)) eqn:Ei; [apply Hm, elem_of_cons; by right|].
    destruct (decide (nName n' = nName n)) as [E|E].
    + right. rewrite E, lookup_insert_eq, (hashAt_name r n' n E). unfold hashAt. by rewrite Ei.
    + rewrite lookup_insert_ne by done. apply Hm, elem_of_cons. by right.
Qed.

Lemma keepHashes_lookup r prev node : node ∈ nodes ->
  keepHashes nodes (originalHashes nodes (rBlocks r)) prev !! nName node = hashAt r node.
Proof.
  intros Hin. rewrite <- (originalHashes_lookup r node Hin). unfold keepHashes. generalize (originalHashes nodes (rBlocks r)) as orig. intros orig.
  assert (H : forall (l : list nodeInfo) (m : gmap string string), (node ∈ l \/ m !! nName node = orig !! nName node) ->
    (forall k h, orig !! k = Some h -> m !! k = Some h) ->
    foldl (fun m n => if bool_decide (is_Some (orig !! nName n)) then m else delete (nName n) m) m l !! nName node = orig !! nName node).
  - intros l. induction l as [|n l IH]; intros m Hn Hm; cbn [foldl]; [destruct Hn as [?%elem_of_nil|]; done|]. apply IH.
    + destruct (decide (nName node = nName n)) as [E|E].
      * right. rewrite E. case_bool_decide as Hs; [destruct Hs as [h Hh]; by rewrite Hh, (Hm _ _ Hh)|].
        rewrite lookup_delete_eq. by destruct (orig !! nName n) eqn:Eo; [destruct Hs|].
      * destruct Hn as [Hn|Hn]; [apply elem_of_cons in Hn as [->|]; [done|by left]|right].
        case_bool_decide; [done|]. by rewrite lookup_delete_ne.
    + intros k h Hk. case_bool_decide as Hs; [by apply Hm|]. rewrite lookup_delete_ne; [by apply Hm|]. intros <-. by destruct Hs.
  - apply H; [by left|]. intros k h Hk. by apply lookup_union_Some_l.
Qed.

(** ** Links *)

Definition brokenLink (prev : gmap string string) (blocks : gmap string blockInfo) (node : nodeInfo) : bool :=
  let bi := blockOf blocks node in
  negb (IsError bi) && match prev !! nName node with Some h => negb (bool_decide (biParentHash bi = h)) | None => false end.

(** The blocks after some were marked. *)
Definition marked (blocks blocks' : gmap string blockInfo) (broken : bool) : Prop :=
  forall node, blockOf blocks' node = blockOf blocks node \/
    broken = true /\ exists e, e <> ""%string /\ blockOf blocks' node = setError e (blockOf blocks node).

Definition shortHashes (prev : gmap string string) (blocks : gmap string blockInfo) : Prop :=
  exists node, node ∈ nodes /\ IsError (blockOf blocks node) = false /\ ((String.length (biParentHash (blockOf blocks node)) < 18)%nat \/
    exists h, prev !! nName node = Some h /\ (String.length h < 18)%nat).

Lemma slicePrefix_cases s n : slicePrefix s n = Panic /\ (String.length s < n)%nat \/ exists p, slicePrefix s n = Ok p.
Proof. unfold slicePrefix. destruct (_ <? _)%nat eqn:E; [left; split; [done|by apply Nat.ltb_lt]|right; eauto]. Qed.

Lemma setError_error e b : e <> ""%string -> IsError (setError e b) = true.
Proof. intros He. unfold IsError. cbn. by case_bool_decide. Qed.

Lemma blockOf_insert blocks node node' bi :
  blockOf (<[nName node := bi]> blocks) node' = if decide (nName node' = nName node) then bi else blockOf blocks node'.
Proof. unfold blockOf. case_decide as E; [by rewrite E, lookup_insert_eq|by rewrite lookup_insert_ne]. Qed.

Lemma checkLinks_spec prev blocks l : l ⊆ nodes -> forall blocks' b, marked blocks blocks' b ->
  match checkLinks prev l (blocks', b) with
  | Ok (blocks'', b') => b' = b || existsb (brokenLink prev blocks) l /\ marked blocks blocks'' b'
  | Panic => shortHashes prev blocks
  | _ => False
  end.
Proof.
  induction l as [|node l IH]; intros Hl blocks' b Hm; cbn [checkLinks existsb]; [by rewrite orb_false_r|].
  assert (Hin : node ∈ nodes) by set_solver. specialize (IH ltac:(set_solver)).
  assert (Hgo : brokenLink prev blocks node = false \/ b = true ->
    match checkLinks prev l (blocks', b) with
    | Ok (blocks'', b') => b' = b || (brokenLink prev blocks node || existsb (brokenLink prev blocks) l) /\ marked blocks blocks'' b'
    | Panic => shortHashes prev blocks
    | _ => False
    end). { intros Hb. specialize (IH blocks' b Hm). destruct (checkLinks prev l (blocks', b)) as [[b2 c]| | |]; try done.
            destruct IH as [-> ?]. split; [|done]. by destruct Hb as [->| ->]. }
  unfold checkLink. destruct (Hm node) as [Eb|(Hb & e & He & Eb)].
  2:{ rewrite Eb, (setError_error e _ He). apply Hgo. by right. }
  rewrite Eb. destruct (IsError (blockOf blocks node)) eqn:Ei; [apply Hgo; left; unfold brokenLink; by rewrite Ei|].
  destruct (prev !! nName node) as [h|] eqn:Ep; [|apply Hgo; left; unfold brokenLink; by rewrite Ep, andb_false_r].
  case_bool_decide as Eh; [apply Hgo; left; unfold brokenLink; by rewrite Ep, bool_decide_true, andb_false_r by done|].
  destruct (slicePrefix_cases (biParentHash (blockOf blocks node)) 18) as [[-> Hs]|[p ->]]; [exists node; auto|].
  destruct (slicePrefix_cases h 18) as [[-> Hs]|[q ->]]; [exists node; split_and!; [done..|right; eauto]|]. cbn [mbind outcome_bind].
  match goal with |- context [checkLinks prev l (?x, true)] => specialize (IH x true) end.
  assert (Hbr : brokenLink prev blocks node = true) by (unfold brokenLink; by rewrite Ei, Ep, bool_decide_false by done).
  rewrite Hbr, orb_true_r. apply IH. intros node'. rewrite blockOf_insert. case_decide as En.
  - right. split; [done|]. eexists. split; [|unfold blockOf; by rewrite En]. done.
  - destruct (Hm node') as [?|(_ & ?)]; [by left|by right].
Qed.

(** ** Verdicts *)

Inductive verdict := Mismatched | Matched | Skipped | Absent.

Definition brokenFrom (prev : option result) (r : result) (node : nodeInfo) : bool :=
  let bi := blockOf (rBlocks r) node in
  negb (IsError bi) && match prev ≫= (fun p => hashAt p node) with Some h => negb (bool_decide (biParentHash bi = h)) | None => false end.

Definition verdictOf (prev : option result) (r : result) : verdict :=
  let valid := validBlocks nodes (rBlocks r) in
  if (length valid <? 2)%nat then
    if (length valid =? 0)%nat && (0 <? missingResponseCount nodes (rBlocks r))%nat then Absent else Skipped
  else if (0 <? length (fieldMismatches valid))%nat || existsb (brokenFrom prev r) nodes then Mismatched else Matched.

(** What a batch has counted so far. *)
Record Tally := mkTally { tMismatched : list Z; tMatched : Z; tSkipped : Z; tAbsent : list Z }.

Definition tally (s : batchState) : Tally := mkTally (mBlockNumber <$> mismatches s) (matchCount s) (skipCount s) (nilBlocks s).

Definition count (v : verdict) (n : Z) (t : Tally) : Tally :=
  match v with
  | Mismatched => mkTally (tMismatched t ++ [n]) (tMatched t) (tSkipped t) (tAbsent t)
  | Matched => mkTally (tMismatched t) (tMatched t + 1) (tSkipped t) (tAbsent t)
  | Skipped => mkTally (tMismatched t) (tMatched t) (tSkipped t + 1) (tAbsent t)
  | Absent => mkTally (tMismatched t) (tMatched t) (tSkipped t) (tAbsent t ++ [n])
  end.

Lemma checkNode_tally n blocks s node : tally (checkNode n blocks s node) = tally s /\ prevBlockHashes (checkNode n blocks s node) = prevBlockHashes s.
Proof. unfold checkNode. by repeat (case_match || done). Qed.

Lemma checkNodes_tally n blocks l s :
  tally (foldl (checkNode n blocks) s l) = tally s /\ prevBlockHashes (foldl (checkNode n blocks) s l) = prevBlockHashes s.
Proof.
  revert s. induction l as [|node l IH]; intros s; [done|]. cbn [foldl]. destruct (IH (checkNode n blocks s node)) as [-> ->]. apply checkNode_tally.
Qed.

Lemma brokenLink_from prev m r : remembers prev m ->
  existsb (brokenLink m (rBlocks r)) nodes = existsb (brokenFrom prev r) nodes.
Proof.
  intros Hm. assert (Hl : forall l, l ⊆ nodes -> existsb (brokenLink m (rBlocks r)) l = existsb (brokenFrom prev r) l); [|by apply Hl].
  intros l. induction l as [|node l IH]; intros Hl; [done|]. cbn [existsb]. rewrite IH by set_solver. f_equal.
  unfold brokenLink, brokenFrom. by rewrite Hm by set_solver.
Qed.

(** A hash too short to be shown. *)
Definition shortIn (r : result) : Prop :=
  exists node, node ∈ nodes /\ IsError (blockOf (rBlocks r) node) = false /\
    ((String.length (biParentHash (blockOf (rBlocks r) node)) < 18)%nat \/ (String.length (biHash (blockOf (rBlocks r) node)) < 18)%nat).

Lemma shortHashes_in prev m r : remembers prev m -> shortHashes m (rBlocks r) -> shortIn r \/ exists p, prev = Some p /\ shortIn p.
Proof.
  intros Hm (node & Hin & Hv & [Hs|(h & Hh & Hs)]); [left; exists node; auto|]. rewrite (Hm node Hin) in Hh.
  destruct prev as [p|]; [|done]. cbn in Hh. unfold hashAt in Hh. destruct (IsError (blockOf (rBlocks p) node)) eqn:Ei; [done|].
  injection Hh as <-. right. exists p. split; [done|]. exists node. auto.
Qed.

Lemma checkResult_spec prev s r : remembers prev (prevBlockHashes s) ->
  match checkResult nodes s r with
  | Ok s' => remembers (Some r) (prevBlockHashes s') /\ tally s' = count (verdictOf prev r) (rBlockNum r) (tally s)
  | Panic => shortIn r \/ exists p, prev = Some p /\ shortIn p
  | _ => False
  end.
Proof.
  intros Hm. unfold checkResult, verdictOf. set (s1 := if rHasError r then addError s else s).
  assert (Hm1 : remembers prev (prevBlockHashes s1)) by (unfold s1; by destruct (rHasError r)).
  assert (Ht1 : tally s1 = tally s) by (unfold s1; by destruct (rHasError r)). rewrite <- Ht1.
  destruct (length (validBlocks nodes (rBlocks r)) <? 2)%nat eqn:E2.
  - destruct (_ && _) eqn:E0; cbn [mbind outcome_bind prevBlockHashes setPrevHashes].
    + split; [|done]. intros node Hin. cbn [mbind option_bind]. rewrite deleteAll_lookup by done.
      apply andb_true_iff in E0 as [E0%Nat.eqb_eq _]. unfold hashAt. destruct (IsError _) eqn:Ei; [done|]. exfalso.
      assert (Hv : blockOf (rBlocks r) node ∈ validBlocks nodes (rBlocks r)).
      { apply list_elem_of_filter. split; [done|]. by apply list_elem_of_fmap_2. }
      destruct (validBlocks _ _); [by apply elem_of_nil in Hv|done].
    + split; [|done]. intros node Hin. cbn [mbind option_bind]. by apply updatePrevHashes_lookup.
  - set (ref := default _ _). set (s2 := if _ && _ then addEmpty _ _ s1 else s1).
    assert (Hm2 : remembers prev (prevBlockHashes s2)) by (unfold s2; by destruct (_ && _)).
    assert (Ht2 : tally s2 = tally s1) by (unfold s2; by destruct (_ && _)). rewrite <- Ht2.
    pose proof (checkLinks_spec (prevBlockHashes s2) (rBlocks r) nodes ltac:(done) (rBlocks r) false ltac:(intros node; by left)) as HL.
    destruct (checkLinks _ _ _) as [[blocks' b]| | |]; cbn [mbind outcome_bind]; [|done|by eapply shortHashes_in|done].
    destruct HL as [-> _]. rewrite (brokenLink_from _ _ _ Hm2), orb_false_l.
    set (s3 := setPrevHashes _ s2). cbn [fst snd].
    match goal with |- context [foldl _ ?s nodes] => destruct (checkNodes_tally (rBlockNum r) blocks' nodes s) as [-> ->] end.
    assert (Hm3 : remembers (Some r) (prevBlockHashes s3)) by (intros node Hin; by apply keepHashes_lookup).
    destruct (_ || _); [|by split]. split; [done|]. unfold tally. cbn. by rewrite fmap_app.
Qed.

(** The verdicts of a list of results, each with the one before it. *)
Fixpoint verdicts (prev : option result) (rs : list result) : list (Z * verdict) :=
  match rs with [] => [] | r :: rs => (rBlockNum r, verdictOf prev r) :: verdicts (Some r) rs end.

Lemma checkResults_spec rs : forall prev s, remembers prev (prevBlockHashes s) ->
  match checkResults nodes rs s with
  | Ok s' => tally s' = foldl (fun t nv => count nv.2 nv.1 t) (tally s) (verdicts prev rs)
  | Panic => Exists shortIn rs \/ exists p, prev = Some p /\ shortIn p
  | _ => False
  end.
Proof.
  induction rs as [|r rs IH]; intros prev s Hm; [done|]. cbn [checkResults verdicts foldl]. pose proof (checkResult_spec prev s r Hm) as Hr.
  destruct (checkResult nodes s r) as [s1| | |]; cbn [mbind outcome_bind]; [|done| |done].
  - destruct Hr as [Hm1 Ht]. specialize (IH (Some r) s1 Hm1). rewrite Ht in IH.
    destruct (checkResults nodes rs s1); try done. destruct IH as [IH|(p & [= <-] & Hp)]; left; [by right|by left].
  - destruct Hr as [Hr|Hr]; [left; by left|by right].
Qed.
End Batch.


(** ** Counting *)

#[export] Instance verdict_eq_dec : EqDecision verdict.
Proof. solve_decision. Defined.

Abbreviation tallied := (foldl (fun t nv => count nv.2 nv.1 t)).
Definition withVerdict (v : verdict) (vs : list (Z * verdict)) : list Z := fst <$> filter (fun nv => nv.2 = v) vs.
Definition total (t : Tally) : Z := Z.of_nat (length (tMismatched t)) + tMatched t + tSkipped t + Z.of_nat (length (tAbsent t)).

Lemma withVerdict_cons v n v' vs : withVerdict v ((n, v') :: vs) = (if decide (v' = v) then [n] else []) ++ withVerdict v vs.
Proof. unfold withVerdict. rewrite filter_cons. cbn. by destruct (decide (v' = v)). Qed.

Lemma tallied_spec vs t :
  tMismatched (tallied t vs) = tMismatched t ++ withVerdict Mismatched vs /\
  tAbsent (tallied t vs) = tAbsent t ++ withVerdict Absent vs /\
  total (tallied t vs) = total t + Z.of_nat (length vs).
Proof.
  revert t. induction vs as [|[n v] vs IH]; intros t; cbn [foldl fst snd length]; [rewrite !app_nil_r; split_and!; [done..|lia]|].
  destruct (IH (count v n t)) as (-> & -> & ->). rewrite !withVerdict_cons.
  destruct v; cbn [count tMismatched tAbsent]; repeat case_decide; try done; rewrite <- ?app_assoc;
    (split_and!; [done..|]); unfold total; cbn [tMismatched tMatched tSkipped tAbsent]; rewrite ?length_app; cbn [length]; lia.
Qed.

Lemma elem_of_withVerdict v n vs : n ∈ withVerdict v vs <-> (n, v) ∈ vs.
Proof.
  unfold withVerdict. rewrite list_elem_of_fmap. split.
  - intros ([n' v'] & -> & [Hv Hin]%list_elem_of_filter). cbn in *. by subst.
  - intros Hin. exists (n, v). split; [done|]. by apply list_elem_of_filter.
Qed.

Lemma length_verdicts nodes prev rs : length (verdicts nodes prev rs) = length rs.
Proof. revert prev. induction rs as [|r rs IH]; intros prev; cbn; [done|]. by rewrite IH. Qed.

(** The verdicts of consecutive results. *)
Lemma verdicts_seq nodes (f : nat -> result) k : forall a prev x,
  x ∈ verdicts nodes prev (f <$> seq a k) <->
  exists i, (a <= i < a + k)%nat /\
    x = (rBlockNum (f i), verdictOf nodes (if (i =? a)%nat then prev else Some (f (i - 1)%nat)) (f i)).
Proof.
  induction k as [|k IH]; intros a prev x; cbn [seq fmap list_fmap verdicts].
  - rewrite elem_of_nil. split; [done|]. intros (i & Hi & _). lia.
  - rewrite elem_of_cons, IH. split.
    + intros [->|(i & Hi & ->)].
      * exists a. rewrite Nat.eqb_refl. split; [lia|done].
      * exists i. split; [lia|]. destruct (Nat.eqb_spec i a); [exfalso; lia|]. destruct (Nat.eqb_spec i (S a)) as [->|]; [|done].
        by replace (S a - 1)%nat with a by lia.
    + intros (i & Hi & ->). destruct (decide (i = a)) as [->|Hn]; [left; by rewrite Nat.eqb_refl|].
      right. exists i. split; [lia|]. destruct (Nat.eqb_spec i a); [done|]. destruct (Nat.eqb_spec i (S a)) as [->|]; [|done].
      by replace (S a - 1)%nat with a by lia.
Qed.

Lemma withVerdict_sorted nodes v (f : nat -> result) k : forall a prev,
  (forall i j, (a <= i < j)%nat -> (j < a + k)%nat -> rBlockNum (f i) < rBlockNum (f j)) ->
  StronglySorted Z.lt (withVerdict v (verdicts nodes prev (f <$> seq a k))).
Proof.
  induction k as [|k IH]; intros a prev Hf; cbn [seq fmap list_fmap verdicts]; [constructor|].
  rewrite withVerdict_cons. assert (HS : StronglySorted Z.lt (withVerdict v (verdicts nodes (Some (f a)) (f <$> seq (S a) k)))).
  { apply IH. intros i j Hi Hj. apply Hf; lia. }
  case_decide; [|done]. constructor; [done|]. apply Forall_forall. intros n Hn%elem_of_withVerdict%verdicts_seq.
  destruct Hn as (i & Hi & [= -> _]). apply Hf; lia.
Qed.

(** ** Answers *)

Section Fetched.
Context `{Json} (nodes : list nodeInfo) (w : Rpc).
Context (Hnames : NoDup (nName <$> nodes)).

Lemma fetchBlock_num n : rBlockNum (fetchBlock nodes w n) = n.
Proof. done. Qed.

Lemma fold_insert_lookup {V} (l : list (string * V)) : forall (m : gmap string V) i k v,
  NoDup (fst <$> l) -> l !! i = Some (k, v) -> foldl (fun m kv => <[kv.1 := kv.2]> m) m l !! k = Some v.
Proof.
  induction l as [|[k' v'] l IH] using rev_ind; intros m i k v Hnd Hi; [done|].
  rewrite fmap_app in Hnd. apply NoDup_app in Hnd as (Hnd & Hdis & _). rewrite foldl_app. cbn.
  apply lookup_snoc_Some in Hi as [[Hlt Hi]|[_ [= <- <-]]]; [|by rewrite lookup_insert_eq].
  rewrite lookup_insert_ne; [by eapply IH|]. intros ->. apply (Hdis k); [|cbn; set_solver].
  apply list_elem_of_fmap. exists (k, v). split; [done|]. by eapply list_elem_of_lookup_2.
Qed.

Lemma foldl_answers (l : list (string * (string + blockInfo))) m :
  foldl (fun (blocks : gmap string blockInfo) na => <[na.1 := answerBlock na.2]> blocks) m l =
  foldl (fun m kv => <[kv.1 := kv.2]> m) m (prod_map id answerBlock <$> l).
Proof. revert m. induction l as [|x l IH]; intros m; cbn; [done|]. by rewrite IH. Qed.

(** Every node's slot holds its answer. *)
Lemma blockOf_fetched n i node : nodes !! i = Some node ->
  blockOf (rBlocks (fetchBlock nodes w n)) node = answerBlock (nodeAnswer w n i).
Proof.
  intros Hi. unfold blockOf, fetchBlock. cbn [rBlocks]. rewrite foldl_answers.
  rewrite (fold_insert_lookup _ ∅ i (nName node) (answerBlock (nodeAnswer w n i))); [done| |].
  - replace (fst <$> _) with (nName <$> nodes); [done|]. rewrite <- list_fmap_compose. apply list_eq. intros j.
    rewrite !list_lookup_fmap, list_lookup_imap. by destruct (nodes !! j).
  - rewrite list_lookup_fmap, list_lookup_imap, Hi. done.
Qed.

Lemma IsError_answer a : IsError (answerBlock a) = negb (fetched a).
Proof. destruct a as [e|bi]; cbn; [done|]. by rewrite negb_involutive. Qed.

(** The blocks as a list, by position. *)
Lemma blocks_by_position n : blockOf (rBlocks (fetchBlock nodes w n)) <$> nodes = (fun i => answerBlock (nodeAnswer w n i)) <$> seq 0 (length nodes).
Proof.
  apply list_eq. intros i. rewrite !list_lookup_fmap. destruct (nodes !! i) as [node|] eqn:Hi.
  - pose proof (lookup_lt_Some _ _ _ Hi) as Hlt. rewrite (lookup_seq_lt _ _ _ Hlt). cbn [fmap option_fmap option_map]. by rewrite (blockOf_fetched n i node Hi).
  - apply lookup_ge_None in Hi. by rewrite lookup_seq_ge.
Qed.

(** The nodes that have a block. *)
Definition holders (n : Z) : list nat := filter (fun i => fetched (nodeAnswer w n i) = true) (seq 0 (length nodes)).

Definition has (n : Z) (i : nat) (b : blockInfo) : Prop :=
  (i < length nodes)%nat /\ nodeAnswer w n i = inr b /\ IsError b = false.

Lemma filter_fmap_iff {A B} (f : A -> B) (P : B -> Prop) (Q : A -> Prop) `{forall x, Decision (P x)} `{forall x, Decision (Q x)} (l : list A) :
  (forall x, P (f x) <-> Q x) -> filter P (f <$> l) = f <$> filter Q l.
Proof. intros HP. induction l as [|x l IH]; [done|]. cbn [fmap list_fmap]. rewrite !filter_cons. repeat case_decide; rewrite ?IH; naive_solver. Qed.

Lemma valid_holders n : validBlocks nodes (rBlocks (fetchBlock nodes w n)) = (fun i => answerBlock (nodeAnswer w n i)) <$> holders n.
Proof.
  unfold validBlocks, holders. rewrite blocks_by_position. apply filter_fmap_iff. intros i. rewrite IsError_answer.
  by destruct (fetched _).
Qed.

Lemma length_valid n : length (validBlocks nodes (rBlocks (fetchBlock nodes w n))) = length (holders n).
Proof. by rewrite valid_holders, length_fmap. Qed.

Lemma elem_holders n i : i ∈ holders n <-> exists b, has n i b.
Proof.
  unfold holders, has. rewrite list_elem_of_filter, elem_of_seq. destruct (nodeAnswer w n i) as [e|b]; cbn.
  - split; [by intros [? _]|by intros (b & _ & ? & _)].
  - destruct (IsError b) eqn:Eb; cbn; split.
    + by intros [? _].
    + intros (b' & _ & [= <-] & ?). congruence.
    + intros [_ ?]. exists b. split; [lia|done].
    + intros (b' & ? & _). split; [done|lia].
Qed.

Lemma elem_valid n b : b ∈ validBlocks nodes (rBlocks (fetchBlock nodes w n)) <-> exists i, has n i b.
Proof.
  rewrite valid_holders, list_elem_of_fmap. split.
  - intros (i & -> & Hi). apply elem_holders in Hi as (b & Hb). exists i. destruct Hb as (? & Ha & ?). rewrite Ha. cbn. by split_and!.
  - intros (i & Hb). exists i. split; [by destruct Hb as (_ & -> & _)|]. apply elem_holders. by exists b.
Qed.

(** Two nodes disagree about the block. *)
Definition diverges (n : Z) : Prop := exists i j b c, has n i b /\ has n j c /\ ~ agree b c.

(** On some node the block does not follow the one before it. *)
Definition unlinked (n : Z) : Prop := exists i b p, has n i b /\ has (n - 1) i p /\ biParentHash b <> biHash p.

#[local] Instance agree_dec b c : Decision (agree b c).
Proof. unfold agree. apply _. Defined.

Lemma not_fields n : (0 <? length (fieldMismatches (validBlocks nodes (rBlocks (fetchBlock nodes w n)))))%nat = true <-> diverges n.
Proof.
  rewrite Nat.ltb_lt. set (valid := validBlocks _ _). split.
  - intros Hl. assert (HE : Exists (fun b => Exists (fun c => ~ agree b c) valid) valid).
    { destruct (decide (Exists (fun b => Exists (fun c => ~ agree b c) valid) valid)) as [|HN]; [done|exfalso].
      assert (E : fieldMismatches valid = []); [|rewrite E in Hl; cbn in Hl; lia]. apply fieldMismatches_nil. intros b c Hb Hc.
      destruct (decide (agree b c)) as [|Ha]; [done|]. destruct HN. apply Exists_exists. exists b. split; [done|].
      apply Exists_exists. by exists c. }
    apply Exists_exists in HE as (b & [i Hi]%elem_valid & HE). apply Exists_exists in HE as (c & [j Hj]%elem_valid & Hn). by exists i, j, b, c.
  - intros (i & j & b & c & Hb & Hc & Hn). destruct (fieldMismatches valid) eqn:E; [|cbn; lia]. destruct Hn.
    apply (proj1 (fieldMismatches_nil valid) E); apply elem_valid; eauto.
Qed.

Lemma hashAt_fetched n i node : nodes !! i = Some node ->
  hashAt (fetchBlock nodes w n) node = match nodeAnswer w n i with inr b => if IsError b then None else Some (biHash b) | inl _ => None end.
Proof. intros Hi. unfold hashAt. rewrite (blockOf_fetched n i node Hi). by destruct (nodeAnswer w n i). Qed.

Lemma brokenFrom_unlinked n :
  existsb (brokenFrom (Some (fetchBlock nodes w (n - 1))) (fetchBlock nodes w n)) nodes = true <-> unlinked n.
Proof.
  rewrite existsb_exists. setoid_rewrite <- list_elem_of_In. split.
  - intros (node & Hin & Hb). apply list_elem_of_lookup_1 in Hin as [i Hi]. unfold brokenFrom in Hb. cbn [mbind option_bind] in Hb.
    rewrite (blockOf_fetched n i node Hi), (hashAt_fetched (n - 1) i node Hi), IsError_answer, negb_involutive in Hb.
    apply andb_true_iff in Hb as [Hf Hb]. pose proof (lookup_lt_Some _ _ _ Hi).
    destruct (nodeAnswer w n i) as [|b] eqn:En; [done|]. destruct (nodeAnswer w (n - 1) i) as [|p] eqn:Ep; [done|].
    destruct (IsError p) eqn:Ei; [done|]. apply negb_true_iff, bool_decide_eq_false in Hb. cbn in Hf. apply negb_true_iff in Hf.
    by exists i, b, p.
  - intros (i & b & p & (Hi & Hb & Eb) & (_ & Hp & Ep) & Hn). destruct (lookup_lt_is_Some_2 nodes i Hi) as [node Hnode].
    exists node. split; [by eapply list_elem_of_lookup_2|]. unfold brokenFrom. cbn [mbind option_bind].
    rewrite (blockOf_fetched n i node Hnode), (hashAt_fetched (n - 1) i node Hnode), Hb, Hp, Ep. cbn [answerBlock]. rewrite Eb.
    by rewrite bool_decide_false.
Qed.

Lemma brokenFrom_none r : existsb (brokenFrom None r) nodes = false.
Proof. clear. induction nodes as [|n l IH]; [done|]. cbn. unfold brokenFrom at 1. cbn. by rewrite andb_false_r. Qed.

(** No node has the block, and one says so. *)
Definition absent (n : Z) : Prop :=
  holders n = [] /\ exists i, (i < length nodes)%nat /\ isMissing (nodeAnswer w n i) = true.

Lemma missing_answer a : biError (answerBlock a) = missingBlock <-> isMissing a = true.
Proof. destruct a as [e|b]; cbn; [done|]. by rewrite bool_decide_eq_true. Qed.

Lemma missing_some n : (0 <? missingResponseCount nodes (rBlocks (fetchBlock nodes w n)))%nat = true <->
  exists i, (i < length nodes)%nat /\ isMissing (nodeAnswer w n i) = true.
Proof.
  unfold missingResponseCount. rewrite blocks_by_position. rewrite Nat.ltb_lt.
  rewrite (filter_fmap_iff _ _ (fun i => isMissing (nodeAnswer w n i) = true)) by (intros i; apply missing_answer). rewrite length_fmap. split.
  - intros Hl. destruct (filter _ _) as [|i l] eqn:E; [cbn in Hl; lia|]. assert (Hi : i ∈ i :: l) by set_solver. rewrite <- E in Hi.
    apply list_elem_of_filter in Hi as [? ?%elem_of_seq]. exists i. split; [lia|done].
  - intros (i & Hi & Hm). destruct (filter _ _) eqn:E; [|cbn; lia]. exfalso. eapply (elem_of_nil i). rewrite <- E.
    apply list_elem_of_filter. split; [done|]. apply elem_of_seq. lia.
Qed.

Definition before (from n : Z) : option result := if n =? from then None else Some (fetchBlock nodes w (n - 1)).

Definition reported (from n : Z) : Prop := (2 <= length (holders n))%nat /\ (diverges n \/ n <> from /\ unlinked n).

Lemma broken_before from n : existsb (brokenFrom (before from n) (fetchBlock nodes w n)) nodes = true <-> n <> from /\ unlinked n.
Proof.
  unfold before. destruct (Z.eqb_spec n from) as [->|Hn]; [rewrite brokenFrom_none; naive_solver|]. rewrite brokenFrom_unlinked. naive_solver.
Qed.

Lemma verdict_mismatched from n : verdictOf nodes (before from n) (fetchBlock nodes w n) = Mismatched <-> reported from n.
Proof.
  unfold verdictOf, reported. rewrite <- not_fields, <- broken_before, <- orb_true_iff.
  cbv zeta. rewrite length_valid. destruct (Nat.ltb_spec (length (holders n)) 2).
  - destruct (_ && _); split; try done; intros [? _]; lia.
  - destruct (_ || _); split; try done; naive_solver.
Qed.

Lemma verdict_absent prev n : verdictOf nodes prev (fetchBlock nodes w n) = Absent <-> absent n.
Proof.
  unfold verdictOf, absent. rewrite <- missing_some. cbv zeta. rewrite length_valid. destruct (Nat.ltb_spec (length (holders n)) 2) as [Hl|Hl].
  - destruct (holders n) as [|i l]; cbn [length Nat.eqb andb]; [destruct (0 <? _)%nat; naive_solver|]. split; [done|naive_solver].
  - destruct (_ || _); (split; [done|]); intros [E _]; rewrite E in Hl; cbn in Hl; lia.
Qed.
End Fetched.

(** The numbers of a batch. *)
Lemma fetchAll_numbers `{Json} nodes w from to : 0 <= from <= to -> to < 2 ^ 64 -> to - from + 1 < 2 ^ 64 ->
  fetchAll nodes w from to = (fun i => fetchBlock nodes w (from + Z.of_nat i)) <$> seq 0 (Z.to_nat (to - from + 1)).
Proof.
  intros Hr Ht Hc. unfold fetchAll. replace (wrap64 (to - from + 1)) with (to - from + 1) by (unfold wrap64; rewrite Z.mod_small; lia).
  apply list_fmap_ext. intros j i Hj. apply lookup_seq in Hj as [-> Hj]. unfold wrap64. rewrite Z.mod_small; [done|lia].
Qed.

Lemma batch_verdicts `{Json} nodes w from to v n : 0 <= from <= to -> to < 2 ^ 64 -> to - from + 1 < 2 ^ 64 ->
  n ∈ withVerdict v (verdicts nodes None (fetchAll nodes w from to)) <->
  from <= n <= to /\ verdictOf nodes (before nodes w from n) (fetchBlock nodes w n) = v.
Proof.
  intros Hr Ht Hc. rewrite elem_of_withVerdict, fetchAll_numbers, verdicts_seq by done. unfold before. split.
  - intros (i & Hi & [= -> ->]). split; [lia|]. destruct (Z.eqb_spec (from + Z.of_nat i) from), (Nat.eqb_spec i 0); try lia; [done|].
    by replace (from + Z.of_nat (i - 1)) with (from + Z.of_nat i - 1) by lia.
  - intros [Hn <-]. exists (Z.to_nat (n - from)). split; [lia|]. replace (from + Z.of_nat (Z.to_nat (n - from))) with n by lia.
    rewrite fetchBlock_num. destruct (Z.eqb_spec n from), (Nat.eqb_spec (Z.to_nat (n - from)) 0); try lia; [done|].
    by replace (from + Z.of_nat (Z.to_nat (n - from) - 1)) with (n - 1) by lia.
Qed.

Lemma remembers_none nodes : remembers nodes None ∅.
Proof. intros node _. by rewrite lookup_empty. Qed.

(** A short hash of a node is a short hash in the results. *)
Lemma short_results `{Json} nodes w from to : NoDup (nName <$> nodes) ->
  0 <= from <= to -> to < 2 ^ 64 -> to - from + 1 < 2 ^ 64 -> Exists (shortIn nodes) (fetchAll nodes w from to) ->
  exists n i b, from <= n <= to /\ has nodes w n i b /\ ((String.length (biParentHash b) < 18)%nat \/ (String.length (biHash b) < 18)%nat).
Proof.
  intros Hnd Hr Ht Hc. rewrite fetchAll_numbers by done. rewrite Exists_exists.
  intros (r & (k & -> & Hk%elem_of_seq)%list_elem_of_fmap & node & [i Hi]%list_elem_of_lookup_1 & Hv & Hs).
  rewrite (blockOf_fetched nodes w Hnd _ i node Hi) in Hv, Hs. rewrite IsError_answer in Hv.
  destruct (nodeAnswer w (from + Z.of_nat k) i) as [|b] eqn:Ea; [done|]. cbn in Hv, Hs. rewrite negb_involutive in Hv.
  exists (from + Z.of_nat k), i, b. split_and!; [lia|lia| |done]. split_and!; [by eapply lookup_lt_Some|done..].
Qed.

(** The condition on the lengths, as a computation. *)
Definition longAnswers `{Json} (nodes : list nodeInfo) (w : Rpc) (from to : Z) : bool :=
  forallb (fun k => forallb (fun i =>
    match nodeAnswer w (from + Z.of_nat k) i with
    | inr b => IsError b || ((18 <=? String.length (biParentHash b))%nat && (18 <=? String.length (biHash b))%nat)
    | inl _ => true
    end) (seq 0 (length nodes))) (seq 0 (Z.to_nat (to - from + 1))).

Lemma longAnswers_ok `{Json} nodes w from to : longAnswers nodes w from to = true ->
  forall n i b, from <= n <= to -> has nodes w n i b ->
  (18 <= String.length (biParentHash b))%nat /\ (18 <= String.length (biHash b))%nat.
Proof.
  unfold longAnswers. rewrite forallb_forall. intros Ha n i b Hn (Hi & Hb & He). specialize (Ha (Z.to_nat (n - from))).
  rewrite forallb_forall in Ha. specialize (Ha ltac:(apply in_seq; lia) i ltac:(apply in_seq; lia)).
  replace (from + Z.of_nat (Z.to_nat (n - from))) with n in Ha by lia. rewrite Hb, He, orb_false_l in Ha.
  apply andb_true_iff in Ha as [?%Nat.leb_le ?%Nat.leb_le]. done.
Qed.

(** What a batch returns, or that a hash is too short to be shown. *)
Lemma batch_cases `{Json} nodes w from to g :
  NoDup (nName <$> nodes) -> 0 <= from <= to -> to < 2 ^ 64 -> to - from + 1 < 2 ^ 64 ->
  match checkBatch nodes w from to g with
  | Ok s =>
      StronglySorted Z.lt (mBlockNumber <$> mismatches s) /\
      (forall n, n ∈ mBlockNumber <$> mismatches s <-> from <= n <= to /\ reported nodes w from n) /\
      (forall n, n ∈ nilBlocks s <-> from <= n <= to /\ absent nodes w n) /\
      Z.of_nat (length (mismatches s)) + matchCount s + skipCount s + Z.of_nat (length (nilBlocks s)) = to - from + 1
  | Panic => exists n i b, from <= n <= to /\ has nodes w n i b /\
      ((String.length (biParentHash b) < 18)%nat \/ (String.length (biHash b) < 18)%nat)
  | _ => False
  end.
Proof.
  intros Hnd Hr Ht Hc. unfold checkBatch.
  pose proof (checkResults_spec nodes (fetchAll nodes w from to) None (emptyBatch g) (remembers_none nodes)) as Hs.
  destruct (checkResults nodes _ _) as [s| | |]; [|done| |done].
  - destruct (tallied_spec (verdicts nodes None (fetchAll nodes w from to)) (tally (emptyBatch g))) as (E1 & E2 & E3).
    rewrite <- Hs in E1, E2, E3. cbn [tally tMismatched tAbsent emptyBatch nilBlocks mismatches fmap list_fmap app] in E1, E2. split_and!.
    + rewrite E1, fetchAll_numbers by done. apply withVerdict_sorted. intros i j ? ?. rewrite !fetchBlock_num. lia.
    + intros n. by rewrite E1, batch_verdicts, (verdict_mismatched nodes w Hnd).
    + intros n. by rewrite E2, batch_verdicts, (verdict_absent nodes w Hnd).
    + unfold total in E3. rewrite length_verdicts in E3. cbn [tally tMismatched tMatched tSkipped tAbsent] in E3. rewrite length_fmap in E3.
      rewrite E3. cbn. rewrite fetchAll_numbers by done. rewrite length_fmap, length_seq. lia.
  - destruct Hs as [Hs|(p & ? & _)]; [|done]. by apply (short_results nodes w from to).
Qed.

(** C20 (refinement). A batch over blocks [from] to [to], with hashes of at least 18
    characters and distinct node names, returns, and gives every block one of four
    verdicts, which add up to the length of the range.  The mismatches are, in
    increasing order, exactly the blocks that two nodes have and on which two of the
    answers differ in a compared field or in a transaction, or whose parent hash on
    some node is not the hash of the block before on that node (unless it is the
    first of the batch); the nil blocks are those that no node has and one node
    reports as missing. *)
Theorem batch_reports `{Json} nodes w from to g :
  NoDup (nName <$> nodes) -> 0 <= from <= to -> to < 2 ^ 64 -> to - from + 1 < 2 ^ 64 ->
  (forall n i b, from <= n <= to -> has nodes w n i b ->
    (18 <= String.length (biParentHash b))%nat /\ (18 <= String.length (biHash b))%nat) ->
  exists s, checkBatch nodes w from to g = Ok s /\
    StronglySorted Z.lt (mBlockNumber <$> mismatches s) /\
    (forall n, n ∈ mBlockNumber <$> mismatches s <-> from <= n <= to /\ reported nodes w from n) /\
    (forall n, n ∈ nilBlocks s <-> from <= n <= to /\ absent nodes w n) /\
    Z.of_nat (length (mismatches s)) + matchCount s + skipCount s + Z.of_nat (length (nilBlocks s)) = to - from + 1.
Proof.
  intros Hnd Hr Ht Hc Hlong. pose proof (batch_cases nodes w from to g Hnd Hr Ht Hc) as Hs.
  destruct (checkBatch _ _ _ _ _) as [s| | |]; [by exists s|done| |done].
  destruct Hs as (n & i & b & Hn & Hb & Hs). destruct (Hlong n i b Hn Hb). lia.
Qed.

(** ** A sample network

    Answers are texts of fields separated by semicolons. *)

#[export] Instance toyJson : Json := {|
  unmarshalRpcResponse s := inr (mkRpc s (if contains "error" s then Some (-32000, s) else None));
  unmarshalBlockResult s :=
    match splitOn ";" s with
    | [h; p; r; t; g; e; txs] =>
        inr (mkBlockResult h "" p r "" "" t "" g e "" "" ""
               (if bool_decide (txs = ""%string) then [] else (fun x => mkTxOrder x "0" "0") <$> splitOn "," txs))
    | _ => inl "unexpected end of JSON input"%string
    end;
  unmarshalList s := inr (length (splitOn "," s));
  unmarshalString s := inr s
|}.

Definition tableRpc (latest : string) (table : list (list string)) : Rpc :=
  mkRpcWorld (fun i n _ => (inr (default "null"%string (table !! i ≫= fun row => row !! Z.to_nat (n - 1))), inr "null"%string))
    (fun _ _ => inr latest).

Definition sampleNodes : list nodeInfo := parseNodes "m0=http://a, m1=http://b,m2 = http://c".

Definition h1 : string := "0x1111111111111111aa".
Definition h2 : string := "0x2222222222222222aa".
Definition h2' : string := "0x2222222222222222bb".
Definition h3 : string := "0x3333333333333333aa".
Definition blockText (h p root ts gei : string) : string := (h +:+ ";" +:+ p +:+ ";" +:+ root +:+ ";" +:+ ts +:+ ";" +:+ gei +:+ ";0x1;0xt1")%string.

(** On the third node block 2 is another one, and block 3 follows the common one;
    block 4 is nowhere. *)
Definition sampleTable : list (list string) :=
  [[blockText h1 h1 "r1" "0x64" "0x1"; blockText h2 h1 "r2" "0x65" "0x2"; blockText h3 h2 "r3" "0x66" "0x3"];
   [blockText h1 h1 "r1" "0x64" "0x1"; blockText h2 h1 "r2" "0x65" "0x2"; blockText h3 h2 "r3" "0x66" "0x3"];
   [blockText h1 h1 "r1" "0x64" "0x1"; blockText h2' h1 "r2" "0x65" "0x2"; blockText h3 h2 "r3" "0x66" "0x3"]].
Definition sampleRpc : Rpc := tableRpc "0x3" sampleTable.
Definition noGlobals : Globals := mkGlobals ∅ false [].

Lemma batch_reports_witness : exists s, checkBatch sampleNodes sampleRpc 1 4 noGlobals = Ok s /\
  (mBlockNumber <$> mismatches s) = [2; 3] /\ nilBlocks s = [4] /\
  reported sampleNodes sampleRpc 1 2 /\ reported sampleNodes sampleRpc 1 3 /\ ~ reported sampleNodes sampleRpc 1 1.
Proof.
  destruct (batch_reports sampleNodes sampleRpc 1 4 noGlobals) as (s & Hs & _ & Hm & Ha & _).
  - apply (bool_decide_unpack _). vm_compute. exact I.
  - lia.
  - reflexivity.
  - reflexivity.
  - apply longAnswers_ok. vm_compute. reflexivity.
  - assert (Em : mBlockNumber <$> mismatches s = [2; 3] /\ nilBlocks s = [4]).
    { assert (E : forall t, Ok s = t -> match t with Ok s => mBlockNumber <$> mismatches s = [2; 3] /\ nilBlocks s = [4] | _ => False end);
        [|exact (E _ eq_refl)]. rewrite <- Hs. intros t <-. vm_compute. split; reflexivity. }
    destruct Em as [Em En]. exists s. rewrite Em in Hm. clear Ha. split; [exact Hs|]. clear Hs. split; [exact Em|]. split; [exact En|].
    split; [|split].
    + apply (proj1 (Hm 2)), (bool_decide_unpack _). exact I.
    + apply (proj1 (Hm 3)), (bool_decide_unpack _). exact I.
    + intros Hr. assert (Hin : 1 ∈ [2; 3]) by (apply (proj2 (Hm 1)); split; [lia|exact Hr]).
      exact (bool_decide_pack _ Hin).
Defined.

(** * The block hash checker: anomalies

    Every anomaly that a batch logs is one: the node it names had two blocks of the
    batch, one before the other, whose numbers stand in the reported relation; a
    frozen state root was seen in one block more than the reported streak. *)

Section Anomalies.
Context (nodes : list nodeInfo).

(** A block of a compared result, as the node sent it. *)
Definition held (rs : list result) (n : Z) (name : string) (b : blockInfo) : Prop :=
  exists r node, r ∈ rs /\ rBlockNum r = n /\ (2 <= length (validBlocks nodes (rBlocks r)))%nat /\
    node ∈ nodes /\ nName node = name /\ blockOf (rBlocks r) node = b /\ IsError b = false.

Definition blockOfNode : Type := Z -> string -> blockInfo -> Prop.

(** Increasing blocks of the node with one state root and epoch. *)
Definition frozen (H : blockOfNode) (name root : string) (epoch : Z) (ns : list Z) : Prop :=
  StronglySorted Z.lt ns /\
  forall m, m ∈ ns -> exists b, H m name b /\ biStateRoot b = root /\ parseHexStr (biEpoch b) = epoch.

(** What makes an anomaly of block [n] true. *)
Definition explained (H : blockOfNode) (a : anomaly) (n : Z) : Prop :=
  match a with
  | TimestampRegression name ts prevTs => exists m p b, m < n /\ H m name p /\ H n name b /\
      ts = parseHexStr (biTimestamp b) /\ prevTs = parseHexStr (biTimestamp p) /\ 0 < ts /\ ts + 30 < prevTs
  | GeiRegression name gei prevGei => exists m p b, m < n /\ H m name p /\ H n name b /\
      gei = parseHexStr (biGlobalExecIndex b) /\ prevGei = parseHexStr (biGlobalExecIndex p) /\ 0 < gei <= prevGei
  | EpochRegression name epoch prevEpoch => exists m p b, m < n /\ H m name p /\ H n name b /\
      epoch = parseHexStr (biEpoch b) /\ prevEpoch = parseHexStr (biEpoch p) /\ 0 < epoch < prevEpoch
  | EpochJump name epoch prevEpoch => exists m p b, m < n /\ H m name p /\ H n name b /\
      epoch = parseHexStr (biEpoch b) /\ prevEpoch = parseHexStr (biEpoch p) /\ 0 < prevEpoch /\ wrap64 (prevEpoch + 1) < epoch
  | StateRootFreeze name root streak => exists ns epoch b, frozen H name root epoch (ns ++ [n]) /\
      Z.of_nat (length ns) = streak /\ 5 <= streak /\ H n name b /\ 0 < biTxCount b
  | NodeLagging _ => False
  end.

Definition explainedLog (H : blockOfNode) (evs : list event) : Prop := forall a n, Anomaly a n ∈ evs -> explained H a n.

(** What the state remembers of a node is one of its blocks, and the streak. *)
Definition prevOk (H : blockOfNode) (name : string) (p : prevBlockState) : Prop :=
  exists b ns, H (pvBlockNum p) name b /\
    pvTimestamp p = parseHexStr (biTimestamp b) /\ pvGEI p = parseHexStr (biGlobalExecIndex b) /\
    frozen H name (pvStateRoot p) (pvEpoch p) (ns ++ [pvBlockNum p]) /\
    Z.of_nat (length ns) = pvStateRootStreak p /\ pvEpoch p = parseHexStr (biEpoch b) /\ pvStateRoot p = biStateRoot b.

Definition prevsOk (H : blockOfNode) (m : gmap string prevBlockState) : Prop :=
  forall name p, m !! name = Some p -> pvIsNil p = false -> prevOk H name p.

Lemma held_app rs r n name b : held rs n name b -> held (rs ++ [r]) n name b.
Proof. intros (r' & node & Hr & ?). exists r', node. split; [set_solver|done]. Qed.

(** More blocks explain more. *)
Section Mono.
Context (H H' : blockOfNode) (Hsub : forall n name b, H n name b -> H' n name b).

Lemma frozen_mono name root epoch ns : frozen H name root epoch ns -> frozen H' name root epoch ns.
Proof. intros [Hs Hf]. split; [done|]. intros m Hm. destruct (Hf m Hm) as (b & Hb & ?). exists b. split; [by apply Hsub|done]. Qed.

Lemma prevOk_mono name p : prevOk H name p -> prevOk H' name p.
Proof.
  intros (b & ns & Hb & ? & ? & Hf & ?). exists b, ns. split_and!; try naive_solver. by apply frozen_mono.
Qed.

Lemma explained_mono a n : explained H a n -> explained H' a n.
Proof.
  destruct a; cbn; try done; try (intros (m & p & b & ? & Hp & Hb & ?); exists m, p, b; split_and!; try (by apply Hsub); naive_solver).
  intros (ns & epoch & b & Hf & ? & ? & Hb & ?). exists ns, epoch, b. split_and!; try done; [by apply frozen_mono|by apply Hsub].
Qed.
End Mono.

Lemma sorted_snoc (ns : list Z) m n : StronglySorted Z.lt (ns ++ [m]) -> m < n -> StronglySorted Z.lt ((ns ++ [m]) ++ [n]).
Proof.
  intros Hs Hmn. induction ns as [|x ns IH]; cbn in *.
  - repeat constructor. done.
  - inversion Hs as [|? ? Hs' Hx]; subst. constructor; [by apply IH|]. apply Forall_app. split; [done|].
    apply Forall_app in Hx as [_ Hx]. inversion Hx; subst. repeat constructor. lia.
Qed.

(** One more block of the same root. *)
Lemma frozen_snoc rs name root epoch ns m n b : frozen (held rs) name root epoch (ns ++ [m]) -> m < n ->
  held rs n name b -> biStateRoot b = root -> parseHexStr (biEpoch b) = epoch -> frozen (held rs) name root epoch ((ns ++ [m]) ++ [n]).
Proof.
  intros [Hs Hf] Hmn Hb Hr He. split; [by apply sorted_snoc|]. intros k [Hk|Hk]%elem_of_app; [by apply Hf|].
  apply list_elem_of_singleton in Hk as ->. by exists b.
Qed.

Lemma frozen_one rs name n b : held rs n name b -> frozen (held rs) name (biStateRoot b) (parseHexStr (biEpoch b)) [n].
Proof. intros Hb. split; [repeat constructor|]. intros m ->%list_elem_of_singleton. by exists b. Qed.

Lemma regressions_explained rs node b p n : prevOk (held rs) (nName node) p -> pvBlockNum p < n -> held rs n (nName node) b ->
  Forall (fun a => explained (held rs) a n) (regressions node b p).
Proof.
  intros (pb & ns & Hp & Et & Eg & Hf & El & Ee & Er) Hlt Hb. unfold regressions. rewrite !Forall_app. split_and!.
  - destruct (_ && _) eqn:E; [|constructor]. rewrite !andb_true_iff, !Z.ltb_lt in E. repeat constructor.
    exists (pvBlockNum p), pb, b. split_and!; try done; lia.
  - destruct (_ && _) eqn:E; [|constructor]. rewrite !andb_true_iff, !Z.ltb_lt, Z.leb_le in E. repeat constructor.
    exists (pvBlockNum p), pb, b. split_and!; try done; lia.
  - destruct (_ && _) eqn:E; [|constructor]. rewrite andb_true_iff, !Z.ltb_lt in E.
    destruct (Z.ltb_spec (parseHexStr (biEpoch b)) (pvEpoch p)).
    + repeat constructor. exists (pvBlockNum p), pb, b. split_and!; try done; lia.
    + destruct (Z.ltb_spec (wrap64 (pvEpoch p + 1)) (parseHexStr (biEpoch b))); [|constructor]. repeat constructor.
      exists (pvBlockNum p), pb, b. split_and!; try done; lia.
  - destruct (_ && _) eqn:E; [|constructor]. rewrite !andb_true_iff, bool_decide_eq_true, Z.eqb_eq, Z.leb_le, Z.ltb_lt in E.
    destruct E as [[[E1 E2] E3] E4]. repeat constructor. exists (ns ++ [pvBlockNum p]), (pvEpoch p), b. split_and!; try done.
    + rewrite E1. by apply (frozen_snoc rs _ _ _ ns (pvBlockNum p) n b).
    + rewrite length_app. cbn. lia.
Qed.

(** The log after some anomalies. *)
Lemma logAnomalies_log n l g : exists evs, log (foldl (fun g a => logAnomaly a n g) g l) = log g ++ evs /\
  forall a m, Anomaly a m ∈ evs -> m = n /\ a ∈ l.
Proof.
  revert g. induction l as [|x l IH]; intros g; cbn [foldl]; [exists []; by rewrite app_nil_r; split; [|intros a m ?%elem_of_nil]|].
  destruct (IH (logAnomaly x n g)) as (evs & -> & He).
  assert (Hl : exists es, log (logAnomaly x n g) = log g ++ es /\ (forall a m, Anomaly a m ∈ es -> m = n /\ a = x)).
  { unfold logAnomaly, triggerStopFlag. destruct x; cbn; try (destruct (noStopFlag g); cbn; rewrite <- ?app_assoc; cbn);
      eexists; (split; [reflexivity|]); intros a m Ha; rewrite ?elem_of_cons, ?elem_of_nil in Ha; naive_solver. }
  destruct Hl as (es & -> & Hes). exists (es ++ evs). rewrite app_assoc. split; [done|]. intros a m [Ha|Ha]%elem_of_app.
  - destruct (Hes a m Ha) as [-> ->]. set_solver.
  - destruct (He a m Ha). set_solver.
Qed.

(** ** One result *)

Section Result.
Context (rs : list result) (r : result) (blocks' : gmap string blockInfo) (broken : bool).
Context (Hvalid : (2 <= length (validBlocks nodes (rBlocks r)))%nat) (Hmarked : marked (rBlocks r) blocks' broken).

Abbreviation n := (rBlockNum r).
Abbreviation rs' := (rs ++ [r]).

(** A node without an error sent the block it has now. *)
Lemma unmarked_held node : node ∈ nodes -> IsError (blockOf blocks' node) = false ->
  held rs' n (nName node) (blockOf blocks' node).
Proof.
  intros Hin He. destruct (Hmarked node) as [E|(_ & e & Hne & E)]; [|rewrite E, setError_error in He by done; done].
  exists r, node. split_and!; [set_solver|done..].
Qed.

(** While the nodes [l] are still to come. *)
Definition during (l : list nodeInfo) (m : gmap string prevBlockState) : Prop :=
  forall name p, m !! name = Some p -> pvIsNil p = false -> prevOk (held rs') name p /\ (name ∈ nName <$> l -> pvBlockNum p < n).

Lemma during_insert node l m p : NoDup (nName <$> node :: l) -> during (node :: l) m ->
  (pvIsNil p = false -> prevOk (held rs') (nName node) p) -> during l (<[nName node := p]> m).
Proof.
  intros Hnd Hm Hp name q Hq Hn. apply lookup_insert_Some in Hq as [[<- <-]|[Hne Hq]].
  - split; [by apply Hp|]. cbn in Hnd. apply NoDup_cons in Hnd as [Hnot _]. done.
  - destruct (Hm name q Hq Hn) as [? Hl]. split; [done|]. intros Hin. apply Hl. cbn. set_solver.
Qed.

Lemma summary_first node : node ∈ nodes -> IsError (blockOf blocks' node) = false ->
  prevOk (held rs') (nName node) (blockSummary (blockOf blocks' node) 0 n).
Proof.
  intros Hin He. pose proof (unmarked_held node Hin He) as Hb. exists (blockOf blocks' node), []. split_and!; try done.
  by apply (frozen_one rs' (nName node) n (blockOf blocks' node)).
Qed.

Lemma summary_next node p : node ∈ nodes -> IsError (blockOf blocks' node) = false -> prevOk (held rs') (nName node) p -> pvBlockNum p < n ->
  prevOk (held rs') (nName node) (blockSummary (blockOf blocks' node) (nextStreak (blockOf blocks' node) p) n).
Proof.
  intros Hin He (b & ns & Hp & _ & _ & Hf & El & Ee & Er) Hlt. pose proof (unmarked_held node Hin He) as Hb. unfold nextStreak.
  destruct (_ && _) eqn:E; [|by apply summary_first]. apply andb_true_iff in E as [E1%bool_decide_eq_true E2%Z.eqb_eq].
  exists (blockOf blocks' node), (ns ++ [pvBlockNum p]). split_and!; try done.
  - cbn [blockSummary pvStateRoot pvEpoch pvBlockNum]. rewrite E1, E2. by apply (frozen_snoc rs' _ _ _ ns (pvBlockNum p) n (blockOf blocks' node)).
  - rewrite length_app. cbn. lia.
Qed.

Lemma checkNode_sound node l s : node ∈ nodes -> NoDup (nName <$> node :: l) -> during (node :: l) (prevState s) ->
  let s' := checkNode n blocks' s node in
  during l (prevState s') /\ exists evs, log (globals s') = log (globals s) ++ evs /\ explainedLog (held rs') evs.
Proof.
  intros Hin Hnd Hm. unfold checkNode. cbv zeta.
  assert (Hnil : forall g, exists evs, log g = log g ++ evs /\ explainedLog (held rs') evs).
  { intros g. exists []. split; [by rewrite app_nil_r|]. by intros a m ?%elem_of_nil. }
  destruct (IsError (blockOf blocks' node)) eqn:Ei; [split; [by apply during_insert|apply Hnil]|].
  destruct (prevState s !! nName node) as [p|] eqn:Ep;
    [|split; [apply during_insert; [done..|]; intros _; by apply summary_first|apply Hnil]].
  destruct (pvIsNil p) eqn:En; [split; [apply during_insert; [done..|]; intros _; by apply summary_first|apply Hnil]|].
  destruct (Hm _ p Ep En) as [Hp Hlt]. specialize (Hlt ltac:(set_solver)). split.
  - apply during_insert; [done..|]. intros _. by apply summary_next.
  - cbn [globals setPrevState setGlobals]. destruct (logAnomalies_log n (regressions node (blockOf blocks' node) p) (globals s)) as (evs & -> & He).
    exists evs. split; [done|]. intros a m Ha. destruct (He a m Ha) as [-> Hr].
    pose proof (regressions_explained rs' node (blockOf blocks' node) p n Hp Hlt (unmarked_held node Hin Ei)) as Hall.
    by apply (proj1 (Forall_forall _ _) Hall).
Qed.

Lemma checkNodes_sound l s : l ⊆ nodes -> NoDup (nName <$> l) -> during l (prevState s) ->
  let s' := foldl (checkNode n blocks') s l in
  during [] (prevState s') /\ exists evs, log (globals s') = log (globals s) ++ evs /\ explainedLog (held rs') evs.
Proof.
  revert s. induction l as [|node l IH]; intros s Hl Hnd Hm; cbn [foldl].
  - split; [done|]. exists []. split; [by rewrite app_nil_r|]. by intros a m ?%elem_of_nil.
  - destruct (checkNode_sound node l s) as [Hm' (e1 & E1 & He1)]; [set_solver|done..|].
    destruct (IH (checkNode n blocks' s node)) as [Hm'' (e2 & E2 & He2)]; [set_solver|by apply NoDup_cons in Hnd as [_ ?]|done|].
    split; [done|]. exists (e1 ++ e2). rewrite E2, E1, app_assoc. split; [done|]. intros a m [?|?]%elem_of_app; auto.
Qed.
End Result.

Lemma logBlockEvent_log e g : (forall a n, e <> Anomaly a n) -> exists evs, log (logBlockEvent e g) = log g ++ evs /\
  forall a n, Anomaly a n ∉ evs.
Proof.
  intros He. unfold logBlockEvent. case_bool_decide; [exists []; rewrite app_nil_r; split; [done|]; by intros a n ?%elem_of_nil|].
  exists [e]. split; [done|]. intros a n Ha%list_elem_of_singleton. by destruct (He a n).
Qed.

Lemma explainedLog_app rs r evs : explainedLog (held rs) evs -> explainedLog (held (rs ++ [r])) evs.
Proof. intros He a n Ha. eapply explained_mono; [|by apply He]. apply held_app. Qed.

Lemma checkResult_sound rs r s s' : NoDup (nName <$> nodes) -> Forall (fun q => rBlockNum q < rBlockNum r) rs ->
  checkResult nodes s r = Ok s' -> prevsOk (held rs) (prevState s) ->
  prevsOk (held (rs ++ [r])) (prevState s') /\ exists evs, log (globals s') = log (globals s) ++ evs /\ explainedLog (held (rs ++ [r])) evs.
Proof.
  intros Hnd Hnum Hs Hp. unfold checkResult in Hs. set (s1 := if rHasError r then addError s else s) in *.
  assert (E1 : prevState s1 = prevState s /\ globals s1 = globals s) by (unfold s1; by destruct (rHasError r)). destruct E1 as [E1 G1].
  rewrite <- E1 in Hp. rewrite <- G1. clear E1 G1.
  assert (Hp' : prevsOk (held (rs ++ [r])) (prevState s1)) by (intros name p Hn Hi; by eapply prevOk_mono, Hp; [apply held_app|..]).
  destruct (length (validBlocks nodes (rBlocks r)) <? 2)%nat eqn:E2.
  - destruct (_ && _); injection Hs as <-.
    + split; [done|]. destruct (logBlockEvent_log (NilBlock (rBlockNum r)) (globals s1)) as (evs & El & He); [done|].
      exists evs. split; [exact El|]. intros a m Ha. by destruct (He a m).
    + split; [done|]. exists []. split; [by rewrite app_nil_r|]. by intros a m ?%elem_of_nil.
  - apply Nat.ltb_ge in E2. set (ref := default _ _) in Hs. set (s2 := if _ && _ then addEmpty _ _ s1 else s1) in Hs.
    assert (H2 : prevState s2 = prevState s1 /\ exists evs, log (globals s2) = log (globals s1) ++ evs /\ forall a n, Anomaly a n ∉ evs).
    { unfold s2. destruct (_ && _); [split; [done|]; by apply logBlockEvent_log|]. split; [done|]. exists []. split; [by rewrite app_nil_r|].
      by intros a m ?%elem_of_nil. }
    destruct H2 as [Ep2 (e2 & El2 & He2)].
    pose proof (checkLinks_spec nodes (prevBlockHashes s2) (rBlocks r) nodes ltac:(done) (rBlocks r) false ltac:(intros node; by left)) as HL.
    destruct (checkLinks _ _ _) as [[blocks' b]| | |]; cbn [mbind outcome_bind] in Hs; [|done..]. injection Hs as <-. destruct HL as [_ HL].
    cbn [fst snd]. match goal with |- context [foldl _ ?x nodes] => set (s3 := x) end.
    assert (E3 : prevState s3 = prevState s2 /\ globals s3 = globals s2) by (unfold s3; by destruct (_ || _)). destruct E3 as [Ep3 Eg3].
    destruct (checkNodes_sound rs r blocks' b E2 HL nodes s3) as [Hm (e3 & El3 & He3)]; [done..| |].
    { rewrite Ep3, Ep2. intros name p Hn Hi. split; [by apply Hp'|]. intros _. destruct (Hp name p Hn Hi) as (pb & ns & (q & nd & Hq & <- & _) & _).
      by apply (proj1 (Forall_forall _ _) Hnum). }
    split; [intros name p Hn Hi; by apply (Hm name p Hn Hi)|]. exists (e2 ++ e3). rewrite El3, Eg3, El2, app_assoc. split; [done|].
    intros a m [Ha|Ha]%elem_of_app; [by destruct (He2 a m)|by apply He3].
Qed.

Lemma checkResults_sound rs : forall done s s', NoDup (nName <$> nodes) ->
  (forall i j q r, (i < j)%nat -> (done ++ rs) !! i = Some q -> (done ++ rs) !! j = Some r -> rBlockNum q < rBlockNum r) ->
  checkResults nodes rs s = Ok s' -> prevsOk (held done) (prevState s) ->
  exists evs, log (globals s') = log (globals s) ++ evs /\ explainedLog (held (done ++ rs)) evs.
Proof.
  induction rs as [|r rs IH]; intros dn s s' Hnd Hnum Hs Hp; cbn [checkResults] in Hs.
  - injection Hs as <-. exists []. split; [by rewrite app_nil_r|]. by intros a m ?%elem_of_nil.
  - destruct (checkResult nodes s r) as [s1| | |] eqn:E1; cbn [mbind outcome_bind] in Hs; [|done..].
    assert (Hlt : Forall (fun q => rBlockNum q < rBlockNum r) dn).
    { apply Forall_lookup. intros i q Hi. apply (Hnum i (length dn) q r); [by eapply lookup_lt_Some| |].
      - by rewrite lookup_app_l by (by eapply lookup_lt_Some).
      - rewrite lookup_app_r by done. by rewrite Nat.sub_diag. }
    destruct (checkResult_sound dn r s s1 Hnd Hlt E1 Hp) as [Hp1 (e1 & El1 & He1)].
    replace (dn ++ r :: rs) with ((dn ++ [r]) ++ rs) in * by (by rewrite <- app_assoc).
    destruct (IH (dn ++ [r]) s1 s' Hnd Hnum Hs Hp1) as (e2 & El2 & He2). exists (e1 ++ e2). rewrite El2, El1, app_assoc. split; [done|].
    intros a m [Ha|Ha]%elem_of_app; [|by apply He2]. specialize (He1 a m Ha). clear - He1.
    induction rs as [|q rs IH] using rev_ind; [by rewrite app_nil_r|]. rewrite app_assoc. eapply explained_mono; [apply held_app|done].
Qed.
End Anomalies.

(** ** Batches *)

Section Answered.
Context `{Json} (nodes : list nodeInfo) (w : Rpc) (from to : Z).

(** A block of the range that at least two nodes have, as the named node sent it. *)
Definition answeredBlock : blockOfNode := fun n name b =>
  from <= n <= to /\ (2 <= length (holders nodes w n))%nat /\
  exists i node, nodes !! i = Some node /\ nName node = name /\ has nodes w n i b.

Lemma held_answered n name b : NoDup (nName <$> nodes) -> 0 <= from <= to -> to < 2 ^ 64 -> to - from + 1 < 2 ^ 64 ->
  held nodes (fetchAll nodes w from to) n name b -> answeredBlock n name b.
Proof.
  intros Hnd Hr Ht Hc. rewrite fetchAll_numbers by done.
  intros (r & node & (k & -> & Hk%elem_of_seq)%list_elem_of_fmap & <- & Hv & [i Hi]%list_elem_of_lookup_1 & <- & Hb & He).
  rewrite fetchBlock_num in *. rewrite (length_valid nodes w Hnd) in Hv. split; [lia|]. split; [done|]. exists i, node. split_and!; [done..|].
  rewrite (blockOf_fetched nodes w Hnd _ i node Hi) in Hb. subst b. rewrite IsError_answer in He.
  split; [by eapply lookup_lt_Some|]. destruct (nodeAnswer w (from + Z.of_nat k) i) as [|b]; [done|]. split; [done|].
  cbn in *. by rewrite negb_involutive in He.
Qed.
End Answered.

Lemma batch_log `{Json} nodes w from to g s : NoDup (nName <$> nodes) -> 0 <= from <= to -> to < 2 ^ 64 -> to - from + 1 < 2 ^ 64 ->
  checkBatch nodes w from to g = Ok s ->
  exists evs, log (globals s) = log g ++ evs /\ explainedLog (answeredBlock nodes w from to) evs.
Proof.
  intros Hnd Hr Ht Hc Hs.
  destruct (checkResults_sound nodes (fetchAll nodes w from to) [] (emptyBatch g) s Hnd) as (evs & El & He); [|exact Hs|done|].
  - cbn [app]. rewrite fetchAll_numbers by done. intros i j q r Hij Hq Hr'. rewrite list_lookup_fmap in Hq, Hr'.
    apply fmap_Some in Hq as (a & Ha & ->). apply fmap_Some in Hr' as (b & Hb & ->). apply lookup_seq in Ha as [-> _], Hb as [-> _].
    rewrite !fetchBlock_num. lia.
  - exists evs. split; [exact El|]. intros a n Ha. eapply explained_mono; [|apply He, Ha].
    intros m name b. by apply held_answered.
Qed.

(** C22 (safety). Every anomaly that a batch writes to the log is true of the
    nodes' answers: of the node it names there is an earlier block of the batch with
    a timestamp more than 30 seconds later, an execution index not below, or an
    epoch above or more than one below; for a frozen state root there are at least
    six blocks with that root and epoch, one more than the streak it reports, and
    the last has a user transaction.  Both blocks were held by two nodes. *)
Theorem anomalies_sound `{Json} nodes w from to g s a n :
  NoDup (nName <$> nodes) -> 0 <= from <= to -> to < 2 ^ 64 -> to - from + 1 < 2 ^ 64 ->
  checkBatch nodes w from to g = Ok s ->
  Anomaly a n ∉ log g -> Anomaly a n ∈ log (globals s) -> explained (answeredBlock nodes w from to) a n.
Proof.
  intros Hnd Hr Ht Hc Hs Hold Ha. destruct (batch_log nodes w from to g s Hnd Hr Ht Hc Hs) as (evs & El & He).
  apply He. rewrite El in Ha. by apply elem_of_app in Ha as [?|?].
Qed.

(** One state root in six blocks, and an epoch that goes back. *)
Definition longText (n : nat) (root epoch : string) : string :=
  ("0x1111111111111111" +:+ pretty n +:+ ";0x1111111111111111" +:+ pretty (n - 1)%nat +:+ ";" +:+ root +:+ ";0x64;0x" +:+ pretty n +:+
   ";" +:+ epoch +:+ ";0xt1")%string.
Definition frozenRow : list string :=
  ((fun n => longText n "r" "0x2") <$> seq 1 6) ++ [longText 7 "r'" "0x1"].
Definition frozenRpc : Rpc := tableRpc "0x7" [frozenRow; frozenRow; []].
Definition frozenEnd : batchState :=
  match checkBatch sampleNodes frozenRpc 1 7 noGlobals with Ok s => s | _ => emptyBatch noGlobals end.

Lemma frozenEnd_run : checkBatch sampleNodes frozenRpc 1 7 noGlobals = Ok frozenEnd.
Proof. vm_compute. reflexivity. Qed.

Lemma anomalies_sound_witness :
  explained (answeredBlock sampleNodes frozenRpc 1 7) (StateRootFreeze "m0" "r" 5) 6 /\
  explained (answeredBlock sampleNodes frozenRpc 1 7) (EpochRegression "m1" 1 2) 7.
Proof.
  assert (Hin : forall e, bool_decide (e ∈ log (globals frozenEnd)) = true -> e ∈ log (globals frozenEnd)) by (intros e; apply bool_decide_eq_true_1).
  split; (apply (anomalies_sound sampleNodes frozenRpc 1 7 noGlobals frozenEnd);
    [apply (bool_decide_unpack _); vm_compute; exact I|lia|reflexivity|reflexivity|exact frozenEnd_run
    |apply not_elem_of_nil|apply Hin; vm_compute; reflexivity]).
Defined.
