(* ===== verification/BlockWatch.v ===== *)
(** * The block hash checker: scanning and watching

    Models the two modes of [block/block_hash_checker/main.go] on top of
    [checkBatch]: the scan of a range ([main]), the watch loop ([runWatch],
    [watchOnce]), the search for the first block that differs, and the stop flag.

    Every request meets the network at another time: the [k]-th batch is answered
    by [rpcAt k], and the order in which a Go map is iterated is an argument too.
    The requests made only to print their answers are not modelled. *)

From stdpp Require Import sorting.
From S2P Require Import Prelude GoStrings BlockChecker.
From S2P Require Import BlockCheckerTheorems.

Local Open Scope Z_scope.

(** What the program meets while it runs. *)
Record Network := mkNetwork {
  rpcAt : nat -> Rpc;
  heightsAt : nat -> nat -> string + string;
  rangeOrder : nat -> gmap string blockInfo -> list (string * blockInfo)
}.

Record Sys := mkSys { calls : nat; glob : Globals }.

Section Modes.
Context `{Json} (nodes : list nodeInfo) (net : Network).

(** A batch, at the time of its call. *)
Definition batch (from to : Z) : stm Sys batchState := fun st =>
  match checkBatch nodes (rpcAt net (calls st)) from to (glob st) with
  | Ok s => (Ok s, mkSys (S (calls st)) (globals s))
  | Err e => (Err e, st)
  | Panic => (Panic, st)
  | NoFuel => (NoFuel, st)
  end.

Definition hasMismatch (s : batchState) : bool := (0 <? length (mismatches s))%nat.

(** ** The first block that differs *)

(** [for low <= high]: the bounds are 64-bit numbers. *)
Fixpoint bisect (fuel : nat) (low high found : Z) : stm Sys Z :=
  match fuel with
  | O => lift NoFuel
  | S fuel' =>
      if low <=? high then
        let mid := wrap64 (low + wrap64 (high - low) / 2) in
        s ← batch mid mid;
        if hasMismatch s then bisect fuel' low (wrap64 (mid - 1)) mid else bisect fuel' (wrap64 (mid + 1)) high found
      else mret found
  end.

Definition bisectFuel : nat := 65.

(** The block found is fetched again when it is an earlier one. *)
Definition firstMismatch (ms : list mismatch) : stm Sys (Z * list mismatch) :=
  let first := match ms with [] => 0 | m :: _ => mBlockNumber m end in
  realFirst ← bisect bisectFuel 1 (wrap64 (first - 1)) first;
  if realFirst <? first then s ← batch realFirst realFirst; mret (realFirst, mismatches s ++ ms)
  else mret (realFirst, ms).

(** ** The stop flag *)

(** One request per node; the header fields are compared, and the flag is set when
    two of them differ.  The result says whether there is a message. *)
Definition triggerStopFlagForFirstMismatch (blockNum : Z) : stm Sys bool := fun st =>
  let w := rpcAt net (calls st) in
  let answer i := getBlockInfo (askBlock w i blockNum 0).1 (askBlock w i blockNum 0).2 in
  let valid := omap (fun i => match answer i with inr bi => if IsError bi then None else Some bi | inl _ => None end)
                 (seq 0 (length nodes)) in
  let st' := mkSys (S (calls st)) (glob st) in
  if (length valid <? 2)%nat then (Ok false, st')
  else
    let fields := match valid with [] => [] | ref :: rest => concat ((fun b => headerFields b ref) <$> rest) end in
    if (length fields =? 0)%nat then (Ok false, st')
    else (Ok true, mkSys (S (calls st)) (triggerStopFlag (glob st))).

(** ** Scanning a range *)

Record Scan := mkScan { allMismatches : list mismatch; scMatch : Z; scError : Z; scSkip : Z }.

Fixpoint scanLoop (fuel : nat) (batchStart toBlock batchSize : Z) (acc : Scan) : stm Sys Scan :=
  match fuel with
  | O => lift NoFuel
  | S fuel' =>
      if batchStart <=? toBlock then
        let batchEnd := wrap64 (batchStart + batchSize - 1) in
        let batchEnd := if toBlock <? batchEnd then toBlock else batchEnd in
        s ← batch batchStart batchEnd;
        scanLoop fuel' (wrap64 (batchStart + batchSize)) toBlock batchSize
          (mkScan (allMismatches acc ++ mismatches s) (wrap64 (scMatch acc + matchCount s)) (wrap64 (scError acc + errorCount s))
             (wrap64 (scSkip acc + skipCount s)))
      else mret acc
  end.

(** The scan of [main], with the report of the first difference; [batchSize] is
    the flag as a 64-bit number. *)
Definition scan (fuel : nat) (fromBlock toBlock batchSize : Z) : stm Sys (Scan * option (Z * bool)) :=
  acc ← scanLoop fuel fromBlock toBlock batchSize (mkScan [] 0 0 0);
  if (length (allMismatches acc) =? 0)%nat then mret (acc, None)
  else
    f ← firstMismatch (allMismatches acc);
    flag ← triggerStopFlagForFirstMismatch f.1;
    mret (mkScan f.2 (scMatch acc) (scError acc) (scSkip acc), Some (f.1, flag)).

(** ** Watching *)

Record Watch := mkWatch {
  totalChecks : Z;
  totalMismatches : Z;
  trackedGhosts : gset Z;
  lastVerifiedBlock : Z;
  nodeWasDead : gmap string bool;
  sys : Sys
}.

Definition maxUint64 : Z := 2 ^ 64 - 1.

Definition heights (k : nat) : list (string + Z) := (fun i => getLatestBlockNumber (heightsAt net k i)) <$> seq 0 (length nodes).

Definition minBlock (hs : list (string + Z)) : Z :=
  foldl (fun m h => match h with inr num => if num <? m then num else m | inl _ => m end) maxUint64 hs.
Definition maxBlock (hs : list (string + Z)) : Z :=
  foldl (fun m h => match h with inr num => if m <? num then num else m | inl _ => m end) 0 hs.

Definition isUpHeight (h : string + Z) : bool := match h with inr _ => true | inl _ => false end.

Definition markDead (dead : gmap string bool) (hs : list (string + Z)) : gmap string bool :=
  foldl (fun d nh =>
    match nh.2 with
    | inr _ => if default false (d !! nName nh.1) then <[nName nh.1 := false]> d else d
    | inl _ => <[nName nh.1 := true]> d
    end) dead (zip nodes hs).

(** [clearLoggedBlocks] *)
Definition clearLoggedBlocks (g : Globals) : Globals := mkGlobals ∅ (noStopFlag g) (log g).

Definition laggingNodes (hs : list (string + Z)) (lagThreshold : Z) : list string :=
  omap (fun nh => match nh.2 with
                  | inr num => if lagThreshold <=? maxBlock hs - num then Some (nName nh.1) else None
                  | inl _ => None
                  end) (zip nodes hs).

Definition warnLagging (lagThreshold : Z) (hs : list (string + Z)) (g : Globals) : Globals :=
  if (0 <? maxBlock hs) && (minBlock hs <? maxUint64) && (10 <? maxBlock hs - minBlock hs) &&
     (0 <? lagThreshold) && (lagThreshold <? maxBlock hs - minBlock hs)
  then logAnomaly (NodeLagging (laggingNodes hs lagThreshold)) (minBlock hs) g else g.

(** The cursor goes back when a node has fewer blocks than were checked. *)
Definition rewind (cursor lowest : Z) : Z :=
  if lowest <? cursor then (if 0 <? lowest then lowest - 1 else 0) else cursor.

Definition firstToCheck (cursor : Z) : Z := if 0 <? cursor then wrap64 (cursor + 1) else 1.

(** Whether the nodes other than the sync node agree on the hashes, in the order
    the map is iterated. *)
Definition isSyncNode (name : string) : bool := bool_decide (name = "m4"%string) || bool_decide (name = "node4"%string).

Fixpoint hashesAgree (refHash : string) (l : list (string * blockInfo)) : bool :=
  match l with
  | [] => true
  | (name, bi) :: l =>
      if isSyncNode name || IsError bi then hashesAgree refHash l
      else if bool_decide (refHash = ""%string) then hashesAgree (biHash bi) l
      else if bool_decide (refHash = biHash bi) then hashesAgree refHash l
      else false
  end.

Definition isSyncNodeMismatchOnly (order : gmap string blockInfo -> list (string * blockInfo)) (ms : list mismatch) : bool :=
  forallb (fun m => hashesAgree "" (order (mBlocks m))) ms.

(** A batch that is asked for again when only the sync node differs. *)
Definition patientBatch (from to : Z) : stm Sys batchState := fun st =>
  match batch from to st with
  | (Ok s, st') =>
      if hasMismatch s && isSyncNodeMismatchOnly (rangeOrder net (calls st)) (mismatches s) then batch from to st' else (Ok s, st')
  | r => r
  end.

Definition watchBatchSize : Z := 20.

(** The batches up to the first with a difference. *)
Fixpoint watchLoop (fuel : nat) (batchStart highest : Z) : stm Sys (list mismatch) :=
  match fuel with
  | O => lift NoFuel
  | S fuel' =>
      if batchStart <=? highest then
        let batchEnd := wrap64 (batchStart + watchBatchSize - 1) in
        let batchEnd := if highest <? batchEnd then highest else batchEnd in
        s ← patientBatch batchStart batchEnd;
        if hasMismatch s then mret (mismatches s) else watchLoop fuel' (wrap64 (batchStart + watchBatchSize)) highest
      else mret []
  end.

(** One check: [true] asks the caller to stop. *)
Definition watchOnce (fuel : nat) (lagThreshold : Z) : stm Watch bool := fun st =>
  let hs := heights (Z.to_nat (totalChecks st)) in
  let dead := markDead (nodeWasDead st) hs in
  let failed := existsb (fun h => negb (isUpHeight h)) hs in
  let g := if failed then clearLoggedBlocks (glob (sys st)) else glob (sys st) in
  let ghosts := if failed then ∅ else trackedGhosts st in
  let g := warnLagging lagThreshold hs g in
  let stop cursor mism sys := mkWatch (totalChecks st + 1) mism ghosts cursor dead sys in
  let sys0 := mkSys (calls (sys st)) g in
  if minBlock hs =? maxUint64 then (Ok false, stop (lastVerifiedBlock st) (totalMismatches st) sys0)
  else if (length (filter (fun h => isUpHeight h = true) hs) <? 2)%nat then (Ok false, stop (lastVerifiedBlock st) (totalMismatches st) sys0)
  else
    let cursor := rewind (lastVerifiedBlock st) (minBlock hs) in
    let from := firstToCheck cursor in
    if maxBlock hs <? from then (Ok false, stop cursor (totalMismatches st) sys0)
    else
      match watchLoop fuel from (maxBlock hs) sys0 with
      | (Ok [], sys1) => (Ok false, stop (minBlock hs) (totalMismatches st) sys1)
      | (Ok ms, sys1) =>
          match firstMismatch ms sys1 with
          | (Ok (realFirst, ms), sys2) =>
              match triggerStopFlagForFirstMismatch realFirst sys2 with
              | (Ok _, sys3) => (Ok true, stop cursor (totalMismatches st + Z.of_nat (length ms)) sys3)
              | (Err e, sys3) => (Err e, stop cursor (totalMismatches st) sys3)
              | (Panic, sys3) => (Panic, stop cursor (totalMismatches st) sys3)
              | (NoFuel, sys3) => (NoFuel, stop cursor (totalMismatches st) sys3)
              end
          | (Err e, sys2) => (Err e, stop cursor (totalMismatches st) sys2)
          | (Panic, sys2) => (Panic, stop cursor (totalMismatches st) sys2)
          | (NoFuel, sys2) => (NoFuel, stop cursor (totalMismatches st) sys2)
          end
      | (Err e, sys1) => (Err e, stop cursor (totalMismatches st) sys1)
      | (Panic, sys1) => (Panic, stop cursor (totalMismatches st) sys1)
      | (NoFuel, sys1) => (NoFuel, stop cursor (totalMismatches st) sys1)
      end.

(** How the program ends. *)
Inductive WatchEnd := Exited (code : Z) | Signalled | Crashed | Watching.

(** What the [select] of the watch loop takes: a tick, with the parent process
    alive or gone, or a signal. *)
Inductive Tick := TickAlive | TickOrphan | TickSignal.

Definition watchStep (fuel : nat) (lagThreshold : Z) (st : Watch) : WatchEnd * Watch :=
  match watchOnce fuel lagThreshold st with
  | (Ok true, st') => (Exited 1, st')
  | (Ok false, st') => (Watching, st')
  | (_, st') => (Crashed, st')
  end.

Fixpoint watchTicks (fuel : nat) (lagThreshold : Z) (ticks : list Tick) (st : Watch) : WatchEnd * Watch :=
  match ticks with
  | [] => (Watching, st)
  | TickSignal :: _ => (Signalled, st)
  | TickOrphan :: _ => (Exited 0, st)
  | TickAlive :: ticks =>
      match watchStep fuel lagThreshold st with
      | (Watching, st') => watchTicks fuel lagThreshold ticks st'
      | r => r
      end
  end.

Definition newWatch (g : Globals) : Watch := mkWatch 0 0 ∅ 0 ∅ (mkSys 0 g).

(** A first check at once, then one per tick. *)
Definition runWatch (fuel : nat) (lagThreshold : Z) (g : Globals) (ticks : list Tick) : WatchEnd * Watch :=
  match watchStep fuel lagThreshold (newWatch g) with
  | (Watching, st) => watchTicks fuel lagThreshold ticks st
  | r => r
  end.
End Modes.

(** * The block hash checker: what watching finds

    The search finds the first block on which the nodes differ, when they differ
    from that block on; a watch passes only over blocks that some batch compared
    without a difference, or could not compare; a lasting difference stops it. *)

(** ** Hexadecimal numbers *)

Lemma hexDigit_range a d : hexDigit a = Some d -> 0 <= d.
Proof. unfold hexDigit. repeat case_match; intros ?; simplify_eq; lia. Qed.

Lemma hexValue_nonneg s : forall acc v, 0 <= acc -> hexValue acc s = Some v -> 0 <= v.
Proof.
  induction s as [|a s IH]; intros acc v Ha; cbn; [by intros [= <-]|]. destruct (hexDigit a) as [d|] eqn:Ed; [|done]. cbn.
  apply IH. pose proof (hexDigit_range a d Ed). lia.
Qed.

Lemma parseUintHex_range s : 0 <= default 0 (parseUintHex s) < 2 ^ 64.
Proof.
  unfold parseUintHex. destruct s as [|a s]; [done|]. destruct (hexValue 0 (String a s)) as [v|] eqn:E; cbn [mbind option_bind]; [|done].
  destruct (Z.ltb_spec v (2 ^ 64)); cbn; [|lia]. apply hexValue_nonneg in E; lia.
Qed.

(** A number that was scanned fits in 64 bits. *)
Lemma parseHexStr_range s : 0 <= parseHexStr s < 2 ^ 64.
Proof. unfold parseHexStr. repeat case_match; try done. apply parseUintHex_range. Qed.

Section Watch.
Context `{Json} (nodes : list nodeInfo) (net : Network).
Context (Hnames : NoDup (nName <$> nodes)).

(** All hashes are long enough to be shown. *)
Definition longBelow (w : Rpc) (highest : Z) : Prop := forall n i b, 0 <= n <= highest -> has nodes w n i b ->
  (18 <= String.length (biParentHash b))%nat /\ (18 <= String.length (biHash b))%nat.

(** Two nodes have the block, and two answers differ. *)
Definition disputed (w : Rpc) (n : Z) : Prop := (2 <= length (holders nodes w n))%nat /\ diverges nodes w n.

Lemma hasMismatch_some s : hasMismatch s = true <-> exists n, n ∈ mBlockNumber <$> mismatches s.
Proof.
  unfold hasMismatch. rewrite Nat.ltb_lt. destruct (mismatches s) as [|m l]; cbn.
  - split; [lia|]. by intros [n ?%elem_of_nil].
  - split; [|lia]. intros _. exists (mBlockNumber m). left.
Qed.

(** A batch that returns. *)
Lemma batch_reported from to st s st' : 0 <= from <= to -> to < 2 ^ 64 -> to - from + 1 < 2 ^ 64 -> batch nodes net from to st = (Ok s, st') ->
  calls st' = S (calls st) /\
  forall n, n ∈ mBlockNumber <$> mismatches s <-> from <= n <= to /\ reported nodes (rpcAt net (calls st)) from n.
Proof.
  intros Hr Ht Hc Hb. unfold batch in Hb. pose proof (batch_cases nodes (rpcAt net (calls st)) from to (glob st) Hnames Hr Ht Hc) as HB.
  destruct (checkBatch _ _ _ _ _) as [s1| | |]; simplify_eq. split; [done|]. apply HB.
Qed.

Lemma batch_returns from to st : 0 <= from <= to -> to < 2 ^ 64 -> to - from + 1 < 2 ^ 64 -> longBelow (rpcAt net (calls st)) to ->
  exists s st', batch nodes net from to st = (Ok s, st').
Proof.
  intros Hr Ht Hc Hl. unfold batch. pose proof (batch_cases nodes (rpcAt net (calls st)) from to (glob st) Hnames Hr Ht Hc) as HB.
  destruct (checkBatch _ _ _ _ _) as [s| | |]; [by do 2 eexists|done| |done].
  destruct HB as (n & i & b & Hn & Hb & Hs). destruct (Hl n i b ltac:(lia) Hb). lia.
Qed.

(** A batch of one block sees only disputes. *)
Lemma reported_one w n : reported nodes w n n <-> disputed w n.
Proof. unfold reported, disputed. naive_solver. Qed.

(** ** The search *)

(** A batch of one block returns, with a difference if it is disputed. *)
Lemma single_batch n st : 0 <= n < 2 ^ 64 -> longBelow (rpcAt net (calls st)) n ->
  exists s st', batch nodes net n n st = (Ok s, st') /\ calls st' = S (calls st) /\
    (hasMismatch s = true <-> disputed (rpcAt net (calls st)) n) /\ forall m, m ∈ mBlockNumber <$> mismatches s -> m = n.
Proof.
  intros Hn Hl. destruct (batch_returns n n st) as (s & st' & Hs); [lia..|done|]. exists s, st'. split; [done|].
  destruct (batch_reported n n st s st' ltac:(lia) ltac:(lia) ltac:(lia) Hs) as (Hk & Hm). split; [done|].
  split; [|intros m [? _]%Hm; lia]. rewrite hasMismatch_some, <- reported_one. split.
  - intros (m & [? Hr]%Hm). by replace m with n in Hr by lia.
  - intros Hr. exists n. apply Hm. split; [lia|done].
Qed.

(** The middle of an interval. *)
Lemma middle low high : 0 <= low <= high -> high < 2 ^ 64 ->
  let mid := wrap64 (low + wrap64 (high - low) / 2) in low <= mid <= high /\ 2 * mid <= low + high <= 2 * mid + 1.
Proof.
  intros Hl Hh. cbv zeta. unfold wrap64. rewrite (Z.mod_small (high - low)) by lia.
  pose proof (Z.div_pos (high - low) 2). pose proof (Z.div_mod (high - low) 2). pose proof (Z.mod_pos_bound (high - low) 2).
  rewrite Z.mod_small by lia. lia.
Qed.

Lemma half_size fuel low high mid : high - low + 1 < 2 ^ (Z.of_nat (S fuel) - 1) -> low <= mid <= high ->
  2 * mid <= low + high <= 2 * mid + 1 ->
  (mid - 1) - low + 1 < 2 ^ (Z.of_nat fuel - 1) /\ high - (mid + 1) + 1 < 2 ^ (Z.of_nat fuel - 1).
Proof.
  intros Hs Hm Hh. destruct fuel; [cbn in Hs; lia|].
  assert (Hp : 2 ^ (Z.of_nat (S (S fuel)) - 1) = 2 * 2 ^ (Z.of_nat (S fuel) - 1)) by (rewrite <- Z.pow_succ_r by lia; f_equal; lia).
  lia.
Qed.

(** Whatever the answers, the search ends with a block of the interval. *)
Lemma bisect_returns fuel : forall low high found st, 1 <= low -> high + 1 = found -> low <= found -> found < 2 ^ 64 ->
  (forall k, longBelow (rpcAt net k) found) -> high - low + 1 < 2 ^ (Z.of_nat fuel - 1) ->
  exists r st', bisect nodes net fuel low high found st = (Ok r, st') /\ low <= r <= found.
Proof.
  induction fuel as [|fuel IH]; intros low high found st Hl Hh Hf Hlt Hlong Hsize; [cbn in Hsize; lia|].
  cbn [bisect]. destruct (Z.leb_spec low high) as [Hle|Hgt]; [|exists found, st; split; [done|lia]].
  destruct (middle low high ltac:(lia) ltac:(lia)) as [Hmid Hhalf]. cbv zeta. set (mid := wrap64 (low + _)) in *.
  destruct (half_size fuel low high mid Hsize Hmid Hhalf) as [S1 S2].
  destruct (single_batch mid st ltac:(lia)) as (s & st' & Hs & _). { intros m i b Hm. apply (Hlong (calls st)). lia. }
  unfold mbind at 1, stm_bind at 1. rewrite Hs. destruct (hasMismatch s).
  - replace (wrap64 (mid - 1)) with (mid - 1) by (unfold wrap64; rewrite Z.mod_small; lia).
    destruct (IH low (mid - 1) mid st') as (r & st'' & Hr & ?); [lia..| |lia|exists r, st''; split; [done|lia]].
    intros k m i b Hm. apply (Hlong k). lia.
  - replace (wrap64 (mid + 1)) with (mid + 1) by (unfold wrap64; rewrite Z.mod_small; lia).
    destruct (IH (mid + 1) high found st') as (r & st'' & Hr & ?); [lia..|done|lia|exists r, st''; split; [done|lia]].
Qed.

Section Stable.
Context (w : Rpc) (first : Z).
Context (Hstable : forall k, rpcAt net k = w) (Hfirst : 1 <= first < 2 ^ 64) (Hlong : longBelow w first).
Context (Hfrom : forall n m, 1 <= n <= m -> m < first -> disputed w n -> disputed w m).

Lemma bisect_finds fuel : forall low high found st, 1 <= low -> high + 1 = found -> low <= found <= first ->
  high - low + 1 < 2 ^ (Z.of_nat fuel - 1) ->
  (forall n, 1 <= n < low -> ~ disputed w n) -> (found < first -> disputed w found) ->
  exists r st', bisect nodes net fuel low high found st = (Ok r, st') /\
    1 <= r <= first /\ (forall n, 1 <= n < r -> ~ disputed w n) /\ (r < first -> disputed w r).
Proof.
  induction fuel as [|fuel IH]; intros low high found st Hl Hh Hf Hsize Hbelow Hd; [cbn in Hsize; lia|].
  cbn [bisect]. destruct (Z.leb_spec low high) as [Hle|Hgt].
  2:{ exists found, st. split; [done|]. split; [lia|]. split; [intros n Hn; apply Hbelow; lia|done]. }
  destruct (middle low high ltac:(lia) ltac:(lia)) as [Hmid Hhalf]. cbv zeta. set (mid := wrap64 (low + _)) in *.
  destruct (half_size fuel low high mid Hsize Hmid Hhalf) as [S1 S2].
  destruct (single_batch mid st ltac:(lia)) as (s & st' & Hs & _ & Hm & _). { rewrite Hstable. intros m i b Hm. apply Hlong. lia. }
  rewrite Hstable in Hm. unfold mbind at 1, stm_bind at 1. rewrite Hs. destruct (hasMismatch s).
  - replace (wrap64 (mid - 1)) with (mid - 1) by (unfold wrap64; rewrite Z.mod_small; lia).
    apply IH; try lia; [done|]. intros _. by apply Hm.
  - replace (wrap64 (mid + 1)) with (mid + 1) by (unfold wrap64; rewrite Z.mod_small; lia).
    apply IH; try lia; [|done]. intros n Hn Hdn. assert (Hdm : disputed w mid).
    { destruct (decide (n < low)); [by destruct (Hbelow n ltac:(lia))|]. apply (Hfrom n mid); [lia..|done]. }
    apply Hm in Hdm. done.
Qed.
End Stable.

(** A mismatch at block 0 sends the search over all 64-bit numbers; when no block
    above is disputed it never ends. *)
Lemma bisect_endless fuel : forall low st, 0 <= low < 2 ^ 64 ->
  (forall k, longBelow (rpcAt net k) (2 ^ 64 - 1)) -> (forall k n, 1 <= n < 2 ^ 64 -> ~ disputed (rpcAt net k) n) ->
  (bisect nodes net fuel low (2 ^ 64 - 1) 0 st).1 = NoFuel.
Proof.
  induction fuel as [|fuel IH]; intros low st Hl Hlong Hno; [done|]. cbn [bisect]. destruct (Z.leb_spec low (2 ^ 64 - 1)) as [Hle|?]; [|lia].
  destruct (middle low (2 ^ 64 - 1) ltac:(lia) ltac:(lia)) as [Hmid Hhalf]. cbv zeta. set (mid := wrap64 (low + _)) in *.
  destruct (single_batch mid st ltac:(lia)) as (s & st' & Hs & _ & Hm & _). { intros m i b Hb. apply (Hlong (calls st)). lia. }
  unfold mbind at 1, stm_bind at 1. rewrite Hs. destruct (hasMismatch s); [|apply IH; [|done..]; unfold wrap64; apply Z.mod_pos_bound; lia].
  exfalso. apply (Hno (calls st) mid); [lia|]. by apply Hm.
Qed.

(** Whatever the answers, the first mismatch is determined. *)
Lemma firstMismatch_returns m ms st : 1 <= mBlockNumber m < 2 ^ 64 -> (forall k, longBelow (rpcAt net k) (mBlockNumber m)) ->
  exists r ms' st', firstMismatch nodes net (m :: ms) st = (Ok (r, ms'), st').
Proof.
  intros Hm Hl. unfold firstMismatch. replace (wrap64 (mBlockNumber m - 1)) with (mBlockNumber m - 1) by (unfold wrap64; rewrite Z.mod_small; lia).
  destruct (bisect_returns bisectFuel 1 (mBlockNumber m - 1) (mBlockNumber m) st) as (r & st1 & Hb & Hr); [lia|lia|lia|lia|done|unfold bisectFuel; lia|].
  unfold mbind, stm_bind. rewrite Hb. destruct (Z.ltb_spec r (mBlockNumber m)); [|by do 3 eexists].
  destruct (batch_returns r r st1) as (s & st2 & Hs); [lia..| |]. { intros n i b Hn. apply (Hl (calls st1)). lia. }
  cbv beta. rewrite Hs. by do 3 eexists.
Qed.

Lemma trigger_returns n st : exists f st', triggerStopFlagForFirstMismatch nodes net n st = (Ok f, st').
Proof. unfold triggerStopFlagForFirstMismatch. repeat case_match; by do 2 eexists. Qed.

(** ** The batches of a check *)

(** Some batch before call [k] held the block and did not report it. *)
Definition passed (k : nat) (n : Z) : Prop := exists k' from, (k' < k)%nat /\ from <= n /\ ~ reported nodes (rpcAt net k') from n.

Lemma passed_mono k k' n : (k <= k')%nat -> passed k n -> passed k' n.
Proof. intros Hk (j & from & Hj & ?). exists j, from. split; [lia|done]. Qed.

Lemma patientBatch_passed from to st s st' : 0 <= from <= to -> to < 2 ^ 64 -> to - from + 1 < 2 ^ 64 ->
  patientBatch nodes net from to st = (Ok s, st') ->
  (calls st < calls st')%nat /\ (hasMismatch s = false -> forall n, from <= n <= to -> passed (calls st') n).
Proof.
  intros Hr Ht Hc. unfold patientBatch.
  assert (Hone : forall st s st', batch nodes net from to st = (Ok s, st') -> calls st' = S (calls st) /\
    (hasMismatch s = false -> forall n, from <= n <= to -> passed (calls st') n)).
  { clear st s st'. intros st s st' Hs. destruct (batch_reported from to st s st' Hr Ht Hc Hs) as [Hk Hm]. split; [done|]. intros He n Hn.
    exists (calls st), from. split_and!; [lia|lia|]. intros Hrep. assert (Hin : hasMismatch s = true) by (apply hasMismatch_some; exists n; apply Hm; done).
    congruence. }
  destruct (batch nodes net from to st) as [[s1| | |] st1] eqn:E1; try done. destruct (Hone st s1 st1 E1) as [K1 P1].
  destruct (_ && _).
  - intros E2. destruct (Hone st1 s st' E2) as [K2 P2]. split; [lia|done].
  - intros [= <- <-]. split; [lia|done].
Qed.

(** The bounds of a batch of the watch. *)
Lemma batchEnd_bounds start highest : 1 <= start <= highest -> highest < 2 ^ 64 - 20 ->
  let e := wrap64 (start + watchBatchSize - 1) in let e := if highest <? e then highest else e in
  start <= e <= highest /\ e - start + 1 < 2 ^ 64 /\ wrap64 (start + watchBatchSize) = start + 20 /\ (e = highest \/ e = start + 19).
Proof.
  intros Hs Hh. cbv zeta. unfold watchBatchSize, wrap64. rewrite !Z.mod_small by lia. destruct (Z.ltb_spec highest (start + 20 - 1)); lia.
Qed.

Lemma watchLoop_passed fuel : forall start highest st st' ms, 1 <= start -> highest < 2 ^ 64 - 20 ->
  watchLoop nodes net fuel start highest st = (Ok ms, st') ->
  (calls st <= calls st')%nat /\ (ms = [] -> forall n, start <= n <= highest -> passed (calls st') n).
Proof.
  induction fuel as [|fuel IH]; intros start highest st st' ms Hs Hh; [done|]. cbn [watchLoop].
  destruct (Z.leb_spec start highest) as [Hle|Hgt]; [|intros [= <- <-]; split; [done|lia]].
  destruct (batchEnd_bounds start highest ltac:(lia) Hh) as (He & Hc & -> & Hend). cbv zeta. set (e := if highest <? _ then _ else _) in *.
  unfold mbind at 1, stm_bind at 1. destruct (patientBatch nodes net start e st) as [[s| | |] st1] eqn:E1; try done.
  destruct (patientBatch_passed start e st s st1 ltac:(lia) ltac:(lia) Hc E1) as [K1 P1]. destruct (hasMismatch s) eqn:Em.
  - intros [= <- <-]. split; [lia|]. intros Hn. unfold hasMismatch in Em. by rewrite Hn in Em.
  - intros E2. destruct (IH (start + 20) highest st1 st' ms ltac:(lia) Hh E2) as [K2 P2]. split; [lia|]. intros Hn n Hnn.
    destruct (decide (n <= e)); [eapply passed_mono, P1; [lia|done|lia]|]. apply P2; [done|lia].
Qed.

(** With long hashes the batches return; a block in dispute at every call is
    found. *)
Lemma patientBatch_returns from to st : 0 <= from <= to -> to < 2 ^ 64 -> to - from + 1 < 2 ^ 64 ->
  (forall k, longBelow (rpcAt net k) to) -> exists s st', patientBatch nodes net from to st = (Ok s, st') /\
  (hasMismatch s = false -> forall n, from <= n <= to -> exists k, ~ disputed (rpcAt net k) n) /\
  (forall n, n ∈ mBlockNumber <$> mismatches s -> from <= n <= to).
Proof.
  intros Hr Ht Hc Hl. unfold patientBatch.
  assert (Hone : forall st, exists s st', batch nodes net from to st = (Ok s, st') /\
    (hasMismatch s = false -> forall n, from <= n <= to -> exists k, ~ disputed (rpcAt net k) n) /\
    (forall n, n ∈ mBlockNumber <$> mismatches s -> from <= n <= to)).
  { clear st. intros st. destruct (batch_returns from to st Hr Ht Hc (Hl _)) as (s & st' & Hs). exists s, st'. split; [done|].
    destruct (batch_reported from to st s st' Hr Ht Hc Hs) as [Hk Hm]. split; [|intros n [? _]%Hm; done]. intros He n Hn.
    exists (calls st). intros [H1 H2].
    assert (Hin : hasMismatch s = true); [|congruence]. apply hasMismatch_some. exists n. apply Hm. split; [done|]. split; [done|by left]. }
  destruct (Hone st) as (s1 & st1 & -> & H1). destruct (_ && _); [apply Hone|by exists s1, st1].
Qed.

Lemma watchLoop_returns fuel : forall start highest st, 1 <= start <= highest + 20 -> highest < 2 ^ 64 - 20 ->
  (forall k, longBelow (rpcAt net k) highest) -> highest - start < 20 * (Z.of_nat fuel - 1) ->
  exists ms st', watchLoop nodes net fuel start highest st = (Ok ms, st') /\
    (ms = [] -> forall n, start <= n <= highest -> exists k, ~ disputed (rpcAt net k) n) /\
    (forall m ms', ms = m :: ms' -> start <= mBlockNumber m <= highest).
Proof.
  induction fuel as [|fuel IH]; intros start highest st Hs Hh Hl Hf.
  { exfalso. lia. }
  cbn [watchLoop]. destruct (Z.leb_spec start highest) as [Hle|Hgt]; [|exists [], st; split; [done|]; split; [lia|done]].
  destruct (batchEnd_bounds start highest ltac:(lia) Hh) as (He & Hc & -> & Hend). cbv zeta. set (e := if highest <? _ then _ else _) in *.
  destruct (patientBatch_returns start e st ltac:(lia) ltac:(lia) Hc) as (s & st1 & E1 & P1 & R1).
  { intros k n i b Hn. apply (Hl k). lia. }
  unfold mbind at 1, stm_bind at 1. rewrite E1. destruct (hasMismatch s) eqn:Em.
  - exists (mismatches s), st1. split; [done|]. split; [intros Hn; unfold hasMismatch in Em; by rewrite Hn in Em|].
    intros m ms' Hms. assert (Hin : mBlockNumber m ∈ mBlockNumber <$> mismatches s) by (rewrite Hms; cbn; left). apply R1 in Hin. lia.
  - destruct (IH (start + 20) highest st1 ltac:(lia) Hh Hl ltac:(lia)) as (ms & st2 & E2 & P2 & R2). exists ms, st2. split; [done|]. split.
    + intros Hn n Hnn. destruct (decide (n <= e)); [apply P1; [done|lia]|]. apply P2; [done|lia].
    + intros m ms' Hms. specialize (R2 m ms' Hms). lia.
Qed.

(** ** One check *)

(** Calls are counted up. *)
Definition grows {A} (m : stm Sys A) : Prop := forall st, (calls st <= calls (m st).2)%nat.

Lemma grows_bind {A B} (m : stm Sys A) (f : A -> stm Sys B) : grows m -> (forall a, grows (f a)) -> grows (m ≫= f).
Proof.
  intros Hm Hf st. specialize (Hm st). unfold mbind, stm_bind. destruct (m st) as [[a|e| |] st1]; cbn in *; [|done..].
  specialize (Hf a st1). lia.
Qed.

Lemma batch_grows from to : grows (batch nodes net from to).
Proof. intros st. unfold batch. destruct (checkBatch _ _ _ _ _); cbn; lia. Qed.

Lemma bisect_grows fuel low high found : grows (bisect nodes net fuel low high found).
Proof.
  revert low high found. induction fuel as [|fuel IH]; intros low high found; [by intros st|]. cbn [bisect].
  destruct (_ <=? _); [|by intros st]. apply grows_bind; [apply batch_grows|]. intros s. by destruct (hasMismatch s).
Qed.

Lemma firstMismatch_grows ms : grows (firstMismatch nodes net ms).
Proof.
  apply grows_bind; [apply bisect_grows|]. intros r. destruct (_ <? _); [|by intros st]. apply grows_bind; [apply batch_grows|by intros s st].
Qed.

Lemma trigger_grows n : grows (triggerStopFlagForFirstMismatch nodes net n).
Proof. intros st. unfold triggerStopFlagForFirstMismatch. repeat case_match; cbn; lia. Qed.

Lemma patientBatch_grows from to : grows (patientBatch nodes net from to).
Proof.
  intros st. unfold patientBatch. pose proof (batch_grows from to st) as H1. destruct (batch nodes net from to st) as [[s| | |] st1]; cbn in *; try done.
  destruct (_ && _); [|done]. pose proof (batch_grows from to st1). cbn in *. lia.
Qed.

Lemma watchLoop_grows fuel start highest : grows (watchLoop nodes net fuel start highest).
Proof.
  revert start. induction fuel as [|fuel IH]; intros start; [by intros st|]. cbn [watchLoop]. destruct (_ <=? _); [|by intros st].
  apply grows_bind; [apply patientBatch_grows|]. intros s. destruct (hasMismatch s); [by intros st|apply IH].
Qed.

(** No node claims a height near the largest number. *)
Definition saneHeights : Prop := forall k i num, getLatestBlockNumber (heightsAt net k i) = inr num -> num < 2 ^ 64 - 20.

Lemma getLatest_nonneg p num : getLatestBlockNumber p = inr num -> 0 <= num.
Proof.
  unfold getLatestBlockNumber. destruct (decodeRpc p) as [|r]; [done|]. destruct (rpcErrorOf r); [done|].
  destruct (unmarshalString (rpcResult r)); [done|]. intros [= <-]. apply parseHexStr_range.
Qed.

Lemma minBlock_spec hs : (forall num, inr num ∈ hs -> 0 <= num) -> 0 <= minBlock hs /\ forall num, inr num ∈ hs -> minBlock hs <= num.
Proof.
  intros Hp. unfold minBlock.
  assert (Hg : forall hs m, 0 <= m -> (forall num, inr num ∈ hs -> 0 <= num) ->
    let r := foldl (fun m (h : string + Z) => match h with inr num => if num <? m then num else m | inl _ => m end) m hs in
    0 <= r <= m /\ forall num, inr num ∈ hs -> r <= num).
  { clear. induction hs as [|[e|num] hs IH]; intros m Hm Hp; cbn [foldl]; [split; [lia|]; by intros num ?%elem_of_nil| |].
    - destruct (IH m Hm ltac:(set_solver)) as [? Hr]. split; [done|]. intros num [?|?]%elem_of_cons; [done|by apply Hr].
    - assert (Hn : 0 <= num) by (apply Hp; left). destruct (Z.ltb_spec num m).
      + destruct (IH num Hn ltac:(set_solver)) as [? Hr]. split; [lia|]. intros k [[= ->]|?]%elem_of_cons; [lia|by apply Hr].
      + destruct (IH m Hm ltac:(set_solver)) as [? Hr]. split; [lia|]. intros k [[= ->]|?]%elem_of_cons; [lia|by apply Hr]. }
  destruct (Hg hs maxUint64 ltac:(done) Hp) as [? ?]. split; [lia|done].
Qed.

Lemma maxBlock_spec hs b : 0 <= b -> (forall num, inr num ∈ hs -> num <= b) ->
  0 <= maxBlock hs <= b /\ forall num, inr num ∈ hs -> num <= maxBlock hs.
Proof.
  intros Hb Hp. unfold maxBlock.
  assert (Hg : forall hs m, m <= b -> (forall num, inr num ∈ hs -> num <= b) ->
    let r := foldl (fun m (h : string + Z) => match h with inr num => if m <? num then num else m | inl _ => m end) m hs in
    m <= r <= b /\ forall num, inr num ∈ hs -> num <= r).
  { clear Hb Hp hs. induction hs as [|[e|num] hs IH]; intros m Hm Hp; cbn [foldl]; [split; [lia|]; by intros num ?%elem_of_nil| |].
    - destruct (IH m Hm ltac:(set_solver)) as [? Hr]. split; [done|]. intros num [?|?]%elem_of_cons; [done|by apply Hr].
    - assert (Hn : num <= b) by (apply Hp; left). destruct (Z.ltb_spec m num).
      + destruct (IH num Hn ltac:(set_solver)) as [? Hr]. split; [lia|]. intros k [[= ->]|?]%elem_of_cons; [lia|by apply Hr].
      + destruct (IH m Hm ltac:(set_solver)) as [? Hr]. split; [lia|]. intros k [[= ->]|?]%elem_of_cons; [lia|by apply Hr]. }
  destruct (Hg hs 0 Hb Hp) as [? ?]. split; [lia|done].
Qed.

Lemma heights_bounds k num : saneHeights -> inr num ∈ heights nodes net k -> 0 <= num < 2 ^ 64 - 20.
Proof.
  intros Hs (i & Hi & _)%list_elem_of_fmap. split; [by eapply getLatest_nonneg|]. by eapply Hs.
Qed.

(** The bounds of a check with an answer. *)
Lemma check_bounds k : saneHeights -> minBlock (heights nodes net k) <> maxUint64 ->
  0 <= minBlock (heights nodes net k) <= maxBlock (heights nodes net k) /\ maxBlock (heights nodes net k) < 2 ^ 64 - 20.
Proof.
  intros Hs Hne. set (hs := heights nodes net k) in *.
  assert (Hb : forall num, inr num ∈ hs -> 0 <= num < 2 ^ 64 - 20) by (intros num; by apply heights_bounds).
  destruct (minBlock_spec hs) as [Hm0 Hm]; [intros num ?; by apply Hb|].
  destruct (maxBlock_spec hs (2 ^ 64 - 21)) as [Hx0 Hx]; [lia|intros num Hn%Hb; lia|].
  assert (Hex : exists num, inr num ∈ hs).
  { clear -Hne. unfold minBlock in Hne. revert Hne. generalize maxUint64 as m. induction hs as [|[e|num] hs IH]; intros m; cbn; [done| |].
    - intros Hn. destruct (IH m Hn) as [num ?]. exists num. by right.
    - intros _. exists num. left. }
  destruct Hex as [num Hnum]. specialize (Hm num Hnum). specialize (Hx num Hnum). lia.
Qed.

(** What the cursor of the watch promises. *)
Definition watchInv (st : Watch) : Prop :=
  0 <= lastVerifiedBlock st < 2 ^ 64 - 20 /\ forall n, 1 <= n <= lastVerifiedBlock st -> passed (calls (sys st)) n.

Lemma rewind_le cursor lowest : 0 <= cursor -> 0 <= lowest -> 0 <= rewind cursor lowest <= cursor.
Proof. unfold rewind. intros ? ?. destruct (Z.ltb_spec lowest cursor); [|lia]. destruct (Z.ltb_spec 0 lowest); lia. Qed.

Lemma firstToCheck_next cursor : 0 <= cursor < 2 ^ 64 - 20 -> firstToCheck cursor = cursor + 1.
Proof. intros Hc. unfold firstToCheck. destruct (Z.ltb_spec 0 cursor); [|lia]. unfold wrap64. rewrite Z.mod_small; lia. Qed.

(** A check keeps the promise when it counts its calls and does not raise the
    cursor beyond what was passed. *)
Lemma watchInv_keep st st' : watchInv st -> 0 <= lastVerifiedBlock st' <= lastVerifiedBlock st ->
  (calls (sys st) <= calls (sys st'))%nat -> watchInv st'.
Proof. intros [Hb Hp] Hle Hc. split; [lia|]. intros n Hn. eapply passed_mono; [exact Hc|]. apply Hp. lia. Qed.

Ltac keep_cursor := eapply watchInv_keep; [eassumption|cbn in *; lia|cbn in *; lia].

Lemma watchOnce_inv fuel lag st : saneHeights -> watchInv st -> watchInv (watchOnce nodes net fuel lag st).2.
Proof.
  intros Hsane Hi. pose proof Hi as [Hb Hp]. unfold watchOnce. set (hs := heights nodes net (Z.to_nat (totalChecks st))). cbv zeta.
  destruct (Z.eqb_spec (minBlock hs) maxUint64) as [|Hmin]; [keep_cursor|].
  destruct (check_bounds _ Hsane Hmin) as [Hm Hx]. fold hs in Hm, Hx.
  destruct (_ <? 2)%nat; [keep_cursor|].
  pose proof (rewind_le (lastVerifiedBlock st) (minBlock hs) ltac:(lia) ltac:(lia)) as Hr. set (cursor := rewind _ _) in *.
  rewrite (firstToCheck_next cursor) by lia. destruct (_ <? _); [keep_cursor|].
  set (sys0 := mkSys _ _). pose proof (watchLoop_grows fuel (cursor + 1) (maxBlock hs) sys0) as G1.
  destruct (watchLoop nodes net fuel (cursor + 1) (maxBlock hs) sys0) as [[ms|e| |] sys1] eqn:E1; cbn [snd] in *;
    [|keep_cursor..]. destruct ms as [|m ms].
  - destruct (watchLoop_passed fuel (cursor + 1) (maxBlock hs) sys0 sys1 [] ltac:(lia) Hx E1) as [K1 P1].
    split; [cbn; lia|]. cbn [snd lastVerifiedBlock sys]. intros n Hn. destruct (decide (n <= cursor)); [|apply P1; [done|lia]].
    eapply passed_mono, Hp; [exact G1|lia].
  - pose proof (firstMismatch_grows (m :: ms) sys1) as G2. destruct (firstMismatch nodes net (m :: ms) sys1) as [[[r ms']|e| |] sys2];
      cbn [snd] in *; [|keep_cursor..].
    pose proof (trigger_grows r sys2) as G3. destruct (triggerStopFlagForFirstMismatch nodes net r sys2) as [[f|e| |] sys3]; cbn [snd] in *;
      keep_cursor.
Qed.

Lemma watchStep_inv fuel lag st : saneHeights -> watchInv st -> watchInv (watchStep nodes net fuel lag st).2.
Proof.
  intros Hs Hi. pose proof (watchOnce_inv fuel lag st Hs Hi) as Hw. unfold watchStep. by destruct (watchOnce _ _ _ _ st) as [[[]|e| |] st'].
Qed.

Lemma watchTicks_inv fuel lag ticks : forall st, saneHeights -> watchInv st -> watchInv (watchTicks nodes net fuel lag ticks st).2.
Proof.
  induction ticks as [|[] ticks IH]; intros st Hs Hi; [done| |done..]. cbn [watchTicks]. pose proof (watchStep_inv fuel lag st Hs Hi) as Hw.
  destruct (watchStep _ _ _ _ st) as [[] st']; try done. by apply IH.
Qed.
End Watch.

(** ** Scanning *)

Section Scan.
Context `{Json} (nodes : list nodeInfo) (net : Network) (to size : Z).
Context (Hnames : NoDup (nName <$> nodes)) (Hsize : 1 <= size) (Hto : to + size < 2 ^ 64) (Hlong : forall k, longBelow nodes (rpcAt net k) to).

Abbreviation numbers acc := (mBlockNumber <$> allMismatches acc).

Lemma scanLoop_complete fuel : forall start acc st, 0 <= start <= to + size -> to - start < size * (Z.of_nat fuel - 1) ->
  exists acc' st', scanLoop nodes net fuel start to size acc st = (Ok acc', st') /\
    (forall n, n ∈ numbers acc -> n ∈ numbers acc') /\
    (forall n, start <= n <= to -> (forall k, disputed nodes (rpcAt net k) n) -> n ∈ numbers acc') /\
    (forall n, n ∈ numbers acc' -> n ∈ numbers acc \/ start <= n <= to).
Proof.
  induction fuel as [|fuel IH]; intros start acc st Hs Hf; [exfalso; nia|]. cbn [scanLoop].
  destruct (Z.leb_spec start to) as [Hle|Hgt]; [|exists acc, st; split_and!; [done|done|lia|by left]].
  assert (E1 : wrap64 (start + size - 1) = start + size - 1) by (unfold wrap64; rewrite Z.mod_small; lia).
  assert (E2 : wrap64 (start + size) = start + size) by (unfold wrap64; rewrite Z.mod_small; lia). rewrite E1, E2.
  set (e := if to <? _ then _ else _). assert (He : start <= e <= to /\ (e = to \/ e = start + size - 1)) by (unfold e; destruct (Z.ltb_spec to (start + size - 1)); lia).
  destruct (batch_returns nodes net Hnames start e st) as (s & st1 & Hb); [lia|lia|lia|intros n i b Hn; apply (Hlong (calls st)); lia|].
  destruct (batch_reported nodes net Hnames start e st s st1 ltac:(lia) ltac:(lia) ltac:(lia) Hb) as [_ Hm].
  unfold mbind at 1, stm_bind at 1. rewrite Hb. set (acc1 := mkScan _ _ _ _).
  assert (Ea : forall n, n ∈ numbers acc1 <-> n ∈ numbers acc \/ n ∈ mBlockNumber <$> mismatches s)
    by (intros n; unfold acc1; cbn [allMismatches]; rewrite fmap_app; apply elem_of_app).
  destruct (IH (start + size) acc1 st1 ltac:(lia) ltac:(lia)) as (acc' & st' & Hr & Hkeep & Hall & Honly). exists acc', st'.
  split_and!; [done|intros n Hn; apply Hkeep, Ea; by left| |].
  - intros n Hn Hd. destruct (decide (n <= e)); [|apply Hall; [lia|done]]. apply Hkeep, Ea. right. apply Hm. split; [lia|].
    destruct (Hd (calls st)) as [H1 H2]. split; [done|by left].
  - intros n [[?|Hn]%Ea|?]%Honly; [by left| |right; lia]. apply Hm in Hn. right. lia.
Qed.
End Scan.

(** With [--batch 0] a scan makes no progress. *)
Theorem zero_batch_endless `{Json} nodes net fuel from to acc st : 1 <= from <= to -> to < 2 ^ 64 ->
  (scanLoop nodes net fuel from to 0 acc st).1 = NoFuel.
Proof.
  intros Hf Ht. revert acc st. induction fuel as [|fuel IH]; intros acc st; [done|]. cbn [scanLoop]. destruct (Z.leb_spec from to); [|lia].
  replace (wrap64 (from + 0 - 1)) with (from - 1) by (unfold wrap64; rewrite Z.mod_small; lia). destruct (Z.ltb_spec to (from - 1)); [lia|].
  replace (wrap64 (from + 0)) with from by (unfold wrap64; rewrite Z.mod_small; lia).
  unfold mbind at 1, stm_bind at 1, batch, checkBatch, fetchAll. replace (from - 1 - from + 1) with 0 by lia. apply IH.
Qed.

(** A scan ends, and reports every block of its range that is
    disputed whenever it is asked for, and no block outside of the range: for a batch
    size of at least one, hashes long enough to be shown, and a range that ends a batch
    below the largest number. *)
Theorem scan_complete `{Json} nodes net fuel from to size st :
  NoDup (nName <$> nodes) -> 1 <= size -> to + size < 2 ^ 64 -> 0 <= from <= to ->
  (forall k, longBelow nodes (rpcAt net k) to) -> to - from < size * (Z.of_nat fuel - 1) ->
  exists acc st', scanLoop nodes net fuel from to size (mkScan [] 0 0 0) st = (Ok acc, st') /\
    (forall n, from <= n <= to -> (forall k, disputed nodes (rpcAt net k) n) -> n ∈ mBlockNumber <$> allMismatches acc) /\
    (forall n, n ∈ mBlockNumber <$> allMismatches acc -> from <= n <= to).
Proof.
  intros Hnd Hs Ht Hr Hl Hf. destruct (scanLoop_complete nodes net to size Hnd Hs Ht Hl fuel from (mkScan [] 0 0 0) st) as (acc & st' & He & _ & Ha & Ho);
    [lia|done|]. exists acc, st'. split_and!; [done..|]. intros n Hn. by destruct (Ho n Hn) as [?%elem_of_nil|].
Qed.

(** When the nodes answer the same during the search and every
    block from the first disputed one up to the reported one is disputed, the search
    returns the first disputed block, and puts its mismatch in front of the report;
    it ends within 65 steps. *)
Theorem first_mismatch_found `{Json} nodes net w m ms st :
  NoDup (nName <$> nodes) -> (forall k, rpcAt net k = w) -> 1 <= mBlockNumber m < 2 ^ 64 -> longBelow nodes w (mBlockNumber m) ->
  (forall n n', 1 <= n <= n' -> n' < mBlockNumber m -> disputed nodes w n -> disputed nodes w n') ->
  exists r ms' st', firstMismatch nodes net (m :: ms) st = (Ok (r, ms'), st') /\
    1 <= r <= mBlockNumber m /\ (forall n, 1 <= n < r -> ~ disputed nodes w n) /\ (r < mBlockNumber m -> disputed nodes w r) /\
    mBlockNumber <$> head ms' = Some r.
Proof.
  intros Hnd Hst Hm Hlong Hfrom. set (first := mBlockNumber m) in *.
  assert (Ef : wrap64 (first - 1) = first - 1) by (unfold wrap64; rewrite Z.mod_small; lia).
  destruct (bisect_finds nodes net Hnd w first Hst Hm Hlong Hfrom bisectFuel 1 (first - 1) first st) as (r & st1 & Hb & Hr & Hbelow & Hd);
    [lia|lia|lia|unfold bisectFuel; lia|intros n ?; lia|intros ?; lia|].
  unfold firstMismatch. fold first. rewrite Ef. unfold mbind, stm_bind. rewrite Hb. destruct (Z.ltb_spec r first) as [Hlt|Hge].
  - destruct (single_batch nodes net Hnd r st1) as (s & st2 & Hs & _ & Hms & Hall); [lia| |].
    { rewrite Hst. intros n i b Hn. apply Hlong. lia. }
    rewrite Hst in Hms. specialize (Hd Hlt). pose proof (proj2 Hms Hd) as Hhas. cbv beta. rewrite Hs.
    exists r, (mismatches s ++ m :: ms), st2. split_and!; [done|lia|lia|done|done|].
    unfold hasMismatch in Hhas. destruct (mismatches s) as [|m0 l]; [done|]. cbn. f_equal. apply Hall. cbn. left.
  - exists r, (m :: ms), st1. split_and!; [done|lia|lia|done|done|]. cbn. fold first. f_equal. lia.
Qed.

(** The cursor of the watch, whatever the nodes answer and
    whichever ticks arrive: every block up to [lastVerifiedBlock] was in a batch of an
    earlier request in which it was not reported, provided that no node claims a
    height within 20 of the largest 64-bit number. *)
Theorem watch_cursor `{Json} nodes net fuel lag g ticks n :
  NoDup (nName <$> nodes) -> saneHeights net -> let st := (runWatch nodes net fuel lag g ticks).2 in
  1 <= n <= lastVerifiedBlock st ->
  exists k from, (k < calls (sys st))%nat /\ from <= n /\ ~ reported nodes (rpcAt net k) from n.
Proof.
  intros Hnd Hs. cbv zeta. assert (Hi : watchInv nodes net (runWatch nodes net fuel lag g ticks).2).
  { unfold runWatch. assert (H0 : watchInv nodes net (newWatch g)) by (split; [cbn; lia|cbn; lia]).
    pose proof (watchStep_inv nodes net Hnd fuel lag _ Hs H0) as H1. destruct (watchStep _ _ _ _ _) as [[] st]; try done. by apply watchTicks_inv. }
  destruct Hi as [_ Hp]. apply Hp.
Qed.

(** C21 (liveness). A difference that lasts is found.  Without [--no-stop-flag], with
    distinct node names: when at least two nodes answer the request for their height and
    none claims a height near the end of the 64-bit numbers, and a block above the cursor
    and up to the highest claimed height is disputed (two nodes have it and differ in a
    compared field or transaction) at every request, then the check asks the caller to
    stop and the program exits with code 1, with the cursor still below the block.  The
    hashes of the blocks have the 18 characters that are shown of them, and the loop is
    given a step per 20 blocks.  (With the option, whose text says that the program does not
    stop, it stops too: [no_stop_flag_still_exits].) *)
Theorem watch_detects `{Json} nodes net fuel lag st n :
  noStopFlag (glob (sys st)) = false ->
  NoDup (nName <$> nodes) -> saneHeights net -> 0 <= lastVerifiedBlock st < 2 ^ 64 - 20 ->
  let hs := heights nodes net (Z.to_nat (totalChecks st)) in
  (2 <= length (filter (fun h => isUpHeight h = true) hs))%nat -> minBlock hs <> maxUint64 ->
  rewind (lastVerifiedBlock st) (minBlock hs) < n <= maxBlock hs ->
  (forall k, longBelow nodes (rpcAt net k) (maxBlock hs)) -> (forall k, disputed nodes (rpcAt net k) n) ->
  maxBlock hs < 20 * (Z.of_nat fuel - 1) ->
  exists st', watchOnce nodes net fuel lag st = (Ok true, st') /\ watchStep nodes net fuel lag st = (Exited 1, st') /\
    lastVerifiedBlock st' < n.
Proof.
  intros _ Hnd Hs Hc hs Hup Hmin Hn Hl Hd Hf. destruct (check_bounds nodes net Hnd _ Hs Hmin) as [Hm Hx]. fold hs in Hm, Hx.
  unfold watchStep, watchOnce. fold hs. cbv zeta. destruct (Z.eqb_spec (minBlock hs) maxUint64); [done|].
  destruct (Nat.ltb_spec (length (filter (fun h => isUpHeight h = true) hs)) 2); [lia|].
  pose proof (rewind_le (lastVerifiedBlock st) (minBlock hs) ltac:(lia) ltac:(lia)) as Hr. set (cursor := rewind _ _) in *.
  rewrite (firstToCheck_next cursor) by lia. destruct (Z.ltb_spec (maxBlock hs) (cursor + 1)); [lia|]. set (sys0 := mkSys _ _).
  destruct (watchLoop_returns nodes net Hnd fuel (cursor + 1) (maxBlock hs) sys0) as (ms & sys1 & -> & Hnone & Hfirst); [lia|lia|done|lia|].
  destruct ms as [|m ms]; [destruct (Hnone eq_refl n ltac:(lia)) as [k Hk]; by destruct (Hk (Hd k))|].
  specialize (Hfirst m ms eq_refl).
  destruct (firstMismatch_returns nodes net Hnd m ms sys1) as (r & ms' & sys2 & ->); [lia|intros k j i b Hj; apply (Hl k); lia|].
  destruct (trigger_returns nodes net r sys2) as (f & sys3 & ->). eexists. do 2 (split; [reflexivity|]). cbn. lia.
Qed.

(** ** Runs on the sample network *)

Definition steadyNet (latest : string) (table : list (list string)) : Network :=
  mkNetwork (fun _ => tableRpc latest table) (fun _ _ => inr latest) (fun _ m => map_to_list m).

Definition isDisputed (w : Rpc) (n : Z) : bool :=
  (2 <=? length (holders sampleNodes w n))%nat &&
  (0 <? length (fieldMismatches (validBlocks sampleNodes (rBlocks (fetchBlock sampleNodes w n)))))%nat.

Lemma sampleNodes_distinct : NoDup (nName <$> sampleNodes).
Proof. apply (bool_decide_unpack _). vm_compute. exact I. Qed.

Lemma isDisputed_spec w n : isDisputed w n = true <-> disputed sampleNodes w n.
Proof.
  unfold isDisputed, disputed. rewrite andb_true_iff, Nat.leb_le. by rewrite (not_fields sampleNodes w sampleNodes_distinct).
Qed.

Lemma long_table latest table highest : longAnswers sampleNodes (tableRpc latest table) 0 highest = true ->
  longBelow sampleNodes (tableRpc latest table) highest.
Proof. intros Hl n i b Hn. by apply (longAnswers_ok sampleNodes _ 0 highest Hl). Qed.

Lemma first_mismatch_found_witness : exists r ms' st',
  firstMismatch sampleNodes (steadyNet "0x3" sampleTable) [mkMismatch 3 ∅] (mkSys 0 noGlobals) = (Ok (r, ms'), st') /\
  1 <= r <= 3 /\ (forall n, 1 <= n < r -> ~ disputed sampleNodes sampleRpc n) /\ (r < 3 -> disputed sampleNodes sampleRpc r) /\
  mBlockNumber <$> head ms' = Some r.
Proof.
  apply (first_mismatch_found sampleNodes (steadyNet "0x3" sampleTable) sampleRpc (mkMismatch 3 ∅) [] (mkSys 0 noGlobals)).
  - exact sampleNodes_distinct.
  - reflexivity.
  - cbn [mBlockNumber]. lia.
  - apply long_table. vm_compute. reflexivity.
  - cbn [mBlockNumber]. intros n n' Hn Hn' Hd. assert (E : n' = 1 \/ n' = 2) by lia. destruct E as [->| ->].
    + replace n with 1 in Hd by lia. exact Hd.
    + apply isDisputed_spec. vm_compute. reflexivity.
Defined.

Lemma scan_complete_witness : exists acc st',
  scanLoop sampleNodes (steadyNet "0x3" sampleTable) 3 1 3 2 (mkScan [] 0 0 0) (mkSys 0 noGlobals) = (Ok acc, st') /\
  2 ∈ mBlockNumber <$> allMismatches acc.
Proof.
  destruct (scan_complete sampleNodes (steadyNet "0x3" sampleTable) 3 1 3 2 (mkSys 0 noGlobals)) as (acc & st' & He & Ha & _).
  - exact sampleNodes_distinct.
  - lia.
  - lia.
  - lia.
  - intros k. apply (long_table "0x3" sampleTable). vm_compute. reflexivity.
  - lia.
  - exists acc, st'. split; [exact He|]. apply Ha; [lia|]. intros k. apply (isDisputed_spec (tableRpc "0x3" sampleTable)). vm_compute. reflexivity.
Defined.

Lemma steady_sane latest table : (parseHexStr latest <? 2 ^ 64 - 20) = true -> saneHeights (steadyNet latest table).
Proof.
  intros Hl k i num. unfold getLatestBlockNumber, steadyNet, decodeRpc. cbn [heightsAt unmarshalRpcResponse toyJson rpcErrorOf rpcResult unmarshalString].
  destruct (contains "error" latest); [done|]. intros [= <-]. by apply Z.ltb_lt.
Qed.

(** Two checks of blocks on which all agree. *)
Definition agreedTable : list (list string) := replicate 3 (default [] (head sampleTable)).
Definition agreedRun : WatchEnd * Watch :=
  runWatch sampleNodes (steadyNet "0x3" agreedTable) 5 1000 noGlobals [TickAlive].

Lemma watch_cursor_witness : lastVerifiedBlock agreedRun.2 = 3 /\
  exists k from, (k < calls (sys agreedRun.2))%nat /\ from <= 3 /\ ~ reported sampleNodes (rpcAt (steadyNet "0x3" agreedTable) k) from 3.
Proof.
  split; [vm_compute; reflexivity|].
  apply (watch_cursor sampleNodes (steadyNet "0x3" agreedTable) 5 1000 noGlobals [TickAlive] 3).
  - exact sampleNodes_distinct.
  - by apply steady_sane.
  - replace (lastVerifiedBlock _) with 3 by (vm_compute; reflexivity). lia.
Defined.

Lemma watch_detects_witness : exists st',
  watchOnce sampleNodes (steadyNet "0x3" sampleTable) 3 1000 (newWatch noGlobals) = (Ok true, st') /\
  watchStep sampleNodes (steadyNet "0x3" sampleTable) 3 1000 (newWatch noGlobals) = (Exited 1, st') /\ lastVerifiedBlock st' < 2.
Proof.
  apply (watch_detects sampleNodes (steadyNet "0x3" sampleTable) 3 1000 (newWatch noGlobals) 2).
  - reflexivity.
  - exact sampleNodes_distinct.
  - by apply steady_sane.
  - cbn [lastVerifiedBlock newWatch]. lia.
  - apply (bool_decide_unpack _). vm_compute. exact I.
  - apply (bool_decide_unpack _). vm_compute. exact I.
  - apply (bool_decide_unpack _). vm_compute. exact I.
  - intros k. apply (long_table "0x3" sampleTable). vm_compute. reflexivity.
  - intros k. apply (isDisputed_spec (tableRpc "0x3" sampleTable)). vm_compute. reflexivity.
  - apply (bool_decide_unpack _). vm_compute. exact I.
Defined.

(** ** What a watch does not see *)

Lemma fetchNode_missing ask latest n : (forall k, ask k = inr (errorBlock missingBlock)) -> fetchNode ask latest n = inr (errorBlock missingBlock).
Proof.
  intros Ha. unfold fetchNode. rewrite (Ha 0%nat).
  destruct (isMissing (inr (errorBlock missingBlock)) && _); [|done].
  assert (Hr : forall m k, retryWhile m fetched ask k (inr (errorBlock missingBlock)) = (inr (errorBlock missingBlock), (k + m)%nat)).
  { intros m. induction m as [|m IH]; intros k; cbn [retryWhile]; [by rewrite Nat.add_0_r|]. rewrite Ha. cbn [fetched].
    change (negb (IsError (errorBlock missingBlock))) with false.
    cbv iota. rewrite IH. f_equal. lia. }
  rewrite Hr. done.
Qed.

(** Two nodes with different blocks 0, and nothing after it. *)
Definition genesisRpc : Rpc :=
  mkRpcWorld (fun i n _ => (inr (if n =? 0 then blockText (if (i =? 0)%nat then h1 else h2) h1 "r" "0x1" "0x1" else "null"%string), inr "null"%string))
    (fun _ _ => inr "0x0"%string).
Definition genesisNet : Network := mkNetwork (fun _ => genesisRpc) (fun _ _ => inr "0x0"%string) (fun _ m => map_to_list m).

Lemma genesis_alone n i : 1 <= n -> nodeAnswer genesisRpc n i = inr (errorBlock missingBlock).
Proof.
  intros Hn. apply fetchNode_missing. intros k. cbn [askBlock genesisRpc fst snd]. destruct (Z.eqb_spec n 0); [lia|]. reflexivity.
Qed.

(** A scan from block 0 that finds a difference in block 0 does not end: the search
    starts with the interval from 1 to 2^64 - 1, and its lower bound wraps around
    when the interval is used up. *)
Theorem genesis_search_endless :
  disputed sampleNodes genesisRpc 0 /\
  forall fuel st, (bisect sampleNodes genesisNet fuel 1 (wrap64 (0 - 1)) 0 st).1 = NoFuel.
Proof.
  split; [apply isDisputed_spec; vm_compute; reflexivity|]. intros fuel st.
  apply (bisect_endless sampleNodes genesisNet sampleNodes_distinct); [lia| |].
  - intros k n i b Hn (_ & Hb & He). destruct (decide (n = 0)) as [->|Hne]; [|cbn [rpcAt genesisNet] in Hb; rewrite genesis_alone in Hb by lia; by simplify_eq].
    revert Hb. cbn [rpcAt genesisNet]. destruct i as [|i]; intros Hb; vm_compute in Hb; simplify_eq; vm_compute; lia.
  - intros k n Hn [Hh _]. assert (E : holders sampleNodes (rpcAt genesisNet k) n = []); [|cbn [rpcAt genesisNet] in *; rewrite E in Hh; cbn in Hh; lia].
    unfold holders. cbn [rpcAt genesisNet]. induction (seq 0 (length sampleNodes)) as [|i l IH]; [done|]. rewrite filter_cons.
    rewrite genesis_alone by lia. rewrite decide_False; [done|]. done.
Qed.

(** The chain of both nodes grows by a block per check; the third block does not
    follow the second, and its epoch index goes back. *)
Definition brokenRow : list string :=
  [blockText h1 h1 "r1" "0x64" "0x5"; blockText h2 h1 "r2" "0x65" "0x6"; blockText h3 h1 "r3" "0x66" "0x2"].
Definition growingNet : Network :=
  mkNetwork (fun _ => tableRpc "0x3" [brokenRow; brokenRow; brokenRow])
    (fun k _ => inr (match k with O => "0x1" | 1%nat => "0x2" | _ => "0x3" end%string)) (fun _ m => map_to_list m).

(** A watch that keeps up with the chain compares the nodes but not the blocks with
    each other: each of its batches has one block, so that the broken link and the
    regression of the execution index, both of which a scan of the three blocks
    reports, pass unnoticed. *)
Theorem watch_misses_breaks :
  let '(e, st) := runWatch sampleNodes growingNet 5 1000 noGlobals [TickAlive; TickAlive] in
  e = Watching /\ lastVerifiedBlock st = 3 /\ log (glob (sys st)) = [] /\
  exists s, checkBatch sampleNodes (rpcAt growingNet 0) 1 3 noGlobals = Ok s /\ (mBlockNumber <$> mismatches s) = [3].
Proof. vm_compute. split_and!; [reflexivity..|]. eexists. split; reflexivity. Qed.

(** Block 2 is first answered by one node only, and is disputed from then on. *)
Definition lateTable : list (list string) := take 2 <$> sampleTable.
Definition lateNet : Network :=
  mkNetwork (fun k => match k with
                      | O => mkRpcWorld (fun i n a => if (n =? 2) && (0 <? i)%nat then (inl "connection refused"%string, inr "null"%string)
                                          else askBlock (tableRpc "0x2" lateTable) i n a) (fun _ _ => inr "0x2"%string)
                      | _ => tableRpc "0x2" lateTable
                      end)
    (fun _ _ => inr "0x2"%string) (fun _ m => map_to_list m).

Definition lateRun : WatchEnd * Watch := runWatch sampleNodes lateNet 5 1000 noGlobals [TickAlive; TickAlive].

(** A block that too few nodes answered for is passed all the same, and is not asked
    for again. *)
Theorem watch_passes_skipped :
  lateRun.1 = Watching /\ lastVerifiedBlock lateRun.2 = 2 /\ disputed sampleNodes (rpcAt lateNet 1) 2.
Proof.
  split; [vm_compute; reflexivity|]. split; [vm_compute; reflexivity|].
  apply (isDisputed_spec (tableRpc "0x2" lateTable)). vm_compute. reflexivity.
Qed.

(** The third node has the third block with another transaction. *)
Definition orderTable : list (list string) :=
  let row t := [blockText h1 h1 "r1" "0x64" "0x1"; blockText h2 h1 "r2" "0x65" "0x2"; (h3 +:+ ";" +:+ h2 +:+ ";r3;0x66;0x3;0x1;" +:+ t)%string] in
  [row "0xt1"%string; row "0xt1"%string; row "0xt2"%string].

(** A difference in the transactions alone ends the watch, but does not raise the
    stop flag: the flag looks at the header fields only. *)
Theorem order_mismatch_raises_no_flag :
  let '(e, st) := runWatch sampleNodes (steadyNet "0x3" orderTable) 5 1000 noGlobals [] in
  e = Exited 1 /\ totalMismatches st = 1 /\ log (glob (sys st)) = [].
Proof. vm_compute. split_and!; reflexivity. Qed.

(** With [--no-stop-flag] the program still exits at the first difference. *)
Theorem no_stop_flag_still_exits :
  (runWatch sampleNodes (steadyNet "0x3" sampleTable) 5 1000 (mkGlobals ∅ true []) []).1 = Exited 1.
Proof. vm_compute. reflexivity. Qed.

(** The search misses an early dispute with agreed blocks after it. *)
Definition islandTable : list (list string) :=
  let row h h' := [blockText h h1 "r1" "0x64" "0x1"; blockText h2 h1 "r2" "0x65" "0x2"; blockText h3 h2 "r3" "0x66" "0x3";
                   blockText h1 h3 "r4" "0x67" "0x4"; blockText h' h1 "r5" "0x68" "0x5"] in
  [row h2 h2; row h2 h2; row h2' h2'].

Theorem search_misses_island :
  disputed sampleNodes (tableRpc "0x5" islandTable) 1 /\
  exists sc st, scan sampleNodes (steadyNet "0x5" islandTable) 5 5 5 20 (mkSys 0 noGlobals) = (Ok (sc, Some (5, true)), st).
Proof. split; [apply isDisputed_spec; vm_compute; reflexivity|]. do 2 eexists. vm_compute. reflexivity. Qed.
