(* ===== verification/Compiler.v ===== *)
(** * The compiler front end

    Models [pkg/complier/complier.go]: from the metadata of a contract and its sources to
    an input for the Solidity compiler, and from the compiler's output to the bytecode.

    The programs that are run (node, npx, solc), the IPFS gateways and the JSON codec are
    arguments.  The package of the data types ([gen_bytecode]) is not in the repository:
    the records here have the fields that the code uses.  A Go map is iterated in an
    order that is an argument. *)

From Stdlib Require Import Ascii.
From S2P Require Import Prelude GoStrings BlockChecker.

Local Open Scope Z_scope.

(** ** Strings *)

Fixpoint dropPrefix (p s : string) : option string :=
  match p, s with
  | EmptyString, _ => Some s
  | String a p', String b s' => if bool_decide (a = b) then dropPrefix p' s' else None
  | _, EmptyString => None
  end.

Definition hasPrefix (p s : string) : bool := bool_decide (is_Some (dropPrefix p s)).
Definition trimPrefix (p s : string) : string := default s (dropPrefix p s).

Fixpoint hasSuffix (suffix s : string) : bool :=
  bool_decide (s = suffix) || match s with EmptyString => false | String _ s' => hasSuffix suffix s' end.

(** The longest prefix of characters that satisfy [f], and the rest. *)
Fixpoint span (f : ascii -> bool) (s : string) : string * string :=
  match s with
  | EmptyString => (EmptyString, EmptyString)
  | String a s' => if f a then let '(u, v) := span f s' in (String a u, v) else (EmptyString, s)
  end.

Definition isDigit (a : ascii) : bool := bool_decide (is_Some (decDigit a)).

(** [fmt.Sscanf(s, "%d", &p)] of a variable that is 0: what does not scan leaves it. *)
Definition scanDec (s : string) : Z :=
  let value (neg : bool) (t : string) :=
    let '(ds, _) := span isDigit t in
    match ds with
    | EmptyString => 0
    | _ => let z := (if neg then - default 0 (decValue 0 ds) else default 0 (decValue 0 ds)) in
           if (- 2 ^ 63 <=? z) && (z <? 2 ^ 63) then z else 0
    end in
  match skipBlanks s with
  | String "-" t => value true t
  | String "+" t => value false t
  | t => value false t
  end.

(** ** Versions *)

(** Everything before the first plus sign. *)
Definition parseVersionFromConfig (versionStr : string) : string :=
  match splitOn "+" versionStr with p :: _ => p | [] => versionStr end.

Definition partAt (parts : list string) (i : nat) : Z := from_option scanDec 0 (parts !! i).

Fixpoint compareFrom (n i : nat) (parts1 parts2 : list string) : Z :=
  match n with
  | O => 0
  | S n =>
      let p1 := partAt parts1 i in
      let p2 := partAt parts2 i in
      if p2 <? p1 then 1 else if p1 <? p2 then -1 else compareFrom n (S i) parts1 parts2
  end.

Definition compareVersion (v1 v2 : string) : Z :=
  let parts1 := splitOn "." v1 in
  let parts2 := splitOn "." v2 in
  let maxLen := if (length parts1 <? length parts2)%nat then length parts2 else length parts1 in
  compareFrom maxLen 0 parts1 parts2.

(** ** Pragmas *)

(** [\s] *)
Definition isReSpace (a : ascii) : bool := let n := nat_of_ascii a in bool_decide (n ∈ [9; 10; 12; 13; 32]%nat).

(** [\d+\.\d+\.\d+] at the start of the string. *)
Definition matchVersion (s : string) : option string :=
  let number t := let '(d, r) := span isDigit t in match d with EmptyString => None | _ => Some (d, r) end in
  let dot t := match t with String "." r => Some r | _ => None end in
  '(a, s) ← number s;
  s ← dot s;
  '(b, s) ← number s;
  s ← dot s;
  '(c, _) ← number s;
  Some (a +:+ "." +:+ b +:+ "." +:+ c)%string.

(** The first place where [pre] is followed by a version. *)
Fixpoint findVersion (pre s : string) : option string :=
  match dropPrefix pre s ≫= matchVersion with
  | Some v => Some v
  | None => match s with EmptyString => None | String _ s' => findVersion pre s' end
  end.

(** [pragma\s+solidity\s+([^;]+);] at the start of the string: the text that matches, what
    stands between [solidity] and the semicolon, and the rest. *)
Definition matchPragma (s : string) : option (string * string * string) :=
  s1 ← dropPrefix "pragma" s;
  let '(sp, s2) := span isReSpace s1 in
  s3 ← dropPrefix "solidity" s2;
  '(w, rest) ← cutAt ";" s3;
  match sp, w with
  | String _ _, String a (String _ _) =>
      if isReSpace a then Some ("pragma" +:+ sp +:+ "solidity" +:+ w +:+ ";", w, rest)%string else None
  | _, _ => None
  end.

(** The replacement of one match. *)
Definition adjustMatch (targetVersion m w : string) : string :=
  let adjustedPragma := ("pragma solidity ^" +:+ targetVersion +:+ ";")%string in
  let versionStr := TrimSpace w in
  if hasPrefix "^" versionStr then
    let versionNum := TrimSpace (trimPrefix "^" versionStr) in
    if 0 <? compareVersion versionNum targetVersion then adjustedPragma else m
  else if contains ">=" versionStr then
    match findVersion ">=" versionStr with
    | Some versionNum => if 0 <? compareVersion versionNum targetVersion then adjustedPragma else m
    | None => m
    end
  else m.

(** [ReplaceAllStringFunc]: matches from left to right that do not overlap. *)
Fixpoint adjustFrom (fuel : nat) (targetVersion s : string) : string :=
  match fuel, s with
  | S fuel, String a s' =>
      match matchPragma s with
      | Some (m, w, rest) => (adjustMatch targetVersion m w +:+ adjustFrom fuel targetVersion rest)%string
      | None => String a (adjustFrom fuel targetVersion s')
      end
  | _, _ => s
  end.

Definition adjustPragmaVersion (content targetVersion : string) : string :=
  adjustFrom (String.length content) targetVersion content.

(** ** Downloads *)

Definition gateways : list string := ["https://ipfs.io/ipfs/"; "https://gateway.pinata.cloud/ipfs/"]%string.
Definition ipfsPrefix : string := "dweb:/ipfs/".

(** What a gateway answers: an error, or a status and what reading the body gives. *)
Fixpoint tryGateways (get : string -> option (Z * outcome string)) (cid : string) (gws : list string) : outcome string :=
  match gws with
  | [] => Err (ErrText "all gateways failed")
  | gw :: gws =>
      match get (gw +:+ cid)%string with
      | Some (status, body) => if status =? 200 then body else tryGateways get cid gws
      | None => tryGateways get cid gws
      end
  end.

(** The URL has the prefix, so that its first occurrence is at the start. *)
Definition downloadFromIPFS (get : string -> option (Z * outcome string)) (ipfsURL : string) : outcome string :=
  tryGateways get (trimPrefix ipfsPrefix ipfsURL) gateways.

(** ** Running the compiler *)

(** [output[jsonStart:]] from the first brace. *)
Fixpoint fromBrace (s : string) : option string :=
  match s with
  | EmptyString => None
  | String a s' => if bool_decide (a = "{"%char) then Some s else fromBrace s'
  end.

Definition compileWithSolcJS (npx : string -> string -> outcome string) (inputJSON version : string) : outcome string :=
  output ← npx version inputJSON;
  match fromBrace output with Some json => Ok json | None => Err (ErrText "no JSON found in output") end.

Definition getSolcVersion (versionOutput : outcome string) : outcome string :=
  output ← versionOutput;
  match findVersion "Version: " output with Some v => Ok v | None => Err (ErrText "cannot parse version from output") end.

(** ** The front end *)

Record Settings := mkSettings {
  CompilationTarget : gmap string string;
  OutputSelection : gmap string (gmap string (list string));
  otherSettings : string
}.

Record ConfigFile := mkConfigFile {
  compilerVersion : string;
  Language : string;
  cSources : gmap string (list string);      (* the URLs of each source *)
  cSettings : Settings
}.

Record SolcInput := mkSolcInput { siLanguage : string; siSources : gmap string string; siSettings : Settings }.

Record SolcError := mkSolcError { Severity : string; eMessage : string }.

(** The contracts by file and name: creation and deployed bytecode. *)
Record SolcOutput := mkSolcOutput { Errors : list SolcError; Contracts : gmap string (gmap string (string * string)) }.

Record CompiledBytecodes := mkCompiled { CreationBytecode : string; DeployedBytecode : string }.

(** The world outside: whether [node] and [npx] run, what they and [./solc] print, and the
    gateways. *)
Record Tools := mkTools {
  checkNodeJS : bool;
  npxSolc : string -> string -> outcome string;
  solcVersionOutput : outcome string;
  solcRun : string -> outcome string;
  httpGet : string -> option (Z * outcome string)
}.

Section FrontEnd.
Context (unmarshalConfig : string -> option ConfigFile) (unmarshalSources : string -> option (gmap string string))
        (marshalInput : SolcInput -> option string) (unmarshalOutput : string -> option SolcOutput).

(** Orders of iteration: of the compilation targets, of the source files when a similar
    name is looked for and when the first one is taken, and of the sources of the
    metadata. *)
Record Orders := mkOrders {
  targetOrder : gmap string string -> list (string * string);
  searchOrder : gmap string string -> list (string * string);
  firstOrder : gmap string string -> list (string * string);
  metaOrder : gmap string (list string) -> list (string * list string)
}.

Definition similarFile (mainFileName filePath : string) : bool :=
  bool_decide (List.last (splitOn "/" filePath) "" = mainFileName)%string || hasSuffix mainFileName filePath.

(** The main file when the target is not among the sources: a similar one is looked for;
    the test after it takes the first file when one was found. *)
Definition mainFileOf (o : Orders) (sourceCodeMap : gmap string string) (mainFileName : string) : string :=
  match sourceCodeMap !! mainFileName with
  | Some _ => mainFileName
  | None =>
      let found := list_find (fun e : string * string => similarFile mainFileName e.1 = true) (searchOrder o sourceCodeMap) in
      let main := from_option (fun e => e.2.1) mainFileName found in
      match sourceCodeMap !! main with
      | Some _ => match firstOrder o sourceCodeMap with e :: _ => e.1 | [] => main end
      | None => main
      end
  end.

Definition adjusted (solcVersion content : string) : string :=
  if bool_decide (solcVersion = ""%string) then content else adjustPragmaVersion content solcVersion.

(** The sources of the metadata that are not there yet. *)
Definition addSource (t : Tools) (solcVersion : string) (sources : gmap string string) (e : string * list string) : gmap string string :=
  match sources !! e.1 with
  | Some _ => sources
  | None =>
      match list_find (fun url => hasPrefix ipfsPrefix url = true) e.2 with
      | None => sources
      | Some (_, ipfsURL) =>
          match downloadFromIPFS (httpGet t) ipfsURL with
          | Ok content => <[e.1 := adjusted solcVersion content]> sources
          | _ => sources
          end
      end
  end.

Definition solcVersionOf (t : Tools) (configVersion : string) : string :=
  if checkNodeJS t then configVersion else match getSolcVersion (solcVersionOutput t) with Ok v => v | _ => ""%string end.

(** The input for a file and a contract. *)
Definition inputOf (t : Tools) (o : Orders) (config : ConfigFile) (sourceCodeMap : gmap string string) (mainFile mainContract : string) : SolcInput :=
  let solcVersion := solcVersionOf t (parseVersionFromConfig (compilerVersion config)) in
  let sources := foldl (addSource t solcVersion) (adjusted solcVersion <$> sourceCodeMap) (metaOrder o (cSources config)) in
  mkSolcInput (Language config) sources
    (mkSettings ∅ {[mainFile := {[mainContract := ["evm.bytecode.object"; "evm.deployedBytecode.object"]%string]}]}
       (otherSettings (cSettings config))).

(** What is taken from the output. *)
Definition bytecodeOf (output : SolcOutput) (mainFile mainContract : string) : outcome CompiledBytecodes :=
  if existsb (fun e => bool_decide (Severity e = "error"%string)) (Errors output) then Err (ErrText "compilation error: see logs for details")
  else
    match Contracts output !! mainFile ≫= lookup mainContract with
    | Some (creation, deployed) =>
        if bool_decide (creation = ""%string) then Err (ErrText "creation bytecode is empty")
        else Ok (mkCompiled creation (if bool_decide (deployed = ""%string) then creation else deployed))
    | None => Err (ErrText "contract not found in output")
    end.

Definition CompileBytecodeFromMetadata (t : Tools) (o : Orders) (metadataJSON sourceCodeJSON : string) : outcome CompiledBytecodes :=
  match unmarshalConfig metadataJSON with
  | None => Err (ErrText "failed to parse metadata")
  | Some config =>
      match unmarshalSources sourceCodeJSON with
      | None => Err (ErrText "failed to parse source code")
      | Some sourceCodeMap =>
          match targetOrder o (CompilationTarget (cSettings config)) with
          | [] => Err (ErrText "compilationTarget not found in metadata")
          | (targetFile, mainContract) :: _ =>
              let mainFile := mainFileOf o sourceCodeMap targetFile in
              match marshalInput (inputOf t o config sourceCodeMap mainFile mainContract) with
              | None => Err (ErrText "failed to marshal input")
              | Some inputJSON =>
                  outputBytes ← (if checkNodeJS t
                                 then compileWithSolcJS (npxSolc t) inputJSON (parseVersionFromConfig (compilerVersion config))
                                 else solcRun t inputJSON);
                  match unmarshalOutput outputBytes with
                  | None => Err (ErrText "failed to parse solc output")
                  | Some output => bytecodeOf output mainFile mainContract
                  end
              end
          end
      end
  end.
End FrontEnd.

(** ** Versions are ordered *)

Lemma compareFrom_opp n i a b : compareFrom n i b a = - compareFrom n i a b.
Proof.
  revert i. induction n as [|n IH]; intros i; cbn [compareFrom]; [done|].
  destruct (Z.ltb_spec (partAt a i) (partAt b i)), (Z.ltb_spec (partAt b i) (partAt a i)); [lia|done|done|apply IH].
Qed.

Lemma partAt_over parts i : (length parts <= i)%nat -> partAt parts i = 0.
Proof. intros Hi. unfold partAt. by rewrite lookup_ge_None_2. Qed.

Lemma compareFrom_over n i a b : (length a <= i)%nat -> (length b <= i)%nat -> compareFrom n i a b = 0.
Proof.
  revert i. induction n as [|n IH]; intros i Ha Hb; cbn [compareFrom]; [done|].
  rewrite !partAt_over by lia. rewrite Z.ltb_irrefl. apply IH; lia.
Qed.

(** Parts beyond the end count as 0, so that any larger bound gives the same. *)
Lemma compareFrom_more n m i a b : (length a <= i + n)%nat -> (length b <= i + n)%nat -> (n <= m)%nat ->
  compareFrom m i a b = compareFrom n i a b.
Proof.
  revert n i. induction m as [|m IH]; intros n i Ha Hb Hm; [by replace n with 0%nat by lia|].
  destruct n as [|n]; [apply compareFrom_over; lia|]. cbn [compareFrom].
  destruct (_ <? _); [done|]. destruct (_ <? _); [done|]. apply IH; lia.
Qed.

Lemma compareVersion_bound m v1 v2 : (length (splitOn "." v1) <= m)%nat -> (length (splitOn "." v2) <= m)%nat ->
  compareVersion v1 v2 = compareFrom m 0 (splitOn "." v1) (splitOn "." v2).
Proof.
  intros H1 H2. unfold compareVersion. cbv zeta. symmetry.
  destruct (Nat.ltb_spec (length (splitOn "." v1)) (length (splitOn "." v2))); apply compareFrom_more; lia.
Qed.

Lemma compareFrom_trans n i a b c : compareFrom n i a b <= 0 -> compareFrom n i b c <= 0 -> compareFrom n i a c <= 0.
Proof.
  revert i. induction n as [|n IH]; intros i; cbn [compareFrom]; [done|].
  destruct (Z.ltb_spec (partAt b i) (partAt a i)), (Z.ltb_spec (partAt a i) (partAt b i)),
    (Z.ltb_spec (partAt c i) (partAt b i)), (Z.ltb_spec (partAt b i) (partAt c i)),
    (Z.ltb_spec (partAt c i) (partAt a i)), (Z.ltb_spec (partAt a i) (partAt c i)); try lia; try done. apply IH.
Qed.

Lemma compareFrom_eq n i a b : compareFrom n i a b = 0 <-> forall j, (i <= j < i + n)%nat -> partAt a j = partAt b j.
Proof.
  revert i. induction n as [|n IH]; intros i; cbn [compareFrom]; [split; [intros _ j; lia|done]|].
  destruct (Z.ltb_spec (partAt b i) (partAt a i)), (Z.ltb_spec (partAt a i) (partAt b i)); try lia.
  - split; [done|]. intros Ha. specialize (Ha i). lia.
  - split; [done|]. intros Ha. specialize (Ha i). lia.
  - rewrite IH. split; intros Ha j Hj; [|apply Ha; lia]. destruct (decide (j = i)) as [->|]; [lia|apply Ha; lia].
Qed.

(** Versions are totally preordered by [compareVersion]: two versions compare the other
    way round with the opposite sign, the order is transitive, and versions are equal
    exactly when all their numbers are, missing ones counting as 0. *)
Theorem version_order v1 v2 v3 :
  compareVersion v2 v1 = - compareVersion v1 v2 /\
  (compareVersion v1 v2 <= 0 -> compareVersion v2 v3 <= 0 -> compareVersion v1 v3 <= 0) /\
  (compareVersion v1 v2 = 0 <-> forall i, partAt (splitOn "." v1) i = partAt (splitOn "." v2) i).
Proof.
  set (m := (length (splitOn "." v1) + length (splitOn "." v2) + length (splitOn "." v3))%nat).
  rewrite !(compareVersion_bound m) by lia. split_and!; [apply compareFrom_opp|apply compareFrom_trans|].
  rewrite compareFrom_eq. split; intros Hp i; [|intros _; apply Hp].
  destruct (decide (i < m)%nat); [apply Hp; lia|]. by rewrite !partAt_over by lia.
Qed.

(** ** Pragmas *)

Lemma compareVersion_refl v : compareVersion v v = 0.
Proof. by apply version_order. Qed.

(** An adjusted pragma asks for the target version, and is left alone by a second
    adjustment. *)
Theorem adjusted_pragma t : noSpaces t -> without ";" t ->
  let p := ("pragma solidity ^" +:+ t +:+ ";")%string in
  matchPragma p = Some (p, " ^" +:+ t, "")%string /\ forall m, adjustMatch t m (" ^" +:+ t) = m.
Proof.
  intros Hs Hw p. split.
  - unfold matchPragma. assert (E1 : dropPrefix "pragma" p = Some (" solidity ^" +:+ t +:+ ";")%string) by reflexivity.
    assert (E2 : dropPrefix "solidity" ("solidity ^" +:+ t +:+ ";") = Some (" ^" +:+ t +:+ ";")%string) by reflexivity.
    assert (E3 : cutAt ";" (" ^" +:+ t +:+ ";") = Some (" ^" +:+ t, "")%string) by (by apply (cutAt_app ";" (" ^" +:+ t) "")).
    rewrite E1. cbn [mbind option_bind].
    change (span isReSpace (" solidity ^" +:+ t +:+ ";")) with (" ", "solidity ^" +:+ t +:+ ";")%string. cbv beta iota.
    rewrite E2. cbn [mbind option_bind]. rewrite E3. done.
  - intros m. unfold adjustMatch. cbv zeta.
    assert (E : TrimSpace (" ^" +:+ t) = ("^" +:+ t)%string) by (apply (trim_noSpaces ("^" +:+ t)); by apply noSpaces_app).
    rewrite E. change (hasPrefix "^" ("^" +:+ t)) with true. change (trimPrefix "^" ("^" +:+ t)) with t.
    by rewrite (trim_noSpaces t Hs), compareVersion_refl.
Qed.

(** A constraint above the version that is used is lowered to it, others are kept; a
    space after [>=] hides the version. *)
Example adjust_samples :
  adjustPragmaVersion "a; pragma solidity ^0.8.20; contract C {}" "0.8.19" = "a; pragma solidity ^0.8.19; contract C {}"%string /\
  adjustPragmaVersion "pragma solidity >=0.9.0 <0.10.0;" "0.8.19" = "pragma solidity ^0.8.19;"%string /\
  adjustPragmaVersion "pragma solidity ^0.8.2;" "0.8.19" = "pragma solidity ^0.8.2;"%string /\
  adjustPragmaVersion "pragma solidity >= 0.9.0;" "0.8.19" = "pragma solidity >= 0.9.0;"%string.
Proof. vm_compute. done. Qed.

(** ** The front end *)

(** Orders that list every entry of a map once. *)
Definition fairOrders (o : Orders) : Prop :=
  (forall m, targetOrder o m ≡ₚ map_to_list m) /\ (forall m, searchOrder o m ≡ₚ map_to_list m) /\
  (forall m, firstOrder o m ≡ₚ map_to_list m) /\ (forall m, metaOrder o m ≡ₚ map_to_list m).

Section Sound.
Context (unmarshalConfig : string -> option ConfigFile) (unmarshalSources : string -> option (gmap string string))
        (marshalInput : SolcInput -> option string) (unmarshalOutput : string -> option SolcOutput).
Context (t : Tools) (o : Orders).

Lemma bytecodeOf_Ok output f c r : bytecodeOf output f c = Ok r ->
  Forall (fun e => Severity e <> "error"%string) (Errors output) /\ CreationBytecode r <> ""%string /\
  exists d, (Contracts output !! f ≫= lookup c) = Some (CreationBytecode r, d) /\
    DeployedBytecode r = if bool_decide (d = ""%string) then CreationBytecode r else d.
Proof.
  unfold bytecodeOf. destruct (existsb _ _) eqn:He; [done|]. destruct (_ ≫= _) as [[cr d]|] eqn:Hc; [|done].
  case_bool_decide as Hcr; [done|]. intros [= <-]. cbn. split_and!; [|done|by exists d].
  apply Forall_forall. intros e Hin Hs. apply not_true_iff_false in He. apply He, existsb_exists. exists e.
  split; [by apply list_elem_of_In|]. by apply bool_decide_eq_true_2.
Qed.

Lemma addSource_keeps v sources e k x : sources !! k = Some x -> addSource t v sources e !! k = Some x.
Proof.
  intros Hk. unfold addSource. destruct (sources !! e.1) eqn:He; [done|]. repeat case_match; try done.
  rewrite lookup_insert_ne; [done|congruence].
Qed.

Lemma addSources_keep v es sources k x : sources !! k = Some x -> foldl (addSource t v) sources es !! k = Some x.
Proof. revert sources. induction es as [|e es IH]; intros sources Hk; cbn; [done|]. by apply IH, addSource_keeps. Qed.

(** Bytecode that is returned is what the compiler put out for the file and the contract
    that were asked for, without an error, from an input that holds every given source
    with its pragma adjusted; the creation code is not empty, and stands in for deployed
    code that is. *)
Theorem compile_sound metadataJSON sourceCodeJSON r :
  CompileBytecodeFromMetadata unmarshalConfig unmarshalSources marshalInput unmarshalOutput t o metadataJSON sourceCodeJSON = Ok r ->
  exists config sources targetFile contract input json out output,
    unmarshalConfig metadataJSON = Some config /\ unmarshalSources sourceCodeJSON = Some sources /\
    head (targetOrder o (CompilationTarget (cSettings config))) = Some (targetFile, contract) /\
    let file := mainFileOf o sources targetFile in
    marshalInput input = Some json /\ unmarshalOutput out = Some output /\
    (forall f content, sources !! f = Some content ->
       siSources input !! f = Some (adjusted (solcVersionOf t (parseVersionFromConfig (compilerVersion config))) content)) /\
    is_Some (OutputSelection (siSettings input) !! file ≫= lookup contract) /\
    Forall (fun e => Severity e <> "error"%string) (Errors output) /\ CreationBytecode r <> ""%string /\
    exists d, (Contracts output !! file ≫= lookup contract) = Some (CreationBytecode r, d) /\
      DeployedBytecode r = if bool_decide (d = ""%string) then CreationBytecode r else d.
Proof.
  unfold CompileBytecodeFromMetadata. destruct (unmarshalConfig metadataJSON) as [config|] eqn:Hc; [|done].
  destruct (unmarshalSources sourceCodeJSON) as [sources|] eqn:Hs; [|done].
  destruct (targetOrder o (CompilationTarget (cSettings config))) as [|[targetFile contract] rest] eqn:Ht; [done|].
  destruct (marshalInput _) as [json|] eqn:Hj; [|done]. intros Hr.
  destruct (if checkNodeJS t then _ else _) as [out| | |]; cbn in Hr; [|done..].
  destruct (unmarshalOutput out) as [output|] eqn:Hout; [|done].
  destruct (bytecodeOf_Ok _ _ _ _ Hr) as (Herr & Hne & Hd).
  eexists config, sources, targetFile, contract, _, json, out, output. split; [done|]. split; [done|]. split; [by rewrite Ht|]. cbv zeta. split; [exact Hj|]. split; [done|]. split; [|split; [|done]].
  - intros f content Hf. cbn. apply addSources_keep. by rewrite lookup_fmap, Hf.
  - cbn. rewrite lookup_singleton_eq. cbn. by rewrite lookup_singleton_eq.
Qed.

(** A target among the sources is the main file. *)
Lemma main_file_kept sources f : is_Some (sources !! f) -> mainFileOf o sources f = f.
Proof. intros [x Hx]. unfold mainFileOf. by rewrite Hx. Qed.

(** A target that is not among the sources: when a similar name is found it is not used,
    but whichever file comes first; when none is found, the missing name stays. *)
Theorem similar_file_dropped sources f : fairOrders o -> sources !! f = None ->
  (forall g, is_Some (sources !! g) -> similarFile f g = false) /\ mainFileOf o sources f = f \/
  exists g x rest, is_Some (sources !! g) /\ similarFile f g = true /\ firstOrder o sources = (mainFileOf o sources f, x) :: rest.
Proof.
  intros (_ & Hs & Hf & _) Hn. unfold mainFileOf. rewrite Hn.
  destruct (list_find _ (searchOrder o sources)) as [[i [g y]]|] eqn:Hl; cbn.
  - right. apply list_find_Some in Hl as (Hi & Hsim & _). cbn in Hsim.
    assert (Hg : sources !! g = Some y) by (apply elem_of_map_to_list; rewrite <- (Hs sources); by eapply list_elem_of_lookup_2).
    rewrite Hg. destruct (firstOrder o sources) as [|[g' x] rest] eqn:Ho.
    + specialize (Hf sources). rewrite Ho in Hf. apply Permutation_nil_l in Hf.
      assert (Hin : (g, y) ∈ map_to_list sources) by (by apply elem_of_map_to_list). rewrite <- Hf in Hin. by apply elem_of_nil in Hin.
    + exists g, x, rest. by rewrite Hg.
  - left. rewrite Hn. split; [|done]. intros g [y Hg]. apply list_find_None in Hl. rewrite Forall_forall in Hl.
    specialize (Hl (g, y)). cbn in Hl. destruct (similarFile f g); [|done]. exfalso. apply Hl; [|done].
    rewrite (Hs sources). by apply elem_of_map_to_list.
Qed.
End Sound.

(** The target [Token.sol] is [contracts/Token.sol] of the sources; the bytecode is looked
    for in the first file. *)
Definition listOrders : Orders := mkOrders map_to_list map_to_list map_to_list map_to_list.

Example wrong_main_file :
  let sources := {["contracts/Base.sol" := "b"; "contracts/Token.sol" := "t"]}%string : gmap string string in
  let first := default ""%string (head (map_to_list sources).*1) in
  similarFile "Token.sol" "contracts/Token.sol" = true /\ similarFile "Token.sol" "contracts/Base.sol" = false /\
  mainFileOf listOrders sources "Token.sol" = first.
Proof. vm_compute. done. Qed.
