(* ===== verification/VerifyRoot.v ===== *)
(** * The state root watchdog

    Models [verify_root/main.go]: a loop that asks every node to verify the state
    root of one block after the other.  Nodes are asked in the order of their names.
    What they answer is an argument of each round: the outcome of a post and of
    [encoding/json] on its body.  The texts that are printed are not modelled; the
    lines of the log file are the pairs of a node and what was wrong with it. *)

From Stdlib Require Import Ascii.
From S2P Require Import Prelude GoStrings BlockChecker.

Local Open Scope Z_scope.

Record verifyResult := mkVerify {
  TargetBlock : Z; ExpectedRoot : string; RecoveredRoot : string; Match : bool; FastPath : bool; NumEntries : Z
}.

(** ** Requests *)

(** The body of an answer: unreadable, an error of the node, or a raw result. *)
Inductive rpcAnswer :=
| PostFailed (e : GoError)
| BadJson (e : GoError)
| RpcError (message : string)
| RpcResult (raw : string).

(** [unmarshalString] and [unmarshalVerify] are [json.Unmarshal] of a raw result. *)
Section Requests.
Context (unmarshalString : string -> option string) (unmarshalVerify : string -> option verifyResult).

Definition getLatestBlockNumber (a : rpcAnswer) : outcome Z :=
  match a with
  | PostFailed e | BadJson e => Err e
  | RpcError m => Err (ErrText m)
  | RpcResult raw =>
      match unmarshalString raw with
      | None => Err (ErrText "json")
      | Some hexStr =>
          let hexStr := match hexStr with String "0" (String "x" rest) => rest | _ => hexStr end in
          match parseUintHex hexStr with Some n => Ok n | None => Err (ErrText "strconv.ParseUint") end
      end
  end.

Definition verifyBlock (a : rpcAnswer) : outcome (option verifyResult) :=
  match a with
  | PostFailed e | BadJson e => Err e
  | RpcError m => Err (ErrText m)
  | RpcResult raw =>
      if bool_decide (raw = "null"%string) then Ok None
      else match unmarshalVerify raw with Some v => Ok (Some v) | None => Err (ErrText "json") end
  end.
End Requests.

(** ** The loop *)

Record Watch := mkWatch { currentBlock : Z; waitForRestart : bool }.


(** What is wrong with the answer of a node. *)
Inductive complaint :=
| RpcFailed (e : GoError)
| NullResult
| Mismatched (expected recovered : string) (entries : Z).

Definition complaintOf (r : outcome (option verifyResult)) : option complaint :=
  match r with
  | Err e => Some (RpcFailed e)
  | Ok None => Some NullResult
  | Ok (Some v) => if Match v then None else Some (Mismatched (ExpectedRoot v) (RecoveredRoot v) (NumEntries v))
  | Panic | NoFuel => None
  end.

Definition isRpcFailed (c : complaint) : bool := match c with RpcFailed _ => true | _ => false end.

Definition maxLatest (latests : list (outcome Z)) : Z :=
  foldl (fun m r => match r with Ok l => if m <? l then l else m | _ => m end) 0 latests.

Definition nodesOnline (latests : list (outcome Z)) : nat :=
  length (omap (fun r : outcome Z => match r with Ok l => Some l | _ => None end) latests).

(** The answers of a round: the newest block of each node, and the verification of a
    block by each node. *)
Record Answers := mkAnswers {
  latest : list (outcome Z);
  verify : Z -> list (outcome (option verifyResult))
}.

Inductive roundEnd :=
| Waiting (w : Watch)                                        (* some node is not back *)
| NoNewBlock (w : Watch)
| Passed (w : Watch) (block : Z)                             (* every node verified the block *)
| Failed (w : Watch) (block : Z) (log : list complaint)      (* logged; then nodes are waited for *)
| Stopped (block : Z) (log : list complaint).                (* logged; the process ends *)

(** The second half of a turn: all nodes verify the current block. *)
Definition checkRound (a : Answers) (w : Watch) : roundEnd :=
  let newest := maxLatest (latest a) in
  if (newest =? 0) || (newest <? currentBlock w) then NoNewBlock w
  else
    let log := omap complaintOf (verify a (currentBlock w)) in
    match log with
    | [] => Passed (mkWatch (wrap64 (currentBlock w + 1)) (waitForRestart w)) (currentBlock w)
    | _ =>
        if existsb isRpcFailed log then Failed (mkWatch (currentBlock w) true) (currentBlock w) log
        else Stopped (currentBlock w) log
    end.

(** One turn of the loop of [main]. *)
Definition round (a : Answers) (w : Watch) : roundEnd :=
  let online := nodesOnline (latest a) in
  if waitForRestart w || (online =? 0)%nat then
    if (online =? length (latest a))%nat then checkRound a (mkWatch (maxLatest (latest a)) false)
    else Waiting (mkWatch (currentBlock w) true)
  else checkRound a w.



(** ** What the watchdog says *)

(** The block that a round looks at: the newest one when it resumes after all nodes
    are back, else the current one. *)
Definition target (a : Answers) (w : Watch) : Z :=
  if waitForRestart w || (nodesOnline (latest a) =? 0)%nat then maxLatest (latest a) else currentBlock w.



(** Answers come from requests to every node, which return or fail. *)
Definition realAnswers (a : Answers) : Prop :=
  forall b, length (verify a b) = length (latest a) /\ Forall (fun r => r <> Panic /\ r <> NoFuel) (verify a b).




(** ** Which blocks a run leaves out *)











(** A mismatch is not reported as such when another node fails to answer in the same
    round: the watchdog waits, goes on at the newest block when all nodes are back, and
    the block of the mismatch is left behind. *)
Theorem mismatch_skipped a1 a2 w v : realAnswers a2 -> waitForRestart w = false -> (nodesOnline (latest a1) <> 0)%nat ->
  maxLatest (latest a1) <> 0 -> currentBlock w <= maxLatest (latest a1) ->
  Ok (Some v) ∈ verify a1 (currentBlock w) -> Match v = false ->
  Exists (fun r => exists e, r = Err e) (verify a1 (currentBlock w)) ->
  nodesOnline (latest a2) = length (latest a2) -> currentBlock w < maxLatest (latest a2) ->
  exists w1 log, round a1 w = Failed w1 (currentBlock w) log /\ target a2 w1 = maxLatest (latest a2) /\ currentBlock w < target a2 w1.
Proof.
  intros Hr Hwait Hon Hm Hcur Hin Hv Herr Hall Hlt. unfold round. rewrite Hwait. cbn [orb].
  rewrite (proj2 (Nat.eqb_neq _ _)) by done. unfold checkRound. rewrite (proj2 (Z.eqb_neq _ _)), (proj2 (Z.ltb_ge _ _)) by done. cbn [orb].
  apply Exists_exists in Herr as (r & Hrin & e & ->).
  assert (Hf : RpcFailed e ∈ omap complaintOf (verify a1 (currentBlock w))) by (apply list_elem_of_omap; by exists (Err e)).
  destruct (omap complaintOf (verify a1 (currentBlock w))) as [|c l]; [by apply elem_of_nil in Hf|].
  assert (existsb isRpcFailed (c :: l) = true) as ->.
  { apply existsb_exists. exists (RpcFailed e). split; [by apply list_elem_of_In|done]. }
  eexists _, _. split; [done|]. unfold target. cbn. done.
Qed.

(** ** Example *)




