(* ===== verification/ValidatorCheck.v ===== *)
(** * The validator consensus checker

    Models [validator/check_validator_consensus/main.go]: which validators the
    consensus process has loaded for an epoch, read from its log, compared with the
    validators of the contract.

    The regular expressions are arguments that say what they match in a line
    ([Matchers]); the answers of the node are arguments too.  Of what is printed, the
    verdicts and the issues are modelled, not the texts. *)

From Stdlib Require Import Ascii.
From stdpp Require Import sorting.
From S2P Require Import Prelude GoStrings.

Local Open Scope Z_scope.

Record GoValidator := mkGoV { gAddress : string; gName : string; gHostname : string; gStake : Z }.   (* the address in hex *)

Record RustValidator := mkRustV { Index : Z; Address : string; Stake : string; Name : string; AuthorityKey : string }.

Record RustCommittee := mkCommittee { Epoch : Z; BoundaryBlock : Z; Attempt : Z; Validators : list RustValidator }.

Record EpochBoundary := mkBoundary { ebEpoch : Z; ebBlockNumber : Z }.

(** ** Numbers in the log *)

(** [n, _ := strconv.ParseUint(s, 10, 64)] and [n, _ := strconv.Atoi(s)] of digits:
    a number that does not fit gives the largest one, anything else 0. *)
Definition parseUintDropped (s : string) : Z :=
  match s with
  | EmptyString => 0
  | _ => match decValue 0 s with Some v => Z.min v (2 ^ 64 - 1) | None => 0 end
  end.
Definition atoiDropped (s : string) : Z :=
  match s with
  | EmptyString => 0
  | _ => match decValue 0 s with Some v => Z.min v (2 ^ 63 - 1) | None => 0 end
  end.

(** ** The log of the consensus process *)

(** The groups that the three expressions match in a line. *)
Class Matchers := {
  reUnifiedTS : string -> option (string * string * string);                             (* epoch, boundary block, attempt *)
  reValidator : string -> option (string * string * string * string * string);         (* index, address, stake, name, key *)
  reBoundaryHeader : string -> option (string * string)                                  (* epoch, count *)
}.

Record inProgress := mkProgress { ipEpoch : Z; boundaryBlock : Z; attempt : Z; vals : list RustValidator }.

Record ParseState := mkParse { byEpoch : gmap Z inProgress; currentParsingEpoch : Z }.

Section Parse.
Context `{Matchers}.

Definition ipAt (e : Z) (m : gmap Z inProgress) : inProgress := default (mkProgress e 0 0 []) (m !! e).

Definition validatorOf (m : string * string * string * string * string) : RustValidator :=
  let '(idx, addr, stake, name, authKey) := m in mkRustV (atoiDropped idx) addr stake name authKey.

Definition addValidator (v : RustValidator) (ip : inProgress) : inProgress :=
  mkProgress (ipEpoch ip) (boundaryBlock ip) (attempt ip) (if Index v =? 0 then [v] else vals ip ++ [v]).

(** The body of the loop over the lines. *)
Definition parseLine (s : ParseState) (line : string) : ParseState :=
  match reUnifiedTS line with
  | Some (m1, m2, m3) =>
      let epoch := parseUintDropped m1 in
      let ip := ipAt epoch (byEpoch s) in
      mkParse (<[epoch := mkProgress (ipEpoch ip) (parseUintDropped m2) (atoiDropped m3) (vals ip)]> (byEpoch s)) (currentParsingEpoch s)
  | None =>
      match reValidator line with
      | Some m =>
          match byEpoch s !! currentParsingEpoch s with
          | None => s
          | Some targetIP => mkParse (<[currentParsingEpoch s := addValidator (validatorOf m) targetIP]> (byEpoch s)) (currentParsingEpoch s)
          end
      | None =>
          match reBoundaryHeader line with
          | Some (m1, _) =>
              let epoch := parseUintDropped m1 in
              mkParse (<[epoch := ipAt epoch (byEpoch s)]> (byEpoch s)) epoch
          | None => s
          end
      end
  end.

Definition parseLines (lines : list string) : ParseState := foldl parseLine (mkParse ∅ 0) lines.

Definition committeeOf (ip : inProgress) : option RustCommittee :=
  match vals ip with
  | [] => None
  | vs => Some (mkCommittee (ipEpoch ip) (boundaryBlock ip) (attempt ip) vs)
  end.

Definition epochLe (a b : RustCommittee) : Prop := Epoch a <= Epoch b.
#[export] Instance epochLe_dec a b : Decision (epochLe a b).
Proof. unfold epochLe. apply _. Defined.
#[export] Instance epochLe_total : Total epochLe.
Proof. intros a b. unfold epochLe. lia. Qed.
#[export] Instance epochLe_trans : Transitive epochLe.
Proof. intros a b c. unfold epochLe. lia. Qed.

(** The committees of a log, by epoch; [it] is the order in which the map is
    iterated. *)
Definition parseRustLog (it : gmap Z inProgress -> list (Z * inProgress)) (lines : list string) : list RustCommittee :=
  merge_sort epochLe (omap committeeOf (it (byEpoch (parseLines lines))).*2).
End Parse.

(** ** Epoch boundaries on the chain *)

(** A system transaction: its type and the number under [new_epoch], if it is one. *)
Record SysTx := mkSysTx { txType : string; newEpoch : option Z }.

Definition boundariesOf (block : Z) (txs : list SysTx) : list EpochBoundary :=
  omap (fun tx =>
    if bool_decide (txType tx = "EndOfEpoch"%string) then
      let epoch := default 0 (newEpoch tx) in
      if epoch =? 0 then None else Some (mkBoundary epoch block)
    else None) txs.

(** [sysTxs b]: the answer for block [b], [None] when the request fails. *)
Definition scanEpochBoundaries (sysTxs : Z -> option (list SysTx)) (latestBlock scanRange : Z) : list EpochBoundary :=
  let checkFrom := if scanRange <? latestBlock then latestBlock - scanRange else 0 in
  mjoin ((fun b => match sysTxs b with Some txs => boundariesOf b txs | None => [] end) <$> seqZ checkFrom (latestBlock - checkFrom + 1)).

(** ** The validators of the contract *)

(** The answers of the node: the count, the address at an index, and the fields of a
    validator: [None] when a request or its decoding fails. *)
Record StakeDB := mkStakeDB {
  validatorCount : option Z;
  validatorAddresses : Z -> option string;
  validators : string -> option (string * string * Z)     (* name, hostname, staked amount *)
}.

Definition getGoValidators (s : StakeDB) : list GoValidator :=
  match validatorCount s with
  | None => []
  | Some count =>
      omap (fun i =>
        addr ← validatorAddresses s i;
        '(name, hostname, stake) ← validators s addr;
        Some (mkGoV addr name hostname stake)) (seqZ 0 (to_int64 count))
  end.

(** ** The check *)

Inductive verdict :=
| NotLoaded (happened : bool)          (* no committee for the epoch *)
| FullMatch | CountsDiffer | NoMatch.

Inductive issue :=
| ChainStuck | EpochMismatch (rust chain : Z) | CommitteeMismatch (epoch : Z) (missing : nat) | TargetMissing (epoch : Z).

Record Report := mkReport {
  targetEpoch : Z; result : verdict; notInGo : list RustValidator; missingInRust : list GoValidator;
  issues : option (list issue)         (* [None]: the health check was not reached *)
}.

(** The maps from lower-case addresses, as the sets of their keys. *)
Definition rustAddrs (vs : list RustValidator) : list string := (fun v => ToLower (Address v)) <$> vs.
Definition goAddrs (vs : list GoValidator) : list string := (fun v => ToLower (gAddress v)) <$> vs.

Definition lastEpoch (cs : list RustCommittee) : Z := match last cs with Some c => Epoch c | None => 0 end.

Definition healthCheck (cs : list RustCommittee) (targetAddr : string) (epoch currentEpoch blockAge stuckTime : Z) (missing : list GoValidator) : list issue :=
  let rustLatestEpoch := lastEpoch cs in
  (if stuckTime <? blockAge then [ChainStuck] else [])
  ++ (if currentEpoch <? rustLatestEpoch then [EpochMismatch rustLatestEpoch currentEpoch] else [])
  ++ (match missing with [] => [] | _ => [CommitteeMismatch epoch (length missing)] end)
  ++ (if bool_decide (targetAddr <> ""%string) && (0 <? rustLatestEpoch) then
        match last (filter (fun c => Epoch c = rustLatestEpoch) cs) with
        | Some c => if existsb (fun v => EqualFold (Address v) targetAddr) (Validators c) then [] else [TargetMissing rustLatestEpoch]
        | None => []
        end
      else []).

Definition runCheck (cs : list RustCommittee) (goValidators : list GoValidator) (boundaries : list EpochBoundary)
    (targetAddr : string) (epochFlag blockAge stuckTime : Z) : Report :=
  let targetEpoch := if 0 <=? epochFlag then epochFlag else lastEpoch cs in
  let currentEpoch := match last boundaries with Some b => ebEpoch b | None => 0 end in
  match List.find (fun c => Epoch c =? targetEpoch) cs with
  | None => mkReport targetEpoch (NotLoaded (negb (currentEpoch <? targetEpoch))) [] [] None
  | Some c =>
      let vs := Validators c in
      let notInGo := filter (fun v => ToLower (Address v) ∉ goAddrs goValidators) vs in
      let missing := filter (fun v => ToLower (gAddress v) ∉ rustAddrs vs) goValidators in
      let allGood := bool_decide (notInGo = [] /\ missing = []) in
      let result := if allGood && (length vs =? length goValidators)%nat then FullMatch else if allGood then CountsDiffer else NoMatch in
      mkReport targetEpoch result notInGo missing
        (Some (healthCheck cs targetAddr targetEpoch currentEpoch blockAge stuckTime missing))
  end.

(** ** Watch mode *)

Record StuckState := mkStuck { prevBlock : Z; sameBlockCount : Z }.

(** A poll with the block that [runCheck] returned; whether the alert is printed. *)
Definition poll (s : StuckState) (curBlock : Z) : bool * StuckState :=
  let n := if (0 <? curBlock) && (curBlock =? prevBlock s) then sameBlockCount s + 1 else 0 in
  ((3 <=? n), mkStuck curBlock n).

Fixpoint polls (s : StuckState) (blocks : list Z) : list bool :=
  match blocks with [] => [] | b :: blocks => let '(a, s') := poll s b in a :: polls s' blocks end.

(** ** What the parser finds *)

Section ParseFacts.
Context `{Matchers}.

(** Every epoch is kept under its own number. *)
Definition keyed (m : gmap Z inProgress) : Prop := map_Forall (fun e ip => ipEpoch ip = e) m.

Lemma ipAt_keyed m e : keyed m -> ipEpoch (ipAt e m) = e.
Proof. intros Hm. unfold ipAt. destruct (m !! e) eqn:E; cbn; [by apply Hm|done]. Qed.

Lemma parseLine_keyed s line : keyed (byEpoch s) -> keyed (byEpoch (parseLine s line)).
Proof.
  intros Hm. unfold parseLine. destruct (reUnifiedTS line) as [[[m1 m2] m3]|]; [|destruct (reValidator line) as [m|]; [|destruct (reBoundaryHeader line) as [[m1 m2]|]]]; cbn.
  - apply map_Forall_insert_2; [by apply ipAt_keyed|done].
  - destruct (byEpoch s !! currentParsingEpoch s) as [ip|] eqn:E; [|done]. apply map_Forall_insert_2; [cbn; by apply Hm|done].
  - apply map_Forall_insert_2; [by apply ipAt_keyed|done].
  - done.
Qed.

Lemma parseLines_keyed lines : keyed (byEpoch (parseLines lines)).
Proof.
  unfold parseLines. assert (G : forall s, keyed (byEpoch s) -> keyed (byEpoch (foldl parseLine s lines))).
  { induction lines as [|l lines IH]; intros s Hs; [done|]. cbn. by apply IH, parseLine_keyed. }
  apply G. apply map_Forall_empty.
Qed.

(** The validator lines with the epoch they count for: that of the last boundary
    header, provided that the epoch is known by then. *)
Fixpoint attributed (known : gset Z) (cur : Z) (lines : list string) : list (Z * RustValidator) :=
  match lines with
  | [] => []
  | line :: lines =>
      match reUnifiedTS line with
      | Some (m1, _, _) => attributed (known ∪ {[parseUintDropped m1]}) cur lines
      | None =>
          match reValidator line with
          | Some m => if bool_decide (cur ∈ known) then (cur, validatorOf m) :: attributed known cur lines else attributed known cur lines
          | None =>
              match reBoundaryHeader line with
              | Some (m1, _) => attributed (known ∪ {[parseUintDropped m1]}) (parseUintDropped m1) lines
              | None => attributed known cur lines
              end
          end
      end
  end.

(** A group starts at index 0. *)
Definition extend (acc : list RustValidator) (v : RustValidator) : list RustValidator := if Index v =? 0 then [v] else acc ++ [v].

Definition ofEpoch (e : Z) (l : list (Z * RustValidator)) : list RustValidator := (filter (fun x => x.1 = e) l).*2.

Lemma ofEpoch_cons e e' v l : ofEpoch e ((e', v) :: l) = if decide (e' = e) then v :: ofEpoch e l else ofEpoch e l.
Proof. unfold ofEpoch. rewrite filter_cons. cbn [fst]. by destruct (decide (e' = e)). Qed.

Lemma parse_vals lines : forall s, let s' := foldl parseLine s lines in
  forall e, vals (ipAt e (byEpoch s')) = foldl extend (vals (ipAt e (byEpoch s))) (ofEpoch e (attributed (dom (byEpoch s)) (currentParsingEpoch s) lines)).
Proof.
  induction lines as [|line lines IH]; intros s; cbn zeta; intros e; [done|]. cbn [foldl attributed]. rewrite IH. clear IH. unfold parseLine.
  assert (New : forall m k ip, vals ip = vals (ipAt k m) -> vals (ipAt e (<[k := ip]> m)) = vals (ipAt e m)).
  { intros m k ip Hip. unfold ipAt at 1. rewrite lookup_insert. case_decide; [subst; cbn; done|done]. }
  destruct (reUnifiedTS line) as [[[m1 m2] m3]|]; [|destruct (reValidator line) as [m|]; [|destruct (reBoundaryHeader line) as [[m1 m2]|]; [|done]]]; cbn [byEpoch currentParsingEpoch].
  - rewrite New by done. rewrite dom_insert_L. by rewrite (comm_L union).
  - destruct (byEpoch s !! currentParsingEpoch s) as [ip|] eqn:E.
    + rewrite bool_decide_eq_true_2 by (by apply elem_of_dom). cbn [byEpoch currentParsingEpoch]. rewrite dom_insert_lookup_L by done. rewrite ofEpoch_cons.
      case_decide as Ee; subst.
      * cbn [foldl]. f_equal. unfold ipAt. rewrite lookup_insert_eq, E. done.
      * f_equal. unfold ipAt. by rewrite lookup_insert_ne.
    + rewrite bool_decide_eq_false_2 by (by apply not_elem_of_dom). done.
  - rewrite New by done. rewrite dom_insert_L. by rewrite (comm_L union).
Qed.

(** [extend] keeps the validators from the last index 0 on. *)
Lemma extend_suffix vs : exists pre, vs = pre ++ foldl extend [] vs /\
  (forall v, v ∈ tail (foldl extend [] vs) -> Index v <> 0) /\
  (pre = [] \/ exists v, head (foldl extend [] vs) = Some v /\ Index v = 0).
Proof.
  induction vs as [|v vs IH] using rev_ind; [exists []; split_and!; [done|by intros v ?%elem_of_nil|by left]|].
  rewrite foldl_app. cbn [foldl]. destruct IH as (pre & E & Ht & Hh). unfold extend at 1 3 5. destruct (Z.eqb_spec (Index v) 0) as [Ev|Ev].
  - exists vs. split_and!; [done|by intros w ?%elem_of_nil|]. right. by exists v.
  - exists pre. split_and!; [by rewrite app_assoc, <- E| |].
    + destruct (foldl extend [] vs) as [|w ws]; cbn in *; [by intros ? ?%elem_of_nil|]. intros u [Hu| ->%list_elem_of_singleton]%elem_of_app; auto.
    + destruct Hh as [->|(w & Hw & Iw)]; [by left|right]. exists w. split; [|done]. by destruct (foldl extend [] vs).
Qed.

(** What the log says about an epoch: among the validator lines that count for
    it, those from the last line with index 0 on. *)
Theorem parse_epoch lines e :
  let counted := ofEpoch e (attributed ∅ 0 lines) in
  exists pre, counted = pre ++ vals (ipAt e (byEpoch (parseLines lines))) /\
    (forall v, v ∈ tail (vals (ipAt e (byEpoch (parseLines lines)))) -> Index v <> 0) /\
    (pre = [] \/ exists v, head (vals (ipAt e (byEpoch (parseLines lines)))) = Some v /\ Index v = 0).
Proof.
  cbn zeta. unfold parseLines. rewrite parse_vals. cbn [byEpoch currentParsingEpoch]. rewrite dom_empty_L.
  assert (E : vals (ipAt e ∅) = []) by (unfold ipAt; by rewrite lookup_empty). rewrite E. apply extend_suffix.
Qed.

Lemma StronglySorted_le_lt (l : list RustCommittee) : NoDup (Epoch <$> l) -> StronglySorted epochLe l ->
  StronglySorted (fun a b => Epoch a < Epoch b) l.
Proof.
  intros Hn Hs. induction Hs as [|a l Hs IH Ha]; [constructor|]. apply NoDup_cons in Hn as [Hna Hn]. constructor; [by apply IH|].
  rewrite Forall_forall in *. intros b Hb. specialize (Ha b Hb). unfold epochLe in Ha.
  assert (Epoch a <> Epoch b) by (intros E; apply Hna, list_elem_of_fmap; by exists b). lia.
Qed.

(** The committees of a log come in the order of their epochs,
    one for each epoch for which validators were found, whatever the order in which the
    map is iterated. *)
Theorem committees_sorted it lines : (forall m, it m ≡ₚ map_to_list m) ->
  StronglySorted (fun a b => Epoch a < Epoch b) (parseRustLog it lines) /\
  (forall c, c ∈ parseRustLog it lines <-> exists ip, byEpoch (parseLines lines) !! Epoch c = Some ip /\ committeeOf ip = Some c).
Proof.
  intros Hit. unfold parseRustLog. set (m := byEpoch (parseLines lines)). pose proof (parseLines_keyed lines) as Hk. fold m in Hk.
  assert (Hc : forall ip c, committeeOf ip = Some c -> Epoch c = ipEpoch ip) by (intros ip c; unfold committeeOf; destruct (vals ip); [done|]; by intros [= <-]).
  split.
  - apply StronglySorted_le_lt; [|apply (StronglySorted_merge_sort epochLe)].
    rewrite merge_sort_Permutation, (Hit m).
    assert (G : forall l : list (Z * inProgress), NoDup l.*1 -> Forall (fun x => ipEpoch x.2 = x.1) l -> NoDup (Epoch <$> omap committeeOf l.*2)).
    { induction l as [|[e ip] l IH]; [constructor|]. cbn. intros [He Hn]%NoDup_cons [Hip Hl]%Forall_cons. cbn in Hip.
      destruct (committeeOf ip) as [c|] eqn:Ec; [|by apply IH]. cbn. constructor; [|by apply IH].
      rewrite (Hc ip c Ec). intros (d & Ed & Hd)%list_elem_of_fmap. apply list_elem_of_omap in Hd as (ip' & Hip' & Ed').
      apply list_elem_of_fmap in Hip' as ([e' ip''] & -> & Hin). cbn in *. rewrite (Hc _ _ Ed') in Ed. apply He, list_elem_of_fmap. exists (e', ip''). split; [|done].
      rewrite Forall_forall in Hl. specialize (Hl _ Hin). cbn in *. congruence. }
    apply G; [apply NoDup_fst_map_to_list|]. apply Forall_forall. intros [e ip] Hin%elem_of_map_to_list. by apply Hk.
  - intros c. rewrite merge_sort_Permutation, list_elem_of_omap. split.
    + intros (ip & ([e ip'] & -> & Hin)%list_elem_of_fmap & Ec). rewrite (Hit m) in Hin. apply elem_of_map_to_list in Hin. exists ip'. split; [|done].
      cbn in Ec. rewrite (Hc ip' c Ec), (Hk e ip' Hin). done.
    + intros (ip & Hin & Ec). exists ip. split; [|done]. apply list_elem_of_fmap. exists (Epoch c, ip). split; [done|]. rewrite (Hit m). by apply elem_of_map_to_list.
Qed.
End ParseFacts.

(** ** What the verdicts mean *)

Lemma filter_nil_iff {A} (P : A -> Prop) `{!forall x, Decision (P x)} (l : list A) : filter P l = [] <-> Forall (fun x => ~ P x) l.
Proof.
  induction l as [|x l IH]; [by split|]. rewrite filter_cons, Forall_cons. case_decide; [naive_solver|]. rewrite IH. naive_solver.
Qed.

(** The committee of an epoch and the validators of the contract have the same
    addresses, without regard to case. *)
Definition sameAddresses (vs : list RustValidator) (gs : list GoValidator) : Prop := forall a, a ∈ rustAddrs vs <-> a ∈ goAddrs gs.

Lemma allGood_iff vs gs :
  filter (fun v => ToLower (Address v) ∉ goAddrs gs) vs = [] /\ filter (fun v => ToLower (gAddress v) ∉ rustAddrs vs) gs = [] <->
  sameAddresses vs gs.
Proof.
  rewrite !filter_nil_iff, !Forall_forall. unfold sameAddresses. split.
  - intros [H1 H2] a. split; intros (v & -> & Hv)%list_elem_of_fmap.
    + by apply dec_stable, H1.
    + by apply dec_stable, H2.
  - intros Hs. split; intros v Hv Hn; apply Hn.
    + apply Hs, list_elem_of_fmap. by exists v.
    + apply Hs, list_elem_of_fmap. by exists v.
Qed.

(** The verdict of a check: a full match says exactly that the log has
    a committee for the epoch, with the addresses of the contract, and as many
    entries; no match, that an address is on one side only. *)
Theorem verdict_exact cs gs bs addr flag age stuck : let r := runCheck cs gs bs addr flag age stuck in
  match List.find (fun c => Epoch c =? targetEpoch r) cs with
  | None => exists b, result r = NotLoaded b
  | Some c =>
      (result r = FullMatch <-> sameAddresses (Validators c) gs /\ length (Validators c) = length gs) /\
      (result r = NoMatch <-> ~ sameAddresses (Validators c) gs) /\
      (result r = CountsDiffer <-> sameAddresses (Validators c) gs /\ length (Validators c) <> length gs)
  end.
Proof.
  cbn zeta. unfold runCheck. set (t := if 0 <=? flag then flag else lastEpoch cs).
  destruct (List.find (fun c => Epoch c =? t) cs) as [c|] eqn:E; cbn [targetEpoch]; rewrite E; [|by eexists]. cbn [result].
  destruct (Nat.eqb_spec (length (Validators c)) (length gs)) as [El|El].
  all: case_bool_decide as Hb; rewrite allGood_iff in Hb; cbn [andb]; naive_solver.
Qed.

(** The counts can only differ when a list has an address twice: a committee that is a
    part of the validators of the contract is reported as no match. *)
Theorem counts_differ_duplicates vs gs : sameAddresses vs gs -> NoDup (rustAddrs vs) -> NoDup (goAddrs gs) -> length vs = length gs.
Proof.
  intros Hs Hr Hg. assert (P : rustAddrs vs ≡ₚ goAddrs gs) by (by apply NoDup_Permutation). apply Permutation_length in P.
  unfold rustAddrs, goAddrs in P. by rewrite !length_fmap in P.
Qed.

(** ** When a chain counts as stuck *)

Definition repeats (blocks : list Z) (i : nat) : bool :=
  match i with
  | O => false
  | S j => match blocks !! i, blocks !! j with Some a, Some b => (0 <? a) && (a =? b) | _, _ => false end
  end.

(** The counter after the first [i + 1] polls. *)
Fixpoint countAt (blocks : list Z) (i : nat) : Z :=
  if repeats blocks i then match i with O => 0 | S j => countAt blocks j + 1 end else 0.

Fixpoint pollStates (s : StuckState) (blocks : list Z) : list StuckState :=
  match blocks with [] => [] | b :: blocks => let s' := (poll s b).2 in s' :: pollStates s' blocks end.

Lemma polls_states blocks : forall s, polls s blocks = (fun s => 3 <=? sameBlockCount s) <$> pollStates s blocks.
Proof. induction blocks as [|b blocks IH]; intros s; [done|]. cbn. by rewrite IH. Qed.

Lemma pollStates_snoc blocks b : forall s, pollStates s (blocks ++ [b]) = pollStates s blocks ++ [(poll (default s (last (pollStates s blocks))) b).2].
Proof.
  induction blocks as [|c blocks IH]; intros s; [done|]. cbn [pollStates app]. rewrite IH. cbn [app]. f_equal. f_equal. f_equal. f_equal. f_equal.
  rewrite last_cons. by destruct (last (pollStates (poll s c).2 blocks)).
Qed.

Lemma repeats_app blocks l i : (i < length blocks)%nat -> repeats (blocks ++ l) i = repeats blocks i.
Proof. intros Hi. destruct i as [|i]; [done|]. cbn [repeats]. by rewrite !lookup_app_l by lia. Qed.

Lemma countAt_app blocks l i : (i < length blocks)%nat -> countAt (blocks ++ l) i = countAt blocks i.
Proof. induction i as [|i IH]; intros Hi; cbn [countAt]; rewrite repeats_app by done; [done|]. case_match; [|done]. rewrite IH by lia. done. Qed.

Lemma pollStates_spec blocks : forall i s, pollStates (mkStuck 0 0) blocks !! i = Some s ->
  blocks !! i = Some (prevBlock s) /\ sameBlockCount s = countAt blocks i.
Proof.
  induction blocks as [|b blocks IH] using rev_ind; intros i s; [done|]. rewrite pollStates_snoc.
  assert (L : length (pollStates (mkStuck 0 0) blocks) = length blocks).
  { generalize (mkStuck 0 0). clear. induction blocks as [|b blocks IH]; intros s; [done|]. cbn. by rewrite IH. }
  intros [Hi|[Hi Hs]]%lookup_app_Some.
  - pose proof (lookup_lt_Some _ _ _ Hi) as Hl. rewrite L in Hl. destruct (IH i s Hi) as [E1 E2].
    split; [by apply lookup_app_l_Some|by rewrite countAt_app].
  - apply list_lookup_singleton_Some in Hs as [Hi0 <-]. rewrite L in *. assert (i = length blocks) as -> by lia.
    split; [cbn; rewrite lookup_app_r, Nat.sub_diag by lia; done|].
    destruct (length blocks) as [|n] eqn:En.
    + apply nil_length_inv in En. subst. cbn. by destruct ((0 <? b) && (b =? 0)) eqn:E; [lia|].
    + destruct (lookup_lt_is_Some_2 (pollStates (mkStuck 0 0) blocks) n) as [t Ht]; [lia|].
      assert (Elast : last (pollStates (mkStuck 0 0) blocks) = Some t) by (by rewrite last_lookup, L).
      rewrite Elast. destruct (IH n t Ht) as [E1 E2]. cbn [default poll snd sameBlockCount countAt]. unfold id, repeats.
      rewrite lookup_app_r by lia. rewrite <- En at 1. rewrite En, Nat.sub_diag. cbn [lookup list_lookup].
      rewrite lookup_app_l by lia. rewrite E1. destruct ((0 <? b) && (b =? prevBlock t)); [|done]. rewrite countAt_app by lia. by rewrite E2.
Qed.

Lemma countAt_nonneg blocks i : 0 <= countAt blocks i.
Proof. induction i as [|i IH]; cbn [countAt]; case_match; lia. Qed.

(** A positive count is one more than the count before. *)
Lemma countAt_pos blocks n k : 0 < k -> k <= countAt blocks n <->
  exists m b, n = S m /\ 0 < b /\ blocks !! n = Some b /\ blocks !! m = Some b /\ k - 1 <= countAt blocks m.
Proof.
  intros Hk. destruct n as [|m]; cbn [countAt repeats]; [split; [lia|by intros (? & ? & ? & _)]|].
  destruct (blocks !! S m) as [x|] eqn:Ex, (blocks !! m) as [y|] eqn:Ey; cbn [repeats]; try (split; [lia|naive_solver]).
  destruct (Z.ltb_spec 0 x) as [Hx|Hx]; [destruct (Z.eqb_spec x y) as [->|Hxy]|]; cbn [andb].
  - split; [intros; exists m, y; split_and!; [done..|lia]|]. intros (m' & b & [= <-] & _ & _ & _ & ?). lia.
  - split; [lia|]. intros (m' & b & [= <-] & _ & [= <-] & Hm & _). congruence.
  - split; [lia|]. intros (m' & b & [= <-] & ? & [= <-] & _). lia.
Qed.

(** The alert of the watch mode: a poll raises it exactly when its block is the one of
    the three polls before, and not 0. *)
Theorem stuck_alert blocks i : polls (mkStuck 0 0) blocks !! i = Some true <->
  exists b j, 0 < b /\ i = (j + 3)%nat /\ blocks !! j = Some b /\ blocks !! (j + 1)%nat = Some b /\
    blocks !! (j + 2)%nat = Some b /\ blocks !! (j + 3)%nat = Some b.
Proof.
  assert (L : length (pollStates (mkStuck 0 0) blocks) = length blocks).
  { generalize (mkStuck 0 0). induction blocks as [|b blocks IH]; intros s; [done|]. cbn. by rewrite IH. }
  assert (A : polls (mkStuck 0 0) blocks !! i = Some true <-> 3 <= countAt blocks i /\ (i < length blocks)%nat).
  { rewrite polls_states, list_lookup_fmap. destruct (pollStates (mkStuck 0 0) blocks !! i) as [s|] eqn:Es; cbn.
    - destruct (pollStates_spec _ _ _ Es) as [_ ->]. apply lookup_lt_Some in Es. rewrite L in Es.
      split; [intros [= ?%Z.leb_le]; done|]. intros [?%Z.leb_le _]. by f_equal.
    - split; [done|]. intros [_ Hl]. apply lookup_ge_None_1 in Es. lia. }
  rewrite A. split.
  - intros [H3 _]. apply countAt_pos in H3 as (m2 & b & -> & Hb & E3 & E2 & H2); [|lia].
    apply countAt_pos in H2 as (m1 & b1 & -> & _ & E2' & E1 & H1); [|lia].
    apply countAt_pos in H1 as (m0 & b0 & -> & _ & E1' & E0 & _); [|lia]. simplify_eq. exists b, m0.
    rewrite (Nat.add_comm m0 1), (Nat.add_comm m0 2), (Nat.add_comm m0 3). done.
  - intros (b & j & Hb & -> & E0 & E1 & E2 & E3). split; [|by eapply lookup_lt_Some].
    apply countAt_pos; [lia|]. exists (j + 2)%nat, b. split_and!; [lia|done..|].
    apply countAt_pos; [lia|]. exists (j + 1)%nat, b. split_and!; [lia|done..|].
    apply countAt_pos; [lia|]. exists j, b. split_and!; [lia|done..|]. pose proof (countAt_nonneg blocks j). lia.
Qed.
