(* ===== verification/LoadGen.v ===== *)
(** * The load generator

    Models the core of [test_tps/tps_blast_cc/main.go] and its RPC client
    [rpc/client.go]: the accounts that send, the nonces they start from, the
    transactions that are built, the batches and the connections they go out on, the
    answers that come back, and the loop that looks for the transactions in new blocks.

    What HTTP requests and connections answer is an argument; JSON, RLP, hashing and
    signing are arguments too.  Log lines, alerts, timing and the statistics of a round
    are not modelled. *)

From Stdlib Require Import Ascii.
From S2P Require Import Prelude GoStrings Binary TrieEncoding TrieNode AccountState BatchStore Message BlockChecker.
From S2P Require Import Instances Wire.

Local Open Scope Z_scope.

(** ** The RPC client *)

Definition hasHttpPrefix (endpoint : string) : bool := String.prefix "http://" endpoint || String.prefix "https://" endpoint.

(** The endpoint that [NewRPCClient] keeps. *)
Definition NewRPCClient (endpoint : string) : string := if hasHttpPrefix endpoint then endpoint else ("http://" +:+ endpoint)%string.

(** The decoded body: an error of the node or a raw result. *)
Inductive rpcBody :=
| BodyError (code : Z) (message : string)
| BodyResult (raw : string).

Inductive httpAnswer :=
| PostError (e : GoError)
| Status (code : Z) (body : option rpcBody).        (* [None]: the body does not decode *)

Definition StatusOK : Z := 200.
Definition TooManyRequests : Z := 429.

(** The attempts from number [attempt] on; the second result is the time slept, in
    milliseconds. *)
Fixpoint callLoop (tries attempt : nat) (answers : nat -> httpAnswer) (baseDelay : Z) : outcome string * Z :=
  match tries with
  | O => (Err (ErrText "rpc request exceeded max retries for 429 Too Many Requests"), 0)
  | S tries =>
      match answers attempt with
      | PostError e => (Err e, 0)
      | Status code body =>
          if code =? TooManyRequests then
            let '(r, slept) := callLoop tries (S attempt) answers (baseDelay * 2) in (r, baseDelay + slept)
          else if negb (code =? StatusOK) then (Err (ErrText "rpc request returned status"), 0)
          else
            (match body with
             | None => Err (ErrText "failed to decode response")
             | Some (BodyError _ m) => Err (ErrText m)
             | Some (BodyResult raw) => Ok raw
             end, 0)
      end
  end.

Definition call (answers : nat -> httpAnswer) : outcome string * Z := callLoop 5 0 answers 50.

(** [strings.TrimPrefix(s, "0x")] *)
Definition trim0x (s : string) : string := match s with String "0" (String "x" rest) => rest | _ => s end.

(** The fields of a block as the node gives them, and the block. *)
Record rawBlock := mkRawBlock { rbNumber : string; rbHash : string; rbEpoch : string; rbTimestamp : string; rbTransactions : list string }.
Record Block := mkBlock { Number : Z; bHash : string; bEpoch : Z; Timestamp : Z; Transactions : list string }.

Record AccountStateResult := mkAccState { asPublicKeyBls : string; asAddress : string; asNonce : Z; asBalance : string }.

Section Rpc.
Context (unmarshalString : string -> option string) (unmarshalBlock : string -> option rawBlock)
        (unmarshalAccount : string -> option AccountStateResult).

Definition GetBlockNumber (answers : nat -> httpAnswer) : outcome Z :=
  result ← (call answers).1;
  match unmarshalString result with
  | None => Err (ErrText "invalid response format")
  | Some hexStr => match parseUintHex (trim0x hexStr) with Some n => Ok n | None => Err (ErrText "failed to parse block number") end
  end.

(** A number that is missing or does not parse is 0. *)
Definition hexOrZero (s : string) : Z := default 0 (parseUintHex (trim0x s)).

Definition GetBlockByNumber (answers : nat -> httpAnswer) : outcome (option Block) :=
  result ← (call answers).1;
  if bool_decide (result = "null"%string) then Ok None
  else
    match unmarshalBlock result with
    | None => Err (ErrText "failed to unmarshal block")
    | Some b => Ok (Some (mkBlock (hexOrZero (rbNumber b)) (rbHash b) (hexOrZero (rbEpoch b)) (hexOrZero (rbTimestamp b)) (rbTransactions b)))
    end.

Definition GetAccountState (answers : nat -> httpAnswer) : outcome (option AccountStateResult) :=
  result ← (call answers).1;
  if bool_decide (result = "null"%string) then Ok None
  else match unmarshalAccount result with Some a => Ok (Some a) | None => Err (ErrText "failed to unmarshal account state") end.
End Rpc.

(** ** Nonces *)

Record AccountInfo := mkAccount { aIndex : Z; PrivateKey : string; aAddress : string }.

(** The accounts of a round: the first ones, or all of them over and over. *)
Definition selectAccounts (count : nat) (accounts : list AccountInfo) : list AccountInfo :=
  if (length accounts <? count)%nat
  then omap (fun i => accounts !! (i mod length accounts)%nat) (seq 0 count)
  else take count accounts.

(** [fetchNonce] on one node: at most 61 requests; a state that is not there, an error
    and a nonce below the expected one are asked for again. *)
Fixpoint fetchNonceLoop (tries : nat) (retry : nat) (state : nat -> outcome (option AccountStateResult)) (expectedNonce : Z) : outcome Z :=
  match tries with
  | O => Err (ErrText "retries exhausted")
  | S tries =>
      match state retry with
      | Ok (Some a) =>
          if (0 <=? expectedNonce) && (asNonce a <? expectedNonce)
          then match tries with O => Err (ErrText "stale nonce") | _ => fetchNonceLoop tries (S retry) state expectedNonce end
          else Ok (wrap64 (asNonce a))
      | Ok None => match tries with O => Err (ErrText "nil state") | _ => fetchNonceLoop tries (S retry) state expectedNonce end
      | Err e => match tries with O => Err e | _ => fetchNonceLoop tries (S retry) state expectedNonce end
      | Panic => Panic
      | NoFuel => NoFuel
      end
  end.

Definition fetchNonce := fetchNonceLoop 61 0.

(** The workers that fill the map of nonces: the account at each index is asked for
    once, in some order ([order]); after the first error the others are
    skipped, and the process ends. *)
Fixpoint fetchAll (answer : nat -> outcome Z) (toSend : list AccountInfo) (order : list nat) (m : gmap string Z) : option (gmap string Z) :=
  match order with
  | [] => Some m
  | i :: order =>
      match toSend !! i, answer i with
      | Some acc, Ok n => fetchAll answer toSend order (<[aAddress acc := n]> m)
      | _, _ => None
      end
  end.

(** In the rounds after the first, a nonce below the one that the last round ended with
    ([old]) is asked for again. *)
Definition refetchAll (state : nat -> nat -> outcome (option AccountStateResult)) (old : gmap string Z) (toSend : list AccountInfo) (order : list nat) :
  option (gmap string Z) :=
  fetchAll (fun i => match toSend !! i with
                     | Some acc => fetchNonce (state i) (from_option to_int64 (-1) (old !! aAddress acc))
                     | None => Panic
                     end) toSend order ∅.

(** *** Nodes that disagree *)

(** The nonce with the most votes; the map is iterated in the order [it]. *)
Definition majority (it : list (Z * nat)) : Z :=
  (foldl (fun '(best, votes) '(n, cnt) => if (votes <? cnt)%nat then (n, cnt) else (best, votes)) (-1, 0%nat) it).1.

Definition voteCounts (results : list (outcome Z)) : gmap Z nat :=
  foldl (fun m r => match r with Ok n => <[n := S (default 0%nat (m !! n))]> m | _ => m end) ∅ results.

Definition differs (m : Z) (r : outcome Z) : bool := match r with Ok n => negb (n =? m) | _ => false end.

(** The nodes that are reported as different; [None] when there is only one node. *)
Definition checkNonceDivergence (it : gmap Z nat -> list (Z * nat)) (results : list (outcome Z)) : option (list nat) :=
  if (length results <? 2)%nat then None
  else
    let m := majority (it (voteCounts results)) in
    Some (filter (fun i => from_option (differs m) false (results !! i) = true) (seq 0 (length results))).

(** ** Building *)

(** A signed transaction: its bytes, its sender, its hash (as [Hex] writes it) and its
    target. *)
Record rawTx := mkRawTx { rtBytes : bytes; rtAddr : string; rtHash : string; rtTarget : string }.

Definition defaultRecipient : string := "0xbF2b4B9b9dFB6d23F7F0FC46981c2eC89f94A9F2".

(** To the recipient that was asked for; else to the next account, or to oneself. *)
Definition targetOf (recipient : string) (toSend : list AccountInfo) (idx : nat) (acc : AccountInfo) : string :=
  if negb (bool_decide (recipient = ""%string)) && negb (bool_decide (recipient = defaultRecipient)) then recipient
  else if (1 <? length toSend)%nat
  then from_option aAddress ""%string (toSend !! ((idx + 1) mod length toSend)%nat)
  else aAddress acc.

(** [decodeKey] is [hex.DecodeString] and [crypto.ToECDSA]; [sign] signs the transaction
    with a nonce and a target, encodes it and takes its hash.  In rounds after the first
    the same loop runs on the nonces fetched again. *)
Section Build.
Context {key : Type} (decodeKey : string -> option key) (sign : key -> Z -> string -> option (bytes * string)).

(** One account: the nonces and the transaction, if there is one. *)
Definition buildOne (recipient : string) (toSend : list AccountInfo) (nonceMap : gmap string Z) (idx : nat) (acc : AccountInfo) :
  gmap string Z * option rawTx :=
  match decodeKey (PrivateKey acc) with
  | None => (nonceMap, None)
  | Some ecdsaKey =>
      let targetContract := targetOf recipient toSend idx acc in
      let nonce := nonceMap !! aAddress acc in
      let nonceMap' := <[aAddress acc := wrap64 (default 0 nonce + 1)]> nonceMap in
      match nonce with
      | None => (nonceMap', None)
      | Some n =>
          match sign ecdsaKey n targetContract with
          | None => (nonceMap', None)
          | Some (rawBytes, txHash) => (nonceMap', Some (mkRawTx rawBytes (aAddress acc) txHash targetContract))
          end
      end
  end.

Fixpoint buildLoop (recipient : string) (toSend : list AccountInfo) (nonceMap : gmap string Z) (idx : nat) (accs : list AccountInfo) :
  gmap string Z * list rawTx :=
  match accs with
  | [] => (nonceMap, [])
  | acc :: accs =>
      let '(m, tx) := buildOne recipient toSend nonceMap idx acc in
      let '(m', txs) := buildLoop recipient toSend m (S idx) accs in
      (m', option_list tx ++ txs)
  end.

Definition buildTxs (recipient : string) (toSend : list AccountInfo) (nonceMap : gmap string Z) : gmap string Z * list rawTx :=
  buildLoop recipient toSend nonceMap 0 toSend.
End Build.

(** ** Batches *)

Definition sendBatchSize (batchSize : Z) : nat := Z.to_nat (if (batchSize <=? 0) || (1000 <? batchSize) then 1000 else batchSize).

(** The loop from transaction [i] on. *)
Fixpoint batchesFrom {A} (fuel size : nat) (i : nat) (allTxs : list A) : list (list A) :=
  match fuel with
  | O => []
  | S fuel =>
      if (i <? length allTxs)%nat
      then
        let e := if (length allTxs <? i + size)%nat then length allTxs else (i + size)%nat in
        take (e - i) (drop i allTxs) :: batchesFrom fuel size (i + size) allTxs
      else []
  end.

Definition batchesOf {A} (size : nat) (allTxs : list A) : list (list A) := batchesFrom (length allTxs) size 0 allTxs.

(** The batches that connection [cIdx] of [n] sends, from batch [i] on. *)
Fixpoint shareFrom (fuel n i count : nat) : list nat :=
  match fuel with
  | O => []
  | S fuel => if (i <? count)%nat then i :: shareFrom fuel n (i + n) count else []
  end.

Definition shareOf (n cIdx count : nat) : list nat := shareFrom count n cIdx count.

(** ** Writing *)

(** A connection: the bytes that reached the peer and how many more it takes before a
    write fails, [None] when it never does. *)
Record Conn := mkConn { wire : bytes; room : option nat }.

Definition connWrite (p : bytes) (c : Conn) : Conn * bool :=
  match room c with
  | None => (mkConn (wire c ++ p) None, true)
  | Some r =>
      if (r <? length p)%nat then (mkConn (wire c ++ take r p) (Some 0%nat), false)
      else (mkConn (wire c ++ p) (Some (r - length p)%nat), true)
  end.

(** A [bufio.Writer] of [writerSize] bytes on a connection; its error is sticky. *)
Record rawWriter := mkRW { rwBuf : bytes; rwFailed : bool; rwConn : Conn }.

Definition writerSize : nat := (4 * 1024 * 1024)%nat.

Section Writer.
Context (size : nat).

(** [Writer.Flush] keeps what it could not write. *)
Definition flush (rw : rawWriter) : rawWriter * bool :=
  if rwFailed rw then (rw, false)
  else
    match rwBuf rw with
    | [] => (rw, true)
    | b =>
        let '(c, ok) := connWrite b (rwConn rw) in
        if ok then (mkRW [] false c, true) else (mkRW (drop (length (wire c) - length (wire (rwConn rw))) b) true c, false)
    end.

(** [Writer.Write]: while the bytes do not fit, the buffer is filled and flushed, or an
    empty buffer passed by. *)
Fixpoint bufWrite (fuel : nat) (p : bytes) (rw : rawWriter) : rawWriter * bool :=
  if rwFailed rw then (rw, false)
  else
    let available := (size - length (rwBuf rw))%nat in
    if (length p <=? available)%nat then (mkRW (rwBuf rw ++ p) false (rwConn rw), true)
    else
      match fuel with
      | O => (rw, false)
      | S fuel =>
          match rwBuf rw with
          | [] => let '(c, ok) := connWrite p (rwConn rw) in (mkRW [] (negb ok) c, ok)
          | _ =>
              let '(rw', _) := flush (mkRW (rwBuf rw ++ take available p) false (rwConn rw)) in
              bufWrite fuel (drop available p) rw'
          end
      end.

(** At most two turns of the loop. *)
Definition writerWrite (p : bytes) (rw : rawWriter) : rawWriter * bool := bufWrite 2 p rw.

Section Send.
Context `{NetProto} (version : string) (toAddress : bytes).

Definition messageOf (cmd uuid : string) (body : bytes) : PbMessage :=
  mkPbMessage (Some (mkHeader cmd [] toAddress [] version uuid)) body.

Definition sendRaw (cmd uuid : string) (body : bytes) (rw : rawWriter) : rawWriter * bool :=
  match marshalMessage (messageOf cmd uuid body) with
  | None => (rw, false)
  | Some b =>
      let '(rw1, ok) := writerWrite (leBytes 8 (wrap64 (Z.of_nat (length b)))) rw in
      if ok then writerWrite b rw1 else (rw1, false)
  end.

(** The connections of one target: the ones closed, the current one, how many dials
    were made and how many transactions were counted. *)
Record Client := mkClient { cClosed : list Conn; cRw : option rawWriter; cDials : nat; cSent : nat }.

(** [newRawWriter] at a dial: the room of the new connection, or a failure. *)
Context (dial : nat -> option (option nat)) (initBody : bytes) (uuid : nat -> string).

(** [reconnectNode]: 30 attempts, each of a dial, the init message and a flush;
    [None] when the process ends. *)
Fixpoint reconnectNode (attempts : nat) (c : Client) : option Client :=
  match attempts with
  | O => None
  | S attempts =>
      let n := cDials c in
      match dial n with
      | None => reconnectNode attempts (mkClient (cClosed c) None (S n) (cSent c))
      | Some r =>
          let '(rw, ok) := sendRaw "InitConnection" (uuid 0%nat) initBody (mkRW [] false (mkConn [] r)) in
          let '(rw', ok') := if ok then flush rw else (rw, false) in
          if ok' then Some (mkClient (cClosed c) (Some rw') (S n) (cSent c))
          else reconnectNode attempts (mkClient (cClosed c ++ [rwConn rw']) None (S n) (cSent c))
      end
  end.

(** One batch of [count] transactions: a write that fails is tried once more on a new
    connection, the result of the flush is not looked at. *)
Definition sendBatch (i count : nat) (batch : bytes) (c : Client) : option Client :=
  c ← (match cRw c with None => reconnectNode 30 c | Some _ => Some c end);
  rw ← cRw c;
  let '(rw1, ok) := sendRaw "SendRawTransactions" (uuid (S i)) batch rw in
  c ← (if ok then Some (mkClient (cClosed c) (Some rw1) (cDials c) (cSent c))
       else
         c ← reconnectNode 30 (mkClient (cClosed c ++ [rwConn rw1]) None (cDials c) (cSent c));
         rw ← cRw c;
         let '(rw2, ok2) := sendRaw "SendRawTransactions" (uuid (S i)) batch rw in
         if ok2 then Some (mkClient (cClosed c) (Some rw2) (cDials c) (cSent c)) else None);
  rw ← cRw c;
  Some (mkClient (cClosed c) (Some (flush rw).1) (cDials c) (cSent c + count)).

(** The goroutine of a target on its batches; [None] also when the stop file of the
    block checker is found. *)
Fixpoint blast (stopped : nat -> bool) (batches : list (nat * bytes)) (i : nat) (c : Client) : option Client :=
  match batches with
  | [] => Some c
  | (count, batch) :: batches =>
      if stopped i then None else c ← sendBatch i count batch c; blast stopped batches (S i) c
  end.
End Send.
End Writer.

(** ** Looking for the transactions *)

(** The answers of one turn of the loop; [piNow] is the clock in nanoseconds. *)
Record pollInput := mkInput { piStop : bool; piNow : Z; piNumber : outcome Z; piBlock : Z -> outcome (option Block) }.

(** [pProcessStart] is [None] while the time is zero. *)
Record Poll := mkPoll {
  pLastBlock : Z;
  pExpected : gset string;
  pTotal : Z;
  pFirstTx : option Z;
  pLastTx : option Z;
  pTransitioned : bool;
  pProcessStart : option Z;
  pProgress : Z
}.

Inductive pollEnd := PollStopped | PollPanic | PollTimeout | PollDone.

(** The hashes of a block: the ones that were expected are counted and crossed off. *)
Fixpoint scanTxs (hashes : list string) (expected : gset string) (count : Z) : gset string * Z :=
  match hashes with
  | [] => (expected, count)
  | txHash :: hashes =>
      let h := ToLower txHash in
      if bool_decide (h ∈ expected) then scanTxs hashes (expected ∖ {[h]}) (count + 1) else scanTxs hashes expected count
  end.

Section Poll.
Context (epochWait maxWait startEpoch : Z) (txCount : nat).

(** A block that was fetched. *)
Definition pollBlock (now : Z) (bn : Z) (blk : Block) (s : Poll) : Poll :=
  let transition := (0 <? epochWait) && negb (pTransitioned s) && (startEpoch <? bEpoch blk) in
  let '(expected, newTxsCount) := scanTxs (Transactions blk) (pExpected s) 0 in
  let found := 0 <? newTxsCount in
  mkPoll bn expected (pTotal s + newTxsCount)
    (if found then Some (default (Timestamp blk) (pFirstTx s)) else pFirstTx s)
    (if found then Some (Timestamp blk) else pLastTx s)
    (transition || pTransitioned s)
    (if transition then Some now else pProcessStart s)
    (if transition || found then now else pProgress s).

(** The blocks in order, up to the first one that is missing. *)
Fixpoint pollBlocks (now : Z) (block : Z -> outcome (option Block)) (bns : list Z) (s : Poll) : Poll :=
  match bns with
  | [] => s
  | bn :: bns =>
      match block bn with
      | Ok (Some blk) => pollBlocks now block bns (pollBlock now bn blk s)
      | _ => s
      end
  end.

Definition maxBlocksToQuery : Z := 20.

(** One turn. *)
Definition pollOnce (i : pollInput) (s : Poll) : Poll * option pollEnd :=
  if piStop i then (s, Some PollStopped)
  else if pTransitioned s && bool_decide (is_Some (pProcessStart s)) && (maxWait <? piNow i - pProgress s) then (s, Some PollTimeout)
  else
    match piNumber i with
    | Ok currentBlockNum =>
        let limit := wrap64 (pLastBlock s + maxBlocksToQuery) in
        let toBlockNum := if limit <? currentBlockNum then limit else currentBlockNum in
        if pLastBlock s <? currentBlockNum then
          if toBlockNum <? pLastBlock s then (s, Some PollPanic)
          else
            let s' := pollBlocks (piNow i) (piBlock i) (seqZ (pLastBlock s + 1) (toBlockNum - pLastBlock s)) s in
            (s', if Z.of_nat txCount <=? pTotal s' then Some PollDone else None)
        else (s, if Z.of_nat txCount <=? pTotal s then Some PollDone else None)
    | _ => (s, None)
    end.

(** The turns until one ends the loop. *)
Fixpoint poll (inputs : list pollInput) (s : Poll) : Poll * option pollEnd :=
  match inputs with
  | [] => (s, None)
  | i :: inputs => let '(s', e) := pollOnce i s in match e with Some e => (s', Some e) | None => poll inputs s' end
  end.

(** The state before the first turn. *)
Definition expectedOf (allTxs : list rawTx) : gset string := list_to_set ((fun t => ToLower (rtHash t)) <$> allTxs).

Definition pollStart (startBlock : Z) (now : Z) (allTxs : list rawTx) : Poll :=
  mkPoll startBlock (expectedOf allTxs) 0 None None (epochWait <=? 0) (if epochWait <=? 0 then Some now else None) now.
End Poll.

(** The transactions that are reported as missing, at most [n], with the connection they
    are said to have gone out on; the alerts divide by [batchSize], the final diagnosis by
    the size that was used. *)
Definition stuckTxs (n : nat) (expected : gset string) (clients : nat) (size : Z) (allTxs : list rawTx) : list (string * option nat) :=
  take n (omap (fun '(idx, tx) =>
    if bool_decide (ToLower (rtHash tx) ∈ expected)
    then Some (rtHash tx, if bool_decide (0 < clients)%nat && (0 <? size) then Some (Z.to_nat ((Z.of_nat idx) / size) mod clients)%nat else None)
    else None) (zip (seq 0 (length allTxs)) allTxs)).

(** ** Answers of the node *)

(** The senders of the transactions that were built, by the lower-case hash: every
    transaction is stored, over all rounds. *)
Definition storeSenders (allTxs : list rawTx) (txHashMap : gmap string string) : gmap string string :=
  foldl (fun m t => <[ToLower (rtHash t) := rtAddr t]> m) txHashMap allTxs.

Definition senderOf (txHashMap : gmap string string) (txHashHex : string) : string :=
  default "unknown"%string (txHashMap !! ToLower txHashHex).

Record rejection := mkRejection { rejHash : bytes; rejCode : Z; rejDescription : string }.

Inductive reply := Rejected (r : rejection) | OtherCommand (command : string).

Section Reader.
Context `{NetProto} (unmarshalTxErr : bytes -> option rejection).

Definition maxReply : Z := 10 * 1024 * 1024.

(** What is printed of a message. *)
Definition replyOf (msgBuf : bytes) : option reply :=
  msg ← unmarshalMessage msgBuf;
  h ← pHeader msg;
  if bool_decide (hCommand h = "TransactionError"%string) then Rejected <$> unmarshalTxErr (pBody msg)
  else if bool_decide (hCommand h <> "Receipt"%string) then Some (OtherCommand (hCommand h))
  else None.

(** The goroutine of a connection that reads, on the bytes that it gets. *)
Fixpoint readReplies (fuel : nat) (input : bytes) : list reply :=
  match fuel with
  | O => []
  | S fuel =>
      if (length input <? 8)%nat then []
      else
        let msgLen := undigits 256 (take 8 input) in
        let rest := drop 8 input in
        if maxReply <? msgLen then []
        else if (length rest <? Z.to_nat msgLen)%nat then []
        else option_list (replyOf (take (Z.to_nat msgLen) rest)) ++ readReplies fuel (drop (Z.to_nat msgLen) rest)
  end.
End Reader.

(** Whether an answer makes the nonces be compared. *)
Definition triggersCheck (r : reply) : bool :=
  match r with Rejected r => contains "invalid nonce" (ToLower (rejDescription r)) | OtherCommand _ => false end.

(** *** At most one comparison in five seconds *)

(** A goroutine of [nonceCheckerFn]: it reads the clock, then the time of the last check,
    then tries to replace it. *)
Inductive checker :=
| ChkClock
| ChkLoad (nowMs : Z)
| ChkSwap (nowMs last : Z)
| ChkEnd (checked : bool).

Record ChkState := mkChk { lastCheck : Z; goroutines : list checker; checks : list Z }.

Inductive chkStep : ChkState -> ChkState -> Prop :=
| chkNew s : chkStep s (mkChk (lastCheck s) (goroutines s ++ [ChkClock]) (checks s))
| chkClock s i now : goroutines s !! i = Some ChkClock ->
    chkStep s (mkChk (lastCheck s) (<[i := ChkLoad now]> (goroutines s)) (checks s))
| chkLoad s i now : goroutines s !! i = Some (ChkLoad now) ->
    chkStep s (mkChk (lastCheck s)
      (<[i := if now - lastCheck s <? 5000 then ChkEnd false else ChkSwap now (lastCheck s)]> (goroutines s)) (checks s))
| chkSwapped s i now last : goroutines s !! i = Some (ChkSwap now last) -> lastCheck s = last ->
    chkStep s (mkChk now (<[i := ChkEnd true]> (goroutines s)) (checks s ++ [now]))
| chkLost s i now last : goroutines s !! i = Some (ChkSwap now last) -> lastCheck s <> last ->
    chkStep s (mkChk (lastCheck s) (<[i := ChkEnd false]> (goroutines s)) (checks s)).

(** ** Targets *)

(** [connectAll]: every address once, in order. *)
Fixpoint connectLoop (seen : gset string) (addrs : list string) : list string :=
  match addrs with
  | [] => []
  | addr :: addrs =>
      let addr := TrimSpace addr in
      if bool_decide (addr = ""%string) || bool_decide (addr ∈ seen) then connectLoop seen addrs
      else addr :: connectLoop ({[addr]} ∪ seen) addrs
  end.

Definition connectAll (targetAddresses : list string) : list string := connectLoop ∅ targetAddresses.

(** The addresses that transactions are sent to; [others] are the addresses of the
    options [connection_node_*], in the order in which the map gives them. *)
Definition targetAddresses (nodeAddr : string) (isPrivateChain loadBalance : bool) (targetNode : Z)
  (privTcpList : list string) (parent : string) (others : list string) : list string :=
  if negb (bool_decide (nodeAddr = ""%string)) then splitOn "," nodeAddr
  else if isPrivateChain && negb (bool_decide (privTcpList = [])) then
    if negb loadBalance then
      let selIdx := if (targetNode <? 0) || (Z.of_nat (length privTcpList) <=? targetNode) then 0%nat else Z.to_nat targetNode in
      option_list (privTcpList !! selIdx)
    else privTcpList
  else
    parent :: (if loadBalance then filter (fun a => a <> ""%string) (TrimSpace <$> others) else []).

(** * The load generator: what is sent and what is confirmed

    The transactions that are built follow the nonces of their accounts without a gap or
    a repetition; the batches are the transactions in order, each on one connection; what a
    connection that does not fail carries is what the node reads; and a round that is
    reported as confirmed has found every transaction in a block. *)

(** ** Nonces *)

Section Built.
Context {key : Type} (decodeKey : string -> option key) (sign : key -> Z -> string -> option (bytes * string)).
Context (recipient : string) (toSend : list AccountInfo) (nonces : gmap string Z).

(** How many of [accs] use up a nonce of an address. *)
Definition uses (addr : string) (accs : list AccountInfo) : nat :=
  length (filter (fun a => aAddress a = addr /\ is_Some (decodeKey (PrivateKey a))) accs).

(** The transaction of the account at position [i]: its nonce is the one fetched for
    the address plus the number of its earlier transactions. *)
Definition planned (i : nat) : option rawTx :=
  acc ← toSend !! i;
  k ← decodeKey (PrivateKey acc);
  n ← nonces !! aAddress acc;
  '(b, h) ← sign k (wrap64 (n + Z.of_nat (uses (aAddress acc) (take i toSend)))) (targetOf recipient toSend i acc);
  Some (mkRawTx b (aAddress acc) h (targetOf recipient toSend i acc)).

Definition noncesAfter (pre : list AccountInfo) (m : gmap string Z) : Prop :=
  forall addr n, nonces !! addr = Some n -> m !! addr = Some (wrap64 (n + Z.of_nat (uses addr pre))).

Lemma uses_snoc addr pre acc : uses addr (pre ++ [acc]) =
  (uses addr pre + if bool_decide (aAddress acc = addr /\ is_Some (decodeKey (PrivateKey acc))) then 1 else 0)%nat.
Proof. unfold uses. rewrite filter_app, length_app, filter_cons, filter_nil. case_bool_decide; case_decide; done. Qed.

Lemma noncesAfter_skip pre acc m : decodeKey (PrivateKey acc) = None -> noncesAfter pre m -> noncesAfter (pre ++ [acc]) m.
Proof.
  intros Hk Hm addr n Hn. rewrite uses_snoc, bool_decide_eq_false_2 by (intros [_ [? ?]]; congruence).
  rewrite Nat.add_0_r. by apply Hm.
Qed.

Lemma noncesAfter_use pre acc m k n : decodeKey (PrivateKey acc) = Some k -> nonces !! aAddress acc = Some n ->
  noncesAfter pre m ->
  noncesAfter (pre ++ [acc]) (<[aAddress acc := wrap64 (wrap64 (n + Z.of_nat (uses (aAddress acc) pre)) + 1)]> m).
Proof.
  intros Hk Hn Hm addr n' Hn'. rewrite uses_snoc. destruct (decide (aAddress acc = addr)) as [<-|Hne].
  - rewrite lookup_insert_eq, bool_decide_eq_true_2 by (split; [done|by eexists]). simplify_eq. f_equal.
    unfold wrap64. rewrite Zplus_mod_idemp_l. f_equal. lia.
  - rewrite lookup_insert_ne, bool_decide_eq_false_2 by tauto. rewrite Nat.add_0_r. by apply Hm.
Qed.

Lemma buildLoop_planned accs pre m :
  toSend = pre ++ accs -> Forall (fun a => is_Some (nonces !! aAddress a)) accs -> noncesAfter pre m ->
  (buildLoop decodeKey sign recipient toSend m (length pre) accs).2 = omap planned (seq (length pre) (length accs)).
Proof.
  revert pre m. induction accs as [|acc accs IH]; intros pre m Ht Hall Hm; [done|]. inversion_clear Hall as [|? ? [n Hn] Hrest].
  assert (Hat : toSend !! length pre = Some acc) by (rewrite Ht; by apply list_lookup_middle).
  assert (Htake : take (length pre) toSend = pre) by (rewrite Ht; by rewrite take_app_length).
  assert (Ht' : toSend = (pre ++ [acc]) ++ accs) by (by rewrite Ht, <- app_assoc).
  assert (Hlen : S (length pre) = length (pre ++ [acc])) by (rewrite length_app; simpl; lia).
  cbn [buildLoop length seq omap list_omap]. unfold buildOne.
  assert (Hp : planned (length pre) = (k ← decodeKey (PrivateKey acc);
      '(b, h) ← sign k (wrap64 (n + Z.of_nat (uses (aAddress acc) pre))) (targetOf recipient toSend (length pre) acc);
      Some (mkRawTx b (aAddress acc) h (targetOf recipient toSend (length pre) acc)))).
  { unfold planned. rewrite Hat, Htake. cbn. destruct (decodeKey _); [|done]. cbn. by rewrite Hn. }
  rewrite Hp, Hlen. destruct (decodeKey (PrivateKey acc)) as [k|] eqn:Hk.
  2:{ specialize (IH _ _ Ht' Hrest (noncesAfter_skip _ _ _ Hk Hm)). cbn. destruct (buildLoop _ _ _ _ m _ _). cbn in *. by rewrite IH. }
  rewrite (Hm _ _ Hn). cbn [default from_option id mbind option_bind].
  specialize (IH _ _ Ht' Hrest (noncesAfter_use _ _ _ _ _ Hk Hn Hm)).
  destruct (sign _ _ _) as [[b h]|]; cbn; destruct (buildLoop _ _ _ _ _ _ _); cbn in *; by rewrite IH.
Qed.

(** When a nonce is known for every account that sends, the loop that
    counts nonces up builds exactly the planned transactions: the one at position [i]
    carries the nonce that the node gave for its address plus the number of earlier
    transactions of that address in the round. *)
Theorem build_planned :
  Forall (fun a => is_Some (nonces !! aAddress a)) toSend -> map_Forall (fun _ n => 0 <= n < 2 ^ 64) nonces ->
  (buildTxs decodeKey sign recipient toSend nonces).2 = omap planned (seq 0 (length toSend)).
Proof.
  intros Hall Hr. apply (buildLoop_planned toSend []); [done|done|]. intros addr n Hn. rewrite Hn.
  cbn. rewrite Z.add_0_r. f_equal. symmetry. apply Z.mod_small. by apply (Hr addr).
Qed.
End Built.

Lemma NoDup_fmap_omap {A B C} `{!EqDecision C} (f : B -> C) (g : A -> option B) (l : list A) : NoDup l ->
  NoDup (f <$> omap g l) \/ exists i j x y, i ∈ l /\ j ∈ l /\ i <> j /\ g i = Some x /\ g j = Some y /\ f x = f y.
Proof.
  induction 1 as [|i l Hi Hl IH]; [left; constructor|].
  destruct IH as [Hn|(a & b & x & y & Ha & Hb & Hr)]; [|right; exists a, b, x, y; split_and!; [by right|by right|naive_solver..]].
  cbn. destruct (g i) as [x|] eqn:Hx; [|by left]. cbn. destruct (decide (f x ∈ f <$> omap g l)) as [Hin|Hno]; [|left; by constructor].
  right. apply list_elem_of_fmap in Hin as (y & Hf & (j & Hj & Hy)%list_elem_of_omap).
  exists i, j, x, y. split_and!; [left|by right|congruence|done..].
Qed.

Section Distinct.
Context {key : Type} (decodeKey : string -> option key) (sign : key -> Z -> string -> option (bytes * string)).
Context (recipient : string) (toSend : list AccountInfo) (nonces : gmap string Z).

(** The key and the nonce with which the transaction at position [i] is signed. *)
Definition plannedInput (i : nat) : option (key * Z) :=
  acc ← toSend !! i;
  k ← decodeKey (PrivateKey acc);
  n ← nonces !! aAddress acc;
  Some (k, wrap64 (n + Z.of_nat (uses decodeKey (aAddress acc) (take i toSend)))).

(** Two transactions of the round that are signed with different keys or nonces and
    have the same hash. *)
Definition hashClash : Prop := exists i j ti tj,
  planned decodeKey sign recipient toSend nonces i = Some ti /\ planned decodeKey sign recipient toSend nonces j = Some tj /\
  plannedInput i <> plannedInput j /\ ToLower (rtHash ti) = ToLower (rtHash tj).

(** One key is listed under one address. *)
Definition keysMatch : Prop := forall a a' k, a ∈ toSend -> a' ∈ toSend ->
  decodeKey (PrivateKey a) = Some k -> decodeKey (PrivateKey a') = Some k -> aAddress a = aAddress a'.

Lemma uses_bound addr accs : (uses decodeKey addr accs <= length accs)%nat.
Proof. apply length_filter. Qed.

Lemma uses_lt i j acc k : toSend !! i = Some acc -> decodeKey (PrivateKey acc) = Some k -> (i < j)%nat ->
  (uses decodeKey (aAddress acc) (take i toSend) < uses decodeKey (aAddress acc) (take j toSend))%nat.
Proof.
  intros Hi Hk Hj. replace (take j toSend) with (take (S i) toSend ++ drop (S i) (take j toSend)).
  2:{ rewrite <- (take_drop (S i) (take j toSend)) at 2. f_equal. rewrite take_take. f_equal. lia. }
  rewrite (take_S_r _ _ _ Hi). unfold uses at 2. rewrite filter_app, length_app. fold (uses decodeKey (aAddress acc) (take i toSend ++ [acc])).
  rewrite uses_snoc, bool_decide_eq_true_2 by (split; [done|by eexists]). lia.
Qed.

Lemma planned_inv i t : planned decodeKey sign recipient toSend nonces i = Some t -> exists acc k n b,
  toSend !! i = Some acc /\ decodeKey (PrivateKey acc) = Some k /\ nonces !! aAddress acc = Some n /\ rtAddr t = aAddress acc /\
  sign k (wrap64 (n + Z.of_nat (uses decodeKey (aAddress acc) (take i toSend)))) (targetOf recipient toSend i acc) = Some (b, rtHash t).
Proof.
  unfold planned. intros Ht. destruct (toSend !! i) as [acc|]; [|done]. cbn in Ht.
  destruct (decodeKey (PrivateKey acc)) as [k|] eqn:Hk; [|done]. cbn in Ht.
  destruct (nonces !! aAddress acc) as [n|] eqn:Hn; [|done]. cbn in Ht.
  destruct (sign _ _ _) as [[b h]|] eqn:Hs; [|done]. cbn in Ht. simplify_eq. by exists acc, k, n, b.
Qed.

Lemma plannedInput_ne i j ti tj : Z.of_nat (length toSend) < 2 ^ 64 -> keysMatch -> (i < j)%nat ->
  planned decodeKey sign recipient toSend nonces i = Some ti -> planned decodeKey sign recipient toSend nonces j = Some tj ->
  plannedInput i <> plannedInput j.
Proof.
  intros Hlen Hk Hij (a & k & n & b & Ha & Hka & Hn & _ & Hs)%planned_inv (a' & k' & n' & b' & Ha' & Hka' & Hn' & _ & Hs')%planned_inv.
  unfold plannedInput. rewrite Ha, Ha'. cbn. rewrite Hka, Hka'. cbn. rewrite Hn, Hn'. cbn. intros [= -> Hw].
  assert (Haddr : aAddress a = aAddress a').
  { eapply Hk; [by eapply list_elem_of_lookup_2|by eapply list_elem_of_lookup_2|done|done]. }
  rewrite <- Haddr in *. simplify_eq. pose proof (uses_lt i j a k' Ha Hka Hij) as Hlt.
  pose proof (uses_bound (aAddress a) (take j toSend)) as Hb. rewrite length_take in Hb.
  unfold wrap64 in Hw. apply (f_equal (fun z => (z - n) mod 2 ^ 64)) in Hw.
  rewrite !Zminus_mod_idemp_l in Hw. rewrite !Z.mod_small in Hw by lia. lia.
Qed.

Lemma planned_distinct : Z.of_nat (length toSend) < 2 ^ 64 -> keysMatch ->
  NoDup ((fun t => ToLower (rtHash t)) <$> omap (planned decodeKey sign recipient toSend nonces) (seq 0 (length toSend))) \/ hashClash.
Proof.
  intros Hlen Hk. destruct (NoDup_fmap_omap (fun t => ToLower (rtHash t)) (planned decodeKey sign recipient toSend nonces) (seq 0 (length toSend)))
    as [?|(i & j & ti & tj & _ & _ & Hne & Hi & Hj & He)]; [apply NoDup_ListNoDup, seq_NoDup|by left|right].
  exists i, j, ti, tj. split_and!; [done..| |done]. destruct (decide (i < j)%nat); [by eapply plannedInput_ne|].
  apply not_eq_sym. eapply plannedInput_ne; [done..| |done|done]. lia.
Qed.
End Distinct.

(** The workers that ask for the nonces leave none out. *)
Lemma fetchAll_sub answer toSend order m m' : fetchAll answer toSend order m = Some m' ->
  (forall addr, is_Some (m !! addr) -> is_Some (m' !! addr)) /\
  (forall i acc, i ∈ order -> toSend !! i = Some acc -> is_Some (m' !! aAddress acc)).
Proof.
  revert m. induction order as [|i order IH]; intros m Hf; cbn in Hf.
  - simplify_eq. split; [done|]. intros i acc Hi. by apply elem_of_nil in Hi.
  - destruct (toSend !! i) as [acc|] eqn:Ha; [|done]. destruct (answer i) as [n| | |]; [|done..].
    destruct (IH _ Hf) as [IH1 IH2]. split.
    + intros addr Hs. apply IH1. apply lookup_insert_is_Some'. by right.
    + intros j acc' [->|Hj]%elem_of_cons Hj'; [|by eapply IH2]. simplify_eq. apply IH1. apply lookup_insert_is_Some'. by left.
Qed.

Lemma fetchAll_known answer toSend order m : seq 0 (length toSend) ⊆ order -> fetchAll answer toSend order ∅ = Some m ->
  Forall (fun a => is_Some (m !! aAddress a)) toSend.
Proof.
  intros Ho Hf. apply Forall_lookup. intros i acc Hi. destruct (fetchAll_sub _ _ _ _ _ Hf) as [_ H2].
  eapply H2; [|done]. apply Ho. apply elem_of_seq. apply lookup_lt_Some in Hi. lia.
Qed.

Lemma fetchAll_range answer toSend order m m' : (forall i n, answer i = Ok n -> 0 <= n < 2 ^ 64) ->
  map_Forall (fun _ n => 0 <= n < 2 ^ 64) m -> fetchAll answer toSend order m = Some m' ->
  map_Forall (fun _ n => 0 <= n < 2 ^ 64) m'.
Proof.
  intros Ha. revert m. induction order as [|i order IH]; intros m Hm Hf; cbn in Hf; [by simplify_eq|].
  destruct (toSend !! i) as [acc|]; [|done]. destruct (answer i) as [n| | |] eqn:En; [|done..].
  eapply IH; [|done]. apply map_Forall_insert_2; [by eapply Ha|done].
Qed.

Lemma fetchNonceLoop_range tries retry state expectedNonce n :
  fetchNonceLoop tries retry state expectedNonce = Ok n -> 0 <= n < 2 ^ 64.
Proof.
  revert retry. induction tries as [|tries IH]; intros retry Hf; cbn in Hf; [done|].
  repeat (case_match; simplify_eq; try (by eapply IH)); unfold wrap64; by apply Z.mod_pos_bound.
Qed.

(** Where the nonces of the map come from. *)
Lemma fetchAll_from answer toSend order m m' addr n : fetchAll answer toSend order m = Some m' -> m' !! addr = Some n ->
  m !! addr = Some n \/ exists i acc, toSend !! i = Some acc /\ aAddress acc = addr /\ answer i = Ok n.
Proof.
  revert m. induction order as [|i order IH]; intros m Hf Hn; cbn in Hf; [simplify_eq; by left|].
  destruct (toSend !! i) as [acc|] eqn:Ha; [|done]. destruct (answer i) as [x| | |] eqn:Hx; [|done..].
  destruct (IH _ Hf Hn) as [H1|H1]; [|by right]. destruct (decide (aAddress acc = addr)) as [He|He].
  - subst addr. rewrite lookup_insert_eq in H1. simplify_eq. right. by exists i, acc.
  - rewrite lookup_insert_ne in H1 by done. by left.
Qed.

Lemma fetchNonceLoop_fresh tries retry state e n : 0 <= e ->
  (forall k a, state k = Ok (Some a) -> - 2 ^ 63 <= asNonce a < 2 ^ 63) ->
  fetchNonceLoop tries retry state e = Ok n -> e <= n.
Proof.
  intros He Hs. revert retry. induction tries as [|tries IH]; intros retry Hf; cbn in Hf; [done|].
  destruct (state retry) as [[a|]| | |] eqn:Ha; try done; try (destruct tries; [done|by eapply IH]).
  destruct (Z.leb_spec 0 e); [|lia]. destruct (Z.ltb_spec (asNonce a) e); cbn in Hf; [destruct tries; [done|by eapply IH]|].
  injection Hf as <-. specialize (Hs _ _ Ha). unfold wrap64. rewrite Z.mod_small by lia. lia.
Qed.

Lemma fetchNonce_fresh state e n : 0 <= e -> (forall k a, state k = Ok (Some a) -> - 2 ^ 63 <= asNonce a < 2 ^ 63) ->
  fetchNonce state e = Ok n -> e <= n.
Proof. apply fetchNonceLoop_fresh. Qed.

(** A round never goes back behind the nonces that the last one used: what is fetched for
    an address is at least the nonce after its last transaction. *)
Theorem round_advances state old toSend order m acc n0 :
  (forall i k a, state i k = Ok (Some a) -> - 2 ^ 63 <= asNonce a < 2 ^ 63) ->
  seq 0 (length toSend) ⊆ order -> refetchAll state old toSend order = Some m -> acc ∈ toSend ->
  old !! aAddress acc = Some n0 -> 0 <= n0 < 2 ^ 63 -> exists n, m !! aAddress acc = Some n /\ n0 <= n.
Proof.
  intros Hs Ho Hf Ha Hn0 Hr. unfold refetchAll in Hf.
  pose proof (fetchAll_known _ _ _ _ Ho Hf) as Hk. rewrite Forall_forall in Hk. destruct (Hk acc Ha) as [n Hn].
  exists n. split; [done|]. destruct (fetchAll_from _ _ _ _ _ _ _ Hf Hn) as [He|(i & acc' & Hi & Haddr & Hx)]; [by rewrite lookup_empty in He|].
  rewrite Hi in Hx. rewrite Haddr, Hn0 in Hx. cbn [from_option] in Hx. rewrite to_int64_id in Hx by lia.
  apply (fetchNonce_fresh (state i) n0 n); [lia|apply Hs|exact Hx].
Qed.

(** ** Batches and connections *)

Lemma batchesFrom_spec {A} fuel size i (txs : list A) : (0 < size)%nat -> (length txs <= i + fuel)%nat ->
  mjoin (batchesFrom fuel size i txs) = drop i txs /\
  Forall (fun b => 0 < length b <= size)%nat (batchesFrom fuel size i txs) /\
  forall k b, batchesFrom fuel size i txs !! k = Some b -> b = take size (drop (i + k * size) txs).
Proof.
  intros Hs. revert i. induction fuel as [|fuel IH]; intros i Hf; cbn [batchesFrom].
  { split_and!; [by rewrite drop_ge by lia|constructor|done]. }
  destruct (Nat.ltb_spec i (length txs)) as [Hi|Hi]; [|split_and!; [by rewrite drop_ge by lia|constructor|done]].
  destruct (IH (i + size)%nat) as (IHj & IHs & IHk); [lia|].
  set (e := if (length txs <? i + size)%nat then length txs else (i + size)%nat). assert (He : take (e - i) (drop i txs) = take size (drop i txs)).
  { unfold e. destruct (Nat.ltb_spec (length txs) (i + size)); [|f_equal; lia].
    rewrite !take_ge by (rewrite length_drop; lia). done. }
  rewrite He. split_and!.
  - change (take size (drop i txs) ++ mjoin (batchesFrom fuel size (i + size) txs) = drop i txs).
    rewrite IHj, <- drop_drop. apply take_drop.
  - constructor; [|done]. rewrite length_take, length_drop. lia.
  - intros [|k] b Hb; cbn in Hb; [simplify_eq; by rewrite Nat.mul_0_l, Nat.add_0_r|].
    rewrite (IHk _ _ Hb). f_equal. f_equal. lia.
Qed.

Lemma shareFrom_spec fuel n i count k : (0 < n)%nat -> (count <= i + fuel)%nat ->
  k ∈ shareFrom fuel n i count <-> (i <= k < count)%nat /\ (exists q, k = i + q * n)%nat.
Proof.
  intros Hn. revert i. induction fuel as [|fuel IH]; intros i Hf; cbn [shareFrom].
  { rewrite elem_of_nil. split; [done|lia]. }
  destruct (Nat.ltb_spec i count) as [Hi|Hi]; [|rewrite elem_of_nil; split; [done|lia]].
  rewrite elem_of_cons, IH by lia. split.
  - intros [->|(? & q & ->)]; [split; [lia|by exists 0%nat]|]. split; [lia|]. exists (S q). lia.
  - intros (Hk & [|q] & ->); [left; lia|right]. split; [nia|]. exists q. lia.
Qed.

Lemma sendBatchSize_pos batchSize : (0 < sendBatchSize batchSize <= 1000)%nat.
Proof. unfold sendBatchSize. destruct (Z.leb_spec batchSize 0), (Z.ltb_spec 1000 batchSize); cbn; lia. Qed.

(** Every batch goes out on one connection, the same one that the final diagnosis
    names for its transactions. *)
Theorem batch_on_one_connection {A} batchSize n (txs : list A) (k : nat) :
  (0 < n)%nat -> (k < length (batchesOf (sendBatchSize batchSize) txs))%nat ->
  (forall c, (c < n)%nat ->
    k ∈ shareOf n c (length (batchesOf (sendBatchSize batchSize) txs)) <-> c = (k mod n)%nat) /\
  mjoin (batchesOf (sendBatchSize batchSize) txs) = txs /\
  (forall idx t, txs !! idx = Some t -> (idx / sendBatchSize batchSize = k)%nat ->
    exists b, batchesOf (sendBatchSize batchSize) txs !! k = Some b /\ b !! (idx mod sendBatchSize batchSize)%nat = Some t).
Proof.
  intros Hn Hk. pose proof (sendBatchSize_pos batchSize) as Hs. set (size := sendBatchSize batchSize) in *.
  destruct (batchesFrom_spec (length txs) size 0 txs) as (Hj & _ & Hat); [lia|lia|]. split_and!; [|done|].
  - intros c Hc. unfold shareOf. rewrite shareFrom_spec by lia. split.
    + intros (_ & q & ->). by rewrite Nat.Div0.mod_add, Nat.mod_small.
    + intros ->. split; [split; [apply Nat.Div0.mod_le|done]|]. exists (k / n)%nat.
      rewrite (Nat.div_mod_eq k n) at 1. lia.
  - intros idx t Ht Hi. apply lookup_lt_is_Some in Hk as [b Hb]. exists b. split; [done|].
    rewrite (Hat _ _ Hb), lookup_take_lt by (apply Nat.mod_upper_bound; lia). rewrite lookup_drop.
    rewrite <- Ht. f_equal. rewrite (Nat.div_mod_eq idx size) at 2. rewrite Hi. lia.
Qed.

(** The alerts divide by the size that was asked for: beyond 1000 they name another
    connection than the one that sent the transaction. *)
Definition plainTx (h : string) : rawTx := mkRawTx [] "a" h "b".

Definition manyTxs : list rawTx := replicate 1500 (plainTx "x") ++ [plainTx "late"].

Example alert_names_wrong_connection :
  stuckTxs 5 {["late"%string]} 2 2000 manyTxs = [("late"%string, Some 0%nat)] /\
  stuckTxs 5 {["late"%string]} 2 (Z.of_nat (sendBatchSize 2000)) manyTxs = [("late"%string, Some 1%nat)] /\
  shareOf 2 1 (length (batchesOf (sendBatchSize 2000) manyTxs)) = [1%nat].
Proof. vm_compute. done. Qed.

(** ** A connection that does not fail *)

Section Writing.
Context `{NetProto} (size : nat) (version : string) (toAddress : bytes).

(** What a writer has been given, on a connection that takes everything. *)
Definition given (rw : rawWriter) : bytes := wire (rwConn rw) ++ rwBuf rw.
Definition healthy (rw : rawWriter) : Prop := rwFailed rw = false /\ room (rwConn rw) = None.

Lemma connWrite_open p c : room c = None -> connWrite p c = (mkConn (wire c ++ p) None, true).
Proof. intros Hr. unfold connWrite. by rewrite Hr. Qed.

Lemma flush_healthy rw : healthy rw -> exists rw', flush rw = (rw', true) /\ healthy rw' /\ given rw' = given rw /\ rwBuf rw' = [].
Proof.
  intros [Hf Hr]. unfold flush. rewrite Hf. destruct (rwBuf rw) as [|x b] eqn:Hb.
  - exists rw. done.
  - rewrite connWrite_open by done. eexists. split; [done|]. split; [done|]. split; [|done].
    unfold given. cbn. by rewrite Hb, app_nil_r.
Qed.

Lemma writerWrite_healthy p rw : (0 < size)%nat -> healthy rw -> exists rw',
  writerWrite size p rw = (rw', true) /\ healthy rw' /\ given rw' = given rw ++ p.
Proof.
  intros Hs [Hf Hr]. unfold writerWrite. cbn [bufWrite]. rewrite Hf.
  destruct (Nat.leb_spec (length p) (size - length (rwBuf rw))) as [Hl|Hl].
  { eexists. split; [done|]. split; [done|]. unfold given. cbn. by rewrite app_assoc. }
  destruct (rwBuf rw) as [|x b] eqn:Hb.
  { rewrite connWrite_open by done. eexists. split; [done|]. split; [done|]. unfold given. cbn. by rewrite Hb, !app_nil_r. }
  rewrite <- Hb in *. set (av := (size - length (rwBuf rw))%nat) in *.
  destruct (flush_healthy (mkRW (rwBuf rw ++ take av p) false (rwConn rw))) as (rw1 & -> & [Hf1 Hr1] & Hg & Hb1); [done|].
  rewrite Hf1, Hb1. cbn [length]. unfold given in Hg. cbn [rwConn rwBuf] in Hg. rewrite Hb1, app_nil_r in Hg.
  destruct (Nat.leb_spec (length (drop av p)) (size - 0)).
  - eexists. split; [done|]. split; [done|]. unfold given. cbn. rewrite Hg, <- !app_assoc. by rewrite take_drop.
  - rewrite connWrite_open by done. eexists. split; [done|]. split; [done|]. unfold given. cbn.
    rewrite Hg, app_nil_r, <- !app_assoc. by rewrite take_drop.
Qed.

Lemma sendRaw_healthy cmd uuid body b rw : (0 < size)%nat -> healthy rw ->
  marshalMessage (messageOf version toAddress cmd uuid body) = Some b -> exists rw',
  sendRaw size version toAddress cmd uuid body rw = (rw', true) /\ healthy rw' /\ given rw' = given rw ++ frame b.
Proof.
  intros Hs Hh Hb. unfold sendRaw. rewrite Hb.
  destruct (writerWrite_healthy (leBytes 8 (wrap64 (Z.of_nat (length b)))) rw Hs Hh) as (rw1 & -> & Hh1 & Hg1).
  destruct (writerWrite_healthy b rw1 Hs Hh1) as (rw2 & -> & Hh2 & Hg2). exists rw2. split; [done|]. split; [done|].
  rewrite Hg2, Hg1. unfold frame. by rewrite app_assoc.
Qed.

Context (dial : nat -> option (option nat)) (initBody : bytes) (uuid : nat -> string).
Context (config : Config).

(** A target's messages: the init message, then the batches from number [i] on. *)
Definition initMessage : Message := Some (messageOf version toAddress "InitConnection" (uuid 0%nat) initBody).

Fixpoint batchMessages (i : nat) (batches : list (nat * bytes)) : list Message :=
  match batches with
  | [] => []
  | (_, batch) :: batches =>
      Some (messageOf version toAddress "SendRawTransactions" (uuid (S i)) batch) :: batchMessages (S i) batches
  end.

(** The client after [ms] went out on its first connection. *)
Definition carried (ms : list Message) (sent : nat) (c : Client) : Prop :=
  cClosed c = [] /\ cDials c = 1%nat /\ cSent c = sent /\
  exists rw, cRw c = Some rw /\ healthy rw /\ rwBuf rw = [] /\ wire (rwConn rw) = framesOf ms.

Lemma framesOf_snoc ms m : framesOf (ms ++ [m]) = framesOf ms ++ frame (encoding m).
Proof.
  induction ms as [|m' ms IH]; [apply app_nil_r|].
  change (frame (encoding m') ++ framesOf (ms ++ [m]) = (frame (encoding m') ++ framesOf ms) ++ frame (encoding m)).
  by rewrite IH, app_assoc.
Qed.

Lemma sendable_marshals p : sendable config (Some p) -> marshalMessage p = Some (encoding (Some p)).
Proof. intros (p' & b & [= <-] & _ & _ & Hb & _). unfold encoding, Msg_Marshal. by rewrite Hb. Qed.

Lemma send_flush cmd id body rw ms : (0 < size)%nat -> sendable config (Some (messageOf version toAddress cmd id body)) ->
  healthy rw -> rwBuf rw = [] -> wire (rwConn rw) = framesOf ms -> exists rw1 rw2,
  sendRaw size version toAddress cmd id body rw = (rw1, true) /\ flush rw1 = (rw2, true) /\ healthy rw2 /\ rwBuf rw2 = [] /\
  wire (rwConn rw2) = framesOf (ms ++ [Some (messageOf version toAddress cmd id body)]).
Proof.
  intros Hs Hm Hh Hb Hw. destruct (sendRaw_healthy cmd id body _ rw Hs Hh (sendable_marshals _ Hm)) as (rw1 & H1 & Hh1 & Hg1).
  destruct (flush_healthy rw1 Hh1) as (rw2 & H2 & Hh2 & Hg2 & Hb2). exists rw1, rw2. split_and!; [done..|].
  unfold given in *. rewrite Hb2, app_nil_r in Hg2. rewrite Hg2, Hg1, Hb, app_nil_r, Hw. by rewrite framesOf_snoc.
Qed.

Lemma connect_carried attempts : (0 < size)%nat -> dial 0%nat = Some None -> sendable config initMessage ->
  exists c, reconnectNode size version toAddress dial initBody uuid (S attempts) (mkClient [] None 0 0) = Some c /\ carried [initMessage] 0 c.
Proof.
  intros Hs Hd Hm. destruct (send_flush _ _ _ (mkRW [] false (mkConn [] None)) [] Hs Hm) as (rw1 & rw2 & H1 & H2 & Hh & Hb & Hw); [done..|].
  cbn [reconnectNode cDials cClosed cSent]. rewrite Hd, H1, H2. eexists. split; [done|]. split_and!; [done..|]. by exists rw2.
Qed.

Lemma sendBatch_carried i count batch ms sent c : (0 < size)%nat ->
  sendable config (Some (messageOf version toAddress "SendRawTransactions" (uuid (S i)) batch)) -> carried ms sent c ->
  exists c', sendBatch size version toAddress dial initBody uuid i count batch c = Some c' /\
    carried (ms ++ [Some (messageOf version toAddress "SendRawTransactions" (uuid (S i)) batch)]) (sent + count) c'.
Proof.
  intros Hs Hm (Hcl & Hd & Hc & rw & Hrw & Hh & Hb & Hw).
  destruct (send_flush _ _ _ rw ms Hs Hm Hh Hb Hw) as (rw1 & rw2 & H1 & H2 & Hh2 & Hb2 & Hw2).
  unfold sendBatch. rewrite Hrw. cbn [mbind option_bind]. rewrite Hrw. cbn [mbind option_bind]. rewrite H1. cbn [mbind option_bind cRw].
  rewrite H2. eexists. split; [done|]. split_and!; cbn; [done|done|by rewrite Hc|]. by exists rw2.
Qed.

Lemma blast_carried stopped batches i ms sent c : (0 < size)%nat -> (forall k, stopped k = false) ->
  Forall (sendable config) (batchMessages i batches) -> carried ms sent c ->
  exists c', blast size version toAddress dial initBody uuid stopped batches i c = Some c' /\
    carried (ms ++ batchMessages i batches) (sent + sum_list (fst <$> batches)) c'.
Proof.
  intros Hs Hst. revert i ms sent c. induction batches as [|[count batch] batches IH]; intros i ms sent c Hall Hc.
  { exists c. split; [done|]. cbn. by rewrite app_nil_r, Nat.add_0_r. }
  inversion_clear Hall as [|? ? Hm Hrest]. cbn [blast]. rewrite Hst.
  destruct (sendBatch_carried i count batch ms sent c Hs Hm Hc) as (c1 & -> & Hc1). cbn [mbind option_bind].
  destruct (IH _ _ _ _ Hrest Hc1) as (c2 & -> & Hc2). exists c2. split; [done|].
  cbn [batchMessages]. rewrite <- app_assoc in Hc2. cbn in *. by rewrite Nat.add_assoc.
Qed.
End Writing.

(** On a connection that never fails, a target's goroutine ends and the
    node's read loop hands over the init message and then each batch of the target, once
    and in order; the count of transactions sent is the sum of the batches. *)
Theorem blast_received `{NetProtoLaws} size version toAddress dial initBody uuid config stopped batches :
  (0 < size)%nat -> MaxMessageLength config < 2 ^ 63 -> dial 0%nat = Some None -> (forall k, stopped k = false) ->
  Forall (sendable config) (initMessage version toAddress initBody uuid :: batchMessages version toAddress uuid 0 batches) ->
  exists c0 c rw,
    reconnectNode size version toAddress dial initBody uuid 30 (mkClient [] None 0 0) = Some c0 /\
    blast size version toAddress dial initBody uuid stopped batches 0 c0 = Some c /\
    cRw c = Some rw /\ cSent c = sum_list (fst <$> batches) /\
    readLoop config (fun _ => Delivered) (wire (rwConn rw)) =
      Ok (initMessage version toAddress initBody uuid :: batchMessages version toAddress uuid 0 batches, EndError EOF).
Proof.
  intros Hs Hmax Hd Hst Hall. pose proof (Forall_inv Hall) as Hi. pose proof (Forall_inv_tail Hall) as Hb.
  destruct (connect_carried size version toAddress dial initBody uuid config 29 Hs Hd Hi) as (c0 & Hc0 & Hca0).
  destruct (blast_carried size version toAddress dial initBody uuid config stopped batches 0 _ _ _ Hs Hst Hb Hca0) as (c & Hc & Hca).
  destruct Hca as (_ & _ & Hsent & rw & Hrw & _ & _ & Hw). exists c0, c, rw. split_and!; [done..|].
  rewrite Hw. unfold readLoop. rewrite <- (app_nil_r (framesOf _)).
  rewrite (readLoopFrom_frames _ _ _ _ EOF); [by rewrite deliver_all|done|done|by left|].
  rewrite app_nil_r. apply le_n_S, length_framesOf.
Qed.

Definition sampleBatches : list (nat * bytes) := [(2%nat, [1; 2; 3]); (1%nat, [4; 5])].
Definition sampleId (n : nat) : string := if (n =? 0)%nat then "id-0" else "id-n".
Definition sampleTo : bytes := replicate 20 7.

Lemma blast_received_witness : exists c0 c rw,
  reconnectNode 64 "1" sampleTo (fun _ => Some None) [9] sampleId 30 (mkClient [] None 0 0) = Some c0 /\
  blast 64 "1" sampleTo (fun _ => Some None) [9] sampleId (fun _ => false) sampleBatches 0 c0 = Some c /\
  cRw c = Some rw /\ cSent c = 3%nat /\
  readLoop (sampleConfig 1000) (fun _ => Delivered) (wire (rwConn rw)) =
    Ok (initMessage "1" sampleTo [9] sampleId :: batchMessages "1" sampleTo sampleId 0 sampleBatches, EndError EOF).
Proof.
  apply (blast_received 64 "1" sampleTo (fun _ => Some None) [9] sampleId (sampleConfig 1000) (fun _ => false) sampleBatches);
    [lia|by vm_compute|done|done|].
  repeat (apply Forall_cons; split; [eexists _, _; split_and!;
    [reflexivity|by eexists|by apply (bool_decide_unpack _); vm_compute|reflexivity|by vm_compute]|]). apply Forall_nil. exact I.
Defined.

(** *** A batch that is lost *)

(** The first connection takes the init message and breaks; later ones do not. *)
Definition breakingDial (n : nat) : option (option nat) := if (n =? 0)%nat then Some (Some 70%nat) else Some None.

Definition lossyRun : option Client :=
  c ← reconnectNode 1000 "1" sampleTo breakingDial [9] sampleId 30 (mkClient [] None 0 0);
  blast 1000 "1" sampleTo breakingDial [9] sampleId (fun _ => false) sampleBatches 0 c.

(** What the node reads on all connections of the run. *)
Definition receivedBodies (c : Client) : list bytes :=
  mjoin ((fun k => match readLoop (sampleConfig 1000) (fun _ => Delivered) (wire k) with
                   | Ok (ms, _) => (fun m => from_option pBody [] m) <$> ms
                   | _ => []
                   end) <$> (cClosed c ++ option_list (rwConn <$> cRw c))).

(** The write of a batch only fills the buffer; the flush that fails is not looked at, and
    the error shows at the next batch, which is the one that is sent again.  The first
    batch is lost, and counted. *)
Example failed_flush_loses_batch :
  cSent <$> lossyRun = Some 3%nat /\ receivedBodies <$> lossyRun = Some [[9]; [9]; [4; 5]].
Proof. vm_compute. done. Qed.

(** ** Confirmation *)

Definition hashesOf (blk : Block) : gset string := list_to_set (ToLower <$> Transactions blk).

Lemma union_difference_singleton_size (x : string) (E X : gset string) : x ∈ E ->
  size (E ∩ ({[x]} ∪ X)) = S (size ((E ∖ {[x]}) ∩ X)).
Proof.
  intros Hx. replace (E ∩ ({[x]} ∪ X)) with ({[x]} ∪ (E ∖ {[x]}) ∩ X).
  - rewrite size_union by set_solver. by rewrite size_singleton.
  - apply set_eq. intros y. destruct (decide (y = x)); set_solver.
Qed.

Lemma scanTxs_spec hashes expected count :
  scanTxs hashes expected count =
    (expected ∖ list_to_set (ToLower <$> hashes), count + Z.of_nat (size (expected ∩ list_to_set (ToLower <$> hashes)))).
Proof.
  revert expected count. induction hashes as [|h hashes IH]; intros expected count; cbn [scanTxs].
  { f_equal; [set_solver|]. replace (expected ∩ _) with (∅ : gset string) by set_solver. rewrite size_empty. lia. }
  rewrite fmap_cons, list_to_set_cons. case_bool_decide as Hin; rewrite IH; (f_equal; [set_solver|]).
  - set (X := list_to_set (ToLower <$> hashes)). rewrite <- Z.add_assoc. f_equal.
    rewrite (union_difference_singleton_size _ _ _ Hin). lia.
  - do 3 f_equal. set_solver.
Qed.

Section Confirm.
Context (epochWait maxWait startEpoch : Z) (txCount : nat) (start : Z) (E0 : gset string).

(** [log] holds the blocks after [start] that have been looked at, one per number. *)
Record scanned (log : list Block) (s : Poll) : Prop := {
  scanned_last : pLastBlock s = start + Z.of_nat (length log);
  scanned_expected : pExpected s = E0 ∖ ⋃ (hashesOf <$> log);
  scanned_total : pTotal s + Z.of_nat (size (pExpected s)) = Z.of_nat (size E0)
}.

Definition answered (inputs : list pollInput) (log : list Block) : Prop :=
  forall j blk, log !! j = Some blk -> exists i, i ∈ inputs /\ piBlock i (start + 1 + Z.of_nat j) = Ok (Some blk).

Lemma scanned_block now blk log s : scanned log s ->
  scanned (log ++ [blk]) (pollBlock epochWait startEpoch now (pLastBlock s + 1) blk s).
Proof.
  intros [Hl He Ht]. unfold pollBlock. rewrite scanTxs_spec. fold (hashesOf blk).
  pose proof (size_union_alt (pExpected s ∩ hashesOf blk) (pExpected s)) as Hu.
  split; cbn [pLastBlock pExpected pTotal].
  - rewrite length_app. cbn. lia.
  - rewrite He, fmap_app, union_list_app_L. cbn. set_solver.
  - replace (pExpected s ∩ hashesOf blk ∪ pExpected s) with (pExpected s) in Hu by set_solver.
    replace (pExpected s ∖ (pExpected s ∩ hashesOf blk)) with (pExpected s ∖ hashesOf blk) in Hu by set_solver. lia.
Qed.

Lemma answered_snoc inputs log i blk : answered inputs log -> i ∈ inputs ->
  piBlock i (start + 1 + Z.of_nat (length log)) = Ok (Some blk) -> answered inputs (log ++ [blk]).
Proof.
  intros Ha Hi Hb j b [Hj|[Hj He]]%lookup_app_Some; [by apply Ha|].
  destruct (j - length log)%nat eqn:Hd; [|done]. cbn in He. simplify_eq. exists i. split; [done|].
  by replace j with (length log) by lia.
Qed.

Lemma scanned_blocks i inputs n log s : i ∈ inputs -> scanned log s -> answered inputs log -> exists log',
  scanned log' (pollBlocks epochWait startEpoch (piNow i) (piBlock i) (seqZ (pLastBlock s + 1) (Z.of_nat n)) s) /\ answered inputs log'.
Proof.
  intros Hi. revert log s. induction n as [|n IH]; intros log s Hs Ha; [by exists log|].
  rewrite seqZ_cons by lia. cbn [pollBlocks].
  destruct (piBlock i (pLastBlock s + 1)) as [[blk|]| | |] eqn:Hb; [|by exists log..].
  destruct (IH (log ++ [blk]) (pollBlock epochWait startEpoch (piNow i) (pLastBlock s + 1) blk s)) as (log' & H1 & H2).
  - by apply scanned_block.
  - apply answered_snoc with i; [done|done|]. rewrite <- Hb. f_equal. rewrite (scanned_last _ _ Hs). lia.
  - exists log'. split; [|done]. unfold pollBlock in H1 |- *. destruct (scanTxs _ _ _). cbn [pLastBlock] in H1.
    replace (Z.pred (Z.of_nat (S n))) with (Z.of_nat n) by lia. by replace (Z.succ (pLastBlock s + 1)) with (pLastBlock s + 1 + 1) by lia.
Qed.

Lemma scanned_once i inputs log s s' e : i ∈ inputs -> scanned log s -> answered inputs log ->
  pollOnce epochWait maxWait startEpoch txCount i s = (s', e) ->
  (exists log', scanned log' s' /\ answered inputs log') /\ (e = Some PollDone -> Z.of_nat txCount <= pTotal s').
Proof.
  intros Hi Hs Ha. unfold pollOnce. destruct (piStop i); [intros; simplify_eq; naive_solver|].
  destruct (_ && _); [intros; simplify_eq; naive_solver|]. destruct (piNumber i) as [cur| | |]; [|intros; simplify_eq; naive_solver..].
  cbv zeta. set (to := if wrap64 (pLastBlock s + maxBlocksToQuery) <? cur then wrap64 (pLastBlock s + maxBlocksToQuery) else cur).
  destruct (pLastBlock s <? cur).
  - destruct (Z.ltb_spec to (pLastBlock s)); intros; simplify_eq; [naive_solver|]. split.
    + rewrite <- (Z2Nat.id (to - pLastBlock s)) by lia. by apply scanned_blocks with log.
    + destruct (Z.leb_spec (Z.of_nat txCount) (pTotal (pollBlocks epochWait startEpoch (piNow i) (piBlock i) (seqZ (pLastBlock s + 1) (to - pLastBlock s)) s))); done.
  - intros; simplify_eq. split; [by exists log|]. destruct (Z.leb_spec (Z.of_nat txCount) (pTotal s')); done.
Qed.

Lemma scanned_poll all inputs log s s' e : inputs ⊆ all -> scanned log s -> answered all log ->
  poll epochWait maxWait startEpoch txCount inputs s = (s', e) ->
  (exists log', scanned log' s' /\ answered all log') /\ (e = Some PollDone -> Z.of_nat txCount <= pTotal s').
Proof.
  revert log s. induction inputs as [|i inputs IH]; intros log s Hsub Hs Ha Hp; cbn [poll] in Hp.
  { simplify_eq. split; [by exists log|done]. }
  destruct (pollOnce _ _ _ _ i s) as [s1 e1] eqn:H1.
  destruct (scanned_once i all log s s1 e1) as [(log1 & Hs1 & Ha1) Hd]; [apply Hsub; left|done..|].
  destruct e1; [simplify_eq; split; [by exists log1|done]|]. eapply IH; [|done..]. intros x Hx. apply Hsub. by right.
Qed.
End Confirm.

Lemma elem_of_hash_union h log : h ∈ ⋃ (hashesOf <$> log) <-> exists j blk, log !! j = Some blk /\ h ∈ hashesOf blk.
Proof.
  rewrite elem_of_union_list. setoid_rewrite list_elem_of_fmap. split.
  - intros (X & (blk & -> & Hb) & Hh). apply list_elem_of_lookup_1 in Hb as [j Hj]. eauto.
  - intros (j & blk & Hj & Hh). exists (hashesOf blk). split; [|done]. exists blk. split; [done|]. by eapply list_elem_of_lookup_2.
Qed.

Lemma expectedOf_size allTxs : NoDup ((fun t => ToLower (rtHash t)) <$> allTxs) -> size (expectedOf allTxs) = length allTxs.
Proof. intros Hn. unfold expectedOf. by rewrite size_list_to_set, length_fmap. Qed.

(** Confirmed transactions: all of them, when the loop says so. *)
Lemma poll_confirms epochWait maxWait startEpoch start now allTxs inputs s e :
  NoDup ((fun t => ToLower (rtHash t)) <$> allTxs) ->
  poll epochWait maxWait startEpoch (length allTxs) inputs (pollStart epochWait start now allTxs) = (s, e) ->
  exists log, answered start inputs log /\ pLastBlock s = start + Z.of_nat (length log) /\
    (forall t, t ∈ allTxs -> ToLower (rtHash t) ∈ pExpected s <-> ~ exists j blk, log !! j = Some blk /\ ToLower (rtHash t) ∈ hashesOf blk) /\
    (e = Some PollDone -> pExpected s = ∅).
Proof.
  intros Hn Hp. eapply (scanned_poll _ _ _ _ start (expectedOf allTxs) inputs inputs []) in Hp as [(log & [Hl He Ht] & Ha) Hd].
  - exists log. split_and!; [done|done| |].
    + intros t Ht'. rewrite He, elem_of_difference, elem_of_hash_union. split; [tauto|]. intros Hno. split; [|done].
      unfold expectedOf. apply elem_of_list_to_set, list_elem_of_fmap. eauto.
    + intros Hdone. specialize (Hd Hdone). rewrite (expectedOf_size _ Hn) in Ht.
      apply leibniz_equiv, size_empty_iff. lia.
  - done.
  - split; cbn; [lia|set_solver|lia].
  - intros j blk Hj. done.
Qed.

(** C27 (safety). A round that ends as confirmed, for a list of accounts in which a private
    key stands under one address: with the nonces fetched for every account and the
    transactions built on them, each transaction was found in a block that the node
    answered with, after the block the round started from; or two transactions of the
    round, signed with different keys or nonces, have the same hash. *)
Theorem round_confirmed {key} (decodeKey : string -> option key) sign recipient toSend state order nonces
  epochWait maxWait startEpoch start now inputs s :
  let allTxs := (buildTxs decodeKey sign recipient toSend nonces).2 in
  Z.of_nat (length toSend) < 2 ^ 64 -> keysMatch decodeKey toSend ->
  seq 0 (length toSend) ⊆ order -> fetchAll (fun i => fetchNonce (state i) (-1)) toSend order ∅ = Some nonces ->
  poll epochWait maxWait startEpoch (length allTxs) inputs (pollStart epochWait start now allTxs) = (s, Some PollDone) ->
  (forall t, t ∈ allTxs -> exists i bn blk, i ∈ inputs /\ start < bn <= pLastBlock s /\
    piBlock i bn = Ok (Some blk) /\ ToLower (rtHash t) ∈ hashesOf blk) \/
  hashClash decodeKey sign recipient toSend nonces.
Proof.
  intros allTxs Hlen Hk Ho Hf Hp.
  assert (Hplan : allTxs = omap (planned decodeKey sign recipient toSend nonces) (seq 0 (length toSend))).
  { unfold allTxs, buildTxs. apply (buildLoop_planned decodeKey sign recipient toSend nonces toSend []); [done|by eapply fetchAll_known|].
    intros addr n Hn. cbn. rewrite Hn, Z.add_0_r. f_equal. symmetry. apply Z.mod_small.
    refine (fetchAll_range _ _ _ _ _ _ (map_Forall_empty _) Hf addr n Hn). intros i x. apply fetchNonceLoop_range. }
  destruct (planned_distinct decodeKey sign recipient toSend nonces Hlen Hk) as [Hd|]; [left|by right].
  rewrite <- Hplan in Hd. intros t Ht.
  destruct (poll_confirms _ _ _ _ _ _ _ _ _ Hd Hp) as (log & Ha & Hl & Hin & Hdone).
  specialize (Hin t Ht). rewrite (Hdone eq_refl) in Hin.
  destruct (decide (ToLower (rtHash t) ∈ ⋃ (hashesOf <$> log))) as [(j & blk & Hj & Hb)%elem_of_hash_union|Hno].
  - destruct (Ha j blk Hj) as (i & Hi & Hbn). exists i, (start + 1 + Z.of_nat j), blk. split_and!; [done|lia| |done|done].
    apply lookup_lt_Some in Hj. lia.
  - rewrite elem_of_hash_union in Hno. set_solver.
Qed.

(** One account that sends twice, to a chain that confirms in two blocks; a hash is one
    of two characters, by the parity of the nonce. *)
Definition paritySign (k : unit) (n : Z) (t : string) : option (bytes * string) :=
  Some ([], if Z.even n then "e"%string else "o"%string).

Definition oneAccount : AccountInfo := mkAccount 0 "k" "0xaa".

Lemma twice_only a : a ∈ [oneAccount; oneAccount] -> a = oneAccount.
Proof. rewrite !elem_of_cons, elem_of_nil. by intros [?|[?|[]]]. Qed.

Definition sampleInput : pollInput :=
  mkInput false 5 (Ok 12) (fun bn => Ok (Some (mkBlock bn "" 0 7 (if bn =? 11 then ["o"%string] else ["e"%string])))).

Definition sampleTxs : list rawTx :=
  (buildTxs (fun _ => Some tt) paritySign "" [oneAccount; oneAccount] {["0xaa"%string := 3]}).2.
Definition samplePoll : Poll * option pollEnd := poll 0 100 0 2 [sampleInput] (pollStart 0 10 1 sampleTxs).

Lemma round_confirmed_witness :
  Forall (fun t => exists i bn blk, i ∈ [sampleInput] /\ 10 < bn <= pLastBlock samplePoll.1 /\
    piBlock i bn = Ok (Some blk) /\ ToLower (rtHash t) ∈ hashesOf blk) sampleTxs.
Proof.
  apply Forall_forall.
  destruct (round_confirmed (fun _ => Some tt) paritySign "" [oneAccount; oneAccount]
    (fun _ _ => Ok (Some (mkAccState "" "0xaa" 3 ""))) [0%nat; 1%nat] {["0xaa"%string := 3]} 0 100 0 10 1 [sampleInput] samplePoll.1)
    as [Hr|(i & j & ti & tj & Hi & Hj & Hne & He)].
  - done.
  - intros a a' k Ha Ha'. by rewrite (twice_only a Ha), (twice_only a' Ha').
  - done.
  - vm_compute. reflexivity.
  - vm_compute. reflexivity.
  - exact Hr.
  - exfalso. destruct i as [|[|i]], j as [|[|j]]; vm_compute in Hi, Hj; simplify_eq; try done; vm_compute in He; done.
Defined.

Lemma build_planned_witness :
  (buildTxs (fun _ => Some tt) paritySign "" [oneAccount; oneAccount] {["0xaa"%string := 3]}).2 =
    omap (planned (fun _ => Some tt) paritySign "" [oneAccount; oneAccount] {["0xaa"%string := 3]}) [0%nat; 1%nat].
Proof.
  apply (build_planned (fun _ => Some tt) paritySign "" [oneAccount; oneAccount] {["0xaa"%string := 3]}).
  - by apply (bool_decide_unpack _); vm_compute.
  - apply map_Forall_singleton. lia.
Defined.

(** The two transactions carry the nonces 3 and 4. *)
Example sample_nonces :
  rtHash <$> (buildTxs (fun _ => Some tt) paritySign "" [oneAccount; oneAccount] {["0xaa"%string := 3]}).2 = ["o"; "e"]%string.
Proof. reflexivity. Qed.

(** An account whose signature fails still uses up its nonce: the next transaction of
    that account leaves a gap. *)
Example failed_sign_leaves_gap :
  rtHash <$> (buildTxs (fun _ => Some tt) (fun k n t => if n =? 3 then None else paritySign k n t) ""
    [oneAccount; oneAccount] {["0xaa"%string := 3]}).2 = ["e"%string].
Proof. reflexivity. Qed.

(** ** Answers and targets *)

Lemma frame_head (b rest : bytes) : Z.of_nat (length b) < 2 ^ 63 ->
  undigits 256 (take 8 (frame b ++ rest)) = Z.of_nat (length b) /\ drop 8 (frame b ++ rest) = b ++ rest.
Proof.
  intros Hl. unfold frame. rewrite <- app_assoc, take_app_length', drop_app_length' by (by rewrite length_leBytes). by rewrite frame_len.
Qed.

(** The reader reports exactly what the messages of the node say, in order, and stops at
    one that is longer than the limit. *)
Theorem replies_read `{NetProto} unmarshalTxErr (bs : list bytes) rest fuel :
  Forall (fun b => Z.of_nat (length b) <= maxReply) bs -> (length bs < fuel)%nat ->
  (rest = [] \/ exists big tail, rest = frame big ++ tail /\ maxReply < Z.of_nat (length big) < 2 ^ 64) ->
  readReplies unmarshalTxErr fuel (mjoin (frame <$> bs) ++ rest) = omap (replyOf unmarshalTxErr) bs.
Proof.
  intros Hbs. revert fuel. induction Hbs as [|b bs Hb Hbs IH]; intros fuel Hf Hr.
  - destruct fuel as [|fuel]; [done|]. cbn [fmap list_fmap mjoin list_join app omap list_omap readReplies].
    destruct Hr as [->|(big & tail & -> & Hbig)]; [done|]. rewrite length_app, length_frame. rewrite (proj2 (Nat.ltb_ge _ _)) by lia.
    unfold frame. rewrite <- app_assoc, take_app_length' by (by rewrite length_leBytes).
    rewrite undigits_leBytes, (wrap64_id (Z.of_nat _)) by lia. change (256 ^ Z.of_nat 8) with (2 ^ 64).
    rewrite Z.mod_small by lia. by rewrite (proj2 (Z.ltb_lt _ _)) by lia.
  - destruct fuel as [|fuel]; [cbn in Hf; lia|].
    change (mjoin (frame <$> b :: bs) ++ rest) with ((frame b ++ mjoin (frame <$> bs)) ++ rest). rewrite <- app_assoc.
    cbn [readReplies]. rewrite length_app, length_frame. rewrite (proj2 (Nat.ltb_ge _ _)) by lia.
    unfold maxReply in Hb. destruct (frame_head b (mjoin (frame <$> bs) ++ rest)) as [E1 E2]; [lia|].
    cbv zeta. rewrite E1, E2, (proj2 (Z.ltb_ge _ _)) by (unfold maxReply; lia). rewrite Nat2Z.id.
    rewrite length_app, (proj2 (Nat.ltb_ge _ _)) by lia. rewrite take_app_length, drop_app_length.
    rewrite IH; [|cbn in Hf; lia|done]. cbn. by destruct (replyOf unmarshalTxErr b).
Qed.

(** A rejected transaction of the round is attributed to the account that sent it. *)
Theorem sender_found allTxs txHashMap t : NoDup ((fun t => ToLower (rtHash t)) <$> allTxs) -> t ∈ allTxs ->
  senderOf (storeSenders allTxs txHashMap) (rtHash t) = rtAddr t.
Proof.
  intros Hn Ht. unfold senderOf, storeSenders. enough (E : foldl (fun m t => <[ToLower (rtHash t) := rtAddr t]> m) txHashMap allTxs
    !! ToLower (rtHash t) = Some (rtAddr t)) by (by rewrite E).
  revert txHashMap. induction allTxs as [|u allTxs IH]; intros m; [by apply elem_of_nil in Ht|]. cbn [foldl].
  inversion_clear Hn as [|? ? Hu Hn']. apply elem_of_cons in Ht as [->|Ht]; [|by apply IH].
  clear IH Hn'. assert (Hm : (<[ToLower (rtHash u) := rtAddr u]> m) !! ToLower (rtHash u) = Some (rtAddr u)) by (by rewrite lookup_insert_eq).
  revert Hm. generalize (<[ToLower (rtHash u) := rtAddr u]> m). induction allTxs as [|v allTxs IH]; intros m' Hm'; [done|].
  cbn [foldl]. apply not_elem_of_cons in Hu as [Huv Hu]. apply IH; [done|]. by rewrite lookup_insert_ne.
Qed.

(** The checks that were made are at least five seconds apart, whatever clocks the
    goroutines read and however they interleave. *)
Definition chkOk (s : ChkState) : Prop :=
  (forall i now last, goroutines s !! i = Some (ChkSwap now last) -> 5000 <= now - last) /\
  (forall k a b, checks s !! k = Some a -> checks s !! S k = Some b -> 5000 <= b - a) /\
  (forall a, last (checks s) = Some a -> lastCheck s = a).

Lemma chkOk_goroutine s i g : chkOk s -> (forall now last, g = ChkSwap now last -> 5000 <= now - last) ->
  chkOk (mkChk (lastCheck s) (<[i := g]> (goroutines s)) (checks s)).
Proof.
  intros (H1 & H2 & H3) Hg. split_and!; [|done|done]. cbn. intros j now l [(_ & -> & _)|[_ Hj]]%list_lookup_insert_Some; [by apply Hg|by eapply H1].
Qed.

Theorem checks_apart s : rtc chkStep (mkChk 0 [] []) s ->
  forall k a b, checks s !! k = Some a -> checks s !! S k = Some b -> 5000 <= b - a.
Proof.
  intros Hr. enough (H : chkOk s) by apply H. revert Hr. apply (rtc_ind_r (fun s => chkOk s)); [by split_and!|].
  clear s. intros s s' _ Hs Hok. destruct Hs as [s|s i now Hi|s i now Hi|s i now l Hi Hl|s i now l Hi Hl].
  - destruct Hok as (H1 & H2 & H3). split_and!; [|done|done]. cbn. intros j now' l'.
    intros [Hj|[_ Hj]]%lookup_app_Some; [by eapply H1|]. by apply list_lookup_singleton_Some in Hj as [_ ?].
  - by apply chkOk_goroutine.
  - apply chkOk_goroutine; [done|]. intros now' l'. destruct (Z.ltb_spec (now - lastCheck s) 5000); [done|]. intros [= <- <-]. lia.
  - pose proof (proj1 Hok i now l Hi) as Hgap. destruct Hok as (H1 & H2 & H3). split_and!; cbn.
    + intros j now' l' [(_ & ? & _)|[_ Hj]]%list_lookup_insert_Some; [done|by eapply H1].
    + intros k a b Ha Hb. apply lookup_app_Some in Hb as [Hb|[Hlen Hb]].
      * rewrite lookup_app_l in Ha by (apply lookup_lt_Some in Hb; lia). by eapply H2.
      * apply list_lookup_singleton_Some in Hb as [Hk <-]. rewrite lookup_app_l in Ha by lia.
        rewrite <- Hl in Hgap. rewrite (H3 a) in Hgap; [lia|]. rewrite last_lookup. rewrite <- Ha. f_equal. lia.
    + intros a. rewrite last_snoc. by intros [= <-].
  - by apply chkOk_goroutine.
Qed.

Lemma connectLoop_spec seen addrs :
  NoDup (connectLoop seen addrs) /\
  forall a, a ∈ connectLoop seen addrs <-> a <> ""%string /\ (a ∉ seen) /\ a ∈ (TrimSpace <$> addrs).
Proof.
  revert seen. induction addrs as [|x addrs IH]; intros seen; cbn [connectLoop fmap list_fmap].
  { split; [constructor|]. intros a. rewrite !elem_of_nil. tauto. }
  destruct (bool_decide (TrimSpace x = ""%string)) eqn:E1; [|destruct (bool_decide (TrimSpace x ∈ seen)) eqn:E2]; cbn [orb].
  - destruct (IH seen) as [I1 I2]. apply bool_decide_eq_true in E1. split; [done|]. intros a. rewrite I2, elem_of_cons. split; [tauto|].
    intros (Ha & Hs & [->|Hin]); [congruence|done].
  - destruct (IH seen) as [I1 I2]. apply bool_decide_eq_true in E2. split; [done|]. intros a. rewrite I2, elem_of_cons. split; [tauto|].
    intros (Ha & Hs & [->|Hin]); [done|done].
  - destruct (IH ({[TrimSpace x]} ∪ seen)) as [I1 I2]. apply bool_decide_eq_false in E1, E2. split.
    + constructor; [|done]. rewrite I2. set_solver.
    + intros a. rewrite !elem_of_cons, I2. destruct (decide (a = TrimSpace x)) as [->|Hne]; [tauto|]. set_solver.
Qed.

(** Every address that is not blank is connected to, once. *)
Theorem connect_once addrs : NoDup (connectAll addrs) /\ forall a, a ∈ connectAll addrs <-> a <> ""%string /\ a ∈ (TrimSpace <$> addrs).
Proof. destruct (connectLoop_spec ∅ addrs) as [H1 H2]. split; [done|]. intros a. unfold connectAll. rewrite H2. set_solver. Qed.
