(* ===== verification/Utils.v ===== *)
(** * Helper functions

    Models [pkg/utils/utils.go], [pkg/utils/abi_helper.go],
    [pkg/utils/helper.go], [pkg/common/utilities.go] and
    [pkg/common/encoding.go]: conversions of integers and block numbers,
    function selectors, ABI return data and indexed topics, the messages signed
    for a dispatch with the recovery of their signer and the check of their
    time stamp, connection addresses, and the last line of a file.

    [time.Now().Unix()] and the contents of a file are arguments;
    go-ethereum's [crypto] and [accounts/abi] are parameters. *)

From Stdlib Require Import Ascii.
From S2P Require Import Prelude GoStrings CircuitBreaker Binary TrieEncoding ArgumentEncode AccountState Transaction EthTransaction Message.
From S2P Require Import Instances TxInstances BlockChecker.

Local Open Scope Z_scope.

(** ** Integers *)

Definition Uint64ToBytes (value : Z) : bytes := PutUint64 value.

Definition BytesToUint64 (b : bytes) : outcome Z :=
  if negb (length b =? 8)%nat then Err (ErrText "byte array must be 8 bytes long") else Uint64 b.

Definition Uint64ToBigInt (value : Z) : Z := value.

(** A [*big.Int], [None] for nil. *)
Definition isUint64 (z : Z) : bool := (0 <=? z) && (z <? 2 ^ 64).

Definition BigIntToUint64 (value : option Z) : outcome Z :=
  match value with
  | None => Err (ErrText "nil")
  | Some z => if isUint64 z then Ok z else Err (ErrText "too large")
  end.

(** [big.Int.Uint64] is the low 64 bits of the absolute value, [Int64] the same
    bits as an [int64], negated for a negative number. *)
Definition bigUint64 (z : Z) : Z := wrap64 (Z.abs z).
Definition bigInt64 (z : Z) : Z :=
  let v := to_int64 (Z.abs z) in if z <? 0 then to_int64 (- v) else v.

Definition HexutilBigToUint64 (n : option Z) : outcome Z :=
  match n with
  | None => Err (ErrText "input hexutil.Big is nil")
  | Some z => Ok (bigUint64 z)
  end.

Definition trimPrefix0x (s : string) : string :=
  match s with
  | String "0" (String "x" rest) => rest
  | _ => s
  end.

Definition ParseBlockNumber (blockNumberStr : string) : outcome Z :=
  match parseUintHex (trimPrefix0x blockNumberStr) with
  | Some n => Ok n
  | None => Err (ErrText "block number")
  end.

Definition CompareUint64 (a b : Z) : Z := if a <? b then -1 else if a >? b then 1 else 0.

(** [-x] wraps for the least [int64]. *)
Definition Abs (x : Z) : Z := if x <? 0 then to_int64 (- x) else x.

(** ** Selectors and ABI data *)

(** The values an [interface{}] argument is switched on; [VOther] is a value of
    any other type, [VBig None] the nil pointer. *)
Inductive goValue :=
| VInt (z : Z)
| VUint (z : Z)
| VInt64 (z : Z)
| VUint64 (z : Z)
| VBig (z : option Z)
| VAddress (a : bytes)
| VString (s : bytes)
| VBool (b : bool)
| VBytes (b : bytes)
| VOther.

(** [abi.NewType] answers whether the type's name is valid; [abiPack] is [Pack]
    of a single argument of that type, [None] its error. *)
Class Abi := {
  abiNewType : string -> bool;
  abiPack : string -> goValue -> option bytes
}.

(** The ABI's encoding of a string. *)
Class AbiLaws `{Abi} : Prop := {
  abi_string_type : abiNewType "string" = true;
  abi_string s : abiPack "string" (VString s) = Some (EncodeSingleString s)
}.

Section Eth.
Context `{EthLib}.

Definition GetFunctionSelector (methodSignature : bytes) : bytes := take 4 (Keccak256 methodSignature).

Definition GetAddressSelector (methodSignature : bytes) : bytes :=
  BytesToAddress (take 4 (Keccak256 methodSignature)).

(** [copy(addressBytes[16:], hash[:4])] *)
Definition GetAddressFromIdentifier (moduleSignature : bytes) : bytes :=
  let hash := Keccak256 moduleSignature in
  BytesToAddress (replicate 16 0 ++ take 4 hash).

(** A type that is not valid leaves the selector alone; an error of [Pack] is
    dropped, with nothing packed. *)
Definition EncodeRevertReason `{Abi} (reason : bytes) : bytes :=
  let selector := GetFunctionSelector (bytesOfString "Error(string)") in
  if negb (abiNewType "string") then selector
  else selector ++ default [] (abiPack "string" (VString reason)).

(** The [switch] on the type's name: numbers become big integers and address
    strings addresses; other type names take any value. *)
Definition returnValue (typ : string) (value : goValue) : outcome goValue :=
  if bool_decide (typ ∈ ["uint256"; "int256"]%string) then
    match value with
    | VInt z | VUint z | VInt64 z | VUint64 z => Ok (VBig (Some z))
    | VBig _ => Ok value
    | _ => Err (ErrText "invalid value type")
    end
  else if bool_decide (typ = "address"%string) then
    match value with
    | VString s => Ok (VAddress (HexToAddress s))
    | VAddress _ => Ok value
    | _ => Err (ErrText "invalid address type")
    end
  else if bool_decide (typ = "bool"%string) then
    match value with VBool _ => Ok value | _ => Err (ErrText "invalid bool type") end
  else if bool_decide (typ = "string"%string) then
    match value with VString _ => Ok value | _ => Err (ErrText "invalid string type") end
  else if bool_decide (typ = "bytes"%string) then
    match value with VBytes _ => Ok value | _ => Err (ErrText "invalid bytes type") end
  else Ok value.

Definition EncodeReturnData `{Abi} (typ : string) (value : goValue) : outcome bytes :=
  if negb (abiNewType typ) then Err (ErrText "invalid abi type")
  else
    v ← returnValue typ value;
    match abiPack typ v with Some b => Ok b | None => Err (ErrText "pack") end.

(** [abi.Type.T] *)
Inductive abiKind := AddressTy | UintTy | IntTy | BytesTy | StringTy | OtherTy.

(** [Hash.Hex] *)
Definition hashHex (h : bytes) : bytes := [48; 120] ++ EncodeToString h.

(** [common.BigToHash]; the nil pointer panics. *)
Definition BigToHash (num : option Z) : outcome bytes :=
  match num with Some z => Ok (BytesToHash (bigBytes z)) | None => Panic end.

Definition EncodeIndexedTopic (arg : goValue) (argType : abiKind) : outcome bytes :=
  match argType with
  | AddressTy =>
      match arg with
      | VAddress addr => Ok (hashHex (BytesToHash addr))
      | _ => Err (ErrText "expected address")
      end
  | UintTy | IntTy =>
      num ← match arg with
            | VBig z => Ok z
            | VInt64 z | VUint64 z => Ok (Some z)
            | _ => Err (ErrText "expected number")
            end;
      hash ← BigToHash num;
      Ok (hashHex hash)
  | BytesTy | StringTy =>
      match arg with
      | VBytes data | VString data => Ok (hashHex (Keccak256 data))
      | _ => Err (ErrText "expected bytes or string")
      end
  | OtherTy => Err (ErrText "unsupported indexed type")
  end.

(** ** Dispatch messages *)

Definition BuildMessageForDispatch (sessionId actionId data : bytes) (timestamp : option Z) : outcome bytes :=
  timestampBytes ← FillBytes 32 timestamp;
  Ok (sessionId ++ actionId ++ data ++ timestampBytes).

(** ["\x19Ethereum Signed Message:\n%d%s"] *)
Definition prefixedMessage (message : bytes) : bytes :=
  [25] ++ bytesOfString "Ethereum Signed Message:" ++ [10] ++ bigString (Z.of_nat (length message)) ++ message.

Definition RecoverSignerAddress `{Secp} (message signatureBytes : bytes) : outcome bytes :=
  if (length signatureBytes <? 65)%nat then Err (ErrText "invalid signature length")
  else
    let messageHash := Keccak256 (prefixedMessage message) in
    let signature := arrayFromBytes 65 signatureBytes in
    match signature !! 64%nat with
    | None => Panic
    | Some v =>
        let signature := if 27 <=? v then <[64%nat := wrap8 (v - 27)]> signature else signature in
        match SigToPub messageHash signature with
        | Some pubKey => Ok (PubkeyToAddress pubKey)
        | None => Err (ErrText "failed to recover public key")
        end
    end.
End Eth.

(** [true] is a nil error; [now] is [time.Now().Unix()], the difference and its
    negation are those of [int64]. *)
Definition VerifyTimestamp (now : Z) (timestamp : option Z) : outcome bool :=
  match timestamp with
  | None => Panic
  | Some ts =>
      let diff := to_int64 (now - bigInt64 ts) in
      let diff := if diff <? 0 then to_int64 (- diff) else diff in
      Ok (negb (diff >? 300))
  end.

(** ** Connection addresses and files *)

(** [strconv.Atoi]: an optional sign, decimal digits, and the range of [int]. *)
Definition decDigitOf (a : ascii) : option Z :=
  let n := Z.of_nat (nat_of_ascii a) in if (48 <=? n) && (n <=? 57) then Some (n - 48) else None.

Fixpoint decValue (acc : Z) (s : string) : option Z :=
  match s with
  | EmptyString => Some acc
  | String a s' => d ← decDigitOf a; decValue (acc * 10 + d) s'
  end.

Definition atoi (s : string) : option Z :=
  let '(neg, digits) :=
    match s with
    | String "-" rest => (true, rest)
    | String "+" rest => (false, rest)
    | _ => (false, s)
    end in
  match digits with
  | EmptyString => None
  | _ =>
      n ← decValue 0 digits;
      let z := if neg : bool then - n else n in
      if (- 2 ^ 63 <=? z) && (z <? 2 ^ 63) then Some z else None
  end.

Definition SplitConnectionAddress (address : string) : outcome (string * Z) :=
  match splitOn ":" address with
  | [ip; port] =>
      match atoi port with
      | Some intPort => Ok (ip, intPort)
      | None => Err (ErrText "atoi")
      end
  | _ => Err (ErrText "invalid connection address")
  end.

Definition AddressesToBytes (addresses : list bytes) : list bytes := addresses.

(** [uint256.SetBytes] keeps the last 32 bytes.  [None]: the string is not a
    number, and the integer is not defined. *)
Definition StringToUint256 (str : bytes) : option Z :=
  bigInt ← bigSetString str; Some (bigSetBytes (bigBytes bigInt) mod 2 ^ 256).

(** [bufio.Scanner] with [ScanLines]: the lines of the file, each without its
    line end and a carriage return before it; a line that fills the buffer of
    64 KiB ends the scan with an error. *)
Fixpoint scanLines (b : bytes) : list bytes :=
  match b with
  | [] => []
  | c :: b' =>
      if c =? 10 then [] :: scanLines b'
      else match scanLines b', b' with
           | _, [] => [[c]]
           | [], _ => [[c]]
           | l :: ls, _ => (c :: l) :: ls
           end
  end.

Definition dropCR (l : bytes) : bytes :=
  match last l with Some 13 => take (length l - 1) l | _ => l end.

Definition MaxScanTokenSize : Z := 64 * 1024.

Fixpoint lastToken (lastLine : bytes) (ls : list bytes) : outcome bytes :=
  match ls with
  | [] => Ok lastLine
  | l :: ls' =>
      if MaxScanTokenSize <=? Z.of_nat (length l) then Err (ErrText "token too long")
      else lastToken (dropCR l) ls'
  end.

(** [content] is [None] when the file cannot be opened. *)
Definition ReadLastLine (content : option bytes) : outcome bytes :=
  match content with
  | None => Err (ErrText "open")
  | Some b => lastToken [] (scanLines b)
  end.

(** ** Lemmas *)

Lemma bigInt64_id z : - 2 ^ 63 < z < 2 ^ 63 -> bigInt64 z = z.
Proof.
  intros Hz. unfold bigInt64. cbv zeta. rewrite (to_int64_small (Z.abs z)) by (unfold int64; lia).
  destruct (Z.ltb_spec z 0); [|lia]. rewrite to_int64_small; unfold int64; lia.
Qed.

Lemma beBytes_inj n x y :
  0 <= x < 256 ^ Z.of_nat n -> 0 <= y < 256 ^ Z.of_nat n -> beBytes n x = beBytes n y -> x = y.
Proof.
  intros Hx Hy E. unfold beBytes in E. apply (f_equal reverse) in E. rewrite !reverse_involutive in E.
  apply (f_equal (undigits 256)) in E. rewrite !undigits_leBytes, !Z.mod_small in E; done.
Qed.

Lemma length_beBytes n z : length (beBytes n z) = n.
Proof. unfold beBytes. by rewrite length_reverse, length_leBytes. Qed.

Lemma FillBytes_Some n z : 0 <= z < 256 ^ Z.of_nat n -> FillBytes n (Some z) = Ok (beBytes n z).
Proof. intros Hz. unfold FillBytes. rewrite Z.abs_eq by lia. by rewrite (proj2 (Z.ltb_lt _ _)) by lia. Qed.

(** ** Properties *)

(** The bytes of a [uint64] are read back, and only eight bytes are read. *)
Theorem uint64_bytes_roundtrip v b :
  (0 <= v < 2 ^ 64 -> BytesToUint64 (Uint64ToBytes v) = Ok v) /\
  (length b <> 8%nat -> exists e, BytesToUint64 b = Err e).
Proof.
  unfold BytesToUint64, Uint64ToBytes. split.
  - intros Hv. rewrite length_PutUint64. cbn [negb Nat.eqb]. rewrite Uint64_PutUint64. f_equal. by apply wrap64_id.
  - intros Hl. rewrite (proj2 (Nat.eqb_neq _ _) Hl). cbn. eauto.
Qed.

(** [BigIntToUint64] refuses what does not fit, [HexutilBigToUint64] truncates
    it. *)
Theorem big_to_uint64 z :
  (isUint64 z = true -> BigIntToUint64 (Some z) = Ok z /\ HexutilBigToUint64 (Some z) = Ok z) /\
  (isUint64 z = false -> (exists e, BigIntToUint64 (Some z) = Err e) /\
     HexutilBigToUint64 (Some z) = Ok (Z.abs z mod 2 ^ 64)).
Proof.
  unfold BigIntToUint64, HexutilBigToUint64, bigUint64. split; intros E; rewrite E; [|by eauto].
  split; [done|]. unfold isUint64 in E. f_equal. rewrite Z.abs_eq by lia. apply wrap64_id. lia.
Qed.

(** The messages of two dispatches with different sessions, actions, data or
    time stamps are different. *)
Theorem dispatch_message_inj s1 a1 d1 t1 s2 a2 d2 t2 m :
  length s1 = 32%nat -> length a1 = 32%nat -> length s2 = 32%nat -> length a2 = 32%nat ->
  0 <= t1 < 2 ^ 256 -> 0 <= t2 < 2 ^ 256 ->
  BuildMessageForDispatch s1 a1 d1 (Some t1) = Ok m -> BuildMessageForDispatch s2 a2 d2 (Some t2) = Ok m ->
  s1 = s2 /\ a1 = a2 /\ d1 = d2 /\ t1 = t2.
Proof.
  intros Ls1 La1 Ls2 La2 H1 H2. unfold BuildMessageForDispatch. rewrite !FillBytes_Some by done.
  intros [= <-] [= E].
  apply app_inj_1 in E as [<- E]; [|congruence]. apply app_inj_1 in E as [<- E]; [|congruence].
  apply app_inj_2 in E as [<- E]; [|by rewrite !length_beBytes].
  split_and!; try done. symmetry. by apply (beBytes_inj 32).
Qed.

(** A message signed by [crypto.Sign] is attributed to its signer, whether V
    is 0 or 1 or the 27 or 28 of a wallet, and bytes after the signature are
    ignored. *)
Theorem dispatch_signer `{EthLib} `{SecpLaws} message k sig v extra :
  cryptoSign (Keccak256 (prefixedMessage message)) k = Ok sig -> sig !! 64%nat = Some v ->
  RecoverSignerAddress message (sig ++ extra) = Ok (PubkeyToAddress (pubkeyOf k)) /\
  RecoverSignerAddress message (<[64%nat := v + 27]> sig ++ extra) = Ok (PubkeyToAddress (pubkeyOf k)).
Proof.
  intros Es Ev. destruct (cryptoSign_ok _ _ _ Es) as (Hl & (w & Ew & Hw & _) & Er).
  assert (v = w) as ->.
  { rewrite <- (Nat.add_0_r 64), <- lookup_drop, Ew in Ev. by injection Ev. }
  assert (Ha : forall s, length s = 65%nat -> arrayFromBytes 65 (s ++ extra) = s).
  { intros s Hs. unfold arrayFromBytes. rewrite length_app, Hs, take_app_length' by done.
    replace (65 - (65 + length extra))%nat with 0%nat by lia. apply app_nil_r. }
  unfold RecoverSignerAddress. rewrite !length_app, length_insert, Hl. cbn [Nat.ltb Nat.leb Nat.add].
  rewrite !Ha by (rewrite ?length_insert; done). rewrite Ev, list_lookup_insert_eq by lia. split.
  - rewrite (proj2 (Z.leb_gt _ _)) by lia. by rewrite Er.
  - rewrite (proj2 (Z.leb_le _ _)) by lia. rewrite list_insert_insert_eq.
    replace (wrap8 (w + 27 - 27)) with w by (unfold wrap8; rewrite Z.mod_small; lia).
    rewrite list_insert_id by done. by rewrite Er.
Qed.

(** A time stamp within the range of [int64] is accepted when it is at most
    five minutes from the current time, and only then. *)
Theorem timestamp_window now ts :
  0 <= now < 2 ^ 62 -> - 2 ^ 62 <= ts < 2 ^ 63 ->
  VerifyTimestamp now (Some ts) = Ok (Z.abs (now - ts) <=? 300).
Proof.
  intros Hn Ht. unfold VerifyTimestamp. rewrite bigInt64_id by lia. rewrite (to_int64_small (now - ts)) by (unfold int64; lia). cbv zeta.
  f_equal. destruct (Z.ltb_spec (now - ts) 0); [rewrite to_int64_small by (unfold int64; lia)|]; apply eq_true_iff_eq; lia.
Qed.

(** Outside that range the check can be passed: a time stamp 2^64 seconds in
    the future is taken for the current time, and one 2^63 seconds in the past
    has a difference whose negation is itself. *)
Theorem timestamp_wraps :
  VerifyTimestamp 1700000000 (Some (1700000000 + 2 ^ 64)) = Ok true /\
  VerifyTimestamp 1700000000 (Some (1700000000 - 2 ^ 63)) = Ok true.
Proof. split; reflexivity. Qed.

(** [Error(string)] data: after the selector, the reason is decoded by
    [DecodeStringInput]. *)
Theorem revert_reason_decodes `{EthLibLaws} `{AbiLaws} reason :
  len reason + 64 < 2 ^ 63 ->
  exists selector args, DecodeFuncHash (EncodeRevertReason reason) = Ok (selector, args) /\
    selector = GetFunctionSelector (bytesOfString "Error(string)") /\ DecodeStringInput args 0 = Ok reason.
Proof.
  intros Hr. unfold EncodeRevertReason. rewrite abi_string_type, abi_string. cbn [negb default id].
  set (sel := GetFunctionSelector _). assert (Hs : len sel = 4).
  { unfold len, sel, GetFunctionSelector. rewrite length_take, Keccak256_len. done. }
  exists sel, (EncodeSingleString reason). split_and!; [|done|by apply string_roundtrip].
  unfold DecodeFuncHash. pose proof (slice_app [] sel (EncodeSingleString reason) 0 4 eq_refl) as E0.
  change ([] ++ ?l) with l in E0. rewrite E0 by (rewrite Hs; done). cbn [mbind outcome_bind].
  pose proof (slice_app sel (EncodeSingleString reason) [] 4 (len (sel ++ EncodeSingleString reason))) as E.
  rewrite app_nil_r in E. rewrite E by (rewrite ?len_app; lia). done.
Qed.

(** An indexed integer and its negation have the same topic: the sign of an
    [int256] is lost, where the ABI asks for its two's complement. *)
Theorem indexed_topic_unsigned `{EthLib} z :
  EncodeIndexedTopic (VBig (Some (- z))) IntTy = EncodeIndexedTopic (VBig (Some z)) IntTy.
Proof. cbn. unfold bigBytes. by rewrite Z.abs_opp. Qed.

(** The sign of a decimal string is lost, and a number that does not fit in
    256 bits wraps around with [success] set. *)
Theorem StringToUint256_wraps z : StringToUint256 (bigString z) = Some (Z.abs z mod 2 ^ 256).
Proof. unfold StringToUint256. rewrite bigString_roundtrip. cbn [mbind option_bind]. by rewrite bigBytes_roundtrip. Qed.

(** A port is any [int]: a connection address with a negative port or one above
    65535 is accepted, and an IPv6 address is not. *)
Theorem connection_port_unchecked :
  SplitConnectionAddress "10.0.0.1:-1" = Ok ("10.0.0.1"%string, -1) /\
  SplitConnectionAddress "10.0.0.1:70000" = Ok ("10.0.0.1"%string, 70000) /\
  SplitConnectionAddress "[::1]:4200" = Err (ErrText "invalid connection address").
Proof. split_and!; reflexivity. Qed.

(** The last line of a file whose lines fit in the scanner's buffer. *)
Theorem ReadLastLine_last b :
  Forall (fun l => Z.of_nat (length l) < MaxScanTokenSize) (scanLines b) ->
  ReadLastLine (Some b) = Ok (default [] (dropCR <$> last (scanLines b))).
Proof.
  unfold ReadLastLine. assert (Hg : forall ls acc, Forall (fun l => Z.of_nat (length l) < MaxScanTokenSize) ls ->
    lastToken acc ls = Ok (default acc (dropCR <$> last ls))).
  { induction ls as [|l ls IH]; intros acc Hl; [done|]. apply Forall_cons in Hl as [Hl Hls]. cbn [lastToken].
    rewrite (proj2 (Z.leb_gt _ _) Hl), IH by done. rewrite last_cons. by destruct (last ls). }
  apply Hg.
Qed.
