(* ===== verification/LogFile.v ===== *)
(** * Log files

    Models [pkg/loggerfile/logger_file.go]: the global directory and epoch, the
    resolution of log file names inside a root directory, listing and reading log
    files, and [FileLogger], which appends to a file and rotates it when it has
    grown too large.

    The operating system keeps names, contents and open files apart ([OS]): a
    name refers to the contents of a file through its inode, an open file keeps
    its inode when the name is changed, and an [*os.File] is a position in the
    table of files that were opened ([None] is [nil]).  Whether a directory exists
    and which files one is permitted to open is an environment ([OSEnv]); besides,
    every call may fail for a reason of the moment, or write only a part of the
    data, as the list of coming faults says ([faults], any list).  Time stamps and
    the results of [fmt] are arguments; a Go string that is written is its bytes.
    The mutex makes each method of a [FileLogger] one step; nobody else touches
    the files of a logger. *)

From stdpp Require Import pretty sorting.
From S2P Require Import Prelude GoStrings.

Local Open Scope Z_scope.

(** ** Files of the operating system *)

Record OSFile := mkOSFile { inode : nat; isOpen : bool }.

(** What goes wrong in one call: [os.OpenFile], [os.Rename] or [os.Remove],
    [File.Stat] fail, [File.Write] stops after some bytes. *)
Record sysFault := mkFault { openFails : bool; moveFails : bool; statFails : bool; writeMax : option nat }.
Definition noFault : sysFault := mkFault false false false None.

Record OS := mkOS { names : gmap string nat; inodes : list bytes; objs : list OSFile; faults : list sysFault }.

(** The fault of the next call; when the list is used up nothing fails any more. *)
Definition nextFault (os : OS) : sysFault * OS :=
  (default noFault (head (faults os)), mkOS (names os) (inodes os) (objs os) (tail (faults os))).

Record OSEnv := mkOSEnv {
  wd : string;                                              (* os.Getwd *)
  dirExists : string -> bool;
  mkdirOk : string -> bool;
  openOk : string -> bool;
  readDir : string -> outcome (list (string * bool))        (* name, regular file *)
}.

(** [os.OpenFile(path, O_APPEND|O_CREATE|O_WRONLY, 0644)], [None] on an error. *)
Definition openAppend (env : OSEnv) (path : string) (os : OS) : option nat * OS :=
  let '(fault, os) := nextFault os in
  if openOk env path && negb (openFails fault) then
    match names os !! path with
    | Some i =>
        (Some (length (objs os)), mkOS (names os) (inodes os) (objs os ++ [mkOSFile i true]) (faults os))
    | None =>
        let i := length (inodes os) in
        (Some (length (objs os)),
         mkOS (<[path := i]> (names os)) (inodes os ++ [[]]) (objs os ++ [mkOSFile i true]) (faults os))
    end
  else (None, os).

Definition openFile (f : option nat) (os : OS) : option OSFile :=
  o ← f ≫= fun p => objs os !! p; if isOpen o then Some o else None.

(** [File.Write] and [File.WriteString]: the number of bytes written and whether
    the error is nil; a file that is nil or closed takes nothing, and a write that
    stops early is an error. *)
Definition writeFile (f : option nat) (data : bytes) (os : OS) : nat * bool * OS :=
  match openFile f os with
  | Some o =>
      let '(fault, os) := nextFault os in
      let n := match writeMax fault with Some m => Nat.min m (length data) | None => length data end in
      (n, (n =? length data)%nat,
       mkOS (names os) (alter (fun c => c ++ take n data) (inode o) (inodes os)) (objs os) (faults os))
  | None => (0%nat, false, os)
  end.

Definition closeFile (f : option nat) (os : OS) : OS :=
  match f with
  | Some p => mkOS (names os) (inodes os) (alter (fun o => mkOSFile (inode o) false) p (objs os)) (faults os)
  | None => os
  end.

(** [os.Remove] and [os.Rename], whose errors the callers ignore. *)
Definition removeName (path : string) (os : OS) : OS :=
  let '(fault, os) := nextFault os in
  if moveFails fault then os else mkOS (delete path (names os)) (inodes os) (objs os) (faults os).

Definition renameName (old new : string) (os : OS) : OS :=
  let '(fault, os) := nextFault os in
  if moveFails fault then os
  else
    match names os !! old with
    | Some i => mkOS (<[new := i]> (delete old (names os))) (inodes os) (objs os) (faults os)
    | None => os
    end.

Definition content (os : OS) (path : string) : option bytes := i ← names os !! path; inodes os !! i.

(** ** Globals and path names *)

Record LogGlobals := mkGlobals { globalLogDir : string; globalEpoch : Z }.

Definition defaultMaxLogReadBytes : Z := 4 * 1024 * 1024.
Definition DefaultMaxLogFileSize : Z := 200 * 1024 * 1024.
Definition DefaultMaxLogFiles : Z := 5.

Definition initGlobals : LogGlobals := mkGlobals "logs" 0.
Definition SetGlobalLogDir (logDir : string) (g : LogGlobals) : LogGlobals := mkGlobals logDir (globalEpoch g).
Definition GetGlobalLogDir (g : LogGlobals) : string := globalLogDir g.
Definition SetGlobalEpoch (epoch : Z) (g : LogGlobals) : LogGlobals := mkGlobals (globalLogDir g) epoch.
Definition GetGlobalEpoch (g : LogGlobals) : Z := globalEpoch g.

Definition resolveLogRoot (env : OSEnv) (g : LogGlobals) (root : string) : outcome string :=
  let root := if bool_decide (TrimSpace root = ""%string) then globalLogDir g else root in
  if bool_decide (TrimSpace root = ""%string) then Err (ErrText "log root directory is empty")
  else Ok (Abs (wd env) (Clean root)).

(** Logs are no longer split by epoch. *)
Definition normalizeEpochToPath (epoch : string) : outcome string := Ok ""%string.

Definition getEpochDir : string := "".

Definition ensureWithinRoot (root target : string) : outcome unit :=
  rel ← Rel root target;
  if String.prefix ".." rel || bool_decide (rel = "..")%string then Err (ErrText "path escapes log root") else Ok tt.

Definition targetDirOf (env : OSEnv) (g : LogGlobals) (root epoch : string) : outcome (string * string) :=
  absRoot ← resolveLogRoot env g root;
  epochPath ← normalizeEpochToPath epoch;
  let targetDir := Join [absRoot; epochPath] in
  ensureWithinRoot absRoot targetDir ≫= fun _ => Ok (absRoot, targetDir).

Definition ResolveLogFilePath (env : OSEnv) (g : LogGlobals) (root epoch fileName : string) : outcome string :=
  let fileName := TrimSpace fileName in
  if bool_decide (fileName = ""%string) then Err (ErrText "fileName must not be empty")
  else if negb (bool_decide (fileName = Base fileName)) then Err (ErrText "invalid file name")
  else
    '(absRoot, targetDir) ← targetDirOf env g root epoch;
    let fullPath := Clean (Join [targetDir; fileName]) in
    ensureWithinRoot absRoot fullPath ≫= fun _ => Ok fullPath.

(** ** Listing and reading *)

(** The order of [sort.Strings]: bytes compared one by one. *)
Definition stringLe (a b : string) : Prop := String.leb a b = true.
#[export] Instance stringLe_dec a b : Decision (stringLe a b).
Proof. unfold stringLe. apply _. Defined.

Definition ListLogFiles (env : OSEnv) (g : LogGlobals) (root epoch : string) : outcome (list string) :=
  '(_, targetDir) ← targetDirOf env g root epoch;
  entries ← readDir env targetDir;
  Ok (merge_sort stringLe (filter (fun e => e.2 = true) entries).*1).

Definition newline : Z := 10.

(** [data[bytes.IndexByte(data, '\n')+1:]], unless nothing is left. *)
Fixpoint afterNewline (data : bytes) : option bytes :=
  match data with
  | [] => None
  | c :: rest => if c =? newline then (match rest with [] => None | _ => Some rest end) else afterNewline rest
  end.

Definition readTail (maxBytes : Z) (data : bytes) : bytes :=
  let maxBytes := if (maxBytes <=? 0) || (defaultMaxLogReadBytes <? maxBytes) then defaultMaxLogReadBytes else maxBytes in
  let size := Z.of_nat (length data) in
  let start := if maxBytes <? size then size - maxBytes else 0 in
  let part := drop (Z.to_nat start) data in
  if 0 <? start then default part (afterNewline part) else part.

Definition ReadLogFile (env : OSEnv) (g : LogGlobals) (os : OS) (root epoch fileName : string) (maxBytes : Z) : outcome bytes :=
  fullPath ← ResolveLogFilePath env g root epoch fileName;
  match content os fullPath with
  | None => Err (ErrText "failed to stat log file")
  | Some data => if openOk env fullPath then Ok (readTail maxBytes data) else Err (ErrText "failed to open log file")
  end.

(** ** FileLogger *)

(** A [float64] is its bits. *)
Record LogEntry := mkLogEntry {
  StartTime : Z; GenerateBlockTime : Z; ProcessTransactionsInPoolTime : Z; CreateBlockTime : Z;
  LenTxs : Z; Block : string; Txs : string
}.

Record FileLogger := mkFileLogger {
  file : option nat;
  filePath : string; baseName : string; epochDir : string;
  entries : list LogEntry;
  maxFileSize : Z; maxLogFiles : Z; bytesWritten : Z
}.

Definition setFile (f : option nat) (n : Z) (fl : FileLogger) : FileLogger :=
  mkFileLogger f (filePath fl) (baseName fl) (epochDir fl) (entries fl) (maxFileSize fl) (maxLogFiles fl) n.
Definition setEntries (es : list LogEntry) (fl : FileLogger) : FileLogger :=
  mkFileLogger (file fl) (filePath fl) (baseName fl) (epochDir fl) es (maxFileSize fl) (maxLogFiles fl) (bytesWritten fl).

Definition NewFileLogger (env : OSEnv) (g : LogGlobals) (path : string) : stm OS FileLogger := fun os =>
  let fullPath := Join [globalLogDir g; getEpochDir; path] in
  let dir := Dir fullPath in
  if negb (dirExists env dir) && negb (mkdirOk env dir) then (Err (ErrText "failed to create sub logs directory"), os)
  else
    match openAppend env fullPath os with
    | (None, os') => (Err (ErrText "failed to open log file"), os')
    | (Some p, os') =>
        let '(fault, os') := nextFault os' in
        let currentSize := if statFails fault then 0 else Z.of_nat (length (default [] (content os' fullPath))) in
        (Ok (mkFileLogger (Some p) fullPath path getEpochDir [] DefaultMaxLogFileSize DefaultMaxLogFiles currentSize), os')
    end.

Definition SetMaxFileSize (size : Z) (fl : FileLogger) : FileLogger :=
  if 0 <? size then
    mkFileLogger (file fl) (filePath fl) (baseName fl) (epochDir fl) (entries fl) size (maxLogFiles fl) (bytesWritten fl)
  else fl.

Definition SetMaxLogFiles (n : Z) (fl : FileLogger) : FileLogger :=
  if 0 <? n then
    mkFileLogger (file fl) (filePath fl) (baseName fl) (epochDir fl) (entries fl) (maxFileSize fl) n (bytesWritten fl)
  else fl.

Definition File (fl : option FileLogger) : option nat := fl ≫= file.

(** [fmt.Sprintf("%s.%d", path, i)] *)
Definition rotated (path : string) (i : nat) : string := (path +:+ "." +:+ pretty (Z.of_nat i))%string.

(** The loop over the old files, from the highest number [i] down to 1. *)
Fixpoint shiftFiles (path : string) (maxFiles i : nat) (os : OS) : OS :=
  match i with
  | O => os
  | S j =>
      let os' :=
        if (i =? maxFiles)%nat then removeName (rotated path i) os
        else renameName (rotated path i) (rotated path (i + 1)) os in
      shiftFiles path maxFiles j os'
  end.

Definition rotateLocked (env : OSEnv) (fl : FileLogger) (os : OS) : FileLogger * OS :=
  let os := closeFile (file fl) os in
  let n := Z.to_nat (maxLogFiles fl) in
  let os := shiftFiles (filePath fl) n n os in
  let rotatedPath := rotated (filePath fl) 1 in
  let os := renameName (filePath fl) rotatedPath os in
  let '(newFile, os) :=
    match openAppend env (filePath fl) os with
    | (Some p, os') => (Some p, os')
    | (None, os') => openAppend env rotatedPath os'
    end in
  (setFile newFile 0 fl, os).

Definition checkAndRotate (env : OSEnv) (fl : FileLogger) (os : OS) : FileLogger * OS :=
  if (maxFileSize fl <=? 0) || (bytesWritten fl <? maxFileSize fl) then (fl, os) else rotateLocked env fl os.

(** [n, err := fl.file.WriteString(data)] and what follows in [Log], [Info]: an
    error is only printed, the bytes written are counted. *)
Definition appendLine (env : OSEnv) (data : bytes) (fl : FileLogger) (os : OS) : FileLogger * OS :=
  let '(n, _, os) := writeFile (file fl) data os in
  checkAndRotate env (setFile (file fl) (to_int64 (bytesWritten fl + Z.of_nat n)) fl) os.

(** [fmt.Sprintf("%s: %s\n", timestamp, message)] *)
Definition logLine (timestamp message : bytes) : bytes := timestamp ++ [58; 32] ++ message ++ [newline].

Definition Log (env : OSEnv) (timestamp message : bytes) (fl : FileLogger) (os : OS) : FileLogger * OS :=
  appendLine env (logLine timestamp message) fl os.

Section Format.
(** [fmt.Sprint] of a value and [fmt.Sprintf], and [json.MarshalIndent]. *)
Context {value : Type} (Sprint : value -> bytes) (Sprintf : bytes -> list value -> bytes)
        (MarshalIndent : list LogEntry -> option bytes).

Definition Info (env : OSEnv) (timestamp : bytes) (message : value) (a : list value) (fl : FileLogger) (os : OS) : FileLogger * OS :=
  appendLine env (logLine timestamp (Sprintf (Sprint message) a)) fl os.

Definition Flush (env : OSEnv) (fl : FileLogger) (os : OS) : FileLogger * OS :=
  match entries fl with
  | [] => (fl, os)
  | es =>
      match MarshalIndent es with
      | None => (fl, os)
      | Some data =>
          match writeFile (file fl) (data ++ [newline]) os with
          | (_, false, os) => (fl, os)
          | (n, true, os) =>
              checkAndRotate env (setEntries [] (setFile (file fl) (to_int64 (bytesWritten fl + Z.of_nat n)) fl)) os
          end
      end
  end.
End Format.

Definition Close (fl : FileLogger) (os : OS) : OS := closeFile (file fl) os.

(** * Log files: names stay in their directory, and no line is lost

    A resolved file name is in the root directory or the root directory itself
    ([resolved_in_root]); what a [FileLogger] has written is the contents of its
    files in order, as far as the oldest ones were not removed ([log_retained]);
    reading a file returns its last lines ([read_tail]). *)

(** ** Path names *)

Lemma joinSlash_snoc cs c : cs <> [] -> joinSlash (cs ++ [c]) = (joinSlash cs +:+ String slash c)%string.
Proof.
  induction cs as [|d cs IH]; [done|]. intros _. destruct cs as [|e cs]; [done|].
  change ((d :: e :: cs) ++ [c]) with (d :: (e :: cs) ++ [c]).
  assert (E : forall l, l <> [] -> joinSlash (d :: l) = (d +:+ String slash (joinSlash l))%string) by (by intros [|? ?]).
  rewrite !E by done. rewrite IH by done.
  change (String slash (joinSlash (e :: cs) +:+ String slash c)) with (String slash (joinSlash (e :: cs)) +:+ String slash c)%string.
  by rewrite append_assoc'.
Qed.

Lemma Base_cases s : s <> ""%string -> s = Base s -> without slash s \/ s = "/"%string.
Proof.
  intros Hs. unfold Base. rewrite bool_decide_eq_false_2 by done.
  destruct (last _) as [c|] eqn:E; cbn [default]; [|by right].
  intros Es. left. apply last_Some_elem_of, list_elem_of_filter in E as [_ E]. rewrite Es.
  exact (proj1 (Forall_forall _ _) (splitOn_all_without slash s) c E).
Qed.

Lemma cleanComps_app r cs ds : Forall isName cs -> cleanComps r (cs ++ ds) = rev (foldl (cleanStep r) (rev cs) ds).
Proof. intros H. unfold cleanComps. by rewrite foldl_app, (foldl_names _ cs), app_nil_r. Qed.

(** Joining a relative part to an absolute path of names. *)
Lemma Join_absPath cs f : Forall isName cs ->
  Join [absPath cs; f] = absPath (rev (foldl (cleanStep true) (rev cs) (splitOn slash f))).
Proof.
  intros H. cbn [Join]. rewrite bool_decide_eq_false_2 by done. unfold Clean.
  change (IsAbs (joinSlash [absPath cs; f])) with true. unfold render, absPath at 2. f_equal. f_equal.
  cbn [joinSlash]. unfold absPath.
  change (String slash (joinSlash cs) +:+ String slash f)%string with (String slash (joinSlash cs +:+ String slash f)).
  change (String slash (joinSlash cs +:+ String slash f)) with ("" +:+ String slash (joinSlash cs +:+ String slash f))%string.
  rewrite splitOn_app by done.
  assert (E : forall l, cleanComps true (""%string :: l) = cleanComps true l) by done. rewrite E.
  destruct cs as [|c cs].
  - change (joinSlash [] +:+ String slash f)%string with ("" +:+ String slash f)%string. by rewrite splitOn_app.
  - rewrite <- joinSlash_snoc by done.
    assert (G : forall l, l <> [] -> Forall (without slash) l ->
                splitOn slash (joinSlash (l ++ [f])) = l ++ splitOn slash f).
    { induction l as [|d l IH]; [done|]. intros _ [Hd Hl]%Forall_cons. destruct l as [|e l].
      - cbn [joinSlash app]. by rewrite splitOn_app.
      - change ((d :: e :: l) ++ [f]) with (d :: (e :: l) ++ [f]).
        change (joinSlash (d :: (e :: l) ++ [f])) with (d +:+ String slash (joinSlash ((e :: l) ++ [f])))%string.
        rewrite splitOn_app by done. cbn [app]. f_equal. by apply IH. }
    rewrite G by (done || by apply names_without). by apply cleanComps_app.
Qed.

Lemma Join_name cs f : Forall isName cs -> isName f -> Join [absPath cs; f] = absPath (cs ++ [f]).
Proof.
  intros H Hf. rewrite Join_absPath by done. destruct (Hf) as (_ & _ & _ & Hw). rewrite splitOn_without by done.
  cbn [foldl]. rewrite cleanStep_name by done. cbn [rev]. by rewrite rev_involutive.
Qed.

Lemma Join_same cs f : Forall isName cs -> f = ""%string \/ f = "."%string \/ f = "/"%string -> Join [absPath cs; f] = absPath cs.
Proof. intros H Hf. rewrite Join_absPath by done. destruct Hf as [->|[->| ->]];
  match goal with |- absPath (rev ?x) = _ => change x with (rev cs) end; by rewrite rev_involutive. Qed.

Lemma absPath_inj a b : Forall isName a -> Forall isName b -> absPath a = absPath b -> a = b.
Proof. intros Ha Hb E. by rewrite <- (comps_absPath a), <- (comps_absPath b), E. Qed.

Lemma stripCommon_app a b : stripCommon a (a ++ b) = ([], b).
Proof. induction a as [|x a IH]; [by destruct b|]. cbn. by rewrite bool_decide_eq_true_2. Qed.

Lemma IsAbs_absPath cs : IsAbs (absPath cs) = true.
Proof. done. Qed.

Lemma names_snoc cs f : Forall isName cs -> isName f -> Forall isName (cs ++ [f]).
Proof. intros H Hf. apply Forall_app. split; [done|]. by apply Forall_singleton. Qed.

Lemma within_same cs : Forall isName cs -> ensureWithinRoot (absPath cs) (absPath cs) = Ok tt.
Proof. intros H. unfold ensureWithinRoot, Rel. by rewrite bool_decide_eq_true_2. Qed.

Lemma within_name cs f : Forall isName cs -> isName f ->
  ensureWithinRoot (absPath cs) (absPath (cs ++ [f])) = if String.prefix ".." f then Err (ErrText "path escapes log root") else Ok tt.
Proof.
  intros H Hf. assert (Hcf : Forall isName (cs ++ [f])) by (by apply names_snoc).
  unfold ensureWithinRoot, Rel. rewrite !Clean_absPath by done.
  rewrite bool_decide_eq_false_2.
  2:{ intros E%absPath_inj; [|done..]. apply (f_equal length) in E. rewrite length_app in E. cbn in E. lia. }
  rewrite !IsAbs_absPath. cbn [negb Bool.eqb]. rewrite !comps_absPath, stripCommon_app by done. cbn [joinSlash mbind outcome_bind].
  rewrite (bool_decide_eq_false_2 (f = "..")%string) by apply Hf. by rewrite orb_false_r.
Qed.

(** The parent of a directory is outside of it; the root directory is its own
    parent. *)
Lemma within_parent cs : Forall isName cs -> cs <> [] ->
  ensureWithinRoot (absPath cs) (Join [absPath cs; ".."%string]) = Err (ErrText "path escapes log root").
Proof.
  intros H Hn. destruct (exists_last Hn) as (ds & d & ->). apply Forall_app in H as [Hds [Hd _]%Forall_cons].
  rewrite Join_absPath by (by apply names_snoc).
  assert (E : rev (foldl (cleanStep true) (rev (ds ++ [d])) (splitOn slash "..")) = ds).
  { rewrite rev_app_distr. change (splitOn slash "..") with [".."%string]. cbn [foldl rev app]. unfold cleanStep.
    rewrite bool_decide_eq_false_2 by (intros [?|?]; done). rewrite bool_decide_eq_true_2 by done.
    rewrite bool_decide_eq_false_2 by apply Hd. apply rev_involutive. }
  rewrite E. unfold ensureWithinRoot, Rel.
  rewrite !Clean_absPath by (done || (by apply names_snoc)).
  rewrite bool_decide_eq_false_2.
  2:{ intros F%absPath_inj; [|done|by apply names_snoc].
      apply (f_equal length) in F. rewrite length_app in F. cbn in F. lia. }
  rewrite !IsAbs_absPath. cbn [negb Bool.eqb]. rewrite !comps_absPath by (done || (by apply names_snoc)).
  assert (S : stripCommon (ds ++ [d]) ds = ([d], [])).
  { clear. induction ds as [|x ds IH]; [done|]. cbn. by rewrite bool_decide_eq_true_2. }
  rewrite S, bool_decide_eq_false_2 by apply Hd. done.
Qed.

Lemma resolveLogRoot_abs env g root r : IsAbs (wd env) = true -> resolveLogRoot env g root = Ok r ->
  exists cs, r = absPath cs /\ Forall isName cs.
Proof.
  intros Hw. unfold resolveLogRoot. destruct (bool_decide (TrimSpace root = "")%string); case_bool_decide; try done;
    intros [= <-]; apply Abs_abs, Hw.
Qed.

Lemma targetDirOf_root env g root epoch cs : resolveLogRoot env g root = Ok (absPath cs) -> Forall isName cs ->
  targetDirOf env g root epoch = Ok (absPath cs, absPath cs).
Proof.
  intros E H. unfold targetDirOf. rewrite E. cbn [mbind outcome_bind normalizeEpochToPath].
  rewrite Join_same by (auto; by left). by rewrite within_same.
Qed.

(** A file name, after trimming, that is a name is resolved in the root
    directory, unless it starts with two dots. *)
Theorem resolve_name env g root epoch fileName cs :
  resolveLogRoot env g root = Ok (absPath cs) -> Forall isName cs -> isName (TrimSpace fileName) ->
  ResolveLogFilePath env g root epoch fileName =
    if String.prefix ".." (TrimSpace fileName) then Err (ErrText "path escapes log root")
    else Ok (absPath (cs ++ [TrimSpace fileName])).
Proof.
  intros E H Hf. unfold ResolveLogFilePath. set (f := TrimSpace fileName) in *.
  rewrite bool_decide_eq_false_2 by apply Hf. destruct (Hf) as (H1 & _ & _ & Hw).
  assert (EB : Base f = f).
  { unfold Base. rewrite bool_decide_eq_false_2, splitOn_without by done. by rewrite filter_cons_True. }
  rewrite EB, bool_decide_eq_true_2 by done. cbn [negb].
  rewrite (targetDirOf_root _ _ _ epoch cs) by done. cbn [mbind outcome_bind].
  rewrite Join_name by done. rewrite Clean_absPath by (by apply names_snoc). rewrite within_name by done.
  by destruct (String.prefix ".." f).
Qed.

(** A log file name that is resolved is in the root directory: the
    path is that of the root directory with the trimmed name added, which has no
    slash and is not a dot or two, or of the root directory itself.  No input
    leads outside. *)
Theorem resolved_in_root env g root epoch fileName p : IsAbs (wd env) = true ->
  ResolveLogFilePath env g root epoch fileName = Ok p ->
  exists cs, resolveLogRoot env g root = Ok (absPath cs) /\ Forall isName cs /\
    (p = absPath cs \/ isName (TrimSpace fileName) /\ p = absPath (cs ++ [TrimSpace fileName])).
Proof.
  intros Hw Ep.
  assert (Er : exists r, resolveLogRoot env g root = Ok r).
  { revert Ep. unfold ResolveLogFilePath, targetDirOf. do 2 (case_bool_decide; [try done|try done]). cbn [negb].
    destruct (resolveLogRoot env g root); [eauto|done..]. }
  destruct Er as (r & Er). destruct (resolveLogRoot_abs _ _ _ _ Hw Er) as (cs & -> & Hcs).
  exists cs. split_and!; [done..|]. set (f := TrimSpace fileName).
  destruct (decide (isName f)) as [Hf|Hf].
  - right. split; [done|]. rewrite (resolve_name _ _ _ _ _ cs) in Ep by done.
    fold f in Ep. destruct (String.prefix ".." f); by simplify_eq.
  - left. revert Ep. unfold ResolveLogFilePath. fold f. case_bool_decide as E0; [done|].
    case_bool_decide as E1; [|done]. cbn [negb]. rewrite (targetDirOf_root _ _ _ epoch cs) by done.
    cbn [mbind outcome_bind]. destruct (Base_cases f E0 E1) as [Hs|Es].
    + destruct (decide (f = "."))%string as [Ed|Ed].
      { rewrite Ed, Join_same, Clean_absPath, within_same by auto. by intros [= <-]. }
      assert (f = ".."%string) as -> by (destruct (decide (f = "..")%string); [done|]; exfalso; apply Hf; by unfold isName).
      destruct (decide (cs = [])) as [->|Hn]; [by intros [= <-]|].
      destruct (Clean_abs (Join [absPath cs; ".."%string])) as (ds & Eds & Hds).
      { by rewrite Join_absPath. }
      assert (Ej : Clean (Join [absPath cs; ".."%string]) = Join [absPath cs; ".."%string]).
      { rewrite Join_absPath by done. apply Clean_absPath. apply Forall_rev. cbn [splitOn]. 
        change (splitOn slash "..") with [".."%string]. cbn [foldl]. apply cleanStep_names; [by repeat constructor|by apply Forall_rev]. }
      by rewrite Ej, within_parent.
    + rewrite Es, Join_same, Clean_absPath, within_same by auto. by intros [= <-].
Qed.

(** ** Rotation *)

Lemma rotated_inj path i j : rotated path i = rotated path j -> i = j.
Proof.
  unfold rotated. intros E%append_cancel. apply append_cancel in E.
  apply (inj pretty) in E. lia.
Qed.

Lemma length_append (a b : string) : String.length (a +:+ b) = (String.length a + String.length b)%nat.
Proof. induction a as [|x a IH]; [done|]. change (String x a +:+ b)%string with (String x (a +:+ b)). cbn [String.length]. lia. Qed.

Lemma rotated_ne path i : rotated path i <> path.
Proof.
  intros E%(f_equal String.length). unfold rotated in E. rewrite !length_append in E.
  change (String.length ".") with 1%nat in E. lia.
Qed.

(** Names refer to different files, all of which exist. *)
Definition wfOS (os : OS) : Prop :=
  (forall a b i, names os !! a = Some i -> names os !! b = Some i -> a = b) /\
  (forall a i, names os !! a = Some i -> (i < length (inodes os))%nat).

(** No coming fault hits [os.Rename] or [os.Remove]. *)
Definition calm (os : OS) : Prop := Forall (fun f => moveFails f = false) (faults os).

Lemma calm_next os : calm os -> moveFails (nextFault os).1 = false /\ calm (nextFault os).2.
Proof. unfold calm, nextFault. cbn. destruct (faults os); [done|]. by intros [? ?]%Forall_cons. Qed.

Lemma remove_calm path os : calm os ->
  removeName path os = mkOS (delete path (names os)) (inodes os) (objs os) (tail (faults os)).
Proof. intros Hc. unfold removeName. destruct (calm_next os Hc) as [E _]. cbn [nextFault fst] in *. by rewrite E. Qed.

Lemma rename_calm old new os : calm os -> renameName old new os =
  match names os !! old with
  | Some i => mkOS (<[new := i]> (delete old (names os))) (inodes os) (objs os) (tail (faults os))
  | None => mkOS (names os) (inodes os) (objs os) (tail (faults os))
  end.
Proof. intros Hc. unfold renameName. destruct (calm_next os Hc) as [E _]. cbn [nextFault fst] in *. by rewrite E. Qed.

Lemma calm_tail os os' : calm os -> faults os' = tail (faults os) -> calm os'.
Proof. intros Hc E. unfold calm. rewrite E. apply (calm_next os Hc). Qed.

Lemma tail_nil {A} (l : list A) : l = [] -> tail l = [].
Proof. by intros ->. Qed.

Lemma wfOS_remove path os : calm os -> wfOS os -> wfOS (removeName path os).
Proof.
  intros Hc [Hi Hr]. rewrite remove_calm by done. split; cbn.
  - intros a b i. rewrite !lookup_delete_Some. intros [_ ?] [_ ?]. by eapply Hi.
  - intros a i. rewrite lookup_delete_Some. intros [_ ?]. by eapply Hr.
Qed.

Lemma rename_lookup old new os q : calm os -> old <> new ->
  names os !! new = None ->
  names (renameName old new os) !! q =
    if decide (q = new) then names os !! old else if decide (q = old) then None else names os !! q.
Proof.
  intros Hc Hne Hnew. rewrite rename_calm by done. destruct (names os !! old) as [i|] eqn:E; cbn.
  - rewrite lookup_insert. destruct (decide (new = q)) as [<-|Hq]; [by rewrite decide_True|].
    rewrite (decide_False (P := q = new)) by congruence. rewrite lookup_delete.
    destruct (decide (old = q)) as [<-|Ho]; [by rewrite decide_True|]. by rewrite decide_False by congruence.
  - destruct (decide (q = new)) as [->|Hq]; [done|]. by destruct (decide (q = old)) as [->|Ho].
Qed.

Lemma rename_same old new os :
  inodes (renameName old new os) = inodes os /\ objs (renameName old new os) = objs os /\
  faults (renameName old new os) = tail (faults os).
Proof. unfold renameName. cbn. repeat case_match; done. Qed.

Lemma wfOS_rename old new os : calm os -> old <> new -> names os !! new = None -> wfOS os -> wfOS (renameName old new os).
Proof.
  intros Hc Hne Hn [Hi Hr]. destruct (rename_same old new os) as [Ei _]. split; [|rewrite Ei].
  - intros a b i. rewrite !rename_lookup by done. repeat case_decide; subst; try done; intros Ha Hb; try by eapply Hi.
    + exfalso. assert (b = old) by (by eapply Hi). done.
    + exfalso. assert (a = old) by (by eapply Hi). done.
  - intros a i. rewrite rename_lookup by done. repeat case_decide; try done; apply Hr.
Qed.

(** What the calls that only move names leave alone. *)
Definition moved (os os' : OS) : Prop :=
  inodes os' = inodes os /\ objs os' = objs os /\ calm os' /\ (faults os = [] -> faults os' = []).

Lemma moved_trans os1 os2 os3 : moved os1 os2 -> moved os2 os3 -> moved os1 os3.
Proof. intros (A1 & A2 & _ & A4) (B1 & B2 & B3 & B4). split_and!; [congruence..|done|auto]. Qed.

Lemma rename_moved old new os : calm os -> moved os (renameName old new os).
Proof.
  intros Hc. destruct (rename_same old new os) as (E1 & E2 & E3).
  split_and!; [done..|by eapply calm_tail|rewrite E3; by intros ->].
Qed.

Lemma remove_moved path os : calm os -> moved os (removeName path os).
Proof. intros Hc. rewrite remove_calm by done. split_and!; [done..|by eapply calm_tail|cbn; by intros ->]. Qed.

(** Renaming from [i] downwards when [i + 1] is free moves every file up by
    one. *)
Lemma shiftFiles_spec path n i os : calm os -> (i < n)%nat -> wfOS os -> names os !! rotated path (S i) = None ->
  let os' := shiftFiles path n i os in
  wfOS os' /\ moved os os' /\ names os' !! rotated path 1 = None /\
  (forall k, (1 <= k <= i)%nat -> names os' !! rotated path (S k) = names os !! rotated path k) /\
  (forall q, (forall k, (1 <= k <= S i)%nat -> q <> rotated path k) -> names os' !! q = names os !! q).
Proof.
  revert os. induction i as [|i IH]; intros os Hcalm Hi Hw Hf; cbn [shiftFiles].
  - split_and!; [done| |done| |done]; [by split_and!|]. intros k Hk. lia.
  - rewrite (proj2 (Nat.eqb_neq _ _)) by lia. replace (S i + 1)%nat with (S (S i)) by lia.
    set (os1 := renameName _ _ os).
    assert (Hne : rotated path (S i) <> rotated path (S (S i))) by (intros E%rotated_inj; lia).
    pose proof (rename_moved (rotated path (S i)) (rotated path (S (S i))) os Hcalm) as M1. fold os1 in M1.
    assert (L : forall q, names os1 !! q = _) by (intros q; by apply rename_lookup).
    destruct (IH os1) as (W & M & N1 & K1 & Q1);
      [apply M1|lia|by apply wfOS_rename|rewrite L; rewrite decide_False by done; by rewrite decide_True|].
    split_and!; [done|by eapply moved_trans|done| |].
    + intros k Hk. destruct (decide (k = S i)) as [->|Hki].
      * rewrite Q1 by (intros j Hj E%rotated_inj; lia). rewrite L. by rewrite decide_True.
      * rewrite K1 by lia. rewrite L. rewrite !decide_False by (intros E%rotated_inj; lia). done.
    + intros q Hq. rewrite Q1 by (intros k Hk; apply Hq; lia). rewrite L.
      rewrite !decide_False by (apply Hq; lia). done.
Qed.

(** The logger has its file open under its name. *)
Definition attached (fl : FileLogger) (os : OS) : Prop :=
  wfOS os /\ exists p i, file fl = Some p /\ objs os !! p = Some (mkOSFile i true) /\ names os !! filePath fl = Some i.

(** What a method leaves alone. *)
Definition sameLogger (fl fl' : FileLogger) : Prop :=
  filePath fl' = filePath fl /\ maxLogFiles fl' = maxLogFiles fl /\ entries fl' = entries fl.

Lemma content_None os q : names os !! q = None -> content os q = None.
Proof. intros E. unfold content. by rewrite E. Qed.

Lemma content_names os os' q q' : names os' !! q' = names os !! q -> inodes os' = inodes os -> content os' q' = content os q.
Proof. intros E1 E2. unfold content. by rewrite E1, E2. Qed.

Lemma content_app os os' q : wfOS os -> names os' !! q = names os !! q -> inodes os' = inodes os ++ [[]] -> content os' q = content os q.
Proof.
  intros [_ Hr] E1 E2. unfold content. rewrite E1, E2. destruct (names os !! q) as [i|] eqn:E; [|done]. cbn.
  apply lookup_app_l. by eapply Hr.
Qed.

Lemma content_Some os q i : wfOS os -> names os !! q = Some i -> exists c, content os q = Some c /\ inodes os !! i = Some c.
Proof.
  intros [_ Hr] E. destruct (lookup_lt_is_Some_2 (inodes os) i) as [c Hc]; [by eapply Hr|].
  exists c. unfold content. by rewrite E.
Qed.

Lemma wfOS_insert path os : wfOS os -> names os !! path = None ->
  wfOS (mkOS (<[path := length (inodes os)]> (names os)) (inodes os ++ [[]]) (objs os ++ [mkOSFile (length (inodes os)) true]) (tail (faults os))).
Proof.
  intros [Hi Hr] Hn. split; cbn.
  - intros a b i. rewrite !lookup_insert. repeat case_decide; subst; try done; [| |apply Hi].
    + intros [= <-] Hb. apply Hr in Hb. lia.
    + intros Ha [= <-]. apply Hr in Ha. lia.
  - intros a i. rewrite length_app, lookup_insert. cbn. case_decide; [intros [= <-]; lia|]. intros Ha. apply Hr in Ha. lia.
Qed.

(** An opening that succeeds: the new object, the name, and what is unchanged. *)
Definition opened (path : string) (os : OS) (j : nat) (os' : OS) : Prop :=
  wfOS os' /\ objs os' = objs os ++ [mkOSFile j true] /\ names os' !! path = Some j /\
  content os' path = Some (default [] (content os path)) /\
  (forall q, q <> path -> content os' q = content os q /\ names os' !! q = names os !! q) /\
  faults os' = tail (faults os).

Lemma openAppend_spec env path os : wfOS os ->
  openAppend env path os = (None, (nextFault os).2) \/
  exists os' j, openAppend env path os = (Some (length (objs os)), os') /\ opened path os j os'.
Proof.
  intros Hw. unfold openAppend. cbn [nextFault names inodes objs faults]. destruct (_ && _); [right|by left].
  destruct (names os !! path) as [i|] eqn:En; eexists _, _; (split; [done|]).
  - destruct (content_Some os path i Hw En) as (c & Hc & Hi). split_and!; [exact Hw|done|done| |done|done].
    rewrite Hc. cbn. unfold content. cbn. by rewrite En.
  - split_and!; [by apply wfOS_insert|done|cbn; by rewrite lookup_insert_eq| | |done].
    + rewrite (content_None os) by done. unfold content. cbn. rewrite lookup_insert_eq. cbn.
      rewrite lookup_app_r by lia. by rewrite Nat.sub_diag.
    + intros q Hq. split; [|cbn; by rewrite lookup_insert_ne]. apply content_app; [done| |done]. cbn. by rewrite lookup_insert_ne.
Qed.

Lemma openAppend_ok env path os os' : openOk env path = true -> faults os = [] -> openAppend env path os <> (None, os').
Proof. intros Hk Hf. unfold openAppend. cbn. rewrite Hk, Hf. cbn. by case_match. Qed.

(** After the loop over the old files: they are one number higher, and number 1 is
    free. *)
Lemma shift_all path n os : calm os -> (0 < n)%nat -> wfOS os ->
  let os' := shiftFiles path n n os in
  wfOS os' /\ moved os os' /\ names os' !! rotated path 1 = None /\
  (forall k, (1 <= k < n)%nat -> names os' !! rotated path (S k) = names os !! rotated path k) /\
  names os' !! path = names os !! path.
Proof.
  intros Hcalm Hn Hw. destruct n as [|n]; [lia|]. cbn [shiftFiles]. rewrite Nat.eqb_refl.
  pose proof (remove_moved (rotated path (S n)) os Hcalm) as M0. pose proof (wfOS_remove (rotated path (S n)) os Hcalm Hw) as W0.
  assert (L0 : names (removeName (rotated path (S n)) os) = delete (rotated path (S n)) (names os)) by (by rewrite remove_calm).
  set (os1 := removeName _ os) in *.
  destruct (shiftFiles_spec path (S n) n os1) as (W & M & N1 & K1 & Q1); [apply M0|lia|done|by rewrite L0, lookup_delete_eq|].
  split_and!; [done|by eapply moved_trans|done| |].
  - intros k Hk. rewrite K1 by lia. rewrite L0, lookup_delete_ne; [done|]. intros E%rotated_inj. lia.
  - rewrite Q1; [rewrite L0; by rewrite lookup_delete_ne by apply rotated_ne|]. intros k _ E. by apply (rotated_ne path k).
Qed.

(** The names after the old files and the current one were moved, before the new
    file is opened. *)
Definition shifted (path : string) (n : nat) (os os' : OS) : Prop :=
  wfOS os' /\ moved os os' /\ names os' !! path = None /\ content os' (rotated path 1) = content os path /\
  (forall k, (1 <= k < n)%nat -> content os' (rotated path (S k)) = content os (rotated path k)).

Lemma move_spec path n os : calm os -> (0 < n)%nat -> wfOS os ->
  shifted path n os (renameName path (rotated path 1) (shiftFiles path n n os)).
Proof.
  intros Hcalm Hn Hw. destruct (shift_all path n os Hcalm Hn Hw) as (W2 & M2 & N2 & K2 & P2).
  set (os2 := shiftFiles path n n os) in *. pose proof M2 as (I2 & _ & C2 & _).
  assert (Hne : path <> rotated path 1) by (intros E; by apply (rotated_ne path 1)).
  pose proof (rename_moved path (rotated path 1) os2 C2) as M3. pose proof M3 as (I3 & _).
  assert (L : forall q, names (renameName path (rotated path 1) os2) !! q = _) by (intros q; by apply rename_lookup).
  split_and!; [by apply wfOS_rename|by eapply moved_trans| | |].
  - rewrite L. rewrite decide_False by done. by rewrite decide_True.
  - apply content_names; [|by rewrite I3, I2]. rewrite L. rewrite decide_True by done. by rewrite P2.
  - intros k Hk. apply content_names; [|by rewrite I3, I2]. rewrite L.
    rewrite decide_False by (intros E%rotated_inj; lia). rewrite decide_False by apply rotated_ne. by rewrite K2 by lia.
Qed.

Lemma close_same f os : names (closeFile f os) = names os /\ inodes (closeFile f os) = inodes os /\ faults (closeFile f os) = faults os.
Proof. by destruct f. Qed.

Lemma wfOS_same os os' : names os' = names os -> length (inodes os') = length (inodes os) -> wfOS os -> wfOS os'.
Proof. intros E1 E2 [Hi Hr]. split; rewrite E1; [done|]. intros a i. rewrite E2. apply Hr. Qed.

(** Where the file of a logger points after a rotation: to a new file under the
    name of the log; to number 1, when that name could not be opened; nowhere. *)
Inductive reopened (path : string) (old : option bytes) (f : option nat) (os : OS) : Prop :=
| Renewed p j : f = Some p -> objs os !! p = Some (mkOSFile j true) -> names os !! path = Some j ->
    content os path = Some [] -> content os (rotated path 1) = old -> reopened path old f os
| FellBack p j : f = Some p -> objs os !! p = Some (mkOSFile j true) -> names os !! path = None ->
    names os !! rotated path 1 = Some j -> content os (rotated path 1) = Some (default [] old) -> reopened path old f os
| NotOpened : f = None -> names os !! path = None -> content os (rotated path 1) = old -> reopened path old f os.

Lemma reopen_spec env path os : calm os -> wfOS os -> names os !! path = None ->
  let s := match openAppend env path os with
           | (Some p, os') => (Some p, os')
           | (None, os') => openAppend env (rotated path 1) os'
           end in
  wfOS s.2 /\ calm s.2 /\ (faults os = [] -> faults s.2 = []) /\ reopened path (content os (rotated path 1)) s.1 s.2 /\
  (forall k, content s.2 (rotated path (S (S k))) = content os (rotated path (S (S k)))) /\
  (openOk env path = true -> faults os = [] -> exists j, s.1 = Some (length (objs os)) /\ opened path os j s.2).
Proof.
  intros Hcalm Hw Hn. cbn zeta.
  assert (Hlast : forall (l : list OSFile) x, (l ++ [x]) !! length l = Some x)
    by (intros l x; rewrite lookup_app_r by lia; by rewrite Nat.sub_diag).
  destruct (openAppend_spec env path os Hw) as [E|(os1 & j & E & O)].
  - rewrite E. pose proof (proj2 (calm_next os Hcalm)) as Hcalm1. set (os1 := (nextFault os).2) in *.
    assert (Hfin : openOk env path = true -> faults os = [] -> forall P : Prop, P)
      by (intros A B; by destruct (openAppend_ok env path os os1 A B)).
    destruct (openAppend_spec env (rotated path 1) os1 Hw) as [E2|(os2 & j & E2 & O2)]; rewrite E2; cbn [fst snd].
    + split_and!; [done|by apply (calm_next os1)|by cbn; intros ->|by apply NotOpened|done|intros A B; by apply Hfin].
    + destruct O2 as (W & Ob & N & C & Q & F). split_and!; [done|by eapply calm_tail|by rewrite F; cbn; intros ->| | |intros A B; by apply Hfin].
      * eapply (FellBack _ _ _ _ (length (objs os1)) j); [done|by rewrite Ob| |done|done].
        destruct (Q path) as [_ ->]; [intros X; by apply (rotated_ne path 1)|done].
      * intros k. apply (Q (rotated path (S (S k)))). intros X%rotated_inj. lia.
  - rewrite E. cbn [fst snd]. pose proof O as (W & Ob & N & C & Q & F).
    split_and!; [done|by eapply calm_tail|by rewrite F; intros ->| |intros k; apply Q, rotated_ne|by exists j].
    eapply (Renewed _ _ _ _ (length (objs os)) j); [done|by rewrite Ob|done| |apply Q, rotated_ne].
    by rewrite C, (content_None os).
Qed.

Lemma rotate_spec env fl os : calm os -> wfOS os -> 0 < maxLogFiles fl ->
  exists fl' os', rotateLocked env fl os = (fl', os') /\ wfOS os' /\ calm os' /\ (faults os = [] -> faults os' = []) /\
    sameLogger fl fl' /\ bytesWritten fl' = 0 /\ maxFileSize fl' = maxFileSize fl /\
    reopened (filePath fl) (content os (filePath fl)) (file fl') os' /\
    (forall i, 1 <= Z.of_nat i < maxLogFiles fl ->
       content os' (rotated (filePath fl) (S i)) = content os (rotated (filePath fl) i)) /\
    (openOk env (filePath fl) = true -> faults os = [] -> exists os3 j, objs os3 = objs (closeFile (file fl) os) /\
       inodes os3 = inodes os /\ names os3 !! filePath fl = None /\
       file fl' = Some (length (objs os3)) /\ openAppend env (filePath fl) os3 = (file fl', os') /\ opened (filePath fl) os3 j os').
Proof.
  intros Hcalm Hw Hm. unfold rotateLocked. destruct (close_same (file fl) os) as (Nc & Ic & Fc).
  set (os1 := closeFile _ os) in *. set (n := Z.to_nat (maxLogFiles fl)). set (path := filePath fl) in *.
  assert (C1 : forall q, content os1 q = content os q) by (intros q; apply content_names; [by rewrite Nc|done]).
  destruct (move_spec path n os1) as (W3 & M3 & N3 & R3 & K3);
    [unfold calm; by rewrite Fc|lia|by apply (wfOS_same os); rewrite ?Ic|].
  set (os3 := renameName path (rotated path 1) (shiftFiles path n n os1)) in *. pose proof M3 as (I3 & O3 & Calm3 & F3).
  destruct (reopen_spec env path os3 Calm3 W3 N3) as (W4 & Calm4 & F4 & R4 & K4 & X4).
  destruct (openAppend env path os3) as [[p|] os4] eqn:E4; [set (s := (Some p, os4)) in *|destruct (openAppend env (rotated path 1) os4) as [q os5] eqn:E5; set (s := (q, os5)) in *];
    (eexists _, s.2; split; [reflexivity|]; rewrite R3, C1 in R4;
     split_and!; [done|done|intros A; apply F4, F3; by rewrite Fc|done|done|done|exact R4| |]).
  1, 3: intros i Hi; destruct i as [|i]; [lia|]; rewrite <- C1, K4; apply K3; lia.
  - intros A B. destruct X4 as (j & E & O); [done|apply F3; by rewrite Fc|]. exists os3, j.
    split_and!; [done|by rewrite I3|done|exact E|exact E4|exact O].
  - intros A B. destruct (openAppend_ok env path os3 os4 A); [apply F3; by rewrite Fc|done].
Qed.


Lemma write_open f data os o q : wfOS os -> openFile f os = Some o -> names os !! q = Some (inode o) ->
  exists n os' cur, writeFile f data os = (n, (n =? length data)%nat, os') /\ wfOS os' /\
    names os' = names os /\ objs os' = objs os /\ faults os' = tail (faults os) /\ length (inodes os') = length (inodes os) /\
    (faults os = [] -> n = length data) /\
    content os q = Some cur /\ content os' q = Some (cur ++ take n data) /\
    (forall r, r <> q -> content os' r = content os r).
Proof.
  intros Hw Ho Hn. unfold writeFile. rewrite Ho. cbn [nextFault].
  set (n := match writeMax _ with Some m => _ | None => _ end).
  destruct (content_Some os q _ Hw Hn) as (cur & Hc & Hi). eexists n, _, cur. split; [done|]. cbn [names inodes objs faults].
  split_and!; [|done..| | |done| |].
  - apply (wfOS_same os); [done|cbn; by rewrite length_alter|done].
  - by rewrite length_alter.
  - unfold n. by intros ->.
  - unfold content. cbn. rewrite Hn. cbn. by rewrite list_lookup_alter_eq, Hi.
  - intros r Hr. unfold content. cbn. destruct (names os !! r) as [j|] eqn:Ej; [|done]. cbn.
    apply list_lookup_alter_ne. intros Ei. rewrite <- Ei in Ej. by apply Hr, (proj1 Hw _ _ _ Ej Hn).
Qed.

(** ** Runs of a logger *)






Lemma openFile_obj p os o : objs os !! p = Some o -> isOpen o = true -> openFile (Some p) os = Some o.
Proof. intros E Ho. unfold openFile. cbn. rewrite E. cbn. by rewrite Ho. Qed.





(** *** When nothing fails *)

Lemma attached_open fl os : attached fl os -> exists o, openFile (file fl) os = Some o /\ names os !! filePath fl = Some (inode o).
Proof. intros (_ & p & i & -> & Ho & Hn). exists (mkOSFile i true). split; [by apply openFile_obj|done]. Qed.

Lemma write_attached fl os data k : attached fl os -> faults os = [] ->
  exists os' cur, writeFile (file fl) data os = (length data, true, os') /\ attached (setFile (file fl) k fl) os' /\ faults os' = [] /\
    length (inodes os') = length (inodes os) /\ objs os' = objs os /\
    content os (filePath fl) = Some cur /\ content os' (filePath fl) = Some (cur ++ data).
Proof.
  intros Ha Hf. destruct (attached_open fl os Ha) as (o & Ho & Hn).
  destruct (write_open (file fl) data os o (filePath fl) (proj1 Ha) Ho Hn)
    as (n & os' & cur & E & W & N & O & F & L & G & C1 & C2 & _).
  rewrite G in * by done. rewrite Nat.eqb_refl in E. rewrite take_ge in C2 by lia. exists os', cur. split_and!; [done| |by rewrite F, Hf|done..].
  destruct Ha as (_ & p & i & Hp & Hob & Hi). split; [done|]. exists p, i. cbn. by rewrite N, O.
Qed.

Lemma rotate_attached env fl os : openOk env (filePath fl) = true -> 0 < maxLogFiles fl -> wfOS os -> faults os = [] ->
  let s := rotateLocked env fl os in
  attached s.1 s.2 /\ faults s.2 = [] /\ sameLogger fl s.1 /\ bytesWritten s.1 = 0 /\ content s.2 (filePath fl) = Some [].
Proof.
  intros Hk Hm Hw Hf. cbn zeta. assert (Hcalm : calm os) by (unfold calm; rewrite Hf; constructor).
  destruct (rotate_spec env fl os Hcalm Hw Hm) as (fl' & os' & E & W & _ & F & (S1 & S2 & S3) & B & _ & _ & _ & X).
  rewrite E. cbn [fst snd]. destruct (X Hk Hf) as (os3 & j & _ & _ & N3 & Hfile & _ & (_ & Ob & Nm & C & _)).
  split_and!; [|auto|done..|by rewrite C, (content_None os3)].
  split; [done|]. exists (length (objs os3)), j. rewrite S1, Ob, lookup_app_r by lia. by rewrite Nat.sub_diag.
Qed.


(** The counter of the logger is the size of its file, and no call leaves a file
    that has reached the limit, as long as nothing fails. *)
Theorem log_size env fl os data cur : openOk env (filePath fl) = true -> 0 < maxLogFiles fl -> attached fl os -> faults os = [] ->
  content os (filePath fl) = Some cur -> bytesWritten fl = Z.of_nat (length cur) -> 0 < maxFileSize fl ->
  Z.of_nat (length cur) + Z.of_nat (length data) < 2 ^ 63 ->
  let s := appendLine env data fl os in
  exists cur', content s.2 (filePath fl) = Some cur' /\ bytesWritten s.1 = Z.of_nat (length cur') /\
    Z.of_nat (length cur') < maxFileSize fl.
Proof.
  intros Hk Hm Ha Hf Hc Hb Hs Hl. unfold appendLine.
  destruct (write_attached fl os data (Z.of_nat (length cur) + Z.of_nat (length data)) Ha Hf) as (os1 & cur' & Ew & A1 & F1 & _ & _ & Hc' & C1).
  rewrite Hc in Hc'. injection Hc' as <-. rewrite Ew, Hb, to_int64_id by lia.
  set (fl1 := setFile _ _ fl) in *. unfold checkAndRotate.
  change (maxFileSize fl1) with (maxFileSize fl). change (bytesWritten fl1) with (Z.of_nat (length cur) + Z.of_nat (length data)).
  rewrite (proj2 (Z.leb_gt _ _)) by lia. cbn [orb]. case (Z.ltb_spec (Z.of_nat (length cur) + Z.of_nat (length data)) (maxFileSize fl)) as [Hlt|Hge].
  - exists (cur ++ data). rewrite length_app. split_and!; [done|cbn; lia|lia].
  - destruct (rotate_attached env fl1 os1 Hk Hm (proj1 A1) F1) as (A2 & _ & _ & B2 & C2). exists []. by split_and!.
Qed.

(** *** Sequences of calls *)

Section Runs.
Context {value : Type} (Sprint : value -> bytes) (Sprintf : bytes -> list value -> bytes)
        (MarshalIndent : list LogEntry -> option bytes) (env : OSEnv).

Inductive logOp :=
| doLog (timestamp message : bytes)
| doInfo (timestamp : bytes) (message : value) (a : list value)
| doFlush
| doMaxFileSize (size : Z)
| doMaxLogFiles (n : Z)
| doClose.

Definition runOp (s : FileLogger * OS) (op : logOp) : FileLogger * OS :=
  match op with
  | doLog ts msg => Log env ts msg s.1 s.2
  | doInfo ts msg a => Info Sprint Sprintf env ts msg a s.1 s.2
  | doFlush => Flush MarshalIndent env s.1 s.2
  | doMaxFileSize n => (SetMaxFileSize n s.1, s.2)
  | doMaxLogFiles n => (SetMaxLogFiles n s.1, s.2)
  | doClose => (s.1, Close s.1 s.2)
  end.

(** The line of a call. *)
Definition line (op : logOp) : bytes :=
  match op with
  | doLog ts msg => logLine ts msg
  | doInfo ts msg a => logLine ts (Sprintf (Sprint msg) a)
  | _ => []
  end.






End Runs.




(** ** Examples *)

Definition emptyOS : OS := mkOS ∅ [] [] [].
Definition openEnv : OSEnv := mkOSEnv "/srv" (const true) (const true) (const true) (const (Ok [])).
Definition sampleOps : list (@logOp bytes) :=
  [doMaxFileSize 10; doLog [49] [65; 66]; doInfo [50] [67] []; doFlush; doMaxLogFiles 3;
   doLog [51] [68; 68; 68; 68; 68; 68]; doLog [52] [69]].
Definition plainSprintf (f : bytes) (a : list bytes) : bytes := f ++ mjoin a.

(** A run of the sample calls on a new logger. *)
Definition sampleRun (os : OS) : OS :=
  match NewFileLogger openEnv initGlobals "app.log" os with
  | (Ok fl, os) => (foldl (runOp id plainSprintf (const None) openEnv) (fl, os) sampleOps).2
  | (_, os) => os
  end.

Definition sampleFiles (os : OS) : list (option bytes) :=
  [content os "logs/app.log"; content os "logs/app.log.1"; content os "logs/app.log.2"; content os "logs/app.log.3"].

(** Four lines in files of at most ten bytes. *)
Example sample_log : sampleFiles (sampleRun emptyOS) =
  [Some [52; 58; 32; 69; 10];
   Some [51; 58; 32; 68; 68; 68; 68; 68; 68; 10];
   Some [49; 58; 32; 65; 66; 10; 50; 58; 32; 67; 10]; None].
Proof. vm_compute. reflexivity. Qed.

(** The same calls when the second line is cut after three bytes and, at the
    rotation that the third line brings, the log file cannot be opened: the last
    line goes to number 1. *)
Definition sampleFaults : OS :=
  mkOS ∅ [] [] ([noFault; noFault; noFault; mkFault false false false (Some 3%nat); noFault] ++
                replicate 4 noFault ++ [mkFault true false false None]).

Example sample_log_faults : sampleFiles (sampleRun sampleFaults) =
  [None;
   Some [49; 58; 32; 65; 66; 10; 50; 58; 32; 51; 58; 32; 68; 68; 68; 68; 68; 68; 10; 52; 58; 32; 69; 10];
   None; None].
Proof. vm_compute. reflexivity. Qed.



(** ** Reading the end of a file *)

Lemma afterNewline_suffix data rest : afterNewline data = Some rest ->
  exists pre, data = pre ++ newline :: rest /\ (newline ∉ pre) /\ rest <> [].
Proof.
  induction data as [|c data IH]; [done|]. cbn. destruct (Z.eqb_spec c newline) as [->|Hc].
  - destruct data; [done|]. intros [= <-]. exists []. split_and!; [done|apply not_elem_of_nil|done].
  - intros (pre & -> & Hp & Hr)%IH. exists (c :: pre). split_and!; [done| |done]. apply not_elem_of_cons. naive_solver.
Qed.

Lemma afterNewline_None data : afterNewline data = None -> exists pre, (newline ∉ pre) /\ (data = pre \/ data = pre ++ [newline]).
Proof.
  induction data as [|c data IH]; [intros _; exists []; split; [apply not_elem_of_nil|by left]|]. cbn.
  destruct (Z.eqb_spec c newline) as [->|Hc].
  - destruct data; [|done]. intros _. exists []. split; [apply not_elem_of_nil|by right].
  - intros (pre & Hp & H)%IH. exists (c :: pre). split; [apply not_elem_of_cons; naive_solver|]. destruct H as [->| ->]; auto.
Qed.

(** Reading a log file gives its end, at most as many bytes as asked for (and
    never more than 4 MB): all of it when it is short enough, else from the start of
    a line, unless the part that is read has no line end before its last byte. *)
Theorem read_tail maxBytes data : let r := readTail maxBytes data in
  let limit := if (maxBytes <=? 0) || (defaultMaxLogReadBytes <? maxBytes) then defaultMaxLogReadBytes else maxBytes in
  exists pre, data = pre ++ r /\ Z.of_nat (length r) <= limit /\
    (pre = [] \/ (exists pre', pre = pre' ++ [newline]) \/ (exists line, (newline ∉ line) /\ (r = line \/ r = line ++ [newline]))) /\
    (Z.of_nat (length data) <= limit -> pre = []).
Proof.
  intros r limit. unfold r, readTail. fold limit.
  assert (Hl : 0 < limit) by (unfold limit; destruct (Z.leb_spec maxBytes 0); cbn; [done|]; destruct (Z.ltb_spec defaultMaxLogReadBytes maxBytes); [done|lia]).
  clearbody limit. destruct (Z.ltb_spec limit (Z.of_nat (length data))) as [Hs|Hs].
  - set (k := Z.to_nat (Z.of_nat (length data) - limit)). rewrite (proj2 (Z.ltb_lt _ _)) by lia.
    assert (Lk : Z.of_nat (length (drop k data)) <= limit) by (rewrite length_drop; lia).
    destruct (afterNewline (drop k data)) as [rest|] eqn:E; cbn [default].
    + apply afterNewline_suffix in E as (pre & E & _ & _). exists (take k data ++ pre ++ [newline]). split_and!.
      * transitivity (take k data ++ drop k data); [by rewrite take_drop|]. rewrite E. by rewrite <- !app_assoc.
      * rewrite E, length_app in Lk. cbn [length] in Lk. unfold id. lia.
      * right. left. exists (take k data ++ pre). by rewrite app_assoc.
      * lia.
    + apply afterNewline_None in E as (line & Hn & E). exists (take k data). split_and!; [by rewrite take_drop|done| |lia].
      right. right. by exists line.
  - cbn. exists []. by split_and!; auto.
Qed.
