(* ===== verification/Logger.v ===== *)
(** * The logger

    Models [pkg/logger/logger.go]: the configuration, the outputs, the levels, the
    format of a line, and the file log with its goroutine that looks for a new day.

    The variables of the package are one state ([LogWorld]).  [config] and
    [logger.Config] are pointers that may differ after [SetConfig], so that
    configurations live in a heap; so do file loggers, since [EnableDailyFileLog]
    gives its caller the pointer it keeps.  Files are those of [LogFile]:
    [os.Stdout] and [os.Stderr] are the first two that were opened.  Time stamps,
    dates and the results of [fmt] and [encoding/json] are arguments; the requests
    to Telegram are recorded, not sent.  The package has no lock for the
    configuration: calls are modelled as if one ran at a time. *)

From S2P Require Import Prelude GoStrings LogFile.

Local Open Scope Z_scope.

Definition FLAG_DEBUGP : Z := 0.
Definition FLAG_TELEGRAM : Z := 6.
Definition FLAG_TRACE : Z := 5.
Definition FLAG_DEBUG : Z := 4.
Definition FLAG_INFO : Z := 3.
Definition FLAG_WARN : Z := 2.
Definition FLAG_ERROR : Z := 1.

(** The escape sequences of a terminal; 27 is the escape character. *)
Definition escape (code : string) : bytes := 27 :: str code.
Definition Reset : bytes := escape "[0m".
Definition Red : bytes := escape "[31m".
Definition Green : bytes := escape "[32m".
Definition Yellow : bytes := escape "[33m".
Definition Blue : bytes := escape "[34m".
Definition Purple : bytes := escape "[35m".
Definition Cyan : bytes := escape "[36m".

Record LoggerConfig := mkConfig {
  Flag : Z; Identifier : bytes; TelegramToken : bytes; TelegramChatId : Z; TelegramThreadId : Z;
  Outputs : list (option nat)
}.

(** The goroutine of [startFileLoggerRotationLocked]: its file name, whether its
    channel is closed, whether it has returned. *)
Record Rotator := mkRotator { rName : string; stopped : bool; returned : bool }.

Record LogWorld := mkWorld {
  os : OS;
  configs : list LoggerConfig;            (* the heap; [logger.Config] is number 0 *)
  config : nat;
  consoleOutputEnabled : bool;
  loggers : list FileLogger;              (* the heap of file loggers *)
  fileLoggerInstance : option nat;
  fileLoggerFileName : string;
  fileLoggerCurrentDate : string;
  rotators : list Rotator;
  fileLoggerRotationStop : option nat;
  stdWriters : list nat;                  (* the writers of the package [log] *)
  telegram : list (bytes * bytes)         (* URL and body of the requests *)
}.

Definition Stdout : nat := 0.
Definition Stderr : nat := 1.

Definition zeroConfig : LoggerConfig := mkConfig 0 [] [] 0 0 [].
Definition initConfig : LoggerConfig := mkConfig FLAG_INFO [] [] 0 0 [Some Stdout].

Definition setOS o (w : LogWorld) : LogWorld :=
  mkWorld o (configs w) (config w) (consoleOutputEnabled w) (loggers w) (fileLoggerInstance w) (fileLoggerFileName w)
          (fileLoggerCurrentDate w) (rotators w) (fileLoggerRotationStop w) (stdWriters w) (telegram w).
Definition setConfigs cs (w : LogWorld) : LogWorld :=
  mkWorld (os w) cs (config w) (consoleOutputEnabled w) (loggers w) (fileLoggerInstance w) (fileLoggerFileName w)
          (fileLoggerCurrentDate w) (rotators w) (fileLoggerRotationStop w) (stdWriters w) (telegram w).
Definition setConfigPtr c (w : LogWorld) : LogWorld :=
  mkWorld (os w) (configs w) c (consoleOutputEnabled w) (loggers w) (fileLoggerInstance w) (fileLoggerFileName w)
          (fileLoggerCurrentDate w) (rotators w) (fileLoggerRotationStop w) (stdWriters w) (telegram w).
Definition setConsole b (w : LogWorld) : LogWorld :=
  mkWorld (os w) (configs w) (config w) b (loggers w) (fileLoggerInstance w) (fileLoggerFileName w)
          (fileLoggerCurrentDate w) (rotators w) (fileLoggerRotationStop w) (stdWriters w) (telegram w).
Definition setLoggers ls (w : LogWorld) : LogWorld :=
  mkWorld (os w) (configs w) (config w) (consoleOutputEnabled w) ls (fileLoggerInstance w) (fileLoggerFileName w)
          (fileLoggerCurrentDate w) (rotators w) (fileLoggerRotationStop w) (stdWriters w) (telegram w).
Definition setInstance i (w : LogWorld) : LogWorld :=
  mkWorld (os w) (configs w) (config w) (consoleOutputEnabled w) (loggers w) i (fileLoggerFileName w)
          (fileLoggerCurrentDate w) (rotators w) (fileLoggerRotationStop w) (stdWriters w) (telegram w).
Definition setFileName n (w : LogWorld) : LogWorld :=
  mkWorld (os w) (configs w) (config w) (consoleOutputEnabled w) (loggers w) (fileLoggerInstance w) n
          (fileLoggerCurrentDate w) (rotators w) (fileLoggerRotationStop w) (stdWriters w) (telegram w).
Definition setDate d (w : LogWorld) : LogWorld :=
  mkWorld (os w) (configs w) (config w) (consoleOutputEnabled w) (loggers w) (fileLoggerInstance w) (fileLoggerFileName w)
          d (rotators w) (fileLoggerRotationStop w) (stdWriters w) (telegram w).
Definition setRotators rs st (w : LogWorld) : LogWorld :=
  mkWorld (os w) (configs w) (config w) (consoleOutputEnabled w) (loggers w) (fileLoggerInstance w) (fileLoggerFileName w)
          (fileLoggerCurrentDate w) rs st (stdWriters w) (telegram w).
Definition setWriters ws (w : LogWorld) : LogWorld :=
  mkWorld (os w) (configs w) (config w) (consoleOutputEnabled w) (loggers w) (fileLoggerInstance w) (fileLoggerFileName w)
          (fileLoggerCurrentDate w) (rotators w) (fileLoggerRotationStop w) ws (telegram w).
Definition addTelegram t (w : LogWorld) : LogWorld :=
  mkWorld (os w) (configs w) (config w) (consoleOutputEnabled w) (loggers w) (fileLoggerInstance w) (fileLoggerFileName w)
          (fileLoggerCurrentDate w) (rotators w) (fileLoggerRotationStop w) (stdWriters w) (telegram w ++ [t]).

Definition configOf (w : LogWorld) : LoggerConfig := default zeroConfig (configs w !! config w).
Definition loggerConfig (w : LogWorld) : LoggerConfig := default zeroConfig (configs w !! 0%nat).
Definition onConfig (p : nat) (f : LoggerConfig -> LoggerConfig) (w : LogWorld) : LogWorld :=
  setConfigs (alter f p (configs w)) w.

Definition withOutputs (outs : list (option nat)) (c : LoggerConfig) : LoggerConfig :=
  mkConfig (Flag c) (Identifier c) (TelegramToken c) (TelegramChatId c) (TelegramThreadId c) outs.

(** ** Outputs *)

Fixpoint dedupeLoop (seen : list nat) (outputs : list (option nat)) : list (option nat) :=
  match outputs with
  | [] => []
  | None :: rest => dedupeLoop seen rest
  | Some out :: rest =>
      if bool_decide (out ∈ seen) then dedupeLoop seen rest else Some out :: dedupeLoop (out :: seen) rest
  end.

Definition dedupeOutputs (outputs : list (option nat)) : list (option nat) := dedupeLoop [] outputs.

Definition enforceConsolePreference (console : bool) (outputs : list (option nat)) : list (option nat) :=
  if console then
    if bool_decide (Some Stdout ∈ outputs) then outputs else outputs ++ [Some Stdout]
  else filter (fun out => out <> Some Stdout) outputs.

(** No writer at all is [io.Discard]. *)
Definition syncStdLoggerOutputs (w : LogWorld) : LogWorld := setWriters (omap id (Outputs (configOf w))) w.

Definition setOutputsUnsafe (outputs : list (option nat)) (w : LogWorld) : LogWorld :=
  let outs := enforceConsolePreference (consoleOutputEnabled w) (dedupeOutputs outputs) in
  let w := onConfig (config w) (withOutputs outs) w in
  let w := onConfig 0 (withOutputs (Outputs (configOf w))) w in
  syncStdLoggerOutputs w.

Definition instanceFile (w : LogWorld) : option nat := p ← fileLoggerInstance w; fl ← loggers w !! p; file fl.

Definition attachFileLoggerOutputLocked (w : LogWorld) : LogWorld :=
  match instanceFile w with
  | None => w
  | Some f => setOutputsUnsafe (Outputs (configOf w) ++ [Some f]) w
  end.

Definition removeOutputLocked (target : option nat) (w : LogWorld) : LogWorld :=
  match target with
  | None => w
  | Some _ => setOutputsUnsafe (filter (fun out => out <> None /\ out <> target) (Outputs (configOf w))) w
  end.

(** ** Configuration *)

(** [newConfig] is a pointer, [None] is nil. *)
Definition SetConfig (newConfig : option nat) (w : LogWorld) : LogWorld :=
  match newConfig with
  | None => w
  | Some c =>
      let w := setConfigPtr c w in
      let w := setOutputsUnsafe (Outputs (configOf w)) w in
      let n := configOf w in
      let w := onConfig 0 (fun l => mkConfig (Flag n) (Identifier n) (TelegramToken n) (TelegramChatId n) (TelegramThreadId n) (Outputs l)) w in
      attachFileLoggerOutputLocked w
  end.

Definition SetOutputs (outputs : list (option nat)) (w : LogWorld) : LogWorld :=
  attachFileLoggerOutputLocked (setOutputsUnsafe outputs w).

Definition SetFlag (flag : Z) (w : LogWorld) : LogWorld :=
  onConfig (config w) (fun c => mkConfig flag (Identifier c) (TelegramToken c) (TelegramChatId c) (TelegramThreadId c) (Outputs c)) w.
Definition SetTelegramGroupInfo (token : bytes) (chatId threadId : Z) (w : LogWorld) : LogWorld :=
  onConfig (config w) (fun c => mkConfig (Flag c) (Identifier c) token chatId threadId (Outputs c)) w.
Definition SetTelegramInfo (token : bytes) (chatId : Z) (w : LogWorld) : LogWorld := SetTelegramGroupInfo token chatId 0 w.
Definition SetIdentifier (identifier : bytes) (w : LogWorld) : LogWorld :=
  onConfig (config w) (fun c => mkConfig (Flag c) identifier (TelegramToken c) (TelegramChatId c) (TelegramThreadId c) (Outputs c)) w.

Definition SetConsoleOutputEnabled (enabled : bool) (w : LogWorld) : LogWorld :=
  let w := setConsole enabled w in setOutputsUnsafe (Outputs (configOf w)) w.

(** ** Lines *)

Section Lines.
(** [fmt]: [asString] is the type assertion [message.(string)], [Sprint] the text
    of [%v], and [Sprintf] a format with its arguments; [encoding/json] on a string, which does
    not fail; [machineIP] is the text of [getMachineIP]. *)
Context {value : Type} (asString : value -> option bytes) (Sprint : value -> bytes) (Sprintf : bytes -> list value -> bytes)
        (marshalString : bytes -> bytes) (machineIP : bytes) (itoa : Z -> bytes).

Definition logContent (message : value) (a : list value) : bytes :=
  match asString message, a with
  | Some f, _ :: _ => Sprintf f a
  | _, _ => Sprint message ++ mjoin ((fun v => newline :: Sprint v) <$> a)
  end.

Definition getLogBuffer (c : LoggerConfig) (stamp color prefix : bytes) (message : value) (a : list value) : bytes :=
  let contentBytes := logContent message a in
  color
  ++ (match Identifier c with [] => [] | id => [91] ++ id ++ [93] end)
  ++ [91] ++ prefix ++ [93; 91] ++ stamp ++ [93; 32]
  ++ (match last contentBytes with Some b => if b =? newline then [] else [32] | None => [] end)
  ++ contentBytes
  ++ (if bool_decide (color <> [] /\ color <> Reset) then Reset else [])
  ++ [newline].

(** Errors of [Write] are ignored. *)
Fixpoint writeAll (outs : list (option nat)) (buffer : bytes) (o : OS) : OS :=
  match outs with
  | [] => o
  | f :: rest => writeAll rest buffer (writeFile f buffer o).2
  end.

Definition writeToOutputs (buffer : bytes) (w : LogWorld) : LogWorld :=
  setOS (writeAll (Outputs (loggerConfig w)) buffer (os w)) w.

Definition writeToError (buffer : bytes) (w : LogWorld) : LogWorld :=
  if consoleOutputEnabled w then setOS (writeFile (Some Stderr) buffer (os w)).2 w else w.

Definition telegramPayload (c : LoggerConfig) (messageContent : bytes) : bytes :=
  let finalMsg := messageContent ++ [newline; newline] ++ str "[Máy báo cáo: " ++ machineIP ++ str "]" in
  let quote := [34] in
  str "{" ++ quote ++ str "chat_id" ++ quote ++ str ": " ++ quote ++ itoa (TelegramChatId c) ++ quote ++ str ", "
  ++ (if 0 <? TelegramThreadId c
      then quote ++ str "message_thread_id" ++ quote ++ str ": " ++ quote ++ itoa (TelegramThreadId c) ++ quote ++ str ", " else [])
  ++ quote ++ str "text" ++ quote ++ str ": " ++ marshalString finalMsg ++ str "}".

Definition sendToTelegram (messageContent : bytes) (w : LogWorld) : LogWorld :=
  let c := configOf w in
  addTelegram (str "https://api.telegram.org/bot" ++ TelegramToken c ++ str "/sendMessage", telegramPayload c messageContent) w.

(** [DebugP], [Trace], [Debug], [Info] and [Warn] differ in level, color and
    prefix. *)
Definition logAt (level : Z) (color : bytes) (prefix : string) (stamp : bytes) (message : value) (a : list value) (w : LogWorld) : LogWorld :=
  if Flag (configOf w) <? level then w
  else writeToOutputs (getLogBuffer (configOf w) stamp color (str prefix) message a) w.

Definition DebugP := logAt FLAG_DEBUGP Purple "DEBUG_P".
Definition Trace := logAt FLAG_TRACE Blue "TRACE".
Definition Debug := logAt FLAG_DEBUG Cyan "DEBUG".
Definition Info := logAt FLAG_INFO Green "INFO".
Definition Warn := logAt FLAG_WARN Yellow "WARN".

(** Each buffer has its own time stamp. *)
Definition Error (stamp stamp' : bytes) (message : value) (a : list value) (w : LogWorld) : LogWorld :=
  let c := configOf w in
  if Flag c <? FLAG_ERROR then w
  else
    let w :=
      if bool_decide (TelegramToken c <> [] /\ TelegramChatId c <> 0)
      then sendToTelegram (getLogBuffer c stamp [] (str "ERROR") message a) w else w in
    let colored := getLogBuffer c stamp' Red (str "ERROR") message a in
    writeToError colored (writeToOutputs colored w).

Definition Telegram (stamp : bytes) (message : value) (a : list value) (w : LogWorld) : LogWorld :=
  if Flag (configOf w) <? FLAG_TELEGRAM then w
  else sendToTelegram (getLogBuffer (configOf w) stamp [] (str "TELE") message a) w.
End Lines.

(** ** The file log *)

Definition stopFileLoggerRotationLocked (w : LogWorld) : LogWorld :=
  match fileLoggerRotationStop w with
  | None => w
  | Some r => setRotators (alter (fun g => mkRotator (rName g) true (returned g)) r (rotators w)) None w
  end.

Definition startFileLoggerRotationLocked (w : LogWorld) : LogWorld :=
  let w := stopFileLoggerRotationLocked w in
  setRotators (rotators w ++ [mkRotator (fileLoggerFileName w) false false]) (Some (length (rotators w))) w.

(** [NewFileLogger], with the object it allocates. *)
Definition newLogger (env : OSEnv) (g : LogGlobals) (name : string) (w : LogWorld) : option nat * LogWorld :=
  match NewFileLogger env g name (os w) with
  | (Ok fl, o) => (Some (length (loggers w)), setLoggers (loggers w ++ [fl]) (setOS o w))
  | (_, o) => (None, setOS o w)
  end.

(** [Close] of the file logger at a pointer. *)
Definition closeLogger (p : option nat) (w : LogWorld) : LogWorld :=
  match p ≫= fun p => loggers w !! p with
  | Some fl => setOS (Close fl (os w)) w
  | None => w
  end.

Definition EnableDailyFileLog (env : OSEnv) (g : LogGlobals) (today fileName : string) (w : LogWorld) : outcome nat * LogWorld :=
  let trimmed := TrimSpace fileName in
  let trimmed :=
    if bool_decide (trimmed = ""%string)
    then if bool_decide (fileLoggerFileName w = ""%string) then "app.log"%string else fileLoggerFileName w
    else trimmed in
  let w :=
    match fileLoggerInstance w with
    | None => w
    | old =>
        let w := stopFileLoggerRotationLocked w in
        let oldFile := instanceFile w in
        removeOutputLocked oldFile (closeLogger old (setInstance None w))
    end in
  match newLogger env g trimmed w with
  | (None, w) => (Err (ErrText "failed to open log file"), w)
  | (Some p, w) =>
      let w := setDate today (setFileName trimmed (setInstance (Some p) w)) in
      (Ok p, startFileLoggerRotationLocked (attachFileLoggerOutputLocked w))
  end.

Definition CloseFileLog (w : LogWorld) : LogWorld :=
  match fileLoggerInstance w with
  | None => w
  | Some _ =>
      let w := stopFileLoggerRotationLocked w in
      let w := closeLogger (fileLoggerInstance w) w in
      setDate "" (setInstance None (removeOutputLocked (instanceFile w) w))
  end.

Definition rotateFileLoggerLocked (env : OSEnv) (g : LogGlobals) (newDate : string) (w : LogWorld) : LogWorld :=
  match newLogger env g (fileLoggerFileName w) w with
  | (None, w) => w
  | (Some p, w) =>
      let oldLogger := fileLoggerInstance w in
      let oldFile := instanceFile w in
      let w := attachFileLoggerOutputLocked (setDate newDate (setInstance (Some p) w)) in
      match oldLogger with
      | None => w
      | Some _ => closeLogger oldLogger (removeOutputLocked oldFile w)
      end
  end.

(** A tick of the goroutine [r].  A goroutine whose channel is closed may still
    take a tick before it sees that. *)
Definition rotatorTick (env : OSEnv) (g : LogGlobals) (r : nat) (nowDate : string) (w : LogWorld) : LogWorld :=
  match rotators w !! r with
  | Some rot =>
      if returned rot then w
      else if bool_decide (fileLoggerInstance w = None \/ fileLoggerFileName w <> rName rot)
      then setRotators (alter (fun g => mkRotator (rName g) (stopped g) true) r (rotators w)) (fileLoggerRotationStop w) w
      else if bool_decide (nowDate <> fileLoggerCurrentDate w) then rotateFileLoggerLocked env g nowDate w
      else w
  | None => w
  end.

Definition rotatorStop (r : nat) (w : LogWorld) : LogWorld :=
  match rotators w !! r with
  | Some rot =>
      if stopped rot
      then setRotators (alter (fun g => mkRotator (rName g) (stopped g) true) r (rotators w)) (fileLoggerRotationStop w) w else w
  | None => w
  end.

(** [Log] of the file logger at a pointer that a caller holds. *)
Definition loggerLog (env : OSEnv) (p : nat) (timestamp message : bytes) (w : LogWorld) : LogWorld :=
  match loggers w !! p with
  | Some fl => let '(fl', o) := Log env timestamp message fl (os w) in setLoggers (<[p := fl']> (loggers w)) (setOS o w)
  | None => w
  end.

(** The package [log] starts on [os.Stderr]. *)
Definition initWorld : LogWorld :=
  mkWorld (mkOS ∅ [[]; []] [mkOSFile 0 true; mkOSFile 1 true] []) [initConfig] 0 true [] None "" "" [] None [Stderr] [].

(** * The logger: where lines go

    In every state that calls of the package reach, the outputs have no
    duplicates and no nil, both configurations agree on them, and the console is
    one of them when it is enabled ([outputs_invariant]); a line goes exactly once to
    every open output ([line_delivered]).  A rotation by size takes the file out of
    reach of these lines ([rotation_detaches]), and the rotation of a new day keeps
    the same file ([daily_same_file]). *)

(** ** Outputs *)

Lemma dedupe_spec outs : forall seen,
  NoDup (dedupeLoop seen outs) /\ (forall o, o ∈ dedupeLoop seen outs <-> exists p, o = Some p /\ o ∈ outs /\ p ∉ seen).
Proof.
  induction outs as [|[p|] outs IH]; intros seen; cbn [dedupeLoop].
  - split; [constructor|]. intros o. rewrite elem_of_nil. split; [done|]. intros (p & _ & H & _). by apply elem_of_nil in H.
  - case_bool_decide as Hs.
    + destruct (IH seen) as [Hn Hm]. split; [done|]. intros o. rewrite Hm. split; intros (q & -> & Hq & Hns); exists q; split_and!; auto.
      * by right.
      * apply elem_of_cons in Hq as [[= ->]|Hq]; done.
    + destruct (IH (p :: seen)) as [Hn Hm]. split.
      * constructor; [|done]. rewrite Hm. intros (q & [= <-] & _ & Hq). apply Hq. by left.
      * intros o. rewrite elem_of_cons, Hm. split.
        -- intros [->|(q & -> & Hq & Hns)]; [exists p; split_and!; [done|by left|done]|].
           exists q. split_and!; [done|by right|]. intros H. apply Hns. by right.
        -- intros (q & -> & Hq & Hns). destruct (decide (q = p)) as [->|Hqp]; [by left|right]. exists q.
           split_and!; [done| |]; [apply elem_of_cons in Hq as [[= ->]|Hq]; done|]. rewrite not_elem_of_cons. done.
  - destruct (IH seen) as [Hn Hm]. split; [done|]. intros o. rewrite Hm. split; intros (q & -> & Hq & Hns); exists q; split_and!; auto.
    + by right.
    + by apply elem_of_cons in Hq as [[=]|Hq].
Qed.

(** What the outputs of a configuration are like after they have been set. *)
Definition goodOutputs (console : bool) (outs : list (option nat)) : Prop :=
  NoDup outs /\ (None ∉ outs) /\ (Some Stdout ∈ outs <-> console = true).

Lemma enforced_good console outs : goodOutputs console (enforceConsolePreference console (dedupeOutputs outs)).
Proof.
  destruct (dedupe_spec outs []) as [Hn Hm]. fold (dedupeOutputs outs) in Hn, Hm.
  assert (HN : None ∉ dedupeOutputs outs) by (rewrite Hm; naive_solver).
  unfold enforceConsolePreference. destruct console; [case_bool_decide as Hs|].
  - by split_and!.
  - split_and!; [| |split; [done|intros _; apply elem_of_app; right; by apply list_elem_of_singleton]].
    + apply NoDup_app. split_and!; [done| |apply NoDup_singleton]. intros o Ho ->%list_elem_of_singleton. done.
    + rewrite not_elem_of_app. split; [done|]. by intros ?%list_elem_of_singleton.
  - split_and!; [by apply NoDup_filter| |].
    + rewrite list_elem_of_filter. naive_solver.
    + rewrite list_elem_of_filter. naive_solver.
Qed.

(** The pointers of the configuration are valid. *)
Definition validConfig (w : LogWorld) : Prop := (0 < length (configs w))%nat /\ (config w < length (configs w))%nat.

Definition outputsOk (w : LogWorld) : Prop :=
  validConfig w /\ Outputs (loggerConfig w) = Outputs (configOf w) /\ goodOutputs (consoleOutputEnabled w) (Outputs (configOf w)).

Lemma lookup_alter_default {A} (f : A -> A) (l : list A) p q d : (q < length l)%nat ->
  default d (alter f p l !! q) = if decide (p = q) then f (default d (l !! q)) else default d (l !! q).
Proof.
  intros Hq. destruct (lookup_lt_is_Some_2 l q Hq) as [x Hx]. destruct (decide (p = q)) as [->|Hne].
  - by rewrite list_lookup_alter_eq, Hx.
  - by rewrite list_lookup_alter_ne.
Qed.

Lemma setOutputs_spec outs w : validConfig w ->
  let w' := setOutputsUnsafe outs w in
  validConfig w' /\ config w' = config w /\ consoleOutputEnabled w' = consoleOutputEnabled w /\ os w' = os w /\
  loggers w' = loggers w /\ fileLoggerInstance w' = fileLoggerInstance w /\
  Outputs (configOf w') = enforceConsolePreference (consoleOutputEnabled w) (dedupeOutputs outs) /\
  Outputs (loggerConfig w') = Outputs (configOf w').
Proof.
  intros [H0 Hc]. cbn zeta. unfold setOutputsUnsafe. set (e := enforceConsolePreference _ _).
  assert (V : (0 < length (alter (withOutputs e) (config w) (configs w)))%nat /\
              (config w < length (alter (withOutputs e) (config w) (configs w)))%nat) by (by rewrite length_alter).
  set (w1 := onConfig (config w) (withOutputs e) w).
  assert (E1 : Outputs (configOf w1) = e).
  { unfold configOf. cbn. rewrite lookup_alter_default by done. by rewrite decide_True. }
  rewrite E1.
  assert (G : forall q, q = 0%nat \/ q = config w ->
              Outputs (default zeroConfig (alter (withOutputs e) 0%nat (alter (withOutputs e) (config w) (configs w)) !! q)) = e).
  { intros q Hq. rewrite lookup_alter_default by (destruct Hq as [->| ->]; apply V). case_decide as Ed; [done|].
    destruct Hq as [->| ->]; [done|]. rewrite lookup_alter_default by done. by rewrite decide_True. }
  split_and!; try done.
  - unfold validConfig. cbn. by rewrite !length_alter.
  - apply G. by right.
  - etransitivity; [apply G; by left|]. symmetry. apply G. by right.
Qed.

Lemma setOutputs_ok outs w : validConfig w -> outputsOk (setOutputsUnsafe outs w).
Proof.
  intros Hv. destruct (setOutputs_spec outs w Hv) as (V & _ & C & _ & _ & _ & E & L). split_and!; [done..|].
  rewrite C, E. apply enforced_good.
Qed.

(** ** Calls *)

Lemma outputsOk_same w w' : configs w' = configs w -> config w' = config w -> consoleOutputEnabled w' = consoleOutputEnabled w ->
  outputsOk w -> outputsOk w'.
Proof. intros E1 E2 E3. unfold outputsOk, validConfig, loggerConfig, configOf. by rewrite E1, E2, E3. Qed.

Lemma onConfig_ok p f w : (forall c, Outputs (f c) = Outputs c) -> outputsOk w -> outputsOk (onConfig p f w).
Proof.
  intros Hf ([V0 Vc] & E & G).
  assert (O : forall q, (q < length (configs w))%nat -> Outputs (default zeroConfig (alter f p (configs w) !! q)) = Outputs (default zeroConfig (configs w !! q))).
  { intros q Hq. rewrite lookup_alter_default by done. case_decide; [apply Hf|done]. }
  unfold outputsOk, validConfig, loggerConfig, configOf in *. cbn. rewrite !length_alter, !O by done. done.
Qed.

Lemma attach_ok w : outputsOk w -> outputsOk (attachFileLoggerOutputLocked w).
Proof. intros H. unfold attachFileLoggerOutputLocked. destruct (instanceFile w); [|done]. apply setOutputs_ok, H. Qed.

Lemma remove_ok t w : outputsOk w -> outputsOk (removeOutputLocked t w).
Proof. intros H. unfold removeOutputLocked. destruct t; [|done]. apply setOutputs_ok, H. Qed.

Ltac same_outputs := eapply outputsOk_same; [..|eassumption]; reflexivity.

Lemma stop_ok w : outputsOk w -> outputsOk (stopFileLoggerRotationLocked w).
Proof. intros H. unfold stopFileLoggerRotationLocked. case_match; [same_outputs|done]. Qed.

Lemma closeLogger_ok p w : outputsOk w -> outputsOk (closeLogger p w).
Proof. intros H. unfold closeLogger. case_match; [same_outputs|done]. Qed.

Lemma newLogger_ok env g name w : outputsOk w -> outputsOk (newLogger env g name w).2.
Proof. intros H. unfold newLogger. destruct (NewFileLogger _ _ _ _) as [[ | | | ] ?]; same_outputs. Qed.

Create HintDb outputs.
#[local] Hint Resolve attach_ok remove_ok stop_ok closeLogger_ok newLogger_ok : outputs.

Lemma fields_ok w i n d r s l t : outputsOk w ->
  outputsOk (mkWorld (os w) (configs w) (config w) (consoleOutputEnabled w) l i n d r s (stdWriters w) t).
Proof. intros H. same_outputs. Qed.

Lemma rotate_ok env g d w : outputsOk w -> outputsOk (rotateFileLoggerLocked env g d w).
Proof.
  intros H. unfold rotateFileLoggerLocked. pose proof (newLogger_ok env g (fileLoggerFileName w) w H) as Hn.
  destruct (newLogger env g (fileLoggerFileName w) w) as [[p|] w1]; cbn [snd] in Hn; [|done].
  assert (outputsOk (attachFileLoggerOutputLocked (setDate d (setInstance (Some p) w1)))) as Ha by (apply attach_ok, fields_ok, Hn).
  case_match; [|done]. by apply closeLogger_ok, remove_ok.
Qed.

Lemma enable_ok env g today name w : outputsOk w -> outputsOk (EnableDailyFileLog env g today name w).2.
Proof.
  intros H. unfold EnableDailyFileLog. set (trimmed := if bool_decide _ then _ else _). set (w1 := match fileLoggerInstance w with None => w | _ => _ end).
  assert (H1 : outputsOk w1) by (unfold w1; case_match; [apply remove_ok, closeLogger_ok, fields_ok, stop_ok, H|done]).
  pose proof (newLogger_ok env g trimmed w1 H1) as Hn. destruct (newLogger env g trimmed w1) as [[p|] w2]; cbn [snd] in *; [|done].
  set (w3 := setDate today (setFileName trimmed (setInstance (Some p) w2))).
  assert (H3 : outputsOk (attachFileLoggerOutputLocked w3)) by (apply attach_ok, fields_ok, Hn).
  apply fields_ok, stop_ok, H3.
Qed.

Section Calls.
Context {value : Type} (asString : value -> option bytes) (Sprint : value -> bytes) (Sprintf : bytes -> list value -> bytes)
        (marshalString : bytes -> bytes) (machineIP : bytes) (itoa : Z -> bytes) (env : OSEnv) (g : LogGlobals).

(** The calls of the package; [SetConfig] is given a new object.  The five levels
    are [logAt] at their level. *)
Inductive logCall :=
| callSetConfig (c : option LoggerConfig)
| callSetOutputs (outs : list (option nat))
| callSetFlag (flag : Z)
| callSetTelegram (token : bytes) (chatId threadId : Z)
| callSetIdentifier (identifier : bytes)
| callConsole (enabled : bool)
| callLogAt (level : Z) (color : bytes) (prefix : string) (stamp : bytes) (message : value) (a : list value)
| callError (stamp stamp' : bytes) (message : value) (a : list value)
| callTelegram (stamp : bytes) (message : value) (a : list value)
| callEnable (today fileName : string)
| callClose
| callTick (r : nat) (nowDate : string)
| callStop (r : nat)
| callFileLog (p : nat) (timestamp message : bytes).

Definition runCall (w : LogWorld) (call : logCall) : LogWorld :=
  match call with
  | callSetConfig None => SetConfig None w
  | callSetConfig (Some c) => SetConfig (Some (length (configs w))) (setConfigs (configs w ++ [c]) w)
  | callSetOutputs outs => SetOutputs outs w
  | callSetFlag flag => SetFlag flag w
  | callSetTelegram token chatId threadId => SetTelegramGroupInfo token chatId threadId w
  | callSetIdentifier identifier => SetIdentifier identifier w
  | callConsole enabled => SetConsoleOutputEnabled enabled w
  | callLogAt level color prefix stamp message a => logAt asString Sprint Sprintf level color prefix stamp message a w
  | callError stamp stamp' message a => Error asString Sprint Sprintf marshalString machineIP itoa stamp stamp' message a w
  | callTelegram stamp message a => Telegram asString Sprint Sprintf marshalString machineIP itoa stamp message a w
  | callEnable today fileName => (EnableDailyFileLog env g today fileName w).2
  | callClose => CloseFileLog w
  | callTick r nowDate => rotatorTick env g r nowDate w
  | callStop r => rotatorStop r w
  | callFileLog p timestamp message => loggerLog env p timestamp message w
  end.

Lemma setConfig_ok c w : outputsOk w -> outputsOk (SetConfig (Some (length (configs w))) (setConfigs (configs w ++ [c]) w)).
Proof.
  intros H. cbn [SetConfig]. set (w1 := setConfigPtr _ _).
  assert (V1 : validConfig w1) by (unfold validConfig; cbn; rewrite length_app; cbn; lia).
  apply attach_ok, onConfig_ok; [done|]. by apply setOutputs_ok.
Qed.

Lemma runCall_ok call w : outputsOk w -> outputsOk (runCall w call).
Proof.
  intros H. destruct call; cbn [runCall].
  - destruct c; [by apply setConfig_ok|done].
  - apply attach_ok, setOutputs_ok, H.
  - by apply onConfig_ok.
  - by apply onConfig_ok.
  - by apply onConfig_ok.
  - apply setOutputs_ok, H.
  - unfold logAt. case_match; [done|same_outputs].
  - unfold Error. destruct (_ <? _); [done|]. unfold writeToError, writeToOutputs, sendToTelegram.
    destruct (bool_decide _); cbn; case_match; same_outputs.
  - unfold Telegram. case_match; [done|same_outputs].
  - by apply enable_ok.
  - unfold CloseFileLog. case_match; [|done]. by apply fields_ok, remove_ok, closeLogger_ok, stop_ok.
  - unfold rotatorTick. repeat case_match; first [done|by apply rotate_ok|same_outputs].
  - unfold rotatorStop. repeat case_match; first [done|same_outputs].
  - unfold loggerLog. case_match; [|done]. destruct (Log _ _ _ _ _). same_outputs.
Qed.

(** In every state that calls of the package reach, no output is nil or
    listed twice, the console is one of them exactly when it is enabled, and the
    configuration the lines are written with has the same outputs as the current
    one. *)
Theorem outputs_invariant calls : outputsOk (foldl runCall initWorld calls).
Proof.
  assert (I : outputsOk initWorld).
  { split_and!; [by unfold validConfig; cbn; lia|done|]. unfold goodOutputs. cbn. split_and!.
    - apply NoDup_singleton.
    - by intros ?%list_elem_of_singleton.
    - split; [done|intros _; by apply list_elem_of_singleton]. }
  revert I. generalize initWorld as w. induction calls as [|call calls IH]; intros w Hw; [done|].
  cbn [foldl]. by apply IH, runCall_ok.
Qed.
End Calls.

(** ** Where a line goes *)

Lemma writeFile_same f b o : names (writeFile f b o).2 = names o /\ objs (writeFile f b o).2 = objs o.
Proof. unfold writeFile. by case_match. Qed.

Lemma openFile_same f o o' : objs o' = objs o -> openFile f o' = openFile f o.
Proof. intros E. unfold openFile. destruct f as [p|]; cbn; [by rewrite E|done]. Qed.

(** The outputs through which a line reaches file [i]. *)
Definition reaching (i : nat) (o : OS) (outs : list (option nat)) : list (option nat) :=
  filter (fun f => inode <$> openFile f o = Some i) outs.

Lemma reaching_same i o o' outs : objs o' = objs o -> reaching i o' outs = reaching i o outs.
Proof.
  intros E. unfold reaching. induction outs as [|f outs IH]; [done|]. rewrite !filter_cons, (openFile_same f o o' E), IH. done.
Qed.

(** One write: what it adds to a file, all of the data when nothing fails. *)
Lemma writeFile_spec f b o : exists d, (faults o = [] -> d = b /\ faults (writeFile f b o).2 = []) /\
  forall i, inodes (writeFile f b o).2 !! i =
    (fun c => c ++ (if decide (inode <$> openFile f o = Some i) then d else [])) <$> inodes o !! i.
Proof.
  unfold writeFile. destruct (openFile f o) as [x|]; cbn [fst snd nextFault inodes faults fmap option_fmap option_map].
  - set (n := match writeMax _ with Some m => _ | None => _ end). exists (take n b). split.
    + intros Hf. split; [|by rewrite Hf]. apply take_ge. unfold n. rewrite Hf. cbn. done.
    + intros i. case_decide as Hx.
      * injection Hx as <-. by rewrite list_lookup_alter_eq.
      * rewrite list_lookup_alter_ne by congruence. destruct (inodes o !! i); cbn; [by rewrite app_nil_r|done].
  - exists b. split; [done|]. intros i. rewrite decide_False by done. destruct (inodes o !! i); cbn; [by rewrite app_nil_r|done].
Qed.

Lemma writeAll_same outs b : forall o, names (writeAll outs b o) = names o /\ objs (writeAll outs b o) = objs o.
Proof.
  induction outs as [|f outs IH]; intros o; cbn [writeAll]; [done|].
  destruct (IH (writeFile f b o).2) as [-> ->]. apply writeFile_same.
Qed.

(** A file that no output reaches stays as it is, whatever fails. *)
Lemma writeAll_unreached i outs b : forall o, reaching i o outs = [] -> inodes (writeAll outs b o) !! i = inodes o !! i.
Proof.
  induction outs as [|f outs IH]; intros o; [done|]. unfold reaching. rewrite filter_cons. case_decide as Hx; [done|].
  fold (reaching i o outs). intros Hr. cbn [writeAll]. destruct (writeFile_same f b o) as [_ O1].
  rewrite IH by (by rewrite (reaching_same _ _ _ _ O1)). destruct (writeFile_spec f b o) as (d & _ & ->).
  rewrite decide_False by done. destruct (inodes o !! i); cbn; [by rewrite app_nil_r|done].
Qed.

Lemma writeAll_spec i outs b : forall o, faults o = [] ->
  inodes (writeAll outs b o) !! i = (fun c => c ++ mjoin (replicate (length (reaching i o outs)) b)) <$> inodes o !! i.
Proof.
  induction outs as [|f outs IH]; intros o Hf; cbn [writeAll].
  - cbn. destruct (inodes o !! i); cbn; [by rewrite app_nil_r|done].
  - destruct (writeFile_spec f b o) as (d & Hd & W). destruct (Hd Hf) as [-> Hf'].
    rewrite IH, W by done. rewrite (reaching_same _ _ _ _ (proj2 (writeFile_same f b o))).
    unfold reaching at 2. rewrite filter_cons. fold (reaching i o outs).
    case_decide; destruct (inodes o !! i); cbn; by rewrite ?app_nil_r, ?app_assoc.
Qed.

Section Delivery.
Context {value : Type} (asString : value -> option bytes) (Sprint : value -> bytes) (Sprintf : bytes -> list value -> bytes).

(** A line of an enabled level is added once for every output that has the file open,
    at the end of the file, and no other file changes, as long as no write fails; a
    level that is not enabled writes nothing. *)
Theorem line_delivered level color prefix stamp message a w i :
  let buffer := getLogBuffer asString Sprint Sprintf (configOf w) stamp color (str prefix) message a in
  faults (os w) = [] ->
  inodes (os (logAt asString Sprint Sprintf level color prefix stamp message a w)) !! i =
    (fun c => c ++ mjoin (replicate (if Flag (configOf w) <? level then 0%nat
                                      else length (reaching i (os w) (Outputs (loggerConfig w)))) buffer)) <$> inodes (os w) !! i.
Proof.
  cbn zeta. intros Hf. unfold logAt. case_match.
  - destruct (inodes (os w) !! i); cbn; [|done]. by rewrite app_nil_r.
  - cbn [os writeToOutputs setOS]. by apply writeAll_spec.
Qed.

(** The files that the open ones refer to exist, and so do the outputs. *)
Definition wfOutputs (w : LogWorld) : Prop :=
  wfOS (os w) /\ Forall (fun x => (inode x < length (inodes (os w)))%nat) (objs (os w)) /\
  Forall (fun f => forall p, f = Some p -> (p < length (objs (os w)))%nat) (Outputs (loggerConfig w)).

(** After a rotation by size no output has the new file open. *)
Lemma rotate_unreached env fl w fl' o' : wfOutputs w -> attached fl (os w) -> faults (os w) = [] ->
  openOk env (filePath fl) = true -> 0 < maxLogFiles fl -> rotateLocked env fl (os w) = (fl', o') ->
  exists i, names o' !! filePath fl = Some i /\ inodes o' !! i = Some [] /\ reaching i o' (Outputs (loggerConfig w)) = [].
Proof.
  intros (Hw & Ho & Hf) Ha Hnf Hk Hm E. assert (Hcalm : calm (os w)) by (unfold calm; rewrite Hnf; constructor).
  destruct (rotate_spec env fl (os w) Hcalm Hw Hm) as (fl2 & o2 & E2 & _ & _ & _ & _ & _ & _ & _ & _ & X).
  rewrite E in E2. injection E2 as <- <-.
  destruct (X Hk Hnf) as (o3 & j & O3 & I3 & N3 & Hfile & Eo & (_ & Ob & Nm & C & _)).
  exists j. split; [done|]. rewrite (content_None o3) in C by done. unfold content in C. rewrite Nm in C. split; [exact C|].
  assert (Ej : j = length (inodes (os w))).
  { revert Eo. unfold openAppend. cbn [nextFault names inodes objs faults]. rewrite N3.
    case_match; [|rewrite Hfile; done]. rewrite I3. intros [= _ <-]. cbn in Nm. rewrite lookup_insert_eq in Nm. congruence. }
  match goal with |- ?r = [] => destruct r as [|f l] eqn:Er; [done|exfalso] end.
  assert (Hin : f ∈ f :: l) by left. rewrite <- Er in Hin. apply list_elem_of_filter in Hin as [Hr Hfin].
  destruct f as [q|]; [|done]. pose proof (proj1 (Forall_forall _ _) Hf _ Hfin q eq_refl) as Hq.
  destruct Ha as (_ & p0 & i0 & Hp0 & Hpo0 & Hn0). rewrite Hp0 in O3. cbn in O3.
  revert Hr. unfold openFile. cbn. rewrite Ob, O3, lookup_app_l by (by rewrite length_alter).
  destruct (decide (p0 = q)) as [->|Hne].
  - rewrite list_lookup_alter_eq, Hpo0. done.
  - rewrite list_lookup_alter_ne by done. destruct (lookup_lt_is_Some_2 (objs (os w)) q Hq) as [x Hx]. rewrite Hx. cbn.
    destruct (isOpen x); [|done]. cbn. intros [= Hi].
    pose proof (proj1 (Forall_lookup _ _) Ho q x Hx) as Hlt. cbn in Hlt. lia.
Qed.

Lemma logAt_keeps level color prefix stamp message a w : let w' := logAt asString Sprint Sprintf level color prefix stamp message a w in
  names (os w') = names (os w) /\ objs (os w') = objs (os w) /\ configs w' = configs w.
Proof.
  cbn zeta. unfold logAt. case_match; [done|]. cbn [os writeToOutputs setOS configs].
  by destruct (writeAll_same (Outputs (loggerConfig w)) (getLogBuffer asString Sprint Sprintf (configOf w) stamp color (str prefix) message a) (os w)) as (-> & ->).
Qed.

(** A file that no output reaches stays as it is. *)
Definition unreached (path : string) (c : bytes) (w : LogWorld) : Prop :=
  exists i, names (os w) !! path = Some i /\ inodes (os w) !! i = Some c /\ reaching i (os w) (Outputs (loggerConfig w)) = [].

Definition line : Type := Z * bytes * string * bytes * value * list value.
Definition logLineAt (w : LogWorld) (l : line) : LogWorld :=
  let '(level, color, prefix, stamp, message, a) := l in logAt asString Sprint Sprintf level color prefix stamp message a w.

Lemma unreached_lines path c lines : forall w, unreached path c w -> unreached path c (foldl logLineAt w lines).
Proof.
  induction lines as [|[[[[[level color] prefix] stamp] message] a] lines IH]; intros w Hw; [done|]. cbn [foldl]. apply IH.
  destruct Hw as (i & Hn & Hi & Hr). destruct (logAt_keeps level color prefix stamp message a w) as (En & Eo & Ec).
  cbn [logLineAt]. exists i. unfold loggerConfig. rewrite En, Ec, (reaching_same _ _ _ _ Eo). split_and!; [done| |done].
  unfold logAt. case_match; [done|]. cbn [os writeToOutputs setOS]. by rewrite writeAll_unreached.
Qed.

(** A rotation by size takes the log file away from the logger: when a line that
    is written through the [FileLogger] makes its file reach the limit, the logger
    goes on writing to the file that was closed, and no line of any level reaches
    the new one, which stays empty (no system call fails during the rotation). *)
Theorem rotation_detaches env p fl ts msg lines w : loggers w !! p = Some fl -> wfOutputs w -> attached fl (os w) ->
  faults (os w) = [] ->
  openOk env (filePath fl) = true -> 0 < maxLogFiles fl -> 0 < maxFileSize fl -> 0 <= bytesWritten fl ->
  maxFileSize fl <= bytesWritten fl + Z.of_nat (length (logLine ts msg)) < 2 ^ 63 ->
  content (os (foldl logLineAt (loggerLog env p ts msg w) lines)) (filePath fl) = Some [].
Proof.
  intros Hp (Hw & Ho & Hf) Ha Hnf Hk Hm Hs Hb Hl.
  assert (U : unreached (filePath fl) [] (loggerLog env p ts msg w)).
  { unfold loggerLog, Log, appendLine. rewrite Hp. set (data := logLine ts msg) in *.
    destruct (write_attached fl (os w) data (bytesWritten fl + Z.of_nat (length data)) Ha Hnf) as (o1 & cur & Ew & A1 & F1 & I1 & O1 & _).
    rewrite Ew, to_int64_id by lia. set (fl1 := setFile _ _ fl). unfold checkAndRotate.
    change (maxFileSize fl1) with (maxFileSize fl). change (bytesWritten fl1) with (bytesWritten fl + Z.of_nat (length data)).
    rewrite (proj2 (Z.leb_gt _ _)), (proj2 (Z.ltb_ge _ _)) by lia. cbn [orb].
    destruct (rotateLocked env fl1 o1) as [fl2 o2] eqn:E2.
    destruct (rotate_unreached env fl1 (setOS o1 w) fl2 o2) as (i & Hn & Hi & Hr); try done.
    - split_and!; cbn; [apply A1|by rewrite O1, I1|by rewrite O1].
    - exists i. by split_and!. }
  destruct (unreached_lines _ _ lines _ U) as (i & Hn & Hi & _). unfold content. by rewrite Hn.
Qed.

(** The rotation of a new day opens the same file again: its name does not depend on
    the date, and its contents stay. *)
Theorem daily_same_file env g r d w p0 fl0 : wfOS (os w) -> (exists rot, rotators w !! r = Some rot /\ returned rot = false /\ rName rot = fileLoggerFileName w) ->
  fileLoggerInstance w = Some p0 -> loggers w !! p0 = Some fl0 ->
  filePath fl0 = Join [globalLogDir g; getEpochDir; fileLoggerFileName w] ->
  content (os (rotatorTick env g r d w)) (filePath fl0) = content (os w) (filePath fl0) \/
    content (os w) (filePath fl0) = None /\ content (os (rotatorTick env g r d w)) (filePath fl0) = Some [].
Proof.
  intros Hw (rot & Hr & Hret & Hrn) Hi Hl Hpath. unfold rotatorTick. rewrite Hr, Hret. rewrite bool_decide_eq_false_2 by (rewrite Hi, Hrn; naive_solver).
  case_bool_decide; [|by left]. unfold rotateFileLoggerLocked, newLogger.
  destruct (NewFileLogger env g (fileLoggerFileName w) (os w)) as [o o1] eqn:E.
  assert (C : content o1 (filePath fl0) = content (os w) (filePath fl0) \/ content (os w) (filePath fl0) = None /\ content o1 (filePath fl0) = Some []).
  { rewrite Hpath. revert E. unfold NewFileLogger. destruct (_ && _); [intros [= <- <-]; by left|]. set (full := Join _).
    destruct (openAppend_spec env full (os w) Hw) as [->|(o' & j & -> & (_ & _ & _ & Cn & _))]; [intros [= <- <-]; by left|].
    cbn [nextFault]. intros [= <- <-].
    change (content o' full = content (os w) full \/ content (os w) full = None /\ content o' full = Some []).
    rewrite Cn. destruct (content (os w) full); [by left|by right]. }
  destruct o as [fl| | |]; [|exact C..].
  cbn [fileLoggerInstance setLoggers setOS]. rewrite Hi.
  match goal with |- context [closeLogger ?a ?b] => assert (K : content (os (closeLogger a b)) (filePath fl0) = content (os b) (filePath fl0)) end.
  { unfold closeLogger. case_match; [|done]. cbn. unfold Close, closeFile. by case_match. }
  rewrite K. clear K.
  assert (R : forall t x, os (removeOutputLocked t x) = os x) by (intros t x; unfold removeOutputLocked; by destruct t).
  assert (A : forall x, os (attachFileLoggerOutputLocked x) = os x) by (intros x; unfold attachFileLoggerOutputLocked; by case_match).
  rewrite R, A. exact C.
Qed.
End Delivery.

(** ** Example: the new file after a rotation stays empty *)

Definition enabledWorld : LogWorld :=
  let w := (EnableDailyFileLog openEnv initGlobals "2026-01-01" "app.log" initWorld).2 in
  setLoggers (alter (SetMaxFileSize 4) 0%nat (loggers w)) w.

Definition infoLine (text : bytes) (w : LogWorld) : LogWorld := Info Some id plainSprintf [] text [] w.

Example detached_lines :
  let w := infoLine [72; 105] (loggerLog openEnv 0 [] [65; 66] (infoLine [79; 75] enabledWorld)) in
  (content (os w) "logs/app.log" = Some []) /\ length (default [] (content (os w) "logs/app.log.1")) = 27%nat.
Proof. vm_compute. split; reflexivity. Qed.
