(* ===== verification/LogCleaner.v ===== *)
(** * The log cleaner

    Models [pkg/loggerfile/log_cleaner.go]: directories of old epochs are removed,
    except for the newest ones.  The log directory is what [os.Stat] and
    [os.ReadDir] find; whether an entry can be removed is an argument, and so is
    the order in which [sort.Slice] leaves entries that compare equal.  The path of
    an entry is represented by its name in the directory. *)

From stdpp Require Import sorting.
From S2P Require Import Prelude GoStrings.

Local Open Scope Z_scope.

Inductive Node :=
| NFile (size : Z)
| NDir (children : list (string * Node)).

Definition isDir (n : Node) : bool := match n with NDir _ => true | NFile _ => false end.

(** [filepath.Walk] over all files below a path. *)
Fixpoint dirSize (n : Node) : Z :=
  match n with
  | NFile size => size
  | NDir children => foldr (fun c acc => dirSize c.2 + acc) 0 children
  end.

Abbreviation entry := (string * Node)%type.

(** What [os.Stat] says about the log directory. *)
Inductive DirStat :=
| NotExist
| StatError
| NotADirectory
| Directory (entries : list entry).

Record LogCleaner := mkCleaner {
  logDir : string;
  stopClosed : bool;
  maxEpochsToKeep : Z;
  cleanInterval : Z;         (* nanoseconds *)
  disableCleanup : bool
}.

Definition Minute : Z := 60 * 1000000000.

Definition NewLogCleaner (dir : string) : LogCleaner := mkCleaner dir false 3 (60 * Minute) false.

Definition SetMaxEpochsToKeep (n : Z) (lc : LogCleaner) : LogCleaner :=
  if n =? 0 then mkCleaner (logDir lc) (stopClosed lc) (maxEpochsToKeep lc) (cleanInterval lc) true
  else mkCleaner (logDir lc) (stopClosed lc) (if n <? 1 then 3 else n) (cleanInterval lc) (disableCleanup lc).

Definition SetCleanInterval (d : Z) (lc : LogCleaner) : LogCleaner :=
  mkCleaner (logDir lc) (stopClosed lc) (maxEpochsToKeep lc) (if d <? 10 * Minute then 10 * Minute else d) (disableCleanup lc).

Definition SetDisableCleanup (disable : bool) (lc : LogCleaner) : LogCleaner :=
  mkCleaner (logDir lc) (stopClosed lc) (maxEpochsToKeep lc) (cleanInterval lc) disable.

Definition IsCleanupDisabled (lc : LogCleaner) : bool := disableCleanup lc.

Record epochEntry := mkEpoch { epoch : Z; path : string }.

(** The loop body that collects the directories [epoch_N]. *)
Definition epochOf (e : entry) : option epochEntry :=
  if isDir e.2 && String.prefix "epoch_" e.1
  then n ← parseUintDec (String.substring 6 (String.length e.1 - 6) e.1); Some (mkEpoch n e.1)
  else None.

(** The name of a year, from an older layout: four characters that are a number,
    which may have a sign. *)
Definition legacyDate (e : entry) : bool :=
  isDir e.2 && (String.length e.1 =? 4)%nat && bool_decide (is_Some (atoi e.1)).

Section Clean.
Context (removeOk : string -> bool) (readOk : bool) (order : list epochEntry -> list epochEntry).

Definition cleanLegacyDateDirs (entries : list entry) : list entry :=
  if readOk then filter (fun e => ~ (legacyDate e = true /\ removeOk e.1 = true)) entries else entries.

Definition removeEpochs (old : list epochEntry) (entries : list entry) : list entry :=
  filter (fun e => ~ (e.1 ∈ path <$> old /\ removeOk e.1 = true)) entries.

Definition CleanOldEpochLogs (lc : LogCleaner) : stm DirStat unit := fun d =>
  if disableCleanup lc then (Ok tt, d)
  else
    match d with
    | NotExist => (Ok tt, d)
    | StatError => (Panic, d)
    | NotADirectory => (Err (ErrText "log path is not a directory"), d)
    | Directory entries =>
        if negb readOk then (Err (ErrText "cannot read log directory"), d)
        else
          let epochs := omap epochOf entries in
          if Z.of_nat (length epochs) <=? maxEpochsToKeep lc then (Ok tt, d)
          else
            let old := drop (Z.to_nat (maxEpochsToKeep lc)) (order epochs) in
            (Ok tt, Directory (cleanLegacyDateDirs (removeEpochs old entries)))
    end.
End Clean.

(** The size that [logDiskUsage] prints. *)
Definition logDiskUsage (d : DirStat) : Z :=
  match d with Directory entries => dirSize (NDir entries) | _ => 0 end.

(** Closing a closed channel panics. *)
Definition Stop : stm LogCleaner unit := fun lc =>
  if stopClosed lc then (Panic, lc)
  else (Ok tt, mkCleaner (logDir lc) true (maxEpochsToKeep lc) (cleanInterval lc) (disableCleanup lc)).

(** A tick of the goroutine of [StartPeriodicCleanup]; an error is only logged. *)
Definition cleanTick removeOk readOk order (lc : LogCleaner) (d : DirStat) : outcome unit * DirStat :=
  match CleanOldEpochLogs removeOk readOk order lc d with
  | (Err _, d') => (Ok tt, d')
  | r => r
  end.

(** ** What is kept *)

(** [sort.Slice] by descending epoch: a permutation in that order, nothing more. *)
Definition sortsDescending (order : list epochEntry -> list epochEntry) : Prop :=
  forall l, Permutation (order l) l /\ StronglySorted (fun a b => epoch b <= epoch a) (order l).

Section Kept.
Context (order : list epochEntry -> list epochEntry) (Horder : sortsDescending order).

Abbreviation all := (fun _ : string => true).

Lemma epochOf_path e x : epochOf e = Some x -> path x = e.1.
Proof. unfold epochOf. case_match; [|done]. destruct (parseUintDec _); [|done]. by intros [= <-]. Qed.

(** A name of four characters is too short for an epoch. *)
Lemma epochOf_not_legacy e x : epochOf e = Some x -> legacyDate e = false.
Proof.
  unfold epochOf, legacyDate. destruct (isDir e.2); [|done]. cbn [andb]. destruct (String.prefix "epoch_" e.1) eqn:Ep; [|done].
  destruct (Nat.eqb_spec (String.length e.1) 4) as [El|]; [|done]. exfalso. clear -Ep El.
  destruct e.1 as [|a [|b [|c [|d [|f s]]]]]; cbn in El; try lia. 
  cbn in Ep. repeat (case_match; try done).
Qed.

Lemma omap_filter_epochs (keep : entry -> Prop) `{!forall e, Decision (keep e)} (keep' : epochEntry -> Prop) `{!forall x, Decision (keep' x)} (entries : list entry) :
  (forall e x, epochOf e = Some x -> keep e <-> keep' x) ->
  omap epochOf (filter keep entries) = filter keep' (omap epochOf entries).
Proof.
  intros Hkk. induction entries as [|e entries IH]; [done|]. rewrite filter_cons. cbn [omap list_omap].
  destruct (epochOf e) as [x|] eqn:E; case_decide as Hk; cbn [omap list_omap]; rewrite ?E, ?IH; try done.
  - rewrite filter_cons_True; [done|]. by apply (Hkk _ _ E).
  - rewrite filter_cons_False; [done|]. by rewrite <- (Hkk _ _ E).
Qed.

Lemma NoDup_epoch_paths (entries : list entry) : NoDup entries.*1 -> NoDup (path <$> omap epochOf entries).
Proof.
  induction entries as [|e entries IH]; [constructor|]. cbn [omap list_omap fmap list_fmap]. intros [He Hn]%NoDup_cons.
  destruct (epochOf e) as [x|] eqn:E; [|by apply IH]. rewrite fmap_cons. constructor; [|by apply IH].
  rewrite (epochOf_path _ _ E). intros (y & Ey & Hy)%list_elem_of_fmap. apply He.
  apply list_elem_of_omap in Hy as (e' & He' & Hy). apply epochOf_path in Hy. apply list_elem_of_fmap. exists e'. by rewrite Ey, Hy.
Qed.

Lemma filter_split (kept removed : list epochEntry) : NoDup (path <$> kept ++ removed) ->
  filter (fun x => path x ∉ path <$> removed) (kept ++ removed) = kept.
Proof.
  intros Hn. rewrite fmap_app in Hn. apply NoDup_app in Hn as (_ & Hd & _). rewrite filter_app.
  assert (E1 : filter (fun x => path x ∉ path <$> removed) kept = kept).
  { induction kept as [|x kept IH]; [done|]. rewrite filter_cons_True; [f_equal; apply IH|].
    - intros y Hy. apply Hd. by right.
    - apply Hd. by left. }
  rewrite E1. rewrite <- (app_nil_r kept) at 2. f_equal.
  assert (G : forall l, l ⊆ removed -> filter (fun x => path x ∉ path <$> removed) l = []).
  { induction l as [|x l IH]; [done|]. intros Hl. rewrite filter_cons_False; [apply IH; intros y Hy; apply Hl; by right|].
    intros H. apply H. apply list_elem_of_fmap. exists x. split; [done|]. apply Hl. by left. }
  by apply G.
Qed.

(** What cleaning leaves of [entries]. *)
Definition cleanedTo (n : Z) (entries entries' : list entry) : Prop :=
  if Z.of_nat (length (omap epochOf entries)) <=? n then entries' = entries
  else exists kept removed, kept ++ removed ≡ₚ omap epochOf entries /\ omap epochOf entries' ≡ₚ kept /\
    Z.of_nat (length kept) = n /\
    (forall k r, k ∈ kept -> r ∈ removed -> epoch r <= epoch k) /\
    (forall e, e ∈ entries' <-> e ∈ entries /\ legacyDate e = false /\ e.1 ∉ path <$> removed).

Lemma clean_spec lc (entries : list entry) :
  disableCleanup lc = false -> 1 <= maxEpochsToKeep lc -> NoDup entries.*1 ->
  exists entries', CleanOldEpochLogs all true order lc (Directory entries) = (Ok tt, Directory entries') /\
    cleanedTo (maxEpochsToKeep lc) entries entries'.
Proof.
  intros Hd Hn Hu. unfold CleanOldEpochLogs, cleanedTo. rewrite Hd. cbn [negb].
  destruct (Z.leb_spec (Z.of_nat (length (omap epochOf entries))) (maxEpochsToKeep lc)) as [Hle|Hgt]; [by eexists|].
  eexists. split; [done|]. set (epochs := omap epochOf entries) in *. set (n := Z.to_nat (maxEpochsToKeep lc)).
  destruct (Horder epochs) as [Hp Hs]. exists (take n (order epochs)), (drop n (order epochs)).
  set (removed := drop n (order epochs)).
  assert (Ep : order epochs = take n (order epochs) ++ removed) by (symmetry; apply take_drop).
  split_and!.
  - by rewrite <- Ep.
  - unfold cleanLegacyDateDirs, removeEpochs. rewrite (omap_filter_epochs _ (fun _ => True)).
    2:{ intros e x Ex. rewrite (epochOf_not_legacy e x Ex). naive_solver. }
    rewrite (omap_filter_epochs _ (fun x => path x ∉ path <$> removed)).
    2:{ intros e x Ex. rewrite (epochOf_path _ _ Ex). naive_solver. }
    fold epochs. rewrite <- Hp at 1.
    assert (T : forall l : list epochEntry, filter (fun _ => True) l = l) by (induction l as [|x l IH]; [done|]; rewrite filter_cons_True by done; by rewrite IH).
    rewrite T, Ep at 1. rewrite filter_split; [done|]. rewrite <- Ep, Hp. by apply NoDup_epoch_paths.
  - rewrite length_take. apply Permutation_length in Hp. lia.
  - intros k r Hk Hr. rewrite Ep in Hs. apply StronglySorted_app in Hs as (Hkr & _ & _). by apply Hkr.
  - intros e. unfold cleanLegacyDateDirs, removeEpochs. rewrite !list_elem_of_filter. destruct (legacyDate e); naive_solver.
Qed.

(** Cleaning keeps the newest epochs: when the log directory has
    at most as many directories [epoch_N] as are to be kept, nothing changes; else
    exactly that many are left, none of them older than one that was removed, and of
    the other entries only the directories named like a year are removed.  The order
    in which equal epochs are sorted does not matter. *)
Theorem clean_keeps_newest lc (entries : list entry) :
  disableCleanup lc = false -> 1 <= maxEpochsToKeep lc -> NoDup entries.*1 ->
  exists entries', CleanOldEpochLogs all true order lc (Directory entries) = (Ok tt, Directory entries') /\
    cleanedTo (maxEpochsToKeep lc) entries entries'.
Proof. apply clean_spec. Qed.

(** A second cleaning removes nothing more. *)
Theorem clean_idempotent lc (entries : list entry) : disableCleanup lc = false -> 1 <= maxEpochsToKeep lc -> NoDup entries.*1 ->
  let d := (CleanOldEpochLogs all true order lc (Directory entries)).2 in
  CleanOldEpochLogs all true order lc d = (Ok tt, d).
Proof.
  intros Hd Hn Hu. destruct (clean_spec lc entries Hd Hn Hu) as (entries' & E & H). rewrite E. cbn [snd].
  unfold CleanOldEpochLogs. rewrite Hd. cbn [negb]. rewrite (proj2 (Z.leb_le _ _)); [done|].
  unfold cleanedTo in H. destruct (Z.leb_spec (Z.of_nat (length (omap epochOf entries))) (maxEpochsToKeep lc)) as [Hle|Hgt]; [by subst|].
  destruct H as (kept & removed & _ & Hp & Hl & _). rewrite Hp. lia.
Qed.
End Kept.

(** ** Example: five epochs, three of them kept *)

Definition newerFirst (a b : epochEntry) : Prop := epoch b <= epoch a.
#[export] Instance newerFirst_dec a b : Decision (newerFirst a b).
Proof. unfold newerFirst. apply _. Defined.
#[export] Instance newerFirst_total : Total newerFirst.
Proof. intros a b. unfold newerFirst. lia. Qed.
#[export] Instance newerFirst_trans : Transitive newerFirst.
Proof. intros a b c. unfold newerFirst. lia. Qed.

Definition byEpoch (l : list epochEntry) : list epochEntry := merge_sort newerFirst l.

Lemma byEpoch_sorts : sortsDescending byEpoch.
Proof. intros l. split; [apply merge_sort_Permutation|]. apply (StronglySorted_merge_sort newerFirst). Qed.

Definition sampleEntries : list entry :=
  [("2024", NDir []); ("app.log", NFile 10); ("epoch_1", NDir []); ("epoch_10", NDir [("App.log", NFile 7)]);
   ("epoch_2", NDir []); ("epoch_7", NDir []); ("epoch_9", NDir []); ("epoch_x", NDir [])]%string.

Lemma sample_distinct : NoDup sampleEntries.*1.
Proof. apply (bool_decide_unpack _). vm_compute. done. Qed.

Lemma clean_keeps_newest_witness : exists entries',
  CleanOldEpochLogs (fun _ => true) true byEpoch (NewLogCleaner "logs") (Directory sampleEntries) = (Ok tt, Directory entries') /\
  entries'.*1 = ["app.log"; "epoch_10"; "epoch_7"; "epoch_9"; "epoch_x"]%string /\ cleanedTo 3 sampleEntries entries'.
Proof.
  destruct (clean_keeps_newest byEpoch byEpoch_sorts (NewLogCleaner "logs") sampleEntries eq_refl ltac:(cbn; lia) sample_distinct)
    as (entries' & E & H). exists entries'. split_and!; [done| |done].
  vm_compute in E. injection E as <-. reflexivity.
Defined.
