(* ===== verification/FileMerkle.v ===== *)
(** * The Merkle tree of an uploaded file

    Models the tree of [file-storage/up-down-debug/main.go] (and its copy in
    [file-storage/load-test/main.go]): the chunks of a file are hashed, the
    leaves padded to a power of two, and pairs hashed level by level up to the
    root that is registered on chain; every chunk is uploaded with the proof
    that [getMerkleProofPadded] collects.

    [math.Pow(2, math.Ceil(math.Log2(float64(n))))] is taken as the exact power
    of two, which it is for every number of chunks a file can have (below
    2^47).  The verifier of the proofs is not part of the repository, and none
    is assumed.

    The theorems show that the tree and the proofs are built for every
    non-empty file, that the proof of a chunk holds the siblings on the way from
    its leaf to the root, and that the root together with the number of chunks
    binds the chunks, short of a collision of the hash between strings hashed for
    the two trees. *)

From S2P Require Import Prelude Binary TrieEncoding Instances.

Local Open Scope Z_scope.

Definition calculateNextPowerOfTwo (n : Z) : Z := if n <=? 1 then 1 else 2 ^ Z.log2_up n.

Section Merkle.
Context `{EthLib}.

(** The inner loop of [buildMerkleTreePadded]; [treeLevel[i+1]] is out of range
    on a level of odd length. *)
Fixpoint nextLevel (l : list bytes) : outcome (list bytes) :=
  match l with
  | [] => Ok []
  | [_] => Panic
  | a :: b :: l' => rest ← nextLevel l'; Ok (Keccak256 (a ++ b) :: rest)
  end.

Fixpoint treeRoot (fuel : nat) (l : list bytes) : outcome bytes :=
  match l with
  | [] => Panic
  | [root] => Ok root
  | _ =>
      match fuel with
      | O => NoFuel
      | S fuel => l' ← nextLevel l; treeRoot fuel l'
      end
  end.

Definition paddedLeaves (chunks : list bytes) : list bytes :=
  let n := length chunks in
  (Keccak256 <$> chunks) ++ replicate (Z.to_nat (calculateNextPowerOfTwo (Z.of_nat n)) - n) (Keccak256 []).

Definition buildMerkleTreePadded (chunks : list bytes) : outcome (list bytes * bytes) :=
  match chunks with
  | [] => Ok ([], Keccak256 [])
  | _ =>
      let leaves := paddedLeaves chunks in
      root ← treeRoot (length leaves) leaves;
      Ok (leaves, root)
  end.

(** The inner loop of [getMerkleProofPadded] from position [i]: the siblings
    it appends and the next level. *)
Fixpoint proofLevel (i currentIndex : Z) (l : list bytes) : outcome (list bytes * list bytes) :=
  match l with
  | [] => Ok ([], [])
  | [_] => Panic
  | a :: b :: l' =>
      '(siblings, rest) ← proofLevel (i + 2) currentIndex l';
      let own := if currentIndex =? i then [arrayFromBytes 32 b]
                 else if currentIndex =? i + 1 then [arrayFromBytes 32 a]
                 else [] in
      Ok (own ++ siblings, Keccak256 (a ++ b) :: rest)
  end.

Fixpoint proofLoop (fuel : nat) (l : list bytes) (currentIndex : Z) : outcome (list bytes) :=
  match l with
  | [] | [_] => Ok []
  | _ =>
      match fuel with
      | O => NoFuel
      | S fuel =>
          '(siblings, l') ← proofLevel 0 currentIndex l;
          rest ← proofLoop fuel l' (Z.quot currentIndex 2);
          Ok (siblings ++ rest)
      end
  end.

Definition getMerkleProofPadded (leaves : list bytes) (chunkIndex : Z) : outcome (list bytes) :=
  proofLoop (length leaves) leaves chunkIndex.

(** ** Levels *)

Fixpoint pairUp (l : list bytes) : list bytes :=
  match l with
  | a :: b :: l' => (a ++ b) :: pairUp l'
  | _ => []
  end.

Definition upLevel (l : list bytes) : list bytes := Keccak256 <$> pairUp l.

(** The strings hashed above the leaves, for [d] levels. *)
Fixpoint treeInputs (d : nat) (l : list bytes) : list bytes :=
  match d with
  | O => []
  | S d => pairUp l ++ treeInputs d (upLevel l)
  end.

Lemma pair_ind (P : list bytes -> Prop) :
  P [] -> (forall a, P [a]) -> (forall a b l, P l -> P (a :: b :: l)) -> forall l, P l.
Proof.
  intros H0 H1 H2. fix IH 1. intros [|a [|b l]]; [done|apply H1|apply H2, IH].
Qed.

Lemma length_pairUp l m : length l = (2 * m)%nat -> length (pairUp l) = m.
Proof.
  revert m. induction l as [|a|a b l IH] using pair_ind; intros m Hm; simpl in *; [lia|lia|].
  rewrite (IH (m - 1)%nat); lia.
Qed.

Lemma nextLevel_even l m : length l = (2 * m)%nat -> nextLevel l = Ok (upLevel l).
Proof.
  revert m. induction l as [|a|a b l IH] using pair_ind; intros m Hm; simpl in Hm; [done|lia|].
  cbn [nextLevel]. rewrite (IH (m - 1)%nat) by lia. done.
Qed.

Lemma pairUp_lookup l j x : pairUp l !! j = Some x <->
  exists a b, l !! (2 * j)%nat = Some a /\ l !! (2 * j + 1)%nat = Some b /\ x = a ++ b.
Proof.
  revert j. induction l as [|a|a b l IH] using pair_ind; intros j; simpl pairUp.
  - split; [by rewrite lookup_nil|]. intros (a & b & Ha & _). by rewrite lookup_nil in Ha.
  - split; [by rewrite lookup_nil|]. intros (a' & b & _ & Hb & _).
    apply lookup_lt_Some in Hb. simpl in Hb. lia.
  - destruct j as [|j]; simpl lookup.
    + cbn. split; [intros [= <-]; eauto|]. by intros (? & ? & [= ->] & [= ->] & ->).
    + rewrite IH. replace (j + S (j + 0))%nat with (S (2 * j)) by lia.
      replace (S (2 * j) + 1)%nat with (S (2 * j + 1)) by lia. done.
Qed.

Lemma proofLevel_skip l m : forall i cur, length l = (2 * m)%nat -> cur < i ->
  proofLevel i cur l = Ok ([], upLevel l).
Proof.
  revert m. induction l as [|a|a b l IH] using pair_ind; intros m i cur Hm Hc; simpl in Hm; [done|lia|].
  cbn [proofLevel]. rewrite (IH (m - 1)%nat) by lia. cbn [mbind outcome_bind].
  rewrite (proj2 (Z.eqb_neq _ _)) by lia. by rewrite (proj2 (Z.eqb_neq _ _)) by lia.
Qed.

(** The sibling of position [k]. *)
Definition sibling (k : nat) : nat := if Nat.even k then S k else Nat.pred k.

Lemma proofLevel_hit l m : forall k i h, length l = (2 * m)%nat -> l !! sibling k = Some h -> (k < length l)%nat ->
  proofLevel i (i + Z.of_nat k) l = Ok ([arrayFromBytes 32 h], upLevel l).
Proof.
  revert m. induction l as [|a|a b l IH] using pair_ind; intros m k i h Hm Hh Hk; simpl in Hm, Hk; [lia|lia|].
  cbn [proofLevel]. destruct k as [|[|k]].
  - rewrite (proofLevel_skip l (m - 1)) by lia. cbn [mbind outcome_bind].
    rewrite (proj2 (Z.eqb_eq _ _)) by lia. cbn in Hh. by injection Hh as <-.
  - rewrite (proofLevel_skip l (m - 1)) by lia. cbn [mbind outcome_bind].
    rewrite (proj2 (Z.eqb_neq _ _)), (proj2 (Z.eqb_eq _ _)) by lia. cbn in Hh. by injection Hh as <-.
  - assert (Hs : l !! sibling k = Some h).
    { unfold sibling in *. cbn [Nat.even] in Hh. destruct (Nat.even k) eqn:E; [done|].
      destruct k as [|k]; [done|]. done. }
    replace (i + Z.of_nat (S (S k))) with (i + 2 + Z.of_nat k) by lia.
    rewrite (IH (m - 1)%nat k (i + 2) h) by (done || lia). cbn [mbind outcome_bind].
    rewrite (proj2 (Z.eqb_neq _ _)) by lia. by rewrite (proj2 (Z.eqb_neq _ _)) by lia.
Qed.
End Merkle.

(** ** Perfect trees *)

Section Perfect.
Context `{EthLibLaws}.

Definition hashes (l : list bytes) : Prop := Forall (fun h => length h = 32%nat) l.

(** The root of a level of [2 ^ d] nodes. *)
Fixpoint rootOf (d : nat) (l : list bytes) : bytes :=
  match d with
  | O => default [] (l !! 0%nat)
  | S d => rootOf d (upLevel l)
  end.

Lemma hashes_upLevel l : hashes (upLevel l).
Proof. apply Forall_fmap, Forall_true. intros x. apply Keccak256_len. Qed.

Lemma length_upLevel l m : length l = (2 * m)%nat -> length (upLevel l) = m.
Proof. intros Hl. unfold upLevel. rewrite length_fmap. by apply length_pairUp. Qed.

Lemma pow2_pos d : (0 < 2 ^ d)%nat.
Proof. induction d; simpl; lia. Qed.

Lemma two_or_more {A} (l : list A) d : length l = (2 * 2 ^ d)%nat -> exists a b l', l = a :: b :: l'.
Proof. pose proof (pow2_pos d). destruct l as [|a [|b l']]; simpl; [lia|lia|eauto]. Qed.

Lemma treeRoot_perfect d : forall l fuel, length l = (2 ^ d)%nat -> (d <= fuel)%nat ->
  treeRoot fuel l = Ok (rootOf d l).
Proof.
  induction d as [|d IH]; intros l fuel Hl Hf.
  - simpl in Hl. destruct l as [|r [|? ?]]; simpl in Hl; [lia| |lia]. by destruct fuel.
  - change (2 ^ S d)%nat with (2 * 2 ^ d)%nat in Hl. destruct fuel as [|fuel]; [lia|].
    assert (E : treeRoot (S fuel) l = (l' ← nextLevel l; treeRoot fuel l')).
    { destruct (two_or_more l d Hl) as (a & b & l' & ->). done. }
    rewrite E, (nextLevel_even l _ Hl). cbn [mbind outcome_bind rootOf]. apply IH; [|lia].
    by apply length_upLevel.
Qed.

(** A position and its sibling are the two halves of one string above. *)
Lemma parent l k h : (exists m, length l = (2 * m)%nat) -> l !! k = Some h ->
  exists s, l !! sibling k = Some s /\ Z.quot (Z.of_nat k) 2 = Z.of_nat (k / 2) /\ Z.of_nat k / 2 = Z.of_nat (k / 2) /\
    pairUp l !! (k / 2)%nat = Some (if Z.even (Z.of_nat k) then h ++ s else s ++ h).
Proof.
  intros [m Hm] Hh. pose proof (lookup_lt_Some _ _ _ Hh) as Hk.
  assert (Hq : Z.quot (Z.of_nat k) 2 = Z.of_nat (k / 2)).
  { rewrite Z.quot_div_nonneg by lia. by rewrite Nat2Z.inj_div. }
  assert (Hd : Z.of_nat k / 2 = Z.of_nat (k / 2)) by (by rewrite Nat2Z.inj_div).
  pose proof (Nat.div_mod_eq k 2) as Hkm. pose proof (Nat.mod_upper_bound k 2).
  unfold sibling. destruct (Nat.even k) eqn:Ek.
  - pose proof Ek as [j ->]%Nat.even_spec.
    destruct (lookup_lt_is_Some_2 l (S (2 * j))) as [s Hs]; [lia|]. exists s. split_and!; [done|done|done|].
    replace (2 * j / 2)%nat with j by (rewrite Nat.mul_comm, Nat.div_mul; lia).
    apply pairUp_lookup. rewrite (proj2 (Z.even_spec _)) by (exists (Z.of_nat j); lia).
    exists h, s. split_and!; [done|by rewrite Nat.add_1_r|done].
  - assert (Ho : Nat.odd k = true) by (unfold Nat.odd; by rewrite Ek).
    pose proof Ho as [j ->]%Nat.odd_spec.
    destruct (lookup_lt_is_Some_2 l (2 * j)) as [s Hs]; [lia|]. exists s.
    split_and!; [by replace (Nat.pred (2 * j + 1)) with (2 * j)%nat by lia|done|done|].
    replace ((2 * j + 1) / 2)%nat with j by (apply (Nat.div_unique _ 2 j 1); lia).
    apply pairUp_lookup. exists s, h. split_and!; [done|done|].
    rewrite <- Z.negb_odd, (proj2 (Z.odd_spec _)) by (exists (Z.of_nat j); lia). done.
Qed.

(** The nodes [j] levels above [l]. *)
Fixpoint levelAbove (j : nat) (l : list bytes) : list bytes :=
  match j with O => l | S j => levelAbove j (upLevel l) end.

(** The hashes beside the way up from position [k]. *)
Definition onPath (l : list bytes) (k : nat) (proof : list bytes) : Prop :=
  forall j s, proof !! j = Some s -> levelAbove j l !! sibling (k / 2 ^ j) = Some s.

Lemma proofLoop_siblings d : forall l k fuel,
  length l = (2 ^ d)%nat -> hashes l -> (k < length l)%nat -> (d <= fuel)%nat ->
  exists p, proofLoop fuel l (Z.of_nat k) = Ok p /\ length p = d /\ onPath l k p.
Proof.
  induction d as [|d IH]; intros l k fuel Hl Hh Hk Hf.
  - simpl in Hl. destruct l as [|r [|? ?]]; simpl in Hl; [lia| |lia]. exists []. split; [by destruct fuel|]. split; [done|by intros j s].
  - change (2 ^ S d)%nat with (2 * 2 ^ d)%nat in Hl. destruct fuel as [|fuel]; [lia|].
    destruct (lookup_lt_is_Some_2 l k Hk) as [h Hh0]. destruct (parent l k h ltac:(eauto) Hh0) as (s & Hs & Eq & _ & _).
    pose proof (length_upLevel l _ Hl) as Lu.
    destruct (IH (upLevel l) (k / 2)%nat fuel) as (p & E & Lp & Hp); [done|apply hashes_upLevel| |lia|].
    { rewrite Lu. apply Nat.Div0.div_lt_upper_bound. lia. }
    assert (Ls : length s = 32%nat) by (unfold hashes in Hh; rewrite Forall_lookup in Hh; by eapply Hh).
    exists (s :: p). split_and!; [|simpl; lia|].
    + assert (El : proofLoop (S fuel) l (Z.of_nat k) =
        ('(siblings, l') ← proofLevel 0 (Z.of_nat k) l;
         rest ← proofLoop fuel l' (Z.quot (Z.of_nat k) 2); Ok (siblings ++ rest))).
      { destruct (two_or_more l d Hl) as (a & b & l' & ->). done. }
      rewrite El. pose proof (proofLevel_hit l _ k 0 s Hl Hs Hk) as Ep.
      rewrite Z.add_0_l in Ep. rewrite Ep. cbn [mbind outcome_bind]. rewrite Eq, E. cbn [mbind outcome_bind app].
      by rewrite arrayFromBytes_id.
    + intros [|j] s' Hj; cbn [lookup list_lookup] in Hj.
      * injection Hj as <-. cbn [levelAbove]. by rewrite Nat.div_1_r.
      * cbn [levelAbove]. rewrite Nat.pow_succ_r', <- Nat.Div0.div_div. by apply Hp.
Qed.

Lemma rootOf_len d : forall l, length l = (2 ^ d)%nat -> hashes l -> length (rootOf d l) = 32%nat.
Proof.
  induction d as [|d IH]; intros l Hl Hh.
  - destruct l as [|r l]; simpl in *; [lia|]. by apply Forall_cons in Hh as [? _].
  - cbn [rootOf]. apply IH; [by apply length_upLevel|apply hashes_upLevel].
Qed.

(** Two different strings, one of each list, with the same hash. *)
Definition collides (xs ys : list bytes) : Prop :=
  exists x y, x ∈ xs /\ y ∈ ys /\ x <> y /\ Keccak256 x = Keccak256 y.

Lemma collides_mono xs ys xs' ys' : xs ⊆ xs' -> ys ⊆ ys' -> collides xs ys -> collides xs' ys'.
Proof. intros S1 S2 (x & y & Hx & Hy & ?). exists x, y. auto. Qed.

Lemma keccak_list_inj xs : forall ys, Keccak256 <$> xs = Keccak256 <$> ys -> xs = ys \/ collides xs ys.
Proof.
  induction xs as [|x xs IH]; intros [|y ys] E; [by left|discriminate..|]. injection E as Ex E.
  destruct (decide (x = y)) as [->|N]; [|right; exists x, y; split_and!; [apply list_elem_of_here..|done|done]].
  destruct (IH ys E) as [->|C]; [by left|right]. eapply collides_mono; [..|exact C]; intros z Hz; by apply list_elem_of_further.
Qed.

(** A level of hashes is determined by its pairs. *)
Lemma pairUp_inj l1 : forall l2 m, length l1 = (2 * m)%nat -> length l2 = (2 * m)%nat -> hashes l1 -> hashes l2 ->
  pairUp l1 = pairUp l2 -> l1 = l2.
Proof.
  induction l1 as [|a|a b l1 IH] using pair_ind; intros l2 m L1 L2 H1 H2 E; simpl in L1.
  - assert (m = 0%nat) as -> by lia. by destruct l2.
  - lia.
  - destruct l2 as [|a2 [|b2 l2]]; simpl in L2; [lia|lia|]. apply Forall_cons in H1 as [Ha H1], H2 as [Ha2 H2].
    apply Forall_cons in H1 as [Hb H1], H2 as [Hb2 H2]. injection E as Eab E. apply app_inj_1 in Eab as [-> ->]; [|congruence].
    f_equal. f_equal. apply (IH l2 (m - 1)%nat); [lia|lia|done..].
Qed.

Lemma rootOf_inj d : forall l1 l2, length l1 = (2 ^ d)%nat -> length l2 = (2 ^ d)%nat -> hashes l1 -> hashes l2 ->
  rootOf d l1 = rootOf d l2 -> l1 = l2 \/ collides (treeInputs d l1) (treeInputs d l2).
Proof.
  induction d as [|d IH]; intros l1 l2 L1 L2 H1 H2 E.
  - left. destruct l1 as [|x [|? ?]], l2 as [|y [|? ?]]; simpl in L1, L2; try lia. cbn in E. by rewrite E.
  - change (2 ^ S d)%nat with (2 * 2 ^ d)%nat in L1, L2. cbn [rootOf treeInputs] in *.
    destruct (IH (upLevel l1) (upLevel l2)) as [Eu|C]; [by apply length_upLevel..|apply hashes_upLevel|apply hashes_upLevel|done| |].
    + apply keccak_list_inj in Eu as [Ep|C]; [left; by eapply pairUp_inj|right].
      eapply collides_mono; [..|exact C]; intros z Hz; apply elem_of_app; by left.
    + right. eapply collides_mono; [..|exact C]; intros z Hz; apply elem_of_app; by right.
Qed.
End Perfect.

Section Chunks.
Context `{EthLibLaws}.

(** The number of levels above the leaves. *)
Definition depth (chunks : list bytes) : nat := Z.to_nat (Z.log2_up (Z.of_nat (length chunks))).

Lemma nextPowerOfTwo_pow n : 0 < n -> calculateNextPowerOfTwo n = 2 ^ Z.log2_up n /\ n <= calculateNextPowerOfTwo n.
Proof.
  intros Hn. unfold calculateNextPowerOfTwo. destruct (Z.leb_spec n 1).
  - assert (n = 1) as -> by lia. done.
  - split; [done|]. apply Z.log2_up_spec. lia.
Qed.

Lemma paddedLeaves_length chunks : chunks <> [] -> length (paddedLeaves chunks) = (2 ^ depth chunks)%nat.
Proof.
  intros Hc. unfold paddedLeaves, depth. destruct (nextPowerOfTwo_pow (Z.of_nat (length chunks))) as [E Hle].
  { destruct chunks; [done|]. simpl. lia. }
  rewrite length_app, length_fmap, length_replicate, E in *. apply Nat2Z.inj.
  rewrite Nat2Z.inj_add, Nat2Z.inj_sub by lia. rewrite Nat2Z.inj_pow, !Z2Nat.id by (try apply Z.log2_up_nonneg; lia).
  change (Z.of_nat 2) with 2. lia.
Qed.

Lemma paddedLeaves_hashes chunks : hashes (paddedLeaves chunks).
Proof.
  apply Forall_app. split; [apply Forall_fmap, Forall_true; intros; apply Keccak256_len|].
  apply Forall_replicate, Keccak256_len.
Qed.

Lemma paddedLeaves_lookup chunks i : (i < length chunks)%nat -> paddedLeaves chunks !! i = Keccak256 <$> chunks !! i.
Proof. intros Hi. unfold paddedLeaves. rewrite lookup_app_l by (by rewrite length_fmap). apply list_lookup_fmap. Qed.

Lemma buildMerkleTree_root chunks : chunks <> [] ->
  buildMerkleTreePadded chunks = Ok (paddedLeaves chunks, rootOf (depth chunks) (paddedLeaves chunks)).
Proof.
  intros Hc. unfold buildMerkleTreePadded. destruct chunks as [|c cs]; [done|].
  rewrite (treeRoot_perfect (depth (c :: cs))); [done|by apply paddedLeaves_length|].
  rewrite paddedLeaves_length by done. apply Nat.lt_le_incl, Nat.pow_gt_lin_r. lia.
Qed.
End Chunks.

(** ** Properties *)

(** The tree of a non-empty file is built, and for every
    chunk [getMerkleProofPadded] returns one hash per level, the sibling on the way
    from the leaf of the chunk to the root. *)
Theorem merkle_proofs `{EthLibLaws} chunks :
  chunks <> [] ->
  exists leaves root, buildMerkleTreePadded chunks = Ok (leaves, root) /\
    forall i, (i < length chunks)%nat ->
      exists proof, getMerkleProofPadded leaves (Z.of_nat i) = Ok proof /\ length proof = depth chunks /\ onPath leaves i proof.
Proof.
  intros Hc. do 2 eexists. split; [by apply buildMerkleTree_root|]. intros i Hi.
  assert (Hle : (length chunks <= length (paddedLeaves chunks))%nat) by (unfold paddedLeaves; rewrite length_app, length_fmap; lia).
  apply (proofLoop_siblings (depth chunks)); [by apply paddedLeaves_length|apply paddedLeaves_hashes|lia|].
  rewrite paddedLeaves_length by done. apply Nat.lt_le_incl, Nat.pow_gt_lin_r. lia.
Qed.

Lemma merkle_proofs_witness :
  exists proof, getMerkleProofPadded (paddedLeaves [[1]; [2]; [3]]) 2 = Ok proof /\ length proof = 2%nat /\
    onPath (paddedLeaves [[1]; [2]; [3]]) 2 proof.
Proof.
  destruct (merkle_proofs [[1]; [2]; [3]] ltac:(done)) as (leaves & root & E & Hp).
  destruct (Hp 2%nat ltac:(simpl; lia)) as (proof & E1 & E2 & E3). exists proof.
  assert (leaves = paddedLeaves [[1]; [2]; [3]]) as ->.
  { rewrite buildMerkleTree_root in E by done. by injection E. }
  split; [exact E1|]. split; [exact E2|exact E3].
Defined.

(** The strings hashed for the tree of a file: its chunks and the pairs of nodes. *)
Definition hashedFor `{EthLib} (chunks : list bytes) : list bytes :=
  chunks ++ treeInputs (depth chunks) (paddedLeaves chunks).

(** C25 (safety). The root binds the chunks: two files that are cut into the same
    number of chunks and have the same root have the same chunks, or a string hashed
    for the tree of the one and a different string hashed for the tree of the other
    have the same Keccak-256 hash.  (The root alone does not bind the number of
    chunks: [padding_not_bound].) *)
Theorem merkle_binding `{EthLibLaws} chunks1 chunks2 leaves1 leaves2 root :
  buildMerkleTreePadded chunks1 = Ok (leaves1, root) -> buildMerkleTreePadded chunks2 = Ok (leaves2, root) ->
  length chunks1 = length chunks2 ->
  chunks1 = chunks2 \/ collides (hashedFor chunks1) (hashedFor chunks2).
Proof.
  intros E1 E2 Hl. destruct (decide (chunks1 = [])) as [->|N1]; [left; by destruct chunks2|].
  assert (N2 : chunks2 <> []) by (intros ->; by destruct chunks1).
  rewrite buildMerkleTree_root in E1, E2 by done. injection E1 as _ E1. injection E2 as _ E2.
  assert (Ed : depth chunks2 = depth chunks1) by (unfold depth; by rewrite Hl).
  destruct (rootOf_inj (depth chunks1) (paddedLeaves chunks1) (paddedLeaves chunks2)) as [Ep|C].
  - by apply paddedLeaves_length.
  - rewrite <- Ed. by apply paddedLeaves_length.
  - apply paddedLeaves_hashes.
  - apply paddedLeaves_hashes.
  - rewrite Ed in E2. congruence.
  - unfold paddedLeaves in Ep. rewrite Hl in Ep. apply app_inj_1 in Ep as [Ep _]; [|by rewrite !length_fmap].
    apply keccak_list_inj in Ep as [->|C]; [by left|right].
    eapply collides_mono; [..|exact C]; intros z Hz; apply elem_of_app; by left.
  - right. unfold hashedFor. rewrite Ed. eapply collides_mono; [..|exact C]; intros z Hz; apply elem_of_app; by right.
Qed.

(** The hash of the instance takes bytes modulo 256, so that the second disjunct holds
    here. *)
Lemma merkle_binding_witness : [[1]; [2]; [3]] <> [[257]; [2]; [3]] /\
  ([[1]; [2]; [3]] = [[257]; [2]; [3]] \/ collides (hashedFor [[1]; [2]; [3]]) (hashedFor [[257]; [2]; [3]])).
Proof.
  split; [discriminate|].
  apply (merkle_binding [[1]; [2]; [3]] [[257]; [2]; [3]] _ _ _ (buildMerkleTree_root [[1]; [2]; [3]] ltac:(done)) (buildMerkleTree_root [[257]; [2]; [3]] ltac:(done)) eq_refl).
Defined.

(** The padding is the hash of the empty chunk, so the number of chunks is not
    bound by the root. *)
Theorem padding_not_bound `{EthLib} a b c :
  buildMerkleTreePadded [a; b; c; []] = buildMerkleTreePadded [a; b; c].
Proof. reflexivity. Qed.

(** Leaves and inner nodes are hashed alike: the two hashes below the root, as
    one chunk, have the root of the two chunks. *)
Theorem node_taken_for_chunk `{EthLib} a b :
  exists leaves, buildMerkleTreePadded [a; b] = Ok (leaves, Keccak256 (Keccak256 a ++ Keccak256 b)) /\
    buildMerkleTreePadded [Keccak256 a ++ Keccak256 b] =
      Ok ([Keccak256 (Keccak256 a ++ Keccak256 b)], Keccak256 (Keccak256 a ++ Keccak256 b)).
Proof. eexists. split; reflexivity. Qed.
