(* ===== verification/FileTransfer.v ===== *)
(** * Uploading and downloading files

    Models [file-storage/up-down-debug]: the configuration
    ([config/config.go]), the frames and the chunk request of the storage
    servers' protocol ([proccessor/quic_client.go]), [SignMessage]
    ([listener/listener.go]), and from [main.go] the split of a file into
    chunks, the two ways to wait for a transaction, [uploadFile] and
    [DownloadFile], with the retries that [load-test/main.go] adds.

    What a call to the chain or to a storage server answers is part of an
    environment: [upEnv] and [downEnv] give the answers a run sees, a stream is
    the bytes it will deliver.  [log.Fatalf], which ends the program, is [Err].
    The goroutines of an upload and of a download are steps on a shared state
    ([ulStep], [dlStep]): starting the next chunk when a slot of the semaphore is
    free; for a running upload its attempts, with what each has written, and the
    count of failures, which is read and written without a lock; for a running
    download its failure, the write of its data, and the count under the mutex. *)

From Stdlib Require Import Ascii.
From S2P Require Import Prelude GoStrings Binary TrieEncoding TrieNode AccountState Receipts SmartContract Transaction EthTransaction Message Connections.
From S2P Require Import ReceiptRouter TransactionError BlsKeys ClientProg ClientHandler ClientRequests ClientTransactions TxHelper.
From S2P Require Import ArgumentEncode BlockChecker Utils FileMerkle.

Local Open Scope Z_scope.

(** ** Configuration *)

Record Config := mkConfig {
  RpcUrl : string; HttpUrl : string; TcpUrl : string;
  PrivateKeyHex : string; PrivateKeyBLS : string; ContractAddressHex : string;
  FilePath : string; ChainId : Z; ChunkSize : Z; OutputFile : string; Address : string;
  RustServer1 : string; RustServer2 : string; RustServers : list string
}.

(** The environment of the process, after the file was loaded into it. *)
Abbreviation Environ := (gmap string string).

Definition getEnv (env : Environ) (key fallback : string) : string := default fallback (env !! key).

Definition getEnvOrFatal (env : Environ) (key : string) : outcome string :=
  match env !! key with Some value => Ok value | None => Err (ErrText key) end.

(** [strconv.ParseInt(s, 10, 64)] and [ParseUint(s, 10, 64)]. *)
Definition parseInt10 (s : string) : option Z := atoi s.
Definition parseUint10 (s : string) : option Z :=
  match s with
  | EmptyString => None
  | _ => n ← decValue 0 s; if n <? 2 ^ 64 then Some n else None
  end.

Definition trimSpace (s : string) : string := trimLeft (trimRight s).

Definition nonEmpty (s : string) : bool := negb (bool_decide (s = ""%string)).

(** The servers of [IP_RUST_STORAGE] replace the first two, one by one. *)
Definition storageServers (env : Environ) : string * string :=
  let s1 := getEnv env "RUST_SERVER_1" (getEnv env "RUST_SERVER_1_ADDR_QUIC" "192.168.1.230:7081") in
  let s2 := getEnv env "RUST_SERVER_2" (getEnv env "RUST_SERVER_2_ADDR_QUIC" "192.168.1.230:7082") in
  let ip := getEnv env "IP_RUST_STORAGE" "" in
  if nonEmpty ip then
    let parts := trimSpace <$> splitOn ","%char ip in
    (match parts !! 0%nat with Some p => if nonEmpty p then p else s1 | None => s1 end,
     match parts !! 1%nat with Some p => if nonEmpty p then p else s2 | None => s2 end)
  else (s1, s2).

(** [RUST_SERVERS] replaces them all when it names at least two. *)
Definition rustServers (env : Environ) : string * string * list string :=
  let '(s1, s2) := storageServers env in
  let servers := getEnv env "RUST_SERVERS" "" in
  let parsed := filter (fun p => nonEmpty p = true) (trimSpace <$> splitOn ","%char servers) in
  if nonEmpty servers then
    match parsed with
    | p1 :: p2 :: _ => (p1, p2, parsed)
    | _ => (s1, s2, [s1; s2])
    end
  else (s1, s2, [s1; s2]).

Definition Load (env : Environ) : outcome Config :=
  let rpc := getEnv env "RPC_URL" "ws://192.168.1.234:8545" in
  let http := getEnv env "HTTP_URL" "http://192.168.1.234:8545" in
  let tcp := getEnv env "TCP_URL" "192.168.1.234:7001" in
  let contract := getEnv env "CONTRACT_ADDRESS_HEX" "0x087cdab97d38a3bfFcDee170739E8C11Af651569" in
  let path := getEnv env "FILE_PATH" "./file_to_upload/output.txt" in
  privateKey ← getEnvOrFatal env "PRIVATE_KEY_HEX";
  let bls := getEnv env "PRIVATE_KEY_BLS" "" in
  let output := getEnv env "OUTPUT_FILE" "downloaded_file.txt" in
  address ← getEnvOrFatal env "ADDRESS";
  match parseInt10 (getEnv env "CHAIN_ID" "991"), parseUint10 (getEnv env "CHUNK_SIZE" "614400") with
  | Some chainId, Some chunkSize =>
      let '(s1, s2, all) := rustServers env in
      Ok (mkConfig rpc http tcp privateKey bls contract path chainId chunkSize output address s1 s2 all)
  | None, _ => Err (ErrText "CHAIN_ID")
  | _, None => Err (ErrText "CHUNK_SIZE")
  end.

(** ** Frames *)

(** Four bytes of length, big-endian, and the data; the length is cut to 32
    bits. *)
Definition writeFrameWithLength (data : bytes) : bytes :=
  beBytes 4 (Z.of_nat (length data) mod 2 ^ 32) ++ data.

Definition maxFrame : Z := 8 * 1024 * 1024.

(** The frame and what is left of the input; [io.ReadFull] fails when the
    stream ends before. *)
Definition readFrameWithLength (input : bytes) : outcome (bytes * bytes) :=
  if (length input <? 4)%nat then Err (ErrText "length")
  else
    let n := bigSetBytes (take 4 input) in
    if n >? maxFrame then Err (ErrText "frame too large")
    else
      let rest := drop 4 input in
      if (Z.of_nat (length rest) <? n) then Err (ErrText "data")
      else Ok (take (Z.to_nat n) rest, drop (Z.to_nat n) rest).

(** ** Streams and requests *)

(** A stream of a connection: whether it could be opened, the number of
    [Write] calls that succeed, and the bytes the server sends on it. *)
Record stream := mkStream { opens : bool; writes : nat; incoming : bytes }.

(** [encoding/json] for the messages of the protocol: the requests are only
    sent, a response is a status and a message, [None] when it does not parse. *)
Class StorageJson := {
  jsonResponse : bytes -> option (string * string)
}.

(** [CreateQuicConnection]: three attempts to dial; [dial k] says whether
    attempt [k] succeeds. *)
Fixpoint dialLoop (dial : nat -> bool) (n k : nat) : outcome unit :=
  match n with
  | O => Err (ErrText "QUIC connection")
  | S n => if dial k then Ok tt else dialLoop dial n (S k)
  end.

Definition CreateQuicConnection (dial : nat -> bool) : outcome unit := dialLoop dial 3 0.

Section Protocol.
Context `{StorageJson}.

(** A frame takes two [Write] calls. *)
Definition RequestChunkFromRustServerQuic (s : stream) : outcome bytes :=
  if negb (opens s) then Err (ErrText "open stream")
  else if (writes s <? 2)%nat then Err (ErrText "send request")
  else
    '(responseData, rest) ← readFrameWithLength (incoming s);
    match jsonResponse responseData with
    | None => Err (ErrText "parse response")
    | Some (status, message) =>
        if negb (bool_decide (status = "SUCCESS"%string)) then Err (ErrText message)
        else
          '(chunkData, _) ← readFrameWithLength rest;
          Ok chunkData
    end.

(** One attempt to upload a chunk: the command and the chunk are sent, a frame
    each, and the response is read. *)
Definition uploadAttempt (s : stream) : outcome unit :=
  if negb (opens s) then Err (ErrText "open stream")
  else if (writes s <? 4)%nat then Err (ErrText "write")
  else
    '(responseData, _) ← readFrameWithLength (incoming s);
    match jsonResponse responseData with
    | None => Err (ErrText "parse response")
    | Some (status, message) =>
        if bool_decide (status = "SUCCESS"%string) || bool_decide (status = "COMPLETED"%string) then Ok tt
        else Err (ErrText message)
    end.

Definition maxRetries : nat := 3.

(** The attempts of [load-test/main.go] to download a chunk: after an error
    that names a timeout or a closed connection, one more request on a
    connection made for it. *)
Record attempt := mkAttempt { aStream : stream; aLost : bool; aRecovery : option stream }.

Fixpoint downloadRetry (s : nat -> attempt) (n k : nat) (err : GoError) : outcome bytes :=
  match n with
  | O => Err err
  | S n =>
      match RequestChunkFromRustServerQuic (aStream (s k)) with
      | Err e =>
          match (if aLost (s k) then aRecovery (s k) else None) with
          | Some s' =>
              match RequestChunkFromRustServerQuic s' with
              | Err e' => downloadRetry s n (S k) e'
              | r => r
              end
          | None => downloadRetry s n (S k) e
          end
      | r => r
      end
  end.

Definition downloadChunkRetried (s : nat -> attempt) : outcome bytes := downloadRetry s maxRetries 1 (ErrText "").
End Protocol.

(** [SignMessage]: the characters [0x00] and the message, hashed and signed. *)
Definition SignMessage `{EthLib} `{Secp} (privateKey message : bytes) : outcome bytes :=
  signature ← cryptoSign (Keccak256 (bytesOfString "0x00" ++ message)) privateKey;
  Ok (EncodeToString signature).

(** ** Chunks *)

(** The numbers are [uint64]; a chunk size of 0 divides by zero. *)
Definition totalChunks (chunkSize contentLen : Z) : outcome Z :=
  if chunkSize =? 0 then Panic else Ok (wrap64 (contentLen + chunkSize - 1) / chunkSize).

Definition chunkAt (chunkSize : Z) (fileData : bytes) (i : Z) : outcome bytes :=
  let contentLen := len fileData in
  let start := wrap64 (i * chunkSize) in
  let stop := wrap64 (start + chunkSize) in
  slice start (if stop >? contentLen then contentLen else stop) fileData.

Definition splitChunks (chunkSize : Z) (fileData : bytes) : outcome (list bytes) :=
  n ← totalChunks chunkSize (len fileData);
  mapO (chunkAt chunkSize fileData) (seqZ 0 n).

(** ** Waiting for a transaction *)

Record chainReceipt := mkChainReceipt { crStatus : Z; crBlock : option Z; crLogs : list bytes }.

(** The answer to one poll: a receipt, [ethereum.NotFound], or another error. *)
Inductive poll := PReceipt (r : chainReceipt) | PNotFound | PError.

Definition mined (r : chainReceipt) : bool :=
  match crBlock r with Some n => 0 <? bigUint64 n | None => false end.

(** [waitForTransaction] of [main.go]; the polls end when the time is up. *)
Fixpoint waitForTransaction (polls : list poll) : outcome chainReceipt :=
  match polls with
  | [] => Err (ErrText "timeout")
  | PNotFound :: polls => waitForTransaction polls
  | PError :: _ => Err (ErrText "system error")
  | PReceipt r :: polls =>
      if crStatus r =? 0 then Err (ErrText "transaction failed")
      else if mined r && (crStatus r =? 1) then Ok r
      else waitForTransaction polls
  end.

(** The one of [listener.go]: a failure counts once the receipt has a block. *)
Fixpoint waitForTransactionListener (polls : list poll) : outcome chainReceipt :=
  match polls with
  | [] => Err (ErrText "timeout")
  | PNotFound :: polls => waitForTransactionListener polls
  | PError :: _ => Err (ErrText "system error")
  | PReceipt r :: polls =>
      if mined r then if crStatus r =? 1 then Ok r else Err (ErrText "transaction failed")
      else waitForTransactionListener polls
  end.

(** The loop over the logs: the first one that the contract's parser accepts. *)
Definition firstParsed (parse : bytes -> option bytes) (logs : list bytes) : option bytes :=
  head (omap parse logs).

(** ** sendRawEthereumTransaction

    A call of the TCP client ([ClientTransactions]): the nonce is the node's,
    and the receipt is awaited under the hash the node has acknowledged. *)
Section SendRaw.
Context `{EthLib} `{StateProto} `{TxProto} `{Blst} `{BlstKeys} `{Secp} `{ErrorProto} `{ClientCodec} `{EthTypes} `{!EthWallet}.
Local Open Scope client_scope.

Definition rawTx (nonce gasPrice gas : Z) (to : option bytes) (value : Z) (data : bytes) : EthTx :=
  NewTx (LegacyTx nonce gasPrice gas to value data None).

Definition sendRawEthereumTransaction (chainId : Z) (privateKey : bytes) (to : option bytes) (value : option Z)
    (data : bytes) (gas gasPrice : Z) : prog (outcome (Receipt * EthTx * option GoError)) :=
  if chainId =? 0 then fail "chain ID must be configured"
  else
    let from := PubkeyToAddress (pubkeyOf privateKey) in
    account <-? ClientTransactions.AccountState from ;;
    match SignTx (rawTx (AccountState.nonce account) gasPrice gas to (default 0 value) data) (LatestSignerForChainID chainId) privateKey with
    | None => fail "sign Ethereum transaction"
    | Some signed =>
        match MarshalBinary signed with
        | None => fail "marshal EIP-2718 transaction"
        | Some raw =>
            acceptedHash <-? SendRawEthTransaction raw ;;
            if negb (bool_decide (acceptedHash = ethTxHash signed)) then fail "node acknowledged unexpected transaction hash"
            else
              receipt <-? FindReceiptByHash acceptedHash ;;
              ok (receipt, signed, if statusOk receipt then None else Some (ErrText "transaction failed on chain"))
        end
    end.
End SendRaw.

(** ** uploadFile *)

Record Info := mkInfo { MerkleRoot : bytes; ContentLen : Z; TotalChunks : Z }.

(** The answers of one upload.  [upPush] is the hash of the transaction with
    the file's information, over TCP or HTTP. *)
Record upEnv := mkUpEnv {
  upFile : option bytes;
  upChain : bool;
  upBalanceBefore : bool;
  upTransactor : bool;
  upPush : Info -> outcome bytes;
  upPolls : list poll;
  upBalanceAfter : bool;
  upParse : bytes -> option bytes;
  upConn1 : nat -> bool;
  upConn2 : nat -> bool;
  upStream : nat -> nat -> stream
}.

Definition check (b : bool) (what : string) : outcome unit := if b then Ok tt else Err (ErrText what).

(** What the goroutines start with. *)
Record upReadied := mkReadied { rdKey : bytes; rdInfo : Info; rdFile : bytes; rdLeaves : list bytes }.

Section Upload.
Context `{EthLib} `{Secp} `{StorageJson}.

(** Everything before the first chunk is sent.  A channel of negative capacity
    cannot be made. *)
Definition uploadPrepare (cfg : Config) (privateKey : bytes) (numWorkers : Z) (env : upEnv) : outcome upReadied :=
  match upFile env with
  | None => Err (ErrText "read file")
  | Some fileData =>
      total ← totalChunks (ChunkSize cfg) (len fileData);
      chunks ← splitChunks (ChunkSize cfg) fileData;
      '(leaves, root) ← buildMerkleTreePadded chunks;
      let info := mkInfo (arrayFromBytes 32 root) (len fileData) total in
      check (upChain env) "chain ID" ≫= fun _ =>
      check (upBalanceBefore env) "balance" ≫= fun _ =>
      check (upTransactor env) "transactor" ≫= fun _ =>
      upPush env info ≫= fun _ =>
      receipt ← waitForTransaction (upPolls env);
      check (upBalanceAfter env) "balance" ≫= fun _ =>
      let fileKey := default zeroHash (firstParsed (upParse env) (crLogs receipt)) in
      if bool_decide (fileKey = zeroHash) then Err (ErrText "FileKey not found in logs")
      else if numWorkers <? 0 then Panic
      else
        check (2 <=? Z.of_nat (length (RustServers cfg))) "servers" ≫= fun _ =>
        CreateQuicConnection (upConn1 env) ≫= fun _ =>
        CreateQuicConnection (upConn2 env) ≫= fun _ =>
        SignMessage privateKey (EncodeToString fileKey) ≫= fun _ =>
        Ok (mkReadied fileKey info fileData leaves)
  end.

(** What the goroutine of a chunk sends: the chunk and its proof. *)
Definition chunkMessage (chunkSize : Z) (fileData : bytes) (leaves : list bytes) (i : nat) : outcome (bytes * list bytes) :=
  chunk ← chunkAt chunkSize fileData (Z.of_nat i);
  proof ← getMerkleProofPadded leaves (Z.of_nat i);
  Ok (chunk, proof).

(** A chunk and its proof, both frames written to the stream of an attempt. *)
Record sentChunk := mkSent { scIndex : nat; scAttempt : nat; scData : bytes; scProof : list bytes }.

(** Where the goroutine of a chunk is: before attempt [k]; after the last one; with
    the count of failures read. *)
Inductive ulGo := Attempt (k : nat) | GivenUp | Counting (n : Z).

(** The shared state: what was written whole, the chunks for which a server answered
    with success, [countErr], the next chunk to start, the running goroutines, and
    whether one has panicked. *)
Record ulState := mkUl {
  ulSent : list sentChunk; ulTaken : list nat; ulErr : Z; ulNext : nat; ulActive : gmap nat ulGo; ulDead : bool
}.

Definition ulInit : ulState := mkUl [] [] 0 0 ∅ false.

(** The command and the chunk take two [Write] calls each. *)
Definition bothFrames (s : stream) : bool := opens s && (4 <=? writes s)%nat.

Section UploadSteps.
Context (chunkSize : Z) (fileData : bytes) (leaves : list bytes) (total : nat) (numWorkers : Z) (streams : nat -> nat -> stream).

Inductive ulStep : ulState -> ulState -> Prop :=
| ulSpawn sent taken err next act :
    (next < total)%nat -> (size act < Z.to_nat numWorkers)%nat ->
    ulStep (mkUl sent taken err next act false) (mkUl sent taken err (S next) (<[next := Attempt 1]> act) false)
| ulPanics sent taken err next act i k :
    act !! i = Some (Attempt k) -> (forall m, chunkMessage chunkSize fileData leaves i <> Ok m) ->
    ulStep (mkUl sent taken err next act false) (mkUl sent taken err next act true)
| ulSuccess sent taken err next act i k chunk proof :
    act !! i = Some (Attempt k) -> chunkMessage chunkSize fileData leaves i = Ok (chunk, proof) ->
    uploadAttempt (streams i k) = Ok tt ->
    ulStep (mkUl sent taken err next act false)
           (mkUl (sent ++ [mkSent i k chunk proof]) (taken ++ [i]) err next (delete i act) false)
| ulFailure sent taken err next act i k chunk proof :
    act !! i = Some (Attempt k) -> chunkMessage chunkSize fileData leaves i = Ok (chunk, proof) ->
    uploadAttempt (streams i k) <> Ok tt ->
    ulStep (mkUl sent taken err next act false)
           (mkUl (sent ++ (if bothFrames (streams i k) then [mkSent i k chunk proof] else [])) taken err next
              (<[i := if (k <? maxRetries)%nat then Attempt (S k) else GivenUp]> act) false)
| ulReadErr sent taken err next act i :
    act !! i = Some GivenUp ->
    ulStep (mkUl sent taken err next act false) (mkUl sent taken err next (<[i := Counting err]> act) false)
| ulWriteErr sent taken err next act i n :
    act !! i = Some (Counting n) ->
    ulStep (mkUl sent taken err next act false) (mkUl sent taken (n + 1) next (delete i act) false).

(** [wg.Wait()] has returned. *)
Definition ulFinal (s : ulState) : Prop := ulNext s = total /\ ulActive s = ∅ /\ ulDead s = false.
End UploadSteps.

(** What an upload leaves: the key it returns, the information it has registered,
    and the state of its goroutines in the end. *)
Record uploaded := mkUploaded { uKey : bytes; uInfo : Info; uEnd : ulState }.

(** A whole upload and its result. *)
Definition uploadFile (cfg : Config) (privateKey : bytes) (numWorkers : Z) (env : upEnv) (r : outcome uploaded) : Prop :=
  match uploadPrepare cfg privateKey numWorkers env with
  | Ok p =>
      let total := Z.to_nat (TotalChunks (rdInfo p)) in
      exists s, rtc (ulStep (ChunkSize cfg) (rdFile p) (rdLeaves p) total numWorkers (upStream env)) ulInit s /\
        ((ulDead s = true /\ r = Panic) \/ (ulFinal total s /\ r = Ok (mkUploaded (rdKey p) (rdInfo p) s)))
  | Err e => r = Err e
  | Panic => r = Panic
  | NoFuel => r = NoFuel
  end.
End Upload.

(** ** DownloadFile *)

Record downEnv := mkDownEnv {
  dnInfo : outcome Info;
  dnChain : bool;
  dnTransactor : bool;
  dnPay : outcome bytes;
  dnPolls : list poll;
  dnParse : bytes -> option bytes;
  dnOpen : bool;
  dnTruncate : bool;
  dnOld : bytes;
  dnConn1 : nat -> bool;
  dnConn2 : nat -> bool;
  dnAnswer : nat -> outcome bytes;
  dnWrite : nat -> bool
}.

(** Everything before the first chunk: the file's information, the payment and
    the download key, and the output file, which keeps what it held up to the
    new length, or as it is when it cannot be truncated. *)
Definition downloadPrepare `{EthLib} `{Secp} (privateKey : bytes) (env : downEnv) : outcome (Info * bytes) :=
  info ← dnInfo env;
  if ContentLen info =? 0 then Err (ErrText "no content")
  else
    check (dnChain env) "chain ID" ≫= fun _ =>
    check (dnTransactor env) "transactor" ≫= fun _ =>
    dnPay env ≫= fun _ =>
    receipt ← waitForTransaction (dnPolls env);
    match firstParsed (dnParse env) (crLogs receipt) with
    | None => Err (ErrText "DownloadKeyGenerated not found")
    | Some downloadKey =>
        check (dnOpen env) "output file" ≫= fun _ =>
        CreateQuicConnection (dnConn1 env) ≫= fun _ =>
        CreateQuicConnection (dnConn2 env) ≫= fun _ =>
        SignMessage privateKey (EncodeToString downloadKey) ≫= fun _ =>
        Ok (info, let size := to_int64 (ContentLen info) in
                  if dnTruncate env && (0 <=? size) then resize (Z.to_nat size) 0 (dnOld env) else dnOld env)
    end.

(** [WriteAt]: a gap before the offset is filled with zeros. *)
Definition writeAt (off : nat) (data : bytes) (out : bytes) : bytes :=
  let padded := resize (Nat.max (length out) (off + length data)) 0 out in
  take off padded ++ data ++ drop (off + length data) padded.

(** The shared state: the file, [downloadedCount], the next chunk to start, and
    the running goroutines, marked [true] once the data is written. *)
Record dlState := mkDl { dlOut : bytes; dlCount : Z; dlNext : nat; dlActive : gmap nat bool }.

Definition dlInit (out : bytes) : dlState := mkDl out 0 0 ∅.

Definition slots (workers : Z) : nat := if workers <=? 0 then 50 else Z.to_nat workers.

(** [int64(i * config.ChunkSize)] *)
Definition offsetOf (chunkSize : Z) (i : nat) : Z := to_int64 (wrap64 (Z.of_nat i * chunkSize)).

Section DownloadSteps.
Context (chunkSize : Z) (total : nat) (workers : Z) (env : downEnv).

Inductive dlStep : dlState -> dlState -> Prop :=
| dlSpawn out n next act :
    (next < total)%nat -> (size act < slots workers)%nat ->
    dlStep (mkDl out n next act) (mkDl out n (S next) (<[next := false]> act))
| dlFail out n next act i :
    act !! i = Some false -> (forall data, dnAnswer env i <> Ok data) ->
    dlStep (mkDl out n next act) (mkDl out n next (delete i act))
| dlWrite out n next act i data :
    act !! i = Some false -> dnAnswer env i = Ok data -> 0 <= offsetOf chunkSize i -> dnWrite env i = true ->
    dlStep (mkDl out n next act)
           (mkDl (writeAt (Z.to_nat (offsetOf chunkSize i)) data out) n next (<[i := true]> act))
| dlWriteFail out n next act i data :
    act !! i = Some false -> dnAnswer env i = Ok data -> offsetOf chunkSize i < 0 \/ dnWrite env i = false ->
    dlStep (mkDl out n next act) (mkDl out n next (delete i act))
| dlDone out n next act i :
    act !! i = Some true ->
    dlStep (mkDl out n next act) (mkDl out (n + 1) next (delete i act)).

(** [wg.Wait()] has returned. *)
Definition dlFinal (s : dlState) : Prop := dlNext s = total /\ dlActive s = ∅.
End DownloadSteps.

Definition downloadResult (info : Info) (s : dlState) : outcome Z :=
  if negb (dlCount s =? TotalChunks info) then Err (ErrText "missing chunks") else Ok (ContentLen info).

(** A whole download: what it returns and the file it leaves. *)
Definition DownloadFile `{EthLib} `{Secp} (chunkSize workers : Z) (privateKey : bytes) (env : downEnv)
    (r : outcome Z) (out : bytes) : Prop :=
  match downloadPrepare privateKey env with
  | Ok (info, out0) =>
      exists s, rtc (dlStep chunkSize (Z.to_nat (TotalChunks info)) workers env) (dlInit out0) s /\
        dlFinal (Z.to_nat (TotalChunks info)) s /\ r = downloadResult info s /\ out = dlOut s
  | Err e => r = Err e
  | Panic => r = Panic
  | NoFuel => r = NoFuel
  end.

(** ** Looking for missing chunks

    [findMissingChunks] of [debug_rust/main.go]: the chunk indices a server
    lists, which holds every second chunk, are compared pairwise; the sums are
    [uint64]. *)
Fixpoint missingFrom (fuel : nat) (expectedNum current : Z) : outcome (list Z) :=
  match fuel with
  | O => NoFuel
  | S fuel =>
      if expectedNum <? current then
        rest ← missingFrom fuel (wrap64 (expectedNum + 2)) current;
        Ok (expectedNum :: rest)
      else Ok []
  end.

Fixpoint findMissingChunks (fuel : nat) (data : list Z) : outcome (list Z) :=
  match data with
  | previous :: ((current :: _) as data') =>
      here ← (if wrap64 (current - previous) >? 2 then missingFrom fuel (wrap64 (previous + 2)) current else Ok []);
      rest ← findMissingChunks fuel data';
      Ok (here ++ rest)
  | _ => Ok []
  end.
