(* ===== verification/FileTransferTheorems.v ===== *)
(** * Files: what an upload sends and a download restores

    Frames are read back within the limit of the reader; the chunks of a file
    are its consecutive pieces; what an upload writes are chunks with the siblings
    on their path in the tree of the registered root, and its count of failures is
    zero exactly when every chunk was taken; a download whose answers are the
    chunks of a file leaves that file, whatever the order of the writes; every
    schedule of the goroutines ends, with at most the given number of them
    running at a time. *)

From S2P Require Import Prelude GoStrings Binary TrieEncoding Instances ArgumentEncode AccountState Transaction EthTransaction TxInstances Message.
From S2P Require Import BlockChecker Utils FileMerkle FileTransfer.
From S2P Require Import TrieNode Receipts SmartContract Connections ReceiptRouter TransactionError BlsKeys ClientProg ClientHandler ClientRequests ClientTransactions TxHelper ClientDiscipline ClientReceipts ClientInstances ClientTheorems TxHelperTheorems.

Local Open Scope Z_scope.

(** ** Frames *)

Lemma beBytes_read n z : bigSetBytes (beBytes n z) = z mod 256 ^ Z.of_nat n.
Proof. unfold bigSetBytes, beBytes. by rewrite reverse_involutive, undigits_leBytes. Qed.

Lemma readFrame_write data rest :
  readFrameWithLength (writeFrameWithLength data ++ rest) =
  let n := len data mod 2 ^ 32 in
  if n >? maxFrame then Err (ErrText "frame too large")
  else Ok (take (Z.to_nat n) (data ++ rest), drop (Z.to_nat n) (data ++ rest)).
Proof.
  unfold readFrameWithLength, writeFrameWithLength. rewrite <- app_assoc, length_app, length_beBytes.
  rewrite (proj2 (Nat.ltb_ge _ _)) by lia. rewrite take_app_length', drop_app_length' by (by rewrite length_beBytes).
  rewrite beBytes_read. change (256 ^ Z.of_nat 4) with (2 ^ 32). rewrite Z.mod_mod by lia. cbv zeta.
  fold (len data). destruct (len data mod 2 ^ 32 >? maxFrame); [done|].
  rewrite (proj2 (Z.ltb_ge _ _)); [done|].
  pose proof (Z.mod_le (len data) (2 ^ 32)). unfold len in *. rewrite length_app. lia.
Qed.

(** ** Chunks *)

Section Chunks.
Context (cs : Z) (file : bytes).
Context (Hcs : 0 < cs) (Hlen : len file + cs < 2 ^ 64).

(** The number of chunks, and the [i]-th one. *)
Definition pieces : Z := (len file + cs - 1) / cs.
Definition piece (i : nat) : bytes := take (Z.to_nat cs) (drop (i * Z.to_nat cs) file).

Lemma len_file : 0 <= len file.
Proof. apply len_nonneg. Qed.

Lemma totalChunks_pieces : totalChunks cs (len file) = Ok pieces.
Proof.
  pose proof len_file. unfold totalChunks. rewrite (proj2 (Z.eqb_neq _ _)) by lia.
  by rewrite wrap64_id by lia.
Qed.

Lemma pieces_nonneg : 0 <= pieces.
Proof. pose proof len_file. apply Z.div_pos; lia. Qed.

Lemma piece_start i : 0 <= i < pieces -> i * cs < len file.
Proof.
  intros Hi. unfold pieces in Hi. pose proof (Z.mul_div_le (len file + cs - 1) cs Hcs). nia.
Qed.

Lemma chunkAt_piece i : 0 <= i < pieces -> chunkAt cs file i = Ok (piece (Z.to_nat i)).
Proof.
  intros Hi. pose proof (piece_start i Hi). pose proof len_file. unfold chunkAt. cbv zeta.
  rewrite (wrap64_id (i * cs)) by nia. rewrite (wrap64_id (i * cs + cs)) by nia.
  assert (E : (if i * cs + cs >? len file then len file else i * cs + cs) = Z.min (i * cs + cs) (len file)).
  { destruct (Z.gtb_spec (i * cs + cs) (len file)); lia. }
  rewrite E. unfold slice. rewrite !(proj2 (Z.leb_le _ _)) by lia. cbn [andb]. f_equal. unfold piece.
  replace (Z.to_nat (i * cs)) with (Z.to_nat i * Z.to_nat cs)%nat by nia.
  destruct (Z.min_spec (i * cs + cs) (len file)) as [[_ Em]|[Hle Em]]; rewrite Em.
  - f_equal. lia.
  - rewrite !take_ge; [done| |]; rewrite length_drop; unfold len in *; nia.
Qed.

Lemma splitChunks_pieces : splitChunks cs file = Ok (piece <$> seq 0 (Z.to_nat pieces)).
Proof.
  unfold splitChunks. rewrite totalChunks_pieces. cbn [mbind outcome_bind]. apply mapO_Forall2.
  unfold seqZ. rewrite Forall2_fmap_l, Forall2_fmap_r. apply Forall_Forall2_diag, Forall_forall.
  intros i [_ Hi]%elem_of_seq. cbn. rewrite chunkAt_piece by lia. do 2 f_equal. lia.
Qed.

Lemma length_piece i : (Z.of_nat i < pieces)%Z ->
  length (piece i) = Z.to_nat (Z.min cs (len file - Z.of_nat i * cs)).
Proof.
  intros Hi. pose proof (piece_start (Z.of_nat i) ltac:(lia)). unfold piece. rewrite length_take, length_drop.
  unfold len in *. nia.
Qed.

Lemma piece_nonempty i : (Z.of_nat i < pieces)%Z -> piece i <> [].
Proof.
  intros Hi E. pose proof (length_piece i Hi) as Hl. rewrite E in Hl. simpl in Hl.
  pose proof (piece_start (Z.of_nat i) ltac:(lia)). lia.
Qed.

Lemma pieces_cover p : (p < length file)%nat -> (Z.of_nat (p / Z.to_nat cs) < pieces)%Z.
Proof.
  intros Hp. unfold pieces. rewrite Nat2Z.inj_div, Z2Nat.id by lia. unfold len.
  apply Z.div_lt_upper_bound; [done|].
  pose proof (Z.mul_succ_div_gt (Z.of_nat (length file) + cs - 1) cs Hcs). nia.
Qed.

Lemma pieces_join n : mjoin (piece <$> seq 0 n) = take (n * Z.to_nat cs) file.
Proof.
  induction n as [|n IH]; [done|]. rewrite seq_S, fmap_app, join_app, IH. cbn. rewrite app_nil_r. unfold piece.
  replace (Z.to_nat cs + n * Z.to_nat cs)%nat with (n * Z.to_nat cs + Z.to_nat cs)%nat by lia.
  by rewrite take_take_drop.
Qed.

Lemma pieces_all : mjoin (piece <$> seq 0 (Z.to_nat pieces)) = file.
Proof.
  rewrite pieces_join. apply take_ge. pose proof len_file.
  pose proof (Z.mul_succ_div_gt (len file + cs - 1) cs Hcs) as Hg. pose proof pieces_nonneg. fold pieces in Hg.
  unfold len in *. nia.
Qed.
End Chunks.

(** ** Writing at an offset *)

Lemma writeAt_lookup off data out p :
  writeAt off data out !! p =
    if decide (off <= p < off + length data)%nat then data !! (p - off)%nat
    else if decide (p < length out)%nat then out !! p
    else if decide (p < off)%nat then Some 0 else None.
Proof.
  unfold writeAt. set (n := Nat.max (length out) (off + length data)). set (padded := resize n 0 out).
  assert (Lp : length padded = n) by apply length_resize.
  assert (Hp : forall q, padded !! q = if decide (q < length out)%nat then out !! q else if decide (q < n)%nat then Some 0 else None).
  { intros q. unfold padded. rewrite resize_ge by lia. rewrite lookup_app. case_decide as Hq.
    - destruct (lookup_lt_is_Some_2 out q Hq) as [x ->]. done.
    - rewrite lookup_ge_None_2 by lia. case_decide; [apply lookup_replicate_2; lia|]. apply lookup_replicate_None. lia. }
  assert (Lt : length (take off padded) = off) by (rewrite length_take; lia).
  case_decide as Ho.
  - rewrite lookup_app_r, Lt by lia. by rewrite lookup_app_l by lia.
  - destruct (decide (p < off)%nat) as [Hlt|Hge].
    + rewrite lookup_app_l by lia. rewrite lookup_take_lt, Hp by lia. case_decide; [done|]. by rewrite decide_True by lia.
    + rewrite lookup_app_r, Lt by lia. rewrite lookup_app_r by lia. rewrite lookup_drop, Hp.
      replace (off + length data + (p - off - length data))%nat with p by lia. case_decide; [done|]. by rewrite decide_False by lia.
Qed.

(** ** The steps of a download *)

Section Download.
Context (cs : Z) (file : bytes) (workers : Z) (env : downEnv) (out0 : bytes).
Context (Hcs : 0 < cs) (Hlen : len file + cs < 2 ^ 63).

Local Abbreviation total := (Z.to_nat (pieces cs file)).
Local Abbreviation csn := (Z.to_nat cs).
Local Abbreviation step := (dlStep cs total workers env).

(** The servers answer with the chunks of [file], when they answer. *)
Definition honest : Prop := forall i data, (i < total)%nat -> dnAnswer env i = Ok data -> data = piece cs file i.

Lemma offsetOf_piece i : (i < total)%nat -> offsetOf cs i = Z.of_nat i * cs.
Proof.
  intros Hi. pose proof (piece_start cs file Hcs (Z.of_nat i) ltac:(lia)). unfold offsetOf.
  rewrite wrap64_id by nia. apply to_int64_id. nia.
Qed.

(** Every chunk is answered and written. *)
Definition noFail : Prop := forall i, (i < total)%nat -> (exists data, dnAnswer env i = Ok data) /\ dnWrite env i = true.

(** [W] is the set of chunks that were written, [C] of those that were counted. *)
Record dlInv (s : dlState) (W C : gset nat) : Prop := {
  inv_tail p : (length file <= p)%nat -> dlOut s !! p = out0 !! p;
  inv_out p : (p < length file)%nat -> (p / csn)%nat ∈ W -> dlOut s !! p = file !! p;
  inv_next : (dlNext s <= total)%nat;
  inv_active i b : dlActive s !! i = Some b -> (i < dlNext s)%nat /\ (i ∉ C) /\ (b = true -> i ∈ W);
  inv_counted i : i ∈ C -> i ∈ W /\ (i < dlNext s)%nat;
  inv_count : dlCount s = Z.of_nat (size C);
  inv_cover : noFail -> forall i, (i < dlNext s)%nat -> i ∈ C \/ is_Some (dlActive s !! i)
}.

Lemma write_piece i out p : (i < total)%nat ->
  writeAt (i * csn) (piece cs file i) out !! p =
    if decide (p < length file /\ p / csn = i)%nat then file !! p
    else if decide (p < length out)%nat then out !! p
    else if decide (p < i * csn)%nat then Some 0 else None.
Proof.
  intros Hi. pose proof (piece_start cs file Hcs (Z.of_nat i) ltac:(lia)) as Hst.
  pose proof (length_piece cs file Hcs i ltac:(lia)) as Hpl. unfold len in *. rewrite writeAt_lookup.
  assert (Heq : (i * csn <= p < i * csn + length (piece cs file i))%nat <-> (p < length file /\ p / csn = i)%nat).
  { rewrite Hpl. pose proof (Nat.div_mod_eq p csn). pose proof (Nat.mod_upper_bound p csn ltac:(lia)). split.
    - intros Hr. split; [lia|]. symmetry. apply (Nat.div_unique p csn i (p - i * csn)); nia.
    - intros [? <-]. nia. }
  destruct (decide (p < length file /\ p / csn = i)%nat) as [E|E]; [rewrite decide_True by (by apply Heq)|rewrite decide_False by (by rewrite Heq)];
    [|done].
  apply Heq in E as E'. unfold piece. rewrite lookup_take_lt, lookup_drop; [f_equal; lia|].
  unfold piece in E'. rewrite length_take in E'. lia.
Qed.

Lemma dlInv_step s s' W C : honest -> dlInv s W C -> step s s' -> exists W' C', dlInv s' W' C'.
Proof.
  intros Hh [Ht Ho Hn Ha Hc Hz Hv] Hs.
  destruct Hs as [out n next act Hlt Hsz|out n next act i Hi Hf|out n next act i data Hi Hd Hof Hw
                 |out n next act i data Hi Hd Hw|out n next act i Hi]; simpl in *.
  - exists W, C. split; simpl; try done.
    + intros j b [[<- <-]|[Hj Hb]]%lookup_insert_Some; [|destruct (Ha j b Hb) as (? & ? & ?); split_and!; [lia|done|done]].
      split_and!; [lia| |done]. intros Hin. apply Hc in Hin as [_ ?]. lia.
    + intros j Hj. apply Hc in Hj as [? ?]. split; [done|lia].
    + intros Hnf j Hj. destruct (decide (j = next)) as [->|Hne]; [right; rewrite lookup_insert_eq; eauto|].
      rewrite lookup_insert_ne by done. apply Hv; [done|lia].
  - destruct (Ha i false Hi) as (Hin & _ & _).
    exists W, C. split; simpl; try done; [intros j b [_ Hb]%lookup_delete_Some; by apply Ha|].
    intros Hnf. destruct (Hnf i) as [[data Hd] _]; [lia|]. by destruct (Hf data).
  - destruct (Ha i false Hi) as (Hin & HC & _). rewrite (Hh i data ltac:(lia) Hd).
    rewrite offsetOf_piece by lia. replace (Z.to_nat (Z.of_nat i * cs)) with (i * csn)%nat by nia.
    exists ({[i]} ∪ W), C. split; simpl; try done.
    + intros p Hp. rewrite write_piece by lia. rewrite decide_False by lia. rewrite <- Ht by done. case_decide as Hlt; [done|].
      rewrite decide_False; [by rewrite lookup_ge_None_2 by lia|].
      pose proof (piece_start cs file Hcs (Z.of_nat i) ltac:(lia)). unfold len in *. nia.
    + intros p Hp HW. rewrite write_piece by lia. case_decide as Hd'; [done|]. rewrite <- (Ho p Hp) by set_solver.
      rewrite decide_True; [done|]. apply lookup_lt_is_Some. rewrite (Ho p Hp) by set_solver. by apply lookup_lt_is_Some.
    + intros j b [[<- <-]|[Hj Hb]]%lookup_insert_Some; [split_and!; [done|done|set_solver]|].
      destruct (Ha j b Hb) as (? & ? & ?). split_and!; [done|done|]. set_solver.
    + intros j Hj. destruct (Hc j Hj). split; [set_solver|done].
    + intros Hnf j Hj. destruct (decide (j = i)) as [->|Hne]; [right; rewrite lookup_insert_eq; eauto|].
      rewrite lookup_insert_ne by done. by apply Hv.
  - destruct (Ha i false Hi) as (Hin & _ & _).
    exists W, C. split; simpl; try done; [intros j b [_ Hb]%lookup_delete_Some; by apply Ha|].
    intros Hnf. destruct (Hnf i) as [_ Hwr]; [lia|]. rewrite offsetOf_piece in Hw by lia. destruct Hw; [nia|congruence].
  - destruct (Ha i true Hi) as (Hin & HC & HW). exists W, ({[i]} ∪ C). split; simpl; try done.
    + intros j b [Hj Hb]%lookup_delete_Some. destruct (Ha j b Hb) as (? & ? & ?). split_and!; [done| |done]. set_solver.
    + intros j [->%elem_of_singleton|Hj]%elem_of_union; [by auto|by apply Hc].
    + rewrite size_union by set_solver. rewrite size_singleton. lia.
    + intros Hnf j Hj. destruct (decide (j = i)) as [->|Hne]; [left; set_solver|].
      rewrite lookup_delete_ne by done. destruct (Hv Hnf j Hj); [left; set_solver|by right].
Qed.

Lemma dlInv_steps s s' W C : honest -> dlInv s W C -> rtc step s s' -> exists W' C', dlInv s' W' C'.
Proof.
  intros Hh Hi Hr. revert W C Hi. induction Hr as [|s1 s2 s3 H12 _ IH]; intros W C Hi; [eauto|].
  destruct (dlInv_step _ _ _ _ Hh Hi H12) as (W' & C' & Hi'). by eapply IH.
Qed.

(** All chunks counted: all of the file is written, before what the output held
    beyond its length. *)
Lemma dlInv_complete s W C : dlInv s W C -> dlCount s = pieces cs file -> dlOut s = file ++ drop (length file) out0.
Proof.
  intros [Ht Ho Hn _ Hc Hz _] Hcount.
  assert (HC : forall i, (i < total)%nat -> i ∈ C).
  { assert (Hsub : C ⊆ set_seq 0 total).
    { intros i Hi. apply elem_of_set_seq. destruct (Hc i Hi). lia. }
    intros i Hi. destruct (decide (i ∈ C)) as [|Hni]; [done|exfalso].
    assert (Hss : C ⊆ set_seq 0 total ∖ {[i]}) by set_solver.
    apply subseteq_size in Hss. rewrite size_difference in Hss; [|apply singleton_subseteq_l, elem_of_set_seq; lia].
    rewrite size_set_seq, size_singleton in Hss. lia. }
  apply list_eq. intros p. destruct (decide (p < length file)%nat) as [Hp|Hp].
  - rewrite lookup_app_l by done. apply Ho; [done|]. apply Hc, HC. pose proof (pieces_cover cs file Hcs p Hp). lia.
  - rewrite lookup_app_r by lia. rewrite lookup_drop, Ht by lia. f_equal. lia.
Qed.

(** With no failures everything is counted in the end. *)
Lemma dlInv_noFail s W C : dlInv s W C -> noFail -> dlFinal total s -> dlCount s = pieces cs file.
Proof.
  intros [_ _ _ _ Hc Hz Hv] Hnf [En Ea]. rewrite Hz. assert (HC : C = set_seq 0 total).
  { apply set_eq. intros i. rewrite elem_of_set_seq. split.
    - intros Hi. destruct (Hc i Hi). lia.
    - intros Hi. destruct (Hv Hnf i) as [|[b Hb]]; [lia|done|]. by rewrite Ea, lookup_empty in Hb. }
  rewrite HC, size_set_seq. pose proof (pieces_nonneg cs file Hcs). lia.
Qed.

Lemma dlInv_init : dlInv (dlInit out0) ∅ ∅.
Proof.
  split; simpl; [done|set_solver|lia|by intros i b; rewrite lookup_empty|set_solver|done|lia].
Qed.
End Download.

(** ** Every schedule ends *)

(** The sum of a weight over the running goroutines. *)
Definition weightBy {A} (f : A -> nat) (act : gmap nat A) : nat := map_fold (fun _ x n => f x + n)%nat 0%nat act.

Lemma weightBy_insert {A} (f : A -> nat) (act : gmap nat A) i x : act !! i = None -> weightBy f (<[i := x]> act) = (f x + weightBy f act)%nat.
Proof. intros Hi. unfold weightBy. rewrite map_fold_insert_L; [done| |done]. intros. lia. Qed.

Lemma weightBy_delete {A} (f : A -> nat) (act : gmap nat A) i x : act !! i = Some x -> weightBy f act = (f x + weightBy f (delete i act))%nat.
Proof. intros Hi. rewrite <- (insert_delete_id act i x) at 1 by done. apply weightBy_insert, lookup_delete_eq. Qed.

Section Schedules.
Context (cs : Z) (total : nat) (workers : Z) (env : downEnv).
Local Abbreviation step := (dlStep cs total workers env).

(** Steps a running goroutine has left. *)
Definition weight : gmap nat bool -> nat := weightBy (fun b : bool => if b then 1 else 2)%nat.

Lemma weight_insert (act : gmap nat bool) (i : nat) (b : bool) : act !! i = None -> weight (<[i := b]> act) = ((if b then 1 else 2) + weight act)%nat.
Proof. apply weightBy_insert. Qed.

Lemma weight_delete (act : gmap nat bool) (i : nat) (b : bool) : act !! i = Some b -> weight act = ((if b then 1 else 2) + weight (delete i act))%nat.
Proof. apply weightBy_delete. Qed.

Definition todo (s : dlState) : nat := 3 * (total - dlNext s) + weight (dlActive s).

Record dlBound (s : dlState) : Prop := {
  bound_active i b : dlActive s !! i = Some b -> (i < dlNext s)%nat;
  bound_next : (dlNext s <= total)%nat;
  bound_slots : (size (dlActive s) <= slots workers)%nat
}.

Lemma dlBound_step s s' : dlBound s -> step s s' -> dlBound s' /\ (todo s' < todo s)%nat.
Proof.
  intros [Ha Hn Hs] Hst.
  destruct Hst as [out n next act Hlt Hsz|out n next act i Hi Hf|out n next act i data Hi Hd Hof Hw
                 |out n next act i data Hi Hd Hw|out n next act i Hi]; unfold todo; simpl in *.
  - assert (Hnone : act !! next = None).
    { destruct (act !! next) as [b|] eqn:E; [|done]. apply Ha in E. lia. }
    split; [split; simpl; [|lia|rewrite map_size_insert_None by done; lia]|rewrite weight_insert by done; lia].
    intros j b [[<- _]|[_ Hb]]%lookup_insert_Some; [lia|]. apply Ha in Hb. lia.
  - split; [split; simpl; [|done|rewrite map_size_delete_Some by done; lia]|].
    + intros j b [_ Hb]%lookup_delete_Some. by eapply Ha.
    + rewrite (weight_delete act i false) by done. lia.
  - split; [split; simpl; [|done|rewrite map_size_insert_Some by done; lia]|].
    + intros j b [[<- _]|[_ Hb]]%lookup_insert_Some; [by eapply Ha|by eapply Ha].
    + rewrite <- insert_delete_eq, weight_insert by apply lookup_delete_eq. rewrite (weight_delete act i false) by done. lia.
  - split; [split; simpl; [|done|rewrite map_size_delete_Some by done; lia]|].
    + intros j b [_ Hb]%lookup_delete_Some. by eapply Ha.
    + rewrite (weight_delete act i false) by done. lia.
  - split; [split; simpl; [|done|rewrite map_size_delete_Some by done; lia]|].
    + intros j b [_ Hb]%lookup_delete_Some. by eapply Ha.
    + rewrite (weight_delete act i true) by done. lia.
Qed.

Lemma dlBound_init out : dlBound (dlInit out).
Proof. split; simpl; [by intros i b; rewrite lookup_empty|lia|rewrite map_size_empty; lia]. Qed.

Lemma dlBound_nsteps n s s' : dlBound s -> nsteps step n s s' -> dlBound s' /\ (n + todo s' <= todo s)%nat.
Proof.
  intros Hb Hn. revert Hb. induction Hn as [|n s1 s2 s3 H12 _ IH]; intros Hb; [by split; [|lia]|].
  destruct (dlBound_step _ _ Hb H12) as [Hb2 Hlt]. destruct (IH Hb2) as [Hb3 Hle]. split; [done|lia].
Qed.

Lemma slots_pos : (0 < slots workers)%nat.
Proof. unfold slots. destruct (Z.leb_spec workers 0); lia. Qed.

(** A goroutine that runs can take a step; with none running there is a free
    slot. *)
Lemma dl_progress s : dlBound s -> dlFinal total s \/ exists s', step s s'.
Proof.
  destruct s as [out n next act]. intros [_ Hn _]. simpl in *.
  destruct (map_choose_or_empty act) as [(i & b & Hi)| ->].
  - right. destruct b; [eexists; by eapply dlDone|].
    destruct (dnAnswer env i) as [data| | |] eqn:E; [|eexists; eapply dlFail; [done|congruence]..].
    destruct (decide (0 <= offsetOf cs i)); [destruct (dnWrite env i) eqn:Ew|].
    + eexists. by eapply dlWrite.
    + eexists. eapply dlWriteFail; [done|done|by right].
    + eexists. eapply dlWriteFail; [done|done|left; lia].
  - destruct (decide (next = total)) as [->|Hne]; [by left|right].
    eexists. apply dlSpawn; [lia|]. rewrite map_size_empty. apply slots_pos.
Qed.
End Schedules.

(** ** Uploads *)

Lemma bind_inv {A B} (m : outcome A) (f : A -> outcome B) b : m ≫= f = Ok b -> exists a, m = Ok a /\ f a = Ok b.
Proof. destruct m; simpl; [eauto|discriminate..]. Qed.

Section Uploads.
Context `{EthLibLaws} `{Secp} `{StorageJson}.
Context (cfg : Config) (privateKey : bytes) (numWorkers : Z) (env : upEnv) (file : bytes).
Local Abbreviation cs := (ChunkSize cfg).
Local Abbreviation total := (Z.to_nat (pieces cs file)).
Context (Hcs : 0 < cs) (Hlen : len file + cs < 2 ^ 64).

Definition filePieces : list bytes := piece cs file <$> seq 0 total.

Lemma length_filePieces : length filePieces = total.
Proof. unfold filePieces. by rewrite length_fmap, length_seq. Qed.

Lemma build_filePieces : exists leaves root, buildMerkleTreePadded filePieces = Ok (leaves, root) /\ length root = 32%nat.
Proof.
  destruct (decide (filePieces = [])) as [->|Hne].
  - do 2 eexists. split; [done|]. apply Keccak256_len.
  - exists (paddedLeaves filePieces), (rootOf (depth filePieces) (paddedLeaves filePieces)).
    split; [by apply buildMerkleTree_root|]. apply rootOf_len; [by apply paddedLeaves_length|apply paddedLeaves_hashes].
Qed.

(** The answers with which the goroutines are started. *)
Definition upReady (fileKey : bytes) : Prop :=
  upChain env = true /\ upBalanceBefore env = true /\ upTransactor env = true /\
  (forall info, exists h, upPush env info = Ok h) /\
  (exists r, waitForTransaction (upPolls env) = Ok r /\ firstParsed (upParse env) (crLogs r) = Some fileKey) /\
  upBalanceAfter env = true /\ fileKey <> zeroHash /\ 0 <= numWorkers /\ 2 <= Z.of_nat (length (RustServers cfg)) /\
  CreateQuicConnection (upConn1 env) = Ok tt /\ CreateQuicConnection (upConn2 env) = Ok tt /\
  exists sig, SignMessage privateKey (EncodeToString fileKey) = Ok sig.

(** What is registered for the file. *)
Definition registered (p : upReadied) : Prop :=
  rdFile p = file /\ ContentLen (rdInfo p) = len file /\ TotalChunks (rdInfo p) = pieces cs file /\
  buildMerkleTreePadded filePieces = Ok (rdLeaves p, MerkleRoot (rdInfo p)).

Context (Hfile : upFile env = Some file).

Lemma uploadPrepare_ready fileKey : upReady fileKey ->
  exists p, uploadPrepare cfg privateKey numWorkers env = Ok p /\ rdKey p = fileKey.
Proof.
  intros (E1 & E2 & E3 & Ep & (r & Ew & Ek) & E4 & Hz & Hw & E5 & E6 & E7 & (sig & Es)).
  destruct build_filePieces as (leaves & root & Eb & Lr).
  exists (mkReadied fileKey (mkInfo root (len file) (pieces cs file)) file leaves). split; [|done].
  unfold uploadPrepare. rewrite Hfile, totalChunks_pieces by done. cbn [mbind outcome_bind].
  rewrite splitChunks_pieces by done. fold filePieces. cbn [mbind outcome_bind]. rewrite Eb. cbn [mbind outcome_bind].
  rewrite E1, E2, E3. cbn [check mbind outcome_bind]. rewrite arrayFromBytes_id by done.
  destruct (Ep (mkInfo root (len file) (pieces cs file))) as [h ->]. cbn [mbind outcome_bind].
  rewrite Ew. cbn [mbind outcome_bind]. rewrite E4, Ek. cbn [check mbind outcome_bind default id].
  rewrite bool_decide_eq_false_2 by done. destruct (Z.ltb_spec numWorkers 0); [lia|].
  rewrite (proj2 (Z.leb_le _ _) E5), E6, E7. cbn [check mbind outcome_bind]. by rewrite Es.
Qed.

Lemma uploadPrepare_inv p : uploadPrepare cfg privateKey numWorkers env = Ok p -> registered p.
Proof.
  unfold uploadPrepare. rewrite Hfile, totalChunks_pieces by done. cbn [mbind outcome_bind].
  rewrite splitChunks_pieces by done. fold filePieces. cbn [mbind outcome_bind].
  destruct build_filePieces as (leaves & root & Eb & Lr). rewrite Eb. cbn [mbind outcome_bind].
  rewrite arrayFromBytes_id by done.
  intros (? & _ & E)%bind_inv. apply bind_inv in E as (? & _ & E). apply bind_inv in E as (? & _ & E).
  apply bind_inv in E as (? & _ & E). apply bind_inv in E as (r & _ & E). apply bind_inv in E as (? & _ & E).
  case_bool_decide; [done|]. destruct (numWorkers <? 0); [done|]. apply bind_inv in E as (? & _ & E). apply bind_inv in E as (? & _ & E).
  apply bind_inv in E as (? & _ & E). apply bind_inv in E as (? & _ & E). injection E as <-. by split_and!.
Qed.
End Uploads.

Section UploadRuns.
Context `{EthLibLaws} `{Secp} `{StorageJson}.
Context (cfg : Config) (numWorkers : Z) (env : upEnv) (file : bytes) (leaves : list bytes) (root : bytes).
Local Abbreviation cs := (ChunkSize cfg).
Local Abbreviation total := (Z.to_nat (pieces cs file)).
Local Abbreviation step := (ulStep cs file leaves total numWorkers (upStream env)).
Context (Hcs : 0 < cs) (Hlen : len file + cs < 2 ^ 64).
Context (Hbuild : buildMerkleTreePadded (filePieces cfg file) = Ok (leaves, root)).

(** Attempt [k] for chunk [i] was answered with success. *)
Definition took (i k : nat) : Prop := uploadAttempt (upStream env i k) = Ok tt.

(** A chunk on the wire: both frames of one of three attempts, the piece of the file
    and one sibling per level. *)
Definition sentOk (c : sentChunk) : Prop :=
  (scIndex c < total)%nat /\ (1 <= scAttempt c <= maxRetries)%nat /\ bothFrames (upStream env (scIndex c) (scAttempt c)) = true /\
  scData c = piece cs file (scIndex c) /\ length (scProof c) = depth (filePieces cfg file) /\ onPath leaves (scIndex c) (scProof c).

Lemma chunkMessage_ok i : (i < total)%nat -> exists proof,
  chunkMessage cs file leaves i = Ok (piece cs file i, proof) /\ length proof = depth (filePieces cfg file) /\ onPath leaves i proof.
Proof.
  intros Hi. assert (Hne : filePieces cfg file <> []).
  { intros E. pose proof (length_filePieces cfg file) as L. rewrite E in L. simpl in L. lia. }
  destruct (merkle_proofs (filePieces cfg file) Hne) as (leaves' & root' & Eb' & Hproof).
  rewrite Hbuild in Eb'. injection Eb' as <- <-. destruct (Hproof i) as (proof & Eg & Lg & Ev); [by rewrite length_filePieces|].
  exists proof. split_and!; [|done..]. unfold chunkMessage. rewrite chunkAt_piece by lia. cbn [mbind outcome_bind].
  rewrite Eg. cbn [mbind outcome_bind]. by rewrite Nat2Z.id.
Qed.

Lemma attempt_frames s : uploadAttempt s = Ok tt -> bothFrames s = true.
Proof.
  unfold uploadAttempt, bothFrames. destruct (opens s); [|done]. cbn [negb andb]. destruct (Nat.ltb_spec (writes s) 4); [done|].
  intros _. by apply Nat.leb_le.
Qed.

(** What holds of a running goroutine; [g] is the number of failures counted. *)
Definition goOk (g : nat) (i : nat) (x : ulGo) : Prop :=
  match x with
  | Attempt k => (1 <= k <= maxRetries)%nat /\ forall j, (1 <= j < k)%nat -> ~ took i j
  | GivenUp => forall j, (1 <= j <= maxRetries)%nat -> ~ took i j
  | Counting n => 0 <= n <= Z.of_nat g /\ forall j, (1 <= j <= maxRetries)%nat -> ~ took i j
  end.

(** [G] is the set of the chunks whose failure was counted. *)
Record ulInv (s : ulState) (G : gset nat) : Prop := {
  iv_dead : ulDead s = false;
  iv_next : (ulNext s <= total)%nat;
  iv_slots : (size (ulActive s) <= Z.to_nat numWorkers)%nat;
  iv_active i x : ulActive s !! i = Some x -> (i < ulNext s)%nat /\ (i ∉ ulTaken s) /\ (i ∉ G) /\ goOk (size G) i x;
  iv_taken i : i ∈ ulTaken s -> (i < ulNext s)%nat /\ (i ∉ G) /\ exists c, c ∈ ulSent s /\ scIndex c = i /\ took i (scAttempt c);
  iv_given i : i ∈ G -> (i < ulNext s)%nat /\ forall j, (1 <= j <= maxRetries)%nat -> ~ took i j;
  iv_sent : Forall sentOk (ulSent s);
  iv_cover i : (i < ulNext s)%nat -> i ∈ ulTaken s \/ i ∈ G \/ is_Some (ulActive s !! i);
  iv_err : 0 <= ulErr s <= Z.of_nat (size G) /\ (ulErr s = 0 -> G = ∅)
}.

Lemma ulInv_init : ulInv ulInit ∅.
Proof.
  split; cbn; [done|lia|rewrite map_size_empty; lia|by intros i x; rewrite lookup_empty|by intros i ?%elem_of_nil|set_solver|constructor|lia|].
  rewrite size_empty. split; [lia|done].
Qed.

Lemma goOk_mono g g' i x : (g <= g')%nat -> goOk g i x -> goOk g' i x.
Proof. intros Hg. destruct x; cbn; [done..|]. intros [? ?]. split; [lia|done]. Qed.

(** Steps a running goroutine has left, and an upload. *)
Definition ulWeight (x : ulGo) : nat := match x with Attempt k => 6 - k | GivenUp => 2 | Counting _ => 1 end.
Definition ulTodo (s : ulState) : nat := 6 * (total - ulNext s) + weightBy ulWeight (ulActive s).

Lemma active_fresh s G i : ulInv s G -> (ulNext s <= i)%nat -> ulActive s !! i = None.
Proof. intros Hi Hle. destruct (ulActive s !! i) as [x|] eqn:E; [|done]. apply (iv_active _ _ Hi) in E as [? _]. lia. Qed.

Lemma spawn_inv sent taken err next act G :
  ulInv (mkUl sent taken err next act false) G -> (next < total)%nat -> (size act < Z.to_nat numWorkers)%nat ->
  ulInv (mkUl sent taken err (S next) (<[next := Attempt 1]> act) false) G.
Proof.
  intros Hi Hlt Hsz. pose proof (active_fresh _ _ next Hi ltac:(cbn; lia)) as Hnone. cbn in Hnone. destruct Hi as [_ Hn Hsl Ha Ht Hg Hs Hv He]. cbn in *.
  split; cbn; [done|lia|rewrite map_size_insert_None by done; lia| | | |done| |done].
  - intros i x [[<- <-]|[N Hx]]%lookup_insert_Some; [|destruct (Ha i x Hx) as (? & ? & ? & ?); split_and!; [lia|done..]].
    split_and!; [lia|intros [? _]%Ht; lia|intros [? _]%Hg; lia|]. cbn. unfold maxRetries. split; [lia|]. intros j Hj. lia.
  - intros i [? ?]%Ht. split; [lia|done].
  - intros i [? ?]%Hg. split; [lia|done].
  - intros i Hi. destruct (decide (i = next)) as [->|N]; [do 2 right; rewrite lookup_insert_eq; by eexists|].
    rewrite lookup_insert_ne by done. apply Hv. lia.
Qed.

(** A goroutine goes on to another state, having written [new]. *)
Lemma goes_inv sent taken err next act G i x x' new :
  ulInv (mkUl sent taken err next act false) G -> act !! i = Some x -> goOk (size G) i x' -> Forall sentOk new ->
  ulInv (mkUl (sent ++ new) taken err next (<[i := x']> act) false) G.
Proof.
  intros [_ Hn Hsl Ha Ht Hg Hs Hv He] Hx Hok Hnew. cbn in *. destruct (Ha i x Hx) as (Hin & Hit & HiG & _).
  split; cbn; [done|done|rewrite map_size_insert_Some by done; done| | |done|by apply Forall_app| |done].
  - intros j y [[<- <-]|[N Hy]]%lookup_insert_Some; [by split_and!|by apply Ha].
  - intros j (? & ? & c & Hc & ?)%Ht. split_and!; [done..|]. exists c. split; [apply elem_of_app; by left|done].
  - intros j Hj. destruct (decide (j = i)) as [->|N]; [do 2 right; rewrite lookup_insert_eq; by eexists|].
    rewrite lookup_insert_ne by done. by apply Hv.
Qed.

Lemma success_inv sent taken err next act G i k c :
  ulInv (mkUl sent taken err next act false) G -> act !! i = Some (Attempt k) -> sentOk c -> scIndex c = i -> took i (scAttempt c) ->
  ulInv (mkUl (sent ++ [c]) (taken ++ [i]) err next (delete i act) false) G.
Proof.
  intros [_ Hn Hsl Ha Ht Hg Hs Hv He] Hx Hc Hci Htk. cbn in *. destruct (Ha i _ Hx) as (Hin & Hit & HiG & _).
  split; cbn; [done|done|rewrite map_size_delete_Some by done; lia| | |done|apply Forall_app; split; [done|by constructor]| |done].
  - intros j y [N Hy]%lookup_delete_Some. destruct (Ha j y Hy) as (? & ? & ? & ?). split_and!; [done| |done..].
    rewrite elem_of_app. intros [?|?%list_elem_of_singleton]; [done|congruence].
  - intros j [Hj|Hj%list_elem_of_singleton]%elem_of_app.
    + destruct (Ht j Hj) as (? & ? & c' & ? & ?). split_and!; [done..|]. exists c'. split; [apply elem_of_app; by left|done].
    + subst j. split_and!; [done..|]. exists c. split; [apply elem_of_app; right; apply list_elem_of_here|done].
  - intros j Hj. destruct (decide (j = i)) as [->|N]; [left; apply elem_of_app; right; apply list_elem_of_here|].
    rewrite lookup_delete_ne by done. destruct (Hv j Hj) as [?|?]; [left; apply elem_of_app; by left|by right].
Qed.

Lemma count_inv sent taken err next act G i n :
  ulInv (mkUl sent taken err next act false) G -> act !! i = Some (Counting n) ->
  ulInv (mkUl sent taken (n + 1) next (delete i act) false) ({[i]} ∪ G).
Proof.
  intros [_ Hn Hsl Ha Ht Hg Hs Hv He] Hx. cbn in *. destruct (Ha i _ Hx) as (Hin & Hit & HiG & Hr & Hno).
  assert (Hsz : size ({[i]} ∪ G) = S (size G)) by (rewrite size_union by set_solver; by rewrite size_singleton).
  split; cbn; [done|done|rewrite map_size_delete_Some by done; lia| | | |done| |rewrite Hsz; split; [lia|lia]].
  - intros j y [N Hy]%lookup_delete_Some. destruct (Ha j y Hy) as (? & ? & ? & ?). split_and!; [done|done|set_solver|].
    eapply goOk_mono; [|done]. lia.
  - intros j Hj. destruct (Ht j Hj) as (? & ? & ?). split_and!; [done| |done]. intros [?%elem_of_singleton|?]%elem_of_union; [congruence|done].
  - intros j [->%elem_of_singleton|Hj]%elem_of_union; [done|by apply Hg].
  - intros j Hj. destruct (decide (j = i)) as [->|N]; [right; left; set_solver|]. rewrite lookup_delete_ne by done.
    destruct (Hv j Hj) as [?|[?|?]]; [by left|right; left; set_solver|by do 2 right].
Qed.

Lemma ulInv_step s s' G : ulInv s G -> step s s' -> (exists G', ulInv s' G') /\ (ulTodo s' < ulTodo s)%nat.
Proof.
  intros Hi Hs. destruct Hs as [sent taken err next act Hlt Hsz|sent taken err next act i k Hk Hm|sent taken err next act i k chunk proof Hk Hm Hok
    |sent taken err next act i k chunk proof Hk Hm Hok|sent taken err next act i Hk|sent taken err next act i n Hk]; unfold ulTodo; cbn [ulNext ulActive].
  - pose proof (active_fresh _ _ next Hi ltac:(cbn; lia)) as Hnone. cbn in Hnone.
    split; [exists G; by apply spawn_inv|]. rewrite weightBy_insert by done. cbn. lia.
  - destruct (iv_active _ _ Hi i _ Hk) as (Hin & _). pose proof (iv_next _ _ Hi). cbn in *.
    destruct (chunkMessage_ok i) as (proof & Em & _); [lia|]. by specialize (Hm _ Em).
  - destruct (iv_active _ _ Hi i _ Hk) as (Hin & _ & _ & Hr & _). pose proof (iv_next _ _ Hi). cbn in *.
    destruct (chunkMessage_ok i) as (proof' & Em & Lp & Hp); [lia|]. rewrite Hm in Em. injection Em as -> ->.
    split; [exists G; eapply success_inv; [exact Hi|exact Hk| |done|done]; unfold sentOk; cbn; split_and!; [lia|lia|lia|by apply attempt_frames|done..]|].
    rewrite (weightBy_delete _ act i _ Hk). cbn. unfold maxRetries in *. lia.
  - destruct (iv_active _ _ Hi i _ Hk) as (Hin & _ & _ & Hr & Hno). pose proof (iv_next _ _ Hi). cbn in *.
    destruct (chunkMessage_ok i) as (proof' & Em & Lp & Hp); [lia|]. rewrite Hm in Em. injection Em as -> ->.
    assert (Hno' : forall j, (1 <= j < S k)%nat -> ~ took i j).
    { intros j Hj. destruct (decide (j = k)) as [->|]; [done|]. apply Hno. lia. }
    split.
    + exists G. apply (goes_inv _ _ _ _ _ _ i (Attempt k)); [done|done| |].
      * unfold maxRetries in *. destruct (Nat.leb_spec k 2); unfold goOk, maxRetries; [split; [lia|done]|]. intros j Hj. apply Hno'. lia.
      * destruct (bothFrames _) eqn:Ef; [|constructor]. constructor; [|constructor]. unfold sentOk; cbn; split_and!; [lia|lia|lia|done..].
    + rewrite <- insert_delete_eq, weightBy_insert by apply lookup_delete_eq. rewrite (weightBy_delete _ act i _ Hk).
      destruct (Nat.leb_spec k 2); unfold maxRetries in *; cbn in *; lia.
  - destruct (iv_active _ _ Hi i _ Hk) as (Hin & _ & _ & Hno). split.
    + exists G. rewrite <- (app_nil_r sent). apply (goes_inv _ _ _ _ _ _ i GivenUp); [done|done| |constructor].
      cbn. split; [exact (proj1 (iv_err _ _ Hi))|exact Hno].
    + rewrite <- insert_delete_eq, weightBy_insert by apply lookup_delete_eq. rewrite (weightBy_delete _ act i _ Hk). cbn. lia.
  - split; [exists ({[i]} ∪ G); by eapply count_inv|]. rewrite (weightBy_delete _ act i _ Hk). cbn. lia.
Qed.

Lemma ulInv_nsteps n s s' G : ulInv s G -> nsteps step n s s' -> (exists G', ulInv s' G') /\ (n + ulTodo s' <= ulTodo s)%nat.
Proof.
  intros Hi Hn. revert G Hi. induction Hn as [|n s1 s2 s3 H12 _ IH]; intros G Hi; [split; [by exists G|lia]|].
  destruct (ulInv_step _ _ _ Hi H12) as [(G2 & Hi2) Hlt]. destruct (IH G2 Hi2) as [? Hle]. split; [done|lia].
Qed.

(** A running goroutine can take a step; with none running there is a free slot. *)
Lemma ul_progress s G : 0 < numWorkers -> ulInv s G -> ulFinal total s \/ exists s', step s s'.
Proof.
  intros Hw Hi. pose proof (iv_dead _ _ Hi). pose proof (iv_next _ _ Hi). pose proof (iv_active _ _ Hi) as Ha.
  destruct s as [sent taken err next act dead]. cbn in *. subst dead. destruct (map_choose_or_empty act) as [(i & x & Hx)| ->].
  - right. destruct (Ha i x Hx) as (Hin & _). destruct x as [k| |n].
    + destruct (chunkMessage_ok i) as (proof & Em & _); [lia|].
      destruct (uploadAttempt (upStream env i k)) as [[]|e| |] eqn:Ea; [eexists; by eapply ulSuccess|eexists; eapply ulFailure; [done|done|congruence]..].
    + eexists. by eapply ulReadErr.
    + eexists. by eapply ulWriteErr.
  - destruct (decide (next = total)) as [->|Hne]; [left; by split_and!|right].
    eexists. apply ulSpawn; [lia|]. rewrite map_size_empty. lia.
Qed.

(** In the end every chunk was taken, or all attempts have failed and were counted. *)
Lemma ulInv_final s G : ulInv s G -> ulFinal total s ->
  (forall i, (i < total)%nat -> (i ∈ ulTaken s /\ exists c, c ∈ ulSent s /\ scIndex c = i /\ took i (scAttempt c)) \/
     ((i ∉ ulTaken s) /\ forall k, (1 <= k <= maxRetries)%nat -> ~ took i k)) /\
  (ulErr s = 0 <-> forall i, (i < total)%nat -> i ∈ ulTaken s).
Proof.
  intros Hi (En & Ea & _). assert (Hcov : forall i, (i < total)%nat -> i ∈ ulTaken s \/ i ∈ G).
  { intros i Hlt. destruct (iv_cover _ _ Hi i) as [?|[?|[x Hx]]]; [lia|auto|auto|]. by rewrite Ea, lookup_empty in Hx. }
  split.
  - intros i Hlt. destruct (Hcov i Hlt) as [Ht|Hg].
    + left. destruct (iv_taken _ _ Hi i Ht) as (_ & _ & Hc). done.
    + right. split; [|by apply (iv_given _ _ Hi)]. intros Ht. by destruct (iv_taken _ _ Hi i Ht) as (_ & N & _).
  - destruct (iv_err _ _ Hi) as [Hr Hz]. split.
    + intros E i Hlt. destruct (Hcov i Hlt) as [?|Hg]; [done|]. rewrite (Hz E) in Hg. set_solver.
    + intros Hall. destruct (decide (G = ∅)) as [E|N]; [rewrite E, size_empty in Hr; lia|].
      apply set_choose_L in N as [i Hg]. destruct (iv_given _ _ Hi i Hg) as [Hlt _].
      destruct (iv_taken _ _ Hi i (Hall i ltac:(lia))) as (_ & Hn & _). done.
Qed.
End UploadRuns.

(** ** Properties *)

(** With the answers it needs, an upload gets to its goroutines. *)
Theorem upload_starts `{EthLibLaws} `{Secp} `{StorageJson} cfg privateKey numWorkers env file fileKey :
  0 < ChunkSize cfg -> len file + ChunkSize cfg < 2 ^ 64 -> upFile env = Some file ->
  upReady cfg privateKey numWorkers env fileKey ->
  exists p, uploadPrepare cfg privateKey numWorkers env = Ok p /\ rdKey p = fileKey /\ registered cfg file p.
Proof.
  intros Hcs Hlen Hf Hr. destruct (uploadPrepare_ready cfg privateKey numWorkers env file Hcs Hlen Hf fileKey Hr) as (p & E & Ek).
  exists p. split_and!; [done|done|]. by eapply uploadPrepare_inv.
Qed.

(** C24 (functional). An upload that gets to its goroutines (the file could be read,
    its information was registered, both servers could be reached), with a positive
    chunk size and sizes within 64 bits: it has registered the length of the file, the
    number of its chunks and the root of their tree.  However its goroutines
    interleave and whatever the streams do, it never panics, never has more than
    [numWorkers] of them, and what an attempt has written whole is the piece of the
    file at its index, with one hash per level, the siblings on its path in that tree.
    With at least one worker it ends within six steps per chunk; and when it ends, each
    chunk was written whole in an attempt that a server answered with success, or all
    its three attempts have failed, and the count of failures, although written without
    a lock, is zero exactly when no chunk was given up. *)
Theorem upload_sends_proofs `{EthLibLaws} `{Secp} `{StorageJson} cfg privateKey numWorkers env file p :
  0 < ChunkSize cfg -> len file + ChunkSize cfg < 2 ^ 64 -> upFile env = Some file ->
  uploadPrepare cfg privateKey numWorkers env = Ok p ->
  let total := Z.to_nat (pieces (ChunkSize cfg) file) in
  let step := ulStep (ChunkSize cfg) file (rdLeaves p) total numWorkers (upStream env) in
  registered cfg file p /\ mjoin (filePieces cfg file) = file /\
  (forall n s, nsteps step n ulInit s ->
     (n <= 6 * total)%nat /\ ulDead s = false /\ (size (ulActive s) <= Z.to_nat numWorkers)%nat /\
     Forall (sentOk cfg env file (rdLeaves p)) (ulSent s) /\
     (0 < numWorkers -> ulFinal total s \/ exists s', step s s')) /\
  (forall s, rtc step ulInit s -> ulFinal total s ->
     (forall i, (i < total)%nat ->
        (i ∈ ulTaken s /\ exists c, c ∈ ulSent s /\ scIndex c = i /\ took env i (scAttempt c)) \/
        ((i ∉ ulTaken s) /\ forall k, (1 <= k <= maxRetries)%nat -> ~ took env i k)) /\
     (ulErr s = 0 <-> forall i, (i < total)%nat -> i ∈ ulTaken s)).
Proof.
  intros Hcs Hlen Hf Ep total step. pose proof (uploadPrepare_inv cfg privateKey numWorkers env file Hcs Hlen Hf p Ep) as Hreg.
  pose proof Hreg as (_ & _ & _ & Hb). split_and!; [done|by apply pieces_all| |].
  - intros n s Hn. destruct (ulInv_nsteps cfg numWorkers env file _ _ Hcs Hlen Hb n _ _ ∅ (ulInv_init cfg numWorkers env file _ _ Hcs Hlen Hb) Hn) as [(G & Hi) Hle].
    unfold ulTodo in Hle at 2. cbn in Hle. change (weightBy ulWeight ∅) with 0%nat in Hle. fold total in Hle.
    split_and!; [lia|apply (iv_dead _ _ _ _ _ _ _ Hi)|apply (iv_slots _ _ _ _ _ _ _ Hi)|apply (iv_sent _ _ _ _ _ _ _ Hi)|].
    intros Hw. by eapply ul_progress.
  - intros s [n Hn]%rtc_nsteps. destruct (ulInv_nsteps cfg numWorkers env file _ _ Hcs Hlen Hb n _ _ ∅ (ulInv_init cfg numWorkers env file _ _ Hcs Hlen Hb) Hn) as [(G & Hi) _].
    by eapply ulInv_final.
Qed.

(** Without workers the semaphore has no slot: the upload of a file that is not empty
    waits forever. *)
Theorem upload_no_workers `{EthLibLaws} `{Secp} `{StorageJson} cfg privateKey env file p r :
  0 < ChunkSize cfg -> len file + ChunkSize cfg < 2 ^ 64 -> upFile env = Some file -> file <> [] ->
  uploadPrepare cfg privateKey 0 env = Ok p -> ~ uploadFile cfg privateKey 0 env r.
Proof.
  intros Hcs Hlen Hf Hne Ep. destruct (uploadPrepare_inv cfg privateKey 0 env file Hcs Hlen Hf p Ep) as (Ef & _ & Et & _).
  unfold uploadFile. rewrite Ep, Et. intros (s & Hr & He).
  assert (s = ulInit) as ->.
  { apply rtc_inv in Hr as [<-|(s1 & Hs & _)]; [done|]. inversion Hs; subst; [lia|by rewrite lookup_empty in *..]. }
  destruct He as [[Hd _]|[[Hn _] _]]; [done|]. cbn in Hn.
  pose proof (pieces_cover (ChunkSize cfg) file Hcs 0 ltac:(destruct file; [done|cbn; lia])). cbn in *. lia.
Qed.

(** C23 (round trip). A download of an uploaded file, by a client with the chunk size of
    the upload, from servers that answer a request with a chunk that the upload had
    written to them for that index or with an error, in every interleaving of the
    goroutines of both: when it succeeds, it returns the length of the file, and the
    output is the file, whatever the output file held before, provided that it could be
    truncated; when the truncation fails, whose error is dropped, what a longer old
    output held beyond the file stays behind it.  When every request is answered and
    every write succeeds, the download succeeds. *)
Theorem upload_download `{EthLibLaws} `{Secp} `{StorageJson} cfg privateKey numWorkers upe u file workers key dne r out :
  0 < ChunkSize cfg -> len file + ChunkSize cfg < 2 ^ 63 -> upFile upe = Some file ->
  uploadFile cfg privateKey numWorkers upe (Ok u) -> dnInfo dne = Ok (uInfo u) ->
  (forall i data, dnAnswer dne i = Ok data -> exists c, c ∈ ulSent (uEnd u) /\ scIndex c = i /\ scData c = data) ->
  DownloadFile (ChunkSize cfg) workers key dne r out ->
  (forall n, r = Ok n -> n = len file /\ out = file ++ (if dnTruncate dne then [] else drop (length file) (dnOld dne))) /\
  (forall p, downloadPrepare key dne = Ok p ->
     (forall i, (i < Z.to_nat (TotalChunks (uInfo u)))%nat -> (exists data, dnAnswer dne i = Ok data) /\ dnWrite dne i = true) ->
     r = Ok (len file)).
Proof.
  intros Hcs Hlen Hf Eu Ei Ha Hd. unfold uploadFile in Eu.
  destruct (uploadPrepare cfg privateKey numWorkers upe) as [up| | |] eqn:Eup; [|done..].
  destruct (uploadPrepare_inv cfg privateKey numWorkers upe file Hcs ltac:(lia) Hf up Eup) as (Ef & Ec & Et & Hb).
  destruct Eu as (us & Hur & [[_ [=]]|[_ [= ->]]]). cbn [uInfo uEnd] in *. rewrite Ef, Et in Hur.
  apply rtc_nsteps in Hur as [n Hur].
  destruct (ulInv_nsteps cfg numWorkers upe file _ _ Hcs ltac:(lia) Hb n _ _ ∅ (ulInv_init cfg numWorkers upe file _ _ Hcs ltac:(lia) Hb) Hur) as [(G & Hui) _].
  unfold DownloadFile in Hd. destruct (downloadPrepare key dne) as [[info out0]| | |] eqn:Ep;
    [|split; [intros m ->; discriminate|done]..].
  assert (Hprep : info = rdInfo up /\ drop (length file) out0 = if dnTruncate dne then [] else drop (length file) (dnOld dne)).
  { unfold downloadPrepare in Ep. rewrite Ei in Ep. cbn [mbind outcome_bind] in Ep.
    destruct (ContentLen (rdInfo up) =? 0); [done|]. do 3 (apply bind_inv in Ep as (? & _ & Ep)).
    apply bind_inv in Ep as (r' & _ & Ep). destruct (firstParsed _ _); [|done].
    do 4 (apply bind_inv in Ep as (? & _ & Ep)). injection Ep as <- <-. split; [done|]. rewrite Ec. pose proof (len_nonneg file).
    rewrite to_int64_id by lia. destruct (dnTruncate dne); [|done]. rewrite (proj2 (Z.leb_le _ _)) by lia. cbn [andb].
    apply drop_ge. rewrite length_resize. unfold len. lia. }
  destruct Hprep as [-> Hdrop]. destruct Hd as (s & Hrun & Hfin & -> & ->). rewrite Et in *.
  assert (Hh : honest (ChunkSize cfg) file dne).
  { intros i data Hi Hdata. destruct (Ha i data Hdata) as (c & Hc & <- & <-).
    pose proof (iv_sent _ _ _ _ _ _ _ Hui) as Hs. rewrite Forall_forall in Hs. by destruct (Hs c Hc) as (_ & _ & _ & -> & _). }
  destruct (dlInv_steps (ChunkSize cfg) file workers dne out0 Hcs Hlen _ _ _ _ Hh ltac:(by apply dlInv_init) Hrun) as (W & C & Hi).
  unfold downloadResult. rewrite Et, Ec. split.
  - intros m Hm. destruct (Z.eqb_spec (dlCount s) (pieces (ChunkSize cfg) file)) as [Hz|]; [|done].
    injection Hm as <-. split; [done|]. rewrite <- Hdrop. by eapply dlInv_complete.
  - intros p _ Hnf. rewrite (dlInv_noFail _ _ _ _ Hcs s W C Hi Hnf Hfin). by rewrite Z.eqb_refl.
Qed.

(** C26 (termination). The goroutines of a download, in whatever order they
    are scheduled and whatever the servers answer: no more run at a time than
    the semaphore has slots, no run has more than three steps per chunk, and a
    run can go on until all chunks were started and have ended. *)
Theorem download_ends cs total workers env out :
  (forall n s, nsteps (dlStep cs total workers env) n (dlInit out) s ->
     (n <= 3 * total)%nat /\ (size (dlActive s) <= slots workers)%nat) /\
  (forall s, rtc (dlStep cs total workers env) (dlInit out) s ->
     dlFinal total s \/ exists s', dlStep cs total workers env s s').
Proof.
  split.
  - intros n s Hn. destruct (dlBound_nsteps _ _ _ _ _ _ _ (dlBound_init total workers out) Hn) as [[_ _ Hs] Hle].
    split; [|done]. unfold todo in Hle. simpl in Hle. change (weight ∅) with 0%nat in Hle. lia.
  - intros s [n Hn]%rtc_nsteps. destruct (dlBound_nsteps _ _ _ _ _ _ _ (dlBound_init total workers out) Hn) as [Hb _].
    by apply dl_progress.
Qed.

(** ** A concrete transfer *)

#[local] Instance toyStorageJson : StorageJson := {
  jsonResponse b := if bool_decide (b = [1]) then Some ("SUCCESS"%string, ""%string) else None
}.

Definition sampleCfg : Config :=
  mkConfig "" "" "" "" "" "" "" 991 2 "" "" "s1" "s2" ["s1"; "s2"].

Definition sampleFile : bytes := [1; 2; 3].
Definition sampleKey : bytes := replicate 32 7.

Definition okStream : stream := mkStream true 4 (writeFrameWithLength [1]).
Definition minedPolls : list poll := [PNotFound; PReceipt (mkChainReceipt 1 (Some 5) [[8]; [9]])].
Definition parse9 (l : bytes) : option bytes := if bool_decide (l = [9]) then Some sampleKey else None.

Definition sampleUp (streams : nat -> nat -> stream) : upEnv :=
  mkUpEnv (Some sampleFile) true true true (fun _ => Ok []) minedPolls true parse9 (fun _ => true) (fun k => (k =? 2)%nat) streams.

Definition sampleReadied : upReadied :=
  match uploadPrepare sampleCfg [5] 2 (sampleUp (fun _ _ => mkStream false 0 [])) with Ok p => p | _ => mkReadied [] (mkInfo [] 0 0) [] [] end.

(** The preparation does not look at the streams. *)
Lemma sample_prepared workers streams : 0 <= workers -> uploadPrepare sampleCfg [5] workers (sampleUp streams) = Ok sampleReadied.
Proof.
  intros Hw. transitivity (uploadPrepare sampleCfg [5] 2 (sampleUp streams)); [|vm_compute; reflexivity].
  unfold uploadPrepare. destruct (Z.ltb_spec workers 0); [lia|]. reflexivity.
Qed.

Definition sampleProof (i : nat) : list bytes :=
  match chunkMessage 2 sampleFile (rdLeaves sampleReadied) i with Ok (_, proof) => proof | _ => [] end.

(** Chunk 1 is taken at its second attempt, the first having failed after all was
    written; then chunk 0. *)
Definition sampleStreams (i k : nat) : stream :=
  match i, k with 1%nat, 1%nat => mkStream true 4 [] | _, _ => okStream end.
Definition sampleEnd : ulState :=
  mkUl [mkSent 1 1 [3] (sampleProof 1); mkSent 1 2 [3] (sampleProof 1); mkSent 0 1 [1; 2] (sampleProof 0)] [1%nat; 0%nat] 0 2 ∅ false.
Definition sampleUploaded : uploaded := mkUploaded sampleKey (rdInfo sampleReadied) sampleEnd.

Lemma sample_upload_run : rtc (ulStep 2 sampleFile (rdLeaves sampleReadied) 2 2 sampleStreams) ulInit sampleEnd.
Proof.
  unfold ulInit. eapply rtc_l; [apply ulSpawn; vm_compute; lia|]. eapply rtc_l; [apply ulSpawn; vm_compute; lia|].
  eapply rtc_l; [eapply (ulFailure _ _ _ _ _ _ _ _ _ _ _ 1%nat 1%nat); [reflexivity|vm_compute; reflexivity|vm_compute; discriminate]|].
  eapply rtc_l; [eapply (ulSuccess _ _ _ _ _ _ _ _ _ _ _ 1%nat 2%nat); [reflexivity|vm_compute; reflexivity|vm_compute; reflexivity]|].
  eapply rtc_l; [eapply (ulSuccess _ _ _ _ _ _ _ _ _ _ _ 0%nat 1%nat); [reflexivity|vm_compute; reflexivity|vm_compute; reflexivity]|].
  match goal with |- rtc _ ?x ?y => replace y with x; [apply rtc_refl|] end. vm_compute. reflexivity.
Qed.

Lemma sample_uploaded : uploadFile sampleCfg [5] 2 (sampleUp sampleStreams) (Ok sampleUploaded).
Proof.
  unfold uploadFile. rewrite sample_prepared by lia. cbv zeta. exists sampleEnd. split; [exact sample_upload_run|].
  right. split; [split_and!; vm_compute; reflexivity|]. reflexivity.
Qed.

Lemma upload_sends_proofs_witness :
  Forall (sentOk sampleCfg (sampleUp sampleStreams) sampleFile (rdLeaves sampleReadied)) (ulSent sampleEnd) /\
  (forall i, (i < 2)%nat -> i ∈ ulTaken sampleEnd).
Proof.
  destruct (upload_sends_proofs sampleCfg [5] 2 (sampleUp sampleStreams) sampleFile sampleReadied) as (_ & _ & Hs & Hf);
    [done|done|done|by apply sample_prepared|].
  destruct (proj1 (rtc_nsteps _ _) sample_upload_run) as [n Hn]. split.
  - exact (proj1 (proj2 (proj2 (proj2 (Hs n sampleEnd Hn))))).
  - apply (proj2 (Hf sampleEnd sample_upload_run ltac:(split_and!; vm_compute; reflexivity))). reflexivity.
Defined.

(** Chunk 1 is answered before chunk 0; the output file held four bytes. *)
Definition sampleDown (truncates : bool) (answer : nat -> outcome bytes) : downEnv :=
  mkDownEnv (Ok (rdInfo sampleReadied)) true true (Ok []) minedPolls parse9 true truncates [9; 9; 9; 9] (fun _ => true) (fun _ => true)
    answer (fun _ => true).

Definition chunkAnswers (i : nat) : outcome bytes :=
  match i with 0%nat => Ok [1; 2] | 1%nat => Ok [3] | _ => Err (ErrText "no chunk") end.

(** Both goroutines are started, the second one writes first. *)
Lemma run_two_chunks truncates info out0 answer d0 d1 :
  TotalChunks info = 2 -> answer 0%nat = Ok d0 -> answer 1%nat = Ok d1 ->
  let env := mkDownEnv (Ok info) true true (Ok []) minedPolls parse9 true truncates [9; 9; 9; 9] (fun _ => true) (fun _ => true) answer (fun _ => true) in
  rtc (dlStep 2 (Z.to_nat (TotalChunks info)) 2 env) (dlInit out0)
    (mkDl (writeAt 0 d0 (writeAt 2 d1 out0)) 2 2 ∅).
Proof.
  intros Et E0 E1 env. rewrite Et. change (Z.to_nat 2) with 2%nat. unfold dlInit.
  eapply rtc_l; [apply dlSpawn; [lia|vm_compute; lia]|].
  eapply rtc_l; [apply dlSpawn; [lia|vm_compute; lia]|].
  eapply rtc_l; [apply (dlWrite _ _ _ env _ _ _ _ 1%nat d1); [reflexivity|exact E1|vm_compute; discriminate|reflexivity]|].
  eapply rtc_l; [apply (dlWrite _ _ _ env _ _ _ _ 0%nat d0); [reflexivity|exact E0|vm_compute; discriminate|reflexivity]|].
  eapply rtc_l; [apply (dlDone _ _ _ env _ _ _ _ 1%nat); reflexivity|].
  eapply rtc_l; [apply (dlDone _ _ _ env _ _ _ _ 0%nat); reflexivity|].
  match goal with |- rtc _ ?x ?y => replace y with x; [apply rtc_refl|] end. f_equal.
Qed.

Lemma sample_download truncates answer d0 d1 out : answer 0%nat = Ok d0 -> answer 1%nat = Ok d1 ->
  out = writeAt 0 d0 (writeAt 2 d1 (if truncates : bool then [9; 9; 9] else [9; 9; 9; 9])) ->
  DownloadFile 2 2 [5] (sampleDown truncates answer) (Ok 3) out.
Proof.
  intros E0 E1 ->. unfold DownloadFile.
  assert (Ep : downloadPrepare [5] (sampleDown truncates answer) = Ok (rdInfo sampleReadied, if truncates then [9; 9; 9] else [9; 9; 9; 9]))
    by (destruct truncates; vm_compute; reflexivity).
  rewrite Ep. eexists. split; [apply run_two_chunks; [vm_compute; reflexivity|exact E0|exact E1]|].
  split; [split; [vm_compute; reflexivity|reflexivity]|]. split; [vm_compute; reflexivity|reflexivity].
Qed.

Lemma upload_download_witness :
  exists n, DownloadFile 2 2 [5] (sampleDown true chunkAnswers) (Ok n) sampleFile /\ n = len sampleFile.
Proof.
  exists 3. split; [by eapply sample_download|].
  assert (Hd : DownloadFile (ChunkSize sampleCfg) 2 [5] (sampleDown true chunkAnswers) (Ok 3) sampleFile) by (by eapply sample_download).
  destruct (upload_download sampleCfg [5] 2 (sampleUp sampleStreams) sampleUploaded sampleFile 2 [5]
              (sampleDown true chunkAnswers) (Ok 3) sampleFile) as [Hr _]; [done|done|done|exact sample_uploaded|done| |exact Hd|].
  - intros [|[|i]] data; cbn; intros [= <-]; [exists (mkSent 0 1 [1; 2] (sampleProof 0))|exists (mkSent 1 2 [3] (sampleProof 1))];
      (split; [|done]); repeat (apply list_elem_of_here || apply list_elem_of_further).
  - exact (proj1 (Hr 3 eq_refl)).
Defined.

Lemma download_ends_witness :
  exists n s, nsteps (dlStep 2 2 2 (sampleDown true chunkAnswers)) n (dlInit [9; 9; 9]) s /\ dlFinal 2 s /\
    (n <= 6)%nat /\ (size (dlActive s) <= 2)%nat.
Proof.
  destruct (proj1 (rtc_nsteps _ _) (run_two_chunks true (rdInfo sampleReadied) [9; 9; 9] chunkAnswers [1; 2] [3]
              ltac:(vm_compute; reflexivity) eq_refl eq_refl)) as [n Hn].
  exists n. eexists. split; [exact Hn|]. split; [split; reflexivity|].
  exact (proj1 (download_ends 2 2 2 (sampleDown true chunkAnswers) [9; 9; 9]) _ _ Hn).
Defined.

(** ** What the transfer does not check *)

(** The root is not looked at when a file is downloaded: chunks of the right
    number with other contents make a successful download of another file. *)
Theorem download_unverified :
  exists out, DownloadFile 2 2 [5] (sampleDown true (fun i => Ok (if (i =? 0)%nat then [6; 6] else [6]))) (Ok 3) out /\ out <> sampleFile.
Proof. exists [6; 6; 6]. split; [by eapply sample_download|done]. Qed.

(** A chunk that is too long overwrites what comes after it, and is counted all
    the same. *)
Theorem download_overwrites :
  exists out, DownloadFile 2 2 [5] (sampleDown true (fun i => Ok (if (i =? 0)%nat then [1; 2; 4; 4] else [3]))) (Ok 3) out /\
    out = [1; 2; 4; 4].
Proof. exists [1; 2; 4; 4]. split; [by eapply sample_download|done]. Qed.

(** An output that cannot be truncated keeps its end: the error is dropped. *)
Theorem download_keeps_tail :
  DownloadFile 2 2 [5] (sampleDown false chunkAnswers) (Ok 3) (sampleFile ++ [9]).
Proof. by eapply sample_download. Qed.

(** An upload of which no chunk arrived returns like a successful one; and its two
    goroutines may count one failure between them. *)
Theorem upload_hides_failures :
  exists s, uploadFile sampleCfg [5] 2 (sampleUp (fun _ _ => mkStream false 0 [])) (Ok (mkUploaded sampleKey (rdInfo sampleReadied) s)) /\
    ulSent s = [] /\ ulErr s = 1.
Proof.
  exists (mkUl [] [] 1 2 ∅ false). split; [|done]. unfold uploadFile. rewrite sample_prepared by lia. cbv zeta.
  eexists. split; [|right; split; [|reflexivity]]; [|split_and!; vm_compute; reflexivity].
  change (Z.to_nat (TotalChunks (rdInfo sampleReadied))) with 2%nat. unfold ulInit.
  eapply rtc_l; [apply ulSpawn; vm_compute; lia|]. eapply rtc_l; [apply ulSpawn; vm_compute; lia|].
  do 3 (eapply rtc_l; [eapply (ulFailure _ _ _ _ _ _ _ _ _ _ _ 0%nat); [reflexivity|vm_compute; reflexivity|vm_compute; discriminate]|]).
  do 3 (eapply rtc_l; [eapply (ulFailure _ _ _ _ _ _ _ _ _ _ _ 1%nat); [reflexivity|vm_compute; reflexivity|vm_compute; discriminate]|]).
  eapply rtc_l; [eapply (ulReadErr _ _ _ _ _ _ _ _ _ _ _ 0%nat); reflexivity|].
  eapply rtc_l; [eapply (ulReadErr _ _ _ _ _ _ _ _ _ _ _ 1%nat); reflexivity|].
  eapply rtc_l; [eapply (ulWriteErr _ _ _ _ _ _ _ _ _ _ _ 0%nat); reflexivity|].
  eapply rtc_l; [eapply (ulWriteErr _ _ _ _ _ _ _ _ _ _ _ 1%nat); reflexivity|].
  match goal with |- rtc _ ?x ?y => replace y with x; [apply rtc_refl|] end. vm_compute. reflexivity.
Qed.

(** A frame is read back up to the limit of the reader; the writer has none, and
    beyond 2^32 bytes the reader takes the start of the data for the frame. *)
Theorem frame_roundtrip data rest :
  (len data <= maxFrame -> readFrameWithLength (writeFrameWithLength data ++ rest) = Ok (data, rest)) /\
  (maxFrame < len data < 2 ^ 32 -> exists e, readFrameWithLength (writeFrameWithLength data ++ rest) = Err e).
Proof.
  rewrite readFrame_write. pose proof (len_nonneg data). split.
  - intros Hl. rewrite Z.mod_small by (unfold maxFrame in *; lia). cbv zeta. destruct (Z.gtb_spec (len data) maxFrame); [lia|].
    unfold len. by rewrite Nat2Z.id, take_app_length, drop_app_length.
  - intros Hl. rewrite Z.mod_small by lia. cbv zeta. destruct (Z.gtb_spec (len data) maxFrame); [eauto|lia].
Qed.

(** Both ways of waiting return a receipt of a transaction that succeeded in a
    block. *)
Theorem wait_returns_mined polls r :
  waitForTransaction polls = Ok r \/ waitForTransactionListener polls = Ok r -> crStatus r = 1 /\ mined r = true /\ PReceipt r ∈ polls.
Proof.
  intros [E|E]; revert E; induction polls as [|[r'| |] polls IH]; cbn; try done;
    try (intros E; destruct (IH E) as (? & ? & ?); split_and!; [done|done|by apply list_elem_of_further]).
  - destruct (crStatus r' =? 0); [done|]. destruct (mined r' && (crStatus r' =? 1)) eqn:Em.
    + intros [= ->]. apply andb_true_iff in Em as [? ?%Z.eqb_eq]. split_and!; [done|done|apply list_elem_of_here].
    + intros E. destruct (IH E) as (? & ? & ?). split_and!; [done|done|by apply list_elem_of_further].
  - destruct (mined r') eqn:Em.
    + destruct (Z.eqb_spec (crStatus r') 1); [|done]. intros [= ->]. split_and!; [done|done|apply list_elem_of_here].
    + intros E. destruct (IH E) as (? & ? & ?). split_and!; [done|done|by apply list_elem_of_further].
Qed.

(** The two disagree on a failure that is reported before the block is known. *)
Theorem wait_differs :
  waitForTransaction [PReceipt (mkChainReceipt 0 None []); PReceipt (mkChainReceipt 1 (Some 5) [])] = Err (ErrText "transaction failed") /\
  waitForTransactionListener [PReceipt (mkChainReceipt 0 None []); PReceipt (mkChainReceipt 1 (Some 5) [])] = Ok (mkChainReceipt 1 (Some 5) []).
Proof. split; reflexivity. Qed.

(** [findMissingChunks] on a list in increasing order: within the fuel given by
    the largest index it returns the numbers between two neighbours that are an
    even distance above the lower one. *)
Lemma missingFrom_spec fuel e c : 0 <= e -> c < 2 ^ 63 -> (Z.to_nat (c - e) < fuel)%nat ->
  exists l, missingFrom fuel e c = Ok l /\ forall x, x ∈ l <-> e <= x < c /\ (x - e) mod 2 = 0.
Proof.
  revert e. induction fuel as [|fuel IH]; intros e He Hc Hf; [lia|]. cbn [missingFrom].
  destruct (Z.ltb_spec e c).
  - rewrite wrap64_id by lia. destruct (IH (e + 2)) as (l & -> & Hl); [lia|lia|lia|].
    eexists. split; [reflexivity|]. intros x. rewrite elem_of_cons, Hl.
    replace (x - (e + 2)) with (x - e + (-1) * 2) by lia. rewrite Z_mod_plus_full. split.
    + intros [->|[Hx Hm]]; [by rewrite Z.sub_diag|]. split; [lia|done].
    + intros [Hx Hm]. destruct (decide (x = e)); [by left|right]. split; [|done].
      assert (x <> e + 1) by (intros ->; replace (e + 1 - e) with 1 in Hm by lia; done). lia.
  - eexists. split; [reflexivity|]. intros x. split; [by intros ?%elem_of_nil|lia].
Qed.

Theorem missing_between fuel data :
  Forall (fun x => 0 <= x < 2 ^ 62) data -> (forall i a b, data !! i = Some a -> data !! S i = Some b -> a < b) ->
  Forall (fun x => (Z.to_nat x < fuel)%nat) data ->
  exists l, findMissingChunks fuel data = Ok l /\
    forall x, x ∈ l <-> exists i a b, data !! i = Some a /\ data !! S i = Some b /\ a < x < b /\ (x - a) mod 2 = 0.
Proof.
  induction data as [|p [|c data] IH]; intros Hr Hs Hf.
  - exists []. split; [done|]. intros x. split; [by intros ?%elem_of_nil|]. by intros (i & a & b & Ha & _).
  - exists []. split; [done|]. intros x. split; [by intros ?%elem_of_nil|]. by intros ([|i] & a & b & Ha & Hb & _).
  - apply Forall_cons in Hr as [Hp Hr]. pose proof Hr as [Hc _]%Forall_cons. pose proof (Hs 0%nat p c eq_refl eq_refl) as Hpc.
    apply Forall_cons in Hf as [_ Hf]. pose proof Hf as [Hfc _]%Forall_cons.
    destruct IH as (l & El & Hl); [done|intros i; apply (Hs (S i))|done|].
    assert (Hhere : exists h, (if wrap64 (c - p) >? 2 then missingFrom fuel (wrap64 (p + 2)) c else Ok []) = Ok h /\
              forall x, x ∈ h <-> p < x < c /\ (x - p) mod 2 = 0).
    { rewrite !wrap64_id by lia. destruct (Z.gtb_spec (c - p) 2).
      - destruct (missingFrom_spec fuel (p + 2) c) as (h & -> & Hh); [lia|lia|lia|]. exists h. split; [done|]. intros x.
        rewrite Hh. replace (x - (p + 2)) with (x - p + (-1) * 2) by lia. rewrite Z_mod_plus_full.
        split; [intros [? ?]; split; [lia|done]|]. intros [Hx Hm]. split; [|done].
        assert (x <> p + 1) by (intros ->; replace (p + 1 - p) with 1 in Hm by lia; done). lia.
      - exists []. split; [done|]. intros x. split; [by intros ?%elem_of_nil|]. intros [Hx Hm].
        assert (x = p + 1) as -> by lia. by replace (p + 1 - p) with 1 in Hm by lia. }
    destruct Hhere as (h & Eh & Hh). exists (h ++ l). split.
    + cbn [findMissingChunks]. rewrite Eh. cbn [mbind outcome_bind]. cbn [findMissingChunks] in El. rewrite El. done.
    + intros x. rewrite elem_of_app, Hh, Hl. split.
      * intros [[Hx Hm]|(i & a & b & Ha & Hb & Hx)]; [by exists 0%nat, p, c|by exists (S i), a, b].
      * intros ([|i] & a & b & Ha & Hb & Hx); [left; by simplify_eq/=|right; by exists i, a, b].
Qed.

(** A chunk before the first or after the last one listed is not looked for. *)
Theorem missing_ends_unseen : findMissingChunks 10 [4; 6; 8] = Ok [] /\ findMissingChunks 10 [] = Ok [].
Proof. split; reflexivity. Qed.

(** * The transaction that registers a file

    [sendRawEthereumTransaction] ([FileTransfer]) run as a thread of the TCP
    client, next to whatever other threads do: the receipt it returns is that of
    the transaction it has signed. *)

Section Send.
Context `{EthLib} `{StateProto} `{ReceiptProto} `{ScProto} `{TxProto} `{Blst} `{BlstKeys} `{Secp} `{ErrorProto} `{HandlerProto}
  `{ClientCodec} `{EthTypes} `{!EthWallet}.

(** The receipt, when no error comes with it. *)
Definition rawReceipt (o : outcome (Receipt * EthTx * option GoError)) : outcome Receipt :=
  match o with Ok (r, _, None) => Ok r | Ok (_, _, Some e) => Err e | Err e => Err e | Panic => Panic | NoFuel => NoFuel end.

(** [h] is the hash of a transaction with the given fields that the key has
    signed for the chain. *)
Definition rawBuilt (chainId : Z) (key : bytes) (to : option bytes) (value : option Z) (data : bytes) (gas gasPrice : Z)
    (mt : receiptMatchType) (h : bytes) : Prop :=
  mt = matchByTxHash /\ exists nonce tx,
    SignTx (rawTx nonce gasPrice gas to (default 0 value) data) (LatestSignerForChainID chainId) key = Some tx /\ h = ethTxHash tx.

Lemma wp_sendRaw (R : regs) chainId key to value data gas gasPrice :
  wp R (sendRawEthereumTransaction chainId key to value data gas gasPrice)
    (fun o => ownedOk (rawBuilt chainId key to value data gas gasPrice) (rawReceipt o)).
Proof.
  unfold sendRawEthereumTransaction. destruct (chainId =? 0); [done|]. apply wp_try_any; [done..|]. intros a.
  destruct (SignTx _ _ key) as [tx|] eqn:Es; [|done]. destruct (MarshalBinary tx) as [raw|]; [|done]. apply wp_try_any; [done..|].
  intros acc. destruct (negb _) eqn:Eh; [done|]. apply negb_false_iff, bool_decide_eq_true in Eh. subst acc.
  apply wp_try; [done..|]. eapply wp_mono; [apply regs_le_refl| |apply wp_waitReceipt]. intros [r|e| |] Hr; [|done..].
  cbn. destruct (statusOk r) eqn:Eo; cbn; [|done]. split; [done|]. exists matchByTxHash, (ethTxHash tx). split; [|done].
  split; [done|]. by exists (AccountState.nonce a), tx.
Qed.
End Send.

(** A receipt that is returned without an error reports success and matches the
    hash of a transaction with the caller's fields, signed with the caller's key
    for the configured chain, whatever other threads of the client do. *)
Theorem push_receipt `{EthLib} `{StateProto} `{ReceiptProto} `{ScProto} `{TxProto} `{Blst} `{BlstKeys} `{Secp} `{ErrorProto}
    `{HandlerProto} `{ClientCodec} `{EthTypes} `{!EthWallet} chainId key to value data gas gasPrice version now es0 y0 es y r :
  clientRun version es0 (mkSystem (newClientState now) []) = Some y0 ->
  clientRun version (CCall (returning (fun o => VReceipt (rawReceipt o))
    (sendRawEthereumTransaction chainId key to value data gas gasPrice)) :: es) y0 = Some y ->
  threads y !! length (threads y0) = Some (Ret (VReceipt (Ok r))) ->
  statusOk r = true /\ exists mt h, rawBuilt chainId key to value data gas gasPrice mt h /\ matches mt h r.
Proof.
  intros Hr0 Hr Hv.
  apply (call_post version now es0 y0
           (returning (fun o => VReceipt (rawReceipt o)) (sendRawEthereumTransaction chainId key to value data gas gasPrice))
           (fun v => match v with VReceipt o => ownedOk (rawBuilt chainId key to value data gas gasPrice) o | _ => True end)
           es y (VReceipt (Ok r)) Hr0); [|exact Hr|done].
  intros R. apply wp_returning. cbv beta iota. apply wp_sendRaw.
Qed.
